(* ===== verification/_CoqProject ===== *)
-Q . S2P
Prelude.v
Bytes.v
Kit.v
Constants.v
JsMap.v
Pdas.v
Actions.v
ProgramActions.v
Packing.v
Compact.v
Builders.v
Signing.v
Accounts.v
Json.v
JsonText.v
ProgramWebauthn.v
Ownership.v
ChallengeReads.v
V1.v
ClientHelpers.v
Client.v
ClientOps.v
Samples.v
Deferred.v
ClientProps.v
ProgramChallenges.v
EndToEnd.v
EndToEndManage.v
ProgramAuth.v
ProgramHandlers.v
WorkerPool.v
WalletLookup.v
Ledger.v
LookupSafety.v
LookupSamples.v
Migration.v
MigrationProps.v
LegacyWeb3.v
LegacyCompact.v
LegacyBuilders.v
LegacyParity.v
LegacyActions.v
LegacyReads.v
LegacyCalls.v
LegacyOwnership.v
LegacyV1.v
LegacyLookup.v
LegacyHelpers.v
LegacyVetting.v
LegacyLookupParity.v
LegacyLookupSafety.v
LegacyClient.v
LegacyOps.v
LegacyClientParity.v
LegacyClientSame.v
LegacyMigration.v
LegacyMigrationParity.v
LegacyMigrationSame.v
LegacyDeferred.v
LegacyErrors.v
LegacyTransfer.v
LegacyStatus.v
RelayerTx.v
RelayerPolicy.v
RelayerProps.v
RelayerSim.v
RelayerServer.v
RelayerHttp.v
RelayerSafety.v
RelayerAnswers.v
RelayerSamples.v
RelayerStart.v
RelayerEndToEnd.v
SemVer.v
Release.v
ReleaseProps.v
ReleaseCommands.v
ReleaseScript.v
Survey.v
Keepers.v
