(* ===== verification/Prelude.v ===== *)
(** * LazorKit: the TypeScript SDK and the program it talks to

    LazorKit is a Solana smart wallet: an on-chain program (src/program) whose
    authorities are passkeys (P-256 WebAuthn credentials), Ed25519 keys and
    short-lived session keys, a TypeScript SDK (src/sdk/sdk-kit) that builds its
    instructions, finds a passkey's wallets and moves v1 wallets to v2, its twin on
    web3.js v1 (src/sdk/sdk-legacy), and a relayer (src/deploy/relayer) that pays
    for its users' transactions.  A passkey does not sign a transaction; it signs a
    32-byte challenge the SDK computes and the program recomputes from the
    transaction it receives.  If the two disagree by one byte the wallet is
    unusable; if the challenge leaves something out, a signature can be turned
    against its owner.  The first part of this development is about that agreement;
    the second about what the SDK concludes from a ledger that moves while it reads
    it, and what it plans from that; the third about what the relayer puts its
    signature under.

    ** The parts and the files

    - [Prelude]: the error monad ([result]), its notations in [js_scope] and the
      [lazor] hint and rewrite databases; [Bytes]: bytes, little-endian fields,
      [DataView] writes and [concatBytes]; [JsMap]: JavaScript's insertion-ordered
      [Map]; [Json], [JsonText]: [JSON.parse] and [JSON.stringify].
    - [Kit]: what is not in the repository, as the class [Kit] with its laws
      [KitLaws]: @solana/kit's addresses, codecs and program-derived addresses,
      SHA-256, base64 and P-256.  [ConcreteKit] is an instance the examples run on;
      it shows the laws can hold.  Its end is the shape of the node's answers.
    - [Constants] (constants.ts, system.ts), [Pdas] (pdas.ts, v1.ts), [Actions]
      (codecs/actions.ts), [Accounts] (codecs/accounts.ts, spl.ts), [Packing] and
      [Compact] (transactions/), [Builders] (instructions/builders.ts), [Signing]
      (secp256r1/secp256r1.ts, signing.ts), [ChallengeReads]
      (secp256r1/challengeReads.ts), [Ownership] (ownership.ts, signedMessage.ts),
      [V1] (v1.ts), [ClientHelpers], [Client], [ClientOps] (client.ts, types.ts),
      [Deferred] (types.ts, the wire form of a deferred payload):
      one definition per function or method, under the source's name.
    - [ProgramActions] (state/action.rs), [ProgramChallenges] (processor/,
      auth/secp256r1/mod.rs, entrypoint.rs) and the second halves of [Packing] and
      [Signing] (compact.rs, introspection.rs): the program's side of each format.
      [ProgramWebauthn] (auth/secp256r1/webauthn.rs) and [ProgramAuth]
      (auth/secp256r1/mod.rs, processor/execute/immediate.rs, state/): the whole
      passkey authenticator, and Execute up to the end of its authentication.
      [ProgramHandlers] (processor/execute/authorize.rs and deferred.rs,
      processor/session/create.rs, processor/authority/manage.rs, utils.rs):
      Authorize, ExecuteDeferred, CreateSession and AddAuthority whole, and the
      theorems that run the SDK's instructions through them.
    - [Samples]: the concrete client run the examples share; [ClientProps],
      [EndToEnd], [EndToEndManage]: the theorems about whole client calls.
    - [WorkerPool] ([mapBounded] of client.ts) and [WalletLookup] (client.ts:
      discovery, description and vetting of wallets).  [Ledger] is the setting
      of their theorems, no code: a history of ledger states, nodes that serve
      reads from it, and who can spend from a wallet.  [LookupSafety] has the
      theorems and [LookupSamples] a run.
    - [Migration] ([migrateV1Wallet] of client.ts), [MigrationProps]
      with a run; MigrateWallet's authentication is in
      [ProgramChallenges] (processor/migrate.rs, auth/ed25519.rs).
    - The relayer: [RelayerTx] (allowlist.mjs, txv1.mjs), [RelayerPolicy] and
      [RelayerSim] (policy.mjs: the static rules, the simulation), [RelayerServer]
      and [RelayerHttp] (server.mjs: the requests, the HTTP front); [RelayerProps],
      [RelayerSafety], [RelayerAnswers], [RelayerEndToEnd] have its theorems and
      [RelayerSamples] its runs.  [RelayerStart] (the rest of server.mjs): the command
      line, the configuration, the keypair file and the start of the process.
    - The web3.js SDK (src/sdk/sdk-legacy/src/utils): [LegacyWeb3] (its keys and
      checked buffers, bytes.ts, pdas.ts, spl.ts), [LegacyCompact] (packing.ts,
      compact.ts), [LegacyBuilders] (instructions.ts, secp256r1.ts, signing.ts),
      [LegacyActions] (actions.ts, accounts.ts);
      [LegacyParity] compares them with the kit SDK.  [LegacyReads]
      (challengeReads.ts), [LegacyOwnership] and [LegacyLookup] (ownership.ts,
      signedMessage.ts), [LegacyV1] (v1.ts).  The [LazorKitClient] of client.ts:
      [LegacyHelpers] (its argument checks and layouts), [LegacyVetting] (discovery
      and vetting), [LegacyClient] (construction, fees, passkey reads, CreateWallet,
      Execute), [LegacyOps] (the other operations), [LegacyMigration]
      ([migrateV1Wallet]), [LegacyTransfer] ([transferSol], and
      [createAndExtendLut] of transactions.ts), [LegacyDeferred] (types.ts, the wire
      form) and [LegacyErrors] (errors.ts, and error.rs of the program).
      [LegacyCalls] is the monad of its methods and the relation [agree] between a
      call of one SDK and the call of the other on the same node;
      [LegacyLookupParity], [LegacyClientParity] and [LegacyMigrationParity] relate
      the calls one by one, and [LegacyLookupSafety], [LegacyClientSame],
      [LegacyMigrationSame] and [LegacyStatus] have the theorems.
    - The release script (src/scripts/sdk-release.mjs): [SemVer] (version order),
      [Release] (dist-tag decisions, [plan], [verifyTag], [publish]),
      [ReleaseCommands] ([pack], [githubRelease], [oidcCheck], [main]);
      [ReleaseProps] and [ReleaseScript] have its theorems.
    - The scripts around the upgrade: [Survey] (src/scripts/survey-v1.ts,
      survey-v1-rent.ts, survey-v1-wallets.ts) and its theorems;
      [Keepers] (src/scripts/rehearse/close-expired-sessions.cjs,
      reclaim-deferred.cjs, and the instructions they send,
      processor/session/close_expired.rs and processor/execute/reclaim.rs, reached
      through entrypoint.rs).

    ** How the code is read

    A TypeScript function is a Rocq function; one that can throw returns [result],
    one that awaits RPC answers takes them as arguments.  A [LazorKit] object is
    the record [client] (the cached protocol config, the remembered payers, and how
    many questions were put to the outside), and a method is a [client → client *
    result A]: the state survives a throw, as it does in the class.  What the
    outside answers, and in which order concurrent reads settle, is the [Env]
    argument.  Numbers are [Z]; a write at width w goes through [le_split w], which
    wraps as the typed arrays do, and 32-bit shifts through [to_int32].  An optional
    parameter is an [option].  The challenge reads, which race each other and a
    retry timer, are a transition system ([step], [reaches]) whose events are the
    answers, the timers, the continuations and the passing of time; so is the
    worker pool ([WorkerPool.settle], [reachable]).  A relayer request runs in the
    monad [RelayerSim.R], in which every [await] passes time and lets the other
    requests change the shared state.  The release script runs in [Release.N], whose
    state is the npm registry, and a survey in [Survey.Q], which counts its calls and
    pauses.

    ** What is shown

    - End to end ([EndToEnd], [EndToEndManage]): for Execute, Authorize,
      AddAuthority, RemoveAuthority, TransferOwnership, CreateSession and
      RevokeSession, the challenge the program recomputes from the finalized
      instruction, with the roles the runtime gives its accounts, is the one the
      passkey signed.  Of five of them the rest of the way is shown too: with what an
      authenticator answers to the challenge, the program authorises an Execute
      ([ProgramAuth]); Authorize accepts and stores what ExecuteDeferred then accepts,
      which makes exactly the calls asked for; CreateSession and AddAuthority write
      the session and the authority that were asked for, and refuse only what the
      statement lists ([ProgramHandlers]).
    - What the program accepts ([ProgramAuth]): an Execute only with the consent of an
      authority or a live session of its wallet; an assertion for one request only and,
      as long as its authority is not removed, once only.  Its scanner of client data reads the members [JSON.parse] reads
      ([ProgramWebauthn]).
    - Formats: the compact layout resolves to the instructions it was built from
      with exactly the privileges asked ([Compact]); packing, auth payloads, session
      actions, accounts, token extensions and deferred payloads read back ([Packing], [Signing],
      [ProgramActions], [Accounts], [V1], [Deferred]); the accounts hash is computed over the
      same bytes on both sides; the challenge preimage is injective ([Signing]);
      derived addresses are separated ([Pdas]).
    - The challenge reads stop together, poll a bounded number of times and
      terminate ([ChallengeReads]); fee resolution caches and registers once
      ([ClientProps]).
    - Ownership proofs accept exactly genuine assertions, recovered keys verify,
      and the wallet chosen does not depend on discovery order ([Ownership]);
      argument checks, grants and roles ([ClientHelpers]); v1 tokens are classified
      without loss ([V1]).
    - A wallet that is adopted, or passes the vet, is safe in the ledger states that
      were read: the reads are made in an order in which whatever can make a power
      over the wallet is read no later than that power, and every power read that is
      not expired is the passkey's, or declared trusted ([LookupSafety.ReadOnlyBy]).
      The theorems claim nothing of later states, and one run shows why: a slot read
      from a node ahead of the scans hides a grant ([LookupSamples]).
      The pool takes each item once, keeps at most its limit in flight and ends.
    - A migration moves or reports every token once, delivers into a wallet it
      creates for its owner or one read as the owner's alone, into token accounts
      that were read as absent or the vault's and clean, and asks for exactly the
      signature MigrateWallet checks ([MigrationProps]).
    - The relayer signs only what passed the policy and a simulation, the policy is
      exactly its rules, requests and waits end in bounded time (the client's own
      upload apart), a node that catches up in time is enough, simulations are asked
      for at the slot floor or past it, the floor only rises, the hourly limit
      holds over every window, and the slot it waits for is the one the passkey
      signed ([RelayerProps], [RelayerSafety], [RelayerAnswers], [RelayerEndToEnd]).
      However it is started, it has a key of its own, keeps off mainnet and listens
      where it was told to ([RelayerStart]).
    - The two SDKs build the same instructions, layouts, hashes, challenges and
      auth payloads, so that the end-to-end theorems hold of either; where a
      number does not fit its field they differ, and the theorems say how
      ([LegacyParity], [LegacyCompact], [LegacyActions]).  What [parseActions]
      shows an operator is what the program enforces ([LegacyActions]).
    - The two clients serve an application alike: over any sequence of operations
      they return the same instructions or throw the same errors and leave the same
      caches, when the numbers, those read off the chain included, fit their fields
      ([LegacyClientSame]); their lookups and their migrations agree
      ([LegacyLookupSafety], [LegacyMigrationSame]), so the safety of adopted and
      vetted wallets carries over; the challenge reads of one simulate the other's
      ([LegacyReads]); ownership proofs are judged alike but behind a byte-order
      mark ([LegacyOwnership]).  Their deferred payloads are not interchangeable
      ([LegacyDeferred]).
    - Over any sequence of invocations of the release script no dist-tag goes back
      from what npm showed during the invocation, none goes back at all when the views
      are current, and only two of its commands change one ([ReleaseScript]); [compareVersions] is
      a total order ([SemVer]); a tag that [plan] or [verifyTag] accepts is the one
      that was built ([ReleaseProps]).
    - The status methods show what the program stored ([LegacyStatus]), and the
      error names are those the program declares ([LegacyErrors]).
    - The surveys count every account, lamport and token once and agree with each
      other ([Survey]); the keepers pick exactly what the program would close, what
      they send is accepted, closes only what is dead and returns the whole rent
      ([Keepers]).

    ** Bounds and fuel

    [Json.value] recurses on fuel [S (2 * length text)]; [Json.value_fuel] shows more
    changes nothing.  [V1.tlv_loop] has the length of the account as fuel (each
    record takes at least four bytes) and [V1.read_mints] the number of mints (each
    batch takes one at least).  [ProgramActions.parse_loop] has one unit per byte.
    [WalletLookup.read_pages] and [Migration.read_dests] have one unit per account
    (a page takes at least one), [WorkerPool.run_pool] one per item (each turn ends
    one, [WorkerPool.mapBounded_settles]); [atOrAfterSlot] is tried five times, as
    in the code; the relayer's wait has fuel for its whole timeout
    ([RelayerAnswers.confirmation_wait_ends]).  The web3.js loops have the same
    fuel ([LegacyV1.tlv_turns], [LegacyV1.read_mint_infos],
    [LegacyLookup.read_keys], [LegacyLookup.run_workers],
    [LegacyMigration.check_dests]), and the parity theorems compare them with the
    kit's.  [LegacyTransfer.wait_slot] polls the node as often as its fuel says:
    it returns once the fuel covers the reads in which the slot moves on
    ([LegacyTransfer.lut_returns]).  [Release.wait_visible] asks twenty times, as
    in the code.  [LegacyErrors.lower_hex] prints eight digits,
    enough for 32 bits.  [ProgramWebauthn.scan] has one unit per byte
    ([ProgramWebauthn.scan_fuel]), [RelayerStart.parse_argv] one per argument and
    grouped option ([RelayerStart.parse_argv_fuel]), [Survey.batches] one per element
    ([Survey.batches_concat]).
    The end-to-end theorems ask for what the wire format can carry: at most sixteen
    inner instructions ([MAX_COMPACT_INSTRUCTIONS]), fewer than 256 accounts and 2^16
    data bytes in each ([fits]), a counter below 2^32 and a slot at most 150 old
    ([fresh]).

    ** What is not modelled

    Network transport and the text of error messages; P-256, SHA-256, base58 and
    base64 themselves (parameters).  Of the program: what follows authentication in
    Execute and MigrateWallet (policy evaluation, the calls, the token loop), the effects
    of calls to other programs, of which creating an account is a parameter, fee
    transfers, and the checks and writes of CreateWallet, RemoveAuthority,
    TransferOwnership, RevokeSession and the protocol's administration.
    Of the relayer: logs, banner and shutdown.  Of the web3.js SDK: [buildLegacyTx] and
    [buildV0Tx], which only hand their arguments to web3.js; a [PublicKey] is an
    address, and numbers are integers.  Of the release script: log lines, the summary
    of a plan and the text of release notes.  Of the surveys and keepers: what they
    print.  The other rehearsal scripts, which drive a validator, the smoke tests,
    examples and tests.

    Next, in this order: policy evaluation after authentication
    (processor/execute/actions.rs) and the token loop of MigrateWallet; the deferred
    execution of a payload by an executor other than the one named. *)
From stdpp Require Export base tactics option list sets strings.
From Stdlib Require Export ZArith Lia.

(** ** Exceptions

    Every [throw] of the modelled TypeScript is a constructor of [error], with
    the values its message interpolates.  [EExternal] is an exception raised by
    a third-party callee (an RPC client, the address codec, a curve library),
    [ERpc] an error of web3.js's connection, with its code when it has one;
    the [P*] constructors are the on-chain program's error codes. *)
Inductive error :=
  | EIndexCeiling (index : Z)
  | EMissingProgram (byte : Z) (supplied : nat)
  | EMissingAccount (index : Z) (supplied : nat)
  | EAccountTooShort (got want : nat)
  | EAuthDataTooLong (got : nat)
  | EClientDataTooLong (got : nat)
  | ESignatureLength (got : nat)
  | EPublicKeyLength (got : nat)
  | EMessageTooLong (got : nat)
  | EByteLength (name : string) (want got : nat)
  | EAllZero (name : string)
  | EOwnerNeedsOptIn
  | ERoleOutOfRange (role : Z)
  | EDelegateNeedsPolicy
  | EPolicyRankMismatch
  | EMalformedActions (offset : nat)
  | EUnrestrictedSession
  | ENotAMessage
  | EDeferredShape
  | EDeferredVersion (got : option Z)
  | EWrongExecutor
  | EAuthorityNotFound
  | ENotAuthority
  | ENotSecp256r1
  | EMinContextSlot (slot : Z) (waited : Z)
  | ERetiredClient
  | ENeedSeedOrWallet
  | ENoV1Wallet
  | ENotOwnerRank
  | ENotPasskeyAuthority
  | EOwnerKeyMismatch
  | EOwnerRpMismatch
  | ERefusedDestination (named : string)
  | ERiggedDestination (count : nat)
  | ETooManyTokens (got : nat)
  | ERangeError
  | ECannotInferProgram (endpoint : string)
  | EWalletNotFound
  | PInvalidInstructionData
  | PActionBufferInvalid
  | PInvalidAuthorityPayload
  | PInvalidInstruction
  | PInvalidPubkey
  | PInvalidMessageHash
  | PSignatureReused
  | PInvalidSignatureAge
  | PArithmeticOverflow
  | PMissingRequiredSignature
  | PNotEnoughAccountKeys
  | PDeferredHashMismatch
  | PFeeAccountsRequired
  | PInvalidAccountData
  | PInvalidAuthenticationKind
  | PInvalidExpiryWindow
  | PDeferredAuthorizationExpired
  | PInvalidSeeds
  | PActionWhitelistBlacklistConflict
  | PIncorrectProgramId
  | PIllegalOwner
  | PPermissionDenied
  | PInvalidMessage
  | PSessionExpired
  | PAccountVersionMismatch
  | PSessionNotExpired
  | PUnauthorizedReclaim
  | PDeferredAuthorizationNotExpired
  | PWrongProgramAddress
  | PRetiredDeployment
  | PSelfReentrancyNotAllowed
  | PInvalidSessionDuration
  | PAccountAlreadyInitialized
  | PInvalidArgument
  | PDelegateRequiresPolicy
  | PPolicyRankMismatch
  | PPolicyBearingAuthorityCannotDelegate
  | ERpc (code : option Z) (message : string)
  | EExternal (tag : string).

#[export] Instance error_eq_dec : EqDecision error.
Proof. solve_decision. Defined.

(** ** The error monad

    A function that may throw returns [outcome E A]; [E] is [error] for the SDK
    and the program ([result A]), and the relayer's own exceptions in the files
    that model it. *)
Inductive outcome (E A : Type) :=
  | Ok (a : A)
  | Throw (e : E).
Arguments Ok {E A} a.
Arguments Throw {E A} e.

Abbreviation result := (outcome error).

#[export] Instance outcome_ret {E} : MRet (outcome E) := @Ok E.
#[export] Instance outcome_bind {E} : MBind (outcome E) := λ A B f m,
  match m with Ok a => f a | Throw e => Throw e end.
#[export] Instance outcome_fmap {E} : FMap (outcome E) := λ A B f m,
  match m with Ok a => Ok (f a) | Throw e => Throw e end.

#[export] Instance outcome_eq_dec `{EqDecision E, EqDecision A} : EqDecision (outcome E A).
Proof. solve_decision. Defined.

Definition is_ok {E A} (m : outcome E A) : bool :=
  match m with Ok _ => true | Throw _ => false end.

(** A callee that answers [None] has thrown. *)
Definition of_option {E A} (e : E) (o : option A) : outcome E A :=
  match o with Some a => Ok a | None => Throw e end.

(** [if (c) throw e;] *)
Definition throw_if {E} (c : bool) (e : E) : outcome E unit :=
  if c then Throw e else Ok ().

Declare Scope js_scope.
Delimit Scope js_scope with js.
Notation "'throw!' e 'when' c ; k" := (throw_if c e ≫= λ _, k)
  (at level 10, c at level 100, e at level 100, k at level 200, only parsing) : js_scope.

(** [xs.map(f)] where [f] may throw: left to right, stopping at the first
    exception. *)
Fixpoint mapR {E A B} (f : A → outcome E B) (l : list A) : outcome E (list B) :=
  match l with
  | [] => Ok []
  | x :: l => y ← f x; ys ← mapR f l; Ok (y :: ys)
  end.

(** ** Hint databases and tactics *)
Create HintDb lazor.
Create Rewrite HintDb lazor.
Create Rewrite HintDb lazor_len.

(** Case on the scrutinee of every [match]/[if] over a [result] or [option] in
    the hypotheses, discarding the impossible branches. *)
Ltac invert_ok :=
  repeat match goal with
  | H : Ok _ = Ok _ |- _ => injection H as H; subst
  | H : Throw _ = Ok _ |- _ => discriminate H
  | H : Ok _ = Throw _ |- _ => discriminate H
  | H : (match ?m with Ok _ => _ | Throw _ => _ end) = _ |- _ =>
      let E := fresh "E" in destruct m eqn:E; simpl in H
  | H : (if ?c then _ else _) = Ok _ |- _ =>
      let E := fresh "E" in destruct c eqn:E; simpl in H
  | H : throw_if ?c _ = Ok _ |- _ => unfold throw_if in H
  | H : (_ ≫= _) = Ok _ |- _ => unfold mbind, outcome_bind in H; simpl in H
  end.

(** Split conjunctions and boolean connectives of the hypotheses. *)
Ltac bool_split :=
  repeat match goal with
  | H : _ && _ = true |- _ => apply andb_true_iff in H as [? ?]
  | H : _ || _ = false |- _ => apply orb_false_iff in H as [? ?]
  | H : negb _ = true |- _ => apply negb_true_iff in H
  | H : negb _ = false |- _ => apply negb_false_iff in H
  end.

(** ** Lemmas on [outcome] *)
Lemma bind_ok {E A B} (a : A) (f : A → outcome E B) : (Ok a ≫= f) = f a.
Proof. reflexivity. Qed.

Lemma bind_throw {E A B} (e : E) (f : A → outcome E B) : (Throw e ≫= f) = Throw e.
Proof. reflexivity. Qed.

Lemma bind_inv {E A B} (m : outcome E A) (f : A → outcome E B) b :
  (m ≫= f) = Ok b → ∃ a, m = Ok a ∧ f a = Ok b.
Proof. destruct m; [eauto | discriminate]. Qed.

Lemma throw_if_ok {E} c (e : E) : throw_if c e = Ok () ↔ c = false.
Proof. destruct c; split; done. Qed.

Lemma throw_if_inv {E} c (e : E) u : throw_if c e = Ok u → c = false.
Proof. by destruct c. Qed.

Lemma of_option_ok {E A} (e : E) (o : option A) a : of_option e o = Ok a ↔ o = Some a.
Proof. destruct o; split; naive_solver. Qed.

Lemma mapR_ok {E A B} (f : A → outcome E B) l ys :
  mapR f l = Ok ys ↔ Forall2 (λ x y, f x = Ok y) l ys.
Proof.
  revert ys; induction l as [|x l IH]; intros ys; simpl; split.
  - intros [= <-]; constructor.
  - intros H; inversion H; done.
  - intros (y & Hy & (ys' & Hys & [= <-])%bind_inv)%bind_inv.
    constructor; [done | by apply IH].
  - intros H; inversion H as [|? y ? ys' Hy Hys]; subst.
    apply IH in Hys. by rewrite Hy, bind_ok, Hys.
Qed.

Lemma mapR_total {E A B} (f : A → outcome E B) (g : A → B) l :
  (∀ x, x ∈ l → f x = Ok (g x)) → mapR f l = Ok (g <$> l).
Proof.
  induction l as [|x l IH]; intros H; [done|]. simpl.
  rewrite (H x) by set_solver. rewrite bind_ok, IH by set_solver. done.
Qed.

Lemma mapR_length {E A B} (f : A → outcome E B) l ys :
  mapR f l = Ok ys → length ys = length l.
Proof. intros H%mapR_ok. symmetry. by eapply Forall2_length. Qed.

#[export] Hint Rewrite @bind_ok @bind_throw : lazor.

(** ** Lemmas on lists *)
Lemma app_inj_len {A} (a b c d : list A) :
  length a = length c → a ++ b = c ++ d → a = c ∧ b = d.
Proof. apply app_inj_1. Qed.

Lemma take_app_len {A} (a b : list A) n : n = length a → take n (a ++ b) = a.
Proof. intros ->. apply take_app_length. Qed.

Lemma drop_app_len {A} (a b : list A) n : n = length a → drop n (a ++ b) = b.
Proof. intros ->. apply drop_app_length. Qed.

Lemma forallb_Forall {A} (p : A → bool) l : forallb p l = true ↔ Forall (λ x, p x = true) l.
Proof. rewrite List.forallb_forall, Forall_forall. setoid_rewrite list_elem_of_In. done. Qed.

Lemma existsb_Exists {A} (p : A → bool) l : existsb p l = true ↔ ∃ x, x ∈ l ∧ p x = true.
Proof. rewrite List.existsb_exists. setoid_rewrite list_elem_of_In. done. Qed.

Lemma existsb_false {A} (p : A → bool) l :
  existsb p l = false ↔ ∀ x, x ∈ l → p x = false.
Proof.
  rewrite <- not_true_iff_false, existsb_Exists. split.
  - intros H x Hx. apply not_true_iff_false. intros Hp. apply H. eauto.
  - intros H (x & Hx & Hp). rewrite H in Hp; done.
Qed.

(** [xs.filter(p)] of the same elements in another order. *)
#[export] Instance filter_Permutation {A} (p : A → bool) :
  Proper (Permutation ==> Permutation) (List.filter p).
Proof.
  induction 1 as [|x l k _ IH|x y l|l k m _ IH1 _ IH2]; simpl; try done.
  - destruct (p x); [by constructor | done].
  - destruct (p x), (p y); try done. apply Permutation_swap.
  - by rewrite IH1.
Qed.

Lemma elem_of_filter_bool {A} (p : A → bool) l x : x ∈ List.filter p l ↔ x ∈ l ∧ p x = true.
Proof. rewrite !list_elem_of_In. apply List.filter_In. Qed.
