(* ===== verification/Bytes.v ===== *)
(** * Byte buffers

    [Uint8Array]s as lists of bytes: element stores (which wrap modulo 256),
    [slice]/[subarray], [set], the little-endian [DataView] accessors and the
    [concatBytes] helper that every module of the SDK declares for itself.
    Bytes and little-endian words come from coqutil ([le_split], [le_combine]). *)
From S2P Require Import Prelude.
From coqutil Require Export Byte Word.LittleEndianList.
Local Open Scope Z_scope.

Abbreviation bytes := (list Byte.byte).

#[export] Instance byte_eq_dec : EqDecision Byte.byte := Byte.byte_eq_dec.
#[export] Instance byte_inhabited : Inhabited Byte.byte := populate Byte.x00.

(** The number a byte reads as, and the byte a stored number leaves. *)
Definition val (b : Byte.byte) : Z := byte.unsigned b.
Definition u8 (z : Z) : Byte.byte := byte.of_Z z.

(** [new Uint8Array(n)]: [n] zero bytes. *)
Definition zeros (n : nat) : bytes := replicate n Byte.x00.

(** [a.slice(s, e)], [a.subarray(s, e)] with non-negative bounds: clamped. *)
Definition slice (s e : nat) (a : bytes) : bytes := take (e - s) (drop s a).

(** [buf.set(part, off)] where [part] fits. *)
Definition set_at (off : nat) (part buf : bytes) : bytes :=
  take off buf ++ part ++ drop (off + length part) buf.

(** The [concatBytes] loop: allocate the total, then copy each part at a
    running offset. *)
Definition concat_total (parts : list bytes) : nat :=
  fold_left (λ total p, (total + length p)%nat) parts 0%nat.

Fixpoint concat_fill (parts : list bytes) (off : nat) (out : bytes) : bytes :=
  match parts with
  | [] => out
  | p :: parts => concat_fill parts (off + length p) (set_at off p out)
  end.

Definition concatBytes (parts : list bytes) : bytes :=
  concat_fill parts 0 (zeros (concat_total parts)).

(** [value & 0xff, (value >> 8) & 0xff]. *)
Definition u16LE (value : Z) : bytes :=
  [u8 (Z.land value 255); u8 (Z.land (Z.shiftr value 8) 255)].

(** [DataView.setUint16/32], [setBigUint64], [setBigInt64], little-endian: the
    value is reduced modulo [2 ^ (8 * width)]. *)
Definition setUint16 (v : Z) : bytes := le_split 2 v.
Definition setUint32 (v : Z) : bytes := le_split 4 v.
Definition setBigUint64 (v : Z) : bytes := le_split 8 v.
Definition setBigInt64 (v : Z) : bytes := le_split 8 v.

(** [DataView.get*], little-endian: a [RangeError] past the end. *)
Definition getUint (w off : nat) (a : bytes) : result Z :=
  if (off + w <=? length a)%nat then Ok (le_combine (slice off (off + w) a))
  else Throw ERangeError.
Definition readU32 (a : bytes) (off : nat) : result Z := getUint 4 off a.
Definition readU64 (a : bytes) (off : nat) : result Z := getUint 8 off a.

(** [a.length === b.length && a.every((x, i) => x === b[i])]. *)
Fixpoint every_at (a b : bytes) : bool :=
  match a, b with
  | [], _ => true
  | x :: a, y :: b => (val x =? val y) && every_at a b
  | _ :: _, [] => false
  end.
Definition bytesEqual (a b : bytes) : bool :=
  (length a =? length b)%nat && every_at a b.

(** [new TextEncoder().encode(s)]; a string is held as its UTF-8 bytes. *)
Definition utf8 (s : string) : bytes := String.list_byte_of_string s.

(** [data[i]], where [undefined] compares equal to no number. *)
Definition byte_at (a : bytes) (i : nat) : option Z := val <$> a !! i.
Definition byte_is (a : bytes) (i : nat) (v : Z) : bool :=
  match byte_at a i with Some x => x =? v | None => false end.

(** ** Bytes *)
Lemma val_u8 z : val (u8 z) = z mod 256.
Proof. apply byte.unsigned_of_Z. Qed.

Lemma u8_val b : u8 (val b) = b.
Proof. apply byte.of_Z_unsigned. Qed.

Lemma val_range b : 0 <= val b < 256.
Proof. apply byte.unsigned_range. Qed.

Lemma val_inj b c : val b = val c → b = c.
Proof. apply byte.unsigned_inj. Qed.

Lemma val_u8_small z : 0 <= z < 256 → val (u8 z) = z.
Proof. intros. rewrite val_u8. by apply Z.mod_small. Qed.

Lemma u8_inj y z : 0 <= y < 256 → 0 <= z < 256 → u8 y = u8 z → y = z.
Proof. intros Hy Hz H%(f_equal val). by rewrite !val_u8_small in H. Qed.

Lemma u8_zero : u8 0 = Byte.x00.
Proof. reflexivity. Qed.

(** ** Slices and copies *)
Lemma length_zeros n : length (zeros n) = n.
Proof. apply length_replicate. Qed.

Lemma length_slice s e a : length (slice s e a) = (Nat.min (e - s) (length a - s))%nat.
Proof. unfold slice. by rewrite length_take, length_drop. Qed.

Lemma slice_app_l s e a b : (e <= length a)%nat → slice s e (a ++ b) = slice s e a.
Proof.
  intros H. unfold slice. destruct (Nat.le_gt_cases e s) as [He|He].
  - replace (e - s)%nat with 0%nat by lia. done.
  - rewrite drop_app_le by lia. rewrite take_app_le; [done|].
    rewrite length_drop. lia.
Qed.

Lemma slice_app_r s e a b :
  (length a <= s)%nat → slice s e (a ++ b) = slice (s - length a) (e - length a) b.
Proof.
  intros H. unfold slice. rewrite drop_app_ge by lia. f_equal. lia.
Qed.

Lemma slice_full n a : length a = n → slice 0 n a = a.
Proof. intros <-. unfold slice. rewrite drop_0, Nat.sub_0_r. by apply take_ge. Qed.

(** The middle part of three. *)
Lemma slice_mid s e a b c :
  s = length a → e = (length a + length b)%nat → slice s e (a ++ b ++ c) = b.
Proof.
  intros -> ->. rewrite slice_app_r by done. rewrite slice_app_l by lia.
  replace (length a - length a)%nat with 0%nat by lia. apply slice_full. lia.
Qed.

Lemma length_set_at off part buf :
  (off + length part <= length buf)%nat → length (set_at off part buf) = length buf.
Proof.
  intros. unfold set_at. rewrite !length_app, length_take, length_drop. lia.
Qed.

Lemma drop_zeros n m : drop n (zeros m) = zeros (m - n).
Proof. apply drop_replicate. Qed.

(** Writing at the end of the filled prefix of a zeroed buffer. *)
Lemma set_at_zeros off part pre n :
  off = length pre → (length part <= n)%nat →
  set_at off part (pre ++ zeros n) = (pre ++ part) ++ zeros (n - length part).
Proof.
  intros -> Hn. unfold set_at. rewrite take_app_length, <- app_assoc. do 2 f_equal.
  rewrite drop_app_ge by lia. rewrite drop_zeros. f_equal. lia.
Qed.

Lemma concat_total_acc parts n :
  fold_left (λ total p, (total + length (p : bytes))%nat) parts n
  = (n + length (concat parts))%nat.
Proof.
  revert n; induction parts as [|p parts IH]; intros n; simpl; [lia|].
  rewrite IH, length_app. lia.
Qed.

Lemma concat_fill_zeros parts pre n :
  (length (concat parts) <= n)%nat →
  concat_fill parts (length pre) (pre ++ zeros n)
  = pre ++ concat parts ++ zeros (n - length (concat parts)).
Proof.
  revert pre n; induction parts as [|p parts IH]; intros pre n; simpl.
  - intros _. by rewrite Nat.sub_0_r.
  - rewrite length_app. intros Hn. rewrite set_at_zeros by (done || lia).
    rewrite <- length_app, IH by lia. by rewrite Nat.sub_add_distr, <- !app_assoc.
Qed.

(** The copying loop is concatenation. *)
Lemma concatBytes_concat parts : concatBytes parts = concat parts.
Proof.
  unfold concatBytes, concat_total. rewrite concat_total_acc. simpl.
  pose proof (concat_fill_zeros parts [] (length (concat parts)) ltac:(lia)) as H.
  simpl in H. rewrite H, Nat.sub_diag. apply app_nil_r.
Qed.

(** ** Little-endian words *)
Lemma u16LE_split v : u16LE v = le_split 2 v.
Proof.
  unfold u16LE, u8. cbn [le_split]. unfold le_split.
  assert (Hm : ∀ z, byte.of_Z (Z.land z 255) = byte.of_Z z).
  { intros z. apply byte.unsigned_inj. rewrite !byte.unsigned_of_Z.
    unfold byte.wrap. change 255 with (Z.ones 8). rewrite Z.land_ones by lia.
    apply Z.mod_mod. lia. }
  by rewrite !Hm.
Qed.

Lemma le_split_inj n y z :
  0 <= y < 2 ^ (Z.of_nat n * 8) → 0 <= z < 2 ^ (Z.of_nat n * 8) →
  le_split n y = le_split n z → y = z.
Proof.
  intros Hy Hz H%(f_equal le_combine). rewrite !le_combine_split in H.
  by rewrite !Z.mod_small in H.
Qed.

Lemma le_combine_small n z :
  0 <= z < 2 ^ (Z.of_nat n * 8) → le_combine (le_split n z) = z.
Proof. intros. rewrite le_combine_split. by apply Z.mod_small. Qed.

Lemma le_combine_range n a : length a = n → 0 <= le_combine a < 2 ^ (8 * Z.of_nat n).
Proof. intros <-. apply le_combine_bound. Qed.

Lemma getUint_mid w off a b c :
  off = length a → w = length b → getUint w off (a ++ b ++ c) = Ok (le_combine b).
Proof.
  intros -> ->. unfold getUint. rewrite !length_app.
  destruct (Nat.leb_spec (length a + length b) (length a + (length b + length c))); [|lia].
  by rewrite slice_mid.
Qed.

(** ** Comparison *)
Lemma every_at_prefix a b : every_at a b = true ↔ take (length a) b = a.
Proof.
  revert b; induction a as [|x a IH]; intros [|y b]; simpl; try (split; done).
  rewrite andb_true_iff, Z.eqb_eq, IH. split.
  - intros [->%val_inj ->]. done.
  - intros [= -> ->]. done.
Qed.

Lemma bytesEqual_spec a b : bytesEqual a b = true ↔ a = b.
Proof.
  unfold bytesEqual. rewrite andb_true_iff, Nat.eqb_eq, every_at_prefix. split.
  - intros [Hl Ht]. rewrite <- Ht, Hl. symmetry. by rewrite firstn_all.
  - intros ->. by rewrite firstn_all.
Qed.

Lemma bytesEqual_refl a : bytesEqual a a = true.
Proof. by apply bytesEqual_spec. Qed.

Lemma bytesEqual_false a b : bytesEqual a b = false ↔ a ≠ b.
Proof. by rewrite <- not_true_iff_false, bytesEqual_spec. Qed.

(** ** Numbers *)

(** [Number(n)] of a [bigint] within a double's range: the nearest double, ties
    to even. *)
Definition round_double (z : Z) : Z :=
  if z <? 2 ^ 53 then z
  else
    let u := 2 ^ (Z.log2 z - 52) in
    let q := z / u in
    let r := z mod u in
    (if (2 * r <? u) || ((2 * r =? u) && Z.even q) then q else q + 1) * u.
Definition number_of_bigint (z : Z) : Z := if z <? 0 then - round_double (- z) else round_double z.

Lemma number_of_small z : 0 <= z <= 2 ^ 53 → number_of_bigint z = z.
Proof.
  intros H. unfold number_of_bigint. destruct (Z.ltb_spec z 0); [lia|].
  destruct (decide (z = 2 ^ 53)) as [->|]; [reflexivity|].
  unfold round_double. by destruct (Z.ltb_spec z (2 ^ 53)); [|lia].
Qed.

#[export] Hint Rewrite length_zeros length_slice @length_app @length_cons @length_nil
  length_le_split @length_take @length_drop : lazor_len.

(** Decide a length equation between buffers built from known parts. *)
Ltac len := autorewrite with lazor_len in *; try lia; simpl in *; lia.

#[global] Arguments val : simpl never.
#[global] Arguments u8 : simpl never.
#[global] Arguments zeros : simpl never.
#[global] Arguments concatBytes : simpl never.
