(* ===== verification/Kit.v ===== *)
(** * The third-party code the SDK calls

    [@solana/kit] (addresses, number codecs, program-derived addresses, base64),
    [@noble/hashes] and [@noble/curves] are not part of the repository.  They
    are the fields of the class [Kit]; [KitLaws] states the documented behaviour
    the SDK relies on.  [ConcreteKit] is an instance of both, so that every
    theorem that assumes the laws can be applied to computable functions.
    The last part is the shape of the JSON-RPC answers read through @solana/kit. *)
From S2P Require Import Prelude Bytes.
Local Open Scope Z_scope.

(** The two encodings of an ECDSA signature [p256] is asked to try. *)
Inductive sig_format := Der | CompactSig.

Class Kit := {
  (** An [Address]: a base58 string naming 32 bytes. *)
  address : Type;
  address_eq_dec :: EqDecision address;
  address_default : address;
  address_string : address → string;
  (** [address(s)]: throws unless [s] is a well-formed address. *)
  parse_address : string → option address;
  (** [getAddressEncoder().encode] and [getAddressDecoder().decode]. *)
  address_encode : address → bytes;
  address_decode : bytes → option address;
  (** [getU64Encoder().encode]: throws outside the u64 range. *)
  u64_encode : Z → option bytes;
  (** [getU8Decoder()], [getU16Decoder()], [getU32Decoder()], [getU64Decoder()]
      and [fixDecoderSize(getBytesDecoder(), n)] reading at an offset; [None]
      when the buffer is too short. *)
  uint_decode : nat → bytes → nat → option Z;
  fixed_bytes_decode : nat → bytes → nat → option bytes;
  (** [getProgramDerivedAddress]: the address and its bump, or a rejection. *)
  getProgramDerivedAddress : address → list bytes → option (address * Z);
  (** [sha256] of [@noble/hashes]. *)
  sha256 : bytes → bytes;
  (** [getBase64Decoder().decode] (bytes to text), [getBase64Encoder().encode]. *)
  base64_text : bytes → string;
  base64_bytes : string → option bytes;
  (** [p256.verify(signature, digest, key, {lowS: false, prehash: false, format})];
      [None] when it throws. *)
  p256_verify : sig_format → bytes → bytes → bytes → option bool;
  (** [p256.Signature.fromBytes(sig, format).addRecoveryBit(id)
      .recoverPublicKey(digest).toBytes(true)]; the outer [option] is
      [fromBytes], the inner one the recovery. *)
  p256_recover : sig_format → bytes → option (nat → bytes → option bytes);
}.

(** The standard base64 alphabet and its padding. *)
Definition base64_char (c : Byte.byte) : bool :=
  let v := val c in
  ((65 <=? v) && (v <=? 90)) || ((97 <=? v) && (v <=? 122)) || ((48 <=? v) && (v <=? 57))
  || (v =? 43) || (v =? 47) || (v =? 61).

(** Base58: letters and digits. *)
Definition base58_char (c : Byte.byte) : bool :=
  let v := val c in
  ((65 <=? v) && (v <=? 90)) || ((97 <=? v) && (v <=? 122)) || ((49 <=? v) && (v <=? 57)).

Class KitLaws (K : Kit) : Prop := {
  address_encode_length : ∀ a, length (address_encode a) = 32%nat;
  address_decode_encode : ∀ a, address_decode (address_encode a) = Some a;
  address_encode_decode : ∀ b, length b = 32%nat →
    ∃ a, address_decode b = Some a ∧ address_encode a = b;
  parse_address_string : ∀ s a, parse_address s = Some a → address_string a = s;
  address_string_inj : ∀ a b, address_string a = address_string b → a = b;
  u64_encode_in_range : ∀ v, 0 <= v < 2 ^ 64 → u64_encode v = Some (le_split 8 v);
  u64_encode_out_of_range : ∀ v, ¬ (0 <= v < 2 ^ 64) → u64_encode v = None;
  uint_decode_at : ∀ w b off, (off + w <= length b)%nat →
    uint_decode w b off = Some (le_combine (slice off (off + w) b));
  fixed_bytes_decode_at : ∀ n b off, (off + n <= length b)%nat →
    fixed_bytes_decode n b off = Some (slice off (off + n) b);
  parse_own_string : ∀ a, parse_address (address_string a) = Some a;
  address_alphabet : ∀ a, forallb base58_char (utf8 (address_string a)) = true;
  sha256_length : ∀ b, length (sha256 b) = 32%nat;
  base64_round_trip : ∀ b, base64_bytes (base64_text b) = Some b;
  base64_alphabet : ∀ b, forallb base64_char (utf8 (base64_text b)) = true;
}.

(** [address('...')] on a literal, evaluated when the module is loaded; a
    malformed literal would fail the import. *)
Definition address_lit `{Kit} (s : string) : address :=
  default address_default (parse_address s).

Section laws.
Context `{KL : KitLaws}.

Lemma address_encode_inj a b : address_encode a = address_encode b → a = b.
Proof.
  intros H%(f_equal address_decode). rewrite !address_decode_encode in H. congruence.
Qed.

Lemma address_decode_slice a pre post s e :
  s = length pre → e = (length pre + 32)%nat →
  address_decode (slice s e (pre ++ address_encode a ++ post)) = Some a.
Proof.
  intros -> ->. rewrite slice_mid; [apply address_decode_encode | done |].
  by rewrite address_encode_length.
Qed.
End laws.

#[export] Hint Rewrite @address_encode_length @sha256_length using typeclasses eauto : lazor_len.

(** ** A concrete instance *)
Module ConcreteKit.

(** Addresses are their 32 bytes; their text is base58. *)
Definition addr := dsig (λ b : bytes, length b = 32%nat).

Definition alphabet : string := "123456789ABCDEFGHJKLMNPQRSTUVWXYZabcdefghijkmnopqrstuvwxyz".
Definition digit_char (d : Z) : Ascii.ascii :=
  default Ascii.zero (String.get (Z.to_nat d) alphabet).
Fixpoint index_of (c : Ascii.ascii) (s : string) : option Z :=
  match s with
  | EmptyString => None
  | String d s => if decide (c = d) then Some 0 else Z.succ <$> index_of c s
  end.
Definition char_digit (c : Ascii.ascii) : Z := default 0 (index_of c alphabet).

Definition be_value (b : bytes) : Z := le_combine (reverse b).

Fixpoint digits (fuel : nat) (n : Z) : list Z :=
  match fuel with
  | O => []
  | S fuel => if n =? 0 then [] else digits fuel (n / 58) ++ [n mod 58]
  end.
Fixpoint leading_zeros (b : bytes) : nat :=
  match b with
  | x :: b => if val x =? 0 then S (leading_zeros b) else 0
  | [] => 0
  end.
Definition b58_chars (b : bytes) : list Ascii.ascii :=
  replicate (leading_zeros b) (digit_char 0) ++ (digit_char <$> digits 44 (be_value b)).
Definition b58_value (l : list Ascii.ascii) : Z :=
  fold_left (λ acc c, acc * 58 + char_digit c) l 0.

Definition b58_encode (b : bytes) : string := String.string_of_list_ascii (b58_chars b).
Definition b58_parse (s : string) : option bytes :=
  let b := reverse (le_split 32 (b58_value (String.list_ascii_of_string s))) in
  if String.eqb (b58_encode b) s then Some b else None.

Lemma digit_char_digit d : 0 <= d < 58 → char_digit (digit_char d) = d.
Proof.
  intros Hd.
  assert (forallb (λ n, char_digit (digit_char (Z.of_nat n)) =? Z.of_nat n) (seq 0 58) = true)
    as Hall by (vm_compute; reflexivity).
  rewrite List.forallb_forall in Hall. specialize (Hall (Z.to_nat d)).
  rewrite Z2Nat.id in Hall by lia. apply Z.eqb_eq, Hall, in_seq. lia.
Qed.

Lemma b58_value_acc l acc :
  fold_left (λ acc c, acc * 58 + char_digit c) l acc
  = acc * 58 ^ Z.of_nat (length l) + b58_value l.
Proof.
  unfold b58_value. revert acc. induction l as [|c l IH]; intros acc; simpl fold_left.
  - simpl. lia.
  - rewrite IH, (IH (0 * 58 + char_digit c)). simpl length. rewrite Nat2Z.inj_succ, Z.pow_succ_r by lia.
    ring.
Qed.

Lemma b58_value_app l k :
  b58_value (l ++ k) = b58_value l * 58 ^ Z.of_nat (length k) + b58_value k.
Proof. unfold b58_value at 1. rewrite fold_left_app. apply b58_value_acc. Qed.

Lemma b58_value_zeros n : b58_value (replicate n (digit_char 0)) = 0.
Proof.
  unfold b58_value. induction n as [|n IH]; [done|]. simpl fold_left.
  rewrite digit_char_digit by lia. exact IH.
Qed.

Lemma b58_value_digits fuel n :
  0 <= n < 58 ^ Z.of_nat fuel → b58_value (digit_char <$> digits fuel n) = n.
Proof.
  revert n. induction fuel as [|fuel IH]; intros n Hn.
  { change (58 ^ Z.of_nat 0) with 1 in Hn. simpl. unfold b58_value. simpl. lia. }
  simpl digits. destruct (Z.eqb_spec n 0) as [->|Hnz]; [done|].
  rewrite fmap_app, b58_value_app. rewrite Nat2Z.inj_succ, Z.pow_succ_r in Hn by lia.
  rewrite IH by (split; [apply Z.div_pos | apply Z.div_lt_upper_bound]; lia).
  assert (0 <= n mod 58 < 58) by (apply Z.mod_pos_bound; lia).
  unfold b58_value. simpl. rewrite digit_char_digit by done.
  rewrite (Z.div_mod n 58) at 3 by lia. lia.
Qed.

Lemma be_value_range b : length b = 32%nat → 0 <= be_value b < 2 ^ 256.
Proof.
  intros Hb. apply (le_combine_range 32). by rewrite length_reverse.
Qed.

Lemma be_value_inj b c :
  length b = 32%nat → length c = 32%nat → be_value b = be_value c → b = c.
Proof.
  intros Hb Hc H. unfold be_value in H. apply le_combine_inj in H.
  - by apply (inj reverse).
  - by rewrite !length_reverse, Hb, Hc.
Qed.

Lemma b58_encode_value b :
  length b = 32%nat → b58_value (String.list_ascii_of_string (b58_encode b)) = be_value b.
Proof.
  intros Hb. unfold b58_encode. rewrite String.list_ascii_of_string_of_list_ascii.
  unfold b58_chars. rewrite b58_value_app, b58_value_zeros, Z.mul_0_l, Z.add_0_l.
  apply b58_value_digits. destruct (be_value_range b Hb) as [? Hlt].
  split; [done|]. eapply Z.lt_trans; [exact Hlt | vm_compute; reflexivity].
Qed.

Lemma length_b58_parse s b : b58_parse s = Some b → length b = 32%nat.
Proof.
  unfold b58_parse. case_match; [|done]. intros [= <-].
  by rewrite length_reverse, length_le_split.
Qed.

Definition mk (b : bytes) : option addr :=
  match decide (length b = 32%nat) with
  | left H => Some (dexist b H)
  | right _ => None
  end.
Definition addr_zero : addr := dexist (zeros 32) eq_refl.

(** Placeholders with the documented shapes: a 32-byte digest, a
    program-derived address that depends on every seed. *)
Definition pad32 (b : bytes) : bytes := take 32 (b ++ zeros 32).
Definition toy_hash (b : bytes) : bytes := pad32 (u8 (Z.of_nat (length b)) :: b).
Definition toy_pda (program : addr) (seeds : list bytes) : option (addr * Z) :=
  (λ a, (a, 255)) <$> mk (pad32 (concat (take 8 <$> seeds) ++ proj1_sig program)).

(** A text form of bytes over a subset of base64's alphabet: hexadecimal. *)
Definition nibble_char (n : Z) : Byte.byte := u8 (if n <? 10 then 48 + n else 87 + n).
Definition char_nibble (c : Byte.byte) : Z := if val c <? 58 then val c - 48 else val c - 87.
Definition hex_pair (b : Byte.byte) : bytes := [nibble_char (val b / 16); nibble_char (val b mod 16)].
Definition hex_text (b : bytes) : string := String.string_of_list_byte (concat (hex_pair <$> b)).
Fixpoint unhex (b : bytes) : bytes :=
  match b with
  | x :: y :: r => u8 (char_nibble x * 16 + char_nibble y) :: unhex r
  | _ => []
  end.

Lemma unhex_hex b : unhex (concat (hex_pair <$> b)) = b.
Proof.
  induction b as [|x b IH]; [done|]. rewrite fmap_cons. cbn [concat app hex_pair unhex].
  rewrite IH. f_equal. destruct x; vm_compute; reflexivity.
Qed.

Lemma digit_char_alphabet d :
  0 <= d < 58 → base58_char (Ascii.byte_of_ascii (digit_char d)) = true.
Proof.
  intros Hd.
  assert (forallb (λ n, base58_char (Ascii.byte_of_ascii (digit_char (Z.of_nat n)))) (seq 0 58) = true)
    as Hall by (vm_compute; reflexivity).
  rewrite List.forallb_forall in Hall. specialize (Hall (Z.to_nat d)).
  rewrite Z2Nat.id in Hall by lia. apply Hall, in_seq. lia.
Qed.

Lemma digits_range fuel n : Forall (λ d, 0 <= d < 58) (digits fuel n).
Proof.
  revert n. induction fuel as [|fuel IH]; intros n; cbn [digits]; [constructor|].
  destruct (n =? 0); [constructor|]. apply Forall_app. split; [apply IH|].
  apply Forall_singleton, Z.mod_pos_bound. lia.
Qed.

Lemma b58_alphabet b : forallb base58_char (utf8 (b58_encode b)) = true.
Proof.
  unfold utf8, b58_encode, String.list_byte_of_string.
  rewrite String.list_ascii_of_string_of_list_ascii. unfold b58_chars.
  rewrite forallb_forall. intros c (a & <- & Ha)%in_map_iff.
  apply in_app_iff in Ha as [Ha|Ha].
  - apply repeat_spec in Ha as -> || (apply list_elem_of_In, elem_of_replicate in Ha as [-> _]).
    vm_compute. reflexivity.
  - apply list_elem_of_In, list_elem_of_fmap in Ha as (d & -> & Hd).
    apply digit_char_alphabet. pose proof (digits_range 44 (be_value b)) as HF.
    rewrite Forall_forall in HF. by apply HF.
Qed.

Lemma b58_parse_encode b : length b = 32%nat → b58_parse (b58_encode b) = Some b.
Proof.
  intros Hb. unfold b58_parse. rewrite b58_encode_value by done.
  assert (reverse (le_split 32 (be_value b)) = b) as ->.
  { unfold be_value. rewrite <- (length_reverse b) in Hb. rewrite <- Hb, split_le_combine.
    apply reverse_involutive. }
  by rewrite String.eqb_refl.
Qed.

Lemma hex_alphabet b : forallb base64_char (concat (hex_pair <$> b)) = true.
Proof.
  induction b as [|x b IH]; [done|]. rewrite fmap_cons. cbn [concat app hex_pair forallb].
  rewrite IH. destruct x; vm_compute; reflexivity.
Qed.

#[global] Arguments hex_text : simpl never.
#[global] Arguments b58_encode : simpl never.
#[global] Arguments b58_parse : simpl never.
#[global] Arguments toy_hash : simpl never.
#[global] Arguments toy_pda : simpl never.
#[global] Arguments mk : simpl never.

#[export] Instance kit : Kit := {|
  address := addr;
  address_default := addr_zero;
  address_string := λ a, b58_encode (proj1_sig a);
  parse_address := λ s, b58_parse s ≫= mk;
  address_encode := proj1_sig;
  address_decode := λ b, mk (take 32 b);
  u64_encode := λ v, if (0 <=? v) && (v <? 2 ^ 64) then Some (le_split 8 v) else None;
  uint_decode := λ w b off,
    if (off + w <=? length b)%nat then Some (le_combine (slice off (off + w) b)) else None;
  fixed_bytes_decode := λ n b off,
    if (off + n <=? length b)%nat then Some (slice off (off + n) b) else None;
  getProgramDerivedAddress := toy_pda;
  sha256 := toy_hash;
  base64_text := hex_text;
  base64_bytes := λ s, Some (unhex (utf8 s));
  p256_verify := λ f sig msg key,
    match f with
    | Der => None
    | CompactSig => if (length sig =? 64)%nat then Some (bytesEqual (take 31 msg) (take 31 key))
                    else None
    end;
  p256_recover := λ f sig,
    match f with
    | Der => None
    | CompactSig => if (length sig =? 64)%nat
        then Some (λ id msg, if (id <? 1)%nat
                             then Some (take 31 msg ++ [u8 (Z.of_nat id); u8 0]) else None)
        else None
    end;
|}.

Lemma addr_len (a : addr) : length (proj1_sig a) = 32%nat.
Proof. exact (proj2_dsig a). Qed.

Lemma mk_len b : length b = 32%nat → ∃ a, mk b = Some a ∧ proj1_sig a = b.
Proof. intros H. unfold mk. destruct (decide _) as [H'|]; [|done]. by eexists. Qed.

Lemma mk_inv b a : mk b = Some a → proj1_sig a = b.
Proof. unfold mk. destruct (decide _); [by intros [= <-] | done]. Qed.

Lemma mk_proj (a : addr) : mk (proj1_sig a) = Some a.
Proof.
  destruct (mk_len (proj1_sig a) (addr_len a)) as (a' & Ha & Heq).
  rewrite Ha. f_equal. by apply dsig_eq.
Qed.

#[export] Instance kit_laws : KitLaws kit.
Proof.
  constructor; cbn [kit address address_encode address_decode parse_address address_string
    u64_encode uint_decode fixed_bytes_decode sha256 base64_text base64_bytes].
  - apply addr_len.
  - intros a. rewrite take_ge by (rewrite addr_len; lia). apply mk_proj.
  - intros b Hb. rewrite take_ge by lia. by apply mk_len.
  - intros s a H. destruct (b58_parse s) as [b|] eqn:Hb; [|done]. cbn in H.
    apply mk_inv in H as ->. unfold b58_parse in Hb. case_match eqn:He; [|done].
    apply String.eqb_eq in He. congruence.
  - intros a b H%(f_equal (λ s, b58_value (String.list_ascii_of_string s))).
    rewrite !b58_encode_value in H by apply addr_len.
    apply dsig_eq, be_value_inj; eauto using addr_len.
  - intros v Hv. destruct (Z.leb_spec 0 v), (Z.ltb_spec v (2 ^ 64)); try lia. done.
  - intros v Hv. destruct (Z.leb_spec 0 v), (Z.ltb_spec v (2 ^ 64)); try lia; done.
  - intros w b off H. by apply Nat.leb_le in H as ->.
  - intros w b off H. by apply Nat.leb_le in H as ->.
  - intros a. rewrite b58_parse_encode by apply addr_len. apply mk_proj.
  - intros a. apply b58_alphabet.
  - intros b. unfold toy_hash, pad32. rewrite length_take, length_app. len.
  - intros b. unfold hex_text, utf8. by rewrite String.list_byte_of_string_of_list_byte, unhex_hex.
  - intros b. unfold hex_text, utf8. rewrite String.list_byte_of_string_of_list_byte.
    apply hex_alphabet.
Qed.

(** The address whose bytes are all [b], for examples. *)
Definition at_byte (b : Z) : addr := dexist (replicate 32 (u8 b)) eq_refl.

End ConcreteKit.

(** ** What the RPC node answers *)
Section rpc.
Context `{K : Kit}.

(** An account as [getAccountInfo], [getMultipleAccounts] and
    [getProgramAccounts] return it with [encoding: 'base64']. *)
Record AccountView := mkView {
  av_owner : address;
  av_lamports : Z;
  av_data : string;
}.

(** [new Uint8Array(base64Encoder.encode(info.data[0]))]. *)
Definition decodeBase64 (encoded : string) : result bytes :=
  of_option (EExternal "base64") (base64_bytes encoded).

(** The view of an account that holds these bytes. *)
Definition view_of_bytes (owner : address) (lamports : Z) (b : bytes) : AccountView :=
  mkView owner lamports (base64_text b).
End rpc.

Lemma decodeBase64_view `{KL : KitLaws} owner lamports b :
  decodeBase64 (av_data (view_of_bytes owner lamports b)) = Ok b.
Proof. unfold decodeBase64, view_of_bytes. simpl. by rewrite base64_round_trip. Qed.

#[export] Hint Rewrite @decodeBase64_view using typeclasses eauto : lazor.

(** Commitment levels, and the error a node answers with while it is behind
    [minContextSlot] (-32016). *)
Inductive Commitment := Processed | Confirmed | Finalized.

#[export] Instance Commitment_eq_dec : EqDecision Commitment.
Proof. solve_decision. Defined.

Definition E_MIN_CONTEXT_SLOT : error := EExternal "SERVER_ERROR_MIN_CONTEXT_SLOT_NOT_REACHED".

(** [isSolanaError(e, SOLANA_ERROR__JSON_RPC__SERVER_ERROR_MIN_CONTEXT_SLOT_NOT_REACHED)]. *)
Definition is_min_context_slot (e : error) : bool := bool_decide (e = E_MIN_CONTEXT_SLOT).
