(* ===== verification/Constants.v ===== *)
(** * Program ids, well-known addresses and instruction data types

    Models src/sdk/sdk-kit/src/constants.ts and instructions/system.ts, and
    the [AccountMeta]/[Instruction] values every builder returns. *)
From S2P Require Import Prelude Bytes Kit.
Local Open Scope Z_scope.

(** kit's [AccountRole]: bit 0 is writable, bit 1 is signer. *)
Inductive AccountRole := READONLY | WRITABLE | READONLY_SIGNER | WRITABLE_SIGNER.

#[export] Instance AccountRole_eq_dec : EqDecision AccountRole.
Proof. solve_decision. Defined.

Definition role_num (r : AccountRole) : Z :=
  match r with READONLY => 0 | WRITABLE => 1 | READONLY_SIGNER => 2 | WRITABLE_SIGNER => 3 end.

Section constants.
Context `{K : Kit}.

Record AccountMeta := mkMeta { m_address : address; m_role : AccountRole }.

Record Instruction := mkIx {
  programAddress : address;
  accounts : list AccountMeta;
  data : bytes;
}.

#[export] Instance AccountMeta_eq_dec : EqDecision AccountMeta.
Proof. solve_decision. Defined.
#[export] Instance Instruction_eq_dec : EqDecision Instruction.
Proof. solve_decision. Defined.

Definition SYSTEM_PROGRAM_ADDRESS : address := address_lit "11111111111111111111111111111111".
Definition SYSVAR_INSTRUCTIONS_ADDRESS : address :=
  address_lit "Sysvar1nstructions1111111111111111111111111".
Definition SYSVAR_RENT_ADDRESS : address :=
  address_lit "SysvarRent111111111111111111111111111111111".
Definition SECP256R1_PROGRAM_ADDRESS : address :=
  address_lit "Secp256r1SigVerify1111111111111111111111111".
Definition TOKEN_PROGRAM_ADDRESS : address :=
  address_lit "TokenkegQfeZyiNwAJbNbGKPFXCWuBvf9Ss623VQ5DA".
Definition TOKEN_2022_PROGRAM_ADDRESS : address :=
  address_lit "TokenzQdBNbLqP5VEhdkAS6EPFLC1PHnBqCXEpPxuEb".
Definition ASSOCIATED_TOKEN_PROGRAM_ADDRESS : address :=
  address_lit "ATokenGPvbdGVxr1b2hvZbsiqW5xWH25efTNsLJA8knL".

Definition PROGRAM_ID_MAINNET : address :=
  address_lit "LazorFroiVuAjcwwQ2me83vTr5nc5NRxSaTg3pmEXC8".
Definition PROGRAM_ID_DEVNET : address :=
  address_lit "57bTNWqtYTJbWuLWASKo6GqUTAK6oFDUR5c6hEc6V8nv".
Definition PROGRAM_ID_MAINNET_V1 : address :=
  address_lit "LazorjRFNavitUaBu5m3WaNPjU1maipvSW2rZfAFAKi".
Definition PROGRAM_ID_DEVNET_V1 : address :=
  address_lit "4h3XoNReAgEcHVxcZ8sw2aufi9MTr7BbvYYjzjWDyDxS".

Definition legacyProgramIdFor (programId : address) : address :=
  if decide (programId = PROGRAM_ID_MAINNET) then PROGRAM_ID_MAINNET_V1
  else if decide (programId = PROGRAM_ID_DEVNET) then PROGRAM_ID_DEVNET_V1
  else programId.
End constants.

(** Account discriminators: the high nibble is the protocol major version. *)
Definition DISC_WALLET : Z := 0x21.
Definition DISC_AUTHORITY : Z := 0x22.
Definition DISC_SESSION : Z := 0x23.
Definition DISC_DEFERRED_EXEC : Z := 0x24.
Definition DISC_PROTOCOL_CONFIG : Z := 0x25.
Definition DISC_FEE_RECORD : Z := 0x26.
Definition DISC_TREASURY_SHARD : Z := 0x27.

Definition V1_DISC_WALLET : Z := 1.
Definition V1_DISC_AUTHORITY : Z := 2.
Definition V1_DISC_SESSION : Z := 3.
Definition V1_DISC_DEFERRED_EXEC : Z := 4.

(** Authority types and ranks (instructions/builders.ts). *)
Definition AUTH_TYPE_ED25519 : Z := 0.
Definition AUTH_TYPE_SECP256R1 : Z := 1.
Definition ROLE_OWNER : Z := 0.
Definition ROLE_ADMIN : Z := 1.
Definition ROLE_SPENDER : Z := 2.

(** The well-known literals are well-formed addresses, each naming itself. *)
Example literals_parse :
  (@address_string ConcreteKit.kit <$>
     [SYSTEM_PROGRAM_ADDRESS; SYSVAR_INSTRUCTIONS_ADDRESS; SYSVAR_RENT_ADDRESS;
      SECP256R1_PROGRAM_ADDRESS; TOKEN_PROGRAM_ADDRESS; TOKEN_2022_PROGRAM_ADDRESS;
      ASSOCIATED_TOKEN_PROGRAM_ADDRESS; PROGRAM_ID_MAINNET; PROGRAM_ID_DEVNET;
      PROGRAM_ID_MAINNET_V1; PROGRAM_ID_DEVNET_V1])
  = ["11111111111111111111111111111111"; "Sysvar1nstructions1111111111111111111111111";
     "SysvarRent111111111111111111111111111111111"; "Secp256r1SigVerify1111111111111111111111111";
     "TokenkegQfeZyiNwAJbNbGKPFXCWuBvf9Ss623VQ5DA"; "TokenzQdBNbLqP5VEhdkAS6EPFLC1PHnBqCXEpPxuEb";
     "ATokenGPvbdGVxr1b2hvZbsiqW5xWH25efTNsLJA8knL"; "LazorFroiVuAjcwwQ2me83vTr5nc5NRxSaTg3pmEXC8";
     "57bTNWqtYTJbWuLWASKo6GqUTAK6oFDUR5c6hEc6V8nv"; "LazorjRFNavitUaBu5m3WaNPjU1maipvSW2rZfAFAKi";
     "4h3XoNReAgEcHVxcZ8sw2aufi9MTr7BbvYYjzjWDyDxS"]%string.
Proof. vm_compute. reflexivity. Qed.
