(* ===== verification/JsMap.v ===== *)
(** * JavaScript's [Map]

    Insertion-ordered: [set] of a present key replaces the value in place, [set]
    of a new key appends.  [Map.get], [Map.has], [Map.set] and iteration order
    as the language defines them. *)
From S2P Require Import Prelude.

Section jsmap.
Context {K V : Type} `{EqDecision K}.
Implicit Types (m : list (K * V)) (k : K) (v : V).

Fixpoint map_get (k : K) (m : list (K * V)) : option V :=
  match m with
  | [] => None
  | (k', v) :: m => if decide (k = k') then Some v else map_get k m
  end.

Fixpoint map_set (k : K) (v : V) (m : list (K * V)) : list (K * V) :=
  match m with
  | [] => [(k, v)]
  | (k', v') :: m => if decide (k = k') then (k', v) :: m else (k', v') :: map_set k v m
  end.

Definition map_has (k : K) (m : list (K * V)) : bool :=
  match map_get k m with Some _ => true | None => false end.

Lemma map_get_set k v m k' :
  map_get k' (map_set k v m) = if decide (k' = k) then Some v else map_get k' m.
Proof.
  induction m as [|[k1 v1] m IH]; simpl; [done|].
  destruct (decide (k = k1)) as [->|]; simpl; [by destruct (decide (k' = k1))|].
  destruct (decide (k' = k1)) as [->|]; [|done].
  by rewrite decide_False by congruence.
Qed.

Lemma map_get_set_eq k v m : map_get k (map_set k v m) = Some v.
Proof. rewrite map_get_set. by rewrite decide_True. Qed.

Lemma map_get_set_ne k v m k' : k' ≠ k → map_get k' (map_set k v m) = map_get k' m.
Proof. intros. rewrite map_get_set. by rewrite decide_False. Qed.

Lemma map_get_None k m : map_get k m = None ↔ k ∉ m.*1.
Proof.
  induction m as [|[k1 v1] m IH]; cbn [map_get].
  - split; [intros _; apply not_elem_of_nil | done].
  - rewrite fmap_cons, not_elem_of_cons. cbn [fst].
    destruct (decide (k = k1)) as [->|]; [naive_solver | rewrite IH; naive_solver].
Qed.

Lemma map_get_elem k v m : map_get k m = Some v → (k, v) ∈ m.
Proof.
  induction m as [|[k1 v1] m IH]; simpl; [done|].
  destruct (decide (k = k1)) as [->|]; [intros [= ->]; set_solver | set_solver].
Qed.

Lemma map_set_id k v m : map_get k m = Some v → map_set k v m = m.
Proof.
  induction m as [|[k1 v1] m IH]; cbn [map_get map_set]; [done|].
  destruct (decide (k = k1)) as [->|]; [by intros [= ->] | intros H; by rewrite IH].
Qed.

Lemma map_get_NoDup k v m : NoDup m.*1 → (k, v) ∈ m → map_get k m = Some v.
Proof.
  induction m as [|[k1 v1] m IH]; simpl; [set_solver|].
  intros [Hni Hnd]%NoDup_cons [[= -> ->]|Hin]%elem_of_cons; [by rewrite decide_True|].
  rewrite decide_False; [by apply IH|]. intros ->. apply Hni.
  apply list_elem_of_fmap. by exists (k1, v).
Qed.

Lemma map_has_true k m : map_has k m = true ↔ k ∈ m.*1.
Proof.
  unfold map_has. pose proof (map_get_None k m) as H.
  destruct (map_get k m) as [v|] eqn:E.
  - split; [|done]. intros _. apply list_elem_of_fmap. exists (k, v).
    split; [done | by apply map_get_elem].
  - split; [done|]. intros Hin. by apply H in Hin.
Qed.

Lemma map_set_keys k v m : (map_set k v m).*1 = if map_has k m then m.*1 else m.*1 ++ [k].
Proof.
  unfold map_has. induction m as [|[k1 v1] m IH]; [done|]. cbn [map_set map_get].
  destruct (decide (k = k1)) as [->|]; [done|].
  rewrite !fmap_cons, IH. by destruct (map_get k m).
Qed.

Lemma map_set_NoDup k v m : NoDup m.*1 → NoDup (map_set k v m).*1.
Proof.
  intros H. rewrite map_set_keys. destruct (map_has k m) eqn:E; [done|].
  apply NoDup_app. split; [done|]. split; [|apply NoDup_singleton].
  intros x Hx ->%list_elem_of_singleton. apply map_has_true in Hx. congruence.
Qed.

Lemma elem_of_map_set_keys k v m x : x ∈ (map_set k v m).*1 ↔ x = k ∨ x ∈ m.*1.
Proof.
  rewrite map_set_keys. destruct (map_has k m) eqn:E.
  - apply map_has_true in E. set_solver.
  - set_solver.
Qed.
End jsmap.

(** ** Renaming keys *)
Section relabel.
Context {K K' V V' : Type} `{EqDecision K, EqDecision K'}.
Variables (f : K → K') (g : V → V').
Hypothesis f_inj : ∀ a b, f a = f b → a = b.

(** The same map under other names for its keys. *)
Definition relabel (m : list (K * V)) : list (K' * V') := (λ p, (f p.1, g p.2)) <$> m.

Lemma map_get_relabel k m : map_get (f k) (relabel m) = g <$> map_get k m.
Proof.
  induction m as [|[k1 v1] m IH]; [done|]. cbn [relabel fmap list_fmap map_get fst snd].
  destruct (decide (k = k1)) as [->|Hne]; [by rewrite decide_True|].
  rewrite decide_False by (intros E; by apply f_inj in E). apply IH.
Qed.

Lemma map_has_relabel k m : map_has (f k) (relabel m) = map_has k m.
Proof. unfold map_has. rewrite map_get_relabel. by destruct (map_get k m). Qed.

Lemma map_set_relabel k v m : map_set (f k) (g v) (relabel m) = relabel (map_set k v m).
Proof.
  induction m as [|[k1 v1] m IH]; [done|]. cbn [relabel fmap list_fmap map_set fst snd].
  destruct (decide (k = k1)) as [->|Hne]; [by rewrite decide_True|].
  rewrite decide_False by (intros E; by apply f_inj in E). cbn [fmap list_fmap fst snd]. f_equal. apply IH.
Qed.

Lemma relabel_values m : (relabel m).*2 = g <$> m.*2.
Proof. unfold relabel. by rewrite <- !list_fmap_compose. Qed.
End relabel.
