(* ===== verification/Pdas.v ===== *)
(** * Program-derived addresses

    The seeds of src/sdk/sdk-kit/src/pdas.ts (protocol v2, [lk2:] prefix) and
    of src/sdk/sdk-kit/src/v1.ts (the bare v1 seeds), and the derivations.  The
    runtime hashes the concatenation of the seeds with the program id, so the
    separation theorem is about concatenations. *)
From S2P Require Import Prelude Bytes Kit Constants.
Local Open Scope Z_scope.

Definition SEED_PREFIX : string := "lk2:".
Definition SEED_WALLET : string := SEED_PREFIX +:+ "wallet".
Definition SEED_VAULT : string := SEED_PREFIX +:+ "vault".
Definition SEED_AUTHORITY : string := SEED_PREFIX +:+ "authority".
Definition SEED_SESSION : string := SEED_PREFIX +:+ "session".
Definition SEED_DEFERRED : string := SEED_PREFIX +:+ "deferred".
Definition SEED_PROTOCOL_CONFIG : string := SEED_PREFIX +:+ "protocol_config".
Definition SEED_TREASURY_SHARD : string := SEED_PREFIX +:+ "treasury_shard".
Definition SEED_FEE_RECORD : string := SEED_PREFIX +:+ "fee_record".
Definition V1_SEED_WALLET : string := "wallet".
Definition V1_SEED_VAULT : string := "vault".
Definition V1_SEED_AUTHORITY : string := "authority".

Section pdas.
Context `{K : Kit}.

Definition derive (programId : address) (seeds : list bytes) : result (address * Z) :=
  of_option (EExternal "getProgramDerivedAddress") (getProgramDerivedAddress programId seeds).

Definition findWalletPda (userSeed : bytes) (programId : address) :=
  derive programId [utf8 SEED_WALLET; userSeed].
Definition findVaultPda (walletPda programId : address) :=
  derive programId [utf8 SEED_VAULT; address_encode walletPda].
Definition findAuthorityPda (walletPda : address) (credentialIdHash : bytes)
    (programId : address) :=
  derive programId [utf8 SEED_AUTHORITY; address_encode walletPda; credentialIdHash].
Definition findSessionPda (walletPda : address) (sessionKey : bytes) (programId : address) :=
  derive programId [utf8 SEED_SESSION; address_encode walletPda; sessionKey].
Definition findProtocolConfigPda (programId : address) :=
  derive programId [utf8 SEED_PROTOCOL_CONFIG].
Definition findFeeRecordPda (payerPubkey programId : address) :=
  derive programId [utf8 SEED_FEE_RECORD; address_encode payerPubkey].
Definition findTreasuryShardPda (shardId : Z) (programId : address) :=
  derive programId [utf8 SEED_TREASURY_SHARD; [u8 shardId]].
Definition findDeferredExecPda (walletPda authorityPda : address) (counter : Z)
    (programId : address) :=
  derive programId
    [utf8 SEED_DEFERRED; address_encode walletPda; address_encode authorityPda;
     setUint32 counter].
Definition findV1WalletPda (userSeed : bytes) (programId : address) :=
  derive programId [utf8 V1_SEED_WALLET; userSeed].
Definition findV1VaultPda (walletPda programId : address) :=
  derive programId [utf8 V1_SEED_VAULT; address_encode walletPda].
Definition findV1AuthorityPda (walletPda : address) (ownerIdSeed : bytes)
    (programId : address) :=
  derive programId [utf8 V1_SEED_AUTHORITY; address_encode walletPda; ownerIdSeed].

Record V1Accounts := mkV1 { v1_wallet : address; v1_vault : address; v1_authority : address }.

Definition deriveV1Accounts (userSeed ownerIdSeed : bytes) (programId : address) :
    result V1Accounts :=
  '(wallet, _) ← findV1WalletPda userSeed programId;
  '(vault, _) ← findV1VaultPda wallet programId;
  '(authority, _) ← findV1AuthorityPda wallet ownerIdSeed programId;
  Ok (mkV1 wallet vault authority).

(** [getAssociatedTokenAddress] of src/sdk/sdk-kit/src/spl.ts. *)
Definition getAssociatedTokenAddress (mint owner tokenProgram : address) : result address :=
  fst <$> derive ASSOCIATED_TOKEN_PROGRAM_ADDRESS
    [address_encode owner; address_encode tokenProgram; address_encode mint].

(** ** What each derivation names *)
Inductive pda_name :=
  | NWallet (userSeed : bytes)
  | NVault (wallet : address)
  | NAuthority (wallet : address) (credential : bytes)
  | NSession (wallet : address) (sessionKey : bytes)
  | NProtocolConfig
  | NFeeRecord (payer : address)
  | NTreasuryShard (shardId : Z)
  | NDeferred (wallet authority : address) (counter : Z)
  | NV1Wallet (userSeed : bytes)
  | NV1Vault (wallet : address)
  | NV1Authority (wallet : address) (credential : bytes).

Definition find_pda (n : pda_name) (programId : address) : result (address * Z) :=
  match n with
  | NWallet s => findWalletPda s programId
  | NVault w => findVaultPda w programId
  | NAuthority w c => findAuthorityPda w c programId
  | NSession w k => findSessionPda w k programId
  | NProtocolConfig => findProtocolConfigPda programId
  | NFeeRecord p => findFeeRecordPda p programId
  | NTreasuryShard i => findTreasuryShardPda i programId
  | NDeferred w a c => findDeferredExecPda w a c programId
  | NV1Wallet s => findV1WalletPda s programId
  | NV1Vault w => findV1VaultPda w programId
  | NV1Authority w c => findV1AuthorityPda w c programId
  end.

(** Seeds and credentials are 32 bytes, the shard id is a byte and the
    counter a u32: what the client checks or reads from those widths. *)
Definition pda_wf (n : pda_name) : Prop :=
  match n with
  | NWallet s | NV1Wallet s => length s = 32%nat
  | NAuthority _ c | NSession _ c | NV1Authority _ c => length c = 32%nat
  | NTreasuryShard i => 0 <= i < 256
  | NDeferred _ _ c => 0 <= c < 2 ^ 32
  | _ => True
  end.

(** The seeds a derivation hands to the runtime. *)
Definition pda_seeds (n : pda_name) : list bytes :=
  match n with
  | NWallet s => [utf8 SEED_WALLET; s]
  | NVault w => [utf8 SEED_VAULT; address_encode w]
  | NAuthority w c => [utf8 SEED_AUTHORITY; address_encode w; c]
  | NSession w k => [utf8 SEED_SESSION; address_encode w; k]
  | NProtocolConfig => [utf8 SEED_PROTOCOL_CONFIG]
  | NFeeRecord p => [utf8 SEED_FEE_RECORD; address_encode p]
  | NTreasuryShard i => [utf8 SEED_TREASURY_SHARD; [u8 i]]
  | NDeferred w a c =>
      [utf8 SEED_DEFERRED; address_encode w; address_encode a; setUint32 c]
  | NV1Wallet s => [utf8 V1_SEED_WALLET; s]
  | NV1Vault w => [utf8 V1_SEED_VAULT; address_encode w]
  | NV1Authority w c => [utf8 V1_SEED_AUTHORITY; address_encode w; c]
  end.

Lemma find_pda_seeds n programId : find_pda n programId = derive programId (pda_seeds n).
Proof. by destruct n. Qed.

Context {KL : KitLaws K}.

(** The length of the hashed seeds tells every kind apart but two. *)
Definition pda_length (n : pda_name) : nat :=
  match n with
  | NWallet _ => 42 | NVault _ => 41 | NAuthority _ _ => 77 | NSession _ _ => 75
  | NProtocolConfig => 19 | NFeeRecord _ => 46 | NTreasuryShard _ => 19
  | NDeferred _ _ _ => 80 | NV1Wallet _ => 38 | NV1Vault _ => 37 | NV1Authority _ _ => 73
  end.

Lemma length_pda_seeds n : pda_wf n → length (concat (pda_seeds n)) = pda_length n.
Proof.
  destruct n; simpl; intros Hwf;
    rewrite ?length_app, ?address_encode_length, ?Hwf, ?length_nil; try reflexivity;
    unfold setUint32; by rewrite length_le_split.
Qed.

Lemma seeds_inj2 tag (a b : bytes) : concat [tag; a] = concat [tag; b] → a = b.
Proof. simpl. rewrite !app_nil_r. apply app_inv_head. Qed.

Lemma seeds_inj3 tag (a : address) (x : bytes) (b : address) (y : bytes) :
  concat [tag; address_encode a; x] = concat [tag; address_encode b; y] → a = b ∧ x = y.
Proof.
  simpl. rewrite !app_nil_r. intros H%app_inv_head.
  apply app_inj_len in H as [H ->]; [|by rewrite !address_encode_length].
  split; [by apply address_encode_inj | done].
Qed.

Lemma seeds_inj4 tag (a b : address) (x : bytes) (c d : address) (y : bytes) :
  concat [tag; address_encode a; address_encode b; x]
  = concat [tag; address_encode c; address_encode d; y] → a = c ∧ b = d ∧ x = y.
Proof.
  simpl. rewrite !app_nil_r. intros H%app_inv_head.
  apply app_inj_len in H as [->%address_encode_inj H]; [|by rewrite !address_encode_length].
  apply app_inj_len in H as [->%address_encode_inj ->]; [|by rewrite !address_encode_length].
  done.
Qed.

(** Domain separation of every address the SDK derives, across both
    protocol versions: two derivations whose seed bytes, as the runtime hashes
    them, coincide are the same derivation of the same arguments. *)
Theorem pda_separation (n m : pda_name) (p : address) :
  pda_wf n → pda_wf m →
  concat (pda_seeds n) = concat (pda_seeds m) →
  n = m ∧ find_pda n p = find_pda m p.
Proof.
  intros Hn Hm H. enough (n = m) by (subst; done).
  assert (Hl : pda_length n = pda_length m)
    by (rewrite <- !length_pda_seeds by done; by rewrite H).
  destruct n, m; simpl in Hl; try discriminate Hl; unfold pda_seeds in H; simpl in Hn, Hm;
    try (apply seeds_inj2 in H; subst; done);
    try (apply seeds_inj2, address_encode_inj in H; subst; done);
    try (apply seeds_inj3 in H as [-> ->]; done);
    try done.
  - apply seeds_inj2 in H. injection H as H. apply u8_inj in H; [by subst | lia | lia].
  - apply seeds_inj4 in H as (-> & -> & H). apply le_split_inj in H; [by subst | lia | lia].
Qed.
End pdas.

Import ConcreteKit.

(** The separation applied to a deferred execution's address. *)
Lemma pda_separation_witness :
  let n := NDeferred (at_byte 7) (at_byte 9) 5 in
  pda_wf n ∧ n = n ∧ find_pda n (at_byte 1) = find_pda n (at_byte 1).
Proof.
  intros n. split; [simpl; lia|].
  apply (pda_separation n n (at_byte 1)); [simpl; lia | simpl; lia | reflexivity].
Defined.
