(* ===== verification/Actions.v ===== *)
(** * Session actions: the SDK's writer

    Models src/sdk/sdk-kit/src/codecs/actions.ts: the action types, their
    payload encoders and [serializeActions].  Each action is an 11-byte header
    [type u8 | data_len u16 LE | expires_at u64 LE] and a payload. *)
From S2P Require Import Prelude Bytes Kit.
Local Open Scope Z_scope.

Inductive SessionActionType :=
  | SolLimit | SolRecurringLimit | SolMaxPerTx
  | TokenLimit | TokenRecurringLimit | TokenMaxPerTx
  | ProgramWhitelist | ProgramBlacklist.

#[export] Instance SessionActionType_eq_dec : EqDecision SessionActionType.
Proof. solve_decision. Defined.

Definition type_num (t : SessionActionType) : Z :=
  match t with
  | SolLimit => 1 | SolRecurringLimit => 2 | SolMaxPerTx => 3
  | TokenLimit => 4 | TokenRecurringLimit => 5 | TokenMaxPerTx => 6
  | ProgramWhitelist => 10 | ProgramBlacklist => 11
  end.

Definition ACTION_HEADER_SIZE : nat := 11.

Section actions.
Context `{K : Kit}.

Inductive SessionAction :=
  | SolLimitAction (remaining : Z) (expiresAt : option Z)
  | SolRecurringLimitAction (limit window : Z) (expiresAt : option Z)
  | SolMaxPerTxAction (max : Z) (expiresAt : option Z)
  | TokenLimitAction (mint : address) (remaining : Z) (expiresAt : option Z)
  | TokenRecurringLimitAction (mint : address) (limit window : Z) (expiresAt : option Z)
  | TokenMaxPerTxAction (mint : address) (max : Z) (expiresAt : option Z)
  | ProgramWhitelistAction (programId : address) (expiresAt : option Z)
  | ProgramBlacklistAction (programId : address) (expiresAt : option Z).

#[export] Instance SessionAction_eq_dec : EqDecision SessionAction.
Proof. solve_decision. Defined.

Definition action_type (a : SessionAction) : SessionActionType :=
  match a with
  | SolLimitAction _ _ => SolLimit
  | SolRecurringLimitAction _ _ _ => SolRecurringLimit
  | SolMaxPerTxAction _ _ => SolMaxPerTx
  | TokenLimitAction _ _ _ => TokenLimit
  | TokenRecurringLimitAction _ _ _ _ => TokenRecurringLimit
  | TokenMaxPerTxAction _ _ _ => TokenMaxPerTx
  | ProgramWhitelistAction _ _ => ProgramWhitelist
  | ProgramBlacklistAction _ _ => ProgramBlacklist
  end.

Definition action_expiresAt (a : SessionAction) : option Z :=
  match a with
  | SolLimitAction _ e | SolRecurringLimitAction _ _ e | SolMaxPerTxAction _ e
  | TokenLimitAction _ _ e | TokenRecurringLimitAction _ _ _ e | TokenMaxPerTxAction _ _ e
  | ProgramWhitelistAction _ e | ProgramBlacklistAction _ e => e
  end.

(** A u64 field of a struct encoder. *)
Definition u64 (v : Z) : result bytes := of_option (EExternal "u64") (u64_encode v).

Definition encodeActionData (a : SessionAction) : result bytes :=
  match a with
  | SolLimitAction remaining _ => u64 remaining
  | SolRecurringLimitAction limit window _ =>
      l ← u64 limit; s ← u64 0; w ← u64 window; r ← u64 0; Ok (l ++ s ++ w ++ r)
  | SolMaxPerTxAction max _ => u64 max
  | TokenLimitAction mint remaining _ => r ← u64 remaining; Ok (address_encode mint ++ r)
  | TokenRecurringLimitAction mint limit window _ =>
      l ← u64 limit; s ← u64 0; w ← u64 window; r ← u64 0;
      Ok (address_encode mint ++ l ++ s ++ w ++ r)
  | TokenMaxPerTxAction mint max _ => m ← u64 max; Ok (address_encode mint ++ m)
  | ProgramWhitelistAction programId _ | ProgramBlacklistAction programId _ =>
      Ok (address_encode programId)
  end.

(** [header[0] = type; writeU16LE(header, 1, len); writeU64LE(header, 3, exp)]. *)
Definition action_header (t : SessionActionType) (len : nat) (exp : Z) : bytes :=
  let header := zeros ACTION_HEADER_SIZE in
  let header := set_at 0 [u8 (type_num t)] header in
  let header := set_at 1 (u16LE (Z.of_nat len)) header in
  set_at 3 (setBigUint64 exp) header.

Definition action_parts (a : SessionAction) : result (list bytes) :=
  data ← encodeActionData a;
  Ok [action_header (action_type a) (length data) (default 0 (action_expiresAt a)); data].

Definition serializeActions (actions : list SessionAction) : result bytes :=
  match actions with
  | [] => Ok []
  | _ => parts ← mapR action_parts actions; Ok (concatBytes (concat parts))
  end.

(** ** Well-formed actions: every amount and expiry is a u64 *)
Definition is_u64 (v : Z) : bool := (0 <=? v) && (v <? 2 ^ 64).

Definition amounts_ok (a : SessionAction) : bool :=
  match a with
  | SolLimitAction v _ | SolMaxPerTxAction v _
  | TokenLimitAction _ v _ | TokenMaxPerTxAction _ v _ => is_u64 v
  | SolRecurringLimitAction l w _ | TokenRecurringLimitAction _ l w _ => is_u64 l && is_u64 w
  | ProgramWhitelistAction _ _ | ProgramBlacklistAction _ _ => true
  end.

Definition expiry_ok (a : SessionAction) : bool := is_u64 (default 0 (action_expiresAt a)).

(** What the payload of an action is when its amounts are u64s. *)
Definition payload (a : SessionAction) : bytes :=
  match a with
  | SolLimitAction v _ | SolMaxPerTxAction v _ => le_split 8 v
  | SolRecurringLimitAction l w _ => le_split 8 l ++ le_split 8 0 ++ le_split 8 w ++ le_split 8 0
  | TokenLimitAction m v _ | TokenMaxPerTxAction m v _ => address_encode m ++ le_split 8 v
  | TokenRecurringLimitAction m l w _ =>
      address_encode m ++ le_split 8 l ++ le_split 8 0 ++ le_split 8 w ++ le_split 8 0
  | ProgramWhitelistAction p _ | ProgramBlacklistAction p _ => address_encode p
  end.

(** The wire form of one action. *)
Definition wire (a : SessionAction) : bytes :=
  [u8 (type_num (action_type a))] ++ le_split 2 (Z.of_nat (length (payload a)))
  ++ le_split 8 (default 0 (action_expiresAt a)) ++ payload a.

(** [expected_data_size] of the program's reader. *)
Definition payload_size (t : SessionActionType) : nat :=
  match t with
  | SolLimit | SolMaxPerTx => 8
  | SolRecurringLimit | ProgramWhitelist | ProgramBlacklist => 32
  | TokenLimit | TokenMaxPerTx => 40
  | TokenRecurringLimit => 64
  end.

Lemma is_u64_spec v : is_u64 v = true ↔ 0 <= v < 2 ^ 64.
Proof. unfold is_u64. rewrite andb_true_iff, Z.leb_le, Z.ltb_lt. done. Qed.

Lemma action_header_eq t len exp :
  action_header t len exp
  = [u8 (type_num t)] ++ le_split 2 (Z.of_nat len) ++ le_split 8 exp.
Proof.
  unfold action_header, ACTION_HEADER_SIZE, setBigUint64. rewrite u16LE_split.
  change (zeros 11) with ([] ++ zeros 11).
  rewrite set_at_zeros by (simpl; lia).
  rewrite set_at_zeros by (rewrite ?length_le_split; simpl; lia).
  rewrite set_at_zeros by (rewrite ?length_app, ?length_le_split; simpl; lia).
  rewrite !length_le_split. change (zeros _) with (@nil Byte.byte).
  by rewrite app_nil_r, <- app_assoc.
Qed.

Context {KL : KitLaws K}.

Lemma u64_ok v : is_u64 v = true → u64 v = Ok (le_split 8 v).
Proof. intros H%is_u64_spec. unfold u64. by rewrite u64_encode_in_range. Qed.

Lemma u64_throw v : is_u64 v = false → u64 v = Throw (EExternal "u64").
Proof.
  intros H. unfold u64. rewrite u64_encode_out_of_range; [done|].
  intros Hv%is_u64_spec. congruence.
Qed.

Lemma length_payload a : length (payload a) = payload_size (action_type a).
Proof. destruct a; simpl; len. Qed.

Lemma encodeActionData_ok a : amounts_ok a = true → encodeActionData a = Ok (payload a).
Proof.
  destruct a; simpl; intros; bool_split;
    repeat (rewrite u64_ok by done; rewrite ?bind_ok); done.
Qed.

Lemma encodeActionData_throw a :
  amounts_ok a = false → encodeActionData a = Throw (EExternal "u64").
Proof.
  destruct a as [v|l w|v|m v|m l w|m v| |]; simpl; intros H; try done;
    try (rewrite (u64_throw _ H); done).
  all: destruct (is_u64 l) eqn:Hl; simpl in H;
    [ rewrite (u64_ok l Hl), bind_ok, (u64_ok 0 eq_refl), bind_ok, (u64_throw w H)
    | rewrite (u64_throw l Hl) ]; done.
Qed.

Lemma action_parts_ok a :
  amounts_ok a = true → @concat _ <$> action_parts a = Ok (wire a).
Proof.
  intros H. unfold action_parts. rewrite encodeActionData_ok by done.
  rewrite bind_ok, action_header_eq. unfold fmap, outcome_fmap, wire. do 2 f_equal.
  cbn [concat]. by rewrite app_nil_r, <- !app_assoc.
Qed.

Lemma serializeActions_ok acts :
  Forall (λ a, amounts_ok a = true) acts →
  serializeActions acts = Ok (concat (wire <$> acts)).
Proof.
  intros H.
  assert (Hp : ∃ pss, mapR action_parts acts = Ok pss ∧ concat (concat pss) = concat (wire <$> acts)).
  { induction H as [|a acts Ha _ (pss & Hp & Hc)]; [by exists []|].
    pose proof (action_parts_ok a Ha) as Hw.
    destruct (action_parts a) as [ps|] eqn:E; [|done]. injection Hw as Hw.
    exists (ps :: pss). simpl. rewrite E, bind_ok, Hp, bind_ok. split; [done|].
    rewrite concat_app. by rewrite Hw, Hc. }
  destruct Hp as (pss & Hp & Hc). destruct acts; [done|].
  unfold serializeActions. rewrite Hp, bind_ok, concatBytes_concat. by rewrite Hc.
Qed.

(** [serializeActions] throws exactly when some amount is not a u64 (kit's
    u64 codec rejects it); an expiry out of range does not throw. *)
Theorem serializeActions_total acts :
  is_ok (serializeActions acts) = forallb amounts_ok acts.
Proof.
  destruct (forallb amounts_ok acts) eqn:H.
  - rewrite serializeActions_ok by (by apply forallb_Forall). done.
  - enough (Ht : ∃ e, mapR action_parts acts = Throw e).
    { destruct Ht as [e He], acts; [done|]. unfold serializeActions. by rewrite He. }
    induction acts as [|a acts IH]; [done|]. simpl in *.
    destruct (amounts_ok a) eqn:Ha; simpl in H.
    + destruct (IH H) as [e He]. pose proof (action_parts_ok a Ha) as Hw.
      destruct (action_parts a); [|done]. rewrite bind_ok, He. by exists e.
    + unfold action_parts. rewrite encodeActionData_throw by done. by eexists.
Qed.
End actions.

#[global] Arguments wire : simpl never.

Import ConcreteKit.

(** A two-action policy serializes; an amount of [2 ^ 64] does not. *)
Lemma serializeActions_total_witness :
  is_ok (serializeActions [SolLimitAction 5 None; SolMaxPerTxAction 7 (Some 9)]) = true
  ∧ is_ok (serializeActions [SolLimitAction (2 ^ 64) None]) = false.
Proof.
  split.
  - rewrite (serializeActions_total [SolLimitAction 5 None; SolMaxPerTxAction 7 (Some 9)]).
    reflexivity.
  - rewrite (serializeActions_total [SolLimitAction (2 ^ 64) None]). reflexivity.
Defined.
