(* ===== verification/ProgramActions.v ===== *)
(** * Session actions: the program's reader

    Models [parse_actions] and [validate_actions_buffer] of
    src/program/src/state/action.rs, the contract the SDK's writer has to meet,
    and proves that what [serializeActions] writes is what the program reads. *)
From S2P Require Import Prelude Bytes Kit Actions.
Local Open Scope Z_scope.

Definition MAX_ACTIONS : nat := 16.

Definition from_u8 (v : Z) : result SessionActionType :=
  match v with
  | 1 => Ok SolLimit | 2 => Ok SolRecurringLimit | 3 => Ok SolMaxPerTx
  | 4 => Ok TokenLimit | 5 => Ok TokenRecurringLimit | 6 => Ok TokenMaxPerTx
  | 10 => Ok ProgramWhitelist | 11 => Ok ProgramBlacklist
  | _ => Throw PActionBufferInvalid
  end.

Record ActionView := mkView {
  av_type : SessionActionType;
  av_expires_at : Z;
  av_data_offset : nat;
  av_data_len : nat;
}.

(** The [while cursor < buf.len()] loop; each turn moves the cursor by at least
    the header, so [length buf] turns are always enough. *)
Fixpoint parse_loop (fuel : nat) (buf : bytes) (cursor : nat) (actions : list ActionView) :
    result (list ActionView) :=
  match fuel with
  | O => Ok actions
  | S fuel =>
    if (cursor <? length buf)%nat then
      throw! PActionBufferInvalid when (length buf <? cursor + ACTION_HEADER_SIZE)%nat;
      t ← from_u8 (val (buf !!! cursor));
      let data_len := Z.to_nat (le_combine (slice (cursor + 1) (cursor + 3) buf)) in
      let expires_at := le_combine (slice (cursor + 3) (cursor + 11) buf) in
      let data_offset := (cursor + ACTION_HEADER_SIZE)%nat in
      throw! PActionBufferInvalid when (length buf <? data_offset + data_len)%nat;
      let actions := actions ++ [mkView t expires_at data_offset data_len] in
      throw! PActionBufferInvalid when (MAX_ACTIONS <? length actions)%nat;
      parse_loop fuel buf (data_offset + data_len) actions
    else Ok actions
  end%js.

Definition parse_actions (buf : bytes) : result (list ActionView) :=
  parse_loop (length buf) buf 0 [].

Definition view_data (buf : bytes) (v : ActionView) : bytes :=
  slice (av_data_offset v) (av_data_offset v + av_data_len v) buf.

(** No second [SolLimit], [SolRecurringLimit] or [SolMaxPerTx]. *)
Fixpoint sol_once (lim rec mx : bool) (ts : list SessionActionType) : result unit :=
  match ts with
  | [] => Ok ()
  | SolLimit :: ts => if lim then Throw PActionBufferInvalid else sol_once true rec mx ts
  | SolRecurringLimit :: ts => if rec then Throw PActionBufferInvalid else sol_once lim true mx ts
  | SolMaxPerTx :: ts => if mx then Throw PActionBufferInvalid else sol_once lim rec true ts
  | _ :: ts => sol_once lim rec mx ts
  end.

(** Some pair [i < j] of equal keys. *)
Fixpoint dup_pair (keys : list bytes) : bool :=
  match keys with
  | [] => false
  | k :: keys => existsb (bytesEqual k) keys || dup_pair keys
  end.

Definition token_types : list SessionActionType := [TokenLimit; TokenRecurringLimit; TokenMaxPerTx].

Definition mints_of (buf : bytes) (t : SessionActionType) (views : list ActionView) : list bytes :=
  (λ v, slice (av_data_offset v) (av_data_offset v + 32) buf)
    <$> filter (λ v, av_type v = t) views.

(** The recurring limits' counters at creation: [spent = 0], [window > 0],
    [last_reset = 0]. *)
Definition recurring_bad (data : bytes) (at_ : nat) : bool :=
  negb (le_combine (slice at_ (at_ + 8) data) =? 0)
  || (le_combine (slice (at_ + 8) (at_ + 16) data) =? 0)
  || negb (le_combine (slice (at_ + 16) (at_ + 24) data) =? 0).

Definition view_recurring_bad (buf : bytes) (v : ActionView) : bool :=
  match av_type v with
  | SolRecurringLimit => recurring_bad (view_data buf v) 8
  | TokenRecurringLimit => recurring_bad (view_data buf v) 40
  | _ => false
  end.

Definition validate_actions_buffer (buf : bytes) : result unit :=
  match buf with
  | [] => Ok ()
  | _ =>
    actions ← parse_actions buf;
    throw! PActionBufferInvalid
      when existsb (λ v, negb (av_data_len v =? payload_size (av_type v))%nat) actions;
    throw! PActionWhitelistBlacklistConflict
      when existsb (λ v, bool_decide (av_type v = ProgramWhitelist)) actions
           && existsb (λ v, bool_decide (av_type v = ProgramBlacklist)) actions;
    _ ← sol_once false false false (av_type <$> actions);
    throw! PActionBufferInvalid
      when existsb (λ t, dup_pair (mints_of buf t actions)) token_types;
    throw! PActionBufferInvalid when existsb (view_recurring_bad buf) actions;
    Ok ()
  end%js.

Section spec.
Context `{KL : KitLaws}.

(** ** What the program makes of a list of actions *)
Definition action_mint (a : SessionAction) : option address :=
  match a with
  | TokenLimitAction m _ _ | TokenRecurringLimitAction m _ _ _ | TokenMaxPerTxAction m _ _ => Some m
  | _ => None
  end.

Definition zero_window (a : SessionAction) : bool :=
  match a with
  | SolRecurringLimitAction _ w _ | TokenRecurringLimitAction _ _ w _ => w =? 0
  | _ => false
  end.

Definition mints_named (t : SessionActionType) (acts : list SessionAction) : list address :=
  omap action_mint (filter (λ a, action_type a = t) acts).

(** The policy rules, on the actions themselves. *)
Definition policy_check (acts : list SessionAction) : result unit :=
 (throw! PActionWhitelistBlacklistConflict
    when existsb (λ a, bool_decide (action_type a = ProgramWhitelist)) acts
         && existsb (λ a, bool_decide (action_type a = ProgramBlacklist)) acts;
  _ ← sol_once false false false (action_type <$> acts);
  throw! PActionBufferInvalid
    when existsb (λ t, negb (bool_decide (NoDup (mints_named t acts)))) token_types;
  throw! PActionBufferInvalid when existsb zero_window acts;
  Ok ())%js.

(** [v] is the program's view of [a] inside [buf]. *)
Definition view_of (buf : bytes) (a : SessionAction) (v : ActionView) : Prop :=
  av_type v = action_type a ∧ av_expires_at v = default 0 (action_expiresAt a)
  ∧ av_data_len v = length (payload a) ∧ view_data buf v = payload a.

(** The actions the serializer accepts without loss. *)
Definition action_ok (a : SessionAction) : Prop := amounts_ok a = true ∧ expiry_ok a = true.

Lemma from_u8_num t : from_u8 (val (u8 (type_num t))) = Ok t.
Proof. by destruct t. Qed.

Lemma length_wire a : length (wire a) = (11 + payload_size (action_type a))%nat.
Proof. unfold wire. rewrite !length_app, !length_le_split, length_payload. done. Qed.

Lemma payload_size_u16 t : 0 <= Z.of_nat (payload_size t) < 2 ^ (Z.of_nat 2 * 8).
Proof. destruct t; simpl; lia. Qed.

(** The program's view of the first action of [wire a ++ rest] after [pre]. *)
Definition head_view (pre : bytes) (a : SessionAction) : ActionView :=
  mkView (action_type a) (default 0 (action_expiresAt a)) (length pre + 11)
    (length (payload a)).

Lemma wire_at_len pre a rest :
  pre ++ wire a ++ rest = (pre ++ [u8 (type_num (action_type a))])
    ++ le_split 2 (Z.of_nat (length (payload a)))
    ++ (le_split 8 (default 0 (action_expiresAt a)) ++ payload a ++ rest).
Proof. unfold wire. by rewrite <- !app_assoc. Qed.

Lemma wire_at_expiry pre a rest :
  pre ++ wire a ++ rest = (pre ++ [u8 (type_num (action_type a))]
    ++ le_split 2 (Z.of_nat (length (payload a))))
    ++ le_split 8 (default 0 (action_expiresAt a)) ++ (payload a ++ rest).
Proof. unfold wire. by rewrite <- !app_assoc. Qed.

Lemma wire_at_payload pre a rest :
  pre ++ wire a ++ rest = (pre ++ [u8 (type_num (action_type a))]
    ++ le_split 2 (Z.of_nat (length (payload a))) ++ le_split 8 (default 0 (action_expiresAt a)))
    ++ payload a ++ rest.
Proof. unfold wire. by rewrite <- !app_assoc. Qed.

Lemma head_view_of pre a rest : view_of (pre ++ wire a ++ rest) a (head_view pre a).
Proof.
  unfold view_of, view_data, head_view.
  cbn [av_type av_expires_at av_data_offset av_data_len]. do 3 (split; [done|]).
  rewrite wire_at_payload. apply slice_mid; len.
Qed.

Lemma parse_loop_step fuel pre a rest acc :
  expiry_ok a = true → (length acc < MAX_ACTIONS)%nat →
  parse_loop (S fuel) (pre ++ wire a ++ rest) (length pre) acc
  = parse_loop fuel (pre ++ wire a ++ rest) (length (pre ++ wire a)) (acc ++ [head_view pre a]).
Proof.
  intros Hexp Hacc. set (buf := pre ++ wire a ++ rest).
  assert (Hlen : (length buf = length pre + 11 + length (payload a) + length rest)%nat)
    by (subst buf; rewrite !length_app, length_wire, length_payload; lia).
  assert (Hty : buf !!! length pre = u8 (type_num (action_type a))).
  { subst buf. rewrite lookup_total_app_r by done. rewrite Nat.sub_diag. done. }
  assert (Hdl : slice (length pre + 1) (length pre + 3) buf
                = le_split 2 (Z.of_nat (length (payload a)))).
  { subst buf. rewrite wire_at_len. apply slice_mid; len. }
  assert (Hex : slice (length pre + 3) (length pre + 11) buf
                = le_split 8 (default 0 (action_expiresAt a))).
  { subst buf. rewrite wire_at_expiry. apply slice_mid; len. }
  cbn [parse_loop]. rewrite Hty, Hdl, Hex, from_u8_num.
  rewrite length_payload, le_combine_small by apply payload_size_u16.
  rewrite Nat2Z.id, <- length_payload.
  rewrite (le_combine_small 8) by (apply is_u64_spec in Hexp; lia).
  unfold ACTION_HEADER_SIZE, throw_if.
  destruct (Nat.ltb_spec (length pre) (length buf)); [|lia].
  destruct (Nat.ltb_spec (length buf) (length pre + 11)); [lia|]. rewrite !bind_ok.
  destruct (Nat.ltb_spec (length buf) (length pre + 11 + length (payload a))); [lia|].
  rewrite bind_ok.
  destruct (Nat.ltb_spec MAX_ACTIONS (length (acc ++ [mkView (action_type a)
    (default 0 (action_expiresAt a)) (length pre + 11) (length (payload a))])));
    [rewrite length_app in *; simpl in *; lia|].
  rewrite bind_ok. f_equal.
  rewrite length_app, length_wire, length_payload. lia.
Qed.

Lemma parse_loop_all fuel pre acts acc :
  Forall (λ a, expiry_ok a = true) acts →
  (length acc + length acts <= MAX_ACTIONS)%nat → (length acts <= fuel)%nat →
  ∃ views, parse_loop fuel (pre ++ concat (wire <$> acts)) (length pre) acc = Ok (acc ++ views)
    ∧ Forall2 (view_of (pre ++ concat (wire <$> acts))) acts views.
Proof.
  intros H. revert fuel pre acc. induction H as [|a acts Ha _ IH]; intros fuel pre acc Hacc Hfuel.
  - exists []. simpl. rewrite !app_nil_r. split; [|constructor].
    destruct fuel; [done|]. simpl. by rewrite Nat.ltb_irrefl.
  - destruct fuel as [|fuel]; [simpl in Hfuel; lia|]. simpl in Hacc, Hfuel.
    rewrite fmap_cons. cbn [concat]. rewrite parse_loop_step by (done || lia).
    destruct (IH fuel (pre ++ wire a) (acc ++ [head_view pre a])) as (views & Hp & Hv);
      [rewrite length_app; simpl; lia | lia |].
    rewrite <- app_assoc in Hp, Hv. exists (head_view pre a :: views).
    rewrite Hp, <- app_assoc. split; [done|].
    constructor; [apply head_view_of | done].
Qed.

Lemma length_wires acts : (length acts <= length (concat (wire <$> acts)))%nat.
Proof.
  induction acts as [|a acts IH]; [done|].
  rewrite fmap_cons. cbn [concat length]. rewrite length_app, length_wire. lia.
Qed.

Lemma parse_wires acts :
  Forall (λ a, expiry_ok a = true) acts → (length acts <= MAX_ACTIONS)%nat →
  ∃ views, parse_actions (concat (wire <$> acts)) = Ok views
    ∧ Forall2 (view_of (concat (wire <$> acts))) acts views.
Proof.
  intros H Hn. apply (parse_loop_all _ [] acts []); [done | done | apply length_wires].
Qed.

(** ** The checks on the views are the checks on the actions *)
Lemma views_types buf acts views :
  Forall2 (view_of buf) acts views → av_type <$> views = action_type <$> acts.
Proof.
  induction 1 as [|a v acts views (Ht & _) _ IH]; [done|]. rewrite !fmap_cons. by rewrite Ht, IH.
Qed.

Lemma existsb_views (f : ActionView → bool) (g : SessionAction → bool) (P : SessionAction → Prop)
    buf acts views :
  (∀ a v, P a → view_of buf a v → f v = g a) → Forall P acts →
  Forall2 (view_of buf) acts views → existsb f views = existsb g acts.
Proof.
  intros Hfg HP H. induction H as [|a v acts views Hv _ IH]; [done|].
  inversion HP as [|? ? Ha HP']; subst. simpl. by rewrite (Hfg a v Ha Hv), IH.
Qed.

Lemma view_size_ok buf a v :
  view_of buf a v → negb (av_data_len v =? payload_size (av_type v))%nat = false.
Proof.
  intros (Ht & _ & Hl & _). rewrite Hl, Ht, length_payload, Nat.eqb_refl. done.
Qed.

Lemma slice_take s n m a : (n <= m)%nat → slice s (s + n) a = take n (slice s (s + m) a).
Proof.
  intros H. unfold slice. rewrite take_take. f_equal. lia.
Qed.

Lemma view_mint buf a v m :
  view_of buf a v → action_mint a = Some m →
  slice (av_data_offset v) (av_data_offset v + 32) buf = address_encode m.
Proof.
  intros (_ & _ & Hl & Hd) Hm. unfold view_data in Hd.
  rewrite (slice_take _ 32 (av_data_len v)), Hd
    by (rewrite Hl, length_payload; destruct a; try done; simpl; lia).
  destruct a; try done; injection Hm as <-; cbn [payload];
    by rewrite take_app_len by (by rewrite address_encode_length).
Qed.

Lemma views_mints buf t acts views :
  t ∈ token_types → Forall2 (view_of buf) acts views →
  mints_of buf t views = address_encode <$> mints_named t acts.
Proof.
  intros Htok H. induction H as [|a v acts views Hv _ IH]; [done|].
  unfold mints_of, mints_named in *. rewrite !filter_cons.
  destruct Hv as (Ht & Hv). rewrite Ht. destruct (decide (action_type a = t)) as [<-|]; [|done].
  assert (Hm : ∃ m, action_mint a = Some m).
  { destruct a; eauto; exfalso; revert Htok; unfold token_types; simpl;
      rewrite !elem_of_cons, elem_of_nil; intros Hc; decompose [or] Hc; done. }
  destruct Hm as [m Hm]. cbn [omap list_omap]. rewrite Hm, !fmap_cons, IH.
  f_equal. apply (view_mint buf a); [by split | done].
Qed.

Lemma dup_pair_spec (l : list address) :
  dup_pair (address_encode <$> l) = negb (bool_decide (NoDup l)).
Proof.
  induction l as [|x l IH]; [done|]. cbn [fmap list_fmap dup_pair]. rewrite IH.
  assert (Hex : existsb (bytesEqual (address_encode x)) (address_encode <$> l)
                = bool_decide (x ∈ l)).
  { apply eq_true_iff_eq. rewrite existsb_Exists, bool_decide_eq_true. split.
    - intros (b & (y & -> & Hy)%list_elem_of_fmap & ->%bytesEqual_spec%address_encode_inj). done.
    - intros Hx. exists (address_encode x). rewrite bytesEqual_refl. split; [|done].
      by apply list_elem_of_fmap_2. }
  change (list_fmap _ _ address_encode l) with (address_encode <$> l). rewrite Hex.
  apply eq_true_iff_eq. rewrite orb_true_iff, !negb_true_iff, bool_decide_eq_true.
  rewrite !bool_decide_eq_false, NoDup_cons.
  destruct (decide (x ∈ l)), (decide (NoDup l)); tauto.
Qed.

Lemma recurring_bad_eq pre l w :
  is_u64 w = true →
  recurring_bad (pre ++ le_split 8 l ++ le_split 8 0 ++ le_split 8 w ++ le_split 8 0)
    (length pre + 8) = (w =? 0).
Proof.
  intros Hw%is_u64_spec. unfold recurring_bad.
  rewrite (app_assoc pre), (slice_mid _ _ (pre ++ le_split 8 l)) by len.
  rewrite (app_assoc (pre ++ _)), (slice_mid _ _ ((pre ++ le_split 8 l) ++ le_split 8 0)) by len.
  rewrite (app_assoc ((pre ++ _) ++ _)).
  rewrite <- (app_nil_r (((( pre ++ _) ++ _) ++ _) ++ _)), <- (app_assoc _ (le_split 8 0) []).
  rewrite (slice_mid _ _ (((pre ++ le_split 8 l) ++ le_split 8 0) ++ le_split 8 w)) by len.
  rewrite (le_combine_small 8 0), (le_combine_small 8 w) by lia.
  simpl. by rewrite orb_false_r.
Qed.

Lemma view_recurring buf a v :
  amounts_ok a = true → view_of buf a v → view_recurring_bad buf v = zero_window a.
Proof.
  intros Ha (Ht & _ & _ & Hd). unfold view_recurring_bad. rewrite Ht, Hd.
  destruct a; try done; simpl in Ha; bool_split; cbn [action_type payload zero_window].
  - by apply (recurring_bad_eq []).
  - replace 40%nat with (length (address_encode mint) + 8)%nat
      by (by rewrite address_encode_length).
    by apply recurring_bad_eq.
Qed.

Lemma validate_eq acts buf views :
  parse_actions buf = Ok views → Forall2 (view_of buf) acts views →
  Forall (λ a, amounts_ok a = true) acts →
  validate_actions_buffer buf = match buf with [] => Ok () | _ => policy_check acts end.
Proof.
  intros Hp Hv Ham. unfold validate_actions_buffer. rewrite Hp, bind_ok.
  destruct buf as [|b buf]; [done|]. set (full := b :: buf) in *.
  assert (HT : Forall (λ _, True) acts) by (by apply Forall_true).
  rewrite (existsb_views _ (λ _, false) _ _ _ _ (λ a v _, view_size_ok full a v) HT Hv).
  assert (Hf : existsb (λ _ : SessionAction, false) acts = false)
    by (apply existsb_false; done).
  rewrite Hf. cbn [throw_if]. rewrite bind_ok. unfold policy_check.
  assert (Hty : ∀ t, existsb (λ v, bool_decide (av_type v = t)) views
                     = existsb (λ a, bool_decide (action_type a = t)) acts).
  { intros t. apply (existsb_views _ _ (λ _, True) full); [|done|done].
    intros a v _ (-> & _). done. }
  rewrite !Hty, (views_types _ _ _ Hv).
  rewrite (existsb_views _ zero_window _ _ _ _ (view_recurring full) Ham Hv).
  assert (Hm : ∀ t, t ∈ token_types → dup_pair (mints_of full t views)
                    = negb (bool_decide (NoDup (mints_named t acts)))).
  { intros t Ht. by rewrite (views_mints _ _ _ _ Ht Hv), dup_pair_spec. }
  unfold token_types in *. cbn [existsb].
  by rewrite !Hm by (rewrite !elem_of_cons; tauto).
Qed.

(** Round trip of a policy: for up to sixteen actions with u64 amounts
    and expiries, [serializeActions] succeeds and the program's [parse_actions]
    reads back one view per action, in order, with that action's type, expiry
    ([0] when absent) and payload bytes. *)
Theorem serialize_parse_actions acts :
  Forall action_ok acts → (length acts <= MAX_ACTIONS)%nat →
  ∃ buf views, serializeActions acts = Ok buf ∧ parse_actions buf = Ok views
    ∧ Forall2 (view_of buf) acts views.
Proof.
  intros H Hn. exists (concat (wire <$> acts)).
  destruct (parse_wires acts) as (views & Hp & Hv); [|done|].
  - eapply Forall_impl; [exact H | by intros a []].
  - exists views. split; [|done]. apply serializeActions_ok.
    eapply Forall_impl; [exact H | by intros a []].
Qed.

Lemma validate_serialized acts :
  Forall action_ok acts → (length acts <= MAX_ACTIONS)%nat →
  ∃ buf, serializeActions acts = Ok buf ∧ validate_actions_buffer buf = policy_check acts.
Proof.
  intros H Hn. exists (concat (wire <$> acts)).
  assert (Ham : Forall (λ a, amounts_ok a = true) acts)
    by (eapply Forall_impl; [exact H | by intros a []]).
  destruct (parse_wires acts) as (views & Hp & Hv); [|done|].
  { eapply Forall_impl; [exact H | by intros a []]. }
  split; [by apply serializeActions_ok|].
  rewrite (validate_eq _ _ _ Hp Hv Ham). by destruct acts.
Qed.

Lemma length_wires_bound acts : (length (concat (wire <$> acts)) <= 96 * length acts)%nat.
Proof.
  induction acts as [|a acts IH]; [done|]. rewrite fmap_cons. cbn [concat].
  rewrite length_app, length_wire. cbn [length].
  assert (payload_size (action_type a) <= 80)%nat by (destruct a; vm_compute; lia). lia.
Qed.

(** The program's verdict on a serialized policy is decided by the
    actions alone: [validate_actions_buffer] accepts or refuses, with the same
    error, exactly as the rules on the actions say: no whitelist next to a
    blacklist, at most one of each SOL action, one action per type and mint,
    no zero recurring window.  Serialization itself is never the cause. *)
Theorem validate_serialized_actions acts :
  Forall action_ok acts → (length acts <= MAX_ACTIONS)%nat →
  ∃ buf, serializeActions acts = Ok buf ∧ validate_actions_buffer buf = policy_check acts.
Proof. apply validate_serialized. Qed.
End spec.

Import ConcreteKit.

Definition sample_policy : list SessionAction :=
  [SolLimitAction 10 None; TokenLimitAction (at_byte 3) 20 (Some 99);
   SolRecurringLimitAction 5 6 None; ProgramWhitelistAction (at_byte 4) None].

Lemma sample_policy_ok : Forall action_ok sample_policy.
Proof. repeat constructor. Defined.

Lemma serialize_parse_actions_witness :
  (length sample_policy <= MAX_ACTIONS)%nat ∧
  ∃ buf views, serializeActions sample_policy = Ok buf ∧ parse_actions buf = Ok views
    ∧ Forall2 (view_of buf) sample_policy views.
Proof.
  split; [vm_compute; lia|].
  apply (serialize_parse_actions sample_policy sample_policy_ok). vm_compute; lia.
Defined.

Lemma validate_serialized_actions_witness :
  ∃ buf, serializeActions sample_policy = Ok buf
    ∧ validate_actions_buffer buf = Ok () ∧ policy_check sample_policy = Ok ().
Proof.
  destruct (validate_serialized_actions sample_policy sample_policy_ok) as (buf & Hs & Hv).
  - vm_compute; lia.
  - exists buf. split; [exact Hs|]. rewrite Hv. split; vm_compute; reflexivity.
Defined.
