(* ===== verification/Packing.v ===== *)
(** * Compact instructions: packing, hashing, and the program's parser

    Models src/sdk/sdk-kit/src/transactions/packing.ts, and from
    src/program/src/compact.rs the parser that reads the packed bytes.  An
    account index byte carries the forward-signer request in its high bit. *)
From S2P Require Import Prelude Bytes Kit Constants.
Local Open Scope Z_scope.

Record CompactInstruction := mkCompact {
  programIdIndex : Z;
  accountIndexes : list Z;
  c_data : bytes;
}.

#[export] Instance CompactInstruction_eq_dec : EqDecision CompactInstruction.
Proof. solve_decision. Defined.

Definition ACCOUNT_INDEX_MASK : Z := 0x7f.
Definition ACCOUNT_INDEX_FORWARD_SIGNER : Z := 0x80.
Definition MAX_ACCOUNT_INDEX : Z := ACCOUNT_INDEX_MASK.

Definition encodeAccountIndex (index : Z) (forwardSigner : bool) : result Z :=
  if (index <? 0) || (MAX_ACCOUNT_INDEX <? index) then Throw (EIndexCeiling index)
  else Ok (if forwardSigner then Z.lor index ACCOUNT_INDEX_FORWARD_SIGNER else index).

Definition decodeAccountIndex (byte : Z) : Z * bool :=
  (Z.land byte ACCOUNT_INDEX_MASK, negb (Z.land byte ACCOUNT_INDEX_FORWARD_SIGNER =? 0)).

Definition accountFlags (isSigner isWritable : bool) : Z :=
  Z.lor (if isSigner then 1 else 0) (if isWritable then 2 else 0).

Definition pack_parts (ix : CompactInstruction) : list bytes :=
  [ [u8 (programIdIndex ix); u8 (Z.of_nat (length (accountIndexes ix)))];
    u8 <$> accountIndexes ix;
    u16LE (Z.of_nat (length (c_data ix)));
    c_data ix ].

Definition packCompactInstructions (instructions : list CompactInstruction) : bytes :=
  concatBytes ([u8 (Z.of_nat (length instructions))] :: concat (pack_parts <$> instructions)).

(** ** The program's parser *)
Definition MAX_COMPACT_INSTRUCTIONS : nat := 16.

(** [CompactInstructionRef::from_bytes]: one instruction and the rest. *)
Definition from_bytes (b : bytes) : result (CompactInstruction * bytes) :=
  (throw! PInvalidInstructionData when (length b <? 4)%nat;
   let program_id_index := val (b !!! 0%nat) in
   throw! PInvalidInstructionData when MAX_ACCOUNT_INDEX <? program_id_index;
   let num_accounts := Z.to_nat (val (b !!! 1%nat)) in
   throw! PInvalidInstructionData when (length b <? 2 + num_accounts + 2)%nat;
   let accounts := slice 2 (2 + num_accounts) b in
   let data_len_offset := (2 + num_accounts)%nat in
   let data_len := Z.to_nat (le_combine (slice data_len_offset (data_len_offset + 2) b)) in
   let data_start := (data_len_offset + 2)%nat in
   throw! PInvalidInstructionData when (length b <? data_start + data_len)%nat;
   Ok (mkCompact program_id_index (val <$> accounts)
         (slice data_start (data_start + data_len) b),
       drop (data_start + data_len) b))%js.

Fixpoint parse_n (n : nat) (b : bytes) : result (list CompactInstruction * bytes) :=
  match n with
  | O => Ok ([], b)
  | S n => '(ix, rest) ← from_bytes b; '(ixs, rest) ← parse_n n rest; Ok (ix :: ixs, rest)
  end.

(** [parse_compact_instructions_ref_with_len]: the instructions and how many
    bytes they took. *)
Definition parse_compact_instructions (b : bytes) : result (list CompactInstruction * nat) :=
  match b with
  | [] => Throw PInvalidInstructionData
  | n :: rest =>
    (throw! PInvalidInstructionData when (MAX_COMPACT_INSTRUCTIONS <? Z.to_nat (val n))%nat;
     '(ixs, remaining) ← parse_n (Z.to_nat (val n)) rest;
     Ok (ixs, length b - length remaining)%nat)%js
  end.

(** ** Hashes *)
Section hashes.
Context `{K : Kit}.

Definition flagsOf (m : AccountMeta) : Z :=
  let role := role_num (m_role m) in
  accountFlags (negb (Z.land role 2 =? 0)) (negb (Z.land role 1 =? 0)).

(** [accountMetas[i]] for a masked index, which is never negative. *)
Definition meta_at (metas : list AccountMeta) (i : Z) : option AccountMeta :=
  metas !! Z.to_nat i.

Definition hash_entry (m : AccountMeta) : list bytes :=
  [address_encode (m_address m); [u8 (flagsOf m)]].

Definition instruction_entries (metas : list AccountMeta) (ix : CompactInstruction) :
    result (list bytes) :=
  program ← of_option (EMissingProgram (programIdIndex ix) (length metas))
    (meta_at metas (decodeAccountIndex (programIdIndex ix)).1);
  accs ← mapR (λ b,
      let index := (decodeAccountIndex b).1 in
      a ← of_option (EMissingAccount index (length metas)) (meta_at metas index);
      Ok (hash_entry a)) (accountIndexes ix);
  Ok (hash_entry program ++ concat accs).

Definition accounts_preimage (metas : list AccountMeta) (ixs : list CompactInstruction) :
    result bytes :=
  parts ← mapR (instruction_entries metas) ixs; Ok (concatBytes (concat parts)).

Definition computeAccountsHash (metas : list AccountMeta) (ixs : list CompactInstruction) :
    result bytes :=
  sha256 <$> accounts_preimage metas ixs.

Definition computeInstructionsHash (ixs : list CompactInstruction) : bytes :=
  sha256 (packCompactInstructions ixs).
End hashes.

(** ** Index bytes *)

(** An index byte as the layout builder produces it. *)
Definition is_index_byte (b : Z) : bool := (0 <=? b) && (b <? 256).

Lemma encode_ok_range index fwd b :
  encodeAccountIndex index fwd = Ok b → 0 <= index <= 127.
Proof.
  unfold encodeAccountIndex, MAX_ACCOUNT_INDEX, ACCOUNT_INDEX_MASK.
  destruct (Z.ltb_spec index 0), (Z.ltb_spec 127 index); done || lia.
Qed.

Lemma all_indexes (P : Z → bool) :
  forallb (λ n, P (Z.of_nat n)) (seq 0 128) = true → ∀ i, 0 <= i <= 127 → P i = true.
Proof.
  intros H i Hi. rewrite List.forallb_forall in H.
  specialize (H (Z.to_nat i)). rewrite Z2Nat.id in H by lia. apply H, in_seq. lia.
Qed.

Lemma account_index_ok index fwd :
  0 <= index <= 127 →
  ∃ b, encodeAccountIndex index fwd = Ok b ∧ 0 <= b < 256 ∧ decodeAccountIndex b = (index, fwd).
Proof.
  intros Hi.
  pose (P := λ i, match encodeAccountIndex i fwd with
                  | Ok b => (0 <=? b) && (b <? 256)
                            && bool_decide (decodeAccountIndex b = (i, fwd))
                  | Throw _ => false end).
  assert (HP : P index = true)
    by (apply all_indexes; [destruct fwd; vm_compute; reflexivity | done]).
  subst P. cbv beta in HP. destruct (encodeAccountIndex index fwd) as [b|]; [|done].
  bool_split. exists b. split; [done|]. split; [lia|]. by eapply bool_decide_eq_true_1.
Qed.

(** Index bytes round trip: encoding an index with its forward-signer
    request succeeds exactly for [0..127], gives a byte, and decoding it
    recovers both the index and the request. *)
Theorem account_index_roundtrip (index : Z) (fwd : bool) :
  (0 <= index <= 127 →
     ∃ b, encodeAccountIndex index fwd = Ok b ∧ 0 <= b < 256
          ∧ decodeAccountIndex b = (index, fwd))
  ∧ (¬ 0 <= index <= 127 → encodeAccountIndex index fwd = Throw (EIndexCeiling index)).
Proof.
  split; [apply account_index_ok|].
  intros Hi. unfold encodeAccountIndex, MAX_ACCOUNT_INDEX, ACCOUNT_INDEX_MASK.
  destruct (Z.ltb_spec index 0), (Z.ltb_spec 127 index); done || lia.
Qed.

(** ** The packed form *)

(** What [packCompactInstructions] can represent: byte-sized index bytes and
    counts, payloads under 64 KiB. *)
Definition compact_ok (ix : CompactInstruction) : Prop :=
  0 <= programIdIndex ix <= 127 ∧ Forall (λ b, 0 <= b < 256) (accountIndexes ix)
  ∧ (length (accountIndexes ix) < 256)%nat ∧ Z.of_nat (length (c_data ix)) < 2 ^ 16.

Definition packed_ix (ix : CompactInstruction) : bytes := concat (pack_parts ix).

Lemma pack_eq ixs :
  packCompactInstructions ixs
  = [u8 (Z.of_nat (length ixs))] ++ concat (packed_ix <$> ixs).
Proof.
  unfold packCompactInstructions. rewrite concatBytes_concat. cbn [concat]. f_equal.
  induction ixs as [|ix ixs IH]; [done|].
  rewrite !fmap_cons. cbn [concat]. by rewrite concat_app, IH.
Qed.

Lemma packed_ix_eq ix :
  packed_ix ix
  = [u8 (programIdIndex ix); u8 (Z.of_nat (length (accountIndexes ix)))]
    ++ (u8 <$> accountIndexes ix) ++ le_split 2 (Z.of_nat (length (c_data ix))) ++ c_data ix.
Proof.
  unfold packed_ix, pack_parts. cbn [concat]. rewrite u16LE_split.
  by rewrite app_nil_r.
Qed.

Lemma vals_u8s l : Forall (λ b, 0 <= b < 256) l → val <$> (u8 <$> l) = l.
Proof.
  induction 1 as [|b l Hb _ IH]; [done|]. rewrite !fmap_cons, val_u8_small by done. by rewrite IH.
Qed.

Lemma from_bytes_packed ix rest :
  compact_ok ix → from_bytes (packed_ix ix ++ rest) = Ok (ix, rest).
Proof.
  intros (Hp & Ha & Hn & Hd). set (n := length (accountIndexes ix)) in *.
  set (d := length (c_data ix)) in *.
  rewrite packed_ix_eq. fold n d.
  set (accs := u8 <$> accountIndexes ix). set (dl := le_split 2 (Z.of_nat d)).
  assert (Hla : length accs = n) by (subst accs; by rewrite length_fmap).
  assert (Hldl : length dl = 2%nat) by (subst dl; by rewrite length_le_split).
  set (b := ([u8 (programIdIndex ix); u8 (Z.of_nat n)] ++ accs ++ dl ++ c_data ix) ++ rest).
  assert (Hlen : (length b = 4 + n + d + length rest)%nat)
    by (subst b; rewrite !length_app, Hla, Hldl; simpl; lia).
  assert (Hacc : slice 2 (2 + n) b = accs).
  { subst b. rewrite <- !app_assoc. apply slice_mid; rewrite ?Hla; done. }
  assert (Hdl : slice (2 + n) (2 + n + 2) b = dl).
  { subst b. rewrite <- !app_assoc, (app_assoc [_; _]). apply slice_mid;
      rewrite length_app, Hla, ?Hldl; done. }
  assert (Hdata : slice (2 + n + 2) (2 + n + 2 + d) b = c_data ix).
  { subst b. rewrite <- !app_assoc, (app_assoc [_; _]), (app_assoc (_ ++ accs)).
    apply slice_mid; rewrite !length_app, Hla, Hldl; done. }
  assert (Hrest : drop (2 + n + 2 + d) b = rest).
  { subst b. apply drop_app_len. rewrite !length_app, Hla, Hldl. simpl. lia. }
  unfold from_bytes. change (b !!! 0%nat) with (u8 (programIdIndex ix)).
  change (b !!! 1%nat) with (u8 (Z.of_nat n)). rewrite !val_u8_small by lia.
  rewrite Nat2Z.id, Hacc, Hdl. subst dl. rewrite le_combine_small by (simpl; lia).
  rewrite Nat2Z.id, Hdata, Hrest. subst accs. rewrite vals_u8s by done.
  unfold throw_if, MAX_ACCOUNT_INDEX, ACCOUNT_INDEX_MASK.
  destruct (Nat.ltb_spec (length b) 4); [lia|].
  destruct (Z.ltb_spec 127 (programIdIndex ix)); [lia|].
  destruct (Nat.ltb_spec (length b) (2 + n + 2)); [lia|].
  destruct (Nat.ltb_spec (length b) (2 + n + 2 + d)); [lia|].
  rewrite !bind_ok. by destruct ix.
Qed.

Lemma parse_n_packed ixs rest :
  Forall compact_ok ixs →
  parse_n (length ixs) (concat (packed_ix <$> ixs) ++ rest) = Ok (ixs, rest).
Proof.
  induction 1 as [|ix ixs Hix _ IH]; [done|].
  rewrite fmap_cons. cbn [length parse_n concat]. rewrite <- app_assoc.
  rewrite from_bytes_packed by done. rewrite bind_ok, IH. done.
Qed.

Lemma parse_packed (ixs : list CompactInstruction) (rest : bytes) :
  Forall compact_ok ixs → (length ixs <= MAX_COMPACT_INSTRUCTIONS)%nat →
  parse_compact_instructions (packCompactInstructions ixs ++ rest)
  = Ok (ixs, length (packCompactInstructions ixs)).
Proof.
  intros H Hn. unfold MAX_COMPACT_INSTRUCTIONS in Hn. rewrite pack_eq.
  rewrite <- app_assoc. cbn [app parse_compact_instructions].
  rewrite val_u8_small, Nat2Z.id by lia.
  unfold throw_if, MAX_COMPACT_INSTRUCTIONS.
  destruct (Nat.ltb_spec 16 (length ixs)); [lia|]. rewrite bind_ok, parse_n_packed by done.
  rewrite bind_ok. do 3 f_equal. simpl. rewrite length_app. lia.
Qed.

(** The wire round trip: whatever auth payload follows, the program's
    parser reads back from the packed bytes exactly the instructions packed and
    reports exactly their length as consumed. *)
Theorem pack_parse_roundtrip (ixs : list CompactInstruction) (rest : bytes) :
  Forall compact_ok ixs → (length ixs <= MAX_COMPACT_INSTRUCTIONS)%nat →
  parse_compact_instructions (packCompactInstructions ixs ++ rest)
  = Ok (ixs, length (packCompactInstructions ixs)).
Proof. apply parse_packed. Qed.


(** The program refuses what the SDK packs past its sixteen-instruction
    limit, and [packCompactInstructions] does not check that limit: up to 255
    instructions the bytes announce the true count and are refused. *)
Theorem pack_past_limit_refused (ixs : list CompactInstruction) (rest : bytes) :
  (MAX_COMPACT_INSTRUCTIONS < length ixs < 256)%nat →
  parse_compact_instructions (packCompactInstructions ixs ++ rest)
  = Throw PInvalidInstructionData.
Proof.
  intros Hn. rewrite pack_eq, <- app_assoc. cbn [app parse_compact_instructions].
  rewrite val_u8_small, Nat2Z.id by lia. unfold throw_if.
  destruct (Nat.ltb_spec MAX_COMPACT_INSTRUCTIONS (length ixs)); [done | lia].
Qed.

(** ** The accounts hash *)
Section accounts_hash.
Context `{K : Kit}.

(** The runtime's view of an account (pinocchio's [AccountInfo]). *)
Record AccountInfo := mkInfo { ai_key : bytes; ai_is_signer : bool; ai_is_writable : bool }.

(** [account_flags] of src/program/src/compact.rs. *)
Definition account_flags (is_signer is_writable : bool) : Z :=
  Z.lor (Z.b2z is_signer) (Z.shiftl (Z.b2z is_writable) 1).

Definition push_info (infos : list AccountInfo) (byte : Z) : result bytes :=
  acc ← of_option PInvalidInstructionData (infos !! Z.to_nat (decodeAccountIndex byte).1);
  Ok (ai_key acc ++ [u8 (account_flags (ai_is_signer acc) (ai_is_writable acc))]).

Definition push_instruction (infos : list AccountInfo) (ix : CompactInstruction) :
    result (list bytes) :=
  mapR (push_info infos) (programIdIndex ix :: accountIndexes ix).

(** [accounts_hash_preimage] of src/program/src/compact.rs. *)
Definition accounts_hash_preimage (infos : list AccountInfo) (ixs : list CompactInstruction) :
    result bytes :=
  chunks ← mapR (push_instruction infos) ixs;
  Ok (concat (concat chunks)).

Definition role_signer (r : AccountRole) : bool :=
  match r with READONLY_SIGNER | WRITABLE_SIGNER => true | _ => false end.
Definition role_writable (r : AccountRole) : bool :=
  match r with WRITABLE | WRITABLE_SIGNER => true | _ => false end.

(** What the runtime reports for a list of metas whose roles are the
    transaction's own. *)
Definition info_of (m : AccountMeta) : AccountInfo :=
  mkInfo (address_encode (m_address m)) (role_signer (m_role m)) (role_writable (m_role m)).

Lemma flagsOf_info m :
  flagsOf m = account_flags (ai_is_signer (info_of m)) (ai_is_writable (info_of m)).
Proof. by destruct m as [a []]. Qed.

Lemma push_info_entry metas b m :
  meta_at metas (decodeAccountIndex b).1 = Some m →
  push_info (info_of <$> metas) b = Ok (concat (hash_entry m)).
Proof.
  unfold meta_at, push_info. rewrite list_lookup_fmap. intros ->.
  change (info_of <$> Some m) with (Some (info_of m)). cbn [of_option].
  rewrite bind_ok. unfold hash_entry. cbn [concat].
  rewrite app_nil_r, flagsOf_info. done.
Qed.

Lemma push_info_missing metas b :
  meta_at metas (decodeAccountIndex b).1 = None →
  push_info (info_of <$> metas) b = Throw PInvalidInstructionData.
Proof. unfold meta_at, push_info. rewrite list_lookup_fmap. by intros ->. Qed.

(** The program's walk of the accounts of one instruction. *)
Lemma push_infos metas bs :
  match mapR (λ b, a ← of_option (EMissingAccount (decodeAccountIndex b).1 (length metas))
                        (meta_at metas (decodeAccountIndex b).1); Ok (hash_entry a)) bs with
  | Ok accs => mapR (push_info (info_of <$> metas)) bs = Ok (@concat _ <$> accs)
  | Throw _ => mapR (push_info (info_of <$> metas)) bs = Throw PInvalidInstructionData
  end.
Proof.
  induction bs as [|b bs IH]; [done|]. cbn [mapR].
  destruct (meta_at metas (decodeAccountIndex b).1) as [m|] eqn:Hm.
  - rewrite (push_info_entry _ _ _ Hm). cbn [of_option]. rewrite !bind_ok.
    destruct (mapR _ bs) as [accs|]; rewrite IH; done.
  - rewrite (push_info_missing _ _ Hm). done.
Qed.

Lemma instruction_chunk metas ix :
  match instruction_entries metas ix with
  | Ok parts =>
      ∃ ch, push_instruction (info_of <$> metas) ix = Ok ch ∧ concat ch = concat parts
  | Throw _ => push_instruction (info_of <$> metas) ix = Throw PInvalidInstructionData
  end.
Proof.
  unfold instruction_entries, push_instruction. cbn [mapR].
  destruct (meta_at metas (decodeAccountIndex (programIdIndex ix)).1) as [m|] eqn:Hm.
  - rewrite (push_info_entry _ _ _ Hm). cbn [of_option]. rewrite !bind_ok.
    pose proof (push_infos metas (accountIndexes ix)) as H.
    destruct (mapR _ (accountIndexes ix)) as [accs|]; rewrite H; [|done].
    rewrite !bind_ok. eexists; split; [done|]. cbn [concat].
    rewrite concat_app. f_equal. clear. induction accs as [|a accs IH]; [done|].
    rewrite fmap_cons. cbn [concat]. by rewrite concat_app, IH.
  - rewrite (push_info_missing _ _ Hm). done.
Qed.

Lemma preimage_agrees (metas : list AccountMeta) (ixs : list CompactInstruction) :
  accounts_hash_preimage (info_of <$> metas) ixs
  = match accounts_preimage metas ixs with
    | Ok p => Ok p
    | Throw _ => Throw PInvalidInstructionData
    end.
Proof.
  unfold accounts_hash_preimage, accounts_preimage.
  enough (H : match mapR (instruction_entries metas) ixs with
    | Ok parts => ∃ chs, mapR (push_instruction (info_of <$> metas)) ixs = Ok chs
                     ∧ concat (concat chs) = concat (concat parts)
    | Throw _ => mapR (push_instruction (info_of <$> metas)) ixs
                 = Throw PInvalidInstructionData end).
  { destruct (mapR (instruction_entries metas) ixs) as [parts|].
    - destruct H as (chs & -> & Hc). rewrite !bind_ok, concatBytes_concat. by rewrite Hc.
    - by rewrite H. }
  induction ixs as [|ix ixs IH]; [by exists []|]. cbn [mapR].
  pose proof (instruction_chunk metas ix) as Hch.
  destruct (instruction_entries metas ix) as [parts|].
  - destruct Hch as (ch & -> & Hc). rewrite !bind_ok.
    destruct (mapR (instruction_entries metas) ixs) as [pss|].
    + destruct IH as (chs & -> & Hcs). exists (ch :: chs). split; [done|].
      cbn [concat]. rewrite !concat_app. by rewrite Hc, Hcs.
    + by rewrite IH.
  - by rewrite Hch.
Qed.

(** The accounts hash agrees with the program's: over metas whose roles
    are the flags the runtime reports, the SDK's preimage is byte for byte the
    program's, and the SDK throws exactly when the program would refuse an
    index out of range. *)
Theorem accounts_preimage_agrees (metas : list AccountMeta) (ixs : list CompactInstruction) :
  accounts_hash_preimage (info_of <$> metas) ixs
  = match accounts_preimage metas ixs with
    | Ok p => Ok p
    | Throw _ => Throw PInvalidInstructionData
    end.
Proof. apply preimage_agrees. Qed.
End accounts_hash.

Import ConcreteKit.

Definition sample_ixs : list CompactInstruction :=
  [mkCompact 2 [0; 129] [u8 9; u8 8]; mkCompact 1 [] []].

Lemma account_index_roundtrip_witness :
  ∃ b, encodeAccountIndex 5 true = Ok b ∧ 0 <= b < 256 ∧ decodeAccountIndex b = (5, true).
Proof. apply (proj1 (account_index_roundtrip 5 true)). lia. Defined.

Lemma pack_parse_roundtrip_witness :
  parse_compact_instructions (packCompactInstructions sample_ixs ++ [u8 1])
  = Ok (sample_ixs, length (packCompactInstructions sample_ixs)).
Proof.
  apply (pack_parse_roundtrip sample_ixs [u8 1]).
  - repeat constructor; vm_compute; done.
  - vm_compute; lia.
Defined.

Lemma pack_past_limit_refused_witness :
  parse_compact_instructions (packCompactInstructions (replicate 17 (mkCompact 0 [] [])) ++ [])
  = Throw PInvalidInstructionData.
Proof. apply (pack_past_limit_refused (replicate 17 (mkCompact 0 [] [])) []). vm_compute; lia. Defined.

(** At 256 instructions the one-byte count wraps to zero and the program reads
    an empty list. *)
Example pack_count_wraps :
  parse_compact_instructions (packCompactInstructions (replicate 256 (mkCompact 0 [] [])))
  = Ok ([], 1%nat).
Proof. vm_compute. reflexivity. Qed.
