(* ===== verification/Compact.v ===== *)
(** * The compact layout of inner instructions

    Models [buildCompactLayout] of src/sdk/sdk-kit/src/transactions/compact.ts:
    every account of the inner instructions becomes an index into the outer
    instruction's account table (the fixed prefix, then the remaining accounts
    in order of first mention with their privileges merged). *)
From S2P Require Import Prelude Bytes Kit Constants JsMap Packing.
Local Open Scope Z_scope.

Section compact.
Context `{K : Kit}.

Record MutableMeta := mkMut { mm_address : address; isSigner : bool; isWritable : bool }.

Definition roleFromFlags (s w : bool) : AccountRole :=
  if s then if w then WRITABLE_SIGNER else READONLY_SIGNER
  else if w then WRITABLE else READONLY.

Definition flagsFromRole (r : AccountRole) : bool * bool :=
  (bool_decide (r = READONLY_SIGNER) || bool_decide (r = WRITABLE_SIGNER),
   bool_decide (r = WRITABLE) || bool_decide (r = WRITABLE_SIGNER)).

Abbreviation IndexMap := (list (address * nat)).
Abbreviation RemainingMap := (list (address * MutableMeta)).

(** [for (i...) indexMap.set(fixedAccounts[i], i)], from index [i] on. *)
Fixpoint index_from (i : nat) (l : list address) (m : IndexMap) : IndexMap :=
  match l with
  | [] => m
  | a :: l => index_from (S i) l (map_set a i m)
  end.

Definition add_account (indexMap : IndexMap) (acc : AccountMeta) (rem : RemainingMap) :
    RemainingMap :=
  let '(s, w) := flagsFromRole (m_role acc) in
  let key := m_address acc in
  if map_has key indexMap then rem
  else match map_get key rem with
       | Some e => map_set key (mkMut (mm_address e) (isSigner e || s) (isWritable e || w)) rem
       | None => map_set key (mkMut key s w) rem
       end.

Definition add_program (indexMap : IndexMap) (p : address) (rem : RemainingMap) : RemainingMap :=
  if negb (map_has p indexMap) && negb (map_has p rem)
  then map_set p (mkMut p false false) rem else rem.

Definition add_instruction (indexMap : IndexMap) (rem : RemainingMap) (ix : Instruction) :
    RemainingMap :=
  fold_left (λ rem acc, add_account indexMap acc rem) (accounts ix)
    (add_program indexMap (programAddress ix) rem).

(** [indexMap.get(a)!] where the entry is always present (proved below). *)
Definition index_of (indexMap : IndexMap) (a : address) : result Z :=
  of_option (EExternal "undefined index") (Z.of_nat <$> map_get a indexMap).

Definition compact_instruction (indexMap : IndexMap) (payer : address) (ix : Instruction) :
    result CompactInstruction :=
  p ← index_of indexMap (programAddress ix);
  programIdIndex ← encodeAccountIndex p false;
  accountIndexes ← mapR (λ a,
      i ← index_of indexMap (m_address a);
      encodeAccountIndex i
        ((flagsFromRole (m_role a)).1 && negb (bool_decide (m_address a = payer)))) (accounts ix);
  Ok (mkCompact programIdIndex accountIndexes (data ix)).

Definition collect (fixedAccounts : list address) (userInstructions : list Instruction) :
    RemainingMap :=
  fold_left (add_instruction (index_from 0 fixedAccounts [])) userInstructions [].

(** Back to kit's [AccountMeta], with the role its flags name. *)
Definition to_meta (m : MutableMeta) : AccountMeta :=
  mkMeta (mm_address m) (roleFromFlags (isSigner m) (isWritable m)).

Definition buildCompactLayout (fixedAccounts : list address)
    (userInstructions : list Instruction) (payer : address) :
    result (list CompactInstruction * list AccountMeta) :=
  let indexMap := index_from 0 fixedAccounts [] in
  let remainingMutable := (collect fixedAccounts userInstructions).*2 in
  let indexMap := index_from (length fixedAccounts) (mm_address <$> remainingMutable) indexMap in
  compactInstructions ← mapR (compact_instruction indexMap payer) userInstructions;
  Ok (compactInstructions, to_meta <$> remainingMutable).

(** ** Privileges *)
Lemma roleFromFlags_flags s w : flagsFromRole (roleFromFlags s w) = (s, w).
Proof. by destruct s, w. Qed.

Lemma flagsFromRole_role r : flagsFromRole r = (role_signer r, role_writable r).
Proof. by destruct r. Qed.

(** ** The index map *)

(** Every entry of the map names the table's account at that index. *)
Definition indexes (m : IndexMap) (table : list address) : Prop :=
  ∀ a i, map_get a m = Some i → table !! i = Some a.

Lemma index_from_indexes pre l m :
  indexes m pre → indexes (index_from (length pre) l m) (pre ++ l).
Proof.
  revert pre m. induction l as [|a l IH]; intros pre m H; simpl.
  - by rewrite app_nil_r.
  - replace (S (length pre)) with (length (pre ++ [a])) by (rewrite length_app; simpl; lia).
    replace (pre ++ a :: l) with ((pre ++ [a]) ++ l) by (by rewrite <- app_assoc).
    apply IH. intros b i. rewrite map_get_set. destruct (decide (b = a)) as [->|].
    + intros [= <-]. rewrite lookup_app_r by lia. by rewrite Nat.sub_diag.
    + intros Hb%H. by apply lookup_app_l_Some.
Qed.

Lemma index_from_keys l i m a : a ∈ (index_from i l m).*1 ↔ a ∈ l ∨ a ∈ m.*1.
Proof.
  revert i m. induction l as [|b l IH]; intros i m; simpl; [set_solver|].
  rewrite IH, elem_of_map_set_keys. set_solver.
Qed.

(** ** Collecting the remaining accounts *)

(** Addresses an instruction mentions, with the privileges it asks for. *)
Definition mentions (ix : Instruction) : list AccountMeta :=
  mkMeta (programAddress ix) READONLY :: accounts ix.

(** The privileges the mentions [ms] ask for [a], merged. *)
Definition asked_signer (ms : list AccountMeta) (a : address) : bool :=
  existsb (λ m, bool_decide (m_address m = a) && role_signer (m_role m)) ms.
Definition asked_writable (ms : list AccountMeta) (a : address) : bool :=
  existsb (λ m, bool_decide (m_address m = a) && role_writable (m_role m)) ms.
Definition mentioned (ms : list AccountMeta) (a : address) : bool :=
  existsb (λ m, bool_decide (m_address m = a)) ms.

(** What the remaining map holds once the mentions [ms] have been added. *)
Definition rem_spec (indexMap : IndexMap) (ms : list AccountMeta) (rem : RemainingMap) : Prop :=
  NoDup rem.*1 ∧
  ∀ a, map_get a rem =
    if map_has a indexMap then None
    else if mentioned ms a then Some (mkMut a (asked_signer ms a) (asked_writable ms a))
    else None.

Lemma unmentioned_asks ms a :
  mentioned ms a = false → asked_signer ms a = false ∧ asked_writable ms a = false.
Proof.
  intros H. unfold asked_signer, asked_writable.
  split; apply existsb_false; intros m Hm;
    by rewrite (proj1 (existsb_false _ _) H m Hm).
Qed.

Lemma add_account_spec indexMap m ms rem :
  rem_spec indexMap ms rem → rem_spec indexMap (ms ++ [m]) (add_account indexMap m rem).
Proof.
  intros [Hnd Hget]. unfold add_account. rewrite flagsFromRole_role. split.
  { destruct (map_has (m_address m) indexMap); [done|].
    destruct (map_get (m_address m) rem); by apply map_set_NoDup. }
  intros a. unfold mentioned, asked_signer, asked_writable. rewrite !existsb_app. simpl.
  rewrite !orb_false_r. fold (mentioned ms a) (asked_signer ms a) (asked_writable ms a).
  destruct (decide (m_address m = a)) as [<-|Hne].
  - rewrite bool_decide_eq_true_2 by done. rewrite !orb_true_r. simpl.
    destruct (map_has (m_address m) indexMap) eqn:Hh; [by rewrite Hget, Hh|].
    rewrite Hget, Hh. destruct (mentioned ms (m_address m)) eqn:Hm;
      rewrite map_get_set_eq; [done|].
    destruct (unmentioned_asks _ _ Hm) as [-> ->]. done.
  - rewrite bool_decide_eq_false_2 by done. rewrite !orb_false_r. simpl.
    destruct (map_has (m_address m) indexMap); [by apply Hget|].
    destruct (map_get (m_address m) rem); rewrite map_get_set_ne by congruence; apply Hget.
Qed.

Lemma add_program_account indexMap ms p rem :
  rem_spec indexMap ms rem →
  add_program indexMap p rem = add_account indexMap (mkMeta p READONLY) rem.
Proof.
  intros [_ Hget]. unfold add_program, add_account. simpl.
  destruct (map_has p indexMap) eqn:Hh; [done|]. simpl. unfold map_has.
  destruct (map_get p rem) as [e|] eqn:He; [|done]. simpl.
  rewrite !orb_false_r. symmetry. apply map_set_id. rewrite He. by destruct e.
Qed.

Lemma add_accounts_spec indexMap l ms rem :
  rem_spec indexMap ms rem →
  rem_spec indexMap (ms ++ l) (fold_left (λ rem acc, add_account indexMap acc rem) l rem).
Proof.
  revert ms rem. induction l as [|m l IH]; intros ms rem H; simpl; [by rewrite app_nil_r|].
  replace (ms ++ m :: l) with ((ms ++ [m]) ++ l) by (by rewrite <- app_assoc).
  by apply IH, add_account_spec.
Qed.

Lemma collect_spec fixed ixs :
  rem_spec (index_from 0 fixed []) (concat (mentions <$> ixs)) (collect fixed ixs).
Proof.
  unfold collect. set (im := index_from 0 fixed []).
  enough (H : ∀ ms rem, rem_spec im ms rem →
    rem_spec im (ms ++ concat (mentions <$> ixs)) (fold_left (add_instruction im) ixs rem)).
  { apply (H [] []). split; [constructor|]. intros a. simpl. by destruct (map_has a im). }
  induction ixs as [|ix ixs IH]; intros ms rem H; [simpl; by rewrite app_nil_r|].
  rewrite fmap_cons. cbn [fold_left concat]. rewrite app_assoc. apply IH.
  unfold add_instruction. rewrite (add_program_account im ms) by done.
  unfold mentions. replace (ms ++ mkMeta (programAddress ix) READONLY :: accounts ix)
    with ((ms ++ [mkMeta (programAddress ix) READONLY]) ++ accounts ix)
    by (by rewrite <- app_assoc).
  by apply add_accounts_spec, add_account_spec.
Qed.

Lemma rem_addresses indexMap ms rem :
  rem_spec indexMap ms rem → mm_address <$> rem.*2 = rem.*1.
Proof.
  intros [Hnd Hget]. rewrite <- list_fmap_compose. apply list_fmap_ext.
  intros i [k v] Hi. simpl. apply list_elem_of_lookup_2 in Hi.
  apply (map_get_NoDup k v) in Hi; [|done]. rewrite Hget in Hi.
  destruct (map_has k indexMap), (mentioned ms k); try done. by injection Hi as <-.
Qed.

Lemma fixed_has fixed a : map_has a (index_from 0 fixed []) = bool_decide (a ∈ fixed).
Proof.
  apply eq_true_iff_eq. rewrite map_has_true, index_from_keys, bool_decide_eq_true.
  simpl. set_solver.
Qed.

(** ** The whole layout *)

(** The index map the instructions are compacted with, and its table. *)
Definition full_index (fixed : list address) (ixs : list Instruction) : IndexMap :=
  index_from (length fixed) (mm_address <$> (collect fixed ixs).*2) (index_from 0 fixed []).
Definition table (fixed : list address) (ixs : list Instruction) : list address :=
  fixed ++ (mm_address <$> (collect fixed ixs).*2).

Lemma full_index_indexes fixed ixs : indexes (full_index fixed ixs) (table fixed ixs).
Proof.
  apply index_from_indexes. by apply (index_from_indexes []).
Qed.

Lemma mention_indexed fixed ixs ix m :
  ix ∈ ixs → m ∈ mentions ix → ∃ i, map_get (m_address m) (full_index fixed ixs) = Some i
    ∧ (i < length (table fixed ixs))%nat.
Proof.
  intros Hix Hm.
  enough (Hin : m_address m ∈ (full_index fixed ixs).*1).
  { apply map_has_true in Hin. unfold map_has in Hin.
    destruct (map_get (m_address m) (full_index fixed ixs)) as [i|] eqn:E; [|done].
    exists i. split; [done|]. by eapply lookup_lt_Some, full_index_indexes. }
  unfold full_index. rewrite index_from_keys.
  destruct (collect_spec fixed ixs) as [Hnd Hget].
  rewrite (rem_addresses _ _ _ (conj Hnd Hget)).
  specialize (Hget (m_address m)).
  destruct (map_has (m_address m) (index_from 0 fixed [])) eqn:Hh;
    [right; by apply map_has_true|]. left.
  assert (Hmen : mentioned (concat (mentions <$> ixs)) (m_address m) = true).
  { apply existsb_Exists. exists m. split; [|by apply bool_decide_eq_true_2].
    apply list_elem_of_In, in_concat. exists (mentions ix).
    split; apply list_elem_of_In; [by apply list_elem_of_fmap_2 | done]. }
  rewrite Hmen in Hget. apply map_get_elem in Hget.
  apply list_elem_of_fmap. eexists; split; [|exact Hget]. done.
Qed.

(** Index byte [b] names [a] in the table, with forward request [fwd]. *)
Definition compact_index (t : list address) (b : Z) (a : address) (fwd : bool) : Prop :=
  0 <= b < 256 ∧ t !! Z.to_nat (decodeAccountIndex b).1 = Some a
  ∧ (decodeAccountIndex b).2 = fwd.

(** A compact instruction says the same as the instruction it came from, over
    the account table [t]: same program, same accounts in order, same data,
    signer privileges forwarded for exactly the declared signers that are not
    the payer. *)
Definition resolves (t : list address) (payer : address) (ix : Instruction)
    (c : CompactInstruction) : Prop :=
  compact_index t (programIdIndex c) (programAddress ix) false ∧ c_data c = data ix
  ∧ Forall2 (λ acc b, compact_index t b (m_address acc)
               (role_signer (m_role acc) && negb (bool_decide (m_address acc = payer))))
      (accounts ix) (accountIndexes c).
Lemma encode_index fixed ixs i fwd :
  (i < length (table fixed ixs))%nat → (length (table fixed ixs) <= 128)%nat →
  ∃ b, encodeAccountIndex (Z.of_nat i) fwd = Ok b ∧ 0 <= b < 256
    ∧ decodeAccountIndex b = (Z.of_nat i, fwd).
Proof. intros Hi Ht. apply account_index_ok. lia. Qed.

Lemma compact_one_ok fixed ixs payer ix :
  ix ∈ ixs → (length (table fixed ixs) <= 128)%nat →
  is_ok (compact_instruction (full_index fixed ixs) payer ix) = true.
Proof.
  intros Hix Ht. unfold compact_instruction, index_of.
  destruct (mention_indexed fixed ixs ix (mkMeta (programAddress ix) READONLY) Hix)
    as (p & Hp & Hlt); [left|]. simpl in Hp. rewrite Hp.
  change (Z.of_nat <$> Some p) with (Some (Z.of_nat p)). cbn [of_option]. rewrite bind_ok.
  destruct (encode_index fixed ixs p false Hlt Ht) as (b & -> & _). rewrite bind_ok.
  rewrite (mapR_total _ (λ a, default 0 (match (i ← of_option (EExternal "undefined index")
      (Z.of_nat <$> map_get (m_address a) (full_index fixed ixs));
      encodeAccountIndex i ((flagsFromRole (m_role a)).1
        && negb (bool_decide (m_address a = payer)))) with Ok b => Some b | _ => None end)));
    [done|].
  intros a Ha. destruct (mention_indexed fixed ixs ix a Hix) as (i & Hi & Hil); [by right|].
  rewrite Hi. change (Z.of_nat <$> Some i) with (Some (Z.of_nat i)). cbn [of_option].
  rewrite bind_ok. by destruct (encode_index fixed ixs i
    ((flagsFromRole (m_role a)).1 && negb (bool_decide (m_address a = payer))) Hil Ht)
    as (b' & -> & _).
Qed.

Lemma index_of_resolves fixed ixs a fwd b :
  (i ← index_of (full_index fixed ixs) a; encodeAccountIndex i fwd) = Ok b →
  compact_index (table fixed ixs) b a fwd.
Proof.
  unfold index_of. destruct (map_get a (full_index fixed ixs)) as [i|] eqn:Hi; [|done].
  change (Z.of_nat <$> Some i) with (Some (Z.of_nat i)). cbn [of_option]. rewrite bind_ok.
  intros He. destruct (account_index_ok (Z.of_nat i) fwd) as (b' & Hb & Hr & Hd);
    [by eapply encode_ok_range|].
  rewrite He in Hb. injection Hb as <-. unfold compact_index. rewrite Hd. simpl.
  rewrite Nat2Z.id. split; [done|]. split; [|done]. by apply full_index_indexes.
Qed.

Lemma compact_one_resolves fixed ixs payer ix c :
  compact_instruction (full_index fixed ixs) payer ix = Ok c →
  resolves (table fixed ixs) payer ix c.
Proof.
  unfold compact_instruction.
  intros (p & Hp & (pi & Hpi & (ais & Hais & [= <-])%bind_inv)%bind_inv)%bind_inv.
  split; [|split; [done|]]; cbn [programIdIndex accountIndexes].
  - apply index_of_resolves. by rewrite Hp, bind_ok.
  - apply mapR_ok in Hais. eapply Forall2_impl; [exact Hais|]. intros acc b Hb.
    cbv beta in Hb. rewrite flagsFromRole_role in Hb. by apply index_of_resolves.
Qed.

Lemma layout_unfold fixed ixs payer :
  buildCompactLayout fixed ixs payer
  = (cs ← mapR (compact_instruction (full_index fixed ixs) payer) ixs;
     Ok (cs, to_meta <$> (collect fixed ixs).*2)).
Proof. done. Qed.

Lemma layout_addresses fixed ixs payer cs rem :
  buildCompactLayout fixed ixs payer = Ok (cs, rem) →
  table fixed ixs = fixed ++ (m_address <$> rem).
Proof.
  rewrite layout_unfold. intros (? & _ & [= _ <-])%bind_inv. unfold table. f_equal.
  by rewrite <- (list_fmap_compose to_meta m_address).
Qed.

Lemma layout_resolves_all fixed ixs payer cs rem :
  buildCompactLayout fixed ixs payer = Ok (cs, rem) →
  Forall2 (resolves (fixed ++ (m_address <$> rem)) payer) ixs cs.
Proof.
  intros H. rewrite <- (layout_addresses _ _ _ _ _ H).
  rewrite layout_unfold in H. apply bind_inv in H as (cs' & Hcs & [= <- _]).
  apply mapR_ok in Hcs. eapply Forall2_impl; [exact Hcs|]. apply compact_one_resolves.
Qed.

(** C28.  The compact layout loses nothing: over the table of the fixed prefix
    followed by the remaining accounts, every compact instruction resolves to
    its original program, accounts and data, in order; the forward-signer bit
    is set for exactly the accounts the instruction declares signers other
    than the payer. *)
Theorem layout_resolves fixed ixs payer cs rem :
  buildCompactLayout fixed ixs payer = Ok (cs, rem) →
  Forall2 (resolves (fixed ++ (m_address <$> rem)) payer) ixs cs.
Proof. apply layout_resolves_all. Qed.

(** The remaining accounts are exact: each address appears once, none of
    them is in the fixed prefix, they are exactly the other addresses the
    instructions mention, and each carries the union of the privileges asked
    for it and no more. *)
Theorem layout_remaining fixed ixs payer cs rem :
  buildCompactLayout fixed ixs payer = Ok (cs, rem) →
  (let ms := concat (mentions <$> ixs) in
  NoDup (m_address <$> rem) ∧
  ∀ a r, mkMeta a r ∈ rem ↔
    (a ∉ fixed) ∧ mentioned ms a = true
    ∧ role_signer r = asked_signer ms a ∧ role_writable r = asked_writable ms a).
Proof.
  intros H ms. pose proof (collect_spec fixed ixs) as Hspec. fold ms in Hspec.
  pose proof (rem_addresses _ _ _ Hspec) as Haddr.
  rewrite layout_unfold in H. apply bind_inv in H as (? & _ & [= _ <-]). split.
  { rewrite <- (list_fmap_compose to_meta m_address).
    change (m_address ∘ to_meta) with mm_address. rewrite Haddr. apply Hspec. }
  intros a r. destruct Hspec as [Hnd Hget]. rewrite list_elem_of_fmap. split.
  - intros (mm & Heq & ([k mm'] & -> & Hin)%list_elem_of_fmap). simpl in *.
    apply (map_get_NoDup k mm') in Hin; [|done]. rewrite Hget, fixed_has in Hin.
    case_bool_decide as Hf; [done|]. destruct (mentioned ms k) eqn:Hm; [|done].
    injection Hin as <-. unfold to_meta in Heq. injection Heq as -> ->. split; [done|]. split; [done|].
    by destruct (asked_signer ms k), (asked_writable ms k).
  - intros (Hf & Hm & Hs & Hw). specialize (Hget a). rewrite fixed_has in Hget.
    rewrite bool_decide_eq_false_2, Hm in Hget by done.
    exists (mkMut a (asked_signer ms a) (asked_writable ms a)). simpl. split.
    + unfold to_meta. simpl. f_equal. rewrite <- Hs, <- Hw. by destruct r.
    + apply list_elem_of_fmap. exists (a, mkMut a (asked_signer ms a) (asked_writable ms a)).
      split; [done | by apply map_get_elem].
Qed.

(** The layout is built whenever its table has at most 128 accounts, the
    ceiling the forward-signer bit leaves. *)
Theorem layout_total fixed ixs payer :
  (length fixed + length (collect fixed ixs) <= 128)%nat →
  is_ok (buildCompactLayout fixed ixs payer) = true.
Proof.
  intros Hlen. rewrite layout_unfold.
  assert (Ht : (length (table fixed ixs) <= 128)%nat)
    by (unfold table; rewrite length_app, !length_fmap; lia).
  enough (Hok : ∀ l, (∀ ix, ix ∈ l → ix ∈ ixs) →
    is_ok (mapR (compact_instruction (full_index fixed ixs) payer) l) = true).
  { specialize (Hok ixs (λ _ h, h)).
    by destruct (mapR _ ixs). }
  induction l as [|ix l IH]; intros Hl; [done|]. cbn [mapR].
  pose proof (compact_one_ok fixed ixs payer ix (Hl ix ltac:(left)) Ht) as Hone.
  destruct (compact_instruction _ _ ix); [|done]. rewrite bind_ok.
  specialize (IH ltac:(intros; apply Hl; by right)). by destruct (mapR _ l).
Qed.
End compact.

Import ConcreteKit.

(** A transfer naming the fee payer and a co-signer. *)
Definition sample_inner : Instruction :=
  mkIx (at_byte 20) [mkMeta (at_byte 1) WRITABLE_SIGNER; mkMeta (at_byte 8) READONLY_SIGNER;
                     mkMeta (at_byte 9) WRITABLE] [u8 2].
Definition sample_fixed : list address :=
  [at_byte 1; at_byte 2; at_byte 3; at_byte 4; at_byte 5].

Lemma layout_resolves_witness :
  match buildCompactLayout sample_fixed [sample_inner] (at_byte 1) with
  | Ok (cs, rem) =>
      Forall2 (resolves (sample_fixed ++ (m_address <$> rem)) (at_byte 1)) [sample_inner] cs
  | Throw _ => False
  end.
Proof.
  destruct (buildCompactLayout sample_fixed [sample_inner] (at_byte 1)) as [[cs rem]|e] eqn:E.
  - exact (layout_resolves _ _ _ _ _ E).
  - apply (f_equal is_ok) in E. vm_compute in E. discriminate E.
Defined.

Lemma layout_remaining_witness :
  match buildCompactLayout sample_fixed [sample_inner] (at_byte 1) with
  | Ok (cs, rem) => NoDup (m_address <$> rem)
  | Throw _ => False
  end.
Proof.
  destruct (buildCompactLayout sample_fixed [sample_inner] (at_byte 1)) as [[cs rem]|e] eqn:E.
  - exact (proj1 (layout_remaining _ _ _ _ _ E)).
  - apply (f_equal is_ok) in E. vm_compute in E. discriminate E.
Defined.

Lemma layout_total_witness :
  is_ok (buildCompactLayout sample_fixed [sample_inner] (at_byte 1)) = true.
Proof. apply (layout_total sample_fixed [sample_inner] (at_byte 1)). vm_compute; lia. Defined.
