(* ===== verification/Builders.v ===== *)
(** * Instruction builders

    Models src/sdk/sdk-kit/src/instructions/builders.ts: for every instruction
    of the program, its data bytes and its account list, and
    [createAssociatedTokenAccountIdempotentIx] of spl.ts.  A TypeScript optional
    parameter is an [option]; an absent or empty [rpId] is falsy alike. *)
From S2P Require Import Prelude Bytes Kit Constants.
Local Open Scope Z_scope.

Definition DISC_CREATE_WALLET : Z := 0.
Definition DISC_ADD_AUTHORITY : Z := 1.
Definition DISC_REMOVE_AUTHORITY : Z := 2.
Definition DISC_TRANSFER_OWNERSHIP : Z := 3.
Definition DISC_EXECUTE : Z := 4.
Definition DISC_CREATE_SESSION : Z := 5.
Definition DISC_AUTHORIZE : Z := 6.
Definition DISC_EXECUTE_DEFERRED : Z := 7.
Definition DISC_RECLAIM_DEFERRED : Z := 8.
Definition DISC_REVOKE_SESSION : Z := 9.
Definition DISC_INITIALIZE_PROTOCOL : Z := 10.
Definition DISC_UPDATE_PROTOCOL : Z := 11.
Definition DISC_REGISTER_PAYER : Z := 12.
Definition DISC_WITHDRAW_TREASURY : Z := 13.
Definition DISC_INITIALIZE_TREASURY_SHARD : Z := 14.
Definition DISC_PROPOSE_PROTOCOL_ADMIN : Z := 15.
Definition DISC_ACCEPT_PROTOCOL_ADMIN : Z := 16.
Definition DISC_MIGRATE_WALLET : Z := 17.
Definition DISC_CLOSE_EXPIRED_SESSION : Z := 18.

Section builders.
Context `{K : Kit}.

Abbreviation RW := WRITABLE.
Abbreviation RO := READONLY.
Abbreviation SIGNER_RO := READONLY_SIGNER.
Abbreviation SIGNER_RW := WRITABLE_SIGNER.

Record ProtocolFeeAccounts := mkFee {
  protocolConfigPda : address;
  feeRecordPda : address;
  treasuryShardPda : address;
}.

(** [appendProtocolFeeAccounts], on an optional [protocolFee]. *)
Definition feeSuffix (fee : option ProtocolFeeAccounts) : list AccountMeta :=
  match fee with
  | Some f => [mkMeta (protocolConfigPda f) RO; mkMeta (feeRecordPda f) RW;
               mkMeta (treasuryShardPda f) RW; mkMeta SYSTEM_PROGRAM_ADDRESS RO]
  | None => []
  end.

(** [if (secp256r1Pubkey) { push; if (rpId) { push([len], rp) } }] for a passkey. *)
Definition passkeyParts (authType : Z) (secp256r1Pubkey : option bytes) (rpId : option string) :
    list bytes :=
  match secp256r1Pubkey with
  | Some pk =>
      if authType =? AUTH_TYPE_SECP256R1 then
        pk :: match rpId with
              | Some (String _ _ as r) => [[u8 (Z.of_nat (length (utf8 r)))]; utf8 r]
              | _ => []
              end
      else []
  | None => []
  end.

Definition optPart (p : option bytes) : list bytes :=
  match p with Some b => [b] | None => [] end.

(** The trailing account: the Ed25519 signer, or the instructions sysvar when
    a passkey's auth payload is present. *)
Definition authAccount (authorizerSigner : option address) (authPayload : option bytes) :
    list AccountMeta :=
  match authorizerSigner, authPayload with
  | Some s, _ => [mkMeta s SIGNER_RO]
  | None, Some _ => [mkMeta SYSVAR_INSTRUCTIONS_ADDRESS RO]
  | None, None => []
  end.

Definition createCreateWalletIx (payer walletPda vaultPda authorityPda : address)
    (userSeed : bytes) (authType authBump : Z) (credentialOrPubkey : bytes)
    (secp256r1Pubkey : option bytes) (rpId : option string)
    (protocolFee : option ProtocolFeeAccounts) (programId : address) : Instruction :=
  mkIx programId
    ([mkMeta payer SIGNER_RW; mkMeta walletPda RW; mkMeta vaultPda RW; mkMeta authorityPda RW;
      mkMeta SYSTEM_PROGRAM_ADDRESS RO; mkMeta SYSVAR_RENT_ADDRESS RO] ++ feeSuffix protocolFee)
    (concatBytes ([[u8 DISC_CREATE_WALLET]; userSeed; [u8 authType; u8 authBump]; zeros 6;
                   credentialOrPubkey] ++ passkeyParts authType secp256r1Pubkey rpId)).

Definition createAddAuthorityIx (payer walletPda adminAuthorityPda newAuthorityPda : address)
    (newType newRole : Z) (credentialOrPubkey : bytes) (secp256r1Pubkey : option bytes)
    (rpId : option string) (policy authPayload : option bytes)
    (authorizerSigner : option address) (programId : address) : Instruction :=
  let p := default [] policy in
  mkIx programId
    ([mkMeta payer SIGNER_RO; mkMeta walletPda RW; mkMeta adminAuthorityPda RW;
      mkMeta newAuthorityPda RW; mkMeta SYSTEM_PROGRAM_ADDRESS RO;
      mkMeta SYSVAR_RENT_ADDRESS RO] ++ authAccount authorizerSigner authPayload)
    (concatBytes ([[u8 DISC_ADD_AUTHORITY]; [u8 newType; u8 newRole]; zeros 6;
                   credentialOrPubkey] ++ passkeyParts newType secp256r1Pubkey rpId
                  ++ [setUint16 (Z.of_nat (length p)); p] ++ optPart authPayload)).

Definition createRemoveAuthorityIx
    (payer walletPda adminAuthorityPda targetAuthorityPda refundDestination : address)
    (authPayload : option bytes) (authorizerSigner : option address) (programId : address) :
    Instruction :=
  mkIx programId
    ([mkMeta payer SIGNER_RO; mkMeta walletPda RW; mkMeta adminAuthorityPda RW;
      mkMeta targetAuthorityPda RW; mkMeta refundDestination RW]
     ++ authAccount authorizerSigner authPayload)
    (concatBytes ([[u8 DISC_REMOVE_AUTHORITY]] ++ optPart authPayload)).

Definition createTransferOwnershipIx
    (payer walletPda currentOwnerAuthorityPda newOwnerAuthorityPda refundDestination : address)
    (newType : Z) (credentialOrPubkey : bytes) (secp256r1Pubkey : option bytes)
    (rpId : option string) (authPayload : option bytes) (authorizerSigner : option address)
    (programId : address) : Instruction :=
  mkIx programId
    ([mkMeta payer SIGNER_RO; mkMeta walletPda RO; mkMeta currentOwnerAuthorityPda RW;
      mkMeta newOwnerAuthorityPda RW; mkMeta refundDestination RW;
      mkMeta SYSTEM_PROGRAM_ADDRESS RO; mkMeta SYSVAR_RENT_ADDRESS RO]
     ++ authAccount authorizerSigner authPayload)
    (concatBytes ([[u8 DISC_TRANSFER_OWNERSHIP]; [u8 newType]; credentialOrPubkey]
                  ++ passkeyParts newType secp256r1Pubkey rpId ++ optPart authPayload)).

Definition createExecuteIx (payer walletPda authorityPda vaultPda : address)
    (packedInstructions : bytes) (authPayload : option bytes)
    (authorizerSigner : option address) (remainingAccounts : list AccountMeta)
    (protocolFee : option ProtocolFeeAccounts) (programId : address) : Instruction :=
  mkIx programId
    ([mkMeta payer SIGNER_RW; mkMeta walletPda RO; mkMeta authorityPda RW; mkMeta vaultPda RW]
     ++ authAccount authorizerSigner authPayload ++ remainingAccounts ++ feeSuffix protocolFee)
    (concatBytes ([[u8 DISC_EXECUTE]; packedInstructions] ++ optPart authPayload)).

Definition createCreateSessionIx (payer walletPda adminAuthorityPda sessionPda : address)
    (sessionKey : bytes) (expiresAt : Z) (actionsBuffer authPayload : option bytes)
    (authorizerSigner : option address) (programId : address) : Instruction :=
  let buf := default [] actionsBuffer in
  mkIx programId
    ([mkMeta payer SIGNER_RO; mkMeta walletPda RO; mkMeta adminAuthorityPda RW;
      mkMeta sessionPda RW; mkMeta SYSTEM_PROGRAM_ADDRESS RO; mkMeta SYSVAR_RENT_ADDRESS RO]
     ++ authAccount authorizerSigner authPayload)
    (concatBytes ([[u8 DISC_CREATE_SESSION]; sessionKey; setBigInt64 expiresAt;
                   u16LE (Z.of_nat (length buf))]
                  ++ (if (0 <? length buf)%nat then [buf] else []) ++ optPart authPayload)).

Definition createAuthorizeIx (payer walletPda authorityPda deferredExecPda : address)
    (instructionsHash accountsHash : bytes) (expiryOffset : Z) (authPayload : bytes)
    (programId : address) : Instruction :=
  mkIx programId
    [mkMeta payer SIGNER_RW; mkMeta walletPda RO; mkMeta authorityPda RW;
     mkMeta deferredExecPda RW; mkMeta SYSTEM_PROGRAM_ADDRESS RO;
     mkMeta SYSVAR_RENT_ADDRESS RO; mkMeta SYSVAR_INSTRUCTIONS_ADDRESS RO]
    (concatBytes [[u8 DISC_AUTHORIZE]; instructionsHash; accountsHash; u16LE expiryOffset;
                  authPayload]).

Definition createExecuteDeferredIx
    (payer walletPda vaultPda deferredExecPda refundDestination : address)
    (packedInstructions : bytes) (remainingAccounts : list AccountMeta)
    (protocolFee : option ProtocolFeeAccounts) (programId : address) : Instruction :=
  mkIx programId
    ([mkMeta payer SIGNER_RW; mkMeta walletPda RO; mkMeta vaultPda RW;
      mkMeta deferredExecPda RW; mkMeta refundDestination RW]
     ++ remainingAccounts ++ feeSuffix protocolFee)
    (concatBytes [[u8 DISC_EXECUTE_DEFERRED]; packedInstructions]).

Definition createReclaimDeferredIx (payer deferredExecPda refundDestination programId : address) :
    Instruction :=
  mkIx programId
    [mkMeta payer SIGNER_RO; mkMeta deferredExecPda RW; mkMeta refundDestination RW]
    [u8 DISC_RECLAIM_DEFERRED].

Definition createRevokeSessionIx
    (payer walletPda adminAuthorityPda sessionPda refundDestination : address)
    (authPayload : option bytes) (authorizerSigner : option address) (programId : address) :
    Instruction :=
  mkIx programId
    ([mkMeta payer SIGNER_RO; mkMeta walletPda RO; mkMeta adminAuthorityPda RW;
      mkMeta sessionPda RW; mkMeta refundDestination RW]
     ++ authAccount authorizerSigner authPayload)
    (concatBytes ([[u8 DISC_REVOKE_SESSION]] ++ optPart authPayload)).

Definition createInitializeProtocolIx (payer protocolConfig admin treasury : address)
    (creationFee executionFee numShards : Z) (programId : address) : Instruction :=
  mkIx programId
    [mkMeta payer SIGNER_RW; mkMeta protocolConfig RW; mkMeta SYSTEM_PROGRAM_ADDRESS RO;
     mkMeta SYSVAR_RENT_ADDRESS RO]
    (concatBytes [[u8 DISC_INITIALIZE_PROTOCOL]; address_encode admin; address_encode treasury;
                  setBigUint64 creationFee; setBigUint64 executionFee; [u8 numShards]]).

Definition createUpdateProtocolIx (admin protocolConfig : address)
    (creationFee executionFee : Z) (enabled : bool) (newTreasury programId : address) :
    Instruction :=
  mkIx programId
    [mkMeta admin SIGNER_RO; mkMeta protocolConfig RW]
    (concatBytes [[u8 DISC_UPDATE_PROTOCOL]; setBigUint64 creationFee;
                  setBigUint64 executionFee; [u8 (if enabled then 1 else 0)]; zeros 7;
                  address_encode newTreasury]).

Definition createRegisterPayerIx (payer feeRecord programId : address) : Instruction :=
  mkIx programId
    [mkMeta payer SIGNER_RW; mkMeta feeRecord RW; mkMeta SYSTEM_PROGRAM_ADDRESS RO;
     mkMeta SYSVAR_RENT_ADDRESS RO]
    [u8 DISC_REGISTER_PAYER].

Definition createWithdrawTreasuryIx (admin protocolConfig treasuryShard treasury programId : address) :
    Instruction :=
  mkIx programId
    [mkMeta admin SIGNER_RO; mkMeta protocolConfig RO; mkMeta treasuryShard RW;
     mkMeta treasury RW; mkMeta SYSVAR_RENT_ADDRESS RO]
    [u8 DISC_WITHDRAW_TREASURY].

Definition createInitializeTreasuryShardIx (payer protocolConfig admin treasuryShard : address)
    (shardId : Z) (programId : address) : Instruction :=
  mkIx programId
    [mkMeta payer SIGNER_RW; mkMeta protocolConfig RO; mkMeta admin SIGNER_RO;
     mkMeta treasuryShard RW; mkMeta SYSTEM_PROGRAM_ADDRESS RO; mkMeta SYSVAR_RENT_ADDRESS RO]
    [u8 DISC_INITIALIZE_TREASURY_SHARD; u8 shardId].

Record MigrateTokenPair := mkPair {
  sourceAta : address;
  destAta : address;
  pairMint : address;
  pairTokenProgram : address;
}.

Definition pairMetas (t : MigrateTokenPair) : list AccountMeta :=
  [mkMeta (sourceAta t) RW; mkMeta (destAta t) RW; mkMeta (pairMint t) RO;
   mkMeta (pairTokenProgram t) RO].

Definition createMigrateWalletIx
    (payer v1Wallet v1Authority v1Vault destination refundDestination authSigner : address)
    (authSignerIsSigner : bool) (tokens : list MigrateTokenPair) (authPayload : option bytes)
    (programId : address) : Instruction :=
  mkIx programId
    ([mkMeta payer SIGNER_RW; mkMeta v1Wallet RW; mkMeta v1Authority RW; mkMeta v1Vault RW;
      mkMeta destination RW; mkMeta refundDestination RW; mkMeta SYSTEM_PROGRAM_ADDRESS RO;
      mkMeta SYSVAR_INSTRUCTIONS_ADDRESS RO;
      mkMeta authSigner (if authSignerIsSigner then SIGNER_RO else RO)]
     ++ concat (pairMetas <$> tokens))
    (concatBytes [[u8 DISC_MIGRATE_WALLET; u8 (Z.of_nat (length tokens))];
                  default [] authPayload]).

Definition createCloseExpiredSessionIx (caller sessionPda refundDestination programId : address) :
    Instruction :=
  mkIx programId
    [mkMeta caller SIGNER_RW; mkMeta sessionPda RW; mkMeta refundDestination RW]
    [u8 DISC_CLOSE_EXPIRED_SESSION].

(** spl.ts *)
Definition createAssociatedTokenAccountIdempotentIx (payer ata owner mint tokenProgram : address) :
    Instruction :=
  mkIx ASSOCIATED_TOKEN_PROGRAM_ADDRESS
    [mkMeta payer WRITABLE_SIGNER; mkMeta ata WRITABLE; mkMeta owner READONLY;
     mkMeta mint READONLY; mkMeta SYSTEM_PROGRAM_ADDRESS READONLY; mkMeta tokenProgram READONLY]
    [u8 1].

(** v1.ts: [harvestWithheldIx]. *)
Definition harvestWithheldIx (mint : address) (sources : list address) : Instruction :=
  mkIx TOKEN_2022_PROGRAM_ADDRESS
    (mkMeta mint WRITABLE :: ((λ a, mkMeta a WRITABLE) <$> sources)) [u8 26; u8 4].
End builders.
