(* ===== verification/Signing.v ===== *)
(** * Passkey signing

    Models src/sdk/sdk-kit/src/secp256r1/secp256r1.ts and signing.ts: the auth
    payload, the challenge, the two-phase flow, the signed data payloads and the
    precompile instruction; and what src/program/src/auth/secp256r1/ reads of
    them. *)
From S2P Require Import Prelude Bytes Kit Constants Builders.
Local Open Scope Z_scope.

(** [buildAuthPayloadPrefix]: 14 bytes written through a [DataView]. *)
Definition buildAuthPayloadPrefix (slot counter sysvarIxIndex : Z) : bytes :=
  let buf := zeros 14 in
  let buf := set_at 0 (setBigUint64 slot) buf in
  let buf := set_at 8 (setUint32 counter) buf in
  let buf := set_at 12 [u8 sysvarIxIndex] buf in
  set_at 13 [u8 0x80] buf.

Definition buildAuthPayload (slot counter sysvarIxIndex : Z)
    (authenticatorData clientDataJson : bytes) : result bytes :=
  let authDataLen := length authenticatorData in
  let cdjLen := length clientDataJson in
  (throw! EAuthDataTooLong authDataLen when 0xffff <? Z.of_nat authDataLen;
   throw! EClientDataTooLong cdjLen when 0xffff <? Z.of_nat cdjLen;
   let buf := zeros (8 + 4 + 1 + 1 + 2 + authDataLen + 2 + cdjLen) in
   let buf := set_at 0 (setBigUint64 slot) buf in
   let buf := set_at 8 (setUint32 counter) buf in
   let buf := set_at 12 [u8 sysvarIxIndex] buf in
   let buf := set_at 13 [u8 0x80] buf in
   let buf := set_at 14 (setUint16 (Z.of_nat authDataLen)) buf in
   let buf := set_at 16 authenticatorData buf in
   let buf := set_at (16 + authDataLen) (setUint16 (Z.of_nat cdjLen)) buf in
   Ok (set_at (18 + authDataLen) clientDataJson buf))%js.

Section signing.
Context `{K : Kit}.

Definition generateAuthenticatorData (rpId : string) : bytes :=
  set_at 32 [u8 0x01] (set_at 0 (sha256 (utf8 rpId)) (zeros 37)).

(** ** The challenge *)

(** The bytes hashed, in the order of the [hash.update] calls. *)
Definition challengePreimage (discriminator authPayload signedPayload : bytes)
    (payer wallet : address) (counter : Z) (programId : address) : bytes :=
  discriminator ++ authPayload ++ signedPayload ++ address_encode payer
  ++ address_encode wallet ++ setUint32 counter ++ address_encode programId.

Definition buildSecp256r1Challenge (discriminator authPayload signedPayload : bytes)
    (payer wallet : address) (counter : Z) (programId : address) : bytes :=
  sha256 (challengePreimage discriminator authPayload signedPayload payer wallet counter
            programId).

Record PreparedSecp256r1 := mkPrepared {
  challenge : bytes;
  p_slot : Z;
  p_counter : Z;
  p_sysvarIxIndex : Z;
  p_publicKeyBytes : bytes;
}.

Record WebAuthnResponse := mkResponse {
  r_signature : bytes;
  r_authenticatorData : bytes;
  r_clientDataJsonHash : bytes;
  r_clientDataJson : bytes;
}.

Definition prepareSecp256r1 (discriminator signedPayload : bytes) (sysvarIxIndex slot counter : Z)
    (payer wallet programId : address) (publicKeyBytes : bytes) : PreparedSecp256r1 :=
  mkPrepared
    (buildSecp256r1Challenge discriminator (buildAuthPayloadPrefix slot counter sysvarIxIndex)
       signedPayload payer wallet counter programId)
    slot counter sysvarIxIndex publicKeyBytes.

Definition precompileData (publicKey message signature : bytes) : bytes :=
  let data := zeros (16 + 64 + 33 + 1 + length message) in
  let data := set_at 0 [u8 1] data in
  let data := set_at 1 [u8 0] data in
  let data := set_at 2 (setUint16 16) data in
  let data := set_at 4 (setUint16 0xffff) data in
  let data := set_at 6 (setUint16 80) data in
  let data := set_at 8 (setUint16 0xffff) data in
  let data := set_at 10 (setUint16 114) data in
  let data := set_at 12 (setUint16 (Z.of_nat (length message))) data in
  let data := set_at 14 (setUint16 0xffff) data in
  let data := set_at 16 signature data in
  let data := set_at 80 publicKey data in
  set_at 114 message data.

Definition buildSecp256r1PrecompileIx (publicKey message signature : bytes) : result Instruction :=
  (throw! ESignatureLength (length signature) when negb (length signature =? 64)%nat;
   throw! EPublicKeyLength (length publicKey) when negb (length publicKey =? 33)%nat;
   throw! EMessageTooLong (length message) when 0xffff <? Z.of_nat (length message);
   Ok (mkIx SECP256R1_PROGRAM_ADDRESS [] (precompileData publicKey message signature)))%js.

Definition finalizeSecp256r1 (p : PreparedSecp256r1) (r : WebAuthnResponse) :
    result (bytes * Instruction) :=
  authPayload ← buildAuthPayload (p_slot p) (p_counter p) (p_sysvarIxIndex p)
    (r_authenticatorData r) (r_clientDataJson r);
  precompileIx ← buildSecp256r1PrecompileIx (p_publicKeyBytes p)
    (concatBytes [r_authenticatorData r; r_clientDataJsonHash r]) (r_signature r);
  Ok (authPayload, precompileIx).

(** A [Secp256r1Signer]; [sign] is the caller's callback. *)
Record Secp256r1Signer := mkSigner {
  s_publicKeyBytes : bytes;
  s_credentialIdHash : bytes;
  s_rpId : string;
  s_sign : bytes → result WebAuthnResponse;
}.

Definition signWithSecp256r1 (signer : Secp256r1Signer) (discriminator signedPayload : bytes)
    (sysvarIxIndex slot counter : Z) (payer wallet programId : address) :
    result (bytes * Instruction) :=
  let prepared := prepareSecp256r1 discriminator signedPayload sysvarIxIndex slot counter
                    payer wallet programId (s_publicKeyBytes signer) in
  response ← s_sign signer (challenge prepared);
  finalizeSecp256r1 prepared response.

(** ** The signed data payloads *)
Definition buildDataPayloadForAdd (newType newRole : Z) (credentialOrPubkey : bytes)
    (secp256r1Pubkey : option bytes) (rpId : option string) (policy : option bytes) : bytes :=
  let p := default [] policy in
  concatBytes ([[u8 newType; u8 newRole]; zeros 6; credentialOrPubkey]
               ++ passkeyParts newType secp256r1Pubkey rpId
               ++ [setUint16 (Z.of_nat (length p)); p]).

Definition buildDataPayloadForTransfer (newType : Z) (credentialOrPubkey : bytes)
    (secp256r1Pubkey : option bytes) (rpId : option string) : bytes :=
  concatBytes ([[u8 newType]; credentialOrPubkey] ++ passkeyParts newType secp256r1Pubkey rpId).

(** [buf.set] throws when the key does not fit. *)
Definition buildDataPayloadForSession (sessionKey : bytes) (expiresAt : Z)
    (actionsBuffer : option bytes) : result bytes :=
  let actionsLen := match actionsBuffer with Some b => length b | None => 0%nat end in
  (throw! ERangeError when (42 + actionsLen <? length sessionKey)%nat;
   let buf := set_at 0 sessionKey (zeros (42 + actionsLen)) in
   let buf := set_at 32 (setBigInt64 expiresAt) buf in
   let buf := set_at 40 [u8 (Z.land (Z.of_nat actionsLen) 0xff)] buf in
   let buf := set_at 41 [u8 (Z.land (Z.shiftr (Z.of_nat actionsLen) 8) 0xff)] buf in
   Ok (match actionsBuffer with
       | Some b => if (0 <? actionsLen)%nat then set_at 42 b buf else buf
       | None => buf
       end))%js.
End signing.

(** ** The program's reader *)

Record AuthPayload := mkAuthPayload {
  ap_slot : Z;
  ap_counter : Z;
  ap_sysvar_ix_index : Z;
  ap_prefix : bytes;
  ap_authenticator_data : bytes;
  ap_client_data_json : bytes;
}.

(** The auth payload as [Secp256r1Authenticator::authenticate] reads it. *)
Definition parse_auth_payload (b : bytes) : result AuthPayload :=
  (throw! PInvalidAuthorityPayload when (length b <? 18)%nat;
   let auth_data_len := Z.to_nat (le_combine (slice 14 16 b)) in
   throw! PInvalidAuthorityPayload when (length b <? 16 + auth_data_len + 2)%nat;
   let cdj_len_offset := (16 + auth_data_len)%nat in
   let cdj_len := Z.to_nat (le_combine (slice cdj_len_offset (cdj_len_offset + 2) b)) in
   let cdj_offset := (cdj_len_offset + 2)%nat in
   throw! PInvalidAuthorityPayload
     when (cdj_len =? 0)%nat || negb (length b =? cdj_offset + cdj_len)%nat;
   Ok (mkAuthPayload (le_combine (slice 0 8 b)) (le_combine (slice 8 12 b)) (val (b !!! 12%nat))
         (slice 0 14 b) (slice 16 (16 + auth_data_len) b)
         (slice cdj_offset (cdj_offset + cdj_len) b)))%js.

(** [verify_secp256r1_instruction_data] of introspection.rs. *)
Definition u16_at (off : nat) (d : bytes) : Z := le_combine (slice off (off + 2) d).

Definition verify_secp256r1_instruction_data (d expected_pubkey auth_data client_data_hash : bytes) :
    result unit :=
  let expected_msg_len := (length auth_data + length client_data_hash)%nat in
  (throw! PInvalidInstruction when (length d <? 16)%nat;
   throw! PInvalidInstruction when negb (val (d !!! 0%nat) =? 1);
   throw! PInvalidInstruction when (length d <? 114 + 32)%nat;
   throw! PInvalidInstruction when negb (u16_at 4 d =? 0xffff);
   throw! PInvalidInstruction when negb (u16_at 8 d =? 0xffff);
   throw! PInvalidInstruction when negb (u16_at 14 d =? 0xffff);
   throw! PInvalidInstruction when negb (u16_at 2 d =? 16);
   throw! PInvalidInstruction when negb (u16_at 6 d =? 80);
   throw! PInvalidInstruction when negb (u16_at 10 d =? 114);
   throw! PInvalidInstruction when negb (u16_at 12 d =? Z.of_nat expected_msg_len);
   throw! PInvalidInstruction when (length d <? 114 + expected_msg_len)%nat;
   throw! PInvalidPubkey when negb (bytesEqual (slice 80 113 d) expected_pubkey);
   throw! PInvalidMessageHash
     when negb (bytesEqual (slice 114 (114 + length auth_data) d) auth_data);
   throw! PInvalidMessageHash
     when negb (bytesEqual (slice (114 + length auth_data)
                  (114 + length auth_data + length client_data_hash) d) client_data_hash);
   Ok ())%js.

(** ** Closed forms *)

(** Replace the first [set_at] on a filled prefix of a zeroed buffer. *)
Ltac fill := rewrite set_at_zeros by len.
Ltac fills := repeat fill.

Lemma prefix_eq slot counter i :
  buildAuthPayloadPrefix slot counter i
  = le_split 8 slot ++ le_split 4 counter ++ [u8 i; u8 0x80].
Proof.
  unfold buildAuthPayloadPrefix, setBigUint64, setUint32.
  change (zeros 14) with ([] ++ zeros 14). fills. rewrite !length_le_split.
  change (zeros _) with (@nil Byte.byte). rewrite app_nil_r, <- !app_assoc. done.
Qed.

Lemma length_prefix slot counter i : length (buildAuthPayloadPrefix slot counter i) = 14%nat.
Proof. rewrite prefix_eq. len. Qed.

Definition auth_payload_bytes (slot counter i : Z) (ad cdj : bytes) : bytes :=
  buildAuthPayloadPrefix slot counter i ++ le_split 2 (Z.of_nat (length ad)) ++ ad
  ++ le_split 2 (Z.of_nat (length cdj)) ++ cdj.

Lemma buildAuthPayload_ok slot counter i ad cdj :
  Z.of_nat (length ad) <= 0xffff → Z.of_nat (length cdj) <= 0xffff →
  buildAuthPayload slot counter i ad cdj = Ok (auth_payload_bytes slot counter i ad cdj).
Proof.
  intros Ha Hc. unfold buildAuthPayload, throw_if.
  destruct (Z.ltb_spec 0xffff (Z.of_nat (length ad))); [lia|].
  destruct (Z.ltb_spec 0xffff (Z.of_nat (length cdj))); [lia|]. rewrite !bind_ok.
  unfold setBigUint64, setUint32, setUint16.
  change (zeros (8 + 4 + 1 + 1 + 2 + length ad + 2 + length cdj))
    with ([] ++ zeros (8 + 4 + 1 + 1 + 2 + length ad + 2 + length cdj)).
  fills. rewrite !length_le_split. match goal with |- context [zeros ?n] =>
    replace n with 0%nat by (cbn [length]; lia) end.
  change (zeros 0) with (@nil Byte.byte). rewrite app_nil_r. f_equal.
  unfold auth_payload_bytes. rewrite prefix_eq, <- !app_assoc. done.
Qed.

Lemma slice_at a b c s e :
  s = length a → e = (length a + length b)%nat → slice s e (a ++ b ++ c) = b.
Proof. apply slice_mid. Qed.

(** The auth payload the SDK finalizes is read back whole by the program:
    slot, counter, sysvar index, authenticator data and client data; and the
    14 bytes the program hashes into the challenge are the prefix the passkey
    was asked to sign over. *)
Theorem auth_payload_roundtrip (slot counter i : Z) (ad cdj : bytes) :
  0 <= slot < 2 ^ 64 → 0 <= counter < 2 ^ 32 → 0 <= i < 256 →
  Z.of_nat (length ad) <= 0xffff → 0 < Z.of_nat (length cdj) <= 0xffff →
  ∃ b, buildAuthPayload slot counter i ad cdj = Ok b ∧
    parse_auth_payload b
    = Ok (mkAuthPayload slot counter i (buildAuthPayloadPrefix slot counter i) ad cdj).
Proof.
  intros Hs Hc Hi Ha Hcd. exists (auth_payload_bytes slot counter i ad cdj).
  split; [apply buildAuthPayload_ok; lia|].
  set (b := auth_payload_bytes slot counter i ad cdj).
  assert (Hlen : (length b = 18 + length ad + length cdj)%nat)
    by (subst b; unfold auth_payload_bytes; rewrite !length_app, length_prefix; len).
  assert (H0 : slice 0 14 b = buildAuthPayloadPrefix slot counter i)
    by (apply (slice_at []); by rewrite ?length_prefix).
  assert (H1 : slice 14 16 b = le_split 2 (Z.of_nat (length ad)))
    by (apply slice_at; rewrite length_prefix; len).
  assert (H2 : slice 16 (16 + length ad) b = ad).
  { subst b. unfold auth_payload_bytes. rewrite app_assoc.
    apply slice_at; rewrite length_app, length_prefix; len. }
  assert (H3 : slice (16 + length ad) (16 + length ad + 2) b = le_split 2 (Z.of_nat (length cdj))).
  { subst b. unfold auth_payload_bytes. rewrite app_assoc, app_assoc.
    apply slice_at; rewrite !length_app, length_prefix; len. }
  assert (H4 : slice (16 + length ad + 2) (16 + length ad + 2 + length cdj) b = cdj).
  { subst b. unfold auth_payload_bytes.
    rewrite <- (app_nil_r cdj) at 3. rewrite !app_assoc, <- (app_assoc _ cdj []).
    apply slice_at; rewrite !length_app, length_prefix; len. }
  assert (H5 : slice 0 8 b = le_split 8 slot ∧ slice 8 12 b = le_split 4 counter
               ∧ b !!! 12%nat = u8 i).
  { subst b. unfold auth_payload_bytes. rewrite prefix_eq, <- !app_assoc.
    split; [apply (slice_at []); len|]. split; [apply slice_at; len|].
    rewrite !lookup_total_app_r by len. rewrite !length_le_split. done. }
  destruct H5 as (H5 & H6 & H7). unfold parse_auth_payload.
  rewrite H0, H1, (le_combine_small 2) by (simpl; lia). rewrite Nat2Z.id, H2, H3.
  rewrite (le_combine_small 2) by (simpl; lia). rewrite Nat2Z.id, H4, H5, H6, H7.
  rewrite (le_combine_small 8), (le_combine_small 4), val_u8_small by (simpl; lia).
  unfold throw_if. destruct (Nat.ltb_spec (length b) 18); [lia|].
  destruct (Nat.ltb_spec (length b) (16 + length ad + 2)); [lia|].
  destruct (Nat.eqb_spec (length cdj) 0); [lia|].
  destruct (Nat.eqb_spec (length b) (16 + length ad + 2 + length cdj)); [done | lia].
Qed.

(** ** The precompile instruction *)
Definition precompile_head (n : nat) : bytes :=
  [u8 1; u8 0] ++ le_split 2 16 ++ le_split 2 0xffff ++ le_split 2 80 ++ le_split 2 0xffff
  ++ le_split 2 114 ++ le_split 2 (Z.of_nat n) ++ le_split 2 0xffff.

Lemma length_precompile_head n : length (precompile_head n) = 16%nat.
Proof. unfold precompile_head. len. Qed.

Lemma precompileData_eq pk msg sig :
  length pk = 33%nat → length sig = 64%nat →
  precompileData pk msg sig
  = precompile_head (length msg) ++ sig ++ pk ++ [u8 0] ++ msg.
Proof.
  intros Hpk Hsig. unfold precompileData, setUint16.
  change (zeros (16 + 64 + 33 + 1 + length msg))
    with ([] ++ zeros (16 + 64 + 33 + 1 + length msg)).
  do 11 (rewrite set_at_zeros by (autorewrite with lazor_len; cbn [length]; lia)).
  rewrite !length_le_split, Hpk, Hsig. cbn [length].
  match goal with |- context [zeros ?n] => replace n with (1 + length msg)%nat by lia end.
  match goal with |- context [?a ++ zeros (1 + length msg)] =>
    change (a ++ zeros (1 + length msg)) with (a ++ [u8 0] ++ zeros (length msg)) end.
  rewrite (app_assoc _ [u8 0]).
  rewrite set_at_zeros by (autorewrite with lazor_len; rewrite ?Hpk, ?Hsig; cbn [length]; lia).
  rewrite Nat.sub_diag. change (zeros 0) with (@nil Byte.byte). rewrite app_nil_r.
  unfold precompile_head. by rewrite <- !app_assoc.
Qed.

(** The precompile instruction the SDK emits passes the program's
    introspection: one signature, every offset in place, this passkey's key, and
    the message [authenticatorData || clientDataHash]. *)
Theorem precompile_accepted `{KL : KitLaws} (p : PreparedSecp256r1) (r : WebAuthnResponse)
    (authPayload : bytes) (ix : Instruction) :
  finalizeSecp256r1 p r = Ok (authPayload, ix) → length (r_clientDataJsonHash r) = 32%nat →
  programAddress ix = SECP256R1_PROGRAM_ADDRESS ∧ accounts ix = [] ∧
  verify_secp256r1_instruction_data (data ix) (p_publicKeyBytes p) (r_authenticatorData r)
    (r_clientDataJsonHash r) = Ok ().
Proof.
  unfold finalizeSecp256r1, buildSecp256r1PrecompileIx. rewrite concatBytes_concat.
  cbn [concat]. rewrite app_nil_r. intros H Hh.
  set (ad := r_authenticatorData r) in *. set (h := r_clientDataJsonHash r) in *.
  set (pk := p_publicKeyBytes p) in *. set (sig := r_signature r) in *.
  apply bind_inv in H as (ap & _ & H). apply bind_inv in H as (ix' & H & [= _ <-]).
  apply bind_inv in H as ([] & Hsig%throw_if_ok & H).
  apply bind_inv in H as ([] & Hpk%throw_if_ok & H).
  apply bind_inv in H as ([] & Hm%throw_if_ok & [= <-]).
  apply negb_false_iff, Nat.eqb_eq in Hsig, Hpk. apply Z.ltb_ge in Hm.
  cbn [programAddress accounts data]. split; [done|]. split; [done|].
  rewrite precompileData_eq by done. set (msg := ad ++ h) in *.
  set (d := precompile_head (length msg) ++ sig ++ pk ++ [u8 0] ++ msg).
  assert (Hlm : length msg = (length ad + 32)%nat) by (subst msg; rewrite length_app, Hh; done).
  assert (Hlen : (length d = 114 + length msg)%nat)
    by (subst d; rewrite !length_app, length_precompile_head, Hsig, Hpk; simpl; lia).
  assert (Hu : ∀ off, (off + 2 <= 16)%nat → u16_at off d = u16_at off (precompile_head (length msg))).
  { intros off Ho. unfold u16_at. subst d. rewrite slice_app_l; [done|].
    rewrite length_precompile_head. lia. }
  assert (Hpkd : slice 80 113 d = pk).
  { subst d. rewrite app_assoc. apply slice_at; rewrite length_app, length_precompile_head; lia. }
  assert (Hadd : slice 114 (114 + length ad) d = ad).
  { subst d msg. rewrite !app_assoc, <- (app_assoc _ ad h).
    apply slice_at; rewrite !length_app, length_precompile_head, Hsig, Hpk; simpl; lia. }
  assert (Hhd : slice (114 + length ad) (114 + length ad + length h) d = h).
  { subst d msg. rewrite <- (app_nil_r h) at 3. rewrite !app_assoc, <- (app_assoc _ h []).
    apply slice_at; rewrite !length_app, length_precompile_head, Hsig, Hpk; simpl; lia. }
  unfold verify_secp256r1_instruction_data. rewrite Hpkd, Hadd, Hhd, !bytesEqual_refl.
  rewrite !Hu by lia. rewrite Hlen.
  change (d !!! 0%nat) with (u8 1). unfold throw_if, u16_at.
  destruct (Nat.ltb_spec (114 + length msg) 16); [lia|].
  destruct (Nat.ltb_spec (114 + length msg) (114 + 32)); [lia|].
  destruct (Nat.ltb_spec (114 + length msg) (114 + (length ad + length h))); [lia|].
  assert (Hsz : le_combine (slice 12 (12 + 2) (precompile_head (length msg)))
                = Z.of_nat (length ad + length h)).
  { replace (slice 12 (12 + 2) (precompile_head (length msg)))
      with (le_split 2 (Z.of_nat (length msg))) by reflexivity.
    rewrite le_combine_small by (simpl; lia). lia. }
  rewrite Hsz, Z.eqb_refl. reflexivity.
Qed.

(** ** What the challenge binds *)
Section challenge.
Context `{KL : KitLaws}.

(** The challenge preimage is injective: two challenges hash the same
    bytes only if they agree on the instruction, the slot, the counter, the
    sysvar index, the whole signed payload, the payer, the wallet and the
    program.  A signature for one of them says nothing about another. *)
Theorem challenge_binds (d d' slot slot' i i' c c' : Z) (sp sp' : bytes)
    (payer payer' wallet wallet' program program' : address) :
  0 <= d < 256 → 0 <= d' < 256 → 0 <= i < 256 → 0 <= i' < 256 →
  0 <= slot < 2 ^ 64 → 0 <= slot' < 2 ^ 64 → 0 <= c < 2 ^ 32 → 0 <= c' < 2 ^ 32 →
  challengePreimage [u8 d] (buildAuthPayloadPrefix slot c i) sp payer wallet c program
  = challengePreimage [u8 d'] (buildAuthPayloadPrefix slot' c' i') sp' payer' wallet' c' program' →
  d = d' ∧ slot = slot' ∧ i = i' ∧ c = c' ∧ sp = sp' ∧ payer = payer' ∧ wallet = wallet'
  ∧ program = program'.
Proof.
  intros Hd Hd' Hi Hi' Hs Hs' Hc Hc' H. unfold challengePreimage, setUint32 in H.
  apply app_inj_len in H as [Hdd H]; [|done]. injection Hdd as Hdd%u8_inj; [|done|done].
  apply app_inj_len in H as [Hp H]; [|by rewrite !length_prefix].
  rewrite !prefix_eq in Hp.
  apply app_inj_len in Hp as [Hsl%le_split_inj Hp]; [|done|done|by rewrite !length_le_split].
  apply app_inj_len in Hp as [Hcc%le_split_inj Hp]; [|done|done|by rewrite !length_le_split].
  injection Hp as Hii%u8_inj; [|done|done].
  assert (Hlsp : length sp = length sp').
  { apply (f_equal length) in H. rewrite !length_app, !address_encode_length, !length_le_split in H.
    lia. }
  apply app_inj_len in H as [Hsp H]; [|done].
  apply app_inj_len in H as [Hpa%address_encode_inj H]; [|by rewrite !address_encode_length].
  apply app_inj_len in H as [Hw%address_encode_inj H]; [|by rewrite !address_encode_length].
  apply app_inj_len in H as [_ Hpr%address_encode_inj]; [|by rewrite !length_le_split].
  done.
Qed.
End challenge.

(** ** Signed payloads are the instruction's own bytes *)
Section payloads.
Context `{K : Kit}.

Lemma session_payload_eq key exp buf :
  length key = 32%nat →
  buildDataPayloadForSession key exp buf
  = Ok (key ++ le_split 8 exp ++ le_split 2 (Z.of_nat (length (default [] buf))) ++ default [] buf).
Proof.
  intros Hk. unfold buildDataPayloadForSession, setBigInt64.
  set (n := match buf with Some b => length b | None => 0%nat end).
  assert (Hn : length (default [] buf) = n) by (by destruct buf). rewrite Hn.
  unfold throw_if. destruct (Nat.ltb_spec (42 + n) (length key)); [lia|]. rewrite bind_ok.
  change (zeros (42 + n)) with ([] ++ zeros (42 + n)).
  do 4 (rewrite set_at_zeros by (autorewrite with lazor_len; rewrite ?Hk; cbn [length]; lia)).
  rewrite !length_le_split, Hk. cbn [length].
  match goal with |- context [zeros ?m] => replace m with n by lia end.
  f_equal. pose proof (u16LE_split (Z.of_nat n)) as Hu. unfold u16LE in Hu. rewrite <- Hu.
  destruct buf as [b|]; subst n; cbn [default].
  - destruct (Nat.ltb_spec 0 (length b)) as [Hb|Hb].
    + rewrite set_at_zeros by (autorewrite with lazor_len; rewrite ?Hk; cbn [length]; lia).
      rewrite Nat.sub_diag. change (zeros 0) with (@nil Byte.byte).
      by rewrite app_nil_r, <- !app_assoc.
    + destruct b; [|simpl in Hb; lia]. by rewrite <- !app_assoc.
  - by rewrite <- !app_assoc.
Qed.

Lemma payloads_match (payer wallet a b refund : address) (t role exp : Z)
    (cred key ap : bytes) (pk : option bytes) (rp : option string) (policy actions : option bytes)
    (prog : address) :
  length key = 32%nat →
  data (createAddAuthorityIx payer wallet a b t role cred pk rp policy (Some ap) None prog)
    = [u8 DISC_ADD_AUTHORITY] ++ buildDataPayloadForAdd t role cred pk rp policy ++ ap
  ∧ data (createTransferOwnershipIx payer wallet a b refund t cred pk rp (Some ap) None prog)
    = [u8 DISC_TRANSFER_OWNERSHIP] ++ buildDataPayloadForTransfer t cred pk rp ++ ap
  ∧ ∃ sp, buildDataPayloadForSession key exp actions = Ok sp ∧
      data (createCreateSessionIx payer wallet a b key exp actions (Some ap) None prog)
      = [u8 DISC_CREATE_SESSION] ++ sp ++ ap.
Proof.
  intros Hk. cbn [data createAddAuthorityIx createTransferOwnershipIx createCreateSessionIx].
  unfold buildDataPayloadForAdd, buildDataPayloadForTransfer. rewrite !concatBytes_concat.
  unfold optPart. split; [|split].
  - cbn [concat app]. rewrite !concat_app. cbn [concat]. rewrite !app_nil_r, <- !app_assoc. done.
  - cbn [concat app]. rewrite !concat_app. cbn [concat]. rewrite !app_nil_r, <- !app_assoc. done.
  - rewrite session_payload_eq by done. eexists; split; [done|].
    unfold setBigInt64. rewrite u16LE_split. cbn [concat app]. rewrite !concat_app.
    cbn [concat]. rewrite !app_nil_r, <- !app_assoc.
    destruct (default [] actions) as [|x xs]; [done|]. cbn [concat app length Nat.ltb Nat.leb].
    by rewrite app_nil_r.
Qed.

(** The bytes a passkey signs for AddAuthority, TransferOwnership and
    CreateSession are the instruction data itself, between the discriminator
    and the auth payload: the program hashes the same bytes. *)
Theorem payloads_match_instructions (payer wallet a b refund : address) (t role exp : Z)
    (cred key ap : bytes) (pk : option bytes) (rp : option string) (policy actions : option bytes)
    (prog : address) :
  length key = 32%nat →
  data (createAddAuthorityIx payer wallet a b t role cred pk rp policy (Some ap) None prog)
    = [u8 DISC_ADD_AUTHORITY] ++ buildDataPayloadForAdd t role cred pk rp policy ++ ap
  ∧ data (createTransferOwnershipIx payer wallet a b refund t cred pk rp (Some ap) None prog)
    = [u8 DISC_TRANSFER_OWNERSHIP] ++ buildDataPayloadForTransfer t cred pk rp ++ ap
  ∧ ∃ sp, buildDataPayloadForSession key exp actions = Ok sp ∧
      data (createCreateSessionIx payer wallet a b key exp actions (Some ap) None prog)
      = [u8 DISC_CREATE_SESSION] ++ sp ++ ap.
Proof. apply payloads_match. Qed.
End payloads.

Import ConcreteKit.

Lemma auth_payload_roundtrip_witness :
  ∃ b, buildAuthPayload 1000 7 4 (zeros 37) [u8 1] = Ok b ∧
    parse_auth_payload b
    = Ok (mkAuthPayload 1000 7 4 (buildAuthPayloadPrefix 1000 7 4) (zeros 37) [u8 1]).
Proof. apply (auth_payload_roundtrip 1000 7 4 (zeros 37) [u8 1]); vm_compute; done. Defined.

Definition sample_prepared : PreparedSecp256r1 := mkPrepared (zeros 32) 1000 7 4 (zeros 33).
Definition sample_response : WebAuthnResponse :=
  mkResponse (zeros 64) (zeros 37) (zeros 32) [u8 1].

Lemma precompile_accepted_witness :
  match finalizeSecp256r1 sample_prepared sample_response with
  | Ok (_, ix) => verify_secp256r1_instruction_data (data ix) (zeros 33) (zeros 37) (zeros 32) = Ok ()
  | Throw _ => False
  end.
Proof.
  destruct (finalizeSecp256r1 sample_prepared sample_response) as [[ap ix]|e] eqn:E.
  - apply (@precompile_accepted kit kit_laws sample_prepared sample_response ap ix E). vm_compute. reflexivity.
  - apply (f_equal is_ok) in E. vm_compute in E. discriminate E.
Defined.

Lemma challenge_binds_witness :
  4 = 4 ∧ 1000 = 1000 ∧ 6 = 6 ∧ 7 = 7 ∧ [u8 1] = [u8 1] ∧ at_byte 1 = at_byte 1
  ∧ at_byte 2 = at_byte 2 ∧ at_byte 3 = at_byte 3.
Proof.
  apply (@challenge_binds kit kit_laws 4 4 1000 1000 6 6 7 7 [u8 1] [u8 1] (at_byte 1) (at_byte 1)
    (at_byte 2) (at_byte 2) (at_byte 3) (at_byte 3)); reflexivity || lia.
Defined.

Lemma payloads_match_instructions_witness :
  data (createAddAuthorityIx (at_byte 1) (at_byte 2) (at_byte 3) (at_byte 4) 0 2 (zeros 32) None None
          (Some [u8 1]) (Some [u8 9]) None (at_byte 5))
  = [u8 DISC_ADD_AUTHORITY]
    ++ buildDataPayloadForAdd 0 2 (zeros 32) None None (Some [u8 1]) ++ [u8 9].
Proof.
  apply (@payloads_match_instructions kit (at_byte 1) (at_byte 2) (at_byte 3) (at_byte 4) (at_byte 1)
    0 2 0 (zeros 32) (zeros 32) [u8 9] None None (Some [u8 1]) None (at_byte 5)).
  apply length_zeros.
Defined.
