(* ===== verification/Accounts.v ===== *)
(** * Account decoders

    Models src/sdk/sdk-kit/src/codecs/accounts.ts (the [getStructDecoder]
    readers of the wallet, authority and session headers) and the token-account
    readers of src/sdk/sdk-kit/src/spl.ts, against the [repr(C)] structs of
    src/program/src/state whose memory images those accounts hold. *)
From S2P Require Import Prelude Bytes Kit Constants.
Local Open Scope Z_scope.

Definition AUTHORITY_HEADER_SIZE : nat := 48.
Definition SESSION_HEADER_SIZE : nat := 80.
Definition WALLET_HEADER_SIZE : nat := 8.

Section accounts.
Context `{K : Kit}.

Record AuthorityAccountData := mkAuthority {
  au_discriminator : Z;
  au_authorityType : Z;
  au_role : Z;
  au_bump : Z;
  au_version : Z;
  au_counter : Z;
  au_policyLen : Z;
  au_isBounded : bool;
  au_wallet : address;
}.

Record SessionAccountData := mkSession {
  se_discriminator : Z;
  se_bump : Z;
  se_version : Z;
  se_wallet : address;
  se_sessionKey : address;
  se_expiresAt : Z;
}.

Record WalletAccountData := mkWallet {
  wa_discriminator : Z;
  wa_bump : Z;
  wa_version : Z;
  wa_ownerCount : Z;
}.

(** The fields of a struct decoder, at the offset the previous ones end. *)
Definition uint_field (w : nat) (data : bytes) (off : nat) : result Z :=
  of_option (EExternal "decode") (uint_decode w data off).
Definition bytes_field (n : nat) (data : bytes) (off : nat) : result bytes :=
  of_option (EExternal "decode") (fixed_bytes_decode n data off).
Definition address_field (data : bytes) (off : nat) : result address :=
  b ← bytes_field 32 data off; of_option (EExternal "decode") (address_decode b).

Definition decodeAuthorityAccount (data : bytes) : result AuthorityAccountData :=
  (throw! EAccountTooShort (length data) AUTHORITY_HEADER_SIZE
     when (length data <? AUTHORITY_HEADER_SIZE)%nat;
   discriminator ← uint_field 1 data 0;
   authorityType ← uint_field 1 data 1;
   role ← uint_field 1 data 2;
   bump ← uint_field 1 data 3;
   version ← uint_field 1 data 4;
   _padHi ← bytes_field 3 data 5;
   counter ← uint_field 4 data 8;
   policyLen ← uint_field 2 data 12;
   _padLo ← bytes_field 2 data 14;
   wallet ← address_field data 16;
   Ok (mkAuthority discriminator authorityType role bump version counter policyLen
         (0 <? policyLen) wallet))%js.

Definition decodeSessionAccount (data : bytes) : result SessionAccountData :=
  (throw! EAccountTooShort (length data) SESSION_HEADER_SIZE
     when (length data <? SESSION_HEADER_SIZE)%nat;
   discriminator ← uint_field 1 data 0;
   bump ← uint_field 1 data 1;
   version ← uint_field 1 data 2;
   _pad ← bytes_field 5 data 3;
   wallet ← address_field data 8;
   sessionKey ← address_field data 40;
   expiresAt ← uint_field 8 data 72;
   Ok (mkSession discriminator bump version wallet sessionKey expiresAt))%js.

Definition decodeWalletAccount (data : bytes) : result WalletAccountData :=
  (throw! EAccountTooShort (length data) WALLET_HEADER_SIZE
     when (length data <? WALLET_HEADER_SIZE)%nat;
   discriminator ← uint_field 1 data 0;
   bump ← uint_field 1 data 1;
   version ← uint_field 1 data 2;
   _pad ← bytes_field 1 data 3;
   ownerCount ← uint_field 4 data 4;
   Ok (mkWallet discriminator bump version ownerCount))%js.

(** spl.ts: the fields of a token account. *)
Definition tokenAccountMint (data : bytes) : result address :=
  of_option (EExternal "decode") (address_decode (slice 0 32 data)).
Definition tokenAccountOwner (data : bytes) : result address :=
  of_option (EExternal "decode") (address_decode (slice 32 64 data)).
Definition tokenAccountAmount (data : bytes) : result Z := readU64 data 64.

(** ** The program's structs

    The [repr(C, align(8))] images: every field little-endian at its offset,
    padding written out ([NoPadding] forbids implicit padding). *)
Definition AuthorityAccountHeader (disc authority_type role bump version : Z)
    (padding1 : bytes) (counter policy_len : Z) (padding2 : bytes) (wallet : address) : bytes :=
  [u8 disc; u8 authority_type; u8 role; u8 bump; u8 version] ++ padding1
  ++ le_split 4 counter ++ le_split 2 policy_len ++ padding2 ++ address_encode wallet.

Definition SessionAccount (disc bump version : Z) (padding : bytes)
    (wallet session_key : address) (expires_at : Z) : bytes :=
  [u8 disc; u8 bump; u8 version] ++ padding ++ address_encode wallet
  ++ address_encode session_key ++ le_split 8 expires_at.

Definition WalletAccount (disc bump version : Z) (padding : bytes) (owner_count : Z) : bytes :=
  [u8 disc; u8 bump; u8 version] ++ padding ++ le_split 4 owner_count.
End accounts.

(** ** Reading fields *)
Section fields.
Context `{KL : KitLaws}.

Lemma uint_field_ok w data off :
  (off + w <= length data)%nat → uint_field w data off = Ok (le_combine (slice off (off + w) data)).
Proof. intros H. unfold uint_field. by rewrite uint_decode_at. Qed.

Lemma bytes_field_ok n data off :
  (off + n <= length data)%nat → bytes_field n data off = Ok (slice off (off + n) data).
Proof. intros H. unfold bytes_field. by rewrite fixed_bytes_decode_at. Qed.

Lemma address_field_ok data off :
  (off + 32 <= length data)%nat → is_ok (address_field data off) = true.
Proof.
  intros H. unfold address_field. rewrite bytes_field_ok, bind_ok by done.
  destruct (address_encode_decode (slice off (off + 32) data)) as (a & Ha & _);
    [rewrite length_slice; lia|]. by rewrite Ha.
Qed.

(** A field between a prefix and a suffix. *)
Lemma uint_field_mid w v data off a c :
  data = a ++ le_split w v ++ c → off = length a → 0 <= v < 2 ^ (Z.of_nat w * 8) →
  uint_field w data off = Ok v.
Proof.
  intros -> -> Hv. rewrite uint_field_ok by (rewrite !length_app, length_le_split; lia).
  rewrite slice_mid by (rewrite ?length_le_split; done). by rewrite le_combine_small.
Qed.

Lemma bytes_field_mid n data off a b c :
  data = a ++ b ++ c → off = length a → length b = n → bytes_field n data off = Ok b.
Proof.
  intros -> -> <-. rewrite bytes_field_ok by (rewrite !length_app; lia). by rewrite slice_mid.
Qed.

Lemma address_field_mid data off x a c :
  data = a ++ address_encode x ++ c → off = length a → address_field data off = Ok x.
Proof.
  intros Hd Ho. unfold address_field.
  rewrite (bytes_field_mid _ _ _ a (address_encode x) c) by (done || apply address_encode_length).
  rewrite bind_ok, address_decode_encode. done.
Qed.

(** Decode one field at a known prefix. *)
Ltac at_prefix := first [by rewrite <- ?app_assoc | autorewrite with lazor_len; simpl; lia].

Lemma decodeAuthority_image disc ty role bump version p1 counter policy p2 wallet rest :
  Forall (λ v, 0 <= v < 256) [disc; ty; role; bump; version] →
  0 <= counter < 2 ^ 32 → 0 <= policy < 2 ^ 16 → length p1 = 3%nat → length p2 = 2%nat →
  decodeAuthorityAccount
    (AuthorityAccountHeader disc ty role bump version p1 counter policy p2 wallet ++ rest)
  = Ok (mkAuthority disc ty role bump version counter policy (0 <? policy) wallet).
Proof.
  intros Hb Hc Hp H1 H2. rewrite !Forall_cons in Hb. destruct Hb as (? & ? & ? & ? & ? & _).
  unfold AuthorityAccountHeader. rewrite <- !app_assoc.
  set (h := [u8 disc; u8 ty; u8 role; u8 bump; u8 version]).
  set (d := h ++ _). unfold decodeAuthorityAccount, throw_if.
  destruct (Nat.ltb_spec (length d) AUTHORITY_HEADER_SIZE) as [Hlt|_].
  { exfalso. subst d h. autorewrite with lazor_len in Hlt. unfold AUTHORITY_HEADER_SIZE in Hlt.
    simpl in Hlt. lia. }
  rewrite bind_ok.
  rewrite (uint_field_mid 1 disc d 0 [] (drop 1 d)), bind_ok by done.
  rewrite (uint_field_mid 1 ty d 1 (take 1 h) (drop 2 d)), bind_ok by done.
  rewrite (uint_field_mid 1 role d 2 (take 2 h) (drop 3 d)), bind_ok by done.
  rewrite (uint_field_mid 1 bump d 3 (take 3 h) (drop 4 d)), bind_ok by done.
  rewrite (uint_field_mid 1 version d 4 (take 4 h) (drop 5 d)), bind_ok by done.
  rewrite (bytes_field_mid 3 d 5 h p1 _), bind_ok by (done || subst d; reflexivity).
  rewrite (uint_field_mid 4 counter d 8 (h ++ p1) _), bind_ok by (done || at_prefix).
  rewrite (uint_field_mid 2 policy d 12 (h ++ p1 ++ le_split 4 counter) _), bind_ok
    by (done || at_prefix).
  rewrite (bytes_field_mid 2 d 14 (h ++ p1 ++ le_split 4 counter ++ le_split 2 policy) p2 _), bind_ok
    by (done || at_prefix).
  rewrite (address_field_mid d 16 wallet
    (h ++ p1 ++ le_split 4 counter ++ le_split 2 policy ++ p2) _), bind_ok by (done || at_prefix).
  done.
Qed.

Lemma decodeSession_image disc bump version p wallet key exp rest :
  Forall (λ v, 0 <= v < 256) [disc; bump; version] → 0 <= exp < 2 ^ 64 → length p = 5%nat →
  decodeSessionAccount (SessionAccount disc bump version p wallet key exp ++ rest)
  = Ok (mkSession disc bump version wallet key exp).
Proof.
  intros Hb He Hp. rewrite !Forall_cons in Hb. destruct Hb as (? & ? & ? & _).
  unfold SessionAccount. rewrite <- !app_assoc. set (h := [u8 disc; u8 bump; u8 version]).
  set (d := h ++ _). unfold decodeSessionAccount, throw_if.
  destruct (Nat.ltb_spec (length d) SESSION_HEADER_SIZE) as [Hlt|_].
  { exfalso. subst d h. autorewrite with lazor_len in Hlt. unfold SESSION_HEADER_SIZE in Hlt.
    simpl in Hlt. lia. }
  rewrite bind_ok.
  rewrite (uint_field_mid 1 disc d 0 [] (drop 1 d)), bind_ok by done.
  rewrite (uint_field_mid 1 bump d 1 (take 1 h) (drop 2 d)), bind_ok by done.
  rewrite (uint_field_mid 1 version d 2 (take 2 h) (drop 3 d)), bind_ok by done.
  rewrite (bytes_field_mid 5 d 3 h p _), bind_ok by (done || subst d; reflexivity).
  rewrite (address_field_mid d 8 wallet (h ++ p) _), bind_ok by (done || at_prefix).
  rewrite (address_field_mid d 40 key (h ++ p ++ address_encode wallet) _), bind_ok
    by (done || at_prefix).
  rewrite (uint_field_mid 8 exp d 72 (h ++ p ++ address_encode wallet ++ address_encode key) _),
    bind_ok by (done || at_prefix).
  done.
Qed.

Lemma decodeWallet_image disc bump version p owners rest :
  Forall (λ v, 0 <= v < 256) [disc; bump; version] → 0 <= owners < 2 ^ 32 → length p = 1%nat →
  decodeWalletAccount (WalletAccount disc bump version p owners ++ rest)
  = Ok (mkWallet disc bump version owners).
Proof.
  intros Hb Ho Hp. rewrite !Forall_cons in Hb. destruct Hb as (? & ? & ? & _).
  unfold WalletAccount. rewrite <- !app_assoc. set (h := [u8 disc; u8 bump; u8 version]).
  set (d := h ++ _). unfold decodeWalletAccount, throw_if.
  destruct (Nat.ltb_spec (length d) WALLET_HEADER_SIZE) as [Hlt|_].
  { exfalso. subst d h. autorewrite with lazor_len in Hlt. unfold WALLET_HEADER_SIZE in Hlt.
    simpl in Hlt. lia. }
  rewrite bind_ok.
  rewrite (uint_field_mid 1 disc d 0 [] (drop 1 d)), bind_ok by done.
  rewrite (uint_field_mid 1 bump d 1 (take 1 h) (drop 2 d)), bind_ok by done.
  rewrite (uint_field_mid 1 version d 2 (take 2 h) (drop 3 d)), bind_ok by done.
  rewrite (bytes_field_mid 1 d 3 h p _), bind_ok by (done || subst d; reflexivity).
  rewrite (uint_field_mid 4 owners d 4 (h ++ p) _), bind_ok by (done || at_prefix).
  done.
Qed.

(** The decoders read the program's own structs: from the image of any
    authority, session or wallet account, whatever follows the header, each
    returns exactly the fields the program stored. *)
Theorem decoders_read_program_structs
    (disc ty role bump version counter policy exp owners : Z)
    (p1 p2 p3 p4 rest : bytes) (wallet key : address) :
  Forall (λ v, 0 <= v < 256) [disc; ty; role; bump; version] →
  0 <= counter < 2 ^ 32 → 0 <= policy < 2 ^ 16 → 0 <= exp < 2 ^ 64 → 0 <= owners < 2 ^ 32 →
  length p1 = 3%nat → length p2 = 2%nat → length p3 = 5%nat → length p4 = 1%nat →
  decodeAuthorityAccount
    (AuthorityAccountHeader disc ty role bump version p1 counter policy p2 wallet ++ rest)
  = Ok (mkAuthority disc ty role bump version counter policy (0 <? policy) wallet)
  ∧ decodeSessionAccount (SessionAccount disc bump version p3 wallet key exp ++ rest)
    = Ok (mkSession disc bump version wallet key exp)
  ∧ decodeWalletAccount (WalletAccount disc bump version p4 owners ++ rest)
    = Ok (mkWallet disc bump version owners).
Proof.
  intros Hb Hc Hp He Ho H1 H2 H3 H4.
  split; [by apply decodeAuthority_image|]. rewrite !Forall_cons in Hb.
  destruct Hb as (? & _ & _ & ? & ? & _).
  split; [apply decodeSession_image | apply decodeWallet_image]; try done; by repeat (apply List.Forall_cons; [done|]).
Qed.

(** A decoder of fields that are all inside the buffer succeeds. *)
Lemma bind_is_ok {A B} (x : result A) (f : A → result B) :
  is_ok x = true → (∀ a, is_ok (f a) = true) → is_ok (x ≫= f) = true.
Proof. destruct x; [intros _ H; apply H | done]. Qed.

Ltac fields_ok :=
  repeat (apply bind_is_ok; [first [ rewrite uint_field_ok by lia; reflexivity
                                   | rewrite bytes_field_ok by lia; reflexivity
                                   | apply address_field_ok; lia ] | intros ?]); reflexivity.

(** Each decoder succeeds on every buffer that holds its header and
    throws the length error, naming both lengths, on every shorter one. *)
Theorem decoders_total (data : bytes) :
  (if decide (AUTHORITY_HEADER_SIZE <= length data)%nat
   then is_ok (decodeAuthorityAccount data) = true
   else decodeAuthorityAccount data = Throw (EAccountTooShort (length data) 48))
  ∧ (if decide (SESSION_HEADER_SIZE <= length data)%nat
     then is_ok (decodeSessionAccount data) = true
     else decodeSessionAccount data = Throw (EAccountTooShort (length data) 80))
  ∧ (if decide (WALLET_HEADER_SIZE <= length data)%nat
     then is_ok (decodeWalletAccount data) = true
     else decodeWalletAccount data = Throw (EAccountTooShort (length data) 8)).
Proof.
  unfold decodeAuthorityAccount, decodeSessionAccount, decodeWalletAccount, throw_if,
    AUTHORITY_HEADER_SIZE, SESSION_HEADER_SIZE, WALLET_HEADER_SIZE.
  split; [|split]; case_decide as Hd.
  all: match goal with |- context [(?a <? ?b)%nat] => destruct (Nat.ltb_spec a b) end; try lia.
  all: try reflexivity; rewrite bind_ok; fields_ok.
Qed.
End fields.

Import ConcreteKit.

Lemma decoders_read_program_structs_witness :
  decodeWalletAccount (WalletAccount DISC_WALLET 254 1 [u8 0] 2 ++ [u8 7])
  = Ok (mkWallet DISC_WALLET 254 1 2).
Proof.
  refine (proj2 (proj2 (@decoders_read_program_structs kit kit_laws DISC_WALLET 1 0 254 1 9 0 0 2
    (zeros 3) (zeros 2) (zeros 5) [u8 0] [u8 7] (at_byte 1) (at_byte 2) _ _ _ _ _ _ _ _ _)));
    try reflexivity; try lia; repeat constructor; vm_compute; intros ?; discriminate.
Defined.
