(* ===== verification/Json.v ===== *)
(** * [JSON.parse] and [TextDecoder]

    What src/sdk/sdk-kit/src/ownership.ts uses of them to read an assertion's
    clientDataJSON.  A JavaScript string is held as its UTF-8 bytes.  The
    default [TextDecoder] strips a byte-order mark and replaces malformed
    sequences by U+FFFD; a malformed byte is kept here as it is, which no
    comparison with an ASCII string can tell apart, and outside a string both
    are syntax errors. *)
From S2P Require Import Prelude Bytes.
Local Open Scope Z_scope.

#[warnings="-register-all"] Inductive json :=
  | JNull
  | JBool (b : bool)
  | JNum (lexeme : bytes)
  | JStr (s : bytes)
  | JArr (items : list json)
  | JObj (members : list (bytes * json)).

(** The bytes of an ASCII literal. *)
Definition lit (s : string) : bytes := utf8 s.

Definition QUOTE : Z := 34.
Definition BACKSLASH : Z := 92.
Definition COMMA : Z := 44.
Definition COLON : Z := 58.
Definition LBRACE : Z := 123.
Definition RBRACE : Z := 125.
Definition LBRACKET : Z := 91.
Definition RBRACKET : Z := 93.

Definition is_ws (c : Byte.byte) : bool :=
  existsb (Z.eqb (val c)) [32; 9; 10; 13].

Fixpoint skip_ws (b : bytes) : bytes :=
  match b with
  | c :: r => if is_ws c then skip_ws r else b
  | [] => []
  end.

Definition is_digit (c : Byte.byte) : bool := (48 <=? val c) && (val c <=? 57).

Definition hex_val (c : Byte.byte) : option Z :=
  let v := val c in
  if is_digit c then Some (v - 48)
  else if (97 <=? v) && (v <=? 102) then Some (v - 87)
  else if (65 <=? v) && (v <=? 70) then Some (v - 55)
  else None.

Definition hex4 (a b c d : Byte.byte) : option Z :=
  x ← hex_val a; y ← hex_val b; z ← hex_val c; w ← hex_val d;
  Some (((x * 16 + y) * 16 + z) * 16 + w).

(** UTF-8 of a code point. *)
Definition utf8_of (cp : Z) : bytes :=
  if cp <? 0x80 then [u8 cp]
  else if cp <? 0x800 then [u8 (0xc0 + cp / 64); u8 (0x80 + cp mod 64)]
  else if cp <? 0x10000 then
    [u8 (0xe0 + cp / 4096); u8 (0x80 + (cp / 64) mod 64); u8 (0x80 + cp mod 64)]
  else [u8 (0xf0 + cp / 262144); u8 (0x80 + (cp / 4096) mod 64); u8 (0x80 + (cp / 64) mod 64);
        u8 (0x80 + cp mod 64)].

Definition is_high_surrogate (u : Z) : bool := (0xd800 <=? u) && (u <=? 0xdbff).
Definition is_low_surrogate (u : Z) : bool := (0xdc00 <=? u) && (u <=? 0xdfff).

(** The character a one-letter escape names. *)
Definition escape (c : Byte.byte) : option Byte.byte :=
  match val c with
  | 34 => Some (u8 34) | 92 => Some (u8 92) | 47 => Some (u8 47)
  | 98 => Some (u8 8) | 102 => Some (u8 12) | 110 => Some (u8 10)
  | 114 => Some (u8 13) | 116 => Some (u8 9)
  | _ => None
  end.

(** The rest of a string after its opening quote: its value and what follows
    the closing quote. [pending] is a high surrogate waiting for its pair. *)
Fixpoint string_body (b : bytes) (pending : option Z) : option (bytes * bytes) :=
  let flush := match pending with Some h => utf8_of h | None => [] end in
  let push (s : bytes) (r : option (bytes * bytes)) :=
    '(v, rest) ← r; Some (flush ++ s ++ v, rest) in
  match b with
  | [] => None
  | c :: r =>
    if val c =? QUOTE then Some (flush, r)
    else if val c =? BACKSLASH then
      match r with
      | [] => None
      | u :: t =>
        if val u =? 117 then
          match t with
          | h1 :: h2 :: h3 :: h4 :: r' =>
            unit ← hex4 h1 h2 h3 h4;
            match pending with
            | Some h =>
              if is_low_surrogate unit then
                '(v, rest) ← string_body r' None;
                Some (utf8_of (0x10000 + (h - 0xd800) * 1024 + (unit - 0xdc00)) ++ v, rest)
              else if is_high_surrogate unit then push [] (string_body r' (Some unit))
              else push (utf8_of unit) (string_body r' None)
            | None =>
              if is_high_surrogate unit then string_body r' (Some unit)
              else push (utf8_of unit) (string_body r' None)
            end
          | _ => None
          end
        else x ← escape u; push [x] (string_body t None)
      end
    else if val c <? 32 then None
    else push [c] (string_body r None)
  end.

(** Digits, greedily. *)
Fixpoint digits (b : bytes) : bytes * bytes :=
  match b with
  | c :: r => if is_digit c then let '(d, rest) := digits r in (c :: d, rest) else ([], b)
  | [] => ([], [])
  end.

(** A digit run that must not be empty. *)
Definition digits1 (b : bytes) : option (bytes * bytes) :=
  match digits b with ([], _) => None | (d, rest) => Some (d, rest) end.

(** An optional minus, an integer without leading zeros, an optional fraction,
    an optional exponent. *)
Definition number (b : bytes) : option (bytes * bytes) :=
  let '(sign, b) := match b with
                    | c :: r => if val c =? 45 then ([c], r) else ([], b)
                    | [] => ([], []) end in
  '(int, b) ← (match b with
               | c :: r => if val c =? 48 then Some ([c], r) else digits1 b
               | [] => None end);
  '(frac, b) ← (match b with
                | c :: r => if val c =? 46 then '(d, r) ← digits1 r; Some (c :: d, r)
                            else Some ([], b)
                | [] => Some ([], []) end);
  '(exp, b) ← (match b with
               | c :: r =>
                 if (val c =? 101) || (val c =? 69) then
                   let '(sg, r) := match r with
                                   | s :: r' => if (val s =? 43) || (val s =? 45) then ([s], r')
                                                else ([], r)
                                   | [] => ([], []) end in
                   '(d, r) ← digits1 r; Some (c :: sg ++ d, r)
                 else Some ([], b)
               | [] => Some ([], []) end);
  Some (sign ++ int ++ frac ++ exp, b).

Fixpoint strip_prefix (p b : bytes) : option bytes :=
  match p, b with
  | [], _ => Some b
  | x :: p, y :: b => if val x =? val y then strip_prefix p b else None
  | _ :: _, [] => None
  end.

(** The value at the start of [b] and what follows it. Of any two nested calls
    at least one consumes a byte, so [S (2 * length b)] fuel is enough
    ([value_fuel] below). *)
Fixpoint value (fuel : nat) (b : bytes) : option (json * bytes) :=
  match fuel with
  | O => None
  | S fuel =>
    match skip_ws b with
    | [] => None
    | c :: r =>
      if val c =? QUOTE then '(s, r) ← string_body r None; Some (JStr s, r)
      else if val c =? LBRACE then
        match skip_ws r with
        | d :: r' => if val d =? RBRACE then Some (JObj [], r')
                     else '(ms, r) ← members fuel r; Some (JObj ms, r)
        | [] => None
        end
      else if val c =? LBRACKET then
        match skip_ws r with
        | d :: r' => if val d =? RBRACKET then Some (JArr [], r')
                     else '(vs, r) ← elements fuel r; Some (JArr vs, r)
        | [] => None
        end
      else match strip_prefix (lit "null") (c :: r) with
      | Some r => Some (JNull, r)
      | None => match strip_prefix (lit "true") (c :: r) with
        | Some r => Some (JBool true, r)
        | None => match strip_prefix (lit "false") (c :: r) with
          | Some r => Some (JBool false, r)
          | None => '(n, r) ← number (c :: r); Some (JNum n, r)
          end
        end
      end
    end
  end
with members (fuel : nat) (b : bytes) : option (list (bytes * json) * bytes) :=
  match fuel with
  | O => None
  | S fuel =>
    match skip_ws b with
    | c :: r =>
      if val c =? QUOTE then
        '(k, r) ← string_body r None;
        match skip_ws r with
        | c :: r =>
          if val c =? COLON then
            '(v, r) ← value fuel r;
            match skip_ws r with
            | c :: r =>
              if val c =? COMMA then '(ms, r) ← members fuel r; Some ((k, v) :: ms, r)
              else if val c =? RBRACE then Some ([(k, v)], r)
              else None
            | [] => None
            end
          else None
        | [] => None
        end
      else None
    | [] => None
    end
  end
with elements (fuel : nat) (b : bytes) : option (list json * bytes) :=
  match fuel with
  | O => None
  | S fuel =>
    '(v, r) ← value fuel b;
    match skip_ws r with
    | c :: r =>
      if val c =? COMMA then '(vs, r) ← elements fuel r; Some (v :: vs, r)
      else if val c =? RBRACKET then Some ([v], r)
      else None
    | [] => None
    end
  end.

(** [JSON.parse(text)]: one value and nothing else; a [SyntaxError] is [None]. *)
Definition json_parse (text : bytes) : option json :=
  '(v, rest) ← value (S (2 * length text)) text;
  match skip_ws rest with [] => Some v | _ => None end.

(** [new TextDecoder().decode(b)]. *)
Definition text_decode (b : bytes) : bytes :=
  match b with
  | x :: y :: z :: r =>
    if (val x =? 0xef) && (val y =? 0xbb) && (val z =? 0xbf) then r else b
  | _ => b
  end.

(** [v.name] on a parsed value: [Throw] on [null], [None] for [undefined]; of
    duplicate members the last one counts. *)
Definition property (v : json) (name : bytes) : result (option json) :=
  match v with
  | JNull => Throw (EExternal "TypeError")
  | JObj ms => Ok (snd <$> List.find (λ m, bytesEqual (fst m) name) (reverse ms))
  | _ => Ok None
  end.

(** [v === s] for a string [s]. *)
Definition is_string (v : option json) (s : bytes) : bool :=
  match v with Some (JStr t) => bytesEqual t s | _ => false end.


Example parse_sample :
  json_parse (lit " {'a' : [1, -2.5e+3, true, null, 'x'], 'b':{}} ")
  = None
  ∧ json_parse (lit "[0, 10, -2.5e+3, true,null ,false]")
    = Some (JArr [JNum (lit "0"); JNum (lit "10"); JNum (lit "-2.5e+3"); JBool true; JNull;
                  JBool false])
  ∧ json_parse (lit "01") = None.
Proof. vm_compute. done. Qed.

(** ** Consumption *)
Lemma length_skip_ws b : (length (skip_ws b) <= length b)%nat.
Proof. induction b as [|c b IH]; simpl; [done|]. destruct (is_ws c); simpl; lia. Qed.

Lemma length_digits b d r : digits b = (d, r) → (length r <= length b)%nat.
Proof.
  revert d r. induction b as [|c b IH]; simpl; intros d r H; [by injection H as <- <-|].
  destruct (is_digit c); [|by injection H as <- <-].
  destruct (digits b) as [d' r'] eqn:E. injection H as <- <-. specialize (IH _ _ eq_refl). lia.
Qed.

Lemma length_digits1 b d r : digits1 b = Some (d, r) → (length r <= length b)%nat.
Proof.
  unfold digits1. destruct (digits b) as [[|] ?] eqn:E; [done|]. intros [= _ <-].
  by eapply length_digits.
Qed.

Lemma string_body_length n b p v r :
  (length b <= n)%nat → string_body b p = Some (v, r) → (length r < length b)%nat.
Proof.
  revert b p v r. induction n as [|n IH]; intros [|c b] p v r Hn H; simpl in Hn; try lia; [done|done|].
  cbn [string_body] in H. simpl length.
  repeat match type of H with
  | (if ?c then _ else _) = _ => destruct c
  | match ?x with [] => _ | _ :: _ => _ end = _ => destruct x; simpl length in *
  | match ?x with Some _ => _ | None => _ end = _ => destruct x; simpl length in *
  | (_ ≫= _) = Some _ => apply bind_Some in H as (? & ? & H)
  | (let (_, _) := ?x in _) = _ => destruct x
  | Some _ = Some _ => injection H as _ <-
  | None = Some _ => discriminate H
  | _ => progress simplify_eq/=
  end; repeat match goal with
  | E : (_ ≫= _) = Some _ |- _ => apply bind_Some in E as (? & ? & E)
  | p : _ * _ |- _ => destruct p
  | E : string_body _ _ = Some _ |- _ => apply IH in E; [|simpl; lia]
  end; simplify_eq/=; lia.
Qed.

Lemma length_string_body b p v r : string_body b p = Some (v, r) → (length r < length b)%nat.
Proof. by apply (string_body_length (length b)). Qed.

(** Open every bind, match and conditional of a successful parse. *)
Ltac open_parse H :=
  repeat match type of H with
  | (if ?c then _ else _) = _ => destruct c
  | match ?x with [] => _ | _ :: _ => _ end = _ => destruct x eqn:?
  | match ?x with Some _ => _ | None => _ end = _ => destruct x eqn:?
  | (_ ≫= _) = Some _ => apply bind_Some in H as ([? ?] & ? & H)
  | (let (_, _) := ?x in _) = _ => destruct x eqn:?
  | Some _ = Some _ => injection H as ? ?; subst
  | None = Some _ => discriminate H
  end.

(** Turn every sub-parse of the context into a bound on what it left over. *)
Ltac parse_lengths :=
  repeat match goal with
  | E : skip_ws ?b = _ |- _ =>
      let L := fresh "L" in pose proof (length_skip_ws b) as L; rewrite E in L; clear E
  | E : string_body _ _ = Some _ |- _ => apply length_string_body in E
  | E : digits1 _ = Some _ |- _ => apply length_digits1 in E
  end; simpl length in *; try lia.

Lemma length_number b n r : number b = Some (n, r) → (length r <= length b)%nat.
Proof.
  unfold number. intros H.
  destruct (match b with c :: r => if val c =? 45 then ([c], r) else ([], b) | [] => ([], []) end)
    as [sign b1] eqn:E1.
  apply bind_Some in H as ([int b2] & E2 & H). apply bind_Some in H as ([frac b3] & E3 & H).
  apply bind_Some in H as ([exp b4] & E4 & H). injection H as _ <-.
  assert (length b1 <= length b)%nat
    by (destruct b as [|c b]; simplify_eq/=; try done; destruct (val c =? 45); simplify_eq/=; lia).
  assert (length b2 <= length b1)%nat by (open_parse E2; simplify_eq/=; parse_lengths).
  assert (length b3 <= length b2)%nat by (open_parse E3; simplify_eq/=; parse_lengths).
  assert (length b4 <= length b3)%nat.
  { open_parse E4; simplify_eq/=; try lia. destruct l as [|s l]; simplify_eq/=; parse_lengths.
    destruct (_ || _); simplify_eq/=; parse_lengths. }
  lia.
Qed.

Lemma length_strip_prefix p b r : strip_prefix p b = Some r → (length r <= length b)%nat.
Proof.
  revert b. induction p as [|x p IH]; intros [|y b]; simpl; intros H; simplify_eq; try done.
  destruct (_ =? _); [|done]. apply IH in H. lia.
Qed.

Lemma length_parse fuel :
  (∀ b v r, value fuel b = Some (v, r) → (length r <= length b)%nat)
  ∧ (∀ b v r, members fuel b = Some (v, r) → (length r <= length b)%nat)
  ∧ (∀ b v r, elements fuel b = Some (v, r) → (length r <= length b)%nat).
Proof.
  induction fuel as [|fuel (IHv & IHm & IHe)]; [done|].
  split; [|split]; intros b v r H; cbn [value members elements] in H; open_parse H.
  all: repeat match goal with
  | E : value _ _ = Some _ |- _ => apply IHv in E
  | E : members _ _ = Some _ |- _ => apply IHm in E
  | E : elements _ _ = Some _ |- _ => apply IHe in E
  | E : strip_prefix _ _ = Some _ |- _ => apply length_strip_prefix in E
  | E : number _ = Some _ |- _ => apply length_number in E
  end; parse_lengths.
Qed.

Lemma length_value fuel b v r : value fuel b = Some (v, r) → (length r <= length b)%nat.
Proof. apply length_parse. Qed.

(** The fuel [json_parse] gives is enough: any larger amount changes nothing. *)
Lemma parse_fuel n :
  (∀ b f g, (length b <= n)%nat → (2 * length b < f)%nat → (2 * length b < g)%nat →
     value f b = value g b)
  ∧ (∀ b f g, (length b <= n)%nat → (2 * length b < f)%nat → (2 * length b < g)%nat →
     members f b = members g b)
  ∧ (∀ b f g, (length b <= n)%nat → (2 * length b + 1 < f)%nat → (2 * length b + 1 < g)%nat →
     elements f b = elements g b).
Proof.
  induction n as [|n (IHv & IHm & IHe)].
  - assert (Hv : ∀ b f g, (length b <= 0)%nat → (2 * length b < f)%nat → (2 * length b < g)%nat →
      value f b = value g b) by (intros [|] [|f] [|g]; simpl; done || lia).
    split; [done|]. split; [intros [|] [|f] [|g]; simpl; done || lia|].
    intros [|] [|[|f]] [|[|g]]; simpl; done || lia.
  - assert (Hv : ∀ b f g, (length b <= S n)%nat → (2 * length b < f)%nat →
      (2 * length b < g)%nat → value f b = value g b).
    { intros b [|f] [|g] Hn Hf Hg; try lia. cbn [value]. pose proof (length_skip_ws b) as Hb.
      destruct (skip_ws b) as [|c r]; [done|]. simpl in Hb.
      rewrite (IHm r f g), (IHe r f g) by lia. done. }
    split; [done|]. split.
    + intros b [|f] [|g] Hn Hf Hg; try lia. cbn [members]. pose proof (length_skip_ws b) as Hb.
      destruct (skip_ws b) as [|c r]; [done|]. simpl in Hb. destruct (_ =? _); [|done].
      destruct (string_body r None) as [[k r1]|] eqn:E1; [|done]. cbn [mbind option_bind].
      apply length_string_body in E1. pose proof (length_skip_ws r1) as Hr1.
      destruct (skip_ws r1) as [|c1 r2]; [done|]. simpl in Hr1. destruct (_ =? _); [|done].
      rewrite (IHv r2 f g) by lia. destruct (value g r2) as [[w r3]|] eqn:E2; [|done].
      cbn [mbind option_bind]. apply length_value in E2. pose proof (length_skip_ws r3) as Hr3.
      destruct (skip_ws r3) as [|c2 r4]; [done|]. simpl in Hr3.
      by rewrite (IHm r4 f g) by lia.
    + intros b [|f] [|g] Hn Hf Hg; try lia. cbn [elements].
      rewrite (Hv b f g) by lia. destruct (value g b) as [[w r3]|] eqn:E2; [|done].
      cbn [mbind option_bind]. apply length_value in E2. pose proof (length_skip_ws r3) as Hr3.
      destruct (skip_ws r3) as [|c2 r4]; [done|]. simpl in Hr3.
      by rewrite (IHe r4 f g) by lia.
Qed.

Lemma value_fuel b f :
  (2 * length b < f)%nat → value f b = value (S (2 * length b)) b.
Proof. intros H. apply (parse_fuel (length b)); lia. Qed.

(** ** Printed objects *)

(** Characters a string holds as they are. *)
Definition plain (c : Byte.byte) : bool :=
  negb (val c =? QUOTE) && negb (val c =? BACKSLASH) && (32 <=? val c).

Lemma string_body_plain s rest :
  forallb plain s = true → string_body (s ++ [u8 QUOTE] ++ rest) None = Some (s, rest).
Proof.
  induction s as [|c s IH]; intros H; [done|]. cbn [forallb] in H. bool_split.
  unfold plain in H. bool_split. rewrite <- app_comm_cons. cbn [string_body].
  rewrite IH by done.
  rewrite H, H2. destruct (Z.ltb_spec (val c) 32); [lia|]. done.
Qed.

(** Objects of plain strings and booleans, as a browser prints client data. *)
Definition print_value (v : json) : bytes :=
  match v with
  | JStr s => [u8 QUOTE] ++ s ++ [u8 QUOTE]
  | JBool true => lit "true"
  | JBool false => lit "false"
  | _ => lit "null"
  end.

Definition printable (v : json) : bool :=
  match v with JStr s => forallb plain s | JBool _ | JNull => true | _ => false end.

Definition print_member (m : bytes * json) : bytes :=
  [u8 QUOTE] ++ fst m ++ [u8 QUOTE; u8 COLON] ++ print_value (snd m).

Fixpoint print_members (ms : list (bytes * json)) : bytes :=
  match ms with
  | [] => []
  | [m] => print_member m
  | m :: ms => print_member m ++ [u8 COMMA] ++ print_members ms
  end.

Definition print_object (ms : list (bytes * json)) : bytes :=
  [u8 LBRACE] ++ print_members ms ++ [u8 RBRACE].

Definition printable_member (m : bytes * json) : bool := forallb plain (fst m) && printable (snd m).

Lemma value_print fuel v rest :
  (0 < fuel)%nat → printable v = true → value fuel (print_value v ++ rest) = Some (v, rest).
Proof.
  destruct fuel as [|fuel]; [lia|]. intros _.
  destruct v as [|[]| |s| |]; intros H; try done.
  unfold print_value. rewrite <- !app_assoc. cbn [app value skip_ws].
  change (is_ws (u8 QUOTE)) with false. change (val (u8 QUOTE) =? QUOTE) with true.
  cbv iota. change (u8 QUOTE :: rest) with ([u8 QUOTE] ++ rest).
  by rewrite string_body_plain by done.
Qed.

(** One member, up to what follows its value. *)
Lemma members_step fuel m rest :
  (0 < fuel)%nat → printable_member m = true →
  members (S fuel) (print_member m ++ rest)
  = match skip_ws rest with
    | c :: r => if val c =? COMMA then '(ms, r) ← members fuel r; Some (m :: ms, r)
                else if val c =? RBRACE then Some ([m], r) else None
    | [] => None
    end.
Proof.
  destruct m as [k v]. unfold printable_member, print_member. cbn [fst snd]. intros Hf H.
  bool_split. rewrite <- !app_assoc. cbn [app members skip_ws].
  change (is_ws (u8 QUOTE)) with false. change (val (u8 QUOTE) =? QUOTE) with true. cbv iota.
  change (u8 QUOTE :: u8 COLON :: ?x) with ([u8 QUOTE] ++ u8 COLON :: x).
  rewrite string_body_plain by done. cbn [mbind option_bind skip_ws].
  change (is_ws (u8 COLON)) with false. cbv iota. change (val (u8 COLON) =? COLON) with true.
  cbv iota. by rewrite value_print by done.
Qed.

Lemma members_print fuel m ms rest :
  (length ms < fuel)%nat → printable_member m = true → forallb printable_member ms = true →
  members (S fuel) (print_members (m :: ms) ++ [u8 RBRACE] ++ rest) = Some (m :: ms, rest).
Proof.
  revert fuel m. induction ms as [|m' ms IH]; intros fuel m Hf Hm Hms; simpl length in Hf.
  - change (print_members [m]) with (print_member m). by rewrite members_step by (done || lia).
  - change (print_members (m :: m' :: ms))
      with (print_member m ++ [u8 COMMA] ++ print_members (m' :: ms)).
    rewrite <- !app_assoc, members_step by (done || lia). cbn [app skip_ws].
    change (is_ws (u8 COMMA)) with false. cbv iota. change (val (u8 COMMA) =? COMMA) with true.
    cbv iota. cbn [forallb] in Hms. bool_split. destruct fuel as [|fuel]; [lia|].
    change (u8 RBRACE :: rest) with ([u8 RBRACE] ++ rest). by rewrite IH by (done || lia).
Qed.

Lemma json_parse_print m ms :
  printable_member m = true → forallb printable_member ms = true →
  json_parse (print_object (m :: ms)) = Some (JObj (m :: ms)).
Proof.
  intros Hm Hms. unfold json_parse.
  rewrite <- (value_fuel (print_object (m :: ms))
    (S (S (S (2 * length (print_object (m :: ms)) + length ms))))) by lia.
  unfold print_object at 2. cbn [app].
  set (f := S (2 * length (print_object (m :: ms)) + length ms)).
  assert (Hq : ∃ t, print_members (m :: ms) ++ [u8 RBRACE] = u8 QUOTE :: t)
    by (destruct ms; unfold print_members, print_member; cbn [app]; eauto).
  destruct Hq as [t Ht]. cbn [value skip_ws]. change (is_ws (u8 LBRACE)) with false. cbv iota.
  change (val (u8 LBRACE) =? QUOTE) with false. change (val (u8 LBRACE) =? LBRACE) with true.
  cbv iota. rewrite Ht at 1. cbn [skip_ws]. change (is_ws (u8 QUOTE)) with false. cbv iota.
  change (val (u8 QUOTE) =? RBRACE) with false. cbv iota.
  rewrite <- (app_nil_r [u8 RBRACE]). rewrite members_print by (done || lia). done.
Qed.
