(* ===== verification/JsonText.v ===== *)
(** * [JSON.stringify] and numbers

    What src/sdk/sdk-kit/src/types.ts uses of [JSON.stringify]: a tree printed
    without white space, and that [JSON.parse] reads it back.  A number keeps its
    lexeme; [num_int] is the integer it denotes, exactly (a double rounds a
    fraction of more than seventeen digits, which nothing here prints). *)
From S2P Require Import Prelude Bytes Json.
Local Open Scope Z_scope.

(** ** Numbers *)
Definition digit_val (c : Byte.byte) : Z := val c - 48.
Definition digits_val (l : bytes) : Z := fold_left (λ acc c, acc * 10 + digit_val c) l 0.

(** [m * 10 ^ e] of a lexeme. *)
Definition lexeme_parts (l : bytes) : Z * Z :=
  let '(sign, l) := match l with
                    | c :: r => if val c =? 45 then (-1, r) else (1, l)
                    | [] => (1, []) end in
  let '(int, l) := digits l in
  let '(frac, l) := match l with
                    | c :: r => if val c =? 46 then digits r else ([], l)
                    | [] => ([], []) end in
  let exp := match l with
             | c :: r =>
               match r with
               | s :: r' => if val s =? 45 then - digits_val r'
                            else if val s =? 43 then digits_val r' else digits_val r
               | [] => 0
               end
             | [] => 0
             end in
  (sign * digits_val (int ++ frac), exp - Z.of_nat (length frac)).

Definition num_int (l : bytes) : option Z :=
  let '(m, e) := lexeme_parts l in
  if 0 <=? e then Some (m * 10 ^ e)
  else if m mod 10 ^ (- e) =? 0 then Some (m / 10 ^ (- e)) else None.

(** [String(n)] of a natural number. *)
Fixpoint dec_digits (fuel : nat) (n : Z) : bytes :=
  match fuel with
  | O => []
  | S fuel => if n <? 10 then [u8 (48 + n)] else dec_digits fuel (n / 10) ++ [u8 (48 + n mod 10)]
  end.
Definition dec (n : Z) : bytes := dec_digits (S (Z.to_nat n)) n.

Definition JNat (n : Z) : json := JNum (dec n).

(** ** Printing *)
Definition quote (s : bytes) : bytes := [u8 QUOTE] ++ s ++ [u8 QUOTE].

Fixpoint join (parts : list bytes) : bytes :=
  match parts with
  | [] => []
  | [p] => p
  | p :: ps => p ++ [u8 COMMA] ++ join ps
  end.

Lemma join_cons p ps : ps ≠ [] → join (p :: ps) = p ++ [u8 COMMA] ++ join ps.
Proof. by destruct ps. Qed.

(** For strings that need no escape. *)
Fixpoint stringify (v : json) : bytes :=
  match v with
  | JNull => lit "null"
  | JBool true => lit "true"
  | JBool false => lit "false"
  | JNum l => l
  | JStr s => quote s
  | JArr vs => [u8 LBRACKET] ++ join (List.map stringify vs) ++ [u8 RBRACKET]
  | JObj ms => [u8 LBRACE]
      ++ join (List.map (λ m, quote (fst m) ++ [u8 COLON] ++ stringify (snd m)) ms) ++ [u8 RBRACE]
  end.

Definition natural (l : bytes) : bool :=
  match l with
  | [] => false
  | c :: r => is_digit c && forallb is_digit r && (negb (val c =? 48) || (length r =? 0)%nat)
  end.

Fixpoint text_ok (v : json) : bool :=
  match v with
  | JNull | JBool _ => true
  | JNum l => natural l
  | JStr s => forallb plain s
  | JArr vs => forallb text_ok vs
  | JObj ms => forallb (λ m, forallb plain (fst m) && text_ok (snd m)) ms
  end.

Lemma json_nested_ind (P : json → Prop) :
  P JNull → (∀ b, P (JBool b)) → (∀ l, P (JNum l)) → (∀ s, P (JStr s)) →
  (∀ vs, Forall P vs → P (JArr vs)) →
  (∀ ms, Forall (λ m, P (snd m)) ms → P (JObj ms)) → ∀ v, P v.
Proof.
  intros Hn Hb Hnum Hs Ha Ho. fix IH 1.
  intros [|b|l|s|vs|ms]; [exact Hn | apply Hb | apply Hnum | apply Hs | |].
  - apply Ha. induction vs as [|v vs IHvs]; constructor; [apply IH | exact IHvs].
  - apply Ho. induction ms as [|m ms IHms]; constructor; [apply IH | exact IHms].
Qed.

(** What may follow a printed value. *)
Definition ends (rest : bytes) : Prop :=
  match rest with
  | [] => True
  | c :: _ => val c = COMMA ∨ val c = RBRACKET ∨ val c = RBRACE
  end.

Lemma ends_not_digit rest :
  ends rest → match rest with [] => True
              | c :: _ => is_digit c = false ∧ (val c =? 46) = false
                          ∧ ((val c =? 101) || (val c =? 69)) = false end.
Proof.
  destruct rest as [|c rest]; [done|]. unfold ends, is_digit, COMMA, RBRACKET, RBRACE.
  intros [->|[->| ->]]; done.
Qed.

Lemma digits_all l rest :
  forallb is_digit l = true → match rest with [] => True | c :: _ => is_digit c = false end →
  digits (l ++ rest) = (l, rest).
Proof.
  intros Hl Hr. induction l as [|c l IH].
  - destruct rest as [|c rest]; [done|]. cbn [app digits]. by rewrite Hr.
  - cbn [forallb] in Hl. apply andb_prop in Hl as [Hc Hl]. cbn [app digits]. by rewrite Hc, IH.
Qed.

Lemma number_natural l rest :
  natural l = true → ends rest → number (l ++ rest) = Some (l, rest).
Proof.
  intros Hl Hr. apply ends_not_digit in Hr. destruct l as [|c l]; [done|]. cbn [natural] in Hl.
  apply andb_prop in Hl as [[Hc Hl]%andb_prop Hz]. unfold number. cbn [app].
  assert ((val c =? 45) = false) as -> by (unfold is_digit in Hc; lia).
  assert (Hd : (if val c =? 48 then Some ([c], l ++ rest) else digits1 (c :: l ++ rest))
               = Some (c :: l, rest)).
  { destruct (val c =? 48) eqn:H0.
    - cbn [negb orb] in Hz. apply Nat.eqb_eq in Hz. by destruct l.
    - unfold digits1. cbn [digits]. rewrite Hc, digits_all; [done | done |].
      destruct rest; [done | by destruct Hr]. }
  rewrite Hd. cbn [mbind option_bind]. destruct rest as [|d rest].
  - cbn. by rewrite app_nil_r.
  - destruct Hr as (_ & H1 & H2). rewrite H1. cbn [mbind option_bind]. rewrite H2.
    cbn. by rewrite app_nil_r.
Qed.

(** ** Reading back *)

(** The first character of a printed value. *)
Lemma stringify_head v :
  text_ok v = true →
  ∃ c t, stringify v = c :: t ∧ is_ws c = false ∧ (val c =? RBRACKET) = false.
Proof.
  destruct v as [|[]|l|s|vs|ms]; cbn [text_ok stringify]; intros H; try by do 2 eexists.
  destruct l as [|c l]; [done|]. exists c, l. cbn [natural] in H.
  apply andb_prop in H as [[Hc _]%andb_prop _].
  assert (48 <= val c <= 57) by (unfold is_digit in Hc; lia). unfold is_ws, RBRACKET. cbn [existsb].
  split; [done|]. by rewrite !(proj2 (Z.eqb_neq _ _)) by lia.
Qed.

Lemma skip_ws_ok c t : is_ws c = false → skip_ws (c :: t) = c :: t.
Proof. intros H. cbn [skip_ws]. by rewrite H. Qed.

(** A value reads back with what follows it. *)
Definition reads_back (v : json) : Prop :=
  text_ok v = true → ∀ rest fuel, ends rest → (2 * length (stringify v ++ rest) < fuel)%nat →
  value fuel (stringify v ++ rest) = Some (v, rest).

Lemma elements_back v vs rest fuel :
  Forall reads_back (v :: vs) → forallb text_ok (v :: vs) = true →
  let text := join (List.map stringify (v :: vs)) ++ [u8 RBRACKET] ++ rest in
  (2 * length text + 1 < fuel)%nat → elements fuel text = Some (v :: vs, rest).
Proof.
  revert v fuel. induction vs as [|w vs IH]; intros v fuel HF Hok text Hfuel;
    apply Forall_cons in HF as [Hv HF]; cbn [forallb] in Hok; apply andb_prop in Hok as [Hvo Hok];
    (destruct fuel as [|fuel]; [lia|]); subst text; cbn [elements].
  - cbn [List.map join]. rewrite Hv; [|done|by right; left|cbn [List.map join] in Hfuel; lia].
    cbn [mbind option_bind app]. rewrite skip_ws_ok by done.
    change (val (u8 RBRACKET) =? COMMA) with false. by change (val (u8 RBRACKET) =? RBRACKET) with true.
  - cbn [List.map] in *. rewrite (join_cons (stringify v)) in * by done.
    rewrite <- !app_assoc in *. rewrite Hv; [|done|by left|lia].
    cbn [mbind option_bind app]. rewrite skip_ws_ok by done.
    change (val (u8 COMMA) =? COMMA) with true. cbv iota.
    change (u8 RBRACKET :: rest) with ([u8 RBRACKET] ++ rest).
    rewrite (IH w) ; [done|done|done|]. rewrite !length_app in Hfuel. cbn [length] in Hfuel.
    rewrite !length_app. cbn [length]. lia.
Qed.

Definition member_text (m : bytes * json) : bytes := quote (fst m) ++ [u8 COLON] ++ stringify (snd m).

Definition member_ok (m : bytes * json) : bool := forallb plain (fst m) && text_ok (snd m).

(** One member, up to what follows its value. *)
Lemma member_back m rest fuel :
  reads_back (snd m) → member_ok m = true → ends rest →
  (2 * length (member_text m ++ rest) < S fuel)%nat →
  members (S fuel) (member_text m ++ rest)
  = match skip_ws rest with
    | c :: r => if val c =? COMMA then '(ms, r) ← members fuel r; Some (m :: ms, r)
                else if val c =? RBRACE then Some ([m], r) else None
    | [] => None
    end.
Proof.
  destruct m as [k v]. unfold member_ok, member_text, quote. cbn [fst snd].
  intros Hv [Hk Hok]%andb_prop Hr Hf. rewrite <- !app_assoc in *. cbn [app] in *.
  cbn [members]. rewrite skip_ws_ok by done. change (val (u8 QUOTE) =? QUOTE) with true. cbv iota.
  change (u8 QUOTE :: u8 COLON :: ?x) with ([u8 QUOTE] ++ u8 COLON :: x) in *.
  rewrite string_body_plain by done. cbn [mbind option_bind]. rewrite skip_ws_ok by done.
  change (val (u8 COLON) =? COLON) with true. cbv iota.
  rewrite Hv; [done|done|done|]. cbn [length] in Hf. rewrite length_app in Hf. cbn [app length] in Hf. lia.
Qed.

Lemma members_back m ms rest fuel :
  Forall (λ m, reads_back (snd m)) (m :: ms) → forallb member_ok (m :: ms) = true →
  let text := join (List.map member_text (m :: ms)) ++ [u8 RBRACE] ++ rest in
  (2 * length text < fuel)%nat → members fuel text = Some (m :: ms, rest).
Proof.
  revert m fuel. induction ms as [|m' ms IH]; intros m fuel HF Hok text Hfuel;
    apply Forall_cons in HF as [Hv HF]; cbn [forallb] in Hok; apply andb_prop in Hok as [Hvo Hok];
    (destruct fuel as [|fuel]; [lia|]); subst text.
  - cbn [List.map join] in *. rewrite member_back; [|done|done|by right; right|done].
    cbn [app]. rewrite skip_ws_ok by done. change (val (u8 RBRACE) =? COMMA) with false.
    by change (val (u8 RBRACE) =? RBRACE) with true.
  - cbn [List.map] in *. rewrite (join_cons (member_text m)) in * by done.
    rewrite <- !app_assoc in *. rewrite member_back; [|done|done|by left|done].
    cbn [app]. rewrite skip_ws_ok by done. change (val (u8 COMMA) =? COMMA) with true. cbv iota.
    change (u8 RBRACE :: rest) with ([u8 RBRACE] ++ rest).
    rewrite (IH m'); [done|done|done|]. rewrite !length_app in Hfuel. cbn [length] in Hfuel.
    rewrite !length_app. cbn [length]. lia.
Qed.

Lemma number_back l : reads_back (JNum l).
Proof.
  intros Hok rest [|fuel] Hr Hf; [lia|]. cbn [text_ok stringify] in *.
  destruct (stringify_head (JNum l) Hok) as (c & t & Heq & Hws & _).
  cbn [stringify] in Heq. subst l. cbn [app value]. rewrite skip_ws_ok by done.
  pose proof (number_natural _ rest Hok Hr) as Hn. cbn [natural] in Hok.
  apply andb_prop in Hok as [[Hc _]%andb_prop _].
  assert (48 <= val c <= 57) by (unfold is_digit in Hc; lia).
  cbn [app] in Hn. rewrite Hn. unfold QUOTE, LBRACE, LBRACKET.
  rewrite !(proj2 (Z.eqb_neq (val c) _)) by lia.
  assert (Hp : ∀ x p, val (x : Byte.byte) ≠ val c → strip_prefix (x :: p) (c :: t ++ rest) = None).
  { intros x p Hx. cbn [strip_prefix]. by rewrite (proj2 (Z.eqb_neq _ _)). }
  change (lit "null") with (u8 110 :: lit "ull"). change (lit "true") with (u8 116 :: lit "rue").
  change (lit "false") with (u8 102 :: lit "alse").
  rewrite !Hp by (rewrite val_u8_small by lia; lia). done.
Qed.

Lemma all_read_back v : reads_back v.
Proof.
  induction v as [|b|l|s|vs IH|ms IH] using json_nested_ind; intros Hok rest fuel Hr Hf;
    (destruct fuel as [|fuel]; [lia|]); cbn [text_ok] in Hok.
  - done.
  - by destruct b.
  - by apply number_back.
  - cbn [stringify]. unfold quote. rewrite <- !app_assoc. cbn [app value]. rewrite skip_ws_ok by done.
    change (val (u8 QUOTE) =? QUOTE) with true. cbv iota.
    change (u8 QUOTE :: rest) with ([u8 QUOTE] ++ rest). by rewrite string_body_plain.
  - cbn [stringify] in *. rewrite <- !app_assoc in *. cbn [app value] in *. rewrite skip_ws_ok by done.
    change (val (u8 LBRACKET) =? QUOTE) with false. change (val (u8 LBRACKET) =? LBRACE) with false.
    change (val (u8 LBRACKET) =? LBRACKET) with true. cbv iota.
    destruct vs as [|v vs]; [done|].
    assert (Hhd : ∃ c t, join (List.map stringify (v :: vs)) ++ u8 RBRACKET :: rest = c :: t
                    ∧ is_ws c = false ∧ (val c =? RBRACKET) = false).
    { cbn [forallb] in Hok. apply andb_prop in Hok as [Hv _].
      destruct (stringify_head v Hv) as (c & t & Heq & H1 & H2). exists c.
      cbn [List.map]. rewrite Heq. destruct vs; cbn; eauto. }
    destruct Hhd as (c & t & Heq & Hws & Hnb). rewrite Heq at 1. rewrite skip_ws_ok, Hnb by done.
    change (u8 RBRACKET :: rest) with ([u8 RBRACKET] ++ rest) in *. cbn [length] in Hf.
    rewrite (elements_back v vs); [done|done|done|lia].
  - cbn [stringify] in *. rewrite <- !app_assoc in *. cbn [app value] in *. rewrite skip_ws_ok by done.
    change (val (u8 LBRACE) =? QUOTE) with false. change (val (u8 LBRACE) =? LBRACE) with true. cbv iota.
    destruct ms as [|m ms]; [done|].
    change (List.map (λ m, quote m.1 ++ u8 COLON :: stringify m.2) (m :: ms))
      with (List.map member_text (m :: ms)) in *.
    assert (Hhd : ∃ t, join (List.map member_text (m :: ms)) ++ u8 RBRACE :: rest = u8 QUOTE :: t).
    { cbn [List.map]. unfold member_text, quote. destruct ms; cbn; eauto. }
    destruct Hhd as (t & Heq). rewrite Heq at 1. rewrite skip_ws_ok by done.
    change (val (u8 QUOTE) =? RBRACE) with false. cbv iota.
    change (u8 RBRACE :: rest) with ([u8 RBRACE] ++ rest) in *. cbn [length] in Hf.
    rewrite (members_back m ms); [done|done|done|lia].
Qed.

(** [JSON.parse(JSON.stringify(v))] is [v]. *)
Lemma json_parse_stringify v : text_ok v = true → json_parse (stringify v) = Some v.
Proof.
  intros H. unfold json_parse. rewrite <- (app_nil_r (stringify v)) at 2.
  rewrite all_read_back; [done|done|done|]. rewrite app_nil_r. lia.
Qed.

(** ** Decimals *)
Lemma digit_u8 d : 0 <= d < 10 → val (u8 (48 + d)) = 48 + d ∧ is_digit (u8 (48 + d)) = true.
Proof. intros H. unfold is_digit. rewrite val_u8_small by lia. split; [done|]. lia. Qed.

Lemma digits_val_snoc l c : digits_val (l ++ [c]) = digits_val l * 10 + digit_val c.
Proof. unfold digits_val. by rewrite fold_left_app. Qed.

Lemma dec_digits_spec fuel n :
  0 <= n → (Z.to_nat n < fuel)%nat →
  natural (dec_digits fuel n) = true ∧ digits_val (dec_digits fuel n) = n
  ∧ (0 < n → match dec_digits fuel n with c :: _ => (val c =? 48) = false | [] => False end).
Proof.
  revert n. induction fuel as [|fuel IH]; intros n Hn Hf; [lia|]. cbn [dec_digits].
  destruct (Z.ltb_spec n 10).
  - destruct (digit_u8 n) as [Hv Hd]; [lia|]. unfold natural, digits_val, digit_val. cbn [fold_left forallb length].
    rewrite Hv, Hd. split; [by rewrite orb_true_r|]. split; [lia|]. intros. lia.
  - assert (0 <= n mod 10 < 10) as Hm by (apply Z.mod_pos_bound; lia).
    assert (0 < n / 10) by (apply Z.div_str_pos; lia).
    destruct (IH (n / 10)) as (H1 & H2 & H3); [lia| |].
    { apply Nat.lt_le_trans with (Z.to_nat n); [|lia]. apply Z2Nat.inj_lt; [lia..|].
      apply Z.div_lt; lia. }
    specialize (H3 ltac:(lia)). destruct (digit_u8 _ Hm) as [Hv Hd].
    split; [|split].
    + destruct (dec_digits fuel (n / 10)) as [|c l]; [done|]. cbn [natural app] in *.
      apply andb_prop in H1 as [[Hc Hl]%andb_prop _].
      rewrite Hc, H3, forallb_app, Hl. cbn [forallb]. by rewrite Hd.
    + rewrite digits_val_snoc, H2. unfold digit_val. rewrite Hv.
      rewrite (Z.div_mod n 10) at 3 by lia. lia.
    + intros _. by destruct (dec_digits fuel (n / 10)).
Qed.

Lemma dec_natural n : 0 <= n → natural (dec n) = true.
Proof. intros H. apply dec_digits_spec; lia. Qed.

Lemma num_int_dec n : 0 <= n → num_int (dec n) = Some n.
Proof.
  intros H. destruct (dec_digits_spec (S (Z.to_nat n)) n) as (Hn & Hv & _); [lia|lia|].
  unfold num_int, lexeme_parts. unfold dec. set (l := dec_digits _ n) in *.
  destruct l as [|c l]; [done|]. cbn [natural] in Hn. apply andb_prop in Hn as [[Hc Hl]%andb_prop _].
  assert ((val c =? 45) = false) as -> by (unfold is_digit in Hc; lia).
  pose proof (digits_all (c :: l) []) as Hd. rewrite app_nil_r in Hd.
  rewrite Hd by (cbn [forallb]; by rewrite ?Hc, ?Hl). rewrite app_nil_r, Hv.
  cbn. f_equal. lia.
Qed.
