(* ===== verification/ProgramWebauthn.v ===== *)
(** * The assertion, as the program reads it

    Models src/program/src/auth/secp256r1/webauthn.rs: the base64url encoder, the
    reader of authenticator data, and the scanner that takes [type] and [challenge]
    out of clientDataJSON without parsing it.  The theorems compare the scanner with
    [JSON.parse], which the SDKs use on the same text, and show that the encoder is
    injective. *)
From S2P Require Import Prelude Bytes Json.
Local Open Scope Z_scope.

(** ** base64url *)
Definition ALPHABET : bytes := lit "ABCDEFGHIJKLMNOPQRSTUVWXYZabcdefghijklmnopqrstuvwxyz0123456789-_".

(** [ALPHABET[((b >> shift) & 0x3f)]]. *)
Definition sextet (b shift : Z) : Z := Z.land (Z.shiftr b shift) 0x3f.
Definition symbol (b shift : Z) : Byte.byte := ALPHABET !!! Z.to_nat (sextet b shift).

Fixpoint base64url_encode_no_pad (data : bytes) : bytes :=
  match data with
  | [] => []
  | [x] =>
    let b := Z.shiftl (val x) 16 in [symbol b 18; symbol b 12]
  | [x; y] =>
    let b := Z.lor (Z.shiftl (val x) 16) (Z.shiftl (val y) 8) in [symbol b 18; symbol b 12; symbol b 6]
  | x :: y :: z :: data =>
    let b := Z.lor (Z.lor (Z.shiftl (val x) 16) (Z.shiftl (val y) 8)) (val z) in
    symbol b 18 :: symbol b 12 :: symbol b 6 :: symbol b 0 :: base64url_encode_no_pad data
  end.

(** ** Authenticator data *)
Definition AUTH_DATA_MIN_LEN : nat := 37.

Record AuthDataParser := mkAuthData { ad_data : bytes }.

Definition AuthDataParser_new (data : bytes) : result AuthDataParser :=
  (throw! PInvalidAuthorityPayload when (length data <? AUTH_DATA_MIN_LEN)%nat;
   Ok (mkAuthData data))%js.

Definition rp_id_hash (p : AuthDataParser) : bytes := slice 0 32 (ad_data p).
Definition is_user_present (p : AuthDataParser) : bool := negb (Z.land (val (ad_data p !!! 32%nat)) 0x01 =? 0).

(** ** The scanner of clientDataJSON

    A cursor is the rest of the text from it on. *)
Definition is_ascii_whitespace (c : Byte.byte) : bool := existsb (Z.eqb (val c)) [9; 10; 12; 13; 32].

Fixpoint skip_whitespace (b : bytes) : bytes :=
  match b with
  | c :: r => if is_ascii_whitespace c then skip_whitespace r else b
  | [] => []
  end.

(** The bytes before the next quote, and the text from that quote on, which is empty
    when there is none; a backslash is refused. *)
Fixpoint to_quote (b : bytes) : result (bytes * bytes) :=
  match b with
  | [] => Ok ([], [])
  | c :: r =>
    if val c =? QUOTE then Ok ([], b)
    else if val c =? BACKSLASH then Throw PInvalidMessage
    else '(s, rest) ← to_quote r; Ok (c :: s, rest)
  end.

(** The loop that skips a value that is no string: it stops at the comma or the brace
    that ends it.  [in_string] is the inner loop over a string. *)
Fixpoint skip_value (b : bytes) (nest : nat) (in_string : bool) : result bytes :=
  match b with
  | [] => Ok []
  | c :: r =>
    if in_string then
      if val c =? QUOTE then skip_value r nest false
      else if val c =? BACKSLASH then Throw PInvalidMessage
      else skip_value r nest true
    else if val c =? QUOTE then skip_value r nest true
    else if (val c =? LBRACE) || (val c =? LBRACKET) then skip_value r (S nest) false
    else if (val c =? RBRACE) || (val c =? RBRACKET) then
      match nest with O => Ok b | S nest => skip_value r nest false end
    else if (val c =? COMMA) && (nest =? 0)%nat then Ok b
    else skip_value r nest false
  end.

(** A key and its colon, from behind the key's opening quote: the key, and the text
    from the first byte of its value. *)
Definition read_key (b : bytes) : result (bytes * bytes) :=
  '(key, rest) ← to_quote b;
  match rest with
  | [] => Throw PInvalidMessage
  | _ :: r =>
    match skip_whitespace r with
    | c :: r =>
      if negb (val c =? COLON) then Throw PInvalidMessage
      else match skip_whitespace r with
           | [] => Throw PInvalidMessage
           | r => Ok (key, r)
           end
    | [] => Throw PInvalidMessage
    end
  end.

(** The value of the wanted field. *)
Definition read_string (b : bytes) : result bytes :=
  match b with
  | c :: r =>
    if negb (val c =? QUOTE) then Throw PInvalidMessage
    else '(value, rest) ← to_quote r;
         match rest with [] => Throw PInvalidMessage | _ => Ok value end
  | [] => Throw PInvalidMessage
  end.

(** Past the value of another field. *)
Definition skip_other (b : bytes) : result bytes :=
  match b with
  | c :: r =>
    if val c =? QUOTE then '(_, rest) ← to_quote r; Ok (drop 1 rest)
    else skip_value b 0 false
  | [] => Ok []
  end.

(** The outer loop; every turn moves the cursor, so [length b] turns are enough
    ([scan_fuel]). *)
Fixpoint scan (fuel : nat) (field : bytes) (depth : nat) (b : bytes) : result bytes :=
  match fuel, b with
  | S fuel, c :: r =>
    if val c =? LBRACE then scan fuel field (S depth) r
    else if val c =? RBRACE then
      match depth with O => Throw PInvalidMessage | S depth => scan fuel field depth r end
    else if (depth =? 1)%nat && (val c =? QUOTE) then
      '(key, value) ← read_key r;
      if bytesEqual key field then read_string value
      else rest ← skip_other value; scan fuel field depth rest
    else scan fuel field depth r
  | _, _ => Throw PInvalidMessage
  end.

Definition extract_top_level_string_field (json field_name : bytes) : result bytes :=
  match skip_whitespace json with
  | c :: _ =>
    if negb (val c =? LBRACE) then Throw PInvalidMessage
    else scan (length json) field_name 0 (skip_whitespace json)
  | [] => Throw PInvalidMessage
  end.

(** ** The loops end *)
Lemma length_skip_whitespace b : (length (skip_whitespace b) <= length b)%nat.
Proof. induction b as [|c b IH]; [done|]. cbn [skip_whitespace]. destruct (is_ascii_whitespace c); cbn [length]; lia. Qed.

Lemma to_quote_split b s rest : to_quote b = Ok (s, rest) → b = s ++ rest.
Proof.
  revert s. induction b as [|c b IH]; intros s; cbn; [by intros [= <- <-]|].
  destruct (val c =? QUOTE); [by intros [= <- <-]|]. destruct (val c =? BACKSLASH); [done|].
  intros ([s' r'] & Hq & [= <- <-])%bind_inv. cbn. by rewrite (IH s').
Qed.

Lemma skip_value_length b nest q r : skip_value b nest q = Ok r → (length r <= length b)%nat.
Proof.
  revert nest q. induction b as [|c b IH]; intros nest q; cbn [skip_value]; [by intros [= <-]|].
  assert (H : ∀ n q', skip_value b n q' = Ok r → (length r <= length (c :: b))%nat)
    by (intros n q' E%IH; cbn; lia).
  repeat case_match; try done; try (by apply H); by intros [= <-].
Qed.

Lemma read_key_length b key v : read_key b = Ok (key, v) → (length v < length b)%nat.
Proof.
  unfold read_key. intros ([k rest] & ->%to_quote_split & H)%bind_inv. rewrite length_app.
  destruct rest as [|q r]; [done|]. pose proof (length_skip_whitespace r).
  destruct (skip_whitespace r) as [|c r']; [done|]. destruct (negb _); [done|].
  pose proof (length_skip_whitespace r'). destruct (skip_whitespace r') as [|d r'']; [done|].
  injection H as _ <-. cbn in *. lia.
Qed.

Lemma skip_other_length v rest : skip_other v = Ok rest → (length rest <= length v)%nat.
Proof.
  destruct v as [|c r]; [by intros [= <-]|]. cbn [skip_other]. destruct (val c =? QUOTE).
  - intros ([s q] & ->%to_quote_split & [= <-])%bind_inv. cbn. rewrite length_drop, length_app. lia.
  - apply skip_value_length.
Qed.

Lemma scan_fuel n m field depth b : (length b <= n)%nat → (length b <= m)%nat →
  scan n field depth b = scan m field depth b.
Proof.
  revert m depth b. induction n as [|n IH]; intros m depth b Hn Hm; [by destruct b, m; cbn in *; try lia|].
  destruct b as [|c r]; [by destruct m|]. destruct m as [|m]; [cbn in Hm; lia|]. cbn [scan]. cbn in Hn, Hm.
  rewrite (IH m (S depth) r) by lia. destruct (val c =? LBRACE); [done|].
  destruct (val c =? RBRACE); [destruct depth; [done|apply IH; lia]|].
  destruct (_ && _); [|apply IH; lia].
  destruct (read_key r) as [[key v]|] eqn:Hk; [|done]. apply read_key_length in Hk. cbn [mbind outcome_bind].
  destruct (bytesEqual key field); [done|].
  destruct (skip_other v) as [rest|] eqn:Hs; [|done]. apply skip_other_length in Hs. apply IH; lia.
Qed.

(** One turn at a time, with the fuel the rest needs. *)
Definition scan_all (field : bytes) (depth : nat) (b : bytes) : result bytes := scan (length b) field depth b.

Lemma scan_step field depth c r : scan_all field depth (c :: r) =
  if val c =? LBRACE then scan_all field (S depth) r
  else if val c =? RBRACE then match depth with O => Throw PInvalidMessage | S depth => scan_all field depth r end
  else if (depth =? 1)%nat && (val c =? QUOTE) then
    '(key, value) ← read_key r;
    if bytesEqual key field then read_string value
    else rest ← skip_other value; scan_all field depth rest
  else scan_all field depth r.
Proof.
  unfold scan_all. cbn [length scan]. repeat (case_match; [done|]). case_match; [|done].
  destruct (read_key r) as [[key v]|] eqn:Hk; [|done]. apply read_key_length in Hk. cbn [mbind outcome_bind].
  destruct (bytesEqual key field); [done|].
  destruct (skip_other v) as [rest|] eqn:Hs; [|done]. apply skip_other_length in Hs. cbn [mbind outcome_bind].
  apply scan_fuel; lia.
Qed.

(** ** Against JSON.parse

    Past what [JSON.parse] reads as a value, a string or the rest of an object or an
    array, [skip_value] moves too, unless there is a backslash in it. *)
Definition has_backslash (b : bytes) : Prop := ∃ c, c ∈ b ∧ val c = BACKSLASH.

Definition reads (b : bytes) (n : nat) (q : bool) (r : bytes) (m : nat) : Prop :=
  (r `suffix_of` b ∧ skip_value b n q = skip_value r m false)
  ∨ (skip_value b n q = Throw PInvalidMessage ∧ has_backslash b).

Lemma backslash_suffix r b : r `suffix_of` b → has_backslash r → has_backslash b.
Proof. intros [u ->] (c & Hc & Hv). exists c. split; [set_solver|done]. Qed.

Lemma suffix_cons_l {A} (c : A) r : r `suffix_of` c :: r.
Proof. by exists [c]. Qed.

Lemma reads_trans b n q r m r' m' : reads b n q r m → reads r m false r' m' → reads b n q r' m'.
Proof.
  intros [[S1 H1]|H1]; [|by right]. intros [[S2 H2]|[H2 Hb]]; [left|right]; (split; [|by eauto using backslash_suffix || congruence]).
  - by etrans.
  - congruence.
Qed.

Lemma reads_refl b n : reads b n false b n.
Proof. by left. Qed.

(** A byte that moves the cursor by one. *)
Lemma reads_byte c r n q n' q' r' m :
  skip_value (c :: r) n q = skip_value r n' q' → reads r n' q' r' m → reads (c :: r) n q r' m.
Proof.
  intros E [[S H]|[H Hb]]; [left|right]; rewrite E; (split; [|done || (eapply backslash_suffix; [apply suffix_cons_l|done])]).
  - by apply suffix_cons_r.
  - done.
Qed.

Definition ordinary (c : Byte.byte) : bool :=
  negb (existsb (Z.eqb (val c)) [QUOTE; LBRACE; LBRACKET; RBRACE; RBRACKET; COMMA]).

Lemma skip_ordinary c r n : ordinary c = true → skip_value (c :: r) n false = skip_value r n false.
Proof.
  unfold ordinary. rewrite negb_true_iff. cbn [existsb]. rewrite !orb_false_iff. intros (H1 & H2 & H3 & H4 & H5 & H6 & _).
  cbn [skip_value]. by rewrite H1, H2, H3, H4, H5, H6.
Qed.

Lemma reads_ordinary c r n r' m : ordinary c = true → reads r n false r' m → reads (c :: r) n false r' m.
Proof. intros H. apply reads_byte. by apply skip_ordinary. Qed.

Lemma ordinary_not c (v : Z) : val c = v → existsb (Z.eqb v) [QUOTE; LBRACE; LBRACKET; RBRACE; RBRACKET; COMMA] = false → ordinary c = true.
Proof. intros <- H. unfold ordinary. by rewrite H. Qed.

Lemma digit_ordinary c : is_digit c = true → ordinary c = true.
Proof. destruct c; vm_compute; congruence. Qed.
Lemma ws_ordinary c : is_ws c = true → ordinary c = true.
Proof. destruct c; vm_compute; congruence. Qed.

Lemma reads_ws b n : reads b n false (skip_ws b) n.
Proof.
  induction b as [|c b IH]; [apply reads_refl|]. cbn [skip_ws]. destruct (is_ws c) eqn:E; [|apply reads_refl].
  apply reads_ordinary; [by apply ws_ordinary|done].
Qed.

Lemma reads_string b s r n : string_body b None = Some (s, r) → reads b n true r n.
Proof.
  revert s. induction b as [|c b IH]; intros s; [done|]. cbn [string_body]. destruct (val c =? QUOTE) eqn:Eq.
  { intros [= _ <-]. left. split; [apply suffix_cons_l|]. cbn [skip_value]. by rewrite Eq. }
  destruct (val c =? BACKSLASH) eqn:Eb.
  { intros _. right. cbn [skip_value]. rewrite Eq, Eb. split; [done|]. exists c. split; [left|lia]. }
  destruct (val c <? 32); [done|]. intros ([v rest] & H & [= _ <-])%bind_Some.
  apply (reads_byte _ _ _ _ n true); [cbn [skip_value]; by rewrite Eq, Eb|by eapply IH].
Qed.

(** The scanner's own reader of strings. *)
Lemma quote_string b s r : string_body b None = Some (s, r) →
  (r `suffix_of` b ∧ ∃ q, to_quote b = Ok (s, q :: r)) ∨ (to_quote b = Throw PInvalidMessage ∧ has_backslash b).
Proof.
  revert s. induction b as [|c b IH]; intros s; [done|]. cbn [string_body to_quote]. destruct (val c =? QUOTE) eqn:Eq.
  { intros [= <- <-]. left. split; [apply suffix_cons_l|by exists c]. }
  destruct (val c =? BACKSLASH) eqn:Eb; [intros _; right; split; [done|]; exists c; split; [left|lia]|].
  destruct (val c <? 32); [done|]. intros ([v rest] & H & [= <- <-])%bind_Some.
  destruct (IH v H) as [[S [q ->]]|[-> Hb]]; [left|right]; cbn [mbind outcome_bind].
  - split; [by apply suffix_cons_r|by exists q].
  - split; [done|]. eapply backslash_suffix; [apply suffix_cons_l|done].
Qed.

(** Numbers and the three words are ordinary bytes. *)
Lemma reads_digits b d r n : digits b = (d, r) → reads b n false r n.
Proof.
  revert d. induction b as [|c b IH]; intros d; cbn [digits]; [intros [= _ <-]; apply reads_refl|].
  destruct (is_digit c) eqn:E; [|intros [= _ <-]; apply reads_refl].
  destruct (digits b) as [d' r'] eqn:Ed. intros [= _ <-]. apply reads_ordinary; [by apply digit_ordinary|by eapply IH].
Qed.

Lemma reads_digits1 b d r n : digits1 b = Some (d, r) → reads b n false r n.
Proof. unfold digits1. destruct (digits b) as [[|] ?] eqn:E; [done|]. intros [= _ <-]. by eapply reads_digits. Qed.

Lemma ordinary_val c v : (val c =? v) = true →
  existsb (Z.eqb v) [QUOTE; LBRACE; LBRACKET; RBRACE; RBRACKET; COMMA] = false → ordinary c = true.
Proof. intros Hv%Z.eqb_eq H. unfold ordinary. by rewrite Hv, H. Qed.

Lemma reads_number b x r n : number b = Some (x, r) → reads b n false r n.
Proof.
  unfold number. intros H.
  destruct (match b with c :: r => if val c =? 45 then ([c], r) else ([], b) | [] => ([], []) end) as [sign b1] eqn:E1.
  apply bind_Some in H as ([int b2] & E2 & H). apply bind_Some in H as ([frac b3] & E3 & H).
  apply bind_Some in H as ([exp b4] & E4 & H). injection H as _ <-.
  apply (reads_trans _ _ _ b1 n).
  { destruct b as [|c b]; [injection E1 as _ <-; apply reads_refl|]. destruct (val c =? 45) eqn:Ec; injection E1 as _ <-;
      [|apply reads_refl]. apply reads_ordinary; [by eapply ordinary_val|apply reads_refl]. }
  apply (reads_trans _ _ _ b2 n).
  { destruct b1 as [|c b1]; [done|]. destruct (val c =? 48) eqn:Ec; [|by eapply reads_digits1]. injection E2 as _ <-.
    apply reads_ordinary; [by eapply ordinary_val|apply reads_refl]. }
  apply (reads_trans _ _ _ b3 n).
  { destruct b2 as [|c b2]; [injection E3 as _ <-; apply reads_refl|]. destruct (val c =? 46) eqn:Ec;
      [|injection E3 as _ <-; apply reads_refl]. apply bind_Some in E3 as ([d r'] & Hd & [= _ <-]).
    apply reads_ordinary; [by eapply ordinary_val|by eapply reads_digits1]. }
  destruct b3 as [|c b3]; [injection E4 as _ <-; apply reads_refl|]. destruct ((val c =? 101) || (val c =? 69)) eqn:Ec;
    [|injection E4 as _ <-; apply reads_refl].
  apply reads_ordinary; [apply orb_true_iff in Ec as [Ec|Ec]; by eapply ordinary_val|].
  destruct b3 as [|s b3]; [by apply bind_Some in E4 as ([d r'] & Hd & _)|].
  destruct ((val s =? 43) || (val s =? 45)) eqn:Es; apply bind_Some in E4 as ([d r'] & Hd & [= _ <-]);
    [apply reads_ordinary; [apply orb_true_iff in Es as [Es|Es]; by eapply ordinary_val|]|]; by eapply reads_digits1.
Qed.

Lemma reads_word p b r n : forallb ordinary p = true → strip_prefix p b = Some r → reads b n false r n.
Proof.
  revert b. induction p as [|x p IH]; intros b Hp; [intros [= <-]; apply reads_refl|]. destruct b as [|y b]; [done|].
  cbn [forallb] in Hp. apply andb_true_iff in Hp as [Hx Hp]. cbn [strip_prefix]. destruct (val x =? val y) eqn:E; [|done].
  intros H. apply Z.eqb_eq, val_inj in E as ->. apply reads_ordinary; [done|by apply IH].
Qed.

(** ** Nested values *)
Lemma skip_open c r n : (val c =? LBRACE) || (val c =? LBRACKET) = true → skip_value (c :: r) n false = skip_value r (S n) false.
Proof.
  intros H. cbn [skip_value]. rewrite H. destruct (Z.eqb_spec (val c) QUOTE) as [E|]; [|done].
  rewrite E in H. done.
Qed.

Lemma skip_close c r n : (val c =? RBRACE) || (val c =? RBRACKET) = true → skip_value (c :: r) (S n) false = skip_value r n false.
Proof.
  intros H. cbn [skip_value]. destruct (Z.eqb_spec (val c) QUOTE) as [E|]; [by rewrite E in H|].
  destruct ((val c =? LBRACE) || (val c =? LBRACKET)) eqn:E; [|by rewrite H].
  rewrite !orb_true_iff, !Z.eqb_eq in *. unfold LBRACE, LBRACKET, RBRACE, RBRACKET in *. lia.
Qed.

Lemma skip_comma c r n : (val c =? COMMA) = true → skip_value (c :: r) (S n) false = skip_value r (S n) false.
Proof. intros E%Z.eqb_eq. cbn [skip_value]. by rewrite E. Qed.

Lemma skip_quote c r n : (val c =? QUOTE) = true → skip_value (c :: r) n false = skip_value r n true.
Proof. intros E. cbn [skip_value]. by rewrite E. Qed.

Lemma reads_values fuel :
  (∀ b v r n, value fuel b = Some (v, r) → reads b n false r n)
  ∧ (∀ b ms r n, members fuel b = Some (ms, r) → reads b (S n) false r n)
  ∧ (∀ b vs r n, elements fuel b = Some (vs, r) → reads b (S n) false r n).
Proof.
  induction fuel as [|fuel (IHv & IHm & IHe)]; [done|].
  assert (W : ∀ b n r m, reads (skip_ws b) n false r m → reads b n false r m)
    by (intros b n r m; by apply reads_trans, reads_ws).
  split_and!.
  - intros b v r n H. apply W. cbn [value] in H. destruct (skip_ws b) as [|c t]; [done|].
    destruct (val c =? QUOTE) eqn:Eq.
    { apply bind_Some in H as ([s r'] & Hs & [= _ <-]). eapply reads_byte; [by apply skip_quote|by eapply reads_string]. }
    destruct (val c =? LBRACE) eqn:Eo.
    { eapply reads_byte; [apply skip_open; by rewrite Eo|]. destruct (skip_ws t) as [|d t'] eqn:Et; [done|].
      destruct (val d =? RBRACE) eqn:Ec; [|apply bind_Some in H as ([ms r'] & Hm & [= _ <-]); by eapply IHm].
      injection H as _ <-. apply W. rewrite Et. eapply reads_byte; [apply skip_close; by rewrite Ec|apply reads_refl]. }
    destruct (val c =? LBRACKET) eqn:Eb.
    { eapply reads_byte; [apply skip_open; by rewrite Eb, orb_true_r|]. destruct (skip_ws t) as [|d t'] eqn:Et; [done|].
      destruct (val d =? RBRACKET) eqn:Ec; [|apply bind_Some in H as ([ms r'] & Hm & [= _ <-]); by eapply IHe].
      injection H as _ <-. apply W. rewrite Et. eapply reads_byte; [apply skip_close; by rewrite Ec, orb_true_r|apply reads_refl]. }
    destruct (strip_prefix (lit "null") (c :: t)) eqn:E1; [injection H as _ <-; by eapply reads_word; [|exact E1]|].
    destruct (strip_prefix (lit "true") (c :: t)) eqn:E2; [injection H as _ <-; by eapply reads_word; [|exact E2]|].
    destruct (strip_prefix (lit "false") (c :: t)) eqn:E3; [injection H as _ <-; by eapply reads_word; [|exact E3]|].
    apply bind_Some in H as ([x r'] & Hx & [= _ <-]). by eapply reads_number.
  - intros b ms r n H. apply W. cbn [members] in H. destruct (skip_ws b) as [|c t]; [done|].
    destruct (val c =? QUOTE) eqn:Eq; [|done]. apply bind_Some in H as ([k t1] & Hk & H).
    eapply reads_byte; [by apply skip_quote|]. eapply reads_trans; [by eapply reads_string|]. apply W.
    destruct (skip_ws t1) as [|c1 t2]; [done|]. destruct (val c1 =? COLON) eqn:Ec; [|done].
    apply reads_ordinary; [by eapply ordinary_val|]. apply bind_Some in H as ([v t3] & Hv & H).
    eapply reads_trans; [by eapply IHv|]. apply W. destruct (skip_ws t3) as [|c2 t4]; [done|].
    destruct (val c2 =? COMMA) eqn:Em.
    + apply bind_Some in H as ([ms' t5] & Hm & [= _ <-]). eapply reads_byte; [by apply skip_comma|by eapply IHm].
    + destruct (val c2 =? RBRACE) eqn:Er; [|done]. injection H as _ <-.
      eapply reads_byte; [apply skip_close; by rewrite Er|apply reads_refl].
  - intros b vs r n H. cbn [elements] in H. apply bind_Some in H as ([v t] & Hv & H).
    eapply reads_trans; [by eapply IHv|]. apply W. destruct (skip_ws t) as [|c t1]; [done|].
    destruct (val c =? COMMA) eqn:Em.
    + apply bind_Some in H as ([ms' t5] & Hm & [= _ <-]). eapply reads_byte; [by apply skip_comma|by eapply IHe].
    + destruct (val c =? RBRACKET) eqn:Er; [|done]. injection H as _ <-.
      eapply reads_byte; [apply skip_close; by rewrite Er, orb_true_r|apply reads_refl].
Qed.

(** ** The scanner on an object *)
Definition first_member (field : bytes) (ms : list (bytes * json)) : option json :=
  snd <$> List.find (λ m, bytesEqual (fst m) field) ms.

Lemma skip_value_ws b n : skip_value b n false = skip_value (skip_ws b) n false.
Proof.
  induction b as [|c b IH]; [done|]. cbn [skip_ws]. destruct (is_ws c) eqn:E; [|done].
  rewrite skip_ordinary by (by apply ws_ordinary). done.
Qed.

Lemma scan_ordinary field c r : ordinary c = true → scan_all field 1 (c :: r) = scan_all field 1 r.
Proof.
  unfold ordinary. rewrite negb_true_iff. cbn [existsb]. rewrite !orb_false_iff. intros (H1 & H2 & _ & H4 & _).
  rewrite scan_step. by rewrite H1, H2, H4, andb_false_r.
Qed.

Lemma scan_ws field b : scan_all field 1 b = scan_all field 1 (skip_ws b).
Proof.
  induction b as [|c b IH]; [done|]. cbn [skip_ws]. destruct (is_ws c) eqn:E; [|done].
  by rewrite scan_ordinary by (by apply ws_ordinary).
Qed.

Lemma skip_ws_head b c r : skip_ws b = c :: r → is_ws c = false ∧ c :: r `suffix_of` b.
Proof.
  induction b as [|d b IH]; [done|]. cbn [skip_ws]. destruct (is_ws d) eqn:E; [|by intros [= -> ->]].
  intros [H1 H2]%IH. split; [done|by apply suffix_cons_r].
Qed.

(** The scanner's whitespace has the form feed too, which JSON has not. *)
Lemma skip_whitespace_ws b c r : skip_ws b = c :: r → val c ≠ 12 → skip_whitespace b = c :: r.
Proof.
  assert (D : ∀ d, is_ws d = true → is_ascii_whitespace d = true) by (intros d; destruct d; vm_compute; congruence).
  intros H Hc. induction b as [|d b IH]; [done|]. cbn [skip_ws skip_whitespace] in *.
  destruct (is_ws d) eqn:E; [rewrite D by done; by apply IH|]. injection H as -> ->.
  assert (is_ascii_whitespace c = false) as ->; [|done]. revert E Hc. destruct c; vm_compute; congruence.
Qed.

(** The first byte of a value says what it is. *)
Lemma value_head fuel b v r : value fuel b = Some (v, r) →
  ∃ c t, skip_ws b = c :: t ∧ val c ≠ 12
    ∧ ((val c = QUOTE ∧ ∃ s, v = JStr s ∧ string_body t None = Some (s, r)) ∨ (val c ≠ QUOTE ∧ ∀ s, v ≠ JStr s)).
Proof.
  destruct fuel as [|fuel]; [done|]. cbn [value]. destruct (skip_ws b) as [|c t] eqn:Eb; [done|]. intros H.
  exists c, t. split; [done|]. destruct (Z.eqb_spec (val c) QUOTE) as [Eq|Eq].
  { apply bind_Some in H as ([s r'] & Hs & [= <- <-]). split; [rewrite Eq; done|]. left. split; [done|by exists s]. }
  destruct (Z.eqb_spec (val c) 12) as [E12|E12].
  { assert (c = Byte.x0c) as -> by (apply val_inj; by rewrite E12). vm_compute in H. done. }
  split; [done|]. right. split; [done|]. intros s ->.
  destruct (val c =? LBRACE).
  { destruct (skip_ws t) as [|d t']; [done|]. destruct (val d =? RBRACE); [done|]. by apply bind_Some in H as ([ms r'] & _ & [=]). }
  destruct (val c =? LBRACKET).
  { destruct (skip_ws t) as [|d t']; [done|]. destruct (val d =? RBRACKET); [done|]. by apply bind_Some in H as ([ms r'] & _ & [=]). }
  repeat (destruct (strip_prefix _ _); [done|]). by apply bind_Some in H as ([x r'] & _ & [=]).
Qed.

(** Past the value of a field that is not wanted. *)
Lemma skip_other_value fuel b v r c t : value fuel b = Some (v, r) → skip_ws b = c :: t →
  (∃ d u, skip_ws r = d :: u ∧ (val d = COMMA ∨ val d = RBRACE)) →
  (r `suffix_of` b ∧ ∃ rest, skip_other (c :: t) = Ok rest ∧ skip_ws rest = skip_ws r)
  ∨ (skip_other (c :: t) = Throw PInvalidMessage ∧ has_backslash b).
Proof.
  intros Hv Ht (d & u & Hd & Hend). destruct (skip_ws_head _ _ _ Ht) as [_ Sb].
  destruct (value_head _ _ _ _ Hv) as (c' & t' & Ht' & _ & Hk). rewrite Ht in Ht'. injection Ht' as <- <-.
  unfold skip_other. destruct Hk as [[Eq (s & -> & Hs)]|[Ne _]].
  - rewrite Eq, Z.eqb_refl. destruct (quote_string _ _ _ Hs) as [[S [q ->]]|[-> Hb]]; cbn [mbind outcome_bind]; [left|right].
    + split; [|by exists r]. etrans; [exact S|]. etrans; [apply suffix_cons_l|done].
    + split; [done|]. eapply backslash_suffix; [|exact Hb]. etrans; [apply suffix_cons_l|done].
  - destruct (Z.eqb_spec (val c) QUOTE); [done|]. rewrite <- Ht, <- skip_value_ws.
    destruct (proj1 (reads_values fuel) b v r 0%nat Hv) as [[S ->]|[-> Hb]]; [left|by right].
    split; [done|]. rewrite skip_value_ws, Hd. exists (d :: u). split.
    + cbn [skip_value]. destruct Hend as [->| ->]; done.
    + destruct (skip_ws_head _ _ _ Hd) as [Hw _]. cbn [skip_ws]. by rewrite Hw.
Qed.

Definition scanned (field b r : bytes) (first : option json) : Prop :=
  (scan_all field 1 b = Throw PInvalidMessage ∧ has_backslash b)
  ∨ match first with
    | Some (JStr v) => scan_all field 1 b = Ok v
    | Some _ => scan_all field 1 b = Throw PInvalidMessage
    | None => r `suffix_of` b ∧ scan_all field 1 b = scan_all field 0 r
    end.

Lemma scan_members fuel b ms r field : members fuel b = Some (ms, r) → scanned field b r (first_member field ms).
Proof.
  revert b ms. induction fuel as [|fuel IH]; intros b ms; [done|]. cbn [members].
  destruct (skip_ws b) as [|c t] eqn:Eb; [done|]. destruct (val c =? QUOTE) eqn:Eq; [|done].
  intros ([k t1] & Hk & H)%bind_Some. destruct (skip_ws t1) as [|c1 t2] eqn:E1; [done|].
  destruct (val c1 =? COLON) eqn:Ec; [|done]. apply bind_Some in H as ([v t3] & Hv & H).
  destruct (skip_ws_head _ _ _ Eb) as [_ Sb]. assert (St : t `suffix_of` b) by (etrans; [apply suffix_cons_l|done]).
  assert (Estep : scan_all field 1 b = '(key, value) ← read_key t;
    if bytesEqual key field then read_string value else rest ← skip_other value; scan_all field 1 rest).
  { rewrite scan_ws, Eb, scan_step. apply Z.eqb_eq in Eq. by rewrite Eq. }
  unfold scanned. rewrite Estep. unfold read_key.
  destruct (quote_string _ _ _ Hk) as [[S1 [q Hq]]|[Hq Hb]]; rewrite Hq; cbn [mbind outcome_bind];
    [|left; split; [done|by eapply backslash_suffix]].
  rewrite (skip_whitespace_ws _ _ _ E1) by (apply Z.eqb_eq in Ec; rewrite Ec; done). rewrite Ec. cbn [negb].
  destruct (value_head _ _ _ _ Hv) as (c2 & t4 & E2 & Hff & Hkind). rewrite (skip_whitespace_ws _ _ _ E2 Hff).
  cbn [mbind outcome_bind].
  destruct (skip_ws_head _ _ _ E1) as [_ S2]. destruct (skip_ws_head _ _ _ E2) as [_ S3].
  assert (S4 : t2 `suffix_of` b) by (etrans; [apply suffix_cons_l|]; etrans; [exact S2|]; by etrans).
  assert (Hfirst : ∀ ms', first_member field ((k, v) :: ms') = if bytesEqual k field then Some v else first_member field ms').
  { intros ms'. unfold first_member. cbn [List.find fst]. by destruct (bytesEqual k field). }
  destruct (bytesEqual k field) eqn:Ek.
  { assert (first_member field ms = Some v) as ->.
    { destruct (skip_ws t3) as [|c3 t5]; [done|]. destruct (val c3 =? COMMA).
      - apply bind_Some in H as ([ms' t6] & _ & [= <- <-]). by rewrite Hfirst.
      - destruct (val c3 =? RBRACE); [|done]. injection H as <- <-. by rewrite Hfirst. }
    unfold read_string. destruct Hkind as [[Eq2 (s & -> & Hs)]|[Ne Hns]].
    - rewrite Eq2. cbn [negb]. change (QUOTE =? QUOTE) with true. cbn [negb].
      destruct (quote_string _ _ _ Hs) as [[S5 [q2 ->]]|[-> Hb]]; cbn [mbind outcome_bind]; [by right|left].
      split; [done|]. eapply backslash_suffix; [|exact Hb]. etrans; [apply suffix_cons_l|]. by etrans.
    - destruct (Z.eqb_spec (val c2) QUOTE); [done|]. cbn [negb]. right. destruct v; try done. by destruct (Hns s). }
  destruct (skip_ws t3) as [|c3 t5] eqn:E3; [done|]. destruct (skip_ws_head _ _ _ E3) as [_ S5].
  assert (Hend : val c3 = COMMA ∨ val c3 = RBRACE).
  { destruct (Z.eqb_spec (val c3) COMMA); [by left|]. destruct (Z.eqb_spec (val c3) RBRACE); [by right|done]. }
  destruct (skip_other_value _ _ _ _ _ _ Hv E2 (ex_intro _ c3 (ex_intro _ t5 (conj E3 Hend)))) as [[S6 (rest & -> & Hrest)]|[-> Hb]];
    cbn [mbind outcome_bind]; [|left; split; [done|by eapply backslash_suffix]].
  rewrite (scan_ws field rest), Hrest, E3.
  assert (S7 : t5 `suffix_of` b) by (etrans; [apply suffix_cons_l|]; etrans; [exact S5|]; by etrans).
  destruct (val c3 =? COMMA) eqn:Em.
  - apply bind_Some in H as ([ms' t6] & Hm & [= <- <-]). rewrite Hfirst.
    apply Z.eqb_eq in Em. rewrite scan_step, Em. cbn.
    destruct (IH _ _ Hm) as [[-> Hb]|Hs]; [left; split; [done|by eapply backslash_suffix]|]. right.
    destruct (first_member field ms') as [[]|]; try done. destruct Hs as [S8 Hs]. split; [by etrans|done].
  - destruct (val c3 =? RBRACE) eqn:Er; [|done]. injection H as <- <-. rewrite Hfirst. right. split; [done|].
    apply Z.eqb_eq in Er. by rewrite scan_step, Er.
Qed.

Lemma scan_blank field depth b : skip_ws b = [] → scan_all field depth b = Throw PInvalidMessage.
Proof.
  induction b as [|c b IH]; [done|]. cbn [skip_ws]. destruct (is_ws c) eqn:E; [|done]. intros H.
  apply ws_ordinary in E. unfold ordinary in E. rewrite negb_true_iff in E. cbn [existsb] in E.
  rewrite !orb_false_iff in E. destruct E as (H1 & H2 & _ & H4 & _).
  rewrite scan_step, H1, H2, H4, andb_false_r. by apply IH.
Qed.

Lemma extract_scan json c r field : skip_whitespace json = c :: r → val c = LBRACE →
  extract_top_level_string_field json field = scan_all field 1 r.
Proof.
  intros H Hc. unfold extract_top_level_string_field. pose proof (length_skip_whitespace json) as Hl.
  rewrite H in *. rewrite Hc. change (negb (LBRACE =? LBRACE)) with false. cbn iota.
  rewrite (scan_fuel _ (length (c :: r))) by (cbn in *; lia).
  change (scan (length (c :: r)) field 0 (c :: r)) with (scan_all field 0 (c :: r)). by rewrite scan_step, Hc.
Qed.

(** C5.  The scanner reads what [JSON.parse] reads.  Of every clientDataJSON that is the
    text of an object, a string it extracts is the first member of that name; and
    without a backslash in the text it extracts every first member that is a string.
    When the names are distinct, as in client data, that is the member JavaScript
    sees. *)
Theorem scanner_reads_json (cdj field : bytes) (ms : list (bytes * json)) :
  json_parse cdj = Some (JObj ms) →
  (∀ v, extract_top_level_string_field cdj field = Ok v → first_member field ms = Some (JStr v))
  ∧ (∀ v, ¬ has_backslash cdj → first_member field ms = Some (JStr v) →
       extract_top_level_string_field cdj field = Ok v)
  ∧ (NoDup ms.*1 → property (JObj ms) field = Ok (first_member field ms)).
Proof.
  intros H. unfold json_parse in H. apply bind_Some in H as ([v rest] & Hv & H).
  destruct (skip_ws rest) eqn:Erest; [|done]. injection H as ->.
  assert (Hscan : ∃ c r, skip_ws cdj = c :: r ∧ val c = LBRACE ∧ scanned field r rest (first_member field ms)).
  { cbn [value] in Hv. destruct (skip_ws cdj) as [|c r] eqn:E; [done|]. exists c, r. split; [done|].
    destruct (val c =? QUOTE); [by apply bind_Some in Hv as ([s r'] & _ & [=])|].
    destruct (Z.eqb_spec (val c) LBRACE) as [Ec|].
    - split; [done|]. destruct (skip_ws r) as [|d r'] eqn:Er; [done|]. destruct (Z.eqb_spec (val d) RBRACE) as [Ed|].
      + injection Hv as <- <-. right. cbn. destruct (skip_ws_head _ _ _ Er) as [_ S].
        split; [etrans; [apply suffix_cons_l|done]|]. by rewrite scan_ws, Er, scan_step, Ed.
      + apply bind_Some in Hv as ([ms' r''] & Hm & [= <- <-]). by eapply scan_members.
    - exfalso. destruct (val c =? LBRACKET).
      { destruct (skip_ws r) as [|d r']; [done|]. destruct (val d =? RBRACKET); [done|]. by apply bind_Some in Hv as ([x y] & _ & [=]). }
      repeat (destruct (strip_prefix _ _); [done|]). by apply bind_Some in Hv as ([x r'] & _ & [=]). }
  destruct Hscan as (c & r & Ec & Hc & Hs). destruct (skip_ws_head _ _ _ Ec) as [_ S].
  assert (Hsuf : r `suffix_of` cdj) by (etrans; [apply suffix_cons_l|done]).
  rewrite (extract_scan cdj c r) by (try apply skip_whitespace_ws; rewrite ?Hc; done).
  split_and!.
  - intros v Hok. destruct Hs as [[Ht _]|Hs]; [congruence|]. destruct (first_member field ms) as [[]|]; try congruence.
    destruct Hs as [_ Hs]. rewrite Hs, scan_blank in Hok by done. done.
  - intros v Hnb Hf. rewrite Hf in Hs. destruct Hs as [[_ Hb]|Hs]; [|done]. destruct Hnb. by eapply backslash_suffix.
  - intros Hnd. cbn [property]. unfold first_member. do 2 f_equal. clear -Hnd. induction ms as [|[k v] ms IH]; [done|].
    rewrite fmap_cons in Hnd. apply NoDup_cons in Hnd as [Hni Hnd]. rewrite reverse_cons. cbn [List.find fst].
    assert (Happ : ∀ (f : bytes * json → bool) l x, List.find f (l ++ [x]) = match List.find f l with Some y => Some y | None => if f x then Some x else None end).
    { intros f l x. induction l as [|y l IHl]; [done|]. cbn. by destruct (f y). }
    rewrite Happ, (IH Hnd). cbn [fst]. destruct (bytesEqual k field) eqn:Ek; [|by destruct (List.find _ ms)].
    apply bytesEqual_spec in Ek as ->. destruct (List.find _ ms) as [[k' v']|] eqn:Ef; [|done].
    apply List.find_some in Ef as [Hin Hk]. cbn in Hk. apply bytesEqual_spec in Hk as ->. destruct Hni.
    apply list_elem_of_fmap. exists (field, v'). split; [done|by apply list_elem_of_In].
Qed.

(** ** Client data as authenticators write it

    WebAuthn fixes its first two members, [type] and [challenge]; anything may follow. *)
Definition quoted (s : bytes) : bytes := [u8 QUOTE] ++ s ++ [u8 QUOTE].
Definition collected (challenge rest : bytes) : bytes :=
  [u8 LBRACE] ++ quoted (lit "type") ++ [u8 COLON] ++ quoted (lit "webauthn.get") ++ [u8 COMMA]
  ++ quoted (lit "challenge") ++ [u8 COLON] ++ quoted challenge ++ rest.

Lemma to_quote_plain s r : forallb plain s = true → to_quote (s ++ u8 QUOTE :: r) = Ok (s, u8 QUOTE :: r).
Proof.
  induction s as [|c s IH]; [done|]. cbn [forallb app to_quote]. intros [Hc Hs]%andb_true_iff.
  unfold plain in Hc. rewrite !andb_true_iff, !negb_true_iff in Hc. destruct Hc as [[-> ->] _]. by rewrite IH.
Qed.

Lemma read_key_quoted s r : forallb plain s = true → read_key (s ++ u8 QUOTE :: u8 COLON :: u8 QUOTE :: r) = Ok (s, u8 QUOTE :: r).
Proof. intros H. unfold read_key. rewrite to_quote_plain by done. done. Qed.

Lemma scan_string_member field key v r : forallb plain key = true → forallb plain v = true →
  scan_all field 1 (u8 QUOTE :: key ++ u8 QUOTE :: u8 COLON :: u8 QUOTE :: v ++ u8 QUOTE :: r)
  = if bytesEqual key field then Ok v else scan_all field 1 r.
Proof.
  intros Hk Hv. rewrite scan_step. change (val (u8 QUOTE)) with QUOTE. cbn [Nat.eqb].
  change (QUOTE =? LBRACE) with false. change (QUOTE =? RBRACE) with false. change (true && (QUOTE =? QUOTE)) with true.
  cbn iota. rewrite read_key_quoted by done. rewrite bind_ok. destruct (bytesEqual key field).
  - unfold read_string. change (negb (val (u8 QUOTE) =? QUOTE)) with false. cbn iota. by rewrite to_quote_plain.
  - unfold skip_other. change (val (u8 QUOTE) =? QUOTE) with true. cbn iota. by rewrite to_quote_plain.
Qed.

Lemma extract_collected challenge rest : forallb plain challenge = true →
  extract_top_level_string_field (collected challenge rest) (lit "type") = Ok (lit "webauthn.get")
  ∧ extract_top_level_string_field (collected challenge rest) (lit "challenge") = Ok challenge.
Proof.
  intros Hp.
  assert (E : collected challenge rest = u8 LBRACE :: u8 QUOTE :: lit "type" ++ u8 QUOTE :: u8 COLON :: u8 QUOTE
    :: lit "webauthn.get" ++ u8 QUOTE :: u8 COMMA :: u8 QUOTE :: lit "challenge" ++ u8 QUOTE :: u8 COLON :: u8 QUOTE
    :: challenge ++ u8 QUOTE :: rest).
  { unfold collected, quoted. rewrite <- !app_assoc. reflexivity. }
  rewrite E. split; (erewrite extract_scan; [|reflexivity|reflexivity]); rewrite scan_string_member by done; [done|].
  change (bytesEqual (lit "type") (lit "challenge")) with false. cbn iota. rewrite scan_step.
  change (val (u8 COMMA)) with COMMA. change (COMMA =? LBRACE) with false. change (COMMA =? RBRACE) with false.
  change ((1 =? 1)%nat && (COMMA =? QUOTE)) with false. cbn iota. by rewrite scan_string_member.
Qed.

(** ** base64url is injective *)
Lemma alphabet_inj i j : 0 <= i < 64 → 0 <= j < 64 → ALPHABET !!! Z.to_nat i = ALPHABET !!! Z.to_nat j → i = j.
Proof.
  assert (Hnd : NoDup ALPHABET) by (apply (bool_decide_unpack _); vm_compute; exact I).
  assert (Hl : length ALPHABET = 64%nat) by reflexivity. intros Hi Hj E.
  assert (Z.to_nat i = Z.to_nat j); [|lia].
  apply (NoDup_lookup _ _ _ (ALPHABET !!! Z.to_nat i) Hnd); [|rewrite E]; apply list_lookup_lookup_total_lt; lia.
Qed.

Lemma sextet_range b s : 0 <= sextet b s < 64.
Proof. unfold sextet. change 0x3f with (Z.ones 6). rewrite Z.land_ones by lia. by apply Z.mod_pos_bound. Qed.

Lemma sextet_div b s : 0 <= s → sextet b s = b / 2 ^ s mod 64.
Proof. intros Hs. unfold sextet. change 0x3f with (Z.ones 6). rewrite Z.land_ones, Z.shiftr_div_pow2 by lia. done. Qed.

Lemma symbol_inj b b' s : symbol b s = symbol b' s → sextet b s = sextet b' s.
Proof. apply alphabet_inj; apply sextet_range. Qed.

Lemma lor_shift a b k : 0 <= k → 0 <= b < 2 ^ k → Z.lor (Z.shiftl a k) b = a * 2 ^ k + b.
Proof.
  intros Hk Hb. rewrite Z.shiftl_mul_pow2 by done. rewrite <- (Z.add_0_r (Z.lor _ _)).
  replace 0 with (Z.land (a * 2 ^ k) b) at 1; [by rewrite Z.add_lor_land|].
  apply Z.bits_inj'. intros n Hn. rewrite Z.land_spec, Z.bits_0. destruct (Z.ltb_spec n k).
  - by rewrite Z.mul_pow2_bits_low.
  - destruct (decide (b = 0)) as [->|]; [by rewrite Z.bits_0, andb_false_r|].
    rewrite (Z.bits_above_log2 b n), andb_false_r; [done|lia|]. apply Z.log2_lt_pow2; [lia|].
    pose proof (Z.pow_le_mono_r 2 k n ltac:(lia) ltac:(lia)). lia.
Qed.

(** The three bytes of a group as one number. *)
Definition group (x y z : Z) : Z := x * 65536 + y * 256 + z.

Lemma group_lor x y z : 0 <= x < 256 → 0 <= y < 256 → 0 <= z < 256 →
  Z.lor (Z.lor (Z.shiftl x 16) (Z.shiftl y 8)) z = group x y z.
Proof.
  intros Hx Hy Hz. unfold group.
  rewrite (lor_shift x (Z.shiftl y 8) 16) by (rewrite ?Z.shiftl_mul_pow2 by lia; lia).
  rewrite Z.shiftl_mul_pow2 by lia.
  replace (x * 2 ^ 16 + y * 2 ^ 8) with ((x * 256 + y) * 2 ^ 8) by lia.
  rewrite <- Z.shiftl_mul_pow2 by lia. rewrite lor_shift by lia. lia.
Qed.

Lemma group_inj x y z x' y' z' :
  0 <= x < 256 → 0 <= y < 256 → 0 <= z < 256 → 0 <= x' < 256 → 0 <= y' < 256 → 0 <= z' < 256 →
  let b := group x y z in let b' := group x' y' z' in
  sextet b 18 = sextet b' 18 → sextet b 12 = sextet b' 12 →
  x = x' ∧ (sextet b 6 = sextet b' 6 → y = y' ∧ (sextet b 0 = sextet b' 0 → z = z')).
Proof.
  intros Hx Hy Hz Hx' Hy' Hz' b b'. rewrite !sextet_div by lia. subst b b'. unfold group.
  change (2 ^ 18) with 262144. change (2 ^ 12) with 4096. change (2 ^ 6) with 64. change (2 ^ 0) with 1.
  intros H18 H12. assert (x = x') as <- by (Z.div_mod_to_equations; lia). split; [done|]. intros H6.
  assert (y = y') as <- by (Z.div_mod_to_equations; lia). split; [done|]. intros H0. Z.div_mod_to_equations; lia.
Qed.

(** Two digests with the same text are the same. *)
Lemma base64url_inj a b : base64url_encode_no_pad a = base64url_encode_no_pad b → a = b.
Proof.
  assert (V : ∀ c, 0 <= val c < 256) by apply val_range.
  assert (G1 : ∀ x, Z.shiftl (val x) 16 = group (val x) 0 0)
    by (intros x; unfold group; rewrite Z.shiftl_mul_pow2 by lia; lia).
  assert (G2 : ∀ x y, Z.lor (Z.shiftl (val x) 16) (Z.shiftl (val y) 8) = group (val x) (val y) 0).
  { intros x y. rewrite <- group_lor by (try apply V; lia). by rewrite Z.lor_0_r. }
  revert b. induction a as [a IH] using (induction_ltof1 _ (@length _)); unfold ltof in IH. intros b.
  destruct a as [|x [|y [|z a]]], b as [|x' [|y' [|z' b]]]; cbn [base64url_encode_no_pad]; try done;
    rewrite ?group_lor, ?G2, ?G1 by apply V.
  - intros [= H1%symbol_inj H2%symbol_inj].
    destruct (group_inj (val x) 0 0 (val x') 0 0) as [E _]; try apply V; try lia; try done. by apply val_inj in E as ->.
  - intros [= H1%symbol_inj H2%symbol_inj H3%symbol_inj].
    destruct (group_inj (val x) (val y) 0 (val x') (val y') 0) as [E1 E2]; try apply V; try lia; try done.
    destruct (E2 H3) as [E3 _]. by apply val_inj in E1 as ->, E3 as ->.
  - intros [= H1%symbol_inj H2%symbol_inj H3%symbol_inj H4%symbol_inj H5].
    destruct (group_inj (val x) (val y) (val z) (val x') (val y') (val z')) as [E1 E2]; try apply V; try done.
    destruct (E2 H3) as [E3 E4]. specialize (E4 H4). apply val_inj in E1 as ->, E3 as ->, E4 as ->.
    do 3 f_equal. apply IH; [cbn; lia|done].
Qed.

Lemma symbol_plain b s : plain (symbol b s) = true.
Proof.
  assert (H : forallb plain ALPHABET = true) by reflexivity. rewrite forallb_forall in H. apply H.
  apply list_elem_of_In, (list_elem_of_lookup_2 _ (Z.to_nat (sextet b s))), list_lookup_lookup_total_lt.
  pose proof (sextet_range b s). change (length ALPHABET) with 64%nat. lia.
Qed.

Lemma base64url_plain a : forallb plain (base64url_encode_no_pad a) = true.
Proof.
  induction a as [a IH] using (induction_ltof1 _ (@length _)); unfold ltof in IH.
  destruct a as [|x [|y [|z a]]]; cbn [base64url_encode_no_pad forallb]; rewrite ?symbol_plain; [done..|].
  cbn [andb]. apply IH. cbn. lia.
Qed.

(** The encoder's and the scanner's own test vectors. *)
Example base64url_samples :
  base64url_encode_no_pad <$> [lit "f"; lit "fo"; lit "foo"; [u8 0xfb; u8 0xff; u8 0xfe]]
  = [lit "Zg"; lit "Zm8"; lit "Zm9v"; lit "-__-"].
Proof. vm_compute. reflexivity. Qed.

(** [{"tokenBinding":{"id":"x}y"},"challenge":"real"}] *)
Example scanner_nested :
  extract_top_level_string_field
    ([u8 LBRACE] ++ quoted (lit "tokenBinding") ++ lit ":{" ++ quoted (lit "id") ++ lit ":" ++ quoted (lit "x}y")
     ++ lit "}," ++ quoted (lit "challenge") ++ lit ":" ++ quoted (lit "real") ++ lit "}") (lit "challenge")
  = Ok (lit "real").
Proof. vm_compute. reflexivity. Qed.

Lemma scanner_reads_json_witness :
  let cdj := [u8 LBRACE] ++ quoted (lit "tokenBinding") ++ lit ":{" ++ quoted (lit "id") ++ lit ":" ++ quoted (lit "x}y")
             ++ lit "}," ++ quoted (lit "challenge") ++ lit ":" ++ quoted (lit "real") ++ lit "}" in
  ∃ ms, json_parse cdj = Some (JObj ms) ∧ extract_top_level_string_field cdj (lit "challenge") = Ok (lit "real")
        ∧ first_member (lit "challenge") ms = Some (JStr (lit "real")).
Proof.
  intros cdj. assert (H : ∃ ms, json_parse cdj = Some (JObj ms)) by (eexists; vm_compute; reflexivity). destruct H as [ms H].
  exists ms. split; [exact H|]. split; [vm_compute; reflexivity|].
  apply (proj1 (scanner_reads_json cdj (lit "challenge") ms H)). vm_compute. reflexivity.
Defined.

(** [{"challenge":"a","challenge":"b"}]: the scanner takes the first, JavaScript the
    last. *)
Example scanner_duplicates :
  let cdj := [u8 LBRACE] ++ quoted (lit "challenge") ++ lit ":" ++ quoted (lit "a") ++ lit "," ++ quoted (lit "challenge")
             ++ lit ":" ++ quoted (lit "b") ++ lit "}" in
  extract_top_level_string_field cdj (lit "challenge") = Ok (lit "a")
  ∧ (v ← json_parse cdj; match property v (lit "challenge") with Ok p => p | Throw _ => None end) = Some (JStr (lit "b")).
Proof. vm_compute. done. Qed.
