(* ===== verification/Ownership.v ===== *)
(** * Ownership proofs and message challenges

    Models src/sdk/sdk-kit/src/ownership.ts (verifying a WebAuthn assertion,
    recovering a passkey's key from assertions, picking the wallet to adopt)
    and src/sdk/sdk-kit/src/signedMessage.ts. *)
From S2P Require Import Prelude Bytes Kit Constants Builders Signing Json.
From Stdlib Require Import OrdersEx Sorted.
Local Open Scope Z_scope.

(** ** Challenges and their domains *)
Definition OWNERSHIP_PROOF_DOMAIN : string := "LazorKit ownership proof v1".
Definition OWNERSHIP_PROOF_TAG : bytes := utf8 OWNERSHIP_PROOF_DOMAIN.
Definition OWNERSHIP_PROOF_NONCE_LENGTH : nat := 32.
Definition SIGNED_MESSAGE_DOMAIN : string := "LazorKit signed message v1".
Definition SIGNED_MESSAGE_TAG : bytes := utf8 SIGNED_MESSAGE_DOMAIN.

(** [crypto.getRandomValues] fills the array it is given; its answer is an
    argument. *)
Definition createOwnershipChallenge (getRandomValues : bytes → bytes) : bytes :=
  getRandomValues (zeros 32).

Definition createTaggedOwnershipChallenge (getRandomValues : bytes → bytes) : bytes :=
  let challenge := zeros (length OWNERSHIP_PROOF_TAG + OWNERSHIP_PROOF_NONCE_LENGTH) in
  let challenge := set_at 0 OWNERSHIP_PROOF_TAG challenge in
  set_at (length OWNERSHIP_PROOF_TAG) (getRandomValues (zeros OWNERSHIP_PROOF_NONCE_LENGTH)) challenge.

(** A string, a view of bytes, or a value of another type. *)
Inductive SignedMessageInput :=
  | MessageString (s : string)
  | MessageView (b : bytes)
  | MessageOther.

Definition messageBytes (message : SignedMessageInput) : result bytes :=
  match message with
  | MessageString s => Ok (utf8 s)
  | MessageView b => Ok b
  | MessageOther => Throw ENotAMessage
  end.

(** The WebAuthn assertion a proof consists of. *)
Record OwnershipProof := mkProof {
  challenge : bytes;
  signature : bytes;
  authenticatorData : bytes;
  clientDataJson : bytes;
}.

Definition SIGNATURE_FORMATS : list sig_format := [Der; CompactSig].

(** [concat(a, b)]. *)
Definition concat2 (a b : bytes) : bytes :=
  set_at (length a) b (set_at 0 a (zeros (length a + length b))).

(** [.replace(/\+/g, '-').replace(/\//g, '_').replace(/=+$/, '')]. *)
Definition url_char (c : Byte.byte) : Byte.byte :=
  if val c =? 43 then u8 45 else if val c =? 47 then u8 95 else c.
Fixpoint strip_trailing_eq (b : bytes) : bytes :=
  match b with
  | [] => []
  | c :: r => match strip_trailing_eq r with
              | [] => if val c =? 61 then [] else [c]
              | r' => c :: r'
              end
  end.

Section ownership.
Context `{K : Kit}.

Definition signedMessageChallenge (message : SignedMessageInput) : result bytes :=
  bytes ← messageBytes message;
  let preimage := zeros (length SIGNED_MESSAGE_TAG + length bytes) in
  let preimage := set_at 0 SIGNED_MESSAGE_TAG preimage in
  let preimage := set_at (length SIGNED_MESSAGE_TAG) bytes preimage in
  let challenge := zeros (length SIGNED_MESSAGE_TAG + 32) in
  let challenge := set_at 0 SIGNED_MESSAGE_TAG challenge in
  Ok (set_at (length SIGNED_MESSAGE_TAG) (sha256 preimage) challenge).

Definition base64UrlNoPad (b : bytes) : bytes :=
  strip_trailing_eq (url_char <$> utf8 (base64_text b)).

(** The client data is a [webauthn.get] over exactly this challenge. *)
Definition client_data_matches (proof : OwnershipProof) : result bool :=
  clientData ← of_option (EExternal "SyntaxError") (json_parse (text_decode (clientDataJson proof)));
  type ← property clientData (lit "type");
  if negb (is_string type (lit "webauthn.get")) then Ok false else
  chal ← property clientData (lit "challenge");
  Ok (is_string chal (base64UrlNoPad (challenge proof))).

(** [Ok None] is a proof that fails a check, [Throw] one too malformed to read. *)
Definition assertionDigest (proof : OwnershipProof) (rpId : string) : result (option bytes) :=
  if (length (challenge proof) <? 16)%nat then Ok None else
  matches ← client_data_matches proof;
  if negb matches then Ok None else
  let authData := authenticatorData proof in
  if (length authData <? 37)%nat then Ok None else
  if negb (bytesEqual (slice 0 32 authData) (sha256 (utf8 rpId))) then Ok None else
  if Z.land (val (authData !!! 32%nat)) 1 =? 0 then Ok None else
  Ok (Some (sha256 (concat2 authData (sha256 (clientDataJson proof))))).

(** A [verify] that throws counts as [false]. *)
Definition p256Verifies (sig message publicKey : bytes) : bool :=
  existsb (λ format, match p256_verify format sig message publicKey with
                     | Some b => b | None => false end) SIGNATURE_FORMATS.

Definition verifyOwnershipProof {T} (publicKey : T → bytes) (candidates : list T)
    (proof : OwnershipProof) (rpId : string) : list T :=
  match assertionDigest proof rpId with
  | Ok (Some digest) => List.filter (λ c, p256Verifies (signature proof) digest (publicKey c)) candidates
  | Ok None | Throw _ => []
  end.

(** One recovery id of one reading of the signature: the key, if it is a new one. *)
Definition recover_one (recover : nat → bytes → option bytes) (sig digest : bytes) (keys : list bytes)
    (recovery : nat) : list bytes :=
  match recover recovery digest with
  | None => keys
  | Some key =>
    if negb (length key =? 33)%nat then keys
    else if negb (p256Verifies sig digest key) then keys
    else if negb (existsb (λ k, bytesEqual k key) keys) then keys ++ [key] else keys
  end.

Definition recover_format (sig digest : bytes) (keys : list bytes) (format : sig_format) : list bytes :=
  match p256_recover format sig with
  | None => keys
  | Some recover => fold_left (recover_one recover sig digest) (seq 0 4) keys
  end.

Definition recoverPasskeyPublicKeys (proof : OwnershipProof) (rpId : string) : list bytes :=
  match assertionDigest proof rpId with
  | Ok (Some digest) => fold_left (recover_format (signature proof) digest) SIGNATURE_FORMATS []
  | Ok None | Throw _ => []
  end.

(** Two proofs over the same challenge. *)
Fixpoint repeated_challenge (proofs : list OwnershipProof) : bool :=
  match proofs with
  | [] => false
  | p :: ps => existsb (λ q, bytesEqual (challenge p) (challenge q)) ps || repeated_challenge ps
  end.

Definition common_keys (rpId : string) (common : list bytes) (proof : OwnershipProof) : list bytes :=
  let keys := recoverPasskeyPublicKeys proof rpId in
  List.filter (λ c, existsb (λ k, bytesEqual k c) keys) common.

Definition resolvePasskeyPublicKey (proofs : list OwnershipProof) (rpId : string) : option bytes :=
  match proofs with
  | first :: _ :: _ =>
    if repeated_challenge proofs then None else
    match fold_left (common_keys rpId) (drop 1 proofs) (recoverPasskeyPublicKeys first rpId) with
    | [key] => Some key
    | _ => None
    end
  | _ => None
  end.

(** ** Wallet facts *)
Inductive AuthorityRoleName := RoleOwner | RoleAdmin | RoleSpender | RoleUnknown.

Record PasskeyWalletCandidate := mkCandidate {
  c_version : Z;
  c_programId : address;
  c_walletPda : address;
  c_vaultPda : address;
  c_authorityPda : address;
  c_publicKey : bytes;
}.

(** An Ed25519 authority has a key, unless its account is too short to hold
    one; a passkey authority a relying party. *)
Inductive AuthorityKind :=
  | KindEd25519 (publicKey : option address)
  | KindSecp256r1 (sameRelyingParty : bool).

Record OtherAuthority := mkOther {
  oa_authorityPda : address;
  oa_kind : AuthorityKind;
  oa_role : AuthorityRoleName;
  oa_trusted : bool;
}.

Record LiveSession := mkLive {
  ls_sessionPda : address;
  ls_sessionKey : address;
  ls_expiresAtSlot : Z;
  ls_trusted : bool;
}.

Record PendingDeferred := mkPending {
  pd_deferredPda : address;
  pd_authorizedBy : address;
  pd_expiresAtSlot : Z;
  pd_trusted : bool;
}.

Inductive GrantKind := GrantDelegate | GrantCloseAuthority | GrantOwner | GrantUnreadable.

Record TokenGrant := mkGrant {
  tg_tokenAccount : address;
  tg_tokenProgram : address;
  tg_mint : option address;
  tg_kind : GrantKind;
  tg_grantee : option address;
  tg_trusted : bool;
}.

Record WalletFacts := mkFacts {
  wf_candidate : PasskeyWalletCandidate;
  wf_lamports : Z;
  wf_slot : Z;
  wf_otherAuthorities : list OtherAuthority;
  wf_liveSessions : list LiveSession;
  wf_pendingDeferred : list PendingDeferred;
  wf_vaultIsSystemAccount : bool;
  wf_tokenGrants : list TokenGrant;
  wf_controlledAlone : bool;
  wf_signatureCount : Z;
}.

Definition wf_walletPda (f : WalletFacts) : address := c_walletPda (wf_candidate f).
Definition wf_version (f : WalletFacts) : Z := c_version (wf_candidate f).
Definition signed_for (f : WalletFacts) : bool := 0 <? wf_signatureCount f.

(** [a < b] and [a > b] on the address strings. *)
Definition compare_strings (a b : string) : Z :=
  match String.compare a b with Lt => -1 | Gt => 1 | Eq => 0 end.

Definition compareFacts (a b : WalletFacts) : Z :=
  let signed := Z.b2z (signed_for b) - Z.b2z (signed_for a) in
  if negb (signed =? 0) then signed
  else if negb (wf_version a =? wf_version b) then wf_version a - wf_version b
  else if negb (wf_lamports a =? wf_lamports b) then
    if wf_lamports b <? wf_lamports a then -1 else 1
  else compare_strings (address_string (wf_walletPda a)) (address_string (wf_walletPda b)).

(** [Array.prototype.sort] with a comparator: the language asks for a stable
    sorted permutation, which insertion computes. *)
Fixpoint sort_insert {A} (cmp : A → A → Z) (x : A) (l : list A) : list A :=
  match l with
  | [] => [x]
  | y :: l' => if cmp x y <? 0 then x :: l else y :: sort_insert cmp x l'
  end.
Definition js_sort {A} (cmp : A → A → Z) (l : list A) : list A :=
  fold_left (λ acc x, sort_insert cmp x acc) l [].

Definition pickOwnWallet (facts : list WalletFacts) : option WalletFacts * list WalletFacts :=
  let ordered := js_sort compareFacts facts in
  match List.filter signed_for ordered with
  | [f] => if wf_controlledAlone f then (Some f, []) else (None, ordered)
  | _ => (None, ordered)
  end.

(** The address asked for is text: it need not be an [Address]. *)
Definition selectWalletByAddress {T} (walletPda vaultPda : T → address) (candidates : list T)
    (addr : string) : option T :=
  List.find (λ c, String.eqb (address_string (vaultPda c)) addr
                  || String.eqb (address_string (walletPda c)) addr) candidates.
End ownership.

(** ** Sorting *)
Section sorting.
Context {A : Type} (cmp : A → A → Z).

(** A comparator [sort] may be given: a total preorder, its sign antisymmetric. *)
Class Comparator := {
  cmp_flip : ∀ x y, cmp x y < 0 ↔ 0 < cmp y x;
  cmp_trans : ∀ x y z, cmp x y <= 0 → cmp y z <= 0 → cmp x z <= 0;
}.
Context `{C : Comparator}.

Definition cmp_le (x y : A) : Prop := cmp x y <= 0.

Lemma cmp_le_of_not_lt x y : ¬ cmp x y < 0 → cmp_le y x.
Proof. unfold cmp_le. rewrite cmp_flip. lia. Qed.

#[export] Instance cmp_le_trans : Transitive cmp_le.
Proof. intros x y z. apply cmp_trans. Qed.

Lemma sort_insert_perm x l : sort_insert cmp x l ≡ₚ x :: l.
Proof.
  induction l as [|y l IH]; simpl; [done|]. destruct (_ <? 0); [done|]. rewrite IH.
  apply Permutation_swap.
Qed.

Lemma sort_insert_sorted x l : StronglySorted cmp_le l → StronglySorted cmp_le (sort_insert cmp x l).
Proof.
  induction 1 as [|y l Hs IH Hall]; simpl; [by repeat constructor|].
  destruct (Z.ltb_spec (cmp x y) 0) as [Hlt|Hge].
  - constructor; [by constructor|]. constructor; [unfold cmp_le; lia|].
    eapply Forall_impl; [exact Hall|]. intros z Hz. eapply cmp_trans; [|exact Hz]. lia.
  - constructor; [done|]. rewrite sort_insert_perm. constructor; [|done].
    apply cmp_le_of_not_lt. lia.
Qed.

Lemma js_sort_acc l acc : fold_left (λ acc x, sort_insert cmp x acc) l acc ≡ₚ acc ++ l.
Proof.
  revert acc. induction l as [|x l IH]; intros acc; simpl; [by rewrite app_nil_r|].
  rewrite IH, sort_insert_perm. simpl. apply Permutation_middle.
Qed.

Lemma js_sort_perm l : js_sort cmp l ≡ₚ l.
Proof. apply (js_sort_acc l []). Qed.

Lemma js_sort_sorted l : StronglySorted cmp_le (js_sort cmp l).
Proof.
  unfold js_sort. assert (H : StronglySorted cmp_le (@nil A)) by constructor.
  revert H. generalize (@nil A). induction l as [|x l IH]; intros acc H; simpl; [done|].
  by apply IH, sort_insert_sorted.
Qed.

(** Two sorted lists of the same elements agree when ties are equal elements. *)
Lemma sorted_unique l k :
  (∀ x y, x ∈ l → y ∈ l → cmp_le x y → cmp_le y x → x = y) →
  StronglySorted cmp_le l → StronglySorted cmp_le k → l ≡ₚ k → l = k.
Proof.
  intros Hanti Hl. revert k Hanti. induction Hl as [|x l Hl IH Hx]; intros k Hanti Hk Hp.
  { symmetry in Hp. by apply Permutation_nil_r in Hp as ->. }
  destruct Hk as [|y k Hk Hy]; [by apply Permutation_nil_r in Hp|].
  assert (x = y) as ->.
  { assert (Hxk : x ∈ y :: k) by (rewrite <- Hp; set_solver).
    assert (Hyl : y ∈ x :: l) by (rewrite Hp; set_solver).
    apply elem_of_cons in Hxk as [->|Hxk]; [done|].
    apply elem_of_cons in Hyl as [->|Hyl]; [done|].
    rewrite Forall_forall in Hx, Hy. apply Hanti; set_solver. }
  f_equal. apply Permutation_cons_inv in Hp. apply IH; [|done|done]. set_solver.
Qed.
End sorting.
Arguments Comparator {A} cmp.

Section compare_facts.
Context `{KL : KitLaws}.

Lemma compare_strings_flip a b : compare_strings a b = - compare_strings b a.
Proof. unfold compare_strings. rewrite String.compare_antisym. by destruct (String.compare b a). Qed.

Lemma compare_strings_eq a b : compare_strings a b = 0 → a = b.
Proof.
  unfold compare_strings. destruct (String.compare a b) eqn:E; try lia. intros _.
  by apply String.compare_eq_iff.
Qed.

Lemma compare_strings_trans a b c :
  compare_strings a b <= 0 → compare_strings b c <= 0 → compare_strings a c <= 0.
Proof.
  unfold compare_strings. intros Hab Hbc.
  destruct (String.compare a b) eqn:E1; try lia; destruct (String.compare b c) eqn:E2; try lia.
  - apply String.compare_eq_iff in E1, E2. subst.
    destruct (String.compare c c) eqn:E; try lia.
    pose proof (String.compare_antisym c c) as Ha. rewrite E in Ha. discriminate Ha.
  - apply String.compare_eq_iff in E1. subst. by rewrite E2.
  - apply String.compare_eq_iff in E2. subst. by rewrite E1.
  - assert (H : String_as_OT.lt a c) by (etrans; [exact E1 | exact E2]).
    unfold String_as_OT.lt in H. change (String.compare a c = Lt) in H. by rewrite H.
Qed.

#[export] Instance compareFacts_comparator : Comparator compareFacts.
Proof.
  split.
  - intros a b. unfold compareFacts. pose proof (compare_strings_flip
      (address_string (wf_walletPda a)) (address_string (wf_walletPda b))).
    destruct (signed_for a), (signed_for b); simpl; try lia;
    destruct (Z.eqb_spec (wf_version a) (wf_version b)), (Z.eqb_spec (wf_version b) (wf_version a));
      simpl; try lia;
    destruct (Z.eqb_spec (wf_lamports a) (wf_lamports b)), (Z.eqb_spec (wf_lamports b) (wf_lamports a));
      simpl; try lia;
    destruct (Z.ltb_spec (wf_lamports b) (wf_lamports a)), (Z.ltb_spec (wf_lamports a) (wf_lamports b));
      simpl; try lia.
  - intros a b c. unfold compareFacts. pose proof (compare_strings_trans
      (address_string (wf_walletPda a)) (address_string (wf_walletPda b))
      (address_string (wf_walletPda c))).
    destruct (signed_for a), (signed_for b), (signed_for c); simpl; try lia;
    destruct (Z.eqb_spec (wf_version a) (wf_version b)), (Z.eqb_spec (wf_version b) (wf_version c)),
      (Z.eqb_spec (wf_version a) (wf_version c)); simpl; try lia;
    destruct (Z.eqb_spec (wf_lamports a) (wf_lamports b)), (Z.eqb_spec (wf_lamports b) (wf_lamports c)),
      (Z.eqb_spec (wf_lamports a) (wf_lamports c)); simpl; try lia;
    destruct (Z.ltb_spec (wf_lamports b) (wf_lamports a)), (Z.ltb_spec (wf_lamports c) (wf_lamports b)),
      (Z.ltb_spec (wf_lamports c) (wf_lamports a)); simpl; try lia.
Qed.

Lemma compareFacts_tie a b :
  cmp_le compareFacts a b → cmp_le compareFacts b a → wf_walletPda a = wf_walletPda b.
Proof.
  unfold cmp_le. intros H1 H2.
  assert (H0 : compareFacts a b = 0).
  { destruct (Z_lt_le_dec (compareFacts a b) 0) as [H|]; [|lia]. rewrite (cmp_flip compareFacts) in H. lia. }
  revert H0. unfold compareFacts.
  destruct (signed_for a), (signed_for b); simpl; try lia;
  destruct (Z.eqb_spec (wf_version a) (wf_version b)); simpl; try lia;
  destruct (Z.eqb_spec (wf_lamports a) (wf_lamports b)); simpl; try lia;
  try (destruct (_ <? _); simpl; lia).
  all: intros H%compare_strings_eq; by apply address_string_inj.
Qed.
End compare_facts.

(** ** Picking a wallet *)
Section pick.
Context `{KL : KitLaws}.

Abbreviation sorted_facts := (StronglySorted (cmp_le compareFacts)).

Lemma pick_cases facts :
  let signed := List.filter signed_for facts in
  match pickOwnWallet facts with
  | (Some f, rest) => signed = [f] ∧ wf_controlledAlone f = true ∧ rest = []
  | (None, rest) =>
      (∀ f, signed = [f] → wf_controlledAlone f = false) ∧ rest = js_sort compareFacts facts
  end.
Proof.
  intros signed. unfold pickOwnWallet.
  assert (Hp : List.filter signed_for (js_sort compareFacts facts) ≡ₚ signed).
  { unfold signed. by rewrite (js_sort_perm compareFacts facts). }
  destruct (List.filter signed_for (js_sort compareFacts facts)) as [|f [|g l]] eqn:E.
  - symmetry in Hp. apply Permutation_nil_r in Hp. rewrite Hp. split; done.
  - symmetry in Hp. apply Permutation_singleton_r in Hp. rewrite Hp.
    destruct (wf_controlledAlone f) eqn:Hf; [done|]. split; [|done]. intros ? [= <-]. done.
  - split; [|done]. intros h ->. apply Permutation_length in Hp. discriminate Hp.
Qed.

(** A wallet is adopted exactly when it is the only one in the list the
    passkey has signed for and nothing else controls it; then nothing is left
    to confirm.  Otherwise every wallet goes to the user, each exactly once,
    ordered by signed-for, version, balance and address. *)
Theorem pickOwnWallet_spec (facts : list WalletFacts) :
  (∀ f, (pickOwnWallet facts).1 = Some f ↔
     List.filter signed_for facts = [f] ∧ wf_controlledAlone f = true)
  ∧ match pickOwnWallet facts with
    | (Some _, rest) => rest = []
    | (None, rest) => rest ≡ₚ facts ∧ sorted_facts rest
    end.
Proof.
  pose proof (pick_cases facts) as H. simpl in H.
  destruct (pickOwnWallet facts) as [[f|] rest]; simpl.
  - destruct H as (Hs & Hc & ->). split; [|done]. intros g. rewrite Hs. naive_solver.
  - destruct H as (Hs & ->). split.
    + intros f. split; [done|]. intros [Hf Ha]. rewrite (Hs f Hf) in Ha. done.
    + split; [apply (js_sort_perm compareFacts) | apply (js_sort_sorted compareFacts)].
Qed.

(** The answer does not depend on the order the chain listed the wallets
    in: any permutation of facts about distinct wallets gives the same answer. *)
Theorem pickOwnWallet_order_independent (facts facts' : list WalletFacts) :
  NoDup (wf_walletPda <$> facts) → facts ≡ₚ facts' → pickOwnWallet facts = pickOwnWallet facts'.
Proof.
  intros Hnd Hp.
  assert (Hs : js_sort compareFacts facts = js_sort compareFacts facts').
  { apply (sorted_unique compareFacts).
    - intros x y Hx Hy H1 H2. rewrite (js_sort_perm compareFacts facts) in Hx, Hy.
      apply list_elem_of_lookup in Hx as [i Hi]. apply list_elem_of_lookup in Hy as [j Hj].
      assert (i = j) as ->; [|congruence].
      eapply NoDup_lookup; [exact Hnd | |];
        rewrite list_lookup_fmap; [rewrite Hi | rewrite Hj]; simpl; [done|].
      f_equal. symmetry. by apply compareFacts_tie.
    - apply (js_sort_sorted compareFacts).
    - apply (js_sort_sorted compareFacts).
    - by rewrite !js_sort_perm. }
  unfold pickOwnWallet. by rewrite Hs.
Qed.
End pick.

(** ** Verifying an assertion *)
Section verify.
Context `{KL : KitLaws}.

Lemma concat2_app a b : concat2 a b = a ++ b.
Proof.
  unfold concat2. change (zeros (length a + length b)) with ([] ++ zeros (length a + length b)).
  rewrite set_at_zeros by (done || lia). rewrite set_at_zeros by (rewrite ?length_app; simpl; lia).
  replace (length a + length b - length a - length b)%nat with 0%nat by lia.
  simpl. by rewrite app_nil_r.
Qed.

(** What a genuine assertion is: over this challenge, under this relying party,
    with the user present. *)
Definition genuine (proof : OwnershipProof) (rpId : string) : Prop :=
  (16 <= length (challenge proof))%nat
  ∧ (∃ v, json_parse (text_decode (clientDataJson proof)) = Some v
       ∧ property v (lit "type") = Ok (Some (JStr (lit "webauthn.get")))
       ∧ property v (lit "challenge") = Ok (Some (JStr (base64UrlNoPad (challenge proof)))))
  ∧ (37 <= length (authenticatorData proof))%nat
  ∧ take 32 (authenticatorData proof) = sha256 (utf8 rpId)
  ∧ Z.testbit (val (authenticatorData proof !!! 32%nat)) 0 = true.

Definition signed_digest (proof : OwnershipProof) : bytes :=
  sha256 (authenticatorData proof ++ sha256 (clientDataJson proof)).

Lemma is_string_true v s : is_string v s = true ↔ v = Some (JStr s).
Proof.
  unfold is_string. destruct v as [[]|]; split; try done.
  - intros ->%bytesEqual_spec. done.
  - intros [= ->]. apply bytesEqual_refl.
Qed.

Lemma land_1 z : (Z.land z 1 =? 0) = negb (Z.testbit z 0).
Proof.
  change 1 with (Z.ones 1). rewrite Z.land_ones by lia. change (2 ^ 1) with 2.
  rewrite Z.bit0_odd, Zmod_odd. by destruct (Z.odd z).
Qed.

Lemma client_data_matches_iff proof :
  client_data_matches proof = Ok true ↔
  ∃ v, json_parse (text_decode (clientDataJson proof)) = Some v
       ∧ property v (lit "type") = Ok (Some (JStr (lit "webauthn.get")))
       ∧ property v (lit "challenge") = Ok (Some (JStr (base64UrlNoPad (challenge proof)))).
Proof.
  unfold client_data_matches. destruct (json_parse _) as [v|]; cbn [of_option].
  2:{ split; [done|]. by intros (? & ? & _). }
  rewrite bind_ok. split.
  - intros (t & Ht & H)%bind_inv. exists v. split; [done|].
    destruct (is_string t _) eqn:Es; [|done]. apply is_string_true in Es as ->. cbn [negb] in H.
    apply bind_inv in H as (c & Hc & [= Ec]). apply is_string_true in Ec as ->. done.
  - intros (? & [= <-] & -> & ->). rewrite !bind_ok.
    rewrite (proj2 (is_string_true _ _)) by done. cbn [negb].
    by rewrite (proj2 (is_string_true _ _)).
Qed.

Lemma assertionDigest_iff proof rpId d :
  assertionDigest proof rpId = Ok (Some d) ↔ genuine proof rpId ∧ d = signed_digest proof.
Proof.
  unfold assertionDigest, genuine, signed_digest, slice.
  rewrite drop_0, land_1, concat2_app, <- client_data_matches_iff.
  destruct (Nat.ltb_spec (length (challenge proof)) 16);
    [split; [done|]; intros ((? & _) & _); lia|].
  destruct (client_data_matches proof) as [[]|]; rewrite ?bind_ok; cbn [negb].
  2-3: split; [done|]; by intros ((_ & ? & _) & _).
  destruct (Nat.ltb_spec (length (authenticatorData proof)) 37);
    [split; [done|]; intros ((_ & _ & ? & _) & _); lia|].
  destruct (bytesEqual (take _ _) _) eqn:Hb; cbn [negb].
  2:{ apply bytesEqual_false in Hb. split; [done|]. intros ((_ & _ & _ & ? & _) & _). done. }
  apply bytesEqual_spec in Hb. destruct (Z.testbit _ _); cbn [negb].
  - split; [intros [= <-]; eauto 10 | by intros (_ & ->)].
  - split; [done|]. by intros ((_ & _ & _ & _ & ?) & _).
Qed.

Lemma p256Verifies_iff sig d k :
  p256Verifies sig d k = true ↔ ∃ f, p256_verify f sig d k = Some true.
Proof.
  unfold p256Verifies. rewrite existsb_Exists. split.
  - intros (f & _ & H). exists f. by destruct (p256_verify f sig d k) as [[]|].
  - intros (f & H). exists f. rewrite H. split; [destruct f; set_solver | done].
Qed.

Lemma verifyOwnershipProof_in {T} (publicKey : T → bytes) (candidates : list T)
    (proof : OwnershipProof) (rpId : string) (c : T) :
  c ∈ verifyOwnershipProof publicKey candidates proof rpId ↔
  c ∈ candidates ∧ genuine proof rpId
  ∧ ∃ f, p256_verify f (signature proof) (signed_digest proof) (publicKey c) = Some true.
Proof.
  unfold verifyOwnershipProof.
  destruct (assertionDigest proof rpId) as [[d|]|e] eqn:E.
  - apply assertionDigest_iff in E as [Hg ->].
    rewrite elem_of_filter_bool, p256Verifies_iff. naive_solver.
  - split; [set_solver|]. intros (_ & Hg & _).
    assert (assertionDigest proof rpId = Ok (Some (signed_digest proof)))
      by (by apply assertionDigest_iff). congruence.
  - split; [set_solver|]. intros (_ & Hg & _).
    assert (assertionDigest proof rpId = Ok (Some (signed_digest proof)))
      by (by apply assertionDigest_iff). congruence.
Qed.

(** C40.  A candidate is kept exactly when the assertion is genuine (over the
    caller's challenge of at least 16 bytes, under the relying party, user
    present) and the candidate's stored key verifies its signature over
    authenticatorData followed by the hash of the client data. *)
Theorem verifyOwnershipProof_iff {T} (publicKey : T → bytes) (candidates : list T)
    (proof : OwnershipProof) (rpId : string) (c : T) :
  c ∈ verifyOwnershipProof publicKey candidates proof rpId ↔
  c ∈ candidates ∧ genuine proof rpId
  ∧ ∃ f, p256_verify f (signature proof) (signed_digest proof) (publicKey c) = Some true.
Proof. apply verifyOwnershipProof_in. Qed.

(** *** What a browser produces *)
Lemma plain_url_char c : base64_char c = true → plain (url_char c) = true.
Proof. destruct c; vm_compute; done. Qed.

Lemma strip_plain l : forallb plain l = true → forallb plain (strip_trailing_eq l) = true.
Proof.
  induction l as [|c l IH]; [done|]. cbn [forallb strip_trailing_eq]. intros H. bool_split.
  destruct (strip_trailing_eq l) eqn:E.
  - destruct (val c =? 61); [done|]. simpl. by rewrite H.
  - cbn [forallb] in *. rewrite H. simpl. by apply IH.
Qed.

Lemma base64Url_plain b : forallb plain (base64UrlNoPad b) = true.
Proof.
  apply strip_plain. pose proof (base64_alphabet b) as H.
  induction (utf8 (base64_text b)) as [|c l IH]; [done|]. rewrite fmap_cons. cbn [forallb] in *.
  bool_split. rewrite plain_url_char by done. by apply IH.
Qed.

Lemma property_head ms name v m :
  m = (name, v) → forallb (λ m, negb (bytesEqual (fst m) name)) ms = true →
  property (JObj (m :: ms)) name = Ok (Some v).
Proof.
  intros -> H. unfold property. rewrite reverse_cons. do 2 f_equal.
  assert (Hr : forallb (λ m, negb (bytesEqual (fst m) name)) (reverse ms) = true).
  { rewrite !forallb_Forall in *. by rewrite Forall_reverse. }
  induction (reverse ms) as [|m l IH]; simpl in *.
  - by rewrite bytesEqual_refl.
  - bool_split. destruct (bytesEqual (fst m) name); [done|]. by apply IH.
Qed.

Lemma property_skip ms name v k :
  k ≠ name → property (JObj ((k, v) :: ms)) name = property (JObj ms) name.
Proof.
  intros H. unfold property. rewrite reverse_cons. do 2 f_equal.
  induction (reverse ms) as [|m l IH]; simpl.
  - apply bytesEqual_false in H. by rewrite H.
  - destruct (bytesEqual (fst m) name); [done|]. apply IH.
Qed.

(** Client data as WebAuthn serialises it: type, challenge, then the rest. *)
Definition client_data (ch : bytes) (more : list (bytes * json)) : bytes :=
  print_object ((lit "type", JStr (lit "webauthn.get"))
                :: (lit "challenge", JStr (base64UrlNoPad ch)) :: more).

Definition other_member (m : bytes * json) : bool :=
  printable_member m && negb (bytesEqual (fst m) (lit "type"))
  && negb (bytesEqual (fst m) (lit "challenge")).

Lemma client_data_genuine ch sig ad more rpId :
  (16 <= length ch)%nat → forallb other_member more = true → (37 <= length ad)%nat →
  take 32 ad = sha256 (utf8 rpId) → Z.testbit (val (ad !!! 32%nat)) 0 = true →
  genuine (mkProof ch sig ad (client_data ch more)) rpId.
Proof.
  intros Hch Hmore Had Hrp Hup. unfold genuine. cbn [challenge authenticatorData clientDataJson].
  split; [done|]. split; [|done].
  assert (Hall : forallb printable_member more = true
    ∧ forallb (λ m, negb (bytesEqual (fst m) (lit "type"))) more = true
    ∧ forallb (λ m, negb (bytesEqual (fst m) (lit "challenge"))) more = true).
  { rewrite !forallb_Forall in *. unfold other_member in Hmore.
    repeat split; eapply Forall_impl; [exact Hmore | | exact Hmore | | exact Hmore |];
      intros m Hm; cbv beta in *; bool_split; rewrite ?negb_true_iff; done. }
  destruct Hall as (Hp & Ht & Hc).
  eexists. split; [|split].
  - change (text_decode (client_data ch more)) with (client_data ch more).
    unfold client_data. apply json_parse_print; [done|]. cbn [forallb]. rewrite Hp.
    unfold printable_member. cbn [fst snd printable]. by rewrite base64Url_plain.
  - apply property_head; [done|]. cbn [forallb fst]. by rewrite Ht.
  - rewrite property_skip by done. by apply property_head.
Qed.

(** Completeness for what browsers produce: client data that names the
    type and the challenge and any further plain members, authenticator data
    that starts with the relying party's hash and has the user-present bit, and
    a signature that verifies in either encoding, is accepted. *)
Theorem browser_assertion_accepted (ch sig ad key : bytes) (more : list (bytes * json))
    (rpId : string) (f : sig_format) :
  (16 <= length ch)%nat → forallb other_member more = true → (37 <= length ad)%nat →
  take 32 ad = sha256 (utf8 rpId) → Z.testbit (val (ad !!! 32%nat)) 0 = true →
  p256_verify f sig (sha256 (ad ++ sha256 (client_data ch more))) key = Some true →
  verifyOwnershipProof id [key] (mkProof ch sig ad (client_data ch more)) rpId = [key].
Proof.
  intros Hch Hmore Had Hrp Hup Hsig. unfold verifyOwnershipProof.
  rewrite (proj2 (assertionDigest_iff _ rpId (signed_digest (mkProof ch sig ad (client_data ch more)))))
    by (split; [by apply client_data_genuine | done]).
  cbn [List.filter signature]. rewrite (proj2 (p256Verifies_iff _ _ _)); [done|]. by exists f.
Qed.
End verify.

(** ** Recovering the key *)
Section recover.
Context `{KL : KitLaws}.

(** What holds of the keys collected so far. *)
Definition keys_inv (sig digest : bytes) (keys : list bytes) : Prop :=
  NoDup keys ∧ Forall (λ k, length k = 33%nat ∧ p256Verifies sig digest k = true) keys.

Lemma existsb_bytesEqual k keys : existsb (λ x, bytesEqual x k) keys = true ↔ k ∈ keys.
Proof.
  rewrite existsb_Exists. split.
  - intros (x & Hx & ->%bytesEqual_spec). done.
  - intros H. exists k. by rewrite bytesEqual_refl.
Qed.

Lemma recover_one_inv recover sig digest keys i :
  keys_inv sig digest keys → keys_inv sig digest (recover_one recover sig digest keys i).
Proof.
  intros [Hnd Hall]. unfold recover_one. destruct (recover i digest) as [key|]; [|done].
  destruct (Nat.eqb_spec (length key) 33); [|done]. cbn [negb].
  destruct (p256Verifies sig digest key) eqn:Hv; [|done]. cbn [negb].
  destruct (existsb _ keys) eqn:He; [done|]. cbn [negb]. split.
  - apply NoDup_app. split; [done|]. split; [|apply NoDup_singleton].
    intros x Hx ->%list_elem_of_singleton. apply existsb_bytesEqual in Hx. congruence.
  - apply Forall_app. split; [done|]. by constructor.
Qed.

Lemma fold_left_inv {A B} (P : A → Prop) (f : A → B → A) l a :
  (∀ a b, P a → P (f a b)) → P a → P (fold_left f l a).
Proof. intros Hf. revert a. induction l as [|b l IH]; intros a Ha; simpl; auto. Qed.

Lemma recover_format_inv sig digest keys f :
  keys_inv sig digest keys → keys_inv sig digest (recover_format sig digest keys f).
Proof.
  intros H. unfold recover_format. destruct (p256_recover f sig); [|done].
  apply fold_left_inv; [|done]. intros. by apply recover_one_inv.
Qed.

Lemma recover_inv proof rpId d :
  assertionDigest proof rpId = Ok (Some d) →
  keys_inv (signature proof) d (recoverPasskeyPublicKeys proof rpId).
Proof.
  intros E. unfold recoverPasskeyPublicKeys. rewrite E.
  apply fold_left_inv; [intros; by apply recover_format_inv|].
  split; [by apply NoDup_nil | by constructor].
Qed.

Lemma recover_NoDup proof rpId : NoDup (recoverPasskeyPublicKeys proof rpId).
Proof.
  destruct (assertionDigest proof rpId) as [[d|]|e] eqn:E.
  - by apply recover_inv in E as [? _].
  - unfold recoverPasskeyPublicKeys. rewrite E. by apply NoDup_nil.
  - unfold recoverPasskeyPublicKeys. rewrite E. by apply NoDup_nil.
Qed.

(** Every key recovered from an assertion is a 33-byte key that passes
    [verifyOwnershipProof] for that same assertion, listed once; an assertion
    that is not genuine yields no key. *)
Theorem recovered_keys_verify (proof : OwnershipProof) (rpId : string) :
  let keys := recoverPasskeyPublicKeys proof rpId in
  NoDup keys
  ∧ (∀ k, k ∈ keys → length k = 33%nat ∧ verifyOwnershipProof id [k] proof rpId = [k])
  ∧ (keys = [] ∨ genuine proof rpId).
Proof.
  intros keys. split; [apply recover_NoDup|]. unfold verifyOwnershipProof.
  destruct (assertionDigest proof rpId) as [[d|]|e] eqn:E.
  2-3: subst keys; unfold recoverPasskeyPublicKeys; rewrite E; split; [set_solver | by left].
  destruct (recover_inv _ _ _ E) as [_ Hall]. rewrite Forall_forall in Hall. split.
  - intros k [Hl Hv]%Hall. split; [done|]. cbn [List.filter]. unfold id. by rewrite Hv.
  - right. by apply assertionDigest_iff in E as [? _].
Qed.

Lemma repeated_challenge_false proofs :
  repeated_challenge proofs = false ↔ NoDup (challenge <$> proofs).
Proof.
  induction proofs as [|p ps IH]; [split; [intros; by apply NoDup_nil | done]|].
  rewrite fmap_cons. cbn [repeated_challenge]. rewrite NoDup_cons, orb_false_iff, IH, existsb_false.
  setoid_rewrite bytesEqual_false. rewrite list_elem_of_fmap. naive_solver.
Qed.

Lemma common_keys_spec rpId proofs common k :
  k ∈ fold_left (common_keys rpId) proofs common ↔
  k ∈ common ∧ ∀ p, p ∈ proofs → k ∈ recoverPasskeyPublicKeys p rpId.
Proof.
  revert common. induction proofs as [|p ps IH]; intros common; simpl; [set_solver|].
  rewrite IH. unfold common_keys. rewrite elem_of_filter_bool, existsb_bytesEqual. set_solver.
Qed.

Lemma common_keys_NoDup rpId proofs common :
  NoDup common → NoDup (fold_left (common_keys rpId) proofs common).
Proof.
  apply fold_left_inv. intros l p Hl. unfold common_keys.
  induction Hl as [|x l Hx Hl IH]; simpl; [by apply NoDup_nil|].
  destruct (existsb _ _); [|done]. apply NoDup_cons. split; [|done].
  rewrite elem_of_filter_bool. naive_solver.
Qed.

Lemma NoDup_singleton_iff {A} (l : list A) k : NoDup l → (l = [k] ↔ ∀ x, x ∈ l ↔ x = k).
Proof.
  intros Hnd. split; [intros ->; set_solver|]. intros H.
  destruct l as [|x [|y l]].
  - destruct (H k) as [_ Hk]. specialize (Hk eq_refl). set_solver.
  - f_equal. apply H. set_solver.
  - exfalso. assert (x = k) by (apply H; set_solver). assert (y = k) by (apply H; set_solver).
    subst. apply NoDup_cons in Hnd as [Hni _]. set_solver.
Qed.

(** A key is resolved exactly when there are at least two proofs, no two
    over the same challenge, and that key and no other is recovered from every
    one of them. *)
Theorem resolvePasskeyPublicKey_iff (proofs : list OwnershipProof) (rpId : string) (key : bytes) :
  resolvePasskeyPublicKey proofs rpId = Some key ↔
  (2 <= length proofs)%nat ∧ NoDup (challenge <$> proofs)
  ∧ ∀ k, (∀ p, p ∈ proofs → k ∈ recoverPasskeyPublicKeys p rpId) ↔ k = key.
Proof.
  unfold resolvePasskeyPublicKey. rewrite <- repeated_challenge_false.
  destruct proofs as [|p [|q ps]]; [simpl; split; [done | lia] | simpl; split; [done | lia] |].
  destruct (repeated_challenge _) eqn:Hr; [split; [done | by intros (_ & ? & _)]|].
  change (drop 1 (p :: q :: ps)) with (q :: ps).
  set (l := fold_left _ _ _).
  assert (Hnd : NoDup l) by (apply common_keys_NoDup, recover_NoDup).
  assert (Hl : ∀ k, k ∈ l ↔ ∀ p', p' ∈ p :: q :: ps → k ∈ recoverPasskeyPublicKeys p' rpId).
  { intros k. subst l. rewrite common_keys_spec. set_solver. }
  assert (Hkey : (match l with [key] => Some key | _ => None end = Some key) ↔ l = [key])
    by (destruct l as [|? [|? ?]]; naive_solver).
  rewrite Hkey, NoDup_singleton_iff by done. setoid_rewrite Hl. simpl. split; [|naive_solver].
  intros H. split; [lia|]. done.
Qed.
End recover.

(** ** Domains *)
Section domains.
Context `{KL : KitLaws}.

Lemma signedMessageChallenge_eq message b :
  messageBytes message = Ok b →
  signedMessageChallenge message = Ok (SIGNED_MESSAGE_TAG ++ sha256 (SIGNED_MESSAGE_TAG ++ b)).
Proof.
  intros H. unfold signedMessageChallenge. rewrite H, bind_ok. f_equal.
  pose proof (concat2_app SIGNED_MESSAGE_TAG b) as Hp. unfold concat2 in Hp. rewrite Hp.
  pose proof (concat2_app SIGNED_MESSAGE_TAG (sha256 (SIGNED_MESSAGE_TAG ++ b))) as Hc.
  unfold concat2 in Hc. rewrite sha256_length in Hc. exact Hc.
Qed.

Lemma createTagged_eq rng :
  length (rng (zeros 32)) = 32%nat →
  createTaggedOwnershipChallenge rng = OWNERSHIP_PROOF_TAG ++ rng (zeros 32).
Proof.
  intros H. unfold createTaggedOwnershipChallenge, OWNERSHIP_PROOF_NONCE_LENGTH.
  pose proof (concat2_app OWNERSHIP_PROOF_TAG (rng (zeros 32))) as Hc.
  unfold concat2 in Hc. rewrite H in Hc. exact Hc.
Qed.

(** The three kinds of challenge a passkey is asked to sign never
    coincide: a transaction challenge has 32 bytes, a message challenge 58 and
    starts with its tag, an ownership challenge 59 and starts with its own. *)
Theorem challenge_domains_disjoint (message : SignedMessageInput) (m : bytes)
    (rng : bytes → bytes) (disc ap sp : bytes) (payer wallet program : address) (counter : Z) :
  signedMessageChallenge message = Ok m → length (rng (zeros 32)) = 32%nat →
  let tx := buildSecp256r1Challenge disc ap sp payer wallet counter program in
  let own := createTaggedOwnershipChallenge rng in
  length tx = 32%nat ∧ length m = 58%nat ∧ length own = 59%nat
  ∧ take 26 m = SIGNED_MESSAGE_TAG ∧ take 27 own = OWNERSHIP_PROOF_TAG
  ∧ tx ≠ m ∧ tx ≠ own ∧ m ≠ own.
Proof.
  intros Hm Hr tx own.
  assert (Hb : ∃ b, messageBytes message = Ok b).
  { unfold signedMessageChallenge in Hm. apply bind_inv in Hm as (b & Hb & _). eauto. }
  destruct Hb as [b Hb]. rewrite (signedMessageChallenge_eq _ _ Hb) in Hm.
  assert (Heq : m = SIGNED_MESSAGE_TAG ++ sha256 (SIGNED_MESSAGE_TAG ++ b)) by congruence.
  assert (Ht : length tx = 32%nat) by apply sha256_length.
  assert (Ho : own = OWNERSHIP_PROOF_TAG ++ rng (zeros 32)) by (by apply createTagged_eq).
  assert (Hlo : length own = 59%nat) by (rewrite Ho, length_app, Hr; reflexivity).
  assert (Hlm : length m = 58%nat) by (rewrite Heq, length_app, sha256_length; reflexivity).
  do 3 (split; [done|]). split; [rewrite Heq; by apply take_app_len|].
  split; [rewrite Ho; by apply take_app_len|].
  split; [|split]; intros H%(f_equal length); lia.
Qed.
End domains.

Import ConcreteKit.

Definition sample_facts (wallet : addr) (signatures lamports : Z) (alone : bool) : WalletFacts :=
  mkFacts (mkCandidate 2 (at_byte 9) wallet (at_byte 8) (at_byte 7) (zeros 33)) lamports 100 [] [] []
    true [] alone signatures.

Lemma pickOwnWallet_order_independent_witness :
  pickOwnWallet [sample_facts (at_byte 1) 0 5 true; sample_facts (at_byte 2) 3 0 true]
  = pickOwnWallet [sample_facts (at_byte 2) 3 0 true; sample_facts (at_byte 1) 0 5 true].
Proof.
  apply (@pickOwnWallet_order_independent kit kit_laws).
  - apply NoDup_cons. split; [|apply NoDup_singleton]. intros H%list_elem_of_singleton.
    apply (f_equal (λ a : addr, proj1_sig a !! 0%nat)) in H. vm_compute in H. discriminate H.
  - apply Permutation_swap.
Defined.

Definition sample_challenge : bytes := replicate 16 (u8 7).
Definition sample_auth_data : bytes := toy_hash (utf8 "a.com") ++ [u8 1] ++ zeros 4.
Definition sample_key : bytes :=
  take 31 (toy_hash (sample_auth_data ++ toy_hash (client_data sample_challenge []))) ++ zeros 2.

Lemma browser_assertion_accepted_witness :
  verifyOwnershipProof id [sample_key]
    (mkProof sample_challenge (zeros 64) sample_auth_data (client_data sample_challenge [])) "a.com"
  = [sample_key].
Proof.
  apply (@browser_assertion_accepted kit kit_laws) with (f := CompactSig);
    try (vm_compute; reflexivity); vm_compute; lia.
Defined.

Lemma challenge_domains_disjoint_witness :
  ∃ m, signedMessageChallenge (MessageString "hello") = Ok m
    ∧ m ≠ createTaggedOwnershipChallenge (λ b, b).
Proof.
  destruct (signedMessageChallenge (MessageString "hello")) as [m|e] eqn:E.
  - exists m. split; [done|].
    apply (@challenge_domains_disjoint kit kit_laws (MessageString "hello") m (λ b, b) [] [] []
      (at_byte 1) (at_byte 2) (at_byte 3) 0 E eq_refl).
  - apply (f_equal is_ok) in E. vm_compute in E. discriminate E.
Defined.

Definition sample_proof (c : Z) : OwnershipProof :=
  mkProof (replicate 16 (u8 c)) (zeros 64) sample_auth_data (client_data (replicate 16 (u8 c)) []).

Lemma verifyOwnershipProof_iff_witness :
  genuine (sample_proof 7) "a.com"
  ∧ ∃ f, p256_verify f (zeros 64) (signed_digest (sample_proof 7)) sample_key = Some true.
Proof.
  assert (E : verifyOwnershipProof id [zeros 33; sample_key] (sample_proof 7) "a.com" = [sample_key])
    by (vm_compute; reflexivity).
  assert (H : sample_key ∈ verifyOwnershipProof id [zeros 33; sample_key] (sample_proof 7) "a.com")
    by (rewrite E; left).
  exact (proj2 (proj1 (@verifyOwnershipProof_iff kit kit_laws bytes id [zeros 33; sample_key]
    (sample_proof 7) "a.com" sample_key) H)).
Defined.

Lemma recovered_keys_verify_witness :
  recoverPasskeyPublicKeys (sample_proof 7) "a.com" = [sample_key]
  ∧ verifyOwnershipProof id [sample_key] (sample_proof 7) "a.com" = [sample_key].
Proof.
  assert (E : recoverPasskeyPublicKeys (sample_proof 7) "a.com" = [sample_key])
    by (vm_compute; reflexivity).
  split; [exact E|].
  apply (proj1 (proj2 (@recovered_keys_verify kit kit_laws (sample_proof 7) "a.com")) sample_key).
  rewrite E. left.
Defined.

Lemma resolvePasskeyPublicKey_iff_witness :
  NoDup (challenge <$> [sample_proof 7; sample_proof 8])
  ∧ ∀ k, (∀ p, p ∈ [sample_proof 7; sample_proof 8] → k ∈ recoverPasskeyPublicKeys p "a.com")
         ↔ k = sample_key.
Proof.
  assert (E : resolvePasskeyPublicKey [sample_proof 7; sample_proof 8] "a.com" = Some sample_key)
    by (vm_compute; reflexivity).
  exact (proj2 (proj1 (@resolvePasskeyPublicKey_iff kit kit_laws [sample_proof 7; sample_proof 8]
    "a.com" sample_key) E)).
Defined.
