(* ===== verification/ChallengeReads.v ===== *)
(** * The reads of a passkey challenge

    Models src/sdk/sdk-kit/src/secp256r1/challengeReads.ts: the retry loop
    [atOrAfterContextSlot], the [ChallengeReadGroup] that the key, slot and
    counter reads share, and [readChallengeInputs], which runs them side by
    side.  The interleaving is explicit: a [world] is the clock, the group and
    the readers, and an [event] is one thing that can happen next (an answer
    arrives, a timer fires, a continuation runs, time passes). *)
From S2P Require Import Prelude Bytes Kit Constants Accounts.
Local Open Scope Z_scope.

Record ChallengeReadOptions := mkOptions {
  o_commitment : option Commitment;
  o_minContextSlot : option Z;
}.

Definition CHALLENGE_READ_COMMITMENT : Commitment := Confirmed.
Definition MIN_CONTEXT_SLOT_WAIT_MS : Z := 10000.
Definition FINALIZED_MIN_CONTEXT_SLOT_WAIT_MS : Z := 30000.

Definition minContextSlotWaitMs (commitment : Commitment) : Z :=
  if decide (commitment = Finalized) then FINALIZED_MIN_CONTEXT_SLOT_WAIT_MS
  else MIN_CONTEXT_SLOT_WAIT_MS.

(** The kit read config, with the default commitment applied. *)
Record ReadConfig := mkConfig {
  commitment : Commitment;
  minContextSlot : option Z;
}.

Definition challengeReadConfig (opts : option ChallengeReadOptions) : ReadConfig :=
  mkConfig (default CHALLENGE_READ_COMMITMENT (opts ≫= o_commitment)) (opts ≫= o_minContextSlot).

(** Delay before retry [attempt] (1-based): 100 ms, 200 ms, ... capped at 1 s. *)
Definition backoff (attempt : Z) : Z := Z.min (100 * attempt) 1000.

(** ** The three reads *)
Inductive reader := ReadKey | ReadSlot | ReadCounter.

#[export] Instance reader_eq_dec : EqDecision reader.
Proof. solve_decision. Defined.

Inductive rvalue := VKey (publicKeyBytes : bytes) | VSlot (slot : Z) | VCounter (counter : Z).

Section reads.
Context `{K : Kit}.

(** What the node answers: [getAccountInfo]'s value, or [getSlot]'s. *)
Inductive reply := RAccount (value : option AccountView) | RSlot (slot : Z).

(** The rest of [readAuthorityAccountBytes], once the loop returned. *)
Definition authority_bytes (r : reply) : result bytes :=
  match r with
  | RAccount (Some info) => decodeBase64 (av_data info)
  | RAccount None => Throw EAuthorityNotFound
  | RSlot _ => Throw (EExternal "reply")
  end.

Definition readChallengeCounter (r : reply) : result Z :=
  bytes ← authority_bytes r;
  (throw! EAccountTooShort (length bytes) 12 when (length bytes <? 12)%nat;
   readU32 bytes 8)%js.

Definition readChallengeKey (r : reply) : result bytes :=
  bytes ← authority_bytes r;
  (throw! EAccountTooShort (length bytes) 113 when (length bytes <? 113)%nat;
   throw! ENotAuthority when negb (byte_is bytes 0 DISC_AUTHORITY);
   throw! ENotSecp256r1 when negb (byte_is bytes 1 1);
   Ok (slice 80 113 bytes))%js.

Definition readChallengeSlot (r : reply) : result Z :=
  match r with RSlot s => Ok s | RAccount _ => Throw (EExternal "reply") end.

Definition finish (kind : reader) (r : reply) : result rvalue :=
  match kind with
  | ReadKey => VKey <$> readChallengeKey r
  | ReadSlot => VSlot <$> readChallengeSlot r
  | ReadCounter => VCounter <$> readChallengeCounter r
  end.

(** ** The group and its readers *)

(** Where a reader is in [group.run(atOrAfterContextSlot(...).then(finish))]. *)
Inductive phase :=
  | Reading (attempt : Z)                          (* awaiting [read()] *)
  | Asleep (attempt until : Z) (last : error)      (* in [group.sleep] *)
  | Awake (attempt : Z) (last : error)             (* its sleep has resolved *)
  | Rejected (e : error)                           (* threw; [run]'s catch is due *)
  | Settled (r : result rvalue).

Record rd := mkRd { rd_kind : reader; rd_started : Z; rd_phase : phase }.

Record world := mkWorld {
  now : Z;
  isStopped : bool;
  firstFailure : option error;
  readers : list rd;
}.

Definition set_phase (p : phase) (r : rd) : rd := mkRd (rd_kind r) (rd_started r) p.

(** What the loop does with an answer. *)
Definition on_answer (config : ReadConfig) (stopped : bool) (time : Z) (r : rd) (attempt : Z)
    (answer : result reply) : phase :=
  match answer with
  | Ok rep => match finish (rd_kind r) rep with Ok v => Settled (Ok v) | Throw e => Rejected e end
  | Throw e =>
    match minContextSlot config with
    | None => Rejected e
    | Some floor =>
      if negb (is_min_context_slot e) then Rejected e
      else if stopped then Rejected e
      else
        let waitedMs := time - rd_started r in
        let delay := backoff attempt in
        if minContextSlotWaitMs (commitment config) <? waitedMs + delay
        then Rejected (EMinContextSlot floor waitedMs)
        else Asleep attempt (time + delay) e
    end
  end.

(** [wake] of every sleeper. *)
Definition wake (r : rd) : rd :=
  match rd_phase r with Asleep attempt _ e => set_phase (Awake attempt e) r | _ => r end.

(** [stop(failure)]. *)
Definition stop (failure : error) (w : world) : world :=
  if isStopped w then w
  else mkWorld (now w) true (Some failure) (wake <$> readers w).

Inductive event :=
  | Answer (i : nat) (answer : result reply)
  | Timer (i : nat)
  | Resume (i : nat)
  | Catch (i : nat)
  | Tick (ms : Z).

Definition set_reader (i : nat) (p : phase) (w : world) : world :=
  mkWorld (now w) (isStopped w) (firstFailure w) (alter (set_phase p) i (readers w)).

(** One event, [None] when it cannot happen. *)
Definition step (config : ReadConfig) (w : world) (ev : event) : option world :=
  match ev with
  | Tick ms => if 0 <=? ms then Some (mkWorld (now w + ms) (isStopped w) (firstFailure w) (readers w))
               else None
  | Answer i answer =>
      r ← readers w !! i;
      match rd_phase r with
      | Reading attempt =>
          Some (set_reader i (on_answer config (isStopped w) (now w) r attempt answer) w)
      | _ => None
      end
  | Timer i =>
      r ← readers w !! i;
      match rd_phase r with
      | Asleep attempt until e =>
          if until <=? now w then Some (set_reader i (Awake attempt e) w) else None
      | _ => None
      end
  | Resume i =>
      r ← readers w !! i;
      match rd_phase r with
      | Awake attempt e =>
          Some (set_reader i (if isStopped w then Rejected e else Reading (attempt + 1)) w)
      | _ => None
      end
  | Catch i =>
      r ← readers w !! i;
      match rd_phase r with
      | Rejected e => Some (stop e (set_reader i (Settled (Throw e)) w))
      | _ => None
      end
  end.

(** [readChallengeInputs]: which reads it starts, and what it returns once every
    one of them has resolved. *)
Record Have := mkHave { h_publicKeyBytes : option bytes; h_slotOverride : option Z }.

Definition start_reader (t : Z) (k : reader) : rd := mkRd k t (Reading 1).

Definition needed (have : Have) : list reader :=
  (match h_publicKeyBytes have with Some _ => [] | None => [ReadKey] end)
  ++ (match h_slotOverride have with Some _ => [] | None => [ReadSlot] end)
  ++ [ReadCounter].

(** A group no read has joined yet. *)
Definition new_group (t : Z) : world := mkWorld t false None [].

(** If a read beside these has already failed, nothing is read and its error is
    thrown again. *)
Definition readChallengeInputs (have : Have) (group : world) : result world :=
  if isStopped group then Throw (default (EExternal "undefined") (firstFailure group))
  else Ok (mkWorld (now group) false (firstFailure group)
             (readers group ++ (start_reader (now group) <$> needed have))).

Definition value_of (k : reader) (w : world) : option rvalue :=
  r ← List.find (λ r, bool_decide (rd_kind r = k)) (readers w);
  match rd_phase r with Settled (Ok v) => Some v | _ => None end.

(** [Promise.all] has resolved: the key, the slot and the counter + 1. *)
Definition inputs (have : Have) (w : world) : option (bytes * Z * Z) :=
  publicKeyBytes ← (match h_publicKeyBytes have with
                    | Some k => Some k
                    | None => value_of ReadKey w ≫= λ v, match v with VKey k => Some k | _ => None end
                    end);
  slot ← (match h_slotOverride have with
          | Some s => Some s
          | None => value_of ReadSlot w ≫= λ v, match v with VSlot s => Some s | _ => None end
          end);
  counter ← (value_of ReadCounter w ≫= λ v, match v with VCounter c => Some c | _ => None end);
  Some (publicKeyBytes, slot, counter + 1).

(** Runs of the group. *)
Inductive reaches (config : ReadConfig) (w : world) : world → Prop :=
  | reaches_refl : reaches config w w
  | reaches_step w' w'' ev :
      reaches config w w' → step config w' ev = Some w'' → reaches config w w''.

(** ** The group *)

(** What holds of every state of a group: it is stopped exactly when a failure
    is recorded, the recorded failure is a reader's, every failure it has seen
    stopped it, and in a stopped group nobody sleeps. *)
Definition group_inv (w : world) : Prop :=
  (isStopped w = true ↔ is_Some (firstFailure w))
  ∧ (∀ e, firstFailure w = Some e → ∃ r, r ∈ readers w ∧ rd_phase r = Settled (Throw e))
  ∧ (∀ r e, r ∈ readers w → rd_phase r = Settled (Throw e) → isStopped w = true)
  ∧ (∀ r a u e, r ∈ readers w → rd_phase r = Asleep a u e → isStopped w = false).

Lemma elem_of_alter {A} (f : A → A) i (l : list A) x y :
  l !! i = Some x → y ∈ alter f i l ↔ y = f x ∨ ∃ j, j ≠ i ∧ l !! j = Some y.
Proof.
  intros Hx. rewrite list_elem_of_lookup. split.
  - intros [j Hj]. destruct (decide (j = i)) as [->|Hne].
    + rewrite list_lookup_alter_eq, Hx in Hj. injection Hj as <-. by left.
    + rewrite list_lookup_alter_ne in Hj by done. eauto.
  - intros [->|(j & Hne & Hj)].
    + exists i. by rewrite list_lookup_alter_eq, Hx.
    + exists j. by rewrite list_lookup_alter_ne.
Qed.

(** A phase change that is neither a failure nor a sleep in a stopped group. *)
Lemma set_reader_inv i r p w :
  readers w !! i = Some r → (∀ e, p ≠ Settled (Throw e)) →
  (∀ e, rd_phase r ≠ Settled (Throw e)) →
  (∀ a u e, p = Asleep a u e → isStopped w = false) →
  group_inv w → group_inv (set_reader i p w).
Proof.
  intros Hr Hp Hold Hs (H1 & H2 & H3 & H4).
  unfold group_inv, set_reader. cbn [isStopped firstFailure readers].
  split; [done|]. split; [|split].
  - intros e He. destruct (H2 e He) as (r' & Hin & Hr'). exists r'. split; [|done].
    apply (elem_of_alter _ i _ r); [done|]. right.
    apply list_elem_of_lookup in Hin as [j Hj]. exists j. split; [|done].
    intros ->. assert (r' = r) as -> by congruence. by destruct (Hold e).
  - intros r' e Hin He. apply (elem_of_alter _ i _ r) in Hin; [|done].
    destruct Hin as [->|(j & _ & Hj)].
    + cbn [set_phase rd_phase] in He. by destruct (Hp e).
    + eapply H3; [|done]. by eapply list_elem_of_lookup_2.
  - intros r' a u e Hin He. apply (elem_of_alter _ i _ r) in Hin; [|done].
    destruct Hin as [->|(j & _ & Hj)].
    + cbn [set_phase rd_phase] in He. by eapply Hs.
    + eapply H4; [|done]. by eapply list_elem_of_lookup_2.
Qed.

Lemma wake_phase r e : rd_phase (wake r) = Settled (Throw e) ↔ rd_phase r = Settled (Throw e).
Proof. unfold wake. destruct r as [k s []]; simpl; naive_solver. Qed.

Lemma wake_not_asleep r a u e : rd_phase (wake r) ≠ Asleep a u e.
Proof. unfold wake. destruct r as [k s []]; simpl; naive_solver. Qed.

Lemma catch_inv i r e w :
  readers w !! i = Some r → rd_phase r = Rejected e →
  group_inv w → group_inv (stop e (set_reader i (Settled (Throw e)) w)).
Proof.
  intros Hr Hp (H1 & H2 & H3 & H4). unfold stop.
  assert (Hme : set_phase (Settled (Throw e)) r ∈ alter (set_phase (Settled (Throw e))) i (readers w))
    by (apply (elem_of_alter _ i _ r); [done | by left]).
  unfold set_reader. cbn [isStopped firstFailure readers now].
  destruct (isStopped w) eqn:Hs; unfold group_inv; cbn [isStopped firstFailure readers].
  - split; [done|]. split; [|split].
    + intros e' He'. destruct (H2 e' He') as (r' & Hin & Hr'). exists r'. split; [|done].
      apply (elem_of_alter _ i _ r); [done|]. right.
      apply list_elem_of_lookup in Hin as [j Hj]. exists j. split; [|done]. intros ->. congruence.
    + by intros.
    + intros r' a u e' Hin He'. apply (elem_of_alter _ i _ r) in Hin; [|done].
      destruct Hin as [->|(j & _ & Hj)]; [done|].
      eapply H4; [by eapply list_elem_of_lookup_2 | done].
  - split; [by split; [eauto|]|]. split; [|split].
    + intros e' [= <-]. exists (wake (set_phase (Settled (Throw e)) r)). split; [|done].
      apply list_elem_of_fmap. eauto.
    + by intros.
    + intros r' a u e' Hin He'. apply list_elem_of_fmap in Hin as (r0 & -> & _).
      by apply wake_not_asleep in He'.
Qed.

Lemma on_answer_phase config stopped time r a ans :
  (∀ e, on_answer config stopped time r a ans ≠ Settled (Throw e))
  ∧ (∀ b u e, on_answer config stopped time r a ans = Asleep b u e → stopped = false).
Proof.
  unfold on_answer. destruct ans as [rep|e]; [destruct (finish _ rep); naive_solver|].
  destruct (minContextSlot config); [|naive_solver].
  destruct (is_min_context_slot e); [|naive_solver]. cbn [negb].
  destruct stopped; [naive_solver|]. destruct (_ <? _); naive_solver.
Qed.

Lemma step_inv config w ev w' : group_inv w → step config w ev = Some w' → group_inv w'.
Proof.
  intros Hinv H. destruct ev as [i ans|i|i|i|ms]; cbn [step] in H.
  5:{ destruct (0 <=? ms); [|done]. by injection H as <-. }
  all: apply bind_Some in H as (r & Hr & H); destruct (rd_phase r) eqn:Hp; try done.
  4: { injection H as <-. by eapply catch_inv. }
  - injection H as <-. destruct (on_answer_phase config (isStopped w) (now w) r attempt ans).
    apply (set_reader_inv _ r); try done; congruence.
  - destruct (until <=? now w); [|done]. injection H as <-.
    apply (set_reader_inv _ r); try done; congruence.
  - injection H as <-.
    apply (set_reader_inv _ r); try done; destruct (isStopped w); congruence.
Qed.

Lemma reaches_inv config w w' : group_inv w → reaches config w w' → group_inv w'.
Proof. intros H. induction 1 as [|w1 w2 ev _ IH Hs]; [done|]. by eapply step_inv. Qed.

Lemma started_inv have t w : readChallengeInputs have (new_group t) = Ok w → group_inv w.
Proof.
  unfold readChallengeInputs. cbn [new_group isStopped firstFailure readers now app].
  intros [= <-]. unfold group_inv. cbn [isStopped firstFailure readers].
  split; [split; [done | by intros []]|]. split; [done|].
  split; intros r; intros; by match goal with H : r ∈ _ |- _ =>
    apply list_elem_of_fmap in H as (k & -> & _) end.
Qed.

(** In every state a challenge's reads can reach, under any interleaving
    of answers, timers and continuations: the group is stopped exactly when it
    has recorded a failure, that failure is one a reader ended with, every
    reader that failed has stopped the group, and nobody sleeps in a stopped
    group. *)
Theorem group_reachable_inv (config : ReadConfig) (have : Have) (t : Z) (w w' : world) :
  readChallengeInputs have (new_group t) = Ok w → reaches config w w' → group_inv w'.
Proof. intros Hs Hr. eapply reaches_inv; [by eapply started_inv | done]. Qed.

(** *** A stopped group polls no more *)

(** The attempt reader [i] has outstanding. *)
Definition outstanding (w : world) (i : nat) : option Z :=
  match rd_phase <$> readers w !! i with Some (Reading a) => Some a | _ => None end.

Lemma outstanding_set_reader w i p j :
  outstanding (set_reader i p w) j
  = if decide (j = i)
    then match readers w !! i with
         | Some _ => match p with Reading a => Some a | _ => None end
         | None => None end
    else outstanding w j.
Proof.
  unfold outstanding, set_reader. cbn [readers]. destruct (decide (j = i)) as [->|Hne].
  - rewrite list_lookup_alter_eq. by destruct (readers w !! i).
  - by rewrite list_lookup_alter_ne.
Qed.

Lemma outstanding_stop w e j : outstanding (stop e w) j = outstanding w j.
Proof.
  unfold stop. destruct (isStopped w); [done|]. unfold outstanding. cbn [readers].
  rewrite list_lookup_fmap. destruct (readers w !! j) as [r|]; [|done].
  unfold wake. destruct r as [k s []]; done.
Qed.

Lemma step_outstanding config w ev w' j a :
  step config w ev = Some w' → outstanding w' j = Some a →
  outstanding w j = Some a ∨ isStopped w = false.
Proof.
  intros H Ho. destruct ev as [i ans|i|i|i|ms]; cbn [step] in H.
  5:{ destruct (0 <=? ms); [|done]. injection H as <-. by left. }
  all: apply bind_Some in H as (r & Hr & H); destruct (rd_phase r) eqn:Hp; try done.
  - injection H as <-. rewrite outstanding_set_reader, Hr in Ho.
    destruct (decide (j = i)) as [->|]; [|by left].
    unfold on_answer in Ho. destruct ans as [rep|e]; [by destruct (finish _ rep)|].
    destruct (minContextSlot config); [|done]. destruct (is_min_context_slot e); [|done].
    cbn [negb] in Ho. destruct (isStopped w); [done|]. by destruct (_ <? _).
  - destruct (until <=? now w); [|done]. injection H as <-.
    rewrite outstanding_set_reader, Hr in Ho. by destruct (decide (j = i)) as [->|]; [|left].
  - injection H as <-. rewrite outstanding_set_reader, Hr in Ho.
    destruct (decide (j = i)) as [->|]; [|by left]. destruct (isStopped w); [done | by right].
  - injection H as <-. rewrite outstanding_stop, outstanding_set_reader, Hr in Ho.
    by destruct (decide (j = i)) as [->|]; [|left].
Qed.

Lemma step_stopped config w ev w' :
  step config w ev = Some w' → isStopped w = true → isStopped w' = true.
Proof.
  intros H Hs. destruct ev as [i ans|i|i|i|ms]; cbn [step] in H.
  5:{ destruct (0 <=? ms); [|done]. by injection H as <-. }
  all: apply bind_Some in H as (r & Hr & H); destruct (rd_phase r) eqn:Hp; try done.
  - by injection H as <-.
  - destruct (until <=? now w); [|done]. by injection H as <-.
  - by injection H as <-.
  - injection H as <-. unfold stop. by destruct (isStopped (set_reader _ _ w)).
Qed.

(** Once a read of the challenge has failed, no read ever polls the node
    again: whatever happens next, the only requests outstanding are ones that
    were already outstanding when the group stopped. *)
Theorem stopped_group_is_silent (config : ReadConfig) (w w' : world) (i : nat) (attempt : Z) :
  isStopped w = true → reaches config w w' → outstanding w' i = Some attempt →
  outstanding w i = Some attempt.
Proof.
  intros Hs Hr. assert (isStopped w' = true ∧
    (outstanding w' i = Some attempt → outstanding w i = Some attempt)) as [_ H]; [|done].
  induction Hr as [|w1 w2 ev _ [IHs IH] Hst]; [done|]. split; [by eapply step_stopped|].
  intros Ho. destruct (step_outstanding _ _ _ _ _ _ Hst Ho) as [|]; [by apply IH | congruence].
Qed.

(** *** Bounded polling *)

(** The delays of the first [n] retries together. *)
Definition slept (n : Z) : Z := if n <=? 10 then 50 * n * (n + 1) else 1000 * n - 4500.

Lemma slept_succ n : 0 <= n → slept (n + 1) = slept n + backoff (n + 1).
Proof.
  intros Hn. unfold slept, backoff.
  destruct (Z.leb_spec (n + 1) 10), (Z.leb_spec n 10); try lia.
  assert (n = 10) as -> by lia. reflexivity.
Qed.

(** What the time spent says of a reader's attempt number. *)
Definition reader_ok (config : ReadConfig) (w : world) (r : rd) : Prop :=
  let budget := minContextSlotWaitMs (commitment config) in
  match rd_phase r with
  | Reading a => 1 <= a ∧ slept (a - 1) <= budget ∧ rd_started r + slept (a - 1) <= now w
                 ∧ (a = 1 ∨ is_Some (minContextSlot config))
  | Asleep a u _ => 1 <= a ∧ rd_started r + slept a <= u <= rd_started r + budget
                    ∧ is_Some (minContextSlot config)
  | Awake a _ => 1 <= a ∧ slept a <= budget
                 ∧ (isStopped w = false → rd_started r + slept a <= now w)
                 ∧ is_Some (minContextSlot config)
  | Rejected _ | Settled _ => True
  end.

Definition readers_ok (config : ReadConfig) (w : world) : Prop :=
  Forall (reader_ok config w) (readers w).

Lemma set_reader_ok config i r p w :
  readers w !! i = Some r → reader_ok config w (set_phase p r) →
  readers_ok config w → readers_ok config (set_reader i p w).
Proof.
  intros Hr Hp H. unfold readers_ok, set_reader in *. cbn [readers]. rewrite Forall_forall in *.
  intros r' Hin. apply (elem_of_alter _ i _ r) in Hin; [|done].
  destruct Hin as [->|(j & _ & Hj)]; [done|]. apply (H r'). by eapply list_elem_of_lookup_2.
Qed.

Lemma stop_ok config e w : readers_ok config w → readers_ok config (stop e w).
Proof.
  unfold readers_ok, stop. destruct (isStopped w); [done|]. cbn [readers]. intros H.
  apply Forall_fmap. eapply Forall_impl; [exact H|]. intros r Hr. unfold compose, wake.
  destruct r as [k s [a|a u x|a x|x|x]]; unfold reader_ok in *; cbn in *; try done.
  - destruct Hr as (? & ? & ? & ?). split; [done|]. split; [lia|]. done.
  - destruct Hr as (? & ? & ? & ?). split; [done|]. split; [lia|]. done.
Qed.

Lemma on_answer_ok config w r a ans :
  rd_phase r = Reading a → reader_ok config w r →
  reader_ok config w (set_phase (on_answer config (isStopped w) (now w) r a ans) r).
Proof.
  intros Hp. unfold reader_ok. rewrite Hp. intros (Ha & Hs & Ht & _).
  unfold set_phase, on_answer. cbn [rd_phase rd_started].
  destruct ans as [rep|e]; [by destruct (finish _ rep)|].
  destruct (minContextSlot config) as [floor|]; [|done].
  destruct (is_min_context_slot e); [|done]. cbn [negb]. destruct (isStopped w); [done|].
  destruct (Z.ltb_spec (minContextSlotWaitMs (commitment config)) (now w - rd_started r + backoff a));
    [done|].
  pose proof (slept_succ (a - 1) ltac:(lia)) as Hsl. replace (a - 1 + 1) with a in Hsl by lia.
  split; [done|]. split; [lia|]. eauto.
Qed.

Lemma step_ok config w ev w' :
  readers_ok config w → step config w ev = Some w' → readers_ok config w'.
Proof.
  intros Hok H. destruct ev as [i ans|i|i|i|ms]; cbn [step] in H.
  5:{ destruct (Z.leb_spec 0 ms); [|done]. injection H as <-. unfold readers_ok in *. cbn [readers].
      eapply Forall_impl; [exact Hok|]. intros r. unfold reader_ok. cbn [now isStopped].
      destruct (rd_phase r); try done; naive_solver lia. }
  all: apply bind_Some in H as (r & Hr & H); destruct (rd_phase r) eqn:Hp; try done.
  all: assert (Hrok : reader_ok config w r)
    by (unfold readers_ok in Hok; rewrite Forall_forall in Hok; apply Hok;
        by eapply list_elem_of_lookup_2).
  - injection H as <-. apply (set_reader_ok _ _ r); [done | by apply on_answer_ok | done].
  - destruct (Z.leb_spec until (now w)); [|done]. injection H as <-.
    apply (set_reader_ok _ _ r); [done| |done]. unfold reader_ok in *. rewrite Hp in Hrok.
    cbn [set_phase rd_phase rd_started]. naive_solver lia.
  - injection H as <-. apply (set_reader_ok _ _ r); [done| |done]. unfold reader_ok in *.
    rewrite Hp in Hrok. cbn [set_phase rd_phase rd_started]. destruct (isStopped w); [done|].
    destruct Hrok as (? & ? & Ht & ?). specialize (Ht eq_refl).
    replace (attempt + 1 - 1) with attempt by lia. split; [lia|]. eauto.
  - injection H as <-. apply stop_ok, (set_reader_ok _ _ r); done.
Qed.

Lemma reachable_ok config have t w w' :
  readChallengeInputs have (new_group t) = Ok w → reaches config w w' → readers_ok config w'.
Proof.
  intros Hs Hr. assert (H0 : readers_ok config w).
  { unfold readChallengeInputs in Hs. cbn [new_group isStopped firstFailure readers now app] in Hs.
    injection Hs as <-. unfold readers_ok. cbn [readers]. apply Forall_fmap.
    apply Forall_forall. intros k _. unfold compose, start_reader, reader_ok. cbn [rd_phase rd_started now].
    change (slept (1 - 1)) with 0. split; [lia|]. split; [|split; [lia | by left]].
    unfold minContextSlotWaitMs. case_decide; done. }
  induction Hr as [|w1 w2 ev _ IH Hst]; [done|]. by eapply step_ok.
Qed.

(** The most reads one reader makes, at each commitment. *)
Definition max_attempts (c : Commitment) : Z := if decide (c = Finalized) then 35 else 15.

Lemma slept_bound c a : 1 <= a → slept (a - 1) <= minContextSlotWaitMs c → a <= max_attempts c.
Proof.
  unfold slept, minContextSlotWaitMs, max_attempts, FINALIZED_MIN_CONTEXT_SLOT_WAIT_MS,
    MIN_CONTEXT_SLOT_WAIT_MS. intros Ha.
  destruct (Z.leb_spec (a - 1) 10); destruct (decide (c = Finalized)); lia.
Qed.

Lemma outstanding_ok config w i a :
  readers_ok config w → outstanding w i = Some a →
  1 <= a ∧ slept (a - 1) <= minContextSlotWaitMs (commitment config)
  ∧ (a = 1 ∨ is_Some (minContextSlot config)).
Proof.
  intros H Ho. unfold outstanding in Ho. destruct (readers w !! i) as [r|] eqn:Hr; [|done].
  cbn in Ho. destruct (rd_phase r) eqn:Hp; try done. injection Ho as ->.
  unfold readers_ok in H. rewrite Forall_forall in H.
  specialize (H r ltac:(by eapply list_elem_of_lookup_2)). unfold reader_ok in H. rewrite Hp in H.
  naive_solver.
Qed.

(** Polling is bounded: within the wait (10 s, or 30 s at finalized) a
    read is sent at most 15 times (35 at finalized), and without a
    [minContextSlot] exactly once. *)
Theorem polling_bounded (config : ReadConfig) (have : Have) (t : Z) (w w' : world) (i : nat)
    (attempt : Z) :
  readChallengeInputs have (new_group t) = Ok w → reaches config w w' →
  outstanding w' i = Some attempt →
  1 <= attempt <= max_attempts (commitment config)
  ∧ (minContextSlot config = None → attempt = 1).
Proof.
  intros Hs Hr Ho. pose proof (reachable_ok _ _ _ _ _ Hs Hr) as Hok.
  destruct (outstanding_ok _ _ _ _ Hok Ho) as (H1 & H2 & H3).
  split; [split; [done | by apply slept_bound]|]. intros Hn. rewrite Hn in H3. naive_solver.
Qed.

(** *** Termination *)

Fixpoint run (config : ReadConfig) (w : world) (evs : list event) : option world :=
  match evs with
  | [] => Some w
  | ev :: evs => w' ← step config w ev; run config w' evs
  end.

Definition is_tick (ev : event) : bool := match ev with Tick _ => true | _ => false end.

(** How many of its own steps a reader may still take. *)
Definition rank (r : rd) : nat :=
  Z.to_nat match rd_phase r with
  | Reading a => 3 * (36 - a) + 4
  | Asleep a _ _ => 3 * (36 - a) + 3
  | Awake a _ => 3 * (36 - a) + 2
  | Rejected _ => 1
  | Settled _ => 0
  end.

Definition total_rank (w : world) : nat := list_sum (rank <$> readers w).

Lemma sum_alter (f : rd → rd) i r l :
  l !! i = Some r → (rank (f r) < rank r)%nat →
  (list_sum (rank <$> alter f i l) < list_sum (rank <$> l))%nat.
Proof.
  revert i. induction l as [|x l IH]; intros [|i] H Hr; [done|done| |].
  - injection H as ->. change (alter f 0%nat (r :: l)) with (f r :: l). rewrite !fmap_cons.
    cbn [list_sum fold_right]. lia.
  - specialize (IH i H Hr). change (alter f (S i) (x :: l)) with (x :: alter f i l).
    rewrite !fmap_cons. cbn [list_sum fold_right] in *. unfold list_sum in IH. lia.
Qed.

Lemma rank_wake l : (list_sum (rank <$> (wake <$> l)) <= list_sum (rank <$> l))%nat.
Proof.
  induction l as [|r l IH]; [done|]. rewrite !fmap_cons. cbn [list_sum fold_right].
  unfold list_sum in IH.
  enough (rank (wake r) <= rank r)%nat by lia.
  unfold rank, wake. destruct r as [k s []]; cbn [rd_phase set_phase]; lia.
Qed.

Lemma rank_stop e w : (total_rank (stop e w) <= total_rank w)%nat.
Proof. unfold total_rank, stop. destruct (isStopped w); [done|]. apply rank_wake. Qed.

Lemma slept_bound_35 c a : 1 <= a → slept a <= minContextSlotWaitMs c → a <= 35.
Proof.
  intros Ha Hs. assert (a + 1 <= max_attempts c)
    by (apply slept_bound; [lia|]; by replace (a + 1 - 1) with a by lia).
  unfold max_attempts in *. case_decide; lia.
Qed.

Lemma reader_ok_attempt config w r :
  reader_ok config w r →
  match rd_phase r with Reading a | Asleep a _ _ | Awake a _ => 1 <= a <= 35 | _ => True end.
Proof.
  unfold reader_ok. destruct (rd_phase r); try done.
  - intros (? & ? & _). split; [done|]. pose proof (slept_bound (commitment config) attempt).
    unfold max_attempts in *. destruct (decide _); lia.
  - intros (? & ? & _). split; [done|]. apply (slept_bound_35 (commitment config)); lia.
  - intros (? & ? & _). split; [done|]. by apply (slept_bound_35 (commitment config)).
Qed.

(** Every event but the clock's uses up some of a reader's steps. *)
Lemma step_rank config w ev w' :
  readers_ok config w → step config w ev = Some w' →
  (total_rank w' + (if is_tick ev then 0 else 1) <= total_rank w)%nat.
Proof.
  intros Hok H. destruct ev as [i ans|i|i|i|ms]; cbn [step] in H; cbn [is_tick].
  5:{ destruct (0 <=? ms); [|done]. injection H as <-. unfold total_rank. cbn [readers]. lia. }
  all: apply bind_Some in H as (r & Hr & H); destruct (rd_phase r) eqn:Hp; try done.
  all: assert (Ha : match rd_phase r with Reading a | Asleep a _ _ | Awake a _ => 1 <= a <= 35
                    | _ => True end)
    by (apply (reader_ok_attempt config w); unfold readers_ok in Hok; rewrite Forall_forall in Hok;
        apply Hok; by eapply list_elem_of_lookup_2).
  all: rewrite Hp in Ha.
  all: assert (Hlt : ∀ p, (rank (set_phase p r) < rank r)%nat →
    (total_rank (set_reader i p w) + 1 <= total_rank w)%nat)
    by (intros p Hlt; unfold total_rank, set_reader; cbn [readers];
        pose proof (sum_alter (set_phase p) i r (readers w) Hr Hlt); lia).
  - injection H as <-. apply Hlt. unfold rank, set_phase, on_answer. rewrite Hp. cbn [rd_phase].
    destruct ans as [rep|e]; [destruct (finish _ rep); lia|].
    destruct (minContextSlot config); [|lia]. destruct (is_min_context_slot e); [|cbn [negb]; lia].
    cbn [negb]. destruct (isStopped w); [lia|]. destruct (_ <? _); lia.
  - destruct (until <=? now w); [|done]. injection H as <-. apply Hlt. unfold rank, set_phase.
    rewrite Hp. cbn [rd_phase]. lia.
  - injection H as <-. apply Hlt. unfold rank, set_phase. rewrite Hp. cbn [rd_phase].
    destruct (isStopped w); lia.
  - injection H as <-. pose proof (rank_stop e (set_reader i (Settled (Throw e)) w)).
    enough (total_rank (set_reader i (Settled (Throw e)) w) + 1 <= total_rank w)%nat by lia.
    apply Hlt. unfold rank, set_phase. rewrite Hp. cbn [rd_phase]. lia.
Qed.

Lemma run_rank config w evs w' :
  readers_ok config w → run config w evs = Some w' →
  (total_rank w' + length (List.filter (λ ev, negb (is_tick ev)) evs) <= total_rank w)%nat.
Proof.
  revert w. induction evs as [|ev evs IH]; intros w Hok H; cbn [run] in H.
  - injection H as <-. simpl. lia.
  - apply bind_Some in H as (w1 & Hs & H). pose proof (step_rank _ _ _ _ Hok Hs).
    specialize (IH w1 (step_ok _ _ _ _ Hok Hs) H). simpl. destruct (is_tick ev); simpl; lia.
Qed.

Definition is_settled (r : rd) : bool := match rd_phase r with Settled _ => true | _ => false end.

(** A reader that has not settled waits for the node, for its timer, or can
    run right now. *)
Lemma unsettled_progress config w i r :
  readers w !! i = Some r → (∀ v, rd_phase r ≠ Settled v) →
  ∃ ev ms w1 w2, is_tick ev = false ∧ step config w (Tick ms) = Some w1
    ∧ step config w1 ev = Some w2.
Proof.
  intros Hr Hn. destruct (rd_phase r) as [a|a u e|a e|e|v] eqn:Hp.
  - exists (Answer i (Throw (EExternal "closed"))), 0. do 2 eexists. split; [done|].
    split; [done|]. cbn [step readers]. rewrite Hr. cbn [mbind option_bind]. by rewrite Hp.
  - exists (Timer i), (Z.max 0 (u - now w)). do 2 eexists. split; [done|].
    cbn [step]. destruct (Z.leb_spec 0 (Z.max 0 (u - now w))); [|lia]. split; [done|].
    cbn [readers now]. rewrite Hr. cbn [mbind option_bind]. rewrite Hp.
    destruct (Z.leb_spec u (now w + Z.max 0 (u - now w))); [done | lia].
  - exists (Resume i), 0. do 2 eexists. split; [done|].
    split; [done|]. cbn [step readers]. rewrite Hr. cbn [mbind option_bind]. by rewrite Hp.
  - exists (Catch i), 0. do 2 eexists. split; [done|].
    split; [done|]. cbn [step readers]. rewrite Hr. cbn [mbind option_bind]. by rewrite Hp.
  - by destruct (Hn v).
Qed.

Lemma run_bounded (config : ReadConfig) (have : Have) (t : Z) (w w' : world) (evs : list event) :
  readChallengeInputs have (new_group t) = Ok w → run config w evs = Some w' →
  (length (List.filter (λ ev, negb (is_tick ev)) evs) <= 327)%nat.
Proof.
  intros Hs Hrun. pose proof (reachable_ok config _ _ _ _ Hs (reaches_refl _ _)) as Hok.
  pose proof (run_rank _ _ _ _ Hok Hrun).
  assert (total_rank w <= 327)%nat; [|lia].
  unfold readChallengeInputs in Hs. cbn [new_group isStopped firstFailure readers now app] in Hs.
  injection Hs as <-. unfold total_rank. cbn [readers]. unfold needed.
  by destruct (h_publicKeyBytes have), (h_slotOverride have); apply Nat.leb_le.
Qed.

(** C29.  The reads terminate: whatever the node answers, no run has more than
    327 events besides the passing of time, and as long as a reader has not
    settled some further event can happen, so a run that cannot be continued
    has settled every read. *)
Theorem reads_terminate (config : ReadConfig) (have : Have) (t : Z) (w w' : world)
    (evs : list event) :
  readChallengeInputs have (new_group t) = Ok w → run config w evs = Some w' →
  (length (List.filter (λ ev, negb (is_tick ev)) evs) <= 327)%nat
  ∧ (Forall (λ r, ∃ v, rd_phase r = Settled v) (readers w')
     ∨ ∃ ev ms w1 w2, is_tick ev = false ∧ step config w' (Tick ms) = Some w1
         ∧ step config w1 ev = Some w2).
Proof.
  intros Hs Hrun. split; [by eapply run_bounded|].
  destruct (decide (Exists (λ r, is_settled r = false) (readers w'))) as [Hex|Hno].
  - right. apply Exists_exists in Hex as (r & Hin & Hr). apply list_elem_of_lookup in Hin as [i Hi].
    eapply unsettled_progress; [done|]. intros v Hv. unfold is_settled in Hr. by rewrite Hv in Hr.
  - left. apply Forall_forall. intros r Hin. rewrite Exists_exists in Hno.
    destruct (rd_phase r) eqn:Hp; eauto; exfalso; apply Hno; exists r; unfold is_settled;
      by rewrite Hp.
Qed.
End reads.

(** ** Reading the program's authority account *)
Section values.
Context `{KL : KitLaws}.

(** From the program's own passkey authority account the reads return the
    stored counter and the stored 33-byte key, and the key read refuses any
    account that is not a v2 authority or not a passkey. *)
Theorem challenge_reads_authority (owner : address) (lamports disc ty role bump version counter policy : Z)
    (p1 p2 cred key rest : bytes) (wallet : address) :
  Forall (λ v, 0 <= v < 256) [disc; ty; role; bump; version] → 0 <= counter < 2 ^ 32 →
  length p1 = 3%nat → length p2 = 2%nat → length cred = 32%nat → length key = 33%nat →
  let account := AuthorityAccountHeader disc ty role bump version p1 counter policy p2 wallet
                 ++ cred ++ key ++ rest in
  let reply := RAccount (Some (view_of_bytes owner lamports account)) in
  finish ReadCounter reply = Ok (VCounter counter)
  ∧ finish ReadKey reply
    = if disc =? DISC_AUTHORITY
      then if ty =? AUTH_TYPE_SECP256R1 then Ok (VKey key) else Throw ENotSecp256r1
      else Throw ENotAuthority.
Proof.
  intros Hb Hc H1 H2 Hcr Hk account reply. rewrite !Forall_cons in Hb.
  destruct Hb as (Hd & Ht & _ & _ & _ & _).
  assert (Hacc : authority_bytes reply = Ok account)
    by (subst reply; unfold authority_bytes; apply decodeBase64_view).
  assert (Hlen : (113 <= length account)%nat)
    by (subst account; unfold AuthorityAccountHeader; autorewrite with lazor_len;
        rewrite H1, H2, Hcr, Hk; simpl; lia).
  unfold finish, readChallengeCounter, readChallengeKey. rewrite Hacc, !bind_ok.
  unfold throw_if. destruct (Nat.ltb_spec (length account) 12); [lia|].
  destruct (Nat.ltb_spec (length account) 113); [lia|]. rewrite !bind_ok. split.
  - unfold readU32.
    assert (Hsplit : account = ([u8 disc; u8 ty; u8 role; u8 bump; u8 version] ++ p1)
      ++ le_split 4 counter ++ le_split 2 policy ++ p2 ++ address_encode wallet ++ cred ++ key ++ rest)
      by (subst account; unfold AuthorityAccountHeader; by rewrite <- !app_assoc).
    rewrite Hsplit, getUint_mid by (rewrite ?length_app, ?length_le_split, ?H1; reflexivity).
    by rewrite le_combine_small.
  - unfold byte_is, byte_at. change (account !! 0%nat) with (Some (u8 disc)).
    change (account !! 1%nat) with (Some (u8 ty)). cbn [fmap option_fmap option_map].
    rewrite !val_u8_small by done. unfold AUTH_TYPE_SECP256R1.
    destruct (disc =? DISC_AUTHORITY); [|done]. cbn [negb]. rewrite bind_ok.
    destruct (ty =? 1); [|done]. cbn [negb]. rewrite bind_ok. do 2 f_equal.
    subst account. rewrite app_assoc. rewrite slice_mid; [done | |];
      unfold AuthorityAccountHeader; autorewrite with lazor_len; rewrite ?H1, ?H2, ?Hcr, ?Hk;
      simpl; lia.
Qed.
End values.

Import ConcreteKit.

Definition sample_have : Have := mkHave (Some (zeros 33)) None.
Definition sample_config : ReadConfig := mkConfig Confirmed (Some 5000).
Definition behind : result (@reply kit) := Throw E_MIN_CONTEXT_SLOT.

(** The slot read is told to wait; then the counter read fails for good. *)
Definition sample_events : list (@event kit) :=
  [Answer 0 behind; Tick 100; Timer 0; Resume 0; Answer 0 behind;
   Answer 1 (Throw (EExternal "HTTP 500")); Catch 1].

Definition sample_start : world := mkWorld 0 false None (start_reader 0 <$> [ReadSlot; ReadCounter]).
Definition sample_end : world :=
  mkWorld 100 true (Some (EExternal "HTTP 500"))
    [mkRd ReadSlot 0 (Awake 2 E_MIN_CONTEXT_SLOT);
     mkRd ReadCounter 0 (Settled (Throw (EExternal "HTTP 500")))].

Lemma sample_run : run sample_config sample_start sample_events = Some sample_end.
Proof. reflexivity. Qed.

Lemma run_reaches `{K : Kit} config (w w0 w' : world) evs :
  reaches config w w0 → run config w0 evs = Some w' → reaches config w w'.
Proof.
  revert w0. induction evs as [|ev evs IH]; intros w0 H; cbn [run].
  - by intros [= <-].
  - intros (w1 & Hs & Hr)%bind_Some. eapply IH; [|done]. by econstructor.
Qed.

Lemma group_reachable_inv_witness : group_inv sample_end.
Proof.
  apply (group_reachable_inv sample_config sample_have 0 sample_start sample_end eq_refl).
  exact (run_reaches _ _ _ _ _ (reaches_refl _ _) sample_run).
Defined.

(** Everyone ends, the waiting read included, without a further request. *)
Lemma stopped_group_is_silent_witness :
  ∃ w', run sample_config sample_end [Resume 0; Catch 0] = Some w' ∧ outstanding w' 0 = None.
Proof.
  eexists. split; [reflexivity|].
  destruct (outstanding _ 0) as [a|] eqn:Ho; [|reflexivity]. exfalso.
  assert (H : outstanding sample_end 0 = Some a).
  { eapply (stopped_group_is_silent sample_config sample_end _ 0 a eq_refl); [|exact Ho].
    apply (run_reaches _ _ _ _ [Resume 0; Catch 0] (reaches_refl _ _)). reflexivity. }
  discriminate H.
Defined.

Lemma polling_bounded_witness :
  ∃ w', run sample_config sample_start [Answer 0 behind; Tick 100; Timer 0; Resume 0] = Some w'
    ∧ 1 <= 2 <= 15.
Proof.
  eexists. split; [reflexivity|].
  eapply (polling_bounded sample_config sample_have 0 sample_start _ 0 2 eq_refl); [|].
  - apply (run_reaches _ _ _ _ [Answer 0 behind; Tick 100; Timer 0; Resume 0] (reaches_refl _ _)).
    reflexivity.
  - reflexivity.
Defined.

Lemma reads_terminate_witness : (length (List.filter (λ ev, negb (is_tick ev)) sample_events) <= 327)%nat.
Proof.
  exact (proj1 (reads_terminate sample_config sample_have 0 sample_start sample_end sample_events
    eq_refl sample_run)).
Defined.

Lemma challenge_reads_authority_witness :
  finish ReadCounter (RAccount (Some (view_of_bytes (at_byte 9) 1
    (AuthorityAccountHeader DISC_AUTHORITY 1 0 255 1 (zeros 3) 7 0 (zeros 2) (at_byte 1)
       ++ zeros 32 ++ zeros 33 ++ [])))) = Ok (VCounter 7).
Proof.
  refine (proj1 (@challenge_reads_authority kit kit_laws (at_byte 9) 1 DISC_AUTHORITY 1 0 255 1 7 0
    (zeros 3) (zeros 2) (zeros 32) (zeros 33) [] (at_byte 1) _ _ _ _ _ _)); try reflexivity; try lia.
  repeat (apply List.Forall_cons; [unfold DISC_AUTHORITY; lia|]). apply List.Forall_nil.
Defined.
