(* ===== verification/V1.v ===== *)
(** * Reading v1 wallets

    Models src/sdk/sdk-kit/src/v1.ts: the Token-2022 TLV reader and the checks
    built on it, the enumeration and classification of a v1 vault's token
    accounts, and the discovery of v1 wallets.  The RPC methods a function calls
    are its arguments. *)
From S2P Require Import Prelude Bytes Kit Constants JsMap Pdas Accounts.
Local Open Scope Z_scope.

Inductive UnmovableReason :=
  | RFrozen | RTransferHook | RNonTransferable | RPaused | RFrozenOnArrival | RCpiGuard
  | RMintMissing | RDestinationFrozen | RExcluded.

#[export] Instance UnmovableReason_eq_dec : EqDecision UnmovableReason.
Proof. solve_decision. Defined.

Definition TOKEN_STATE_OFFSET : nat := 108.
Definition TOKEN_STATE_FROZEN : Z := 2.
Definition TLV_START : nat := 166.
Definition EXT_TRANSFER_FEE_AMOUNT : Z := 2.
Definition EXT_DEFAULT_ACCOUNT_STATE : Z := 6.
Definition EXT_NON_TRANSFERABLE : Z := 9.
Definition EXT_CPI_GUARD : Z := 11.
Definition EXT_NON_TRANSFERABLE_ACCOUNT : Z := 13.
Definition EXT_TRANSFER_HOOK : Z := 14.
Definition EXT_PAUSABLE : Z := 26.

(** [data[i]! | (data[i + 1]! << 8)], both in range. *)
Definition u16_or (data : bytes) (i : nat) : Z :=
  Z.lor (val (data !!! i)) (Z.shiftl (val (data !!! S i)) 8).

(** The [while] loop of [tlvExtensions]: every turn moves [off] by at least
    four, so [length data] turns are enough ([tlv_fuel] below). *)
Fixpoint tlv_loop (fuel off : nat) (data : bytes) (out : list (Z * bytes)) : list (Z * bytes) :=
  match fuel with
  | O => out
  | S fuel =>
    if (off + 4 <=? length data)%nat then
      let type := u16_or data off in
      let len := u16_or data (off + 2) in
      if (type =? 0) && (len =? 0) then out
      else tlv_loop fuel (off + 4 + Z.to_nat len) data
             (map_set type (slice (off + 4) (off + 4 + Z.to_nat len) data) out)
    else out
  end.

Definition tlvExtensions (data : bytes) : list (Z * bytes) :=
  tlv_loop (length data) TLV_START data [].

(** [bytes.some((b) => b !== 0)]. *)
Definition some_nonzero (b : bytes) : bool := existsb (λ x, negb (val x =? 0)) b.

Definition tokenAccountWithheldFees (accountData : bytes) : bool :=
  match map_get EXT_TRANSFER_FEE_AMOUNT (tlvExtensions accountData) with
  | Some fees => (8 <=? length fees)%nat && some_nonzero (slice 0 8 fees)
  | None => false
  end.

Definition tokenAccountFrozen (accountData : bytes) : bool :=
  (TOKEN_STATE_OFFSET <? length accountData)%nat
  && byte_is accountData TOKEN_STATE_OFFSET TOKEN_STATE_FROZEN.

Definition tokenAccountBlocker (accountData : bytes) : option UnmovableReason :=
  if byte_is accountData TOKEN_STATE_OFFSET TOKEN_STATE_FROZEN then Some RFrozen
  else
    let ext := tlvExtensions accountData in
    if map_has EXT_NON_TRANSFERABLE_ACCOUNT ext then Some RNonTransferable
    else match map_get EXT_CPI_GUARD ext with
         | Some guard => if negb (byte_is guard 0 0) then Some RCpiGuard else None
         | None => None
         end.

Section v1.
Context `{K : Kit}.

Definition mintTransferHook (mintData : bytes) : result (option address) :=
  match map_get EXT_TRANSFER_HOOK (tlvExtensions mintData) with
  | Some value =>
    if (length value <? 64)%nat then Ok None
    else
      let program := slice 32 64 value in
      if some_nonzero program
      then Some <$> of_option (EExternal "decode") (address_decode program) else Ok None
  | None => Ok None
  end.

Definition mintBlocker (mintData : bytes) : result (option UnmovableReason) :=
  let ext := tlvExtensions mintData in
  if map_has EXT_NON_TRANSFERABLE ext then Ok (Some RNonTransferable)
  else
    hook ← mintTransferHook mintData;
    match hook with
    | Some _ => Ok (Some RTransferHook)
    | None =>
      if (match map_get EXT_PAUSABLE ext with
          | Some pausable => (33 <=? length pausable)%nat && negb (byte_is pausable 32 0)
          | None => false end)
      then Ok (Some RPaused)
      else match map_get EXT_DEFAULT_ACCOUNT_STATE ext with
           | Some state => Ok (if byte_is state 0 TOKEN_STATE_FROZEN then Some RFrozenOnArrival
                               else None)
           | None => Ok None
           end
    end.

Record V1VaultToken := mkToken {
  t_ata : address;
  t_mint : address;
  t_amount : Z;
  t_tokenProgram : address;
  t_frozen : bool;
  t_blocker : option UnmovableReason;
  t_withheldFees : bool;
}.

(** One [getTokenAccountsByOwner] entry. *)
Definition vault_token (tokenProgram : address) (entry : address * AccountView) : result V1VaultToken :=
  data ← decodeBase64 (av_data entry.2);
  mint ← tokenAccountMint data;
  amount ← tokenAccountAmount data;
  Ok (mkToken entry.1 mint amount tokenProgram
        (byte_is data TOKEN_STATE_OFFSET TOKEN_STATE_FROZEN)
        (tokenAccountBlocker data) (tokenAccountWithheldFees data)).

Definition enumerateV1VaultTokens
    (getTokenAccountsByOwner : address → address → result (list (address * AccountView)))
    (vault : address) : result (list V1VaultToken) :=
  out ← mapR (λ tokenProgram,
    value ← getTokenAccountsByOwner vault tokenProgram;
    mapR (vault_token tokenProgram) value) [TOKEN_PROGRAM_ADDRESS; TOKEN_2022_PROGRAM_ADDRESS];
  Ok (concat out).

(** [[...new Set(xs)]]. *)
Fixpoint js_unique (l : list address) (seen : list address) : list address :=
  match l with
  | [] => []
  | a :: l => if bool_decide (a ∈ seen) then js_unique l seen else a :: js_unique l (a :: seen)
  end.

Abbreviation MintInfo := (list (address * option (address * bytes))).

Definition mint_entry (info : option AccountView) : result (option (address * bytes)) :=
  match info with
  | Some i => d ← decodeBase64 (av_data i); Ok (Some (av_owner i, d))
  | None => Ok None
  end.

(** [value.forEach((info, j) => mintInfo.set(page[j], ...))]. *)
Fixpoint set_mints (page : list address) (value : list (option AccountView)) (m : MintInfo) :
    result MintInfo :=
  match page, value with
  | p :: page, info :: value => e ← mint_entry info; set_mints page value (map_set p e m)
  | _, _ => Ok m
  end.

(** [for (let i = 0; i < mints.length; i += 100)], from the page at the front
    of [mints]. *)
Fixpoint read_mints (getMultipleAccounts : list address → result (list (option AccountView)))
    (fuel : nat) (mints : list address) (m : MintInfo) : result MintInfo :=
  match fuel, mints with
  | S fuel, _ :: _ =>
      let page := take 100 mints in
      value ← getMultipleAccounts page;
      m ← set_mints page value m;
      read_mints getMultipleAccounts fuel (drop 100 mints) m
  | _, _ => Ok m
  end.

(** Why a candidate stays, or [None]. *)
Definition unmovable (mint : option (address * bytes)) (t : V1VaultToken) :
    result (option UnmovableReason) :=
  match t_blocker t with
  | Some r => Ok (Some r)
  | None =>
    if t_frozen t then Ok (Some RFrozen)
    else match mint with
         | None => Ok (Some RMintMissing)
         | Some (owner, data) =>
           if negb (bool_decide (owner = t_tokenProgram t)) then Ok (Some RMintMissing)
           else if bool_decide (t_tokenProgram t = TOKEN_2022_PROGRAM_ADDRESS) then mintBlocker data
           else Ok None
         end
  end.

(** The final loop, over the candidates. *)
Fixpoint classify_loop (mintInfo : MintInfo) (candidates movable : list V1VaultToken)
    (skipped : list (V1VaultToken * UnmovableReason)) :
    result (list V1VaultToken * list (V1VaultToken * UnmovableReason)) :=
  match candidates with
  | [] => Ok (movable, skipped)
  | t :: candidates =>
      reason ← unmovable (mjoin (map_get (t_mint t) mintInfo)) t;
      match reason with
      | Some r => classify_loop mintInfo candidates movable (skipped ++ [(t, r)])
      | None => classify_loop mintInfo candidates (movable ++ [t]) skipped
      end
  end.

Definition classifyV1VaultTokens
    (getMultipleAccounts : list address → result (list (option AccountView)))
    (tokens : list V1VaultToken) (exclude : list address) :
    result (list V1VaultToken * list (V1VaultToken * UnmovableReason)) :=
  let excluded t := bool_decide (t_ata t ∈ exclude) in
  let skipped := (λ t, (t, RExcluded)) <$> List.filter excluded tokens in
  let candidates := List.filter (λ t, negb (excluded t)) tokens in
  let mints := js_unique (t_mint <$> candidates) [] in
  mintInfo ← read_mints getMultipleAccounts (length mints) mints [];
  classify_loop mintInfo candidates [] skipped.

(** ** Finding v1 wallets *)
Record V1WalletRecord := mkV1Record {
  v1r_accounts : V1Accounts;
  v1r_role : option Z;
  v1r_authorityType : option Z;
  v1r_ownerPubkey : bytes;
}.

Inductive AuthorityTypeName := Ed25519 | Secp256r1.

Definition v1_record (programId : address) (entry : address * AccountView) : result V1WalletRecord :=
  data ← decodeBase64 (av_data entry.2);
  wallet ← of_option (EExternal "decode") (address_decode (slice 16 48 data));
  '(vault, _) ← findV1VaultPda wallet programId;
  let ownerPubkey := if byte_is data 1 1 then slice 80 113 data else slice 48 80 data in
  Ok (mkV1Record (mkV1 wallet vault entry.1) (byte_at data 2) (byte_at data 1) ownerPubkey).

Definition findV1WalletsByOwner
    (getProgramAccounts : address → list (nat * bytes) → result (list (address * AccountView)))
    (ownerIdSeed : bytes) (programId : address) (authorityType : AuthorityTypeName) :
    result (list V1WalletRecord) :=
  (throw! EByteLength "ownerIdSeed" 32 (length ownerIdSeed)
     when negb (length ownerIdSeed =? 32)%nat;
   let discAndType := [u8 V1_DISC_AUTHORITY; u8 (match authorityType with Ed25519 => 0 | Secp256r1 => 1 end)] in
   accounts ← getProgramAccounts programId [(0%nat, discAndType); (48%nat, ownerIdSeed)];
   mapR (v1_record programId) accounts)%js.

Record V1State := mkV1State {
  ownerAuthType : option Z;
  ownerRole : option Z;
  vaultLamports : Z;
}.

Definition readV1WalletState
    (getMultipleAccounts : list address → result (list (option AccountView)))
    (accounts : V1Accounts) : result (option V1State) :=
  value ← getMultipleAccounts [v1_wallet accounts; v1_authority accounts; v1_vault accounts];
  match mjoin (value !! 0%nat) with
  | None => Ok None
  | Some walletInfo =>
    walletData ← decodeBase64 (av_data walletInfo);
    if (length walletData =? 0)%nat || negb (byte_is walletData 0 V1_DISC_WALLET) then Ok None
    else match mjoin (value !! 1%nat) with
         | None => Ok None
         | Some authInfo =>
           authData ← decodeBase64 (av_data authInfo);
           if negb (byte_is authData 0 V1_DISC_AUTHORITY) then Ok None
           else Ok (Some (mkV1State (byte_at authData 1) (byte_at authData 2)
                            (match mjoin (value !! 2%nat) with Some v => av_lamports v | None => 0 end)))
         end
  end.
End v1.

(** ** TLV *)

(** One extension as the token program writes it. *)
Definition ext_bytes (e : Z * bytes) : bytes :=
  le_split 2 e.1 ++ le_split 2 (Z.of_nat (length e.2)) ++ e.2.

Definition ext_ok (e : Z * bytes) : Prop :=
  0 <= e.1 < 2 ^ 16 ∧ Z.of_nat (length e.2) < 2 ^ 16 ∧ (e.1, length e.2) ≠ (0, 0%nat).

(** The end of the extensions: no room for another header, or a zero one. *)
Definition tlv_end (tail : bytes) : Prop := (length tail < 4)%nat ∨ take 4 tail = zeros 4.

Lemma u16_or_le pre x y rest :
  u16_or (pre ++ x :: y :: rest) (length pre) = le_combine [x; y].
Proof.
  unfold u16_or. rewrite lookup_total_app_r by lia. rewrite Nat.sub_diag.
  rewrite lookup_total_app_r by lia. replace (S (length pre) - length pre)%nat with 1%nat by lia.
  change (le_combine [x; y]) with (Z.lor (val x) (Z.shiftl (Z.lor (val y) (Z.shiftl 0 8)) 8)).
  by rewrite Z.shiftl_0_l, Z.lor_0_r.
Qed.

Lemma u16_or_at pre v rest i :
  i = length pre → 0 <= v < 2 ^ 16 → u16_or (pre ++ le_split 2 v ++ rest) i = v.
Proof.
  intros -> Hv. pose proof (le_combine_small 2 v Hv) as H. pose proof (length_le_split 2 v) as Hl.
  destruct (le_split 2 v) as [|x [|y [|]]]; try discriminate Hl.
  by rewrite <- app_comm_cons, <- app_comm_cons, app_nil_l, u16_or_le.
Qed.

Lemma tlv_loop_end fuel pre tail out :
  tlv_end tail → tlv_loop fuel (length pre) (pre ++ tail) out = out.
Proof.
  intros H. destruct fuel as [|fuel]; [done|]. cbn [tlv_loop]. rewrite length_app.
  destruct (Nat.leb_spec (length pre + 4) (length pre + length tail)) as [Hl|]; [|done].
  destruct H as [H|H]; [lia|]. rewrite <- (take_drop 4 tail), H.
  change (zeros 4 ++ drop 4 tail) with (le_split 2 0 ++ le_split 2 0 ++ drop 4 tail).
  rewrite u16_or_at by lia. rewrite app_assoc, u16_or_at; [done | | lia].
  rewrite length_app, length_le_split. lia.
Qed.

Lemma tlv_loop_exts exts fuel pre tail out :
  Forall ext_ok exts → (length exts <= fuel)%nat → tlv_end tail →
  tlv_loop fuel (length pre) (pre ++ concat (ext_bytes <$> exts) ++ tail) out
  = fold_left (λ m e, map_set e.1 e.2 m) exts out.
Proof.
  intros H. revert fuel pre out. induction H as [|[t v] exts (Ht & Hv & Hne) _ IH];
    intros fuel pre out Hf Htl; [by apply tlv_loop_end|].
  destruct fuel as [|fuel]; [simpl in Hf; lia|]. cbn [fst snd] in *.
  rewrite fmap_cons. cbn [concat]. unfold ext_bytes at 1. cbn [fst snd].
  set (rest := concat (ext_bytes <$> exts) ++ tail).
  rewrite <- !app_assoc. fold rest. cbn [tlv_loop].
  set (d := pre ++ _).
  destruct (Nat.leb_spec (length pre + 4) (length d)) as [_|Hlt].
  2:{ exfalso. subst d. autorewrite with lazor_len in Hlt. lia. }
  assert (H1 : u16_or d (length pre) = t) by (by apply u16_or_at).
  assert (H2 : u16_or d (length pre + 2) = Z.of_nat (length v)).
  { subst d. rewrite app_assoc. apply u16_or_at; [|lia]. rewrite length_app, length_le_split. lia. }
  assert (H3 : slice (length pre + 4) (length pre + 4 + length v) d = v).
  { subst d. rewrite (app_assoc (le_split 2 t)), app_assoc.
    apply slice_mid; rewrite !length_app, !length_le_split; lia. }
  rewrite H1, H2, Nat2Z.id, H3. cbn [fold_left fst snd].
  assert (Hne' : (t =? 0) && (Z.of_nat (length v) =? 0) = false).
  { destruct (Z.eqb_spec t 0), (Z.eqb_spec (Z.of_nat (length v)) 0); try done.
    exfalso. apply Hne. f_equal; lia. }
  rewrite Hne'.
  specialize (IH fuel (pre ++ ext_bytes (t, v)) (map_set t v out) ltac:(simpl in Hf; lia) Htl).
  rewrite <- IH. subst d rest. unfold ext_bytes at 4. cbn [fst snd].
  rewrite <- !app_assoc. f_equal. unfold ext_bytes. cbn [fst snd].
  rewrite !length_app, !length_le_split. lia.
Qed.

(** The TLV reader returns exactly the extensions the token program
    wrote, later duplicates replacing earlier ones, whatever the 166 bytes
    before them and however the account's tail ends. *)
Theorem tlv_roundtrip (base : bytes) (exts : list (Z * bytes)) (tail : bytes) :
  length base = TLV_START → Forall ext_ok exts → tlv_end tail →
  tlvExtensions (base ++ concat (ext_bytes <$> exts) ++ tail)
  = fold_left (λ m e, map_set e.1 e.2 m) exts [].
Proof.
  intros Hb H Ht. unfold tlvExtensions. rewrite <- Hb. apply tlv_loop_exts; [done| |done].
  rewrite length_app. apply Nat.le_trans with (length (concat (ext_bytes <$> exts)));
    [|rewrite length_app; lia].
  clear H. induction exts as [|e exts IH]; [done|]. rewrite fmap_cons. cbn [concat].
  unfold ext_bytes at 1. rewrite !length_app, length_le_split. simpl length. lia.
Qed.

(** ** Classification *)
Section classify.
Context `{KL : KitLaws}.

Lemma elem_of_js_unique l seen a : a ∈ js_unique l seen ↔ a ∈ l ∧ a ∉ seen.
Proof.
  revert seen. induction l as [|x l IH]; intros seen; simpl; [set_solver|].
  case_bool_decide; [rewrite IH; set_solver|]. rewrite elem_of_cons, IH.
  destruct (decide (a = x)) as [->|]; set_solver.
Qed.

Lemma mintBlocker_total d : ∃ r, mintBlocker d = Ok r.
Proof.
  unfold mintBlocker. destruct (map_has _ _); [eauto|].
  assert (∃ h, mintTransferHook d = Ok h) as [h ->].
  { unfold mintTransferHook. destruct (map_get _ _) as [v|]; [|eauto].
    destruct (Nat.ltb_spec (length v) 64); [eauto|]. destruct (some_nonzero _); [|eauto].
    destruct (address_encode_decode (slice 32 64 v)) as (a & -> & _); [rewrite length_slice; lia|].
    by eexists. }
  rewrite bind_ok. destruct h; [eauto|]. repeat case_match; eauto.
Qed.

Lemma unmovable_total mint t : ∃ r, unmovable mint t = Ok r.
Proof.
  unfold unmovable. destruct (t_blocker t); [eauto|]. destruct (t_frozen t); [eauto|].
  destruct mint as [[o d]|]; [|eauto]. destruct (negb _); [eauto|].
  case_bool_decide; [apply mintBlocker_total | eauto].
Qed.

Lemma classify_loop_ok mintInfo cands movable skipped :
  ∃ mv sk, classify_loop mintInfo cands movable skipped = Ok (movable ++ mv, skipped ++ sk)
    ∧ mv ++ sk.*1 ≡ₚ cands
    ∧ (∀ t, t ∈ mv → unmovable (mjoin (map_get (t_mint t) mintInfo)) t = Ok None)
    ∧ (∀ t r, (t, r) ∈ sk → unmovable (mjoin (map_get (t_mint t) mintInfo)) t = Ok (Some r)).
Proof.
  revert movable skipped. induction cands as [|t cands IH]; intros movable skipped.
  { exists [], []. rewrite !app_nil_r. split; [done|]. split; [done|]. split; set_solver. }
  cbn [classify_loop]. destruct (unmovable_total (mjoin (map_get (t_mint t) mintInfo)) t) as [r Hr].
  rewrite Hr, bind_ok. destruct r as [r|].
  - destruct (IH movable (skipped ++ [(t, r)])) as (mv & sk & -> & Hp & Hm & Hs).
    exists mv, ((t, r) :: sk). rewrite <- app_assoc. split; [done|]. split; [|split; [done|]].
    + rewrite fmap_cons. cbn [fst]. rewrite <- Permutation_middle. by rewrite Hp.
    + intros t' r' [[= -> ->]|H]%elem_of_cons; [done | by apply Hs].
  - destruct (IH (movable ++ [t]) skipped) as (mv & sk & -> & Hp & Hm & Hs).
    exists (t :: mv), sk. rewrite <- app_assoc. split; [done|]. split; [|split; [|done]].
    + cbn [app]. by rewrite Hp.
    + intros t' [->|H]%elem_of_cons; [done | by apply Hm].
Qed.

(** A snapshot of the chain, and an RPC node that answers from it for up to a
    hundred addresses a call. *)
Variable chain : address → option (address * Z * bytes).
Variable getMultipleAccounts : list address → result (list (option AccountView)).

Definition chain_view (a : address) : option AccountView :=
  (λ '(o, l, b), view_of_bytes o l b) <$> chain a.
Definition chain_mint (a : address) : option (address * bytes) :=
  (λ '(o, l, b), (o, b)) <$> chain a.

Hypothesis rpc_answers : ∀ l, (length l <= 100)%nat → getMultipleAccounts l = Ok (chain_view <$> l).

Lemma mint_entry_ok a : mint_entry (chain_view a) = Ok (chain_mint a).
Proof.
  unfold chain_view, chain_mint. destruct (chain a) as [[[o l] b]|]; [|done].
  cbn [fmap option_fmap option_map mint_entry]. by rewrite decodeBase64_view.
Qed.

Lemma set_mints_ok page m :
  ∃ m', set_mints page (chain_view <$> page) m = Ok m'
    ∧ ∀ a, map_get a m' = if decide (a ∈ page) then Some (chain_mint a) else map_get a m.
Proof.
  revert m. induction page as [|p page IH]; intros m.
  { exists m. split; [done|]. intros a. by rewrite decide_False by set_solver. }
  rewrite fmap_cons. cbn [set_mints]. rewrite mint_entry_ok, bind_ok.
  destruct (IH (map_set p (chain_mint p) m)) as (m' & Hm & Hget). exists m'. split; [done|].
  intros a. rewrite Hget, map_get_set.
  destruct (decide (a ∈ page)); [by rewrite decide_True by set_solver|].
  destruct (decide (a = p)) as [->|]; [by rewrite decide_True by set_solver|].
  by rewrite decide_False by set_solver.
Qed.

Lemma read_mints_ok fuel mints m :
  (length mints <= fuel)%nat →
  ∃ m', read_mints getMultipleAccounts fuel mints m = Ok m'
    ∧ ∀ a, map_get a m' = if decide (a ∈ mints) then Some (chain_mint a) else map_get a m.
Proof.
  revert mints m. induction fuel as [|fuel IH]; intros mints m Hl.
  { destruct mints; [|simpl in Hl; lia]. exists m. split; [done|]. intros a.
    by rewrite decide_False by set_solver. }
  destruct mints as [|x mints'] eqn:Hm.
  { exists m. split; [done|]. intros a. by rewrite decide_False by set_solver. }
  rewrite <- Hm. assert (Hlen : (0 < length mints)%nat) by (subst; simpl; lia).
  rewrite <- Hm in Hl. clear Hm. cbn [read_mints].
  destruct mints as [|y mints'']; [simpl in Hlen; lia|]. remember (y :: mints'') as ms eqn:Hms.
  rewrite rpc_answers, bind_ok by (rewrite length_take; lia).
  destruct (set_mints_ok (take 100 ms) m) as (m1 & -> & Hg1). rewrite bind_ok.
  destruct (IH (drop 100 ms) m1) as (m2 & -> & Hg2); [rewrite length_drop; lia|].
  exists m2. split; [done|]. intros a. rewrite Hg2, Hg1.
  assert (Hin : a ∈ ms ↔ a ∈ take 100 ms ∨ a ∈ drop 100 ms)
    by (by rewrite <- elem_of_app, take_drop).
  destruct (decide (a ∈ drop 100 ms)); [by rewrite decide_True by naive_solver|].
  destruct (decide (a ∈ take 100 ms)); [by rewrite decide_True by naive_solver|].
  by rewrite decide_False by naive_solver.
Qed.

(** Everything the migration can take: not blocked, not frozen, its mint alive
    under its own token program and, for Token-2022, not blocking. *)
Definition can_move (t : V1VaultToken) : Prop :=
  t_blocker t = None ∧ t_frozen t = false
  ∧ ∃ lamports d, chain (t_mint t) = Some (t_tokenProgram t, lamports, d)
      ∧ (t_tokenProgram t = TOKEN_2022_PROGRAM_ADDRESS → mintBlocker d = Ok None).

Lemma unmovable_none t : unmovable (chain_mint (t_mint t)) t = Ok None ↔ can_move t.
Proof.
  unfold unmovable, can_move, chain_mint.
  destruct (t_blocker t); [naive_solver|]. destruct (t_frozen t); [naive_solver|].
  destruct (chain (t_mint t)) as [[[o l] d]|]; cbn [fmap option_fmap option_map];
    [|split; [done|]; by intros (_ & _ & ? & ? & ? & _)].
  case_bool_decide as Ho; cbn [negb].
  2:{ split; [done|]. intros (_ & _ & ? & ? & [= -> -> ->] & _). done. }
  subst o. case_bool_decide as Ht; split.
  - intros H. eauto 10.
  - intros (_ & _ & ? & ? & [= -> ->] & H). by apply H.
  - intros _. split; [done|]. split; [done|]. exists l, d. done.
  - done.
Qed.

Lemma filter_split {A} (p : A → bool) l :
  List.filter p l ++ List.filter (λ x, negb (p x)) l ≡ₚ l.
Proof.
  induction l as [|x l IH]; [done|]. cbn [List.filter]. destruct (p x); cbn [negb app].
  - by rewrite IH.
  - rewrite <- Permutation_middle. by rewrite IH.
Qed.

(** Classification accounts for every token of the vault exactly once:
    the movable ones are exactly those the migration can take and the caller
    did not exclude, and every other one is reported with its reason.  Nothing
    is dropped silently, and no RPC call names more than a hundred mints. *)
Theorem classify_partition (tokens : list V1VaultToken) (exclude : list address) :
  ∃ movable skipped,
    classifyV1VaultTokens getMultipleAccounts tokens exclude = Ok (movable, skipped)
    ∧ movable ++ skipped.*1 ≡ₚ tokens
    ∧ (∀ t, t ∈ movable ↔ t ∈ tokens ∧ (t_ata t ∉ exclude) ∧ can_move t)
    ∧ (∀ t r, (t, r) ∈ skipped →
         if decide (t_ata t ∈ exclude) then r = RExcluded
         else unmovable (chain_mint (t_mint t)) t = Ok (Some r)).
Proof.
  unfold classifyV1VaultTokens. cbv zeta. set (excluded := λ t, bool_decide (t_ata t ∈ exclude)).
  set (cands := List.filter (λ t, negb (bool_decide (t_ata t ∈ exclude))) tokens).
  destruct (read_mints_ok _ (js_unique (t_mint <$> cands) []) [] (Nat.le_refl _)) as (mi & -> & Hmi).
  rewrite bind_ok.
  destruct (classify_loop_ok mi cands [] ((λ t, (t, RExcluded)) <$> List.filter excluded tokens))
    as (mv & sk & -> & Hp & Hm & Hs). cbn [app].
  assert (Hcand : ∀ t, t ∈ cands ↔ t ∈ tokens ∧ t_ata t ∉ exclude).
  { intros t. subst cands excluded. rewrite elem_of_filter_bool, negb_true_iff, bool_decide_eq_false.
    done. }
  assert (Hmint : ∀ t, t ∈ cands → mjoin (map_get (t_mint t) mi) = chain_mint (t_mint t)).
  { intros t Ht. rewrite Hmi, decide_True; [done|]. apply elem_of_js_unique. split; [|set_solver].
    apply list_elem_of_fmap. eauto. }
  assert (Hin : ∀ t, t ∈ mv ∨ t ∈ sk.*1 ↔ t ∈ cands) by (intros t; rewrite <- Hp; set_solver).
  eexists _, _. split; [done|]. split; [|split].
  - rewrite fmap_app, <- list_fmap_compose, (list_fmap_id _), app_assoc,
      (Permutation_app_comm mv), <- app_assoc, Hp. apply filter_split.
  - intros t. split.
    + intros Ht. assert (Hc : t ∈ cands) by (apply Hin; by left).
      apply Hcand in Hc as Hc'. split; [naive_solver|]. split; [naive_solver|].
      apply unmovable_none. rewrite <- (Hmint t Hc). by apply Hm.
    + intros (Ht & He & Hmv). assert (Hc : t ∈ cands) by (by apply Hcand).
      apply Hin in Hc as [|Hsk]; [done|]. apply list_elem_of_fmap in Hsk as ([t' r] & -> & Hsk).
      assert (Hc : t' ∈ cands) by (by apply Hcand). cbn [fst] in *.
      apply Hs in Hsk. rewrite (Hmint t' Hc) in Hsk. apply unmovable_none in Hmv. congruence.
  - intros t r [Hin1|Hin2]%elem_of_app.
    + apply list_elem_of_fmap in Hin1 as (t' & [= <- <-] & Hf).
      apply elem_of_filter_bool in Hf as [_ Hf]. unfold excluded in Hf.
      apply bool_decide_eq_true in Hf. by rewrite decide_True.
    + assert (Hc : t ∈ cands) by (apply Hin; right; apply list_elem_of_fmap; by exists (t, r)).
      apply Hcand in Hc as Hc'. rewrite decide_False by naive_solver.
      rewrite <- (Hmint t Hc). by apply Hs.
Qed.
End classify.

Import ConcreteKit.

Lemma tlv_roundtrip_witness :
  tlvExtensions (zeros 166 ++ concat (ext_bytes <$> [(9, []); (26, zeros 33)]) ++ zeros 10)
  = [(9, []); (26, zeros 33)].
Proof.
  rewrite (tlv_roundtrip (zeros 166) [(9, []); (26, zeros 33)] (zeros 10)).
  - reflexivity.
  - reflexivity.
  - repeat (apply List.Forall_cons; [split; [simpl; lia|]; split; [simpl; lia | done]|]).
    apply List.Forall_nil.
  - right. reflexivity.
Defined.

(** A vault with one movable token and one whose mint is gone. *)
Definition sample_chain (a : addr) : option (addr * Z * bytes) :=
  if decide (a = at_byte 1) then Some (at_byte 9, 1, []) else None.
Definition sample_rpc (l : list addr) : result (list (option (@AccountView kit))) :=
  Ok (@chain_view kit sample_chain <$> l).
Definition sample_token (ata mint : Z) : @V1VaultToken kit :=
  @mkToken kit (at_byte ata) (at_byte mint) 5 (at_byte 9) false None false.

Lemma classify_partition_witness :
  ∃ movable skipped,
    classifyV1VaultTokens sample_rpc [sample_token 3 1; sample_token 4 2] [] = Ok (movable, skipped)
    ∧ movable ++ skipped.*1 ≡ₚ [sample_token 3 1; sample_token 4 2].
Proof.
  destruct (@classify_partition kit kit_laws sample_chain sample_rpc (λ l _, eq_refl)
    [sample_token 3 1; sample_token 4 2] []) as (mv & sk & H & Hp & _).
  exists mv, sk. split; [exact H | exact Hp].
Defined.
