(* ===== verification/ClientHelpers.v ===== *)
(** * The client's helpers

    Models the internal functions at the top of src/sdk/sdk-kit/src/client.ts:
    argument checks, token grants over a vault, the runtime's view of account
    roles, and the predicates the client decides with. *)
From S2P Require Import Prelude Bytes Kit Constants JsMap Pdas Actions Packing Compact Accounts.
From S2P Require Import Ownership.
Local Open Scope Z_scope.

(** Where each instruction's account list has the instructions sysvar. *)
Definition SYSVAR_IX_INDEX_ADD_AUTHORITY : Z := 6.
Definition SYSVAR_IX_INDEX_REMOVE_AUTHORITY : Z := 5.
Definition SYSVAR_IX_INDEX_TRANSFER_OWNERSHIP : Z := 7.
Definition SYSVAR_IX_INDEX_EXECUTE : Z := 4.
Definition SYSVAR_IX_INDEX_CREATE_SESSION : Z := 6.
Definition SYSVAR_IX_INDEX_AUTHORIZE : Z := 6.
Definition SYSVAR_IX_INDEX_REVOKE_SESSION : Z := 5.
Definition SYSVAR_IX_INDEX_MIGRATE_WALLET : Z := 7.

Definition assertByteLength (value : bytes) (expected : nat) (name : string) : result unit :=
  throw_if (negb (length value =? expected)%nat) (EByteLength name expected (length value)).

Definition assertNonZeroBytes (value : bytes) (name : string) : result unit :=
  throw_if (forallb (λ b, val b =? 0) value) (EAllZero name).

Definition assertAddAuthorityRole (role : Z) (allowOwner : option bool) (policy : option bytes) :
    result unit :=
  let allowOwner := default false allowOwner in
  let non_empty := match policy with Some p => negb (length p =? 0)%nat | None => false end in
  (throw! EOwnerNeedsOptIn when (role =? ROLE_OWNER) && negb allowOwner;
   throw! ERoleOutOfRange role when (role <? 0) || (2 <? role);
   throw! EDelegateNeedsPolicy when (role =? ROLE_SPENDER) && negb non_empty;
   throw! EPolicyRankMismatch when negb (role =? ROLE_SPENDER) && non_empty;
   Ok ())%js.

Definition TOKEN_DELEGATE : nat := 72.
Definition TOKEN_CLOSE_AUTHORITY : nat := 129.
Definition TOKEN_ACCOUNT_LEN : nat := 165.
Definition U64_MAX : Z := 0xffffffffffffffff.

Definition roleName (role : option Z) : AuthorityRoleName :=
  match role with
  | Some 0 => RoleOwner | Some 1 => RoleAdmin | Some 2 => RoleSpender | _ => RoleUnknown
  end.

(** [slots.reduce((a, b) => (a > b ? a : b))] of a first slot and the rest. *)
Definition maxSlot (first : Z) (rest : list Z) : Z :=
  fold_left (λ a b, if b <? a then a else b) rest first.

Section helpers.
Context `{K : Kit}.

Inductive CreateWalletOwner :=
  | OwnerEd25519 (publicKey : address)
  | OwnerSecp256r1 (credentialIdHash compressedPubkey : bytes) (rpId : string).

Record OwnerFields := mkOwnerFields {
  authType : Z;
  credentialOrPubkey : bytes;
  secp256r1Pubkey : option bytes;
  of_rpId : option string;
}.

Definition resolveOwnerFields (owner : CreateWalletOwner) : result OwnerFields :=
  match owner with
  | OwnerEd25519 publicKey =>
      let publicKeyBytes := address_encode publicKey in
      _ ← assertNonZeroBytes publicKeyBytes "publicKey";
      Ok (mkOwnerFields AUTH_TYPE_ED25519 publicKeyBytes None None)
  | OwnerSecp256r1 credentialIdHash compressedPubkey rpId =>
      _ ← assertByteLength credentialIdHash 32 "credentialIdHash";
      _ ← assertByteLength compressedPubkey 33 "compressedPubkey";
      _ ← assertNonZeroBytes credentialIdHash "credentialIdHash";
      _ ← assertNonZeroBytes compressedPubkey "compressedPubkey";
      Ok (mkOwnerFields AUTH_TYPE_SECP256R1 credentialIdHash (Some compressedPubkey) (Some rpId))
  end.

Definition assertSessionActions (actions : option (list SessionAction)) (unrestricted : option bool) :
    result unit :=
  let none := match actions with None => true | Some l => (length l =? 0)%nat end in
  throw_if (none && negb (default false unrestricted)) EUnrestrictedSession.

(** ** Token grants *)
Definition WATCHED_MINTS : list address :=
  address_lit <$> ["So11111111111111111111111111111111111111112";
                   "EPjFWdd5AufqSSqeM2qN1xzybapC8G4wEGGkZwyTDt1v";
                   "Es9vMFrzaCERmJfrF4H2FYD4KCoNkY11McCe8BenwNYB";
                   "4zMMC9srt5Ri5X14GAgXhaHii3GnPAEERYPJgZJDncDU"]%string.

Fixpoint push_mints (mints : list address) (extra : list string) : result (list address) :=
  match extra with
  | [] => Ok mints
  | m :: extra =>
      mint ← of_option (EExternal "address") (parse_address m);
      push_mints (if bool_decide (mint ∈ mints) then mints else mints ++ [mint]) extra
  end.

Definition watchedMints (extra : list string) : result (list address) :=
  push_mints WATCHED_MINTS extra.

(** [addressFromBytes]. *)
Definition addressFromBytes (b : bytes) : result address :=
  of_option (EExternal "decode") (address_decode b).

Definition unreadableGrant (tokenAccount tokenProgram : address) : TokenGrant :=
  mkGrant tokenAccount tokenProgram None GrantUnreadable None false.

(** One of the two [COption] fields of a token account. *)
Definition grant_at (pubkey tokenProgram mint vault : address) (trustedKeys : list address)
    (data : bytes) (kind : GrantKind) (offset : nat) : result (list TokenGrant) :=
  tag ← readU32 data offset;
  if tag =? 0 then Ok []
  else
    grantee ← addressFromBytes (slice (offset + 4) (offset + 36) data);
    if bool_decide (grantee = vault) then Ok []
    else Ok [mkGrant pubkey tokenProgram (Some mint) kind (Some grantee)
               (bool_decide (grantee ∈ trustedKeys))].

Definition grants_of (tokenProgram vault : address) (trustedKeys : list address)
    (account : address * bytes) : result (list TokenGrant) :=
  let '(pubkey, data) := account in
  if (length data <? TOKEN_ACCOUNT_LEN)%nat then Ok [unreadableGrant pubkey tokenProgram]
  else
    mint ← addressFromBytes (slice 0 32 data);
    d ← grant_at pubkey tokenProgram mint vault trustedKeys data GrantDelegate TOKEN_DELEGATE;
    c ← grant_at pubkey tokenProgram mint vault trustedKeys data GrantCloseAuthority
          TOKEN_CLOSE_AUTHORITY;
    Ok (d ++ c).

Definition grantsOn (accounts : list (address * bytes)) (tokenProgram vault : address)
    (trustedKeys : list address) : result (list TokenGrant) :=
  gs ← mapR (grants_of tokenProgram vault trustedKeys) accounts; Ok (concat gs).

(** A watched account: its address, its mint, and what the chain holds there. *)
Record Watched := mkWatched {
  wt_address : address;
  wt_mint : address;
  wt_info : option (address * bytes);
}.

Definition watched_grant (vault : address) (trustedKeys : list address) (w : Watched) :
    result (list TokenGrant) :=
  match wt_info w with
  | None => Ok []
  | Some (owner, data) =>
    if negb (bool_decide (owner = TOKEN_PROGRAM_ADDRESS)) then Ok []
    else if (length data <? 64)%nat then Ok [unreadableGrant (wt_address w) TOKEN_PROGRAM_ADDRESS]
    else
      o ← addressFromBytes (slice 32 64 data);
      if bool_decide (o = vault) then Ok []
      else Ok [mkGrant (wt_address w) TOKEN_PROGRAM_ADDRESS (Some (wt_mint w)) GrantOwner (Some o)
                 (bool_decide (o ∈ trustedKeys))]
  end.

Definition vaultTokenGrants (vault : address) (spl token2022 : list (address * bytes))
    (watched : list Watched) (trustedKeys : list address) : result (list TokenGrant) :=
  a ← grantsOn spl TOKEN_PROGRAM_ADDRESS vault trustedKeys;
  b ← grantsOn token2022 TOKEN_2022_PROGRAM_ADDRESS vault trustedKeys;
  c ← mapR (watched_grant vault trustedKeys) watched;
  Ok (a ++ b ++ concat c).

(** Why a destination token account is refused; the texts of [grantPhrase] are
    their grant. *)
Inductive DestinationProblem :=
  | WrongProgram (owner : address)
  | Unreadable
  | WrongOwner (owner : address)
  | HasGrant (g : TokenGrant).

Definition destinationTokenAccountProblem (dest : address) (info : address * bytes)
    (tokenProgram vault : address) : result (option DestinationProblem) :=
  let '(owner, data) := info in
  if negb (bool_decide (owner = tokenProgram)) then Ok (Some (WrongProgram owner))
  else if (length data <? TOKEN_ACCOUNT_LEN)%nat then Ok (Some Unreadable)
  else
    o ← addressFromBytes (slice 32 64 data);
    if negb (bool_decide (o = vault)) then Ok (Some (WrongOwner o))
    else
      gs ← grantsOn [(dest, data)] tokenProgram vault [];
      Ok (match gs with g :: _ => Some (HasGrant g) | [] => None end).

Definition isSystemAccount (info : option (address * bytes)) : bool :=
  match info with
  | None => true
  | Some (owner, data) => bool_decide (owner = SYSTEM_PROGRAM_ADDRESS) && (length data =? 0)%nat
  end.

(** [OWNERSHIP_DISCS[version].wallet]. *)
Definition wallet_disc (version : Z) : Z := if version =? 1 then V1_DISC_WALLET else DISC_WALLET.

Definition isLiveWallet (programId : address) (version : Z) (info : option (address * bytes)) : bool :=
  match info with
  | None => false
  | Some (owner, data) =>
      bool_decide (owner = programId) && negb (length data =? 0)%nat
      && byte_is data 0 (wallet_disc version)
  end.

(** ** Roles *)
Definition role_of_num (n : Z) : AccountRole :=
  if n =? 0 then READONLY else if n =? 1 then WRITABLE
  else if n =? 2 then READONLY_SIGNER else WRITABLE_SIGNER.

Definition union_add (union : list (address * Z)) (a : address) (role : Z) : list (address * Z) :=
  map_set a (Z.lor (default 0 (map_get a union)) role) union.

Definition withRuntimeRoles (metas : list AccountMeta) (feePayer : option address) :
    list AccountMeta :=
  let union := fold_left (λ u m, union_add u (m_address m) (role_num (m_role m))) metas [] in
  let union := match feePayer with
               | Some f => union_add union f (role_num WRITABLE_SIGNER)
               | None => union
               end in
  (λ m, mkMeta (m_address m) (role_of_num (default 0 (map_get (m_address m) union)))) <$> metas.

Definition payer_slot (byte : Z) : bool :=
  let index := (decodeAccountIndex byte).1 in (index =? 0) || (index =? 4).

Definition namesDeferredPayerSlot (compactInstructions : list CompactInstruction) : bool :=
  existsb (λ ix, payer_slot (programIdIndex ix) || existsb payer_slot (accountIndexes ix))
    compactInstructions.
End helpers.

(** ** What the checks accept *)

(** AddAuthority's argument check accepts exactly what the program does:
    an Owner only on request and never with a policy, an Admin without a
    policy, a Delegate with a non-empty one. *)
Theorem assertAddAuthorityRole_iff (role : Z) (allowOwner : option bool) (policy : option bytes) :
  assertAddAuthorityRole role allowOwner policy = Ok () ↔
  (role = ROLE_OWNER ∧ allowOwner = Some true ∧ default [] policy = [])
  ∨ (role = ROLE_ADMIN ∧ default [] policy = [])
  ∨ (role = ROLE_SPENDER ∧ default [] policy ≠ []).
Proof.
  unfold assertAddAuthorityRole, throw_if, ROLE_OWNER, ROLE_ADMIN, ROLE_SPENDER.
  set (p := default [] policy).
  assert (Hp : (match policy with Some p => negb (length p =? 0)%nat | None => false end)
               = negb (bool_decide (p = []))).
  { subst p. destruct policy as [[|]|]; done. }
  rewrite Hp. case_bool_decide as Hn; cbn [negb andb].
  all: destruct (Z.eqb_spec role 0) as [->|]; destruct allowOwner as [[]|]; cbn [default negb andb];
    try naive_solver.
  all: destruct (Z.ltb_spec role 0); cbn [orb]; [naive_solver lia|].
  all: destruct (Z.ltb_spec 2 role); [naive_solver lia|].
  all: destruct (Z.eqb_spec role 2) as [->|]; cbn [negb andb]; naive_solver lia.
Qed.

Section roles.
Context `{K : Kit}.

(** A key's privileges over a list of metas: the union over its positions. *)
Definition signer_in (ms : list AccountMeta) (a : address) : bool :=
  existsb (λ m, bool_decide (m_address m = a) && role_signer (m_role m)) ms.
Definition writable_in (ms : list AccountMeta) (a : address) : bool :=
  existsb (λ m, bool_decide (m_address m = a) && role_writable (m_role m)) ms.

Definition union_ok (u : list (address * Z)) (ms : list AccountMeta) : Prop :=
  ∀ a, let n := default 0 (map_get a u) in
    0 <= n < 4 ∧ Z.testbit n 1 = signer_in ms a ∧ Z.testbit n 0 = writable_in ms a.

Lemma role_num_bits r :
  0 <= role_num r < 4 ∧ Z.testbit (role_num r) 1 = role_signer r
  ∧ Z.testbit (role_num r) 0 = role_writable r.
Proof. by destruct r. Qed.

Lemma role_of_num_bits n :
  0 <= n < 4 →
  role_signer (role_of_num n) = Z.testbit n 1 ∧ role_writable (role_of_num n) = Z.testbit n 0.
Proof.
  intros H. assert (n = 0 ∨ n = 1 ∨ n = 2 ∨ n = 3) as [-> | [-> | [-> | ->]]] by lia; done.
Qed.

Lemma lor_range a b : 0 <= a < 4 → 0 <= b < 4 → 0 <= Z.lor a b < 4.
Proof.
  intros Ha Hb.
  assert (a = 0 ∨ a = 1 ∨ a = 2 ∨ a = 3) as [-> | [-> | [-> | ->]]] by lia;
  assert (b = 0 ∨ b = 1 ∨ b = 2 ∨ b = 3) as [-> | [-> | [-> | ->]]] by lia; vm_compute; done.
Qed.

Lemma union_add_ok u ms a r :
  union_ok u ms → union_ok (union_add u a (role_num r)) (ms ++ [mkMeta a r]).
Proof.
  intros H b. cbv zeta. unfold union_add. rewrite map_get_set. unfold signer_in, writable_in.
  rewrite !existsb_app. cbn [existsb m_address m_role].
  destruct (role_num_bits r) as (Hr & Hs & Hw).
  destruct (decide (b = a)) as [->|Hne].
  - destruct (H a) as (Hn & H1 & H0). rewrite bool_decide_eq_true_2 by done.
    cbn [default from_option id andb]. unfold id in *.
    rewrite !Z.lor_spec, H1, H0, Hs, Hw, !orb_false_r. split; [by apply lor_range | done].
  - rewrite bool_decide_eq_false_2 by congruence. cbn [andb]. rewrite !orb_false_r. apply H.
Qed.

Lemma union_fold_ok ms u pre :
  union_ok u pre →
  union_ok (fold_left (λ u m, union_add u (m_address m) (role_num (m_role m))) ms u) (pre ++ ms).
Proof.
  revert u pre. induction ms as [|[a r] ms IH]; intros u pre H; cbn [fold_left].
  - by rewrite app_nil_r.
  - replace (pre ++ mkMeta a r :: ms) with ((pre ++ [mkMeta a r]) ++ ms) by (by rewrite <- app_assoc).
    by apply IH, union_add_ok.
Qed.

(** The transaction's fee payer, as one more listing. *)
Definition fee_payer_metas (feePayer : option address) : list AccountMeta :=
  match feePayer with Some f => [mkMeta f WRITABLE_SIGNER] | None => [] end.

Lemma runtime_union_ok metas feePayer :
  let union := fold_left (λ u m, union_add u (m_address m) (role_num (m_role m))) metas [] in
  union_ok (match feePayer with
            | Some f => union_add union f (role_num WRITABLE_SIGNER)
            | None => union end) (metas ++ fee_payer_metas feePayer).
Proof.
  intros union. assert (H : union_ok union metas).
  { apply (union_fold_ok metas [] []). intros a. done. }
  destruct feePayer as [f|]; [by apply union_add_ok | by rewrite app_nil_r].
Qed.

Lemma withRuntimeRoles_lookup metas feePayer i m :
  metas !! i = Some m →
  ∃ r, withRuntimeRoles metas feePayer !! i = Some (mkMeta (m_address m) r)
    ∧ role_signer r = signer_in (metas ++ fee_payer_metas feePayer) (m_address m)
    ∧ role_writable r = writable_in (metas ++ fee_payer_metas feePayer) (m_address m).
Proof.
  intros Hi. unfold withRuntimeRoles. rewrite list_lookup_fmap, Hi.
  destruct (runtime_union_ok metas feePayer (m_address m)) as (Hn & H1 & H0).
  destruct (role_of_num_bits _ Hn) as [Hs Hw].
  eexists. split; [done|]. by rewrite Hs, Hw, H1, H0.
Qed.

(** [withRuntimeRoles] reports what the runtime does: positions and
    addresses are kept, and a key is a signer, or writable, at every position
    exactly when some position of it, or its being the fee payer, makes it so. *)
Theorem withRuntimeRoles_union (metas : list AccountMeta) (feePayer : option address) :
  length (withRuntimeRoles metas feePayer) = length metas
  ∧ ∀ i m, metas !! i = Some m →
      ∃ r, withRuntimeRoles metas feePayer !! i = Some (mkMeta (m_address m) r)
        ∧ role_signer r = signer_in (metas ++ fee_payer_metas feePayer) (m_address m)
        ∧ role_writable r = writable_in (metas ++ fee_payer_metas feePayer) (m_address m).
Proof.
  split; [unfold withRuntimeRoles; by rewrite length_fmap|]. apply withRuntimeRoles_lookup.
Qed.
End roles.

Section grants.
Context `{KL : KitLaws}.

(** Nobody but the vault holds the right stored at [offset]. *)
Definition no_foreign (vault : address) (data : bytes) (offset : nat) : Prop :=
  le_combine (slice offset (offset + 4) data) = 0
  ∨ slice (offset + 4) (offset + 36) data = address_encode vault.

Definition clean_token_account (vault : address) (data : bytes) : Prop :=
  (TOKEN_ACCOUNT_LEN <= length data)%nat ∧ no_foreign vault data TOKEN_DELEGATE
  ∧ no_foreign vault data TOKEN_CLOSE_AUTHORITY.

Lemma addressFromBytes_ok b :
  length b = 32%nat → ∃ a, addressFromBytes b = Ok a ∧ address_encode a = b.
Proof.
  intros H. destruct (address_encode_decode b H) as (a & Ha & He). exists a.
  unfold addressFromBytes. by rewrite Ha.
Qed.

Lemma grant_at_spec pubkey tp mint vault trusted data kind offset :
  (offset + 36 <= length data)%nat →
  ∃ gs, grant_at pubkey tp mint vault trusted data kind offset = Ok gs
    ∧ (gs = [] ↔ no_foreign vault data offset).
Proof.
  intros Hl. unfold grant_at, readU32, getUint, no_foreign.
  destruct (Nat.leb_spec (offset + 4) (length data)); [|lia]. rewrite bind_ok.
  destruct (Z.eqb_spec (le_combine (slice offset (offset + 4) data)) 0); [naive_solver|].
  destruct (addressFromBytes_ok (slice (offset + 4) (offset + 36) data)) as (a & -> & Ha);
    [rewrite length_slice; lia|].
  rewrite bind_ok. case_bool_decide as Hv.
  - subst a. eexists. split; [done|]. naive_solver.
  - eexists. split; [done|]. split; [done|]. intros [?|He]; [done|]. exfalso. apply Hv.
    apply address_encode_inj. congruence.
Qed.

Lemma grants_of_spec tp vault trusted acc :
  ∃ gs, grants_of tp vault trusted acc = Ok gs ∧ (gs = [] ↔ clean_token_account vault acc.2).
Proof.
  destruct acc as [pubkey data]. unfold grants_of, clean_token_account, TOKEN_ACCOUNT_LEN. cbn [snd].
  destruct (Nat.ltb_spec (length data) 165) as [Hlt|Hge].
  { eexists. split; [done|]. split; [done|]. intros [? _]. lia. }
  destruct (addressFromBytes_ok (slice 0 32 data)) as (mint & -> & _); [rewrite length_slice; lia|].
  rewrite bind_ok.
  destruct (grant_at_spec pubkey tp mint vault trusted data GrantDelegate TOKEN_DELEGATE)
    as (d & -> & Hd); [unfold TOKEN_DELEGATE; lia|].
  destruct (grant_at_spec pubkey tp mint vault trusted data GrantCloseAuthority TOKEN_CLOSE_AUTHORITY)
    as (c & -> & Hc); [unfold TOKEN_CLOSE_AUTHORITY; lia|].
  rewrite !bind_ok. exists (d ++ c). split; [done|].
  rewrite <- Hd, <- Hc. destruct d, c; naive_solver.
Qed.

Lemma mapR_lists {A B} (f : A → result (list B)) (P : A → Prop) l :
  (∀ x, x ∈ l → ∃ gs, f x = Ok gs ∧ (gs = [] ↔ P x)) →
  ∃ gss, mapR f l = Ok gss ∧ (concat gss = [] ↔ Forall P l).
Proof.
  induction l as [|x l IH]; intros H; [by exists []|].
  destruct (H x) as (gs & Hx & Hp); [set_solver|]. destruct IH as (gss & Hl & Hps); [set_solver|].
  exists (gs :: gss). cbn [mapR]. rewrite Hx, bind_ok, Hl, bind_ok. split; [done|].
  cbn [concat]. rewrite Forall_cons, <- Hp, <- Hps. destruct gs; naive_solver.
Qed.

Lemma grantsOn_spec accs tp vault trusted :
  ∃ gs, grantsOn accs tp vault trusted = Ok gs
    ∧ (gs = [] ↔ Forall (λ a, clean_token_account vault a.2) accs).
Proof.
  destruct (mapR_lists (grants_of tp vault trusted) (λ a, clean_token_account vault a.2) accs)
    as (gss & H & Hp); [intros; apply grants_of_spec|].
  exists (concat gss). unfold grantsOn. by rewrite H, bind_ok.
Qed.

(** A watched token address holds nothing, something else, or an account of the
    vault itself. *)
Definition watched_clean (vault : address) (w : Watched) : Prop :=
  ∀ data, wt_info w = Some (TOKEN_PROGRAM_ADDRESS, data) →
    (64 <= length data)%nat ∧ slice 32 64 data = address_encode vault.

Lemma watched_grant_spec vault trusted w :
  ∃ gs, watched_grant vault trusted w = Ok gs ∧ (gs = [] ↔ watched_clean vault w).
Proof.
  unfold watched_grant, watched_clean. destruct (wt_info w) as [[o data]|]; [|naive_solver].
  case_bool_decide as Ho; cbn [negb]; [subst o|naive_solver].
  destruct (Nat.ltb_spec (length data) 64).
  { eexists. split; [done|]. split; [done|]. intros H'. destruct (H' data); [done | lia]. }
  destruct (addressFromBytes_ok (slice 32 64 data)) as (a & -> & Ha); [rewrite length_slice; lia|].
  rewrite bind_ok. case_bool_decide as Hv.
  - subst a. eexists. split; [done|]. split; [|done]. intros _ d [= <-]. done.
  - eexists. split; [done|]. split; [done|]. intros H'. exfalso. apply Hv.
    destruct (H' data eq_refl) as [_ He]. apply address_encode_inj. congruence.
Qed.

(** The grant scan never throws and reports nothing exactly when nobody
    but the vault holds a right over its tokens: every account it owns is
    readable with no foreign delegate or close authority, and no watched
    address holds a token account of another owner. *)
Theorem vaultTokenGrants_none_iff (vault : address) (spl token2022 : list (address * bytes))
    (watched : list Watched) (trustedKeys : list address) :
  ∃ gs, vaultTokenGrants vault spl token2022 watched trustedKeys = Ok gs
    ∧ (gs = [] ↔ Forall (λ a, clean_token_account vault a.2) (spl ++ token2022)
                 ∧ Forall (watched_clean vault) watched).
Proof.
  unfold vaultTokenGrants.
  destruct (grantsOn_spec spl TOKEN_PROGRAM_ADDRESS vault trustedKeys) as (a & -> & Ha).
  destruct (grantsOn_spec token2022 TOKEN_2022_PROGRAM_ADDRESS vault trustedKeys) as (b & -> & Hb).
  destruct (mapR_lists (watched_grant vault trustedKeys) (watched_clean vault) watched)
    as (c & -> & Hc); [intros; apply watched_grant_spec|].
  rewrite !bind_ok. eexists. split; [done|]. rewrite Forall_app, <- Ha, <- Hb, <- Hc.
  destruct a, b; cbn [app]; naive_solver.
Qed.
End grants.

Import ConcreteKit.

(** A token account of the vault with a delegate set, and a clean one. *)
Definition sample_account (delegate : Z) : bytes :=
  zeros 32 ++ replicate 32 (u8 1) ++ zeros 8 ++ [u8 delegate] ++ zeros 92.

Lemma vaultTokenGrants_none_iff_witness :
  ∃ gs, vaultTokenGrants (at_byte 1) [(at_byte 5, sample_account 1)] [] [] [] = Ok gs
    ∧ (gs = [] ↔ Forall (λ a, clean_token_account (at_byte 1) a.2) ([(at_byte 5, sample_account 1)] ++ [])
                 ∧ Forall (watched_clean (at_byte 1)) [])
    ∧ gs ≠ [].
Proof.
  destruct (@vaultTokenGrants_none_iff kit kit_laws (at_byte 1) [(at_byte 5, sample_account 1)] [] []
    []) as (gs & E & H).
  exists gs. split; [exact E|]. split; [exact H|]. intros ->.
  apply (f_equal (λ r, match r with Ok [] => true | _ => false end)) in E. vm_compute in E.
  discriminate E.
Defined.
