(* ===== verification/Client.v ===== *)
(** * The client

    Models the [LazorKit] class of src/sdk/sdk-kit/src/client.ts: its two
    caches, protocol-fee resolution, and the methods that build instructions.
    A method is a function of the client's state ([client]) to a new state and
    a result; what the outside answers (the RPC node, the random source, the
    order in which the challenge reads settle) is the [Env] argument, indexed
    by how many times it has been asked. *)
From S2P Require Import Prelude Bytes Kit Constants JsMap Pdas Actions Packing Compact Builders.
From S2P Require Import Signing Accounts ChallengeReads Ownership ClientHelpers.
Local Open Scope Z_scope.

Section client.
Context `{K : Kit}.

Record ProtocolConfigView := mkConfigView { numShards : Z; enabled : bool }.

(** [_protocolConfig] ([None] is [undefined], [Some None] is [null]) and
    [_registeredPayers]; [asked] counts the questions put to the outside. *)
Record client := mkClient {
  _protocolConfig : option (option ProtocolConfigView);
  _registeredPayers : list address;
  asked : nat;
}.

Definition new_client : client := mkClient None [] 0.

Record Env := mkEnv {
  env_getAccountInfo : nat → address → result (option AccountView);
  env_randomBytes : nat → nat → bytes;
  env_now : nat → Z;
  env_schedule : nat → list event;
  env_second_first : nat → bool;
  (** The reads of the wallet lookup. A [minContextSlot] of [None] is
      [undefined]; the first component of an answer is its context slot. *)
  env_getSlot : nat → result Z;
  env_getMultipleAccounts : nat → list address → option Z → result (Z * list (option AccountView));
  env_getProgramAccounts : nat → address → list (nat * bytes) → option Z →
    result (Z * list (address * AccountView));
  env_getTokenAccountsByOwner : nat → address → address → option Z →
    result (Z * list (address * AccountView));
  (** Which of the calls in flight settles next. *)
  env_settles : nat → nat;
}.

(** ** The client monad: state survives a throw *)
Definition M (A : Type) : Type := client → client * result A.

#[export] Instance M_ret : MRet M := λ A a c, (c, Ok a).
#[export] Instance M_bind : MBind M := λ A B f m c,
  match m c with (c, Ok a) => f a c | (c, Throw e) => (c, Throw e) end.

Definition lift {A} (r : result A) : M A := λ c, (c, r).
Definition modify (f : client → client) : M unit := λ c, (f c, Ok ()).
Definition get : M client := λ c, (c, Ok c).

(** The next question to the outside. *)
Definition ask : M nat := λ c,
  (mkClient (_protocolConfig c) (_registeredPayers c) (S (asked c)), Ok (asked c)).

Variable env : Env.

(** [Promise.all([a, b])] of two calls running side by side: each runs to its
    end and leaves its mark on the client, whatever becomes of the other; the
    result is both values, or the error of the one that fails first. *)
Definition both {A B} (a : M A) (b : M B) : M (A * B) := λ c,
  let '(c, n) := (mkClient (_protocolConfig c) (_registeredPayers c) (S (asked c)), asked c) in
  let '(c, ra) := a c in
  let '(c, rb) := b c in
  (c, match ra, rb with
      | Ok x, Ok y => Ok (x, y)
      | Throw e, Ok _ | Ok _, Throw e => Throw e
      | Throw e, Throw e' => Throw (if env_second_first env n then e' else e)
      end).

Variable programId : address.
Variable protocolFees : bool.

Definition rpc_getAccountInfo (a : address) : M (option AccountView) :=
  n ← ask; lift (env_getAccountInfo env n a).

Definition findWallet (userSeed : bytes) : M (address * Z) := lift (findWalletPda userSeed programId).
Definition findVault (walletPda : address) : M (address * Z) := lift (findVaultPda walletPda programId).
Definition findAuthority (walletPda : address) (credIdHash : bytes) : M (address * Z) :=
  lift (findAuthorityPda walletPda credIdHash programId).
Definition findSession (walletPda : address) (sessionKey : bytes) : M (address * Z) :=
  lift (findSessionPda walletPda sessionKey programId).
Definition findDeferredExec (walletPda authorityPda : address) (counter : Z) : M (address * Z) :=
  lift (findDeferredExecPda walletPda authorityPda counter programId).
Definition findProtocolConfig : M (address * Z) := lift (findProtocolConfigPda programId).
Definition findFeeRecord (payer : address) : M (address * Z) := lift (findFeeRecordPda payer programId).
Definition findTreasuryShard (shardId : Z) : M (address * Z) :=
  lift (findTreasuryShardPda shardId programId).

(** ** Protocol fees *)
Definition set_config (v : option (option ProtocolConfigView)) : M unit :=
  modify (λ c, mkClient v (_registeredPayers c) (asked c)).

Definition register (payer : address) : M unit :=
  modify (λ c, mkClient (_protocolConfig c)
                 (if bool_decide (payer ∈ _registeredPayers c) then _registeredPayers c
                  else _registeredPayers c ++ [payer]) (asked c)).

Definition getProtocolConfig : M (option ProtocolConfigView) :=
  c ← get;
  match _protocolConfig c with
  | Some v => mret v
  | None =>
    '(configPda, _) ← findProtocolConfig;
    info ← rpc_getAccountInfo configPda;
    match info with
    | None => _ ← set_config (Some None); mret None
    | Some value =>
      data ← lift (decodeBase64 (av_data value));
      if (length data <? 88)%nat || negb (byte_is data 0 DISC_PROTOCOL_CONFIG)
      then _ ← set_config (Some None); mret None
      else
        let v := mkConfigView (val (data !!! 4%nat)) (negb (byte_is data 3 0)) in
        _ ← set_config (Some (Some v)); mret (Some v)
    end
  end.

Definition invalidateProtocolCache : M unit := set_config None.

(** [(b0 | b1 << 8 | b2 << 16 | b3 << 24) >>> 0], on 32-bit integers. *)
Definition to_int32 (z : Z) : Z := (z + 2 ^ 31) mod 2 ^ 32 - 2 ^ 31.
Definition randU32 (b : bytes) : Z :=
  let byte i := val (b !!! i) in
  (Z.lor (Z.lor (Z.lor (byte 0%nat) (to_int32 (Z.shiftl (byte 1%nat) 8)))
                (to_int32 (Z.shiftl (byte 2%nat) 16)))
         (to_int32 (Z.shiftl (byte 3%nat) 24))) mod 2 ^ 32.

Definition resolveProtocolFee (payer : address) : M (option ProtocolFeeAccounts) :=
  if negb protocolFees then mret None
  else
    config ← getProtocolConfig;
    '(protocolConfigPda, _) ← findProtocolConfig;
    '(feeRecordPda, _) ← findFeeRecord payer;
    shardId ← (match config with
               | Some v =>
                 if enabled v && (0 <? numShards v)
                 then n ← ask; mret (randU32 (env_randomBytes env n 4) mod numShards v)
                 else mret 0
               | None => mret 0
               end);
    '(treasuryShardPda, _) ← findTreasuryShard shardId;
    mret (Some (mkFee protocolConfigPda feeRecordPda treasuryShardPda)).

(** Whether the fee record account exists. *)
Definition feeRecordExists (info : option AccountView) : result bool :=
  match info with
  | None => Ok false
  | Some value =>
    data ← decodeBase64 (av_data value);
    Ok (negb (length data =? 0)%nat && byte_is data 0 DISC_FEE_RECORD)
  end.

Definition resolveProtocolFeeWithRegister (payer : address) :
    M (option (ProtocolFeeAccounts * option Instruction)) :=
  accounts ← resolveProtocolFee payer;
  match accounts with
  | None => mret None
  | Some accounts =>
    config ← getProtocolConfig;
    if negb (match config with Some v => enabled v | None => false end)
    then mret (Some (accounts, None))
    else
      c ← get;
      if bool_decide (payer ∈ _registeredPayers c) then mret (Some (accounts, None))
      else
        info ← rpc_getAccountInfo (feeRecordPda accounts);
        exists_ ← lift (feeRecordExists info);
        if (exists_ : bool) then _ ← register payer; mret (Some (accounts, None))
        else
          let registerIx := createRegisterPayerIx payer (feeRecordPda accounts) programId in
          _ ← register payer;
          mret (Some (accounts, Some registerIx))
  end.

Definition fee_accounts (fee : option (ProtocolFeeAccounts * option Instruction)) :
    option ProtocolFeeAccounts := fst <$> fee.
Definition fee_register (fee : option (ProtocolFeeAccounts * option Instruction)) :
    list Instruction := match fee with Some (_, Some ix) => [ix] | _ => [] end.

(** ** Signers *)
Record Secp256r1Params := mkParams {
  sp_credentialIdHash : bytes;
  sp_publicKeyBytes : option bytes;
  sp_authorityPda : option address;
  sp_slotOverride : option Z;
  sp_minContextSlot : option Z;
  sp_commitment : option Commitment;
}.

Record Secp256r1SignerConfig := mkSignerConfig {
  sc_signer : Secp256r1Signer;
  sc_authorityPda : option address;
  sc_slotOverride : option Z;
  sc_minContextSlot : option Z;
  sc_commitment : option Commitment;
}.

Inductive AdminSigner :=
  | AdminEd25519 (publicKey : address) (authorityPda : option address)
  | AdminSecp256r1 (s : Secp256r1SignerConfig).

Inductive ExecuteSigner :=
  | ExecAdmin (s : AdminSigner)
  | ExecSession (sessionPda sessionKeyPubkey : address).

Definition extractSecp256r1Params (s : Secp256r1SignerConfig) : Secp256r1Params :=
  mkParams (s_credentialIdHash (sc_signer s)) (Some (s_publicKeyBytes (sc_signer s)))
    (sc_authorityPda s) (sc_slotOverride s) (sc_minContextSlot s) (sc_commitment s).

(** The challenge reads, run to the end of the schedule the outside gives. *)
Definition run_reads (config : ReadConfig) (have : Have) (t : Z) (schedule : list event) :
    result (bytes * Z * Z) :=
  w ← readChallengeInputs have (new_group t);
  w' ← of_option (EExternal "schedule") (run config w schedule);
  match inputs have w' with
  | Some r => Ok r
  | None => Throw (default (EExternal "pending") (firstFailure w'))
  end.

(** One read on its own, in no group: it returns or throws what its loop ends
    with. *)
Definition read_alone (kind : reader) (opts : option ChallengeReadOptions) : M rvalue :=
  n ← ask;
  w ← lift (of_option (EExternal "schedule")
        (run (challengeReadConfig opts) (mkWorld (env_now env n) false None [start_reader (env_now env n) kind])
           (env_schedule env n)));
  lift (match rd_phase <$> readers w !! 0%nat with
        | Some (Settled r) => r
        | Some (Rejected e) => Throw e
        | _ => Throw (EExternal "pending")
        end).

Definition readAuthorityCounter (opts : option ChallengeReadOptions) : M Z :=
  v ← read_alone ReadCounter opts;
  lift (match v with VCounter c => Ok c | _ => Throw (EExternal "reply") end).

Definition readAuthorityPubkey (opts : option ChallengeReadOptions) : M bytes :=
  v ← read_alone ReadKey opts;
  lift (match v with VKey k => Ok k | _ => Throw (EExternal "reply") end).

Definition readCounter (opts : option ChallengeReadOptions) : M Z := readAuthorityCounter opts.

Record Resolved := mkResolved {
  rs_authorityPda : address;
  rs_publicKeyBytes : bytes;
  rs_slot : Z;
  rs_counter : Z;
}.

Definition resolveSecp256r1 (walletPda : address) (p : Secp256r1Params) : M Resolved :=
  _ ← lift (assertByteLength (sp_credentialIdHash p) 32 "credentialIdHash");
  _ ← lift (match sp_publicKeyBytes p with
            | Some k => assertByteLength k 33 "publicKeyBytes" | None => Ok () end);
  authorityPda ← (match sp_authorityPda p with
                  | Some a => mret a
                  | None => '(a, _) ← findAuthority walletPda (sp_credentialIdHash p); mret a
                  end);
  n ← ask;
  '(publicKeyBytes, slot, counter) ← lift (run_reads
      (challengeReadConfig (Some (mkOptions (sp_commitment p) (sp_minContextSlot p))))
      (mkHave (sp_publicKeyBytes p) (sp_slotOverride p)) (env_now env n) (env_schedule env n));
  mret (mkResolved authorityPda publicKeyBytes slot counter).

Definition resolveEd25519AuthorityPda (publicKey : address) (authorityPda : option address)
    (walletPda : address) : M address :=
  match authorityPda with
  | Some a => mret a
  | None => '(pda, _) ← findAuthority walletPda (address_encode publicKey); mret pda
  end.

Definition buildPasskeySigning (discriminator sysvarIxIndex : Z) (signedPayload : bytes)
    (slot counter : Z) (payer wallet : address) (publicKeyBytes : bytes) : PreparedSecp256r1 :=
  prepareSecp256r1 [u8 discriminator] signedPayload sysvarIxIndex slot counter payer wallet
    programId publicKeyBytes.

Record LayoutAndHash := mkLayout {
  la_compactInstructions : list CompactInstruction;
  la_remainingAccounts : list AccountMeta;
  la_allAccountMetas : list AccountMeta;
  la_accountsHash : bytes;
}.

Definition buildCompactLayoutAndHash (fixedAccounts : list AccountMeta)
    (userInstructions : list Instruction) (payer : address) (feePayer : option address) :
    result LayoutAndHash :=
  '(compactInstructions, remainingAccounts) ←
    buildCompactLayout (m_address <$> fixedAccounts) userInstructions payer;
  let allAccountMetas := withRuntimeRoles (fixedAccounts ++ remainingAccounts) feePayer in
  accountsHash ← computeAccountsHash allAccountMetas compactInstructions;
  Ok (mkLayout compactInstructions remainingAccounts allAccountMetas accountsHash).

(** ** CreateWallet *)
Record CreatedWallet := mkCreated {
  cw_instructions : list Instruction;
  cw_walletPda : address;
  cw_vaultPda : address;
  cw_authorityPda : address;
}.

Definition createWallet (payer : address) (userSeed : bytes) (owner : CreateWalletOwner) :
    M CreatedWallet :=
  _ ← lift (assertByteLength userSeed 32 "userSeed");
  '(walletPda, _) ← findWallet userSeed;
  '(vaultPda, _) ← findVault walletPda;
  o ← lift (resolveOwnerFields owner);
  '(authorityPda, authBump) ← findAuthority walletPda (credentialOrPubkey o);
  fee ← resolveProtocolFeeWithRegister payer;
  let ix := createCreateWalletIx payer walletPda vaultPda authorityPda userSeed (authType o) authBump
              (credentialOrPubkey o) (secp256r1Pubkey o) (of_rpId o) (fee_accounts fee) programId in
  mret (mkCreated (fee_register fee ++ [ix]) walletPda vaultPda authorityPda).

(** ** Execute *)
Record PreparedExecute := mkPreparedExecute {
  pe_signing : PreparedSecp256r1;
  pe_payer : address;
  pe_walletPda : address;
  pe_authorityPda : address;
  pe_vaultPda : address;
  pe_packed : bytes;
  pe_remainingAccounts : list AccountMeta;
  pe_protocolFee : option ProtocolFeeAccounts;
  pe_registerIx : list Instruction;
  pe_programId : address;
}.

Definition executeFixed (payer walletPda authorityPda vaultPda : address) : list AccountMeta :=
  [mkMeta payer WRITABLE_SIGNER; mkMeta walletPda READONLY; mkMeta authorityPda WRITABLE;
   mkMeta vaultPda WRITABLE; mkMeta SYSVAR_INSTRUCTIONS_ADDRESS READONLY].

(** The challenge reads and the fee read run side by side; the failure of
    either fails the call (and stops the other's polling), but the fee read's
    mark on the caches stays. *)
Definition prepareExecute (payer walletPda : address) (secp256r1 : Secp256r1Params)
    (instructions : list Instruction) (feePayer : option address) : M PreparedExecute :=
  '(vaultPda, _) ← findVault walletPda;
  '(r, fee) ← both (resolveSecp256r1 walletPda secp256r1) (resolveProtocolFeeWithRegister payer);
  l ← lift (buildCompactLayoutAndHash
              (executeFixed payer walletPda (rs_authorityPda r) vaultPda) instructions payer feePayer);
  let packed := packCompactInstructions (la_compactInstructions l) in
  let signedPayload := concatBytes [packed; la_accountsHash l] in
  let signing := buildPasskeySigning DISC_EXECUTE SYSVAR_IX_INDEX_EXECUTE signedPayload (rs_slot r)
                   (rs_counter r) payer walletPda (rs_publicKeyBytes r) in
  mret (mkPreparedExecute signing payer walletPda (rs_authorityPda r) vaultPda packed
          (la_remainingAccounts l) (fee_accounts fee) (fee_register fee) programId).

Definition finalizeExecute (prepared : PreparedExecute) (response : WebAuthnResponse) :
    result (list Instruction) :=
  '(authPayload, precompileIx) ← finalizeSecp256r1 (pe_signing prepared) response;
  let ix := createExecuteIx (pe_payer prepared) (pe_walletPda prepared) (pe_authorityPda prepared)
              (pe_vaultPda prepared) (pe_packed prepared) (Some authPayload) None
              (pe_remainingAccounts prepared) (pe_protocolFee prepared) (pe_programId prepared) in
  Ok (pe_registerIx prepared ++ [precompileIx; ix]).

Definition execute (payer walletPda : address) (signer : ExecuteSigner)
    (instructions : list Instruction) (feePayer : option address) : M (list Instruction) :=
  '(vaultPda, _) ← findVault walletPda;
  fee ← resolveProtocolFeeWithRegister payer;
  match signer with
  | ExecAdmin (AdminEd25519 publicKey authority) =>
      authorityPda ← resolveEd25519AuthorityPda publicKey authority walletPda;
      '(compactInstructions, remainingAccounts) ← lift (buildCompactLayout
          [payer; walletPda; authorityPda; vaultPda; publicKey] instructions payer);
      let packed := packCompactInstructions compactInstructions in
      mret (fee_register fee ++
            [createExecuteIx payer walletPda authorityPda vaultPda packed None (Some publicKey)
               remainingAccounts (fee_accounts fee) programId])
  | ExecAdmin (AdminSecp256r1 s) =>
      prepared ← prepareExecute payer walletPda (extractSecp256r1Params s) instructions feePayer;
      response ← lift (s_sign (sc_signer s) (Signing.challenge (pe_signing prepared)));
      lift (finalizeExecute prepared response)
  | ExecSession sessionPda sessionKeyPubkey =>
      '(compactInstructions, remainingAccounts) ← lift (buildCompactLayout
          [payer; walletPda; sessionPda; vaultPda; sessionKeyPubkey] instructions payer);
      let packed := packCompactInstructions compactInstructions in
      let allRemaining := mkMeta sessionKeyPubkey READONLY_SIGNER :: remainingAccounts in
      mret (fee_register fee ++
            [createExecuteIx payer walletPda sessionPda vaultPda packed None None allRemaining
               (fee_accounts fee) programId])
  end.
End client.
