(* ===== verification/ClientOps.v ===== *)
(** * The client's wallet-management methods

    Models, from the [LazorKit] class of src/sdk/sdk-kit/src/client.ts, the
    authority, session, deferred-execution and protocol-administration methods:
    for each operation the unified method, its [prepare] and its [finalize]. *)
From S2P Require Import Prelude Bytes Kit Constants JsMap Pdas Actions Packing Compact Builders.
From S2P Require Import Signing Accounts ChallengeReads Ownership ClientHelpers Client.
Local Open Scope Z_scope.

Section ops.
Context `{K : Kit}.
Variable env : Env.
Variable programId : address.
Variable protocolFees : bool.

(** [await s.signer.sign(prepared.challenge)]. *)
Definition sign_challenge (s : Secp256r1SignerConfig) (signing : PreparedSecp256r1) :
    M WebAuthnResponse :=
  lift (s_sign (sc_signer s) (Signing.challenge signing)).

(** ** AddAuthority *)
Record PreparedAddAuthority := mkPreparedAdd {
  pa_signing : PreparedSecp256r1;
  pa_payer : address;
  pa_walletPda : address;
  pa_adminAuthorityPda : address;
  pa_newAuthorityPda : address;
  pa_newType : Z;
  pa_newRole : Z;
  pa_policy : option bytes;
  pa_credentialOrPubkey : bytes;
  pa_secp256r1Pubkey : option bytes;
  pa_rpId : option string;
  pa_programId : address;
}.

Definition prepareAddAuthority (payer walletPda : address) (secp256r1 : Secp256r1Params)
    (newAuthority : CreateWalletOwner) (role : Z) (policy : option bytes) (allowOwner : option bool) :
    M PreparedAddAuthority :=
  _ ← lift (assertAddAuthorityRole role allowOwner policy);
  o ← lift (resolveOwnerFields newAuthority);
  '(newAuthorityPda, _) ← findAuthority programId walletPda (credentialOrPubkey o);
  r ← resolveSecp256r1 env programId walletPda secp256r1;
  let dataPayload := buildDataPayloadForAdd (authType o) role (credentialOrPubkey o)
                       (secp256r1Pubkey o) (of_rpId o) policy in
  let signedPayload := concatBytes [dataPayload; address_encode payer] in
  let signing := buildPasskeySigning programId DISC_ADD_AUTHORITY SYSVAR_IX_INDEX_ADD_AUTHORITY
                   signedPayload (rs_slot r) (rs_counter r) payer walletPda (rs_publicKeyBytes r) in
  mret (mkPreparedAdd signing payer walletPda (rs_authorityPda r) newAuthorityPda (authType o) role
          policy (credentialOrPubkey o) (secp256r1Pubkey o) (of_rpId o) programId).

Definition finalizeAddAuthority (p : PreparedAddAuthority) (response : WebAuthnResponse) :
    result (list Instruction * address) :=
  '(authPayload, precompileIx) ← finalizeSecp256r1 (pa_signing p) response;
  let ix := createAddAuthorityIx (pa_payer p) (pa_walletPda p) (pa_adminAuthorityPda p)
              (pa_newAuthorityPda p) (pa_newType p) (pa_newRole p) (pa_credentialOrPubkey p)
              (pa_secp256r1Pubkey p) (pa_rpId p) (pa_policy p) (Some authPayload) None
              (pa_programId p) in
  Ok ([precompileIx; ix], pa_newAuthorityPda p).

Definition addAuthority (payer walletPda : address) (adminSigner : AdminSigner)
    (newAuthority : CreateWalletOwner) (role : Z) (policy : option bytes) (allowOwner : option bool) :
    M (list Instruction * address) :=
  _ ← lift (assertAddAuthorityRole role allowOwner policy);
  o ← lift (resolveOwnerFields newAuthority);
  '(newAuthorityPda, _) ← findAuthority programId walletPda (credentialOrPubkey o);
  match adminSigner with
  | AdminEd25519 publicKey authority =>
      adminAuthorityPda ← resolveEd25519AuthorityPda programId publicKey authority walletPda;
      let ix := createAddAuthorityIx payer walletPda adminAuthorityPda newAuthorityPda (authType o)
                  role (credentialOrPubkey o) (secp256r1Pubkey o) (of_rpId o) policy None
                  (Some publicKey) programId in
      mret ([ix], newAuthorityPda)
  | AdminSecp256r1 s =>
      prepared ← prepareAddAuthority payer walletPda (extractSecp256r1Params s) newAuthority role
                   policy allowOwner;
      response ← sign_challenge s (pa_signing prepared);
      lift (finalizeAddAuthority prepared response)
  end.

(** ** RemoveAuthority *)
Record PreparedRemoveAuthority := mkPreparedRemove {
  pr_signing : PreparedSecp256r1;
  pr_payer : address;
  pr_walletPda : address;
  pr_adminAuthorityPda : address;
  pr_targetAuthorityPda : address;
  pr_refundDestination : address;
  pr_programId : address;
}.

Definition prepareRemoveAuthority (payer walletPda : address) (secp256r1 : Secp256r1Params)
    (targetAuthorityPda : address) (refundDestination : option address) : M PreparedRemoveAuthority :=
  let refundDest := default payer refundDestination in
  r ← resolveSecp256r1 env programId walletPda secp256r1;
  let signedPayload := concatBytes [address_encode targetAuthorityPda; address_encode refundDest] in
  let signing := buildPasskeySigning programId DISC_REMOVE_AUTHORITY SYSVAR_IX_INDEX_REMOVE_AUTHORITY
                   signedPayload (rs_slot r) (rs_counter r) payer walletPda (rs_publicKeyBytes r) in
  mret (mkPreparedRemove signing payer walletPda (rs_authorityPda r) targetAuthorityPda refundDest
          programId).

Definition finalizeRemoveAuthority (p : PreparedRemoveAuthority) (response : WebAuthnResponse) :
    result (list Instruction) :=
  '(authPayload, precompileIx) ← finalizeSecp256r1 (pr_signing p) response;
  let ix := createRemoveAuthorityIx (pr_payer p) (pr_walletPda p) (pr_adminAuthorityPda p)
              (pr_targetAuthorityPda p) (pr_refundDestination p) (Some authPayload) None
              (pr_programId p) in
  Ok [precompileIx; ix].

Definition removeAuthority (payer walletPda : address) (adminSigner : AdminSigner)
    (targetAuthorityPda : address) (refundDestination : option address) : M (list Instruction) :=
  let refundDest := default payer refundDestination in
  match adminSigner with
  | AdminEd25519 publicKey authority =>
      adminAuthorityPda ← resolveEd25519AuthorityPda programId publicKey authority walletPda;
      mret [createRemoveAuthorityIx payer walletPda adminAuthorityPda targetAuthorityPda refundDest
              None (Some publicKey) programId]
  | AdminSecp256r1 s =>
      prepared ← prepareRemoveAuthority payer walletPda (extractSecp256r1Params s)
                   targetAuthorityPda refundDestination;
      response ← sign_challenge s (pr_signing prepared);
      lift (finalizeRemoveAuthority prepared response)
  end.

(** ** TransferOwnership *)
Record PreparedTransferOwnership := mkPreparedTransfer {
  pt_signing : PreparedSecp256r1;
  pt_payer : address;
  pt_walletPda : address;
  pt_currentOwnerAuthorityPda : address;
  pt_newOwnerAuthorityPda : address;
  pt_refundDestination : address;
  pt_newType : Z;
  pt_credentialOrPubkey : bytes;
  pt_secp256r1Pubkey : option bytes;
  pt_rpId : option string;
  pt_programId : address;
}.

Definition prepareTransferOwnership (payer walletPda : address) (secp256r1 : Secp256r1Params)
    (newOwner : CreateWalletOwner) (refundDestination : option address) :
    M PreparedTransferOwnership :=
  o ← lift (resolveOwnerFields newOwner);
  '(newOwnerAuthorityPda, _) ← findAuthority programId walletPda (credentialOrPubkey o);
  let refundDest := default payer refundDestination in
  r ← resolveSecp256r1 env programId walletPda secp256r1;
  let dataPayload := buildDataPayloadForTransfer (authType o) (credentialOrPubkey o)
                       (secp256r1Pubkey o) (of_rpId o) in
  let signedPayload := concatBytes [dataPayload; address_encode payer; address_encode refundDest] in
  let signing := buildPasskeySigning programId DISC_TRANSFER_OWNERSHIP
                   SYSVAR_IX_INDEX_TRANSFER_OWNERSHIP signedPayload (rs_slot r) (rs_counter r) payer
                   walletPda (rs_publicKeyBytes r) in
  mret (mkPreparedTransfer signing payer walletPda (rs_authorityPda r) newOwnerAuthorityPda refundDest
          (authType o) (credentialOrPubkey o) (secp256r1Pubkey o) (of_rpId o) programId).

Definition finalizeTransferOwnership (p : PreparedTransferOwnership) (response : WebAuthnResponse) :
    result (list Instruction * address) :=
  '(authPayload, precompileIx) ← finalizeSecp256r1 (pt_signing p) response;
  let ix := createTransferOwnershipIx (pt_payer p) (pt_walletPda p) (pt_currentOwnerAuthorityPda p)
              (pt_newOwnerAuthorityPda p) (pt_refundDestination p) (pt_newType p)
              (pt_credentialOrPubkey p) (pt_secp256r1Pubkey p) (pt_rpId p) (Some authPayload) None
              (pt_programId p) in
  Ok ([precompileIx; ix], pt_newOwnerAuthorityPda p).

Definition transferOwnership (payer walletPda : address) (ownerSigner : AdminSigner)
    (newOwner : CreateWalletOwner) (refundDestination : option address) :
    M (list Instruction * address) :=
  o ← lift (resolveOwnerFields newOwner);
  '(newOwnerAuthorityPda, _) ← findAuthority programId walletPda (credentialOrPubkey o);
  let refundDest := default payer refundDestination in
  match ownerSigner with
  | AdminEd25519 publicKey authority =>
      currentOwnerAuthorityPda ← resolveEd25519AuthorityPda programId publicKey authority walletPda;
      let ix := createTransferOwnershipIx payer walletPda currentOwnerAuthorityPda
                  newOwnerAuthorityPda refundDest (authType o) (credentialOrPubkey o)
                  (secp256r1Pubkey o) (of_rpId o) None (Some publicKey) programId in
      mret ([ix], newOwnerAuthorityPda)
  | AdminSecp256r1 s =>
      prepared ← prepareTransferOwnership payer walletPda (extractSecp256r1Params s) newOwner
                   refundDestination;
      response ← sign_challenge s (pt_signing prepared);
      lift (finalizeTransferOwnership prepared response)
  end.

(** ** Sessions *)
Record PreparedCreateSession := mkPreparedSession {
  pc_signing : PreparedSecp256r1;
  pc_payer : address;
  pc_walletPda : address;
  pc_adminAuthorityPda : address;
  pc_sessionPda : address;
  pc_sessionKey : bytes;
  pc_expiresAt : Z;
  pc_actionsBuffer : option bytes;
  pc_programId : address;
}.

(** [actions && actions.length > 0 ? serializeActions(actions) : undefined]. *)
Definition actions_buffer (actions : option (list SessionAction)) : result (option bytes) :=
  match actions with
  | Some ((_ :: _) as l) => Some <$> serializeActions l
  | _ => Ok None
  end.

Definition prepareCreateSession (payer walletPda : address) (secp256r1 : Secp256r1Params)
    (sessionKey : address) (expiresAt : Z) (actions : option (list SessionAction))
    (unrestricted : option bool) : M PreparedCreateSession :=
  _ ← lift (assertSessionActions actions unrestricted);
  let sessionKeyBytes := address_encode sessionKey in
  '(sessionPda, _) ← findSession programId walletPda sessionKeyBytes;
  r ← resolveSecp256r1 env programId walletPda secp256r1;
  actionsBuffer ← lift (actions_buffer actions);
  dataPayload ← lift (buildDataPayloadForSession sessionKeyBytes expiresAt actionsBuffer);
  let signedPayload := concatBytes [dataPayload; address_encode payer] in
  let signing := buildPasskeySigning programId DISC_CREATE_SESSION SYSVAR_IX_INDEX_CREATE_SESSION
                   signedPayload (rs_slot r) (rs_counter r) payer walletPda (rs_publicKeyBytes r) in
  mret (mkPreparedSession signing payer walletPda (rs_authorityPda r) sessionPda sessionKeyBytes
          expiresAt actionsBuffer programId).

Definition finalizeCreateSession (p : PreparedCreateSession) (response : WebAuthnResponse) :
    result (list Instruction * address) :=
  '(authPayload, precompileIx) ← finalizeSecp256r1 (pc_signing p) response;
  let ix := createCreateSessionIx (pc_payer p) (pc_walletPda p) (pc_adminAuthorityPda p)
              (pc_sessionPda p) (pc_sessionKey p) (pc_expiresAt p) (pc_actionsBuffer p)
              (Some authPayload) None (pc_programId p) in
  Ok ([precompileIx; ix], pc_sessionPda p).

Definition createSession (payer walletPda : address) (adminSigner : AdminSigner)
    (sessionKey : address) (expiresAt : Z) (actions : option (list SessionAction))
    (unrestricted : option bool) : M (list Instruction * address) :=
  _ ← lift (assertSessionActions actions unrestricted);
  let sessionKeyBytes := address_encode sessionKey in
  '(sessionPda, _) ← findSession programId walletPda sessionKeyBytes;
  actionsBuffer ← lift (actions_buffer actions);
  match adminSigner with
  | AdminEd25519 publicKey authority =>
      adminAuthorityPda ← resolveEd25519AuthorityPda programId publicKey authority walletPda;
      let ix := createCreateSessionIx payer walletPda adminAuthorityPda sessionPda sessionKeyBytes
                  expiresAt actionsBuffer None (Some publicKey) programId in
      mret ([ix], sessionPda)
  | AdminSecp256r1 s =>
      prepared ← prepareCreateSession payer walletPda (extractSecp256r1Params s) sessionKey expiresAt
                   actions unrestricted;
      response ← sign_challenge s (pc_signing prepared);
      lift (finalizeCreateSession prepared response)
  end.

Record PreparedRevokeSession := mkPreparedRevoke {
  pv_signing : PreparedSecp256r1;
  pv_payer : address;
  pv_walletPda : address;
  pv_adminAuthorityPda : address;
  pv_sessionPda : address;
  pv_refundDestination : address;
  pv_programId : address;
}.

Definition prepareRevokeSession (payer walletPda : address) (secp256r1 : Secp256r1Params)
    (sessionPda : address) (refundDestination : option address) : M PreparedRevokeSession :=
  let refundDest := default payer refundDestination in
  r ← resolveSecp256r1 env programId walletPda secp256r1;
  let signedPayload := concatBytes [address_encode sessionPda; address_encode refundDest] in
  let signing := buildPasskeySigning programId DISC_REVOKE_SESSION SYSVAR_IX_INDEX_REVOKE_SESSION
                   signedPayload (rs_slot r) (rs_counter r) payer walletPda (rs_publicKeyBytes r) in
  mret (mkPreparedRevoke signing payer walletPda (rs_authorityPda r) sessionPda refundDest programId).

Definition finalizeRevokeSession (p : PreparedRevokeSession) (response : WebAuthnResponse) :
    result (list Instruction) :=
  '(authPayload, precompileIx) ← finalizeSecp256r1 (pv_signing p) response;
  let ix := createRevokeSessionIx (pv_payer p) (pv_walletPda p) (pv_adminAuthorityPda p)
              (pv_sessionPda p) (pv_refundDestination p) (Some authPayload) None (pv_programId p) in
  Ok [precompileIx; ix].

Definition revokeSession (payer walletPda : address) (adminSigner : AdminSigner)
    (sessionPda : address) (refundDestination : option address) : M (list Instruction) :=
  let refundDest := default payer refundDestination in
  match adminSigner with
  | AdminEd25519 publicKey authority =>
      adminAuthorityPda ← resolveEd25519AuthorityPda programId publicKey authority walletPda;
      mret [createRevokeSessionIx payer walletPda adminAuthorityPda sessionPda refundDest None
              (Some publicKey) programId]
  | AdminSecp256r1 s =>
      prepared ← prepareRevokeSession payer walletPda (extractSecp256r1Params s) sessionPda
                   refundDestination;
      response ← sign_challenge s (pv_signing prepared);
      lift (finalizeRevokeSession prepared response)
  end.

(** ** Deferred execution *)
Record DeferredPayload := mkDeferredPayload {
  dp_walletPda : address;
  dp_deferredExecPda : address;
  dp_compactInstructions : list CompactInstruction;
  dp_remainingAccounts : list AccountMeta;
  dp_executor : option address;
  dp_refundDestination : option address;
}.

Record PreparedAuthorize := mkPreparedAuthorize {
  pz_signing : PreparedSecp256r1;
  pz_counter : Z;
  pz_payer : address;
  pz_executor : address;
  pz_walletPda : address;
  pz_authorityPda : address;
  pz_deferredExecPda : address;
  pz_instructionsHash : bytes;
  pz_accountsHash : bytes;
  pz_expiryOffset : Z;
  pz_compactInstructions : list CompactInstruction;
  pz_remainingAccounts : list AccountMeta;
  pz_programId : address;
}.

(** Transaction 2's fixed accounts, with the roles [createExecuteDeferredIx]
    gives them. *)
Definition deferredFixed (executor walletPda vaultPda deferredExecPda refund : address) :
    list AccountMeta :=
  [mkMeta executor WRITABLE_SIGNER; mkMeta walletPda READONLY; mkMeta vaultPda WRITABLE;
   mkMeta deferredExecPda WRITABLE; mkMeta refund WRITABLE].

Definition prepareAuthorize (payer walletPda : address) (secp256r1 : Secp256r1Params)
    (instructions : list Instruction) (expiryOffset : option Z) (executor feePayer : option address) :
    M PreparedAuthorize :=
  '(vaultPda, _) ← findVault programId walletPda;
  r ← resolveSecp256r1 env programId walletPda secp256r1;
  let expiryOffset := default 300 expiryOffset in
  '(deferredExecPda, _) ← findDeferredExec programId walletPda (rs_authorityPda r) (rs_counter r);
  let executor := default payer executor in
  l ← lift (buildCompactLayoutAndHash
              (deferredFixed executor walletPda vaultPda deferredExecPda payer) instructions executor
              feePayer);
  let instructionsHash := computeInstructionsHash (la_compactInstructions l) in
  let signedPayload := concatBytes [instructionsHash; la_accountsHash l; u16LE expiryOffset] in
  let signing := buildPasskeySigning programId DISC_AUTHORIZE SYSVAR_IX_INDEX_AUTHORIZE signedPayload
                   (rs_slot r) (rs_counter r) payer walletPda (rs_publicKeyBytes r) in
  mret (mkPreparedAuthorize signing (rs_counter r) payer executor walletPda (rs_authorityPda r)
          deferredExecPda instructionsHash (la_accountsHash l) expiryOffset
          (la_compactInstructions l) (la_remainingAccounts l) programId).

Record Authorized := mkAuthorized {
  az_instructions : list Instruction;
  az_deferredExecPda : address;
  az_counter : Z;
  az_deferredPayload : DeferredPayload;
}.

Definition finalizeAuthorize (p : PreparedAuthorize) (response : WebAuthnResponse) :
    result Authorized :=
  '(authPayload, precompileIx) ← finalizeSecp256r1 (pz_signing p) response;
  let authorizeIx := createAuthorizeIx (pz_payer p) (pz_walletPda p) (pz_authorityPda p)
                       (pz_deferredExecPda p) (pz_instructionsHash p) (pz_accountsHash p)
                       (pz_expiryOffset p) authPayload (pz_programId p) in
  Ok (mkAuthorized [precompileIx; authorizeIx] (pz_deferredExecPda p) (pz_counter p)
        (mkDeferredPayload (pz_walletPda p) (pz_deferredExecPda p) (pz_compactInstructions p)
           (pz_remainingAccounts p) (Some (pz_executor p)) (Some (pz_payer p)))).

Definition authorize (payer walletPda : address) (s : Secp256r1SignerConfig)
    (instructions : list Instruction) (expiryOffset : option Z) (executor feePayer : option address) :
    M Authorized :=
  prepared ← prepareAuthorize payer walletPda (extractSecp256r1Params s) instructions expiryOffset
               executor feePayer;
  response ← sign_challenge s (pz_signing prepared);
  lift (finalizeAuthorize prepared response).

Definition executeDeferredFromPayload (payer : address) (deferredPayload : DeferredPayload)
    (refundDestination : option address) : M (list Instruction) :=
  _ ← lift (throw_if (match dp_executor deferredPayload with
                      | Some executor => negb (bool_decide (executor = payer))
                          && namesDeferredPayerSlot (dp_compactInstructions deferredPayload)
                      | None => false
                      end) EWrongExecutor);
  '(vaultPda, _) ← findVault programId (dp_walletPda deferredPayload);
  let refundDest := default (default payer (dp_refundDestination deferredPayload)) refundDestination in
  let packed := packCompactInstructions (dp_compactInstructions deferredPayload) in
  fee ← resolveProtocolFeeWithRegister env programId protocolFees payer;
  let ix := createExecuteDeferredIx payer (dp_walletPda deferredPayload) vaultPda
              (dp_deferredExecPda deferredPayload) refundDest packed
              (dp_remainingAccounts deferredPayload) (fee_accounts fee) programId in
  mret (fee_register fee ++ [ix]).

Definition reclaimDeferred (payer deferredExecPda : address) (refundDestination : option address) :
    list Instruction :=
  [createReclaimDeferredIx payer deferredExecPda (default payer refundDestination) programId].

(** ** Protocol administration *)
Definition initializeProtocol (payer admin treasury : address) (creationFee executionFee shards : Z) :
    M (list Instruction * address) :=
  '(protocolConfigPda, _) ← findProtocolConfig programId;
  mret ([createInitializeProtocolIx payer protocolConfigPda admin treasury creationFee executionFee
           shards programId], protocolConfigPda).

Definition updateProtocol (admin : address) (creationFee executionFee : Z) (on : bool)
    (newTreasury : address) : M (list Instruction) :=
  '(protocolConfigPda, _) ← findProtocolConfig programId;
  mret [createUpdateProtocolIx admin protocolConfigPda creationFee executionFee on newTreasury
          programId].

Definition initializeTreasuryShard (payer admin : address) (shardId : Z) :
    M (list Instruction * address) :=
  '(protocolConfigPda, _) ← findProtocolConfig programId;
  '(treasuryShardPda, _) ← findTreasuryShard programId shardId;
  mret ([createInitializeTreasuryShardIx payer protocolConfigPda admin treasuryShardPda shardId
           programId], treasuryShardPda).

Definition registerPayer (payer : address) : M (list Instruction * address) :=
  '(feeRecordPda, _) ← findFeeRecord programId payer;
  mret ([createRegisterPayerIx payer feeRecordPda programId], feeRecordPda).

Definition withdrawTreasury (admin : address) (shardId : Z) (treasury : address) :
    M (list Instruction) :=
  '(protocolConfigPda, _) ← findProtocolConfig programId;
  '(treasuryShardPda, _) ← findTreasuryShard programId shardId;
  mret [createWithdrawTreasuryIx admin protocolConfigPda treasuryShardPda treasury programId].
End ops.
