(* ===== verification/Samples.v ===== *)
(** * A concrete run of the client

    The inputs the examples of the next files share: a node that serves one
    passkey authority and an enabled protocol config with four shards, a passkey
    signer, and one inner instruction. *)
From S2P Require Import Prelude Bytes Kit Constants JsMap Pdas Actions Packing Compact Builders.
From S2P Require Import Signing Accounts ChallengeReads Ownership ClientHelpers Client.
From S2P Require Import ClientOps.
Import ConcreteKit.
Local Open Scope Z_scope.

Module Sample.

Definition program : addr := at_byte 9.
Definition payer : addr := at_byte 1.
Definition wallet : addr := at_byte 2.

(** The authority account: its counter stands at 7. *)
Definition authority_account : bytes :=
  AuthorityAccountHeader DISC_AUTHORITY 1 0 255 1 (zeros 3) 7 0 (zeros 2) wallet
  ++ replicate 32 (u8 5) ++ replicate 33 (u8 6).

(** [enabled] is byte 3, the shard count byte 4. *)
Definition config_account : bytes :=
  [u8 DISC_PROTOCOL_CONFIG; u8 1; u8 255; u8 1; u8 4] ++ zeros 83.

Definition served (a : addr) : option AccountView :=
  match findProtocolConfigPda program with
  | Ok (pda, _) => if decide (a = pda) then Some (view_of_bytes program 1 config_account) else None
  | Throw _ => None
  end.

(** The reads of the wallet lookup, which these runs do not make. *)
Definition unread {A} : result A := Throw (EExternal "offline").

Definition node : Env := mkEnv
  (λ _ a, Ok (served a)) (λ _ n, replicate n (u8 6)) (λ _, 0)
  (λ _, [Answer 0 (Ok (RAccount (Some (view_of_bytes program 1 authority_account))))]) (λ _, false)
  (λ _, unread) (λ _ _ _, unread) (λ _ _ _ _, unread) (λ _ _ _ _, unread) (λ _, 0%nat).

(** The same node, failing the challenge reads. *)
Definition flaky_node : Env := mkEnv
  (λ _ a, Ok (served a)) (λ _ n, replicate n (u8 6)) (λ _, 0)
  (λ _, [Answer 0 (Throw (EExternal "HTTP 500")); Catch 0]) (λ _, false)
  (λ _, unread) (λ _ _ _, unread) (λ _ _ _ _, unread) (λ _ _ _ _, unread) (λ _, 0%nat).

(** A node that cannot be reached. *)
Definition dead_node : Env := mkEnv
  (λ _ _, Throw (EExternal "offline")) (λ _ n, replicate n (u8 6)) (λ _, 0) (λ _, []) (λ _, false)
  (λ _, unread) (λ _ _ _, unread) (λ _ _ _ _, unread) (λ _ _ _ _, unread) (λ _, 0%nat).

Definition params : Secp256r1Params :=
  mkParams (replicate 32 (u8 5)) (Some (replicate 33 (u8 6))) None (Some 1000) None None.

Definition response : WebAuthnResponse :=
  mkResponse (zeros 64) (zeros 37) (zeros 32) (utf8 "{}").

Definition passkey : Secp256r1SignerConfig :=
  mkSignerConfig (mkSigner (replicate 33 (u8 6)) (replicate 32 (u8 5)) "example.com"
                    (λ _, Ok response)) None (Some 1000) None None.

(** A transfer out of the vault that also names the payer. *)
Definition inner : Instruction :=
  mkIx (at_byte 20) [mkMeta (at_byte 21) WRITABLE; mkMeta payer WRITABLE; mkMeta (at_byte 22) READONLY]
    [u8 2; u8 0].

(** The value of a call on a fresh client, under a test. *)
Definition returns {A} (r : client * result A) (p : A → bool) : bool :=
  match r with (_, Ok a) => p a | _ => false end.

Lemma returns_inv {A} (r : client * result A) p :
  returns r p = true → ∃ c a, r = (c, Ok a) ∧ p a = true.
Proof. destruct r as [c [a|]]; [|done]. intros H. by exists c, a. Qed.

End Sample.
