(* ===== verification/Deferred.v ===== *)
(** * The deferred payload on the wire

    Models [serializeDeferredPayload] and [deserializeDeferredPayload] of
    src/sdk/sdk-kit/src/types.ts.  Deserializing checks the outer shape and the
    version; what it only casts (the inner numbers and arrays, the two
    addresses) it hands on as the JSON it found: [RawDeferred].  [typed] reads
    such a value at the types its interface declares. *)
From S2P Require Import Prelude Bytes Kit Constants Packing Signing Json JsonText.
From S2P Require Import ChallengeReads Client ClientOps Samples.
Local Open Scope Z_scope.

Definition DEFERRED_PAYLOAD_VERSION : Z := 2.

Definition js_string (b : bytes) : string := String.string_of_list_byte b.

Record RawCompact := mkRawCompact {
  rc_programIdIndex : option json;
  rc_accountIndexes : option json;
  rc_data : bytes;
}.

Record RawMeta := mkRawMeta { rm_address : option json; rm_role : option json }.

Section wire.
Context `{K : Kit}.

Record RawDeferred := mkRaw {
  rw_walletPda : bytes;
  rw_deferredExecPda : bytes;
  rw_compactInstructions : list RawCompact;
  rw_remainingAccounts : list RawMeta;
  rw_executor : option address;
  rw_refundDestination : option address;
}.

Definition JAddress (a : address) : json := JStr (utf8 (address_string a)).

Definition compact_json (ix : CompactInstruction) : json :=
  JObj [(lit "programIdIndex", JNat (programIdIndex ix));
        (lit "accountIndexes", JArr (JNat <$> accountIndexes ix));
        (lit "data", JStr (utf8 (base64_text (c_data ix))))].

Definition meta_json (m : AccountMeta) : json :=
  JObj [(lit "address", JAddress (m_address m)); (lit "role", JNat (role_num (m_role m)))].

(** A member that is [undefined] is left out. *)
Definition opt_member (name : string) (a : option address) : list (bytes * json) :=
  match a with Some a => [(lit name, JAddress a)] | None => [] end.

Definition wire_json (walletPda deferredExecPda : address) (compact remaining : list json)
    (executor refundDestination : option address) : json :=
  JObj ([(lit "version", JNat DEFERRED_PAYLOAD_VERSION);
         (lit "walletPda", JAddress walletPda);
         (lit "deferredExecPda", JAddress deferredExecPda);
         (lit "compactInstructions", JArr compact);
         (lit "remainingAccounts", JArr remaining)]
        ++ opt_member "executor" executor
        ++ opt_member "refundDestination" refundDestination).

Definition payload_json (p : DeferredPayload) : json :=
  wire_json (dp_walletPda p) (dp_deferredExecPda p) (compact_json <$> dp_compactInstructions p)
    (meta_json <$> dp_remainingAccounts p) (dp_executor p) (dp_refundDestination p).

Definition serializeDeferredPayload (p : DeferredPayload) : string :=
  js_string (stringify (payload_json p)).

(** [typeof json === 'object' && json !== null]. *)
Definition is_object (v : json) : bool :=
  match v with JArr _ | JObj _ => true | _ => false end.

(** [v === undefined || typeof v === 'string']. *)
Definition opt_string (v : option json) : bool :=
  match v with None | Some (JStr _) => true | _ => false end.

Definition raw_compact (ix : json) : result RawCompact :=
  programIdIndex ← property ix (lit "programIdIndex");
  accountIndexes ← property ix (lit "accountIndexes");
  data ← property ix (lit "data");
  match data with
  | Some (JStr s) =>
      b ← of_option (EExternal "base64") (base64_bytes (js_string s));
      Ok (mkRawCompact programIdIndex accountIndexes b)
  | _ => Throw (EExternal "TypeError")
  end.

Definition raw_meta (a : json) : result RawMeta :=
  addr ← property a (lit "address");
  role ← property a (lit "role");
  Ok (mkRawMeta addr role).

(** [v !== undefined ? address(v) : undefined] for a string or [undefined]. *)
Definition opt_address (v : option json) : result (option address) :=
  match v with
  | Some (JStr s) => Some <$> of_option (EExternal "address") (parse_address (js_string s))
  | _ => Ok None
  end.

Definition version_of (v : option json) : option Z :=
  match v with Some (JNum l) => num_int l | _ => None end.

(** What the checks let through. *)
Record Wire := mkWire {
  w_walletPda : bytes;
  w_deferredExecPda : bytes;
  w_compactInstructions : list json;
  w_remainingAccounts : list json;
  w_executor : option json;
  w_refundDestination : option json;
}.

(** The parse, the shape check and the version check. *)
Definition read_wire (serialized : string) : result Wire :=
  json ← of_option (EExternal "SyntaxError") (json_parse (utf8 serialized));
  (throw! EDeferredShape when negb (is_object json);
   walletPda ← property json (lit "walletPda");
   deferredExecPda ← property json (lit "deferredExecPda");
   compactInstructions ← property json (lit "compactInstructions");
   remainingAccounts ← property json (lit "remainingAccounts");
   executor ← property json (lit "executor");
   refundDestination ← property json (lit "refundDestination");
   version ← property json (lit "version");
   match walletPda, deferredExecPda, compactInstructions, remainingAccounts with
   | Some (JStr w), Some (JStr d), Some (JArr cs), Some (JArr rs) =>
       throw! EDeferredShape when negb (opt_string executor && opt_string refundDestination);
       throw! EDeferredVersion (version_of version)
         when negb (bool_decide (version_of version = Some DEFERRED_PAYLOAD_VERSION));
       Ok (mkWire w d cs rs executor refundDestination)
   | _, _, _, _ => Throw EDeferredShape
   end)%js.

Definition deserializeDeferredPayload (serialized : string) : result RawDeferred :=
  w ← read_wire serialized;
  compact ← mapR raw_compact (w_compactInstructions w);
  remaining ← mapR raw_meta (w_remainingAccounts w);
  executor ← opt_address (w_executor w);
  refundDestination ← opt_address (w_refundDestination w);
  Ok (mkRaw (w_walletPda w) (w_deferredExecPda w) compact remaining executor refundDestination).

(** ** The declared types *)
Definition as_number (v : option json) : option Z :=
  match v with Some (JNum l) => num_int l | _ => None end.
Definition as_address (v : option json) : option address :=
  match v with Some (JStr s) => parse_address (js_string s) | _ => None end.

Definition typed_compact (r : RawCompact) : option CompactInstruction :=
  p ← as_number (rc_programIdIndex r);
  indexes ← (match rc_accountIndexes r with
        | Some (JArr vs) => mapM (λ v, as_number (Some v)) vs
        | _ => None end);
  Some (mkCompact p indexes (rc_data r)).

Definition typed_meta (r : RawMeta) : option AccountMeta :=
  a ← as_address (rm_address r);
  n ← as_number (rm_role r);
  role ← List.find (λ role, role_num role =? n) [READONLY; WRITABLE; READONLY_SIGNER; WRITABLE_SIGNER];
  Some (mkMeta a role).

Definition typed (r : RawDeferred) : option DeferredPayload :=
  w ← parse_address (js_string (rw_walletPda r));
  d ← parse_address (js_string (rw_deferredExecPda r));
  cs ← mapM typed_compact (rw_compactInstructions r);
  ms ← mapM typed_meta (rw_remainingAccounts r);
  Some (mkDeferredPayload w d cs ms (rw_executor r) (rw_refundDestination r)).
End wire.

(** The side conditions of [property_member] on an object with literal keys. *)
Ltac closed := apply (bool_decide_unpack _); vm_compute; exact I.
Ltac in_list := first [apply list_elem_of_here | apply list_elem_of_further; in_list].
Ltac member := first [closed | in_list].

(** ** Reading back *)
Section roundtrip.
Context `{KL : KitLaws}.

Lemma property_member ms k v :
  NoDup ms.*1 → (k, v) ∈ ms → property (JObj ms) k = Ok (Some v).
Proof.
  intros Hnd Hin. cbn [property]. f_equal.
  assert (Hin' : (k, v) ∈ reverse ms) by (by apply elem_of_reverse).
  assert (Hnd' : NoDup (reverse ms).*1) by (by rewrite fmap_reverse, reverse_Permutation).
  revert Hin' Hnd'. generalize (reverse ms) as l. induction l as [|[k' v'] l IH]; intros Hi Hn.
  { by apply not_elem_of_nil in Hi. }
  rewrite fmap_cons in Hn. apply NoDup_cons in Hn as [Hk Hn]. cbn [List.find fst].
  apply elem_of_cons in Hi as [[= <- <-]|Hi]; [by rewrite bytesEqual_refl|].
  destruct (bytesEqual k' k) eqn:E; [|by apply IH].
  apply bytesEqual_spec in E as ->. destruct Hk. apply list_elem_of_fmap. by exists (k, v).
Qed.

Lemma property_absent ms k : (k ∉ ms.*1) → property (JObj ms) k = Ok None.
Proof.
  intros Hk. cbn [property]. f_equal.
  assert (Hk' : k ∉ (reverse ms).*1) by (by rewrite fmap_reverse, elem_of_reverse).
  revert Hk'. generalize (reverse ms) as l. induction l as [|[k' v'] l IH]; intros Hn; [done|].
  rewrite fmap_cons, elem_of_cons in Hn. cbn [List.find fst].
  destruct (bytesEqual k' k) eqn:E; [|apply IH; tauto].
  apply bytesEqual_spec in E as ->. destruct Hn. by left.
Qed.

Lemma js_string_utf8 s : js_string (utf8 s) = s.
Proof. apply String.string_of_list_byte_of_string. Qed.

Lemma utf8_js_string b : utf8 (js_string b) = b.
Proof. apply String.list_byte_of_string_of_list_byte. Qed.

(** Base58 and base64 text needs no escape. *)
Lemma base58_plain b : forallb base58_char b = true → forallb plain b = true.
Proof.
  rewrite !forallb_forall. intros H x Hx. specialize (H x Hx).
  unfold base58_char, plain, QUOTE, BACKSLASH in *. lia.
Qed.

Lemma base64_plain b : forallb base64_char b = true → forallb plain b = true.
Proof.
  rewrite !forallb_forall. intros H x Hx. specialize (H x Hx).
  unfold base64_char, plain, QUOTE, BACKSLASH in *. lia.
Qed.

(** Payloads whose numbers are what the layout produces: index bytes. *)
Definition payload_ok (p : DeferredPayload) : Prop :=
  Forall (λ ix, 0 <= programIdIndex ix ∧ Forall (λ b, 0 <= b) (accountIndexes ix))
    (dp_compactInstructions p).

Lemma address_text a : text_ok (JAddress a) = true.
Proof. apply base58_plain, address_alphabet. Qed.

Lemma forallb_fmap_Forall {A} (f : A → json) (l : list A) :
  Forall (λ x, text_ok (f x) = true) l → forallb text_ok (f <$> l) = true.
Proof. induction 1 as [|x l Hx _ IH]; [done|]. cbn [fmap list_fmap forallb]. by rewrite Hx. Qed.

Lemma compact_text ix :
  0 <= programIdIndex ix → Forall (λ b, 0 <= b) (accountIndexes ix) →
  text_ok (compact_json ix) = true.
Proof.
  intros Hp Ha. pose proof (base64_plain _ (base64_alphabet (c_data ix))) as Hd.
  assert (Hi : forallb text_ok (JNat <$> accountIndexes ix) = true).
  { apply forallb_fmap_Forall. eapply Forall_impl; [exact Ha|]. intros b. apply dec_natural. }
  unfold compact_json. cbn [text_ok forallb fst snd]. unfold JNat at 1. cbn [text_ok].
  by rewrite dec_natural, Hi, Hd.
Qed.

Lemma meta_text m : text_ok (meta_json m) = true.
Proof.
  unfold meta_json. cbn [text_ok forallb fst snd]. rewrite address_text. unfold JNat. cbn [text_ok].
  by rewrite dec_natural by (by destruct (m_role m)).
Qed.

Lemma wire_text w d cs ms e r :
  forallb text_ok cs = true → forallb text_ok ms = true → text_ok (wire_json w d cs ms e r) = true.
Proof.
  intros Hc Hm. unfold wire_json. cbn [text_ok]. rewrite forallb_app.
  assert (Ho : ∀ n a, forallb plain (lit n) = true →
            forallb (λ m, forallb plain m.1 && text_ok m.2) (opt_member n a) = true).
  { intros n [a|] Hn; [|done]. cbn [opt_member forallb fst snd]. by rewrite Hn, address_text. }
  rewrite forallb_app, !Ho by reflexivity.
  cbn [forallb fst snd text_ok]. rewrite !address_text, Hc, Hm. reflexivity.
Qed.

Lemma compacts_text l :
  Forall (λ ix, 0 <= programIdIndex ix ∧ Forall (λ b, 0 <= b) (accountIndexes ix)) l →
  forallb text_ok (compact_json <$> l) = true.
Proof.
  intros H. apply forallb_fmap_Forall. eapply Forall_impl; [exact H|]. intros ix []. by apply compact_text.
Qed.

Lemma metas_text l : forallb text_ok (meta_json <$> l) = true.
Proof. apply forallb_fmap_Forall, Forall_forall. auto using meta_text. Qed.

(** What the JSON of a payload carries, unread. *)
Definition raw_c (ix : CompactInstruction) : RawCompact :=
  mkRawCompact (Some (JNat (programIdIndex ix))) (Some (JArr (JNat <$> accountIndexes ix))) (c_data ix).
Definition raw_m (m : AccountMeta) : RawMeta :=
  mkRawMeta (Some (JAddress (m_address m))) (Some (JNat (role_num (m_role m)))).
Definition raw_of (p : DeferredPayload) : RawDeferred :=
  mkRaw (utf8 (address_string (dp_walletPda p))) (utf8 (address_string (dp_deferredExecPda p)))
    (raw_c <$> dp_compactInstructions p) (raw_m <$> dp_remainingAccounts p) (dp_executor p)
    (dp_refundDestination p).

Lemma mapR_fmap {A B C} (f : B → result C) (g : A → B) (h : A → C) l :
  (∀ x, f (g x) = Ok (h x)) → mapR f (g <$> l) = Ok (h <$> l).
Proof.
  intros H. induction l as [|x l IH]; [done|]. rewrite fmap_cons. cbn [mapR]. by rewrite H, bind_ok, IH.
Qed.

Lemma raw_compact_ok ix : raw_compact (compact_json ix) = Ok (raw_c ix).
Proof.
  unfold raw_compact, compact_json.
  rewrite (property_member _ (lit "programIdIndex") (JNat (programIdIndex ix))) by member. rewrite bind_ok.
  rewrite (property_member _ (lit "accountIndexes") (JArr (JNat <$> accountIndexes ix))) by member. rewrite bind_ok.
  rewrite (property_member _ (lit "data") (JStr (utf8 (base64_text (c_data ix))))) by member. rewrite bind_ok.
  by rewrite js_string_utf8, base64_round_trip.
Qed.

Lemma raw_meta_ok m : raw_meta (meta_json m) = Ok (raw_m m).
Proof.
  unfold raw_meta, meta_json.
  rewrite (property_member _ (lit "address") (JAddress (m_address m))) by member. rewrite bind_ok.
  by rewrite (property_member _ (lit "role") (JNat (role_num (m_role m)))) by member.
Qed.

Lemma opt_address_ok a : opt_address (JAddress <$> a) = Ok a.
Proof. destruct a as [a|]; [|done]. cbn. by rewrite js_string_utf8, parse_own_string. Qed.

(** An optional member, present or not. *)
Lemma opt_property w d cs ms e r :
  let v := wire_json w d cs ms e r in
  property v (lit "executor") = Ok (JAddress <$> e)
  ∧ property v (lit "refundDestination") = Ok (JAddress <$> r).
Proof.
  cbv zeta. unfold wire_json. destruct e, r;
    cbn [opt_member app fmap option_fmap option_map]; split;
    first [apply property_absent; closed | apply property_member; member].
Qed.

Lemma wire_member w d cs ms e r k v :
  (k, v) ∈ [(lit "version", JNat DEFERRED_PAYLOAD_VERSION);
            (lit "walletPda", JAddress w);
            (lit "deferredExecPda", JAddress d);
            (lit "compactInstructions", JArr cs);
            (lit "remainingAccounts", JArr ms)] →
  property (wire_json w d cs ms e r) k = Ok (Some v).
Proof. intros H. apply property_member; [|apply elem_of_app; by left]. destruct e, r; closed. Qed.

Lemma read_wire_json w d cs ms e r :
  forallb text_ok cs = true → forallb text_ok ms = true →
  read_wire (js_string (stringify (wire_json w d cs ms e r)))
  = Ok (mkWire (utf8 (address_string w)) (utf8 (address_string d)) cs ms (JAddress <$> e) (JAddress <$> r)).
Proof.
  intros Hc Hm. unfold read_wire.
  rewrite utf8_js_string, json_parse_stringify by (by apply wire_text).
  cbn [of_option]. rewrite bind_ok. destruct (opt_property w d cs ms e r) as [He Hr].
  rewrite (wire_member _ _ _ _ _ _ (lit "walletPda") (JAddress w)) by in_list.
  rewrite (wire_member _ _ _ _ _ _ (lit "deferredExecPda") (JAddress d)) by in_list.
  rewrite (wire_member _ _ _ _ _ _ (lit "compactInstructions") (JArr cs)) by in_list.
  rewrite (wire_member _ _ _ _ _ _ (lit "remainingAccounts") (JArr ms)) by in_list.
  rewrite (wire_member _ _ _ _ _ _ (lit "version") (JNat DEFERRED_PAYLOAD_VERSION)) by in_list.
  rewrite He, Hr. unfold throw_if. change (is_object (wire_json w d cs ms e r)) with true. cbn [negb].
  rewrite !bind_ok. unfold JAddress at 1 2.
  assert (Ho : opt_string (JAddress <$> e) && opt_string (JAddress <$> r) = true) by (by destruct e, r).
  rewrite Ho. cbn [negb]. rewrite bind_ok.
  change (version_of (Some (JNat DEFERRED_PAYLOAD_VERSION))) with (num_int (dec 2)).
  rewrite num_int_dec by lia. change (bool_decide (Some 2 = Some DEFERRED_PAYLOAD_VERSION)) with true.
  cbn [negb]. by rewrite bind_ok.
Qed.

Lemma deserialize_serialize p :
  payload_ok p → deserializeDeferredPayload (serializeDeferredPayload p) = Ok (raw_of p).
Proof.
  intros H. unfold deserializeDeferredPayload, serializeDeferredPayload, payload_json.
  rewrite read_wire_json by (by apply compacts_text || apply metas_text).
  rewrite bind_ok. cbn [w_compactInstructions w_remainingAccounts w_executor w_refundDestination].
  rewrite (mapR_fmap raw_compact compact_json raw_c), bind_ok by apply raw_compact_ok.
  rewrite (mapR_fmap raw_meta meta_json raw_m), bind_ok by apply raw_meta_ok.
  by rewrite !opt_address_ok, !bind_ok.
Qed.

Lemma mapM_fmap {A B C} (f : B → option C) (g : A → B) (h : A → C) l :
  Forall (λ x, f (g x) = Some (h x)) l → mapM f (g <$> l) = Some (h <$> l).
Proof. intros H. apply mapM_Some, Forall2_fmap, Forall_Forall2_diag. exact H. Qed.

Lemma typed_compacts l :
  Forall (λ ix, 0 <= programIdIndex ix ∧ Forall (λ b, 0 <= b) (accountIndexes ix)) l →
  Forall (λ ix, typed_compact (raw_c ix) = Some (id ix)) l.
Proof.
  intros H. eapply Forall_impl; [exact H|]. intros ix [Hp Ha]. unfold typed_compact, raw_c.
  cbn [rc_programIdIndex rc_accountIndexes rc_data as_number JNat]. rewrite num_int_dec by done.
  cbn [mbind option_bind]. rewrite (mapM_fmap _ JNat id).
  - rewrite list_fmap_id. by destruct ix.
  - eapply Forall_impl; [exact Ha|]. intros b Hb. by apply num_int_dec.
Qed.

Lemma typed_raw p : payload_ok p → typed (raw_of p) = Some p.
Proof.
  intros H. unfold typed, raw_of.
  cbn [rw_walletPda rw_deferredExecPda rw_compactInstructions rw_remainingAccounts rw_executor
       rw_refundDestination].
  rewrite !js_string_utf8, !parse_own_string. cbn [mbind option_bind].
  rewrite (mapM_fmap typed_compact raw_c id), (mapM_fmap typed_meta raw_m id).
  - cbn [mbind option_bind]. rewrite !list_fmap_id. by destruct p.
  - apply Forall_forall. intros m _. unfold typed_meta, raw_m, JAddress, JNat.
    cbn [rm_address rm_role as_address as_number].
    rewrite js_string_utf8, parse_own_string. cbn [mbind option_bind].
    rewrite num_int_dec by (by destruct (m_role m)). by destruct m as [? []].
  - by apply typed_compacts.
Qed.

(** A deferred payload survives the wire: what [serializeDeferredPayload]
    writes, [deserializeDeferredPayload] reads back without an error, and read
    at its declared types it is the payload that was written, the absent
    executor or refund destination included. *)
Theorem deferred_payload_roundtrip (p : DeferredPayload) :
  payload_ok p →
  ∃ raw, deserializeDeferredPayload (serializeDeferredPayload p) = Ok raw ∧ typed raw = Some p.
Proof. intros H. exists (raw_of p). auto using deserialize_serialize, typed_raw. Qed.

(** What the checks let through is a JSON object of the current version. *)
(** What a read instruction and a read optional address come from. *)
Definition compact_read (ix : json) (r : RawCompact) : Prop :=
  ∃ t, property ix (lit "data") = Ok (Some (JStr t)) ∧ base64_bytes (js_string t) = Some (rc_data r)
    ∧ property ix (lit "programIdIndex") = Ok (rc_programIdIndex r)
    ∧ property ix (lit "accountIndexes") = Ok (rc_accountIndexes r).

Definition meta_read (m : json) (r : RawMeta) : Prop :=
  property m (lit "address") = Ok (rm_address r) ∧ property m (lit "role") = Ok (rm_role r).

Definition address_read (v : json) (name : string) (a : option address) : Prop :=
  match a with
  | None => property v (lit name) = Ok None
  | Some a => ∃ t, property v (lit name) = Ok (Some (JStr t)) ∧ parse_address (js_string t) = Some a
  end.

Lemma raw_compact_iff ix r : raw_compact ix = Ok r ↔ compact_read ix r.
Proof.
  unfold raw_compact, compact_read. split.
  - intros (p & Hp & H)%bind_inv. apply bind_inv in H as (i & Hi & H). apply bind_inv in H as (d & Hd & H).
    destruct d as [[| | |t| |]|]; try done. apply bind_inv in H as (b & Hb%of_option_ok & [= <-]). by exists t.
  - destruct r as [p i b]. cbn. by intros (t & -> & Hb & -> & ->); cbn; rewrite Hb.
Qed.

Lemma raw_meta_iff m r : raw_meta m = Ok r ↔ meta_read m r.
Proof.
  unfold raw_meta, meta_read. split.
  - intros (a & Ha & H)%bind_inv. by apply bind_inv in H as (n & Hn & [= <-]).
  - destruct r as [a n]. cbn. by intros [-> ->].
Qed.

Lemma opt_address_iff v name x a :
  property v (lit name) = Ok x → opt_string x = true → opt_address x = Ok a ↔ address_read v name a.
Proof.
  intros Hx Hs. unfold address_read, opt_address. rewrite Hx. destruct x as [[| | |t| |]|]; try done.
  - destruct (parse_address (js_string t)) as [b|] eqn:E; cbn; split; intros H.
    + injection H as <-. by exists t.
    + destruct a as [a|]; [|done]. destruct H as (t' & [= <-] & H). congruence.
    + done.
    + destruct a as [a|]; [|done]. destruct H as (t' & [= <-] & H). congruence.
  - destruct a; split; try done. by intros (? & ? & _).
Qed.

Lemma address_read_string v name a :
  address_read v name a → ∃ x, property v (lit name) = Ok x ∧ opt_string x = true.
Proof. destruct a as [a|]; cbn; [intros (t & H & _); by exists (Some (JStr t))|by exists None]. Qed.

Lemma read_wire_iff s x : read_wire s = Ok x ↔
  ∃ v l, json_parse (utf8 s) = Some v ∧ is_object v = true
    ∧ property v (lit "version") = Ok (Some (JNum l)) ∧ num_int l = Some DEFERRED_PAYLOAD_VERSION
    ∧ property v (lit "walletPda") = Ok (Some (JStr (w_walletPda x)))
    ∧ property v (lit "deferredExecPda") = Ok (Some (JStr (w_deferredExecPda x)))
    ∧ property v (lit "compactInstructions") = Ok (Some (JArr (w_compactInstructions x)))
    ∧ property v (lit "remainingAccounts") = Ok (Some (JArr (w_remainingAccounts x)))
    ∧ property v (lit "executor") = Ok (w_executor x) ∧ opt_string (w_executor x) = true
    ∧ property v (lit "refundDestination") = Ok (w_refundDestination x) ∧ opt_string (w_refundDestination x) = true.
Proof.
  unfold read_wire. split.
  - intros (v & Hv & H)%bind_inv.
    apply of_option_ok in Hv. apply bind_inv in H as ([] & Ho%throw_if_ok%negb_false_iff & H).
    apply bind_inv in H as (w & Hw & H). apply bind_inv in H as (d & Hd & H).
    apply bind_inv in H as (c & Hc & H). apply bind_inv in H as (m & Hm & H).
    apply bind_inv in H as (e & He & H). apply bind_inv in H as (r & Hr & H).
    apply bind_inv in H as (ver & Hver & H).
    destruct w as [[| | |w| |]|]; try done. destruct d as [[| | |d| |]|]; try done.
    destruct c as [[| | | |cs|]|]; try done. destruct m as [[| | | |rs|]|]; try done.
    apply bind_inv in H as ([] & [Hse Hsr]%throw_if_ok%negb_false_iff%andb_true_iff & H).
    apply bind_inv in H as ([] & Hn%throw_if_ok & [= <-]).
    apply negb_false_iff, bool_decide_eq_true in Hn.
    destruct ver as [[| |l| | |]|]; try done. by exists v, l.
  - destruct x as [w d cs rs e r]. cbn.
    intros (v & l & -> & Ho & Hver & Hn & Hw & Hd & Hc & Hm & He & Hse & Hr & Hsr). cbn.
    rewrite Ho, Hw, Hd, Hc, Hm, He, Hr, Hver. cbn. rewrite Hse, Hsr. cbn. rewrite Hn. done.
Qed.

(** C27.  What [deserializeDeferredPayload] accepts, exactly, and what it
    returns.  It accepts the texts of a JSON object whose [version] is the
    number 2, so a payload of another version or of none never reaches
    [executeDeferredFromPayload]; whose [walletPda] and [deferredExecPda] are
    strings, of any content; whose [executor] and [refundDestination] are
    absent or the text of an address; whose [compactInstructions] is an array
    of values with a base64 [data] string; and whose [remainingAccounts] is an
    array of values that have properties, so no [null].  What it returns are
    those values in their order, the data decoded and the two optional
    addresses parsed; the index members of an instruction and the [address] and
    [role] of an account are handed on as they are, of any type or absent. *)
Theorem deserialize_only_current (s : string) (raw : RawDeferred) :
  deserializeDeferredPayload s = Ok raw ↔
  ∃ v l cs rs, json_parse (utf8 s) = Some v ∧ is_object v = true
    ∧ property v (lit "version") = Ok (Some (JNum l)) ∧ num_int l = Some DEFERRED_PAYLOAD_VERSION
    ∧ property v (lit "walletPda") = Ok (Some (JStr (rw_walletPda raw)))
    ∧ property v (lit "deferredExecPda") = Ok (Some (JStr (rw_deferredExecPda raw)))
    ∧ property v (lit "compactInstructions") = Ok (Some (JArr cs))
    ∧ property v (lit "remainingAccounts") = Ok (Some (JArr rs))
    ∧ Forall2 compact_read cs (rw_compactInstructions raw)
    ∧ Forall2 meta_read rs (rw_remainingAccounts raw)
    ∧ address_read v "executor" (rw_executor raw)
    ∧ address_read v "refundDestination" (rw_refundDestination raw).
Proof.
  unfold deserializeDeferredPayload. split.
  - intros (x & (v & l & Hv & Ho & Hl & Hn & Hw & Hd & Hc & Hr & He & Hse & Hf & Hsf)%read_wire_iff & H)%bind_inv.
    apply bind_inv in H as (cs & Hcs%mapR_ok & H). apply bind_inv in H as (rs & Hrs%mapR_ok & H).
    apply bind_inv in H as (e & Hxe & H). apply bind_inv in H as (r & Hxr & [= <-]).
    apply (opt_address_iff v "executor" _ e He Hse) in Hxe.
    apply (opt_address_iff v "refundDestination" _ r Hf Hsf) in Hxr.
    exists v, l, (w_compactInstructions x), (w_remainingAccounts x). cbn. repeat split; try done.
    + eapply Forall2_impl; [exact Hcs|]. intros ??. apply raw_compact_iff.
    + eapply Forall2_impl; [exact Hrs|]. intros ??. apply raw_meta_iff.
  - destruct raw as [w d cs' rs' e r]. cbn.
    intros (v & l & cs & rs & Hv & Ho & Hl & Hn & Hw & Hd & Hc & Hr & Hcs & Hrs & He & Hf).
    destruct (address_read_string _ _ _ He) as (xe & Hxe & Hse).
    destruct (address_read_string _ _ _ Hf) as (xr & Hxr & Hsr).
    rewrite (proj2 (read_wire_iff s (mkWire w d cs rs xe xr))) by (exists v, l; by repeat split). cbn.
    rewrite (proj2 (mapR_ok raw_compact cs cs')) by (eapply Forall2_impl; [exact Hcs|]; intros ??; apply raw_compact_iff).
    rewrite (proj2 (mapR_ok raw_meta rs rs')) by (eapply Forall2_impl; [exact Hrs|]; intros ??; apply raw_meta_iff).
    cbn. rewrite (proj2 (opt_address_iff v "executor" _ e Hxe Hse) He). cbn.
    by rewrite (proj2 (opt_address_iff v "refundDestination" _ r Hxr Hsr) Hf).
Qed.
End roundtrip.

(** ** Examples *)
Import ConcreteKit Sample.

Definition sample_payload : DeferredPayload :=
  mkDeferredPayload wallet (at_byte 40) [mkCompact 5 [0; 131; 7] [u8 1; u8 2]]
    [mkMeta (at_byte 41) WRITABLE; mkMeta (at_byte 42) READONLY_SIGNER] (Some (at_byte 3)) None.

Lemma sample_payload_ok : payload_ok sample_payload.
Proof.
  constructor; [|constructor]. split; [cbn; lia|]. cbn.
  repeat (constructor; [lia|]). constructor.
Qed.

Lemma deferred_payload_roundtrip_witness :
  ∃ raw, deserializeDeferredPayload (serializeDeferredPayload sample_payload) = Ok raw
    ∧ typed raw = Some sample_payload.
Proof. exact (@deferred_payload_roundtrip kit kit_laws sample_payload sample_payload_ok). Defined.

Lemma deserialize_only_current_witness :
  ∃ raw v, deserializeDeferredPayload (serializeDeferredPayload sample_payload) = Ok raw
    ∧ json_parse (utf8 (serializeDeferredPayload sample_payload)) = Some v
    ∧ match deserializeDeferredPayload (js_string (stringify (JObj [(lit "version", JNat 1);
        (lit "walletPda", JStr []); (lit "deferredExecPda", JStr []);
        (lit "compactInstructions", JArr []); (lit "remainingAccounts", JArr [])]))) with
      | Throw (EDeferredVersion (Some 1)) => True
      | _ => False
      end.
Proof.
  destruct (deserializeDeferredPayload (serializeDeferredPayload sample_payload)) as [raw|e] eqn:E.
  - destruct (proj1 (@deserialize_only_current kit _ raw) E) as (v & l & cs & rs & Hv & _).
    exists raw, v. split; [reflexivity|]. split; [exact Hv | vm_compute; exact I].
  - apply (f_equal is_ok) in E. vm_compute in E. discriminate E.
Defined.
