(* ===== verification/ClientProps.v ===== *)
(** * Properties of the client

    How a call of the client is inverted into its steps, the two caches of
    protocol-fee resolution, and the account positions the passkey instructions
    sign. *)
From S2P Require Import Prelude Bytes Kit Constants JsMap Pdas Actions Packing Compact Builders.
From S2P Require Import Signing Accounts ChallengeReads Ownership ClientHelpers Client.
From S2P Require Import ClientOps Samples.
Local Open Scope Z_scope.

(** ** Inverting the client monad *)
Section monad.
Context `{K : Kit}.

Lemma M_bind_inv {A B} (m : M A) (f : A → M B) c c' b :
  (m ≫= f) c = (c', Ok b) → ∃ c1 a, m c = (c1, Ok a) ∧ f a c1 = (c', Ok b).
Proof.
  unfold mbind, M_bind. destruct (m c) as [c1 [a|e]]; [eauto | done].
Qed.

Lemma lift_inv {A} (r : result A) c c' a : lift r c = (c', Ok a) → c' = c ∧ r = Ok a.
Proof. unfold lift. naive_solver. Qed.

Lemma both_inv {A B} env (m : M A) (m' : M B) c c' r :
  both env m m' c = (c', Ok r) →
  ∃ c0 c1 a b, _protocolConfig c0 = _protocolConfig c ∧ _registeredPayers c0 = _registeredPayers c
    ∧ m c0 = (c1, Ok a) ∧ m' c1 = (c', Ok b) ∧ r = (a, b).
Proof.
  unfold both. set (c0 := mkClient _ _ _). destruct (m c0) as [c1 ra] eqn:E1.
  destruct (m' c1) as [c2 rb] eqn:E2. destruct ra, rb; intros [= <- <-]. by exists c0, c1, a, a0.
Qed.

Lemma mret_inv {A} (x : A) c c' a : mret (M := M) x c = (c', Ok a) → c' = c ∧ x = a.
Proof. unfold mret, M_ret. naive_solver. Qed.
End monad.

(** Splits [H : (x ← m; f x) c = (c', Ok b)] at its first step. *)
Ltac m_step H :=
  let c := fresh "c" in let a := fresh "a" in let E := fresh "E" in
  apply M_bind_inv in H as (c & a & E & H); cbn beta in H.

(** ** Protocol fees *)
Section fees.
Context `{K : Kit}.
Variable env : Env.
Variable programId : address.

Lemma getProtocolConfig_ok c c' cfg :
  getProtocolConfig env programId c = (c', Ok cfg) →
  _protocolConfig c' = Some cfg ∧ _registeredPayers c' = _registeredPayers c
  ∧ ∀ v, _protocolConfig c = Some v → v = cfg.
Proof.
  unfold getProtocolConfig. intros H. m_step H. unfold get in E. injection E as <- <-.
  destruct (_protocolConfig c) as [v|] eqn:Hc.
  { apply mret_inv in H as [-> ->]. naive_solver. }
  m_step H. destruct a as [pda b]. apply lift_inv in E as [-> _].
  m_step H. unfold rpc_getAccountInfo in E. m_step E.
  unfold ask in E0. injection E0 as <- <-. apply lift_inv in E as [-> _].
  destruct a as [v|].
  - m_step H. apply lift_inv in E as [-> _].
    destruct (_ || _); m_step H; unfold set_config, modify in E; injection E as <- <-;
      by apply mret_inv in H as [-> <-].
  - m_step H. unfold set_config, modify in E; injection E as <- <-. by apply mret_inv in H as [-> <-].
Qed.

(** Once cached, the config is answered without asking anything. *)
Lemma getProtocolConfig_cached c cfg :
  _protocolConfig c = Some cfg → getProtocolConfig env programId c = (c, Ok cfg).
Proof. intros H. unfold getProtocolConfig, mbind, M_bind, get. by rewrite H. Qed.

(** How many treasury shards the fee is spread over, and whether it is charged. *)
Definition shards_of (cfg : option ProtocolConfigView) : Z :=
  match cfg with Some v => if enabled v && (0 <? numShards v) then numShards v else 1 | None => 1 end.
Definition charged (cfg : option ProtocolConfigView) : bool :=
  match cfg with Some v => enabled v | None => false end.

(** The fee accounts of [payer] under a config. *)
Definition fee_for (payer : address) (cfg : option ProtocolConfigView) (f : ProtocolFeeAccounts) :
    Prop :=
  (∃ b, findProtocolConfigPda programId = Ok (protocolConfigPda f, b))
  ∧ (∃ b, findFeeRecordPda payer programId = Ok (feeRecordPda f, b))
  ∧ ∃ shard b, findTreasuryShardPda shard programId = Ok (treasuryShardPda f, b)
               ∧ 0 <= shard < shards_of cfg.

Lemma resolveProtocolFee_ok payer c c' r :
  resolveProtocolFee env programId true payer c = (c', Ok r) →
  ∃ f cfg, r = Some f ∧ _protocolConfig c' = Some cfg
    ∧ _registeredPayers c' = _registeredPayers c ∧ fee_for payer cfg f
    ∧ ∀ v, _protocolConfig c = Some v → v = cfg.
Proof.
  unfold resolveProtocolFee. cbn [negb]. intros H.
  m_step H. apply getProtocolConfig_ok in E as (Hcfg & Hreg & Hkeep).
  m_step H. destruct a0 as [pc b1]. apply lift_inv in E as [-> H1].
  m_step H. destruct a0 as [fr b2]. apply lift_inv in E as [-> H2].
  m_step H. rename a0 into shard.
  assert (Hsh : _protocolConfig c1 = Some a ∧ _registeredPayers c1 = _registeredPayers c
                ∧ 0 <= shard < shards_of a).
  { unfold shards_of. destruct a as [v|]; [destruct (enabled v && (0 <? numShards v)) eqn:Hv|].
    - m_step E. unfold ask in E0. injection E0 as <- <-. apply mret_inv in E as [-> <-]. cbn.
      split; [done|]. split; [done|]. apply Z.mod_pos_bound.
      by apply andb_prop in Hv as [_ ?%Z.ltb_lt].
    - apply mret_inv in E as [-> <-]. by rewrite Hcfg.
    - apply mret_inv in E as [-> <-]. by rewrite Hcfg. }
  destruct Hsh as (Hcfg1 & Hreg1 & Hshard). m_step H. destruct a0 as [ts b3].
  apply lift_inv in E0 as [-> H3]. apply mret_inv in H as [-> <-].
  exists (mkFee pc fr ts), a. split; [done|]. split; [done|]. split; [done|].
  split; [|done]. split; [by eexists|]. split; [by eexists|]. by eexists _, _.
Qed.

(** One call of [resolveProtocolFeeWithRegister]. *)
Definition resolution (payer : address) (c c' : client)
    (fee : option (ProtocolFeeAccounts * option Instruction)) : Prop :=
  ∃ f reg cfg, fee = Some (f, reg) ∧ _protocolConfig c' = Some cfg ∧ fee_for payer cfg f
    ∧ (∀ v, _protocolConfig c = Some v → v = cfg)
    ∧ (∀ p, p ∈ _registeredPayers c' ↔
         p ∈ _registeredPayers c ∨ (p = payer ∧ charged cfg = true))
    ∧ ∀ ix, reg = Some ix →
        ix = createRegisterPayerIx payer (feeRecordPda f) programId
        ∧ charged cfg = true ∧ (payer ∉ _registeredPayers c).

Lemma register_elem payer c p :
  p ∈ _registeredPayers (register payer c).1 ↔ p ∈ _registeredPayers c ∨ p = payer.
Proof.
  unfold register, modify. cbn. case_bool_decide; [naive_solver|].
  rewrite elem_of_app, list_elem_of_singleton. done.
Qed.

Lemma resolution_ok payer c c' fee :
  resolveProtocolFeeWithRegister env programId true payer c = (c', Ok fee) →
  resolution payer c c' fee.
Proof.
  unfold resolveProtocolFeeWithRegister, resolution. intros H.
  m_step H. apply resolveProtocolFee_ok in E as (f & cfg & -> & Hcfg & Hreg & Hf & Hkeep).
  m_step H. rewrite (getProtocolConfig_cached c0 cfg Hcfg) in E. injection E as <- <-.
  change (match cfg with Some v => enabled v | None => false end) with (charged cfg) in H.
  destruct (charged cfg) eqn:Hon; cbn [negb] in H; cycle 1.
  { apply mret_inv in H as [-> <-]. exists f, None, cfg.
    repeat (split; [done|]). split; [rewrite Hreg, Hon; naive_solver | done]. }
  m_step H. unfold get in E. injection E as <- <-. rewrite Hreg in H.
  case_bool_decide as Hin.
  { apply mret_inv in H as [-> <-]. exists f, None, cfg.
    repeat (split; [done|]). split; [rewrite Hreg; naive_solver | done]. }
  m_step H. unfold rpc_getAccountInfo in E. m_step E. unfold ask in E0. injection E0 as <- <-.
  apply lift_inv in E as [-> _]. m_step H. apply lift_inv in E as [-> _].
  destruct a0; m_step H.
  all: assert (Hr : ∀ p, p ∈ _registeredPayers c1 ↔ p ∈ _registeredPayers c ∨ p = payer)
    by (intros p; replace c1 with (register payer
          (mkClient (_protocolConfig c0) (_registeredPayers c0) (S (asked c0)))).1
          by (by rewrite E); rewrite register_elem; cbn [_registeredPayers]; by rewrite Hreg).
  all: assert (Hc1 : _protocolConfig c1 = Some cfg)
    by (unfold register, modify in E; injection E as <- _; done).
  all: apply mret_inv in H as [-> <-]; eexists f, _, cfg; repeat (split; [done|]).
  all: split; [intros p; rewrite Hr; naive_solver|]; intros ix; first [done | by intros [= <-]].
Qed.
End fees.

Section fee_theorems.
Context `{K : Kit}.
Variable programId : address.

(** Fee resolution: on success the call names the payer's fee record, the
    protocol config and a treasury shard the config has; the config is cached
    and a cached config is kept;
    the payer is remembered exactly when a fee is charged; and a RegisterPayer
    instruction is emitted only for a payer not remembered before, naming that
    fee record. *)
Theorem fee_resolution (env : Env) payer c c' fee :
  resolveProtocolFeeWithRegister env programId true payer c = (c', Ok fee) →
  resolution programId payer c c' fee.
Proof. apply resolution_ok. Qed.

(** A resolution whose answers are cached. *)
Lemma resolve_cached (env : Env) payer c cfg f :
  _protocolConfig c = Some cfg → (charged cfg = true → payer ∈ _registeredPayers c) →
  fee_for programId payer cfg f →
  (∀ shard, is_ok (findTreasuryShardPda shard programId) = true) →
  ∃ c' ts, resolveProtocolFeeWithRegister env programId true payer c
           = (c', Ok (Some (mkFee (protocolConfigPda f) (feeRecordPda f) ts, None)))
    ∧ _protocolConfig c' = Some cfg ∧ _registeredPayers c' = _registeredPayers c
    ∧ (asked c <= asked c' <= S (asked c))%nat.
Proof.
  intros Hc Hreg ([b1 H1] & [b2 H2] & _) Hall.
  set (c1 := match cfg with
             | Some v => if enabled v && (0 <? numShards v)
                         then mkClient (Some cfg) (_registeredPayers c) (S (asked c)) else c
             | None => c end).
  assert (Hc1 : _protocolConfig c1 = Some cfg ∧ _registeredPayers c1 = _registeredPayers c
                ∧ (asked c <= asked c1 <= S (asked c))%nat).
  { subst c1. destruct cfg as [v|]; [destruct (_ && _)|]; cbn; repeat split; auto; lia. }
  set (shard := match cfg with
                | Some v => if enabled v && (0 <? numShards v)
                            then randU32 (env_randomBytes env (asked c) 4) mod numShards v else 0
                | None => 0 end).
  destruct (findTreasuryShardPda shard programId) as [[ts b3]|] eqn:H3;
    [|specialize (Hall shard); by rewrite H3 in Hall].
  exists c1, ts. split; [|done].
  assert (Hr : resolveProtocolFee env programId true payer c
               = (c1, Ok (Some (mkFee (protocolConfigPda f) (feeRecordPda f) ts)))).
  { unfold resolveProtocolFee, mbind, M_bind. cbn [negb].
    rewrite (getProtocolConfig_cached _ _ _ _ Hc).
    unfold findProtocolConfig, findFeeRecord, findTreasuryShard, lift. rewrite H1, H2.
    subst c1 shard. destruct cfg as [v|]; [destruct (_ && _)|]; unfold mret, M_ret, ask;
      by rewrite ?Hc, H3. }
  unfold resolveProtocolFeeWithRegister, mbind, M_bind in *. rewrite Hr.
  destruct Hc1 as (Hc1 & Hr1 & _). rewrite (getProtocolConfig_cached _ _ _ _ Hc1).
  change (match cfg with Some v => enabled v | None => false end) with (charged cfg).
  destruct (charged cfg) eqn:Hon; cbn [negb]; [|done].
  unfold get. by rewrite Hr1, bool_decide_eq_true_2 by auto.
Qed.

(** Registering happens once: after one successful resolution a second
    one for the same payer reads nothing from the node (it succeeds whatever
    the node would answer, and asks the outside for at most its random bytes),
    names the same config and fee record and emits no RegisterPayer. *)
Theorem register_once (env env' : Env) payer c c1 f1 reg1 :
  resolveProtocolFeeWithRegister env programId true payer c = (c1, Ok (Some (f1, reg1))) →
  (∀ shard, is_ok (findTreasuryShardPda shard programId) = true) →
  ∃ c2 f2, resolveProtocolFeeWithRegister env' programId true payer c1 = (c2, Ok (Some (f2, None)))
    ∧ protocolConfigPda f2 = protocolConfigPda f1 ∧ feeRecordPda f2 = feeRecordPda f1
    ∧ _registeredPayers c2 = _registeredPayers c1 ∧ (asked c2 <= S (asked c1))%nat.
Proof.
  intros (f & reg & cfg & [= <- <-] & Hcfg & Hf & _ & Hp & _)%resolution_ok Hall.
  destruct (resolve_cached env' payer c1 cfg f1 Hcfg) as (c2 & ts & H & _ & Hr & Ha); [|done|done|].
  - intros Hon. apply Hp. by right.
  - exists c2, (mkFee (protocolConfigPda f1) (feeRecordPda f1) ts).
    split; [exact H|]. repeat (split; [done|]). lia.
Qed.
End fee_theorems.

(** ** Execute with a passkey *)
Section passkey_execute.
Context `{K : Kit}.
Variable env : Env.
Variable programId : address.

(** The caches the challenge reads leave alone. *)
Definition same_caches (c c' : client) : Prop :=
  _protocolConfig c' = _protocolConfig c ∧ _registeredPayers c' = _registeredPayers c.

Lemma resolveSecp256r1_caches wallet p c c' r :
  resolveSecp256r1 env programId wallet p c = (c', Ok r) → same_caches c c'.
Proof.
  unfold resolveSecp256r1. intros H.
  m_step H. apply lift_inv in E as [-> _]. m_step H. apply lift_inv in E as [-> _].
  m_step H. assert (c0 = c) as ->.
  { destruct (sp_authorityPda p); [by apply mret_inv in E as [-> _]|].
    m_step E. destruct a2. apply lift_inv in E0 as [-> _]. by apply mret_inv in E as [-> _]. }
  m_step H. unfold ask in E0. injection E0 as <- <-.
  m_step H. destruct a2 as [[k s] n]. apply lift_inv in E0 as [-> _].
  by apply mret_inv in H as [-> _].
Qed.

Lemma resolution_off payer c c' fee :
  resolveProtocolFeeWithRegister env programId false payer c = (c', Ok fee) → c' = c ∧ fee = None.
Proof.
  unfold resolveProtocolFeeWithRegister, resolveProtocolFee. cbn [negb]. intros H.
  m_step H. apply mret_inv in E as [-> <-]. by apply mret_inv in H as [-> <-].
Qed.

(** A second resolution for the same payer registers nothing. *)
Lemma second_resolution fees payer c0 c1 c2 c3 fee fee' :
  resolveProtocolFeeWithRegister env programId fees payer c0 = (c1, Ok fee) →
  same_caches c1 c2 →
  resolveProtocolFeeWithRegister env programId fees payer c2 = (c3, Ok fee') →
  fee_register fee' = [].
Proof.
  destruct fees; cycle 1.
  { intros _ _ [_ ->]%resolution_off. done. }
  intros (f & reg & cfg & -> & Hcfg & _ & _ & Hp & _)%resolution_ok [Hc Hr]
    (f' & reg' & cfg' & -> & _ & _ & Hkeep & _ & Hreg)%resolution_ok.
  destruct reg' as [ix|]; [exfalso|done].
  destruct (Hreg ix eq_refl) as (_ & Hon & Hnot). apply Hnot. rewrite Hr. apply Hp. right.
  split; [done|]. rewrite <- (Hkeep cfg) in Hon; [done | by rewrite Hc].
Qed.

(** What [prepareExecute] assembles. *)
Lemma prepareExecute_ok fees payer wallet p ixs feePayer c c' prepared :
  prepareExecute env programId fees payer wallet p ixs feePayer c = (c', Ok prepared) →
  ∃ vault b r l fee c1,
    findVaultPda wallet programId = Ok (vault, b)
    ∧ same_caches c c1
    ∧ resolveProtocolFeeWithRegister env programId fees payer c1 = (c', Ok fee)
    ∧ buildCompactLayoutAndHash (executeFixed payer wallet (rs_authorityPda r) vault) ixs payer
        feePayer = Ok l
    ∧ prepared = mkPreparedExecute
        (buildPasskeySigning programId DISC_EXECUTE SYSVAR_IX_INDEX_EXECUTE
           (packCompactInstructions (la_compactInstructions l) ++ la_accountsHash l) (rs_slot r)
           (rs_counter r) payer wallet (rs_publicKeyBytes r))
        payer wallet (rs_authorityPda r) vault
        (packCompactInstructions (la_compactInstructions l)) (la_remainingAccounts l)
        (fee_accounts fee) (fee_register fee) programId.
Proof.
  unfold prepareExecute. intros H.
  m_step H. destruct a as [vault b]. apply lift_inv in E as [-> Hv].
  m_step H. destruct a as [r fee].
  apply both_inv in E as (c1 & c2 & r' & fee' & Hc & Hp & Hr & Hfee & [= -> ->]).
  apply resolveSecp256r1_caches in Hr as [Hc2 Hp2].
  m_step H. apply lift_inv in E as [-> Hl]. apply mret_inv in H as [-> <-].
  exists vault, b, r', a, fee', c2. split; [done|].
  split; [split; congruence|]. do 2 (split; [done|]).
  rewrite concatBytes_concat. cbn [concat]. by rewrite !app_nil_r.
Qed.

(** [execute] with a passkey emits the precompile and Execute and nothing
    else: the RegisterPayer instruction its own fee resolution may return is
    not among them, whatever the client's caches hold. *)
Theorem passkey_execute_drops_register fees payer wallet s ixs feePayer c c' out :
  execute env programId fees payer wallet (ExecAdmin (AdminSecp256r1 s)) ixs feePayer c
  = (c', Ok out) →
  ∃ pre ix, out = [pre; ix] ∧ programAddress pre = SECP256R1_PROGRAM_ADDRESS
    ∧ head (data ix) = Some (u8 DISC_EXECUTE).
Proof.
  unfold execute. intros H. m_step H. destruct a. apply lift_inv in E as [-> _].
  m_step H. m_step H. m_step H. apply lift_inv in E1 as [-> _]. apply lift_inv in H as [-> H].
  apply prepareExecute_ok in E0 as (v & b & r & l & fee & c3 & _ & Hsame & Hfee & _ & ->).
  pose proof (second_resolution _ _ _ _ _ _ _ _ E Hsame Hfee) as Hnone.
  unfold finalizeExecute in H. apply bind_inv in H as ([ap pix] & Hf & [= <-]).
  cbn [pe_registerIx pe_signing] in *. rewrite Hnone. eexists pix, _. split; [done|]. split.
  - unfold finalizeSecp256r1 in Hf. apply bind_inv in Hf as (? & _ & Hf).
    apply bind_inv in Hf as (? & Hp & [= _ <-]). unfold buildSecp256r1PrecompileIx in Hp.
    do 3 (apply bind_inv in Hp as ([] & _ & Hp)). by injection Hp as <-.
  - done.
Qed.
End passkey_execute.

(** ** Examples *)
Import ConcreteKit Sample.

Lemma toy_shards shard : is_ok (findTreasuryShardPda shard program) = true.
Proof.
  unfold findTreasuryShardPda, derive. cbn [kit getProgramDerivedAddress].
  unfold toy_pda, mk. destruct (decide _) as [|Hn]; [done|]. destruct Hn.
  unfold pad32. rewrite length_take, length_app. len.
Qed.

(** A first use of a payer: the fee record is missing, RegisterPayer is
    emitted. *)
Lemma fee_resolution_witness :
  ∃ c' f ix, resolveProtocolFeeWithRegister node program true payer new_client
             = (c', Ok (Some (f, Some ix)))
    ∧ resolution program payer new_client c' (Some (f, Some ix)).
Proof.
  destruct (resolveProtocolFeeWithRegister node program true payer new_client)
    as [c' [[[f [ix|]]|]|e]] eqn:E.
  { exists c', f, ix. split; [reflexivity|]. exact (@fee_resolution kit program node payer _ _ _ E). }
  all: apply (f_equal (λ r, match r with (_, Ok (Some (_, Some _))) => true | _ => false end)) in E.
  all: vm_compute in E; discriminate E.
Defined.

(** The next use succeeds with the node unreachable. *)
Lemma register_once_witness :
  match resolveProtocolFeeWithRegister node program true payer new_client with
  | (c1, Ok (Some (f1, reg1))) =>
      ∃ c2 f2, resolveProtocolFeeWithRegister dead_node program true payer c1
               = (c2, Ok (Some (f2, None))) ∧ feeRecordPda f2 = feeRecordPda f1
  | _ => False
  end.
Proof.
  destruct (resolveProtocolFeeWithRegister node program true payer new_client)
    as [c1 [[[f1 reg1]|]|e]] eqn:E.
  { destruct (@register_once kit program node dead_node payer _ _ _ _ E toy_shards)
      as (c2 & f2 & H & _ & Hf & _). exists c2, f2. exact (conj H Hf). }
  all: apply (f_equal (λ r, match r with (_, Ok (Some _)) => true | _ => false end)) in E.
  all: vm_compute in E; discriminate E.
Defined.

(** The same first use as above, through [execute]: with an Ed25519 signer
    RegisterPayer precedes Execute, with a passkey it is missing. *)
Lemma passkey_execute_drops_register_witness :
  returns (execute node program true payer wallet (ExecAdmin (AdminEd25519 (at_byte 30) None))
             [inner] None new_client) (λ out, (length out =? 2)%nat) = true
  ∧ match execute node program true payer wallet (ExecAdmin (AdminSecp256r1 passkey)) [inner] None
            new_client with
    | (_, Ok out) => ∃ pre ix, out = [pre; ix]
        ∧ @programAddress kit pre = SECP256R1_PROGRAM_ADDRESS
        ∧ head (@data kit ix) = Some (u8 DISC_EXECUTE)
    | _ => False
    end.
Proof.
  split; [vm_compute; reflexivity|].
  destruct (execute node program true payer wallet (ExecAdmin (AdminSecp256r1 passkey)) [inner] None
              new_client) as [c' [out|e]] eqn:E.
  { exact (@passkey_execute_drops_register kit node program _ _ _ _ _ _ _ _ _ E). }
  apply (f_equal (λ r, returns r (λ _, true))) in E. vm_compute in E. discriminate E.
Defined.

(** A preparation that fails on its challenge reads still remembers the payer:
    the next one, on a sound node, registers nobody. *)
Example failed_preparation_remembers :
  match prepareExecute flaky_node program true payer wallet params [inner] None new_client with
  | (c, Throw _) =>
      _registeredPayers c = [payer]
      ∧ returns (prepareExecute node program true payer wallet params [inner] None c)
          (λ p, (length (pe_registerIx p) =? 0)%nat) = true
  | _ => False
  end.
Proof. vm_compute. split; reflexivity. Qed.
