(* ===== verification/ProgramChallenges.v ===== *)
(** * What the program signs for

    The challenge each passkey instruction of the program recomputes from its
    own accounts and data, from src/program/src/processor/ and
    src/program/src/auth/secp256r1/mod.rs: how a handler cuts its data into the
    signed part and the auth payload, which account keys it adds, and the hash
    [Secp256r1Authenticator::authenticate] takes of them.  The wallet and the
    counter are those of the authority account's header. *)
From S2P Require Import Prelude Bytes Kit Constants Pdas Packing Signing Accounts ProgramActions.
Local Open Scope Z_scope.

(** ** The program *)
Definition MAX_SLOT_AGE : Z := 150.

(** [counter.checked_add(1)] on a u32. *)
Definition next_counter (counter : Z) : result Z :=
  if counter + 1 <? 2 ^ 32 then Ok (counter + 1) else Throw PArithmeticOverflow.

Section program.
Context `{K : Kit}.

(** The challenge [Secp256r1Authenticator::authenticate] hashes, for an
    authority whose header holds [wallet] and [counter], behind its checks of
    the slot, the counter, the payer and the instructions sysvar; the checks of
    clientDataJSON, authenticatorData and the precompile instruction are
    [parse_auth_payload] and [verify_secp256r1_instruction_data]. *)
Definition authenticate_challenge (discriminator : bytes) (infos : list AccountInfo)
    (auth_payload signed_payload wallet : bytes) (counter current_slot : Z) (program_id : bytes) :
    result bytes :=
  (throw! PInvalidAuthorityPayload when (length auth_payload <? 18)%nat;
   let slot := le_combine (slice 0 8 auth_payload) in
   let submitted_counter := le_combine (slice 8 12 auth_payload) in
   throw! PInvalidSignatureAge when current_slot <? slot;
   throw! PInvalidSignatureAge when MAX_SLOT_AGE <=? current_slot - slot;
   expected_counter ← next_counter counter;
   throw! PSignatureReused when negb (submitted_counter =? expected_counter);
   payer ← of_option PNotEnoughAccountKeys (infos !! 0%nat);
   throw! PMissingRequiredSignature when negb (ai_is_signer payer);
   sysvar ← of_option PInvalidAuthorityPayload (infos !! Z.to_nat (val (auth_payload !!! 12%nat)));
   throw! PInvalidInstruction
     when negb (bytesEqual (ai_key sysvar) (address_encode SYSVAR_INSTRUCTIONS_ADDRESS));
   Ok (sha256 (discriminator ++ take 14 auth_payload ++ signed_payload ++ ai_key payer ++ wallet
               ++ le_split 4 expected_counter ++ program_id)))%js.

(** The Secp256r1 branch of Execute: the challenge it recomputes. *)
Definition execute_challenge (infos : list AccountInfo) (instruction_data wallet : bytes)
    (counter current_slot : Z) (program_id : bytes) : result bytes :=
  '(compact_instructions, compact_len) ← parse_compact_instructions instruction_data;
  preimage ← accounts_hash_preimage infos compact_instructions;
  authenticate_challenge [u8 4] infos (drop compact_len instruction_data)
    (take compact_len instruction_data ++ sha256 preimage) wallet counter current_slot program_id.

(** Authorize: [signed_payload] and the auth payload from its data. *)
Definition MIN_EXPIRY_SLOTS : Z := 10.
Definition MAX_EXPIRY_SLOTS : Z := 9000.

Definition authorize_challenge (infos : list AccountInfo) (instruction_data wallet : bytes)
    (counter current_slot : Z) (program_id : bytes) : result bytes :=
  (throw! PInvalidInstructionData when (length instruction_data <? 66)%nat;
   let instructions_hash := slice 0 32 instruction_data in
   let accounts_hash := slice 32 64 instruction_data in
   let expiry_offset := le_combine (slice 64 66 instruction_data) in
   let auth_payload := drop 66 instruction_data in
   throw! PInvalidExpiryWindow
     when (expiry_offset <? MIN_EXPIRY_SLOTS) || (MAX_EXPIRY_SLOTS <? expiry_offset);
   authenticate_challenge [u8 6] infos auth_payload
     (instructions_hash ++ accounts_hash ++ le_split 2 expiry_offset) wallet counter current_slot
     program_id)%js.

(** ** Authorities *)
Definition is_all_zero (b : bytes) : bool := forallb (λ x, val x =? 0) b.

Definition MAX_POLICY_BUFFER_SIZE : nat := 2048.

(** [rest.len() < 66], the rpId length byte and the whole key material: the
    part of [full_auth_data] AddAuthority and TransferOwnership check alike. *)
Definition passkey_data_len (rest : bytes) : result nat :=
  let rp_id_len := Z.to_nat (val (rest !!! 65%nat)) in
  (throw! PInvalidInstructionData when (rp_id_len =? 0)%nat || (253 <? rp_id_len)%nat;
   let total_auth_data := (32 + 33 + 1 + rp_id_len)%nat in
   throw! PInvalidInstructionData when (length rest <? total_auth_data)%nat;
   Ok total_auth_data)%js.

(** AddAuthority: [full_auth_data.len()]. *)
Definition add_key_len (authority_type : Z) (rest : bytes) : result nat :=
  if authority_type =? 0 then
    (throw! PInvalidInstructionData when (length rest <? 32)%nat;
     throw! PInvalidPubkey when is_all_zero (take 32 rest);
     Ok 32%nat)%js
  else if authority_type =? 1 then
    (throw! PInvalidInstructionData when (length rest <? 66)%nat;
     throw! PInvalidPubkey
       when is_all_zero (take 32 rest) || is_all_zero (slice 32 65 rest);
     passkey_data_len rest)%js
  else Throw PInvalidAuthenticationKind.

(** AddAuthority: where [data_payload] ends. *)
Definition add_payload_len (instruction_data : bytes) : result nat :=
  (throw! PInvalidInstructionData when (length instruction_data <? 8)%nat;
   key_len ← add_key_len (val (instruction_data !!! 0%nat)) (drop 8 instruction_data);
   let key_data_end := (8 + key_len)%nat in
   throw! PInvalidInstructionData when (length instruction_data <? key_data_end)%nat;
   if (key_data_end + 2 <=? length instruction_data)%nat then
     let policy_len := Z.to_nat (le_combine (slice key_data_end (key_data_end + 2) instruction_data)) in
     throw! PInvalidInstructionData when (MAX_POLICY_BUFFER_SIZE <? policy_len)%nat;
     let start := (key_data_end + 2)%nat in
     throw! PInvalidInstructionData when (length instruction_data <? start + policy_len)%nat;
     let policy := slice start (start + policy_len) instruction_data in
     _ ← (if (length policy =? 0)%nat then Ok () else validate_actions_buffer policy);
     Ok (start + policy_len)%nat
   else Ok key_data_end)%js.

Definition add_authority_challenge (infos : list AccountInfo) (instruction_data wallet : bytes)
    (counter current_slot : Z) (program_id : bytes) : result bytes :=
  data_payload_len ← add_payload_len instruction_data;
  let data_payload := take data_payload_len instruction_data in
  let authority_payload := drop data_payload_len instruction_data in
  payer ← of_option PNotEnoughAccountKeys (infos !! 0%nat);
  authenticate_challenge [u8 1] infos authority_payload (data_payload ++ ai_key payer) wallet counter
    current_slot program_id.

(** RemoveAuthority (discriminator 2) and RevokeSession (9) sign over the
    target and the refund destination, accounts 3 and 4; all the data is the
    auth payload. *)
Definition target_challenge (discriminator : Z) (infos : list AccountInfo)
    (instruction_data wallet : bytes) (counter current_slot : Z) (program_id : bytes) :
    result bytes :=
  target ← of_option PNotEnoughAccountKeys (infos !! 3%nat);
  refund_dest ← of_option PNotEnoughAccountKeys (infos !! 4%nat);
  authenticate_challenge [u8 discriminator] infos instruction_data
    (ai_key target ++ ai_key refund_dest) wallet counter current_slot program_id.

(** TransferOwnership: [full_auth_data.len()]. *)
Definition transfer_key_len (auth_type : Z) (rest : bytes) : result nat :=
  n ← (if auth_type =? 0 then
         (throw! PInvalidInstructionData when (length rest <? 32)%nat; Ok 32%nat)%js
       else if auth_type =? 1 then
         (throw! PInvalidInstructionData when (length rest <? 66)%nat;
          throw! PInvalidAccountData when is_all_zero (slice 32 65 rest);
          passkey_data_len rest)%js
       else Throw PInvalidAuthenticationKind);
  (throw! PInvalidAccountData when is_all_zero (take 32 rest); Ok n)%js.

Definition transfer_challenge (infos : list AccountInfo) (instruction_data wallet : bytes)
    (counter current_slot : Z) (program_id : bytes) : result bytes :=
  (throw! PInvalidInstructionData when (length instruction_data =? 0)%nat;
   key_len ← transfer_key_len (val (instruction_data !!! 0%nat)) (drop 1 instruction_data);
   let data_payload_len := (1 + key_len)%nat in
   throw! PInvalidInstructionData when (length instruction_data <? data_payload_len)%nat;
   let data_payload := take data_payload_len instruction_data in
   let authority_payload := drop data_payload_len instruction_data in
   payer ← of_option PNotEnoughAccountKeys (infos !! 0%nat);
   refund_dest ← of_option PNotEnoughAccountKeys (infos !! 4%nat);
   authenticate_challenge [u8 3] infos authority_payload
     (data_payload ++ ai_key payer ++ ai_key refund_dest) wallet counter current_slot program_id)%js.

(** ** Sessions *)
Definition MAX_ACTIONS_BUFFER_SIZE : nat := 2048.

(** [ParsedCreateSessionArgs::from_bytes]: the key, the expiry, the actions and
    [args_end_offset]. *)
Definition session_args (d : bytes) : result (bytes * Z * bytes * nat) :=
  (throw! PInvalidInstructionData when (length d <? 40)%nat;
   let session_key := take 32 d in
   let expires_at := le_combine (slice 32 40 d) in
   if (42 <=? length d)%nat then
     let actions_len := Z.to_nat (le_combine (slice 40 42 d)) in
     throw! PInvalidInstructionData when (MAX_ACTIONS_BUFFER_SIZE <? actions_len)%nat;
     if (0 <? actions_len)%nat then
       let actions_end := (42 + actions_len)%nat in
       throw! PInvalidInstructionData when (length d <? actions_end)%nat;
       let actions_bytes := slice 42 actions_end d in
       _ ← validate_actions_buffer actions_bytes;
       Ok (session_key, expires_at, actions_bytes, actions_end)
     else Ok (session_key, expires_at, [], 42%nat)
   else Ok (session_key, expires_at, [], 40%nat))%js.

Definition create_session_challenge (infos : list AccountInfo) (instruction_data wallet : bytes)
    (counter current_slot : Z) (program_id : bytes) : result bytes :=
  '(_, _, _, args_end_offset) ← session_args instruction_data;
  let data_payload := take args_end_offset instruction_data in
  let authority_payload := drop args_end_offset instruction_data in
  payer ← of_option PNotEnoughAccountKeys (infos !! 0%nat);
  authenticate_challenge [u8 5] infos authority_payload (data_payload ++ ai_key payer) wallet counter
    current_slot program_id.

(** ** Migration *)

(** The accounts per migrated token: source, destination, mint, token program. *)
Definition TOKEN_ACCOUNTS : nat := 4.

(** [Ed25519Authenticator::authenticate], at the top level. *)
Definition ed25519_authenticate (infos : list AccountInfo) (authority_data : bytes) : result unit :=
  (throw! PInvalidAccountData when (length authority_data <? 80)%nat;
   throw! PMissingRequiredSignature
     when negb (existsb (λ i, ai_is_signer i && bytesEqual (ai_key i) (slice 48 80 authority_data)) infos);
   Ok ())%js.

(** An account's owner and data. *)
Abbreviation contents := (bytes * bytes)%type.

(** MigrateWallet up to its authentication: the checks of the accounts' shape
    and rank, then the owner's Ed25519 signature ([None]) or the challenge a
    passkey must have signed. *)
Definition migrate_authenticates (infos : list AccountInfo) (instruction_data : bytes)
    (wallet authority : contents) (current_slot : Z) (program_id : bytes) : result (option bytes) :=
  num_tokens ← of_option PInvalidInstructionData (Z.to_nat ∘ val <$> head instruction_data);
  let auth_payload := tail instruction_data in
  payer ← of_option PNotEnoughAccountKeys (infos !! 0%nat);
  v1_wallet ← of_option PNotEnoughAccountKeys (infos !! 1%nat);
  destination ← of_option PNotEnoughAccountKeys (infos !! 4%nat);
  refund_dest ← of_option PNotEnoughAccountKeys (infos !! 5%nat);
  system_program ← of_option PNotEnoughAccountKeys (infos !! 6%nat);
  (throw! PNotEnoughAccountKeys when (length infos <? 9)%nat;
   throw! PMissingRequiredSignature when negb (ai_is_signer payer);
   throw! PIncorrectProgramId
     when negb (bytesEqual (ai_key system_program) (address_encode SYSTEM_PROGRAM_ADDRESS));
   throw! PIllegalOwner
     when negb (bytesEqual wallet.1 program_id) || negb (bytesEqual authority.1 program_id);
   throw! PInvalidAccountData when (length wallet.2 =? 0)%nat || negb (byte_is wallet.2 0 V1_DISC_WALLET);
   throw! PInvalidAccountData when (length authority.2 <? 48)%nat;
   throw! PInvalidAccountData when negb (byte_is authority.2 0 V1_DISC_AUTHORITY);
   throw! PInvalidAccountData when negb (bytesEqual (slice 16 48 authority.2) (ai_key v1_wallet));
   throw! PPermissionDenied when negb (byte_is authority.2 2 0);
   sources ← mapR (λ i, of_option PNotEnoughAccountKeys (infos !! (9 + i * TOKEN_ACCOUNTS)%nat))
     (seq 0 num_tokens);
   let signed_payload := ai_key destination ++ ai_key v1_wallet ++ [u8 (Z.of_nat num_tokens)]
                         ++ ai_key refund_dest ++ concat (ai_key <$> sources) in
   if byte_is authority.2 1 0 then _ ← ed25519_authenticate infos authority.2; Ok None
   else if byte_is authority.2 1 1 then
     challenge ← authenticate_challenge [u8 17] infos auth_payload signed_payload
       (slice 16 48 authority.2) (le_combine (slice 8 12 authority.2)) current_slot program_id;
     Ok (Some challenge)
   else Throw PInvalidAuthenticationKind)%js.

(** ** The accounts a handler sees *)

(** The shape [try_collect_fee] asks of a fee-eligible instruction's accounts
    (the commercial build): the four trailing fee accounts, the last one the
    system program, are cut off.  Its checks of the config, the fee record and
    the shard, and the transfer, are the fee layer's. *)
Definition processor_accounts (commercial : bool) (infos : list AccountInfo) :
    result (list AccountInfo) :=
  if commercial then
    (throw! PFeeAccountsRequired when (length infos <? 5)%nat;
     let n := length infos in
     system ← of_option PFeeAccountsRequired (infos !! (n - 1)%nat);
     throw! PFeeAccountsRequired
       when negb (bytesEqual (ai_key system) (address_encode SYSTEM_PROGRAM_ADDRESS));
     Ok (take (n - 4) infos))%js
  else Ok infos.
End program.
