(* ===== verification/EndToEnd.v ===== *)
(** * The SDK against the program

    What the passkey signs is what the program recomputes.  The program's side
    is src/program/src/processor/execute/immediate.rs (the Secp256r1 branch of
    [process]) and the challenge of src/program/src/auth/secp256r1/mod.rs; the SDK's
    side is [prepareExecute]/[finalizeExecute] and [prepareAuthorize]/
    [finalizeAuthorize]/[executeDeferredFromPayload]. *)
From S2P Require Import Prelude Bytes Kit Constants JsMap Pdas Actions Packing Compact Builders.
From S2P Require Import Signing Accounts ChallengeReads Ownership ClientHelpers Client.
From S2P Require Import ClientOps Samples ClientProps ProgramChallenges.
Local Open Scope Z_scope.

Section runtime.
Context `{K : Kit}.

(** Every account listing of a transaction: its instructions', and its fee
    payer's. *)
Definition tx_metas (ixs : list Instruction) (feePayer : address) : list AccountMeta :=
  concat (accounts <$> ixs) ++ [mkMeta feePayer WRITABLE_SIGNER].

(** What the runtime reports of an account: its privileges are those of its
    key over the whole transaction. *)
Definition runtime_info (tx : list AccountMeta) (m : AccountMeta) : AccountInfo :=
  mkInfo (address_encode (m_address m)) (signer_in tx (m_address m)) (writable_in tx (m_address m)).

(** The transaction gives the keys of [ms] no more privilege than [ms] and the
    fee payer do: what [withRuntimeRoles] assumes. *)
Definition runtime_agrees (tx ms : list AccountMeta) (feePayer : option address) : Prop :=
  ∀ m, m ∈ ms →
    signer_in tx (m_address m) = signer_in (ms ++ fee_payer_metas feePayer) (m_address m)
    ∧ writable_in tx (m_address m) = writable_in (ms ++ fee_payer_metas feePayer) (m_address m).

(** The counter signed is the next one and the slot is at most [MAX_SLOT_AGE]
    old when the program runs. *)
Definition fresh (p : PreparedSecp256r1) (counter slot : Z) : Prop :=
  p_counter p = counter + 1 ∧ 0 <= counter < 2 ^ 32 - 1
  ∧ 0 <= p_slot p < 2 ^ 64 ∧ p_slot p <= slot < p_slot p + MAX_SLOT_AGE.

(** Inner instructions the wire format can carry. *)
Definition fits (ix : Instruction) : Prop :=
  (length (accounts ix) < 256)%nat ∧ Z.of_nat (length (data ix)) < 2 ^ 16.
End runtime.

(** ** Layout facts *)
Section layout.
Context `{KL : KitLaws}.

Lemma index_byte_no_forward b :
  0 <= b < 256 → (decodeAccountIndex b).2 = false → b <= 127.
Proof.
  intros Hb. unfold decodeAccountIndex, ACCOUNT_INDEX_FORWARD_SIGNER. cbn [snd].
  rewrite negb_false_iff, Z.eqb_eq. intros H.
  destruct (Z_lt_le_dec 127 b) as [Hlt|]; [|done]. exfalso.
  assert (Z.testbit (Z.land b 128) 7 = true); [|by rewrite H in *].
  rewrite Z.land_spec. change (Z.testbit 128 7) with true. rewrite andb_true_r.
  apply Z.testbit_true; [lia|]. assert (b / 2 ^ 7 = 1) as ->; [|done].
  change (2 ^ 7) with 128. symmetry. apply (Z.div_unique b 128 1 (b - 128)); lia.
Qed.

Lemma layout_compact_ok fixed ixs payer cs rem :
  buildCompactLayout fixed ixs payer = Ok (cs, rem) → Forall fits ixs →
  Forall compact_ok cs ∧ length cs = length ixs.
Proof.
  intros H%layout_resolves_all Hf.
  split; [|symmetry; by eapply Forall2_length].
  induction H as [|ix c ixs cs (Hp & Hd & Ha) _ IH]; [constructor|].
  apply Forall_cons in Hf as [[Hla Hld] Hf]. constructor; [|by apply IH].
  destruct Hp as (Hpb & _ & Hpf). split; [|split; [|split]].
  - split; [lia | by apply index_byte_no_forward].
  - clear -Ha. induction Ha as [|? ? ? ? (? & _) _ IH]; constructor; done.
  - apply Forall2_length in Ha. lia.
  - by rewrite Hd.
Qed.

Lemma runtime_infos tx ms feePayer :
  runtime_agrees tx ms feePayer → runtime_info tx <$> ms = info_of <$> withRuntimeRoles ms feePayer.
Proof.
  intros H. apply list_eq. intros i. rewrite !list_lookup_fmap.
  destruct (ms !! i) as [m|] eqn:Hi.
  - destruct (withRuntimeRoles_lookup ms feePayer i m Hi) as (r & -> & Hs & Hw).
    cbn [fmap option_fmap option_map]. f_equal. unfold runtime_info, info_of. cbn [m_address m_role].
    destruct (H m) as [H1 H2]; [by eapply list_elem_of_lookup_2|]. by rewrite H1, H2, Hs, Hw.
  - assert (withRuntimeRoles ms feePayer !! i = None) as ->; [|done].
    apply lookup_ge_None. unfold withRuntimeRoles. rewrite length_fmap. by apply lookup_ge_None.
Qed.

(** What [buildCompactLayoutAndHash] returns: a layout, and the hash of the
    preimage the program computes over what the runtime reports. *)
Lemma layout_hash fixed ixs payer feePayer l tx :
  buildCompactLayoutAndHash fixed ixs payer feePayer = Ok l →
  runtime_agrees tx (fixed ++ la_remainingAccounts l) feePayer →
  buildCompactLayout (m_address <$> fixed) ixs payer
    = Ok (la_compactInstructions l, la_remainingAccounts l)
  ∧ ∃ pre, accounts_hash_preimage (runtime_info tx <$> (fixed ++ la_remainingAccounts l))
             (la_compactInstructions l) = Ok pre
           ∧ la_accountsHash l = sha256 pre.
Proof.
  unfold buildCompactLayoutAndHash. intros ([cs rem] & Hl & H)%bind_inv Hrt.
  apply bind_inv in H as (h & Hh & [= <-]). cbn [la_compactInstructions la_remainingAccounts la_accountsHash] in *.
  split; [done|]. rewrite (runtime_infos _ _ _ Hrt), preimage_agrees.
  unfold computeAccountsHash in Hh.
  destruct (accounts_preimage _ _) as [pre|]; [|done]. injection Hh as <-. by exists pre.
Qed.

(** ** Privileges in a transaction *)
Lemma signer_in_true ms a :
  signer_in ms a = true ↔ ∃ m, m ∈ ms ∧ m_address m = a ∧ role_signer (m_role m) = true.
Proof.
  unfold signer_in. rewrite existsb_exists. setoid_rewrite andb_true_iff.
  setoid_rewrite bool_decide_eq_true. by setoid_rewrite list_elem_of_In.
Qed.

Lemma writable_in_true ms a :
  writable_in ms a = true ↔ ∃ m, m ∈ ms ∧ m_address m = a ∧ role_writable (m_role m) = true.
Proof.
  unfold writable_in. rewrite existsb_exists. setoid_rewrite andb_true_iff.
  setoid_rewrite bool_decide_eq_true. by setoid_rewrite list_elem_of_In.
Qed.

Lemma elem_of_tx_metas ixs feePayer m :
  m ∈ tx_metas ixs feePayer ↔ (∃ ix, ix ∈ ixs ∧ m ∈ accounts ix) ∨ m = mkMeta feePayer WRITABLE_SIGNER.
Proof.
  unfold tx_metas. rewrite elem_of_app, list_elem_of_singleton, !list_elem_of_In, in_concat.
  setoid_rewrite <- list_elem_of_In. setoid_rewrite list_elem_of_fmap. naive_solver.
Qed.

(** A signer of one instruction is a signer of the transaction. *)
Lemma tx_signer ixs feePayer ix m :
  ix ∈ ixs → m ∈ accounts ix → role_signer (m_role m) = true →
  signer_in (tx_metas ixs feePayer) (m_address m) = true.
Proof.
  intros Hix Hm Hs. apply signer_in_true. exists m. rewrite elem_of_tx_metas. split; [left; by exists ix | done].
Qed.

(** When every listing outside [ms] grants nothing to a key of [ms] that [ms]
    and the fee payer do not, the transaction agrees with [ms]. *)
Lemma tx_agrees ixs txPayer ms feePayer :
  (∀ m, m ∈ ms ++ fee_payer_metas feePayer → m ∈ tx_metas ixs txPayer) →
  (∀ m m', m ∈ tx_metas ixs txPayer → m' ∈ ms → m_address m = m_address m' →
     m ∈ ms ++ fee_payer_metas feePayer ∨ m_role m = READONLY) →
  runtime_agrees (tx_metas ixs txPayer) ms feePayer.
Proof.
  intros Hin Hout m' Hm'. split; apply eq_true_iff_eq.
  - rewrite !signer_in_true. split.
    + intros (m & Hm & Ha & Hs). exists m. split; [|done].
      destruct (Hout m m') as [?|Hr]; [done..|by rewrite Hr in Hs].
    + naive_solver.
  - rewrite !writable_in_true. split.
    + intros (m & Hm & Ha & Hs). exists m. split; [|done].
      destruct (Hout m m') as [?|Hr]; [done..|by rewrite Hr in Hs].
    + naive_solver.
Qed.

(** ** The auth payload *)
Lemma finalize_payload p r ap ix :
  finalizeSecp256r1 p r = Ok (ap, ix) →
  ap = auth_payload_bytes (p_slot p) (p_counter p) (p_sysvarIxIndex p) (r_authenticatorData r)
         (r_clientDataJson r).
Proof.
  unfold finalizeSecp256r1. intros (ap' & Hap & H)%bind_inv.
  apply bind_inv in H as (ix' & _ & [= <- <-]).
  assert (Ha : Z.of_nat (length (r_authenticatorData r)) <= 0xffff
               ∧ Z.of_nat (length (r_clientDataJson r)) <= 0xffff).
  { unfold buildAuthPayload in Hap. apply bind_inv in Hap as ([] & H1%throw_if_ok & Hap).
    apply bind_inv in Hap as ([] & H2%throw_if_ok & _). apply Z.ltb_ge in H1, H2. done. }
  destruct Ha. rewrite buildAuthPayload_ok in Hap by done. congruence.
Qed.

(** The program's challenge for a payload the SDK finalized is the SDK's. *)
Lemma authenticate_finalized disc infos payer p r ap ix sp wallet counter slot prog sysvar :
  finalizeSecp256r1 p r = Ok (ap, ix) → fresh p counter slot →
  infos !! 0%nat = Some payer → ai_is_signer payer = true →
  0 <= p_sysvarIxIndex p < 256 →
  infos !! Z.to_nat (p_sysvarIxIndex p) = Some sysvar →
  ai_key sysvar = address_encode SYSVAR_INSTRUCTIONS_ADDRESS →
  authenticate_challenge disc infos ap sp wallet counter slot prog
  = Ok (sha256 (disc ++ buildAuthPayloadPrefix (p_slot p) (p_counter p) (p_sysvarIxIndex p) ++ sp
                ++ ai_key payer ++ wallet ++ le_split 4 (p_counter p) ++ prog)).
Proof.
  intros Hf (Hc & Hcr & Hsr & Hs) Hp Hsig Hsv Hsys Hkey. apply finalize_payload in Hf as ->.
  set (pre := buildAuthPayloadPrefix (p_slot p) (p_counter p) (p_sysvarIxIndex p)).
  assert (Hpre : pre = le_split 8 (p_slot p) ++ le_split 4 (p_counter p)
                       ++ [u8 (p_sysvarIxIndex p); u8 0x80]) by apply prefix_eq.
  unfold auth_payload_bytes. fold pre. set (rest := le_split 2 _ ++ _).
  assert (Hlp : length pre = 14%nat) by apply length_prefix.
  assert (Hlr : (4 <= length rest)%nat) by (subst rest; autorewrite with lazor_len; lia).
  assert (H12 : (pre ++ rest) !!! 12%nat = u8 (p_sysvarIxIndex p)).
  { rewrite Hpre, <- !app_assoc, !lookup_total_app_r by (rewrite ?length_le_split; lia).
    by rewrite !length_le_split. }
  unfold authenticate_challenge, throw_if, MAX_SLOT_AGE in *.
  destruct (Nat.ltb_spec (length (pre ++ rest)) 18) as [Hlt|_]; [rewrite length_app in Hlt; lia|].
  rewrite bind_ok.
  assert (Hslot : slice 0 8 (pre ++ rest) = le_split 8 (p_slot p)).
  { rewrite Hpre, <- !app_assoc. by apply (slice_mid 0 8 [] (le_split 8 (p_slot p))). }
  assert (Hctr : slice 8 12 (pre ++ rest) = le_split 4 (p_counter p)).
  { rewrite Hpre, <- !app_assoc. by apply slice_mid; rewrite ?length_le_split. }
  rewrite Hslot, Hctr, H12, val_u8_small, !le_combine_small by lia.
  destruct (Z.ltb_spec slot (p_slot p)); [lia|]. rewrite bind_ok.
  destruct (Z.leb_spec 150 (slot - p_slot p)); [lia|]. rewrite bind_ok.
  unfold next_counter. destruct (Z.ltb_spec (counter + 1) (2 ^ 32)); [|lia]. rewrite bind_ok, Hc, Z.eqb_refl.
  cbn [negb]. rewrite bind_ok, Hp. cbn [of_option]. rewrite bind_ok, Hsig. cbn [negb]. rewrite bind_ok.
  rewrite Hsys. cbn [of_option]. rewrite bind_ok, Hkey.
  rewrite bytesEqual_refl. cbn [negb]. rewrite bind_ok.
  by rewrite take_app_len.
Qed.
End layout.

(** ** Instructions that pay the protocol fee *)
Section fee_paying.
Context `{KL : KitLaws}.
Variable programId : address.

(** What fee resolution hands an instruction. *)
Definition fee_shape (fees : bool) (payer : address)
    (fee : option (ProtocolFeeAccounts * option Instruction)) : Prop :=
  if fees then ∃ f, fee_accounts fee = Some f
      ∧ ∀ ix, ix ∈ fee_register fee → ix = createRegisterPayerIx payer (feeRecordPda f) programId
  else fee = None.

Lemma resolution_shape env fees payer c c' fee :
  resolveProtocolFeeWithRegister env programId fees payer c = (c', Ok fee) →
  fee_shape fees payer fee.
Proof.
  destruct fees; [|by intros [_ ->]%resolution_off].
  intros (f & reg & cfg & -> & _ & _ & _ & _ & Hreg)%resolution_ok. exists f. split; [done|].
  intros ix Hix. destruct reg as [ix'|]; [|by apply not_elem_of_nil in Hix].
  apply list_elem_of_singleton in Hix as ->. by apply Hreg.
Qed.

(** The fee record and the shard are no account of the instruction itself. *)
Definition no_fee_alias (fee : option ProtocolFeeAccounts) (ms : list AccountMeta) : Prop :=
  ∀ f, fee = Some f →
    (feeRecordPda f ∉ (m_address <$> ms)) ∧ (treasuryShardPda f ∉ (m_address <$> ms)).

Lemma fee_tx_agrees fees payer fee pres ix ms feePayer :
  fee_shape fees payer fee → (∀ i, i ∈ pres → accounts i = []) →
  accounts ix = ms ++ feeSuffix (fee_accounts fee) →
  mkMeta payer WRITABLE_SIGNER ∈ ms → no_fee_alias (fee_accounts fee) ms →
  runtime_agrees (tx_metas (fee_register fee ++ pres ++ [ix]) (default payer feePayer)) ms feePayer.
Proof.
  intros Hshape Hpres Hix Hpayer Halias. apply tx_agrees.
  { intros m. rewrite elem_of_tx_metas, elem_of_app. intros [Hm|Hm].
    - left. exists ix. rewrite Hix, !elem_of_app, list_elem_of_singleton. auto.
    - right. destruct feePayer; [by apply list_elem_of_singleton in Hm|by apply not_elem_of_nil in Hm]. }
  intros m m' Hm Hm' Ha. rewrite elem_of_app.
  assert (Hin : m_address m ∈ (m_address <$> ms)) by (rewrite Ha; by apply list_elem_of_fmap_2).
  apply elem_of_tx_metas in Hm as [(i & Hi & Hm)| ->]; cycle 1.
  { destruct feePayer as [a|]; cbn; [|by left; left]. left. right. by left. }
  assert (Hfee : ∀ f, fee_accounts fee = Some f → m ∈ feeSuffix (Some f) → m_role m = READONLY).
  { intros f Hf. destruct (Halias f Hf) as [H1 H2]. cbn.
    rewrite !elem_of_cons. intros [->|[->|[->|[->|[]%not_elem_of_nil]]]]; try done; by cbn in Hin. }
  rewrite !elem_of_app in Hi. destruct Hi as [Hi|[Hi|Hi]].
  - destruct fees; cbn in Hshape; [|by rewrite Hshape in Hi; apply not_elem_of_nil in Hi].
    destruct Hshape as (f & Hf & Hreg). rewrite (Hreg i Hi) in Hm. destruct (Halias f Hf) as [H1 _].
    cbn in Hm. rewrite !elem_of_cons in Hm.
    destruct Hm as [->|[->|[->|[->|[]%not_elem_of_nil]]]]; [by left; left|done|by right..].
  - rewrite (Hpres i Hi) in Hm. by apply not_elem_of_nil in Hm.
  - apply list_elem_of_singleton in Hi as ->. rewrite Hix, elem_of_app in Hm.
    destruct Hm as [Hm|Hm]; [by left; left|]. right.
    destruct (fee_accounts fee) as [f|] eqn:Hf; [by apply (Hfee f)|by apply not_elem_of_nil in Hm].
Qed.

(** The program's handler sees the instruction's own accounts. *)
Lemma processor_strips fees payer fee tx m ms :
  fee_shape fees payer fee →
  processor_accounts fees (runtime_info tx <$> (m :: ms) ++ feeSuffix (fee_accounts fee))
  = Ok (runtime_info tx <$> m :: ms).
Proof.
  destruct fees; cbn [fee_shape]; [|intros ->; by rewrite app_nil_r].
  intros (f & -> & _). cbn [feeSuffix]. rewrite fmap_app. cbn [fmap list_fmap].
  set (l := runtime_info tx m :: _). set (s := [_; _; _; _]).
  assert (Hl : (1 <= length l)%nat) by (subst l; cbn; lia).
  assert (Hs : length s = 4%nat) by done.
  unfold processor_accounts, throw_if. rewrite length_app, Hs.
  destruct (Nat.ltb_spec (length l + 4) 5) as [|_]; [lia|]. rewrite bind_ok.
  rewrite lookup_app_r by lia.
  replace (length l + 4 - 1 - length l)%nat with 3%nat by lia. cbn [lookup list_lookup s of_option].
  rewrite bind_ok. cbn [ai_key runtime_info m_address]. rewrite bytesEqual_refl. cbn [negb].
  rewrite bind_ok. f_equal. apply take_app_len. lia.
Qed.
End fee_paying.

(** ** Execute *)
Section execute.
Context `{KL : KitLaws}.
Variable programId : address.

(** The precompile instruction lists no accounts. *)
Lemma finalize_precompile p r ap pix : finalizeSecp256r1 p r = Ok (ap, pix) → accounts pix = [].
Proof.
  unfold finalizeSecp256r1. intros (? & _ & H)%bind_inv. apply bind_inv in H as (? & Hp & [= _ <-]).
  unfold buildSecp256r1PrecompileIx in Hp. do 3 (apply bind_inv in Hp as ([] & _ & Hp)).
  by injection Hp as <-.
Qed.

(** A [buildPasskeySigning] challenge, spelled out. *)
Lemma signing_challenge disc i sp slot counter payer wallet key :
  Signing.challenge (buildPasskeySigning programId disc i sp slot counter payer wallet key)
  = sha256 ([u8 disc] ++ buildAuthPayloadPrefix slot counter i ++ sp ++ address_encode payer
            ++ address_encode wallet ++ le_split 4 counter ++ address_encode programId).
Proof. done. Qed.

(** The parts of a finalized Execute. *)
Lemma execute_finalized (env : Env) (fees : bool) (payer wallet : address)
    (params : Secp256r1Params) (ixs : list Instruction) (feePayer : option address)
    (c c' : client) (prepared : PreparedExecute) (r : WebAuthnResponse) (out : list Instruction) :
  prepareExecute env programId fees payer wallet params ixs feePayer c = (c', Ok prepared) →
  finalizeExecute prepared r = Ok out →
  (length ixs <= MAX_COMPACT_INSTRUCTIONS)%nat → Forall fits ixs →
  no_fee_alias (pe_protocolFee prepared)
    (executeFixed payer wallet (pe_authorityPda prepared) (pe_vaultPda prepared)
     ++ pe_remainingAccounts prepared) →
  let p := pe_signing prepared in
  let tx := tx_metas out (default payer feePayer) in
  ∃ before pix ix ap packed cs pre,
    out = before ++ [pix; ix] ∧ head (data ix) = Some (u8 4)
    ∧ finalizeSecp256r1 p r = Ok (ap, pix) ∧ p_sysvarIxIndex p = 4
    ∧ processor_accounts fees (runtime_info tx <$> accounts ix)
      = Ok (runtime_info tx <$> executeFixed payer wallet (pe_authorityPda prepared) (pe_vaultPda prepared)
                                ++ pe_remainingAccounts prepared)
    ∧ signer_in tx payer = true ∧ writable_in tx (pe_authorityPda prepared) = true
    ∧ tail (data ix) = packed ++ ap ∧ parse_compact_instructions (packed ++ ap) = Ok (cs, length packed)
    ∧ accounts_hash_preimage (runtime_info tx <$> executeFixed payer wallet (pe_authorityPda prepared) (pe_vaultPda prepared)
                                ++ pe_remainingAccounts prepared) cs = Ok pre
    ∧ Signing.challenge p = sha256 ([u8 4] ++ buildAuthPayloadPrefix (p_slot p) (p_counter p) (p_sysvarIxIndex p)
        ++ (packed ++ sha256 pre) ++ address_encode payer ++ address_encode wallet ++ le_split 4 (p_counter p)
        ++ address_encode programId).
Proof.
  intros (vault & b & rs & l & fee & c1 & _ & _ & Hfee & Hl & ->)%prepareExecute_ok Hfin Hn Hfits Halias.
  apply resolution_shape in Hfee. unfold finalizeExecute in Hfin.
  apply bind_inv in Hfin as ([ap pix] & Hf & [= <-]).
  cbn [pe_signing pe_payer pe_walletPda pe_authorityPda pe_vaultPda pe_packed pe_remainingAccounts
       pe_protocolFee pe_registerIx pe_programId] in *. cbv zeta.
  set (fixed := executeFixed payer wallet (rs_authorityPda rs) vault) in *.
  set (ix := createExecuteIx _ _ _ _ _ _ _ _ _ _).
  assert (Hacc : accounts ix = (fixed ++ la_remainingAccounts l) ++ feeSuffix (fee_accounts fee)) by done.
  set (tx := tx_metas (fee_register fee ++ [pix; ix]) (default payer feePayer)).
  assert (Hin : ix ∈ fee_register fee ++ [pix; ix]) by (rewrite !elem_of_app; right; right; left).
  assert (Hag : runtime_agrees tx (fixed ++ la_remainingAccounts l) feePayer).
  { apply (fee_tx_agrees programId fees payer fee [pix] ix); [done| |done|by left|done].
    intros i ->%list_elem_of_singleton. by eapply finalize_precompile. }
  destruct (layout_hash _ _ _ _ _ _ Hl Hag) as (Hlay & pre & Hpre & Hhash).
  destruct (layout_compact_ok _ _ _ _ _ Hlay Hfits) as [Hok Hlen].
  exists (fee_register fee), pix, ix, ap, (packCompactInstructions (la_compactInstructions l)), (la_compactInstructions l), pre.
  split_and!; try done.
  - rewrite Hacc. by apply (processor_strips programId fees payer).
  - by apply (tx_signer _ _ ix (mkMeta payer WRITABLE_SIGNER)); [|left|].
  - apply writable_in_true. exists (mkMeta (rs_authorityPda rs) WRITABLE). split; [|done].
    apply elem_of_tx_metas. left. exists ix. split; [done|]. right. right. by left.
  - cbn [data ix createExecuteIx]. rewrite concatBytes_concat. cbn. by rewrite app_nil_r.
  - by apply parse_packed; rewrite ?Hlen.
  - by rewrite signing_challenge, Hhash.
Qed.

(** End to end for Execute.  When a client prepares and finalizes an
    Execute of at most sixteen instructions, and the returned instructions are
    the transaction (paid by [feePayer], or by [payer] when none is named), the
    program strips the fee accounts, parses the compact instructions, rebuilds
    the accounts hash from what the runtime reports, and arrives at the very
    challenge the passkey signed. *)
Theorem execute_challenge_agrees (env : Env) (fees : bool) (payer wallet : address)
    (params : Secp256r1Params) (ixs : list Instruction) (feePayer : option address)
    (c c' : client) (prepared : PreparedExecute) (r : WebAuthnResponse) (out : list Instruction)
    (counter slot : Z) :
  prepareExecute env programId fees payer wallet params ixs feePayer c = (c', Ok prepared) →
  finalizeExecute prepared r = Ok out →
  (length ixs <= MAX_COMPACT_INSTRUCTIONS)%nat → Forall fits ixs →
  no_fee_alias (pe_protocolFee prepared)
    (executeFixed payer wallet (pe_authorityPda prepared) (pe_vaultPda prepared)
     ++ pe_remainingAccounts prepared) →
  fresh (pe_signing prepared) counter slot →
  ∃ ix infos,
    last out = Some ix ∧ head (data ix) = Some (u8 4)
    ∧ processor_accounts fees
        (runtime_info (tx_metas out (default payer feePayer)) <$> accounts ix) = Ok infos
    ∧ execute_challenge infos (tail (data ix)) (address_encode wallet) counter slot
        (address_encode programId) = Ok (Signing.challenge (pe_signing prepared)).
Proof.
  intros Hprep Hfin Hn Hfits Halias Hfresh.
  destruct (execute_finalized _ _ _ _ _ _ _ _ _ _ _ _ Hprep Hfin Hn Hfits Halias)
    as (before & pix & ix & ap & packed & cs & pre & Hout & Hhead & Hf & Hsv & Hacc & Hsg & _ & Hdata & Hparse & Hpre & Hch).
  eexists ix, _. split; [by rewrite Hout, last_app|]. split; [done|]. split; [exact Hacc|].
  unfold execute_challenge. rewrite Hdata, Hparse, bind_ok, Hpre, bind_ok, take_app_len, drop_app_len by done.
  erewrite authenticate_finalized; [|exact Hf|exact Hfresh|done|done|lia|by rewrite Hsv|done]. by rewrite Hch.
Qed.
End execute.

(** ** Deferred execution *)
Section deferred.
Context `{KL : KitLaws}.
Variable programId : address.

Lemma prepareAuthorize_ok env payer wallet p ixs off executor feePayer c c' prepared :
  prepareAuthorize env programId payer wallet p ixs off executor feePayer c = (c', Ok prepared) →
  ∃ vault b deferred b' r l,
    findVaultPda wallet programId = Ok (vault, b)
    ∧ findDeferredExecPda wallet (rs_authorityPda r) (rs_counter r) programId = Ok (deferred, b')
    ∧ buildCompactLayoutAndHash
        (deferredFixed (default payer executor) wallet vault deferred payer) ixs
        (default payer executor) feePayer = Ok l
    ∧ prepared = mkPreparedAuthorize
        (buildPasskeySigning programId DISC_AUTHORIZE SYSVAR_IX_INDEX_AUTHORIZE
           (computeInstructionsHash (la_compactInstructions l) ++ la_accountsHash l
            ++ u16LE (default 300 off))
           (rs_slot r) (rs_counter r) payer wallet (rs_publicKeyBytes r))
        (rs_counter r) payer (default payer executor) wallet (rs_authorityPda r) deferred
        (computeInstructionsHash (la_compactInstructions l)) (la_accountsHash l) (default 300 off)
        (la_compactInstructions l) (la_remainingAccounts l) programId.
Proof.
  unfold prepareAuthorize. intros H.
  m_step H. destruct a as [vault b]. apply lift_inv in E as [-> Hv].
  m_step H. m_step H. destruct a0 as [deferred b']. apply lift_inv in E0 as [-> Hd].
  m_step H. apply lift_inv in E0 as [-> Hl]. apply mret_inv in H as [-> <-].
  exists vault, b, deferred, b', a, a0. do 3 (split; [done|]).
  rewrite concatBytes_concat. cbn [concat]. by rewrite !app_nil_r.
Qed.

(** How the program cuts Authorize's data. *)
Lemma authorize_parts (ih ah ap : bytes) (e : Z) :
  length ih = 32%nat → length ah = 32%nat → 0 <= e < 2 ^ 16 →
  let d := ih ++ ah ++ le_split 2 e ++ ap in
  (length d <? 66)%nat = false ∧ slice 0 32 d = ih ∧ slice 32 64 d = ah
  ∧ le_combine (slice 64 66 d) = e ∧ drop 66 d = ap.
Proof.
  intros Hih Hah He d. subst d.
  split; [apply Nat.ltb_ge; rewrite !length_app, length_le_split, Hih, Hah; lia|].
  split; [by apply (slice_mid 0 32 [] ih)|].
  split; [apply slice_mid; rewrite ?Hih, ?Hah; done|].
  rewrite (app_assoc ih ah). split.
  - rewrite slice_mid, le_combine_small
      by (rewrite ?length_app, ?length_le_split, ?Hih, ?Hah; done || lia). done.
  - rewrite (app_assoc (ih ++ ah)). apply drop_app_len.
    by rewrite !length_app, length_le_split, Hih, Hah.
Qed.

Lemma layout_hash_length fixed ixs payer feePayer l :
  buildCompactLayoutAndHash fixed ixs payer feePayer = Ok l → length (la_accountsHash l) = 32%nat.
Proof.
  unfold buildCompactLayoutAndHash. intros ([cs rem] & _ & H)%bind_inv.
  apply bind_inv in H as (h & Hh & [= <-]). cbn. unfold computeAccountsHash in Hh.
  destruct (accounts_preimage _ _); [|done]. injection Hh as <-. apply sha256_length.
Qed.

Lemma authorize_data payer wallet authority deferred ih ah e ap prog :
  tail (data (createAuthorizeIx payer wallet authority deferred ih ah e ap prog))
  = ih ++ ah ++ le_split 2 e ++ ap.
Proof.
  cbn [data createAuthorizeIx]. rewrite concatBytes_concat, u16LE_split. cbn [concat app tail].
  by rewrite app_nil_r.
Qed.

(** End to end for Authorize: from the finalized instruction's data the
    program reads back the two hashes and the expiry the passkey signed over
    and arrives at the challenge it signed. *)
Theorem authorize_challenge_agrees (env : Env) (payer wallet : address) (params : Secp256r1Params)
    (ixs : list Instruction) (off : option Z) (executor feePayer : option address) (txPayer : address)
    (c c' : client) (prepared : PreparedAuthorize) (r : WebAuthnResponse) (az : Authorized)
    (counter slot : Z) :
  prepareAuthorize env programId payer wallet params ixs off executor feePayer c = (c', Ok prepared) →
  finalizeAuthorize prepared r = Ok az →
  MIN_EXPIRY_SLOTS <= default 300 off <= MAX_EXPIRY_SLOTS →
  fresh (pz_signing prepared) counter slot →
  ∃ ix, last (az_instructions az) = Some ix ∧ head (data ix) = Some (u8 6)
    ∧ authorize_challenge (runtime_info (tx_metas (az_instructions az) txPayer) <$> accounts ix)
        (tail (data ix)) (address_encode wallet) counter slot (address_encode programId)
      = Ok (Signing.challenge (pz_signing prepared)).
Proof.
  intros (vault & b & deferred & b' & rs & l & _ & _ & Hl & ->)%prepareAuthorize_ok Hfin Hexp Hfresh.
  unfold finalizeAuthorize in Hfin. apply bind_inv in Hfin as ([ap pix] & Hf & [= <-]).
  cbn [pz_signing pz_payer pz_walletPda pz_authorityPda pz_deferredExecPda pz_instructionsHash
       pz_accountsHash pz_expiryOffset pz_programId az_instructions] in *.
  set (ix := createAuthorizeIx _ _ _ _ _ _ _ _ _). exists ix. split; [done|]. split; [done|].
  unfold MIN_EXPIRY_SLOTS, MAX_EXPIRY_SLOTS in *. subst ix. rewrite authorize_data.
  set (ix := createAuthorizeIx _ _ _ _ _ _ _ _ _).
  destruct (authorize_parts (computeInstructionsHash (la_compactInstructions l)) (la_accountsHash l)
    ap (default 300 off)) as (Hlen & H1 & H2 & H3 & H4);
    [apply sha256_length | by eapply layout_hash_length | lia |].
  unfold authorize_challenge, throw_if. rewrite Hlen, bind_ok, H1, H2, H3, H4.
  unfold MIN_EXPIRY_SLOTS, MAX_EXPIRY_SLOTS.
  destruct (Z.ltb_spec (default 300 off) 10), (Z.ltb_spec 9000 (default 300 off)); try lia.
  cbn [orb]. rewrite bind_ok.
  erewrite authenticate_finalized; [|exact Hf|exact Hfresh|done| |done|done|done].
  - by rewrite signing_challenge, u16LE_split.
  - apply (tx_signer _ _ ix (mkMeta payer WRITABLE_SIGNER)); [|by left|done]. right. by left.
Qed.

(** Past its first [n] accounts an instruction makes writable no account of
    the first [n]. *)
Definition suffix_apart (n : nat) (ix : Instruction) : Prop :=
  ∀ m, m ∈ drop n (accounts ix) →
    m_role m = READONLY ∨ (m_address m ∉ (m_address <$> take n (accounts ix))).

Lemma suffix_apart_alias ms fee ix :
  accounts ix = ms ++ feeSuffix fee → suffix_apart (length ms) ix → no_fee_alias fee ms.
Proof.
  unfold suffix_apart. intros -> H f ->. rewrite take_app_length, drop_app_length in H. split.
  - destruct (H (mkMeta (feeRecordPda f) WRITABLE)) as [|]; [|done..]. cbn. set_solver.
  - destruct (H (mkMeta (treasuryShardPda f) WRITABLE)) as [|]; [|done..]. cbn. set_solver.
Qed.

Lemma executeDeferred_ok env fees payer d c c' out :
  executeDeferredFromPayload env programId fees payer d None c = (c', Ok out) →
  ∃ vault b fee c1 c2,
    findVaultPda (dp_walletPda d) programId = Ok (vault, b)
    ∧ resolveProtocolFeeWithRegister env programId fees payer c1 = (c2, Ok fee)
    ∧ out = fee_register fee ++
        [createExecuteDeferredIx payer (dp_walletPda d) vault (dp_deferredExecPda d)
           (default payer (dp_refundDestination d))
           (packCompactInstructions (dp_compactInstructions d)) (dp_remainingAccounts d)
           (fee_accounts fee) programId].
Proof.
  unfold executeDeferredFromPayload. intros H. m_step H. apply lift_inv in E as [-> _].
  m_step H. destruct a0 as [vault b]. apply lift_inv in E as [-> Hv]. m_step H.
  apply mret_inv in H as [_ <-]. by eexists vault, b, _, _, _.
Qed.

End deferred.

(** ** Examples *)
Import ConcreteKit Sample.

(** The sample's counter and slot, seen by the program one slot later. *)
Definition sample_fresh (p : PreparedSecp256r1) : bool := (p_counter p =? 8) && (p_slot p =? 1000).

Lemma sample_fresh_ok p : sample_fresh p = true → fresh p 7 1001.
Proof.
  unfold sample_fresh. intros [H1%Z.eqb_eq H2%Z.eqb_eq]%andb_prop. unfold fresh, MAX_SLOT_AGE. lia.
Qed.

Lemma inner_fits : Forall (@fits kit) [inner].
Proof. constructor; [|constructor]. split; cbn; lia. Qed.

Definition alias_free (fee : option (@ProtocolFeeAccounts kit)) (ms : list (@AccountMeta kit)) : bool :=
  match fee with
  | Some f => bool_decide ((feeRecordPda f ∉ (m_address <$> ms)))
              && bool_decide (treasuryShardPda f ∉ (m_address <$> ms))
  | None => true
  end.

Lemma alias_free_ok fee ms : alias_free fee ms = true → no_fee_alias fee ms.
Proof.
  intros H f ->. cbn in H. apply andb_prop in H as [H1 H2].
  by apply bool_decide_eq_true in H1, H2.
Qed.

(** A first Execute, fee charged and payer registered on the way. *)
Lemma execute_challenge_agrees_witness :
  ∃ c' prepared out,
    prepareExecute node program true payer wallet params [inner] None new_client = (c', Ok prepared)
    ∧ finalizeExecute prepared response = Ok out ∧ length out = 3%nat
    ∧ ∃ ix infos, last out = Some ix ∧ head (data ix) = Some (u8 4)
        ∧ processor_accounts true (runtime_info (tx_metas out payer) <$> accounts ix) = Ok infos
        ∧ execute_challenge infos (tail (data ix)) (address_encode wallet) 7 1001
            (address_encode program) = Ok (Signing.challenge (pe_signing prepared)).
Proof.
  destruct (returns_inv
    (prepareExecute node program true payer wallet params [inner] None new_client)
    (λ p, sample_fresh (pe_signing p) &&
          alias_free (pe_protocolFee p) (@executeFixed kit payer wallet (pe_authorityPda p) (pe_vaultPda p)
                                         ++ pe_remainingAccounts p)
          && match finalizeExecute p response with Ok out => (length out =? 3)%nat | _ => false end))
    as (c' & p & E & [[Hfr Hal]%andb_prop Hfin]%andb_prop); [vm_compute; reflexivity|].
  destruct (finalizeExecute p response) as [out|] eqn:F; [|discriminate Hfin].
  exists c', p, out. split; [exact E|]. split; [exact F|]. split; [by apply Nat.eqb_eq|].
  exact (@execute_challenge_agrees kit program node true payer wallet params [inner] None _ _
    p response out 7 1001 E F (proj1 (Nat.leb_le 1 16) eq_refl)
    inner_fits (alias_free_ok _ _ Hal) (sample_fresh_ok _ Hfr)).
Defined.

Lemma authorize_challenge_agrees_witness :
  ∃ c' prepared az,
    prepareAuthorize node program payer wallet params [inner] None (Some (at_byte 3)) None new_client
      = (c', Ok prepared)
    ∧ finalizeAuthorize prepared response = Ok az
    ∧ ∃ ix, last (az_instructions az) = Some ix ∧ head (data ix) = Some (u8 6)
        ∧ authorize_challenge (runtime_info (tx_metas (az_instructions az) payer) <$> accounts ix)
            (tail (data ix)) (address_encode wallet) 7 1001 (address_encode program)
          = Ok (Signing.challenge (pz_signing prepared)).
Proof.
  destruct (returns_inv
    (prepareAuthorize node program payer wallet params [inner] None (Some (at_byte 3)) None new_client)
    (λ p, sample_fresh (pz_signing p) && is_ok (finalizeAuthorize p response)))
    as (c' & p & E & [Hfr Hfin]%andb_prop); [vm_compute; reflexivity|].
  destruct (finalizeAuthorize p response) as [az|] eqn:F; [|discriminate Hfin].
  exists c', p, az. split; [exact E|]. split; [exact F|].
  apply (@authorize_challenge_agrees kit kit_laws program node payer wallet params [inner] None
    (Some (at_byte 3)) None payer _ _ p response az 7 1001 E F).
  - unfold MIN_EXPIRY_SLOTS, MAX_EXPIRY_SLOTS. cbn. lia.
  - exact (sample_fresh_ok _ Hfr).
Defined.

Definition apart (n : nat) (ix : @Instruction kit) : bool :=
  forallb (λ m, bool_decide (m_role m = READONLY)
                || bool_decide (m_address m ∉ (m_address <$> take n (accounts ix))))
    (drop n (accounts ix)).

Lemma apart_ok n ix : apart n ix = true → suffix_apart n ix.
Proof.
  unfold apart, suffix_apart. rewrite forallb_forall. intros H m Hm%list_elem_of_In.
  apply H, orb_prop in Hm as [Hm|Hm]; apply bool_decide_eq_true in Hm; auto.
Qed.
