(* ===== verification/EndToEndManage.v ===== *)
(** * The wallet-management instructions, end to end

    AddAuthority, RemoveAuthority, TransferOwnership, CreateSession and
    RevokeSession, prepared and finalized by the client with a passkey: the
    challenge the program recomputes from each finalized instruction is the one
    the passkey signed. *)
From S2P Require Import Prelude Bytes Kit Constants JsMap Pdas Actions ProgramActions Packing.
From S2P Require Import Compact Builders Signing Accounts ChallengeReads Ownership.
From S2P Require Import ClientHelpers Client ClientOps Samples ClientProps ProgramChallenges.
From S2P Require Import EndToEnd.
Local Open Scope Z_scope.

(** ** Key material *)
Section keys.
Context `{KL : KitLaws}.

(** An owner the program can store: a passkey names its relying party. *)
Definition owner_ok (o : CreateWalletOwner) : Prop :=
  match o with
  | OwnerEd25519 _ => True
  | OwnerSecp256r1 _ _ rpId => (1 <= length (utf8 rpId) <= 253)%nat
  end.

Definition key_material (f : OwnerFields) : bytes :=
  credentialOrPubkey f ++ concat (passkeyParts (authType f) (secp256r1Pubkey f) (of_rpId f)).

(** What the SDK's checks of an owner establish. *)
Lemma owner_material o f :
  resolveOwnerFields o = Ok f → owner_ok o →
  length (credentialOrPubkey f) = 32%nat ∧ is_all_zero (credentialOrPubkey f) = false
  ∧ (authType f = 0 ∧ key_material f = credentialOrPubkey f
     ∨ authType f = 1 ∧ ∃ pk rp, key_material f
         = credentialOrPubkey f ++ pk ++ [u8 (Z.of_nat (length rp))] ++ rp
         ∧ length pk = 33%nat ∧ is_all_zero pk = false ∧ (1 <= length rp <= 253)%nat).
Proof.
  destruct o as [a|cred pk rp]; cbn [resolveOwnerFields owner_ok].
  - intros ([] & Hz%throw_if_ok & [= <-])%bind_inv _. cbn.
    split; [apply address_encode_length|]. split; [done|]. left. split; [done|].
    unfold key_material. cbn. by rewrite app_nil_r.
  - intros H Hrp. unfold assertByteLength, assertNonZeroBytes in H.
    apply bind_inv in H as ([] & H1%throw_if_ok & H). apply bind_inv in H as ([] & H2%throw_if_ok & H).
    apply bind_inv in H as ([] & H3%throw_if_ok & H). apply bind_inv in H as ([] & H4%throw_if_ok & H).
    injection H as <-. cbn [authType credentialOrPubkey].
    apply negb_false_iff, Nat.eqb_eq in H1, H2.
    split; [done|]. split; [done|]. right. split; [done|]. exists pk, (utf8 rp).
    split; [|done]. unfold key_material. cbn.
    destruct rp as [|ch rp]; [cbn in Hrp; lia|]. cbn [concat app]. by rewrite app_nil_r.
Qed.

(** The passkey branch both handlers share. *)
Lemma passkey_len_ok cred pk rp rest :
  length cred = 32%nat → length pk = 33%nat → (1 <= length rp <= 253)%nat →
  passkey_data_len ((cred ++ pk ++ [u8 (Z.of_nat (length rp))] ++ rp) ++ rest)
  = Ok (length (cred ++ pk ++ [u8 (Z.of_nat (length rp))] ++ rp)).
Proof.
  intros Hc Hp Hr. set (d := (cred ++ _) ++ rest).
  assert (H65 : d !!! 65%nat = u8 (Z.of_nat (length rp))).
  { subst d. rewrite <- !app_assoc, !lookup_total_app_r by lia.
    replace (65 - length cred - length pk)%nat with 0%nat by lia. done. }
  assert (Hl : length d = (66 + length rp + length rest)%nat).
  { subst d. rewrite !length_app. cbn [length]. lia. }
  unfold passkey_data_len, throw_if. rewrite H65, val_u8_small, Nat2Z.id by lia.
  destruct (Nat.eqb_spec (length rp) 0), (Nat.ltb_spec 253 (length rp)); try lia.
  cbn [orb]. rewrite bind_ok. destruct (Nat.ltb_spec (length d) (32 + 33 + 1 + length rp)); [lia|].
  rewrite bind_ok. f_equal. rewrite !length_app. cbn [length]. lia.
Qed.

Lemma add_key_len_ok o f rest :
  resolveOwnerFields o = Ok f → owner_ok o →
  add_key_len (authType f) (key_material f ++ rest) = Ok (length (key_material f)).
Proof.
  intros H Ho. destruct (owner_material o f H Ho) as (Hc & Hz & [(Ht & Hm)|(Ht & pk & rp & Hm & Hpk & Hpz & Hrp)]);
    rewrite Ht, Hm; unfold add_key_len, throw_if; cbn [Z.eqb].
  - destruct (Nat.ltb_spec (length (credentialOrPubkey f ++ rest)) 32) as [Hlt|_];
      [rewrite length_app in Hlt; lia|].
    rewrite take_app_len, Hz, Hc by done. done.
  - set (m := credentialOrPubkey f ++ pk ++ [u8 (Z.of_nat (length rp))] ++ rp).
    destruct (Nat.ltb_spec (length (m ++ rest)) 66) as [Hlt|_].
    { subst m. rewrite !length_app in Hlt. cbn [length] in Hlt. lia. }
    cbn [Pos.eqb]. rewrite bind_ok.
    assert (take 32 (m ++ rest) = credentialOrPubkey f) as ->.
    { subst m. rewrite <- app_assoc. by apply take_app_len. }
    assert (slice 32 65 (m ++ rest) = pk) as ->.
    { subst m. rewrite <- !app_assoc. apply slice_mid; lia. }
    rewrite Hz, Hpz. cbn [orb]. rewrite bind_ok. by apply passkey_len_ok.
Qed.

Lemma transfer_key_len_ok o f rest :
  resolveOwnerFields o = Ok f → owner_ok o →
  transfer_key_len (authType f) (key_material f ++ rest) = Ok (length (key_material f)).
Proof.
  intros H Ho. destruct (owner_material o f H Ho) as (Hc & Hz & [(Ht & Hm)|(Ht & pk & rp & Hm & Hpk & Hpz & Hrp)]);
    rewrite Ht, Hm; unfold transfer_key_len, throw_if; cbn [Z.eqb Pos.eqb].
  - destruct (Nat.ltb_spec (length (credentialOrPubkey f ++ rest)) 32) as [Hlt|_];
      [rewrite length_app in Hlt; lia|].
    rewrite bind_ok, take_app_len, Hz, Hc by done. done.
  - set (m := credentialOrPubkey f ++ pk ++ [u8 (Z.of_nat (length rp))] ++ rp).
    destruct (Nat.ltb_spec (length (m ++ rest)) 66) as [Hlt|_].
    { subst m. rewrite !length_app in Hlt. cbn [length] in Hlt. lia. }
    rewrite bind_ok.
    assert (slice 32 65 (m ++ rest) = pk) as ->.
    { subst m. rewrite <- !app_assoc. apply slice_mid; lia. }
    rewrite Hpz, bind_ok. subst m. rewrite passkey_len_ok by done. rewrite bind_ok.
    rewrite <- app_assoc, take_app_len, Hz by done. done.
Qed.
End keys.

(** ** AddAuthority and TransferOwnership *)
Section authorities.
Context `{KL : KitLaws}.
Variable programId : address.

(** A policy the program accepts: short enough, and a well-formed buffer. *)
Definition policy_ok (p : bytes) : Prop :=
  (length p <= MAX_POLICY_BUFFER_SIZE)%nat ∧ (p = [] ∨ validate_actions_buffer p = Ok ()).

(** The program's verdict on an authority's policy. *)
Definition policy_verdict (p : bytes) : result unit := if (length p =? 0)%nat then Ok () else validate_actions_buffer p.

Lemma add_payload_eq f role policy :
  buildDataPayloadForAdd (authType f) role (credentialOrPubkey f) (secp256r1Pubkey f) (of_rpId f)
    policy
  = ([u8 (authType f); u8 role] ++ zeros 6) ++ key_material f
    ++ le_split 2 (Z.of_nat (length (default [] policy))) ++ default [] policy.
Proof.
  unfold buildDataPayloadForAdd, key_material. rewrite concatBytes_concat, concat_app.
  rewrite !concat_app. cbn [concat]. rewrite !app_nil_r, <- !app_assoc. done.
Qed.

Lemma transfer_payload_eq f :
  buildDataPayloadForTransfer (authType f) (credentialOrPubkey f) (secp256r1Pubkey f) (of_rpId f)
  = [u8 (authType f)] ++ key_material f.
Proof.
  unfold buildDataPayloadForTransfer, key_material. rewrite concatBytes_concat, concat_app.
  cbn [concat]. by rewrite app_nil_r, <- !app_assoc.
Qed.

Lemma owner_type o f : resolveOwnerFields o = Ok f → owner_ok o → 0 <= authType f < 256.
Proof. intros H Ho. destruct (owner_material o f H Ho) as (_ & _ & [[-> _]|[-> _]]); lia. Qed.

(** The program cuts AddAuthority's data where the SDK's payload ends. *)
Lemma add_payload_len_ok o f role policy ap :
  resolveOwnerFields o = Ok f → owner_ok o → (length (default [] policy) <= MAX_POLICY_BUFFER_SIZE)%nat →
  let payload := buildDataPayloadForAdd (authType f) role (credentialOrPubkey f)
                   (secp256r1Pubkey f) (of_rpId f) policy in
  add_payload_len (payload ++ ap) = (_ ← policy_verdict (default [] policy); Ok (length payload)).
Proof.
  intros H Ho Hpl payload. pose proof (owner_type o f H Ho) as Ht.
  unfold MAX_POLICY_BUFFER_SIZE in Hpl.
  set (p := default [] policy) in *. set (km := key_material f).
  set (hd := [u8 (authType f); u8 role] ++ zeros 6). assert (Hhd : length hd = 8%nat) by done.
  assert (Hpay : payload = hd ++ km ++ le_split 2 (Z.of_nat (length p)) ++ p) by apply add_payload_eq.
  set (d := payload ++ ap).
  assert (Hlp : length payload = (10 + length km + length p)%nat).
  { rewrite Hpay, !length_app, length_le_split, Hhd. lia. }
  assert (Hld : length d = (length payload + length ap)%nat) by apply length_app.
  assert (H0 : d !!! 0%nat = u8 (authType f)) by (subst d; by rewrite Hpay).
  assert (H8 : drop 8 d = km ++ (le_split 2 (Z.of_nat (length p)) ++ p ++ ap)).
  { subst d. rewrite Hpay, <- app_assoc, drop_app_len by done. by rewrite <- !app_assoc. }
  assert (Hpol : slice (8 + length km) (8 + length km + 2) d = le_split 2 (Z.of_nat (length p))).
  { subst d. rewrite Hpay, <- !app_assoc, (app_assoc hd km).
    apply slice_mid; rewrite ?length_app, ?length_le_split, Hhd; done. }
  assert (Hp : slice (8 + length km + 2) (8 + length km + 2 + length p) d = p).
  { subst d. rewrite Hpay, <- !app_assoc, (app_assoc hd km), (app_assoc (hd ++ km)).
    apply slice_mid; rewrite !length_app, ?length_le_split, Hhd; lia. }
  unfold add_payload_len, throw_if, MAX_POLICY_BUFFER_SIZE.
  destruct (Nat.ltb_spec (length d) 8); [lia|]. rewrite bind_ok, H0, val_u8_small, H8 by done.
  rewrite (add_key_len_ok o) by done. fold km. rewrite bind_ok.
  destruct (Nat.ltb_spec (length d) (8 + length km)); [lia|]. rewrite bind_ok.
  destruct (Nat.leb_spec (8 + length km + 2) (length d)); [|lia].
  rewrite Hpol, le_combine_small, Nat2Z.id by lia.
  destruct (Nat.ltb_spec 2048 (length p)); [lia|]. rewrite bind_ok.
  destruct (Nat.ltb_spec (length d) (8 + length km + 2 + length p)); [lia|]. rewrite bind_ok, Hp.
  unfold policy_verdict. replace (8 + length km + 2 + length p)%nat with (length payload) by lia. done.
Qed.

Lemma policy_ok_verdict p : policy_ok p → policy_verdict p = Ok ().
Proof. intros [_ [->|Hv]]; [done|]. unfold policy_verdict. rewrite Hv. by destruct (length p =? 0)%nat. Qed.

(** The signer of a passkey instruction's first account. *)
Lemma first_signer pix ix txPayer payer role ms :
  accounts ix = mkMeta payer role :: ms → role_signer role = true →
  signer_in (tx_metas [pix; ix] txPayer) payer = true.
Proof.
  intros Ha Hr. apply (tx_signer _ _ ix (mkMeta payer role)); [by right; left| |done].
  rewrite Ha. by left.
Qed.

(** End to end for AddAuthority: the program finds the end of the signed
    payload (key material and policy included) in the finalized instruction,
    accepts the key material the SDK let through, and arrives at the challenge
    the passkey signed. *)
Theorem add_authority_challenge_agrees (env : Env) (payer wallet : address)
    (params : Secp256r1Params) (o : CreateWalletOwner) (role : Z) (policy : option bytes)
    (allow : option bool) (txPayer : address) (c c' : client) (prepared : PreparedAddAuthority)
    (r : WebAuthnResponse) (out : list Instruction) (added : address) (counter slot : Z) :
  prepareAddAuthority env programId payer wallet params o role policy allow c = (c', Ok prepared) →
  finalizeAddAuthority prepared r = Ok (out, added) →
  owner_ok o → policy_ok (default [] policy) → fresh (pa_signing prepared) counter slot →
  ∃ ix, last out = Some ix ∧ head (data ix) = Some (u8 1)
    ∧ add_authority_challenge (runtime_info (tx_metas out txPayer) <$> accounts ix)
        (tail (data ix)) (address_encode wallet) counter slot (address_encode programId)
      = Ok (Signing.challenge (pa_signing prepared)).
Proof.
  unfold prepareAddAuthority. intros H Hfin Ho Hp Hfresh.
  m_step H. apply lift_inv in E as [-> _]. m_step H. rename a0 into f.
  apply lift_inv in E as [-> Hown]. m_step H. destruct a0 as [na b]. apply lift_inv in E as [-> _].
  m_step H. rename a0 into rs. apply mret_inv in H as [-> <-].
  unfold finalizeAddAuthority in Hfin. apply bind_inv in Hfin as ([ap pix] & Hf & [= <- <-]).
  cbn [pa_signing pa_payer pa_walletPda pa_adminAuthorityPda pa_newAuthorityPda pa_newType pa_newRole
       pa_credentialOrPubkey pa_secp256r1Pubkey pa_rpId pa_policy pa_programId] in *.
  set (payload := buildDataPayloadForAdd _ _ _ _ _ _) in *.
  set (ix := createAddAuthorityIx _ _ _ _ _ _ _ _ _ _ _ _ _).
  assert (Hdata : data ix = [u8 DISC_ADD_AUTHORITY] ++ payload ++ ap)
    by (by apply (payloads_match payer wallet (rs_authorityPda rs) na payer (authType f) role 0
                    (credentialOrPubkey f) (zeros 32) ap)).
  exists ix. split; [done|]. split; [by rewrite Hdata|]. rewrite Hdata. cbn [app tail].
  unfold add_authority_challenge. subst payload. rewrite (add_payload_len_ok o), policy_ok_verdict, bind_ok by (done || apply Hp).
  set (payload := buildDataPayloadForAdd _ _ _ _ _ _) in *.
  rewrite bind_ok, take_app_len, drop_app_len by done.
  change ((runtime_info (tx_metas [pix; ix] txPayer) <$> accounts ix) !! 0%nat)
    with (Some (runtime_info (tx_metas [pix; ix] txPayer) (mkMeta payer READONLY_SIGNER))).
  cbn [of_option]. rewrite bind_ok.
  erewrite authenticate_finalized; [|exact Hf|exact Hfresh|done| |done|done|done].
  - rewrite signing_challenge, concatBytes_concat. cbn [concat]. by rewrite app_nil_r.
  - by eapply first_signer.
Qed.

(** End to end for TransferOwnership: the same, over the new owner's key
    material, the payer and the refund destination. *)
Theorem transfer_challenge_agrees (env : Env) (payer wallet : address) (params : Secp256r1Params)
    (o : CreateWalletOwner) (refund : option address) (txPayer : address) (c c' : client)
    (prepared : PreparedTransferOwnership) (r : WebAuthnResponse) (out : list Instruction)
    (added : address) (counter slot : Z) :
  prepareTransferOwnership env programId payer wallet params o refund c = (c', Ok prepared) →
  finalizeTransferOwnership prepared r = Ok (out, added) →
  owner_ok o → fresh (pt_signing prepared) counter slot →
  ∃ ix, last out = Some ix ∧ head (data ix) = Some (u8 3)
    ∧ transfer_challenge (runtime_info (tx_metas out txPayer) <$> accounts ix)
        (tail (data ix)) (address_encode wallet) counter slot (address_encode programId)
      = Ok (Signing.challenge (pt_signing prepared)).
Proof.
  unfold prepareTransferOwnership. intros H Hfin Ho Hfresh.
  m_step H. rename a into f. apply lift_inv in E as [-> Hown].
  m_step H. destruct a as [na b]. apply lift_inv in E as [-> _].
  m_step H. rename a into rs. apply mret_inv in H as [-> <-].
  unfold finalizeTransferOwnership in Hfin. apply bind_inv in Hfin as ([ap pix] & Hf & [= <- <-]).
  cbn [pt_signing pt_payer pt_walletPda pt_currentOwnerAuthorityPda pt_newOwnerAuthorityPda
       pt_refundDestination pt_newType pt_credentialOrPubkey pt_secp256r1Pubkey pt_rpId
       pt_programId] in *.
  set (refund' := default payer refund) in *.
  set (payload := buildDataPayloadForTransfer _ _ _ _) in *.
  set (ix := createTransferOwnershipIx _ _ _ _ _ _ _ _ _ _ _ _).
  assert (Hdata : data ix = [u8 DISC_TRANSFER_OWNERSHIP] ++ payload ++ ap)
    by (by apply (payloads_match payer wallet (rs_authorityPda rs) na refund' (authType f) 0 0
                    (credentialOrPubkey f) (zeros 32) ap _ _ None None)).
  assert (Hpay : payload = [u8 (authType f)] ++ key_material f) by apply transfer_payload_eq.
  exists ix. split; [done|]. split; [by rewrite Hdata|]. rewrite Hdata. cbn [app tail].
  pose proof (owner_type o f Hown Ho) as Ht.
  assert (H0 : (payload ++ ap) !!! 0%nat = u8 (authType f)) by (by rewrite Hpay).
  assert (H1 : drop 1 (payload ++ ap) = key_material f ++ ap) by (by rewrite Hpay).
  assert (Hl : length payload = S (length (key_material f))) by (by rewrite Hpay).
  unfold transfer_challenge, throw_if.
  destruct (Nat.eqb_spec (length (payload ++ ap)) 0) as [He|_]; [rewrite length_app in He; lia|].
  rewrite bind_ok, H0, val_u8_small, H1 by done. rewrite (transfer_key_len_ok o), bind_ok by done.
  destruct (Nat.ltb_spec (length (payload ++ ap)) (1 + length (key_material f))) as [He|_];
    [rewrite length_app in He; lia|].
  rewrite bind_ok, take_app_len, drop_app_len by lia.
  set (infos := runtime_info (tx_metas [pix; ix] txPayer) <$> accounts ix).
  change (infos !! 0%nat)
    with (Some (runtime_info (tx_metas [pix; ix] txPayer) (mkMeta payer READONLY_SIGNER))).
  change (infos !! 4%nat)
    with (Some (runtime_info (tx_metas [pix; ix] txPayer) (mkMeta refund' WRITABLE))).
  cbn [of_option]. rewrite !bind_ok.
  erewrite authenticate_finalized; [|exact Hf|exact Hfresh|done| |done|done|done].
  - rewrite signing_challenge, concatBytes_concat. cbn [concat]. by rewrite app_nil_r.
  - by eapply first_signer.
Qed.
End authorities.

(** ** RemoveAuthority and RevokeSession *)
Section targets.
Context `{KL : KitLaws}.
Variable programId : address.

(** An instruction whose whole data is the auth payload, on accounts 3 and 4. *)
Lemma target_challenge_ok disc i target refund slot counter payer wallet key r ap pix ix txPayer ms :
  let p := buildPasskeySigning programId disc i
             (address_encode target ++ address_encode refund) slot counter payer wallet key in
  finalizeSecp256r1 p r = Ok (ap, pix) → ∀ stored now, fresh p stored now →
  accounts ix = mkMeta payer READONLY_SIGNER :: ms →
  m_address <$> ms !! 2%nat = Some target → m_address <$> ms !! 3%nat = Some refund →
  0 <= i < 256 → m_address <$> accounts ix !! Z.to_nat i = Some SYSVAR_INSTRUCTIONS_ADDRESS →
  target_challenge disc (runtime_info (tx_metas [pix; ix] txPayer) <$> accounts ix) ap
    (address_encode wallet) stored now (address_encode programId) = Ok (Signing.challenge p).
Proof.
  intros p Hf stored now Hfresh Hacc Ht Hr Hi Hsys.
  set (infos := runtime_info (tx_metas [pix; ix] txPayer) <$> accounts ix).
  assert (Hat : ∀ n a, m_address <$> accounts ix !! n = Some a →
            ∃ info, infos !! n = Some info ∧ ai_key info = address_encode a).
  { intros n a (m & Hm & ->)%fmap_Some. exists (runtime_info (tx_metas [pix; ix] txPayer) m).
    subst infos. by rewrite list_lookup_fmap, Hm. }
  destruct (Hat 3%nat target) as (t & Ht3 & Hkt); [by rewrite Hacc|].
  destruct (Hat 4%nat refund) as (rf & Hr4 & Hkr); [by rewrite Hacc|].
  destruct (Hat _ _ Hsys) as (sv & Hsv & Hks).
  unfold target_challenge. rewrite Ht3, Hr4. cbn [of_option]. rewrite !bind_ok.
  rewrite (authenticate_finalized _ _ (runtime_info (tx_metas [pix; ix] txPayer)
             (mkMeta payer READONLY_SIGNER)) p r ap pix _ _ _ _ _ sv); try done.
  - by rewrite Hkt, Hkr.
  - subst infos. by rewrite Hacc.
  - by eapply first_signer.
Qed.

(** End to end for RemoveAuthority: the program rebuilds the signed
    payload from the target and refund accounts it was given and arrives at the
    challenge the passkey signed. *)
Theorem remove_challenge_agrees (env : Env) (payer wallet : address) (params : Secp256r1Params)
    (target : address) (refund : option address) (txPayer : address) (c c' : client)
    (prepared : PreparedRemoveAuthority) (r : WebAuthnResponse) (out : list Instruction)
    (counter slot : Z) :
  prepareRemoveAuthority env programId payer wallet params target refund c = (c', Ok prepared) →
  finalizeRemoveAuthority prepared r = Ok out → fresh (pr_signing prepared) counter slot →
  ∃ ix, last out = Some ix ∧ head (data ix) = Some (u8 2)
    ∧ target_challenge 2 (runtime_info (tx_metas out txPayer) <$> accounts ix)
        (tail (data ix)) (address_encode wallet) counter slot (address_encode programId)
      = Ok (Signing.challenge (pr_signing prepared)).
Proof.
  unfold prepareRemoveAuthority. intros H Hfin Hfresh. m_step H. apply mret_inv in H as [-> <-].
  unfold finalizeRemoveAuthority in Hfin. apply bind_inv in Hfin as ([ap pix] & Hf & [= <-]).
  cbn [pr_signing pr_payer pr_walletPda pr_adminAuthorityPda pr_targetAuthorityPda
       pr_refundDestination pr_programId] in *.
  rewrite concatBytes_concat in *. cbn [concat] in *. rewrite app_nil_r in *.
  set (ix := createRemoveAuthorityIx _ _ _ _ _ _ _ _). exists ix.
  assert (Hdata : data ix = [u8 2] ++ ap).
  { cbn [data ix createRemoveAuthorityIx optPart]. rewrite concatBytes_concat. cbn. by rewrite app_nil_r. }
  split; [done|]. rewrite Hdata. split; [done|]. cbn [app tail].
  eapply target_challenge_ok; [exact Hf|exact Hfresh|done..].
Qed.

(** End to end for RevokeSession: the same, for the session and the refund
    destination. *)
Theorem revoke_challenge_agrees (env : Env) (payer wallet : address) (params : Secp256r1Params)
    (session : address) (refund : option address) (txPayer : address) (c c' : client)
    (prepared : PreparedRevokeSession) (r : WebAuthnResponse) (out : list Instruction)
    (counter slot : Z) :
  prepareRevokeSession env programId payer wallet params session refund c = (c', Ok prepared) →
  finalizeRevokeSession prepared r = Ok out → fresh (pv_signing prepared) counter slot →
  ∃ ix, last out = Some ix ∧ head (data ix) = Some (u8 9)
    ∧ target_challenge 9 (runtime_info (tx_metas out txPayer) <$> accounts ix)
        (tail (data ix)) (address_encode wallet) counter slot (address_encode programId)
      = Ok (Signing.challenge (pv_signing prepared)).
Proof.
  unfold prepareRevokeSession. intros H Hfin Hfresh. m_step H. apply mret_inv in H as [-> <-].
  unfold finalizeRevokeSession in Hfin. apply bind_inv in Hfin as ([ap pix] & Hf & [= <-]).
  cbn [pv_signing pv_payer pv_walletPda pv_adminAuthorityPda pv_sessionPda
       pv_refundDestination pv_programId] in *.
  rewrite concatBytes_concat in *. cbn [concat] in *. rewrite app_nil_r in *.
  set (ix := createRevokeSessionIx _ _ _ _ _ _ _ _). exists ix.
  assert (Hdata : data ix = [u8 9] ++ ap).
  { cbn [data ix createRevokeSessionIx optPart]. rewrite concatBytes_concat. cbn. by rewrite app_nil_r. }
  split; [done|]. rewrite Hdata. split; [done|]. cbn [app tail].
  eapply target_challenge_ok; [exact Hf|exact Hfresh|done..].
Qed.
End targets.

(** ** CreateSession *)
Section sessions.
Context `{KL : KitLaws}.
Variable programId : address.

(** Actions the program accepts on a session. *)
Definition actions_accepted (acts : list SessionAction) : Prop :=
  Forall action_ok acts ∧ (length acts <= MAX_ACTIONS)%nat ∧ policy_check acts = Ok ().

(** The program's verdict on a session's actions, stated on the actions. *)
Definition session_policy (acts : list SessionAction) : result unit :=
  match acts with [] => Ok () | _ => policy_check acts end.

(** The buffer [createSession] sends: empty without actions, and judged by the program
    as the actions are with them. *)
Lemma actions_buffer_judged actions buf :
  actions_buffer actions = Ok buf → Forall action_ok (default [] actions) → (length (default [] actions) <= MAX_ACTIONS)%nat →
  (length (default [] buf) <= MAX_ACTIONS_BUFFER_SIZE)%nat
  ∧ (if (0 <? length (default [] buf))%nat then validate_actions_buffer (default [] buf) else Ok ()) = session_policy (default [] actions).
Proof.
  intros H Hok Hn. unfold MAX_ACTIONS in Hn. destruct actions as [[|a acts]|]; cbn [actions_buffer] in H.
  1,3: injection H as <-; cbn; split; [lia | done].
  destruct (validate_serialized (a :: acts)) as (b & Hs & Hv); [done..|].
  rewrite Hs in H. injection H as <-. change (default [] (Some b)) with b. change (default [] (Some (a :: acts))) with (a :: acts).
  change (session_policy (a :: acts)) with (policy_check (a :: acts)). change (default [] (Some (a :: acts))) with (a :: acts) in Hok, Hn.
  rewrite serializeActions_ok in Hs by (eapply Forall_impl; [exact Hok | by intros ? []]).
  assert (Hlen : (length b <= 96 * length (a :: acts))%nat) by (pose proof (length_wires_bound (a :: acts)) as Hw; by rewrite (f_equal (λ o, match o with Ok x => x | Throw _ => [] end) Hs) in Hw).
  split; [unfold MAX_ACTIONS_BUFFER_SIZE; lia|]. rewrite <- Hv. by destruct b.
Qed.

Lemma actions_buffer_ok actions buf :
  actions_buffer actions = Ok buf → actions_accepted (default [] actions) →
  (length (default [] buf) <= MAX_ACTIONS_BUFFER_SIZE)%nat
  ∧ (if (0 <? length (default [] buf))%nat then validate_actions_buffer (default [] buf) else Ok ()) = Ok ().
Proof.
  intros H (Hok & Hn & Hp). destruct (actions_buffer_judged actions buf H Hok Hn) as [Hl ->]. split; [done|].
  by destruct (default [] actions).
Qed.

Lemma session_args_ok key exp buf ap :
  length key = 32%nat → 0 <= exp < 2 ^ 64 → (length buf <= MAX_ACTIONS_BUFFER_SIZE)%nat →
  let d := key ++ le_split 8 exp ++ le_split 2 (Z.of_nat (length buf)) ++ buf in
  session_args (d ++ ap)
  = (_ ← (if (0 <? length buf)%nat then validate_actions_buffer buf else Ok ()); Ok (key, exp, buf, length d)).
Proof.
  intros Hk He Hb d. unfold MAX_ACTIONS_BUFFER_SIZE in Hb.
  assert (Hd : length d = (42 + length buf)%nat).
  { subst d. rewrite !length_app, !length_le_split, Hk. lia. }
  assert (Heq : d ++ ap = key ++ le_split 8 exp ++ le_split 2 (Z.of_nat (length buf)) ++ buf ++ ap)
    by (subst d; by rewrite <- !app_assoc).
  assert (H1 : take 32 (d ++ ap) = key) by (rewrite Heq; by apply take_app_len).
  assert (H2 : slice 32 40 (d ++ ap) = le_split 8 exp)
    by (rewrite Heq; apply slice_mid; rewrite ?length_le_split; lia).
  assert (H3 : slice 40 42 (d ++ ap) = le_split 2 (Z.of_nat (length buf)))
    by (rewrite Heq, app_assoc; apply slice_mid; rewrite ?length_app, ?length_le_split; lia).
  assert (H4 : slice 42 (42 + length buf) (d ++ ap) = buf)
    by (rewrite Heq, app_assoc, (app_assoc (key ++ _)); apply slice_mid;
        rewrite !length_app, ?length_le_split; lia).
  unfold session_args, throw_if, MAX_ACTIONS_BUFFER_SIZE.
  rewrite length_app, Hd, H1, H2, H3, !le_combine_small, Nat2Z.id by lia.
  destruct (Nat.ltb_spec (42 + length buf + length ap) 40); [lia|]. rewrite bind_ok.
  destruct (Nat.leb_spec 42 (42 + length buf + length ap)); [|lia].
  destruct (Nat.ltb_spec 2048 (length buf)); [lia|]. rewrite bind_ok.
  destruct (Nat.ltb_spec 0 (length buf)).
  - destruct (Nat.ltb_spec (42 + length buf + length ap) (42 + length buf)); [lia|]. by rewrite bind_ok, H4.
  - destruct buf; [|cbn in *; lia]. done.
Qed.

(** End to end for CreateSession: the program reads back from the
    finalized instruction the session key, the expiry and the actions the
    passkey signed over, accepts the serialized actions, and arrives at the
    challenge the passkey signed. *)
Theorem session_challenge_agrees (env : Env) (payer wallet : address) (params : Secp256r1Params)
    (key : address) (exp : Z) (actions : option (list SessionAction)) (unrestricted : option bool)
    (txPayer : address) (c c' : client) (prepared : PreparedCreateSession) (r : WebAuthnResponse)
    (out : list Instruction) (session : address) (counter slot : Z) :
  prepareCreateSession env programId payer wallet params key exp actions unrestricted c
    = (c', Ok prepared) →
  finalizeCreateSession prepared r = Ok (out, session) →
  0 <= exp < 2 ^ 64 → actions_accepted (default [] actions) →
  fresh (pc_signing prepared) counter slot →
  ∃ ix, last out = Some ix ∧ head (data ix) = Some (u8 5)
    ∧ (∃ buf n, actions_buffer actions = Ok buf
         ∧ session_args (tail (data ix)) = Ok (address_encode key, exp, default [] buf, n))
    ∧ create_session_challenge (runtime_info (tx_metas out txPayer) <$> accounts ix)
        (tail (data ix)) (address_encode wallet) counter slot (address_encode programId)
      = Ok (Signing.challenge (pc_signing prepared)).
Proof.
  unfold prepareCreateSession. intros H Hfin He Ha Hfresh.
  m_step H. apply lift_inv in E as [-> _]. m_step H. destruct a0 as [pda b].
  apply lift_inv in E as [-> _]. m_step H. rename a0 into rs.
  m_step H. rename a0 into buf. apply lift_inv in E0 as [-> Hbuf].
  m_step H. rename a0 into payload. apply lift_inv in E0 as [-> Hpay]. apply mret_inv in H as [-> <-].
  unfold finalizeCreateSession in Hfin. apply bind_inv in Hfin as ([ap pix] & Hf & [= <- <-]).
  cbn [pc_signing pc_payer pc_walletPda pc_adminAuthorityPda pc_sessionPda pc_sessionKey
       pc_expiresAt pc_actionsBuffer pc_programId] in *.
  set (ix := createCreateSessionIx _ _ _ _ _ _ _ _ _ _).
  assert (Hdata : data ix = [u8 DISC_CREATE_SESSION] ++ payload ++ ap).
  { destruct (payloads_match payer wallet (rs_authorityPda rs) pda payer 0 0 exp []
      (address_encode key) ap None None None buf programId) as (_ & _ & sp & Hsp & Hd);
      [apply address_encode_length|]. rewrite Hpay in Hsp. injection Hsp as <-. exact Hd. }
  destruct (actions_buffer_ok actions buf Hbuf Ha) as [Hlen Hval].
  rewrite session_payload_eq in Hpay by apply address_encode_length. injection Hpay as <-.
  assert (Hargs := session_args_ok (address_encode key) exp (default [] buf) ap
                     (address_encode_length key) He Hlen).
  cbv zeta in Hargs. rewrite Hval, bind_ok in Hargs. set (payload := address_encode key ++ _) in *.
  exists ix. split; [done|]. split; [by rewrite Hdata|]. rewrite Hdata. cbn [app tail]. split.
  { by exists buf, (length payload). }
  unfold create_session_challenge. rewrite Hargs, bind_ok, take_app_len, drop_app_len by done.
  change ((runtime_info (tx_metas [pix; ix] txPayer) <$> accounts ix) !! 0%nat)
    with (Some (runtime_info (tx_metas [pix; ix] txPayer) (mkMeta payer READONLY_SIGNER))).
  cbn [of_option]. rewrite bind_ok.
  erewrite authenticate_finalized; [|exact Hf|exact Hfresh|done| |done|done|done].
  - rewrite signing_challenge, concatBytes_concat. cbn [concat]. by rewrite app_nil_r.
  - by eapply first_signer.
Qed.
End sessions.

(** ** Examples *)
Import ConcreteKit Sample.

Definition new_owner : CreateWalletOwner :=
  OwnerSecp256r1 (replicate 32 (u8 11)) (replicate 33 (u8 12)) "example.com".

Lemma new_owner_ok : owner_ok new_owner.
Proof. cbn. lia. Qed.

(** A delegate bounded by one action. *)
Definition delegate_policy : bytes :=
  match serializeActions [SolLimitAction 10 None] with Ok b => b | Throw _ => [] end.

Lemma delegate_policy_ok : policy_ok delegate_policy.
Proof. split; [vm_compute; lia | right; vm_compute; reflexivity]. Qed.

(** Closes a goal [∃ c' prepared out.., prepare .. = (c', Ok prepared) ∧ ..]: finds
    the prepared value and the finalized one by evaluation. *)
Ltac run_sample prepare test :=
  let c := fresh "c" in let p := fresh "p" in
  destruct (returns_inv prepare test) as (c & p & ?E & ?H); [vm_compute; reflexivity|].

Lemma add_authority_challenge_agrees_witness :
  ∃ c' prepared out added ix,
    prepareAddAuthority node program payer wallet params new_owner 2 (Some delegate_policy) None
      new_client = (c', Ok prepared)
    ∧ finalizeAddAuthority prepared response = Ok (out, added)
    ∧ add_authority_challenge (runtime_info (tx_metas out payer) <$> accounts ix)
        (tail (data ix)) (address_encode wallet) 7 1001 (address_encode program)
      = Ok (Signing.challenge (pa_signing prepared)).
Proof.
  run_sample (prepareAddAuthority node program payer wallet params new_owner 2
                (Some delegate_policy) None new_client)
    (λ p, sample_fresh (pa_signing p) && is_ok (finalizeAddAuthority p response)).
  apply andb_prop in H as [Hfr Hfin].
  destruct (finalizeAddAuthority p response) as [[out added]|] eqn:F; [|discriminate Hfin].
  destruct (@add_authority_challenge_agrees kit kit_laws program node payer wallet params new_owner 2
    (Some delegate_policy) None payer _ _ p response out added 7 1001 E F new_owner_ok
    delegate_policy_ok (sample_fresh_ok _ Hfr)) as (ix & _ & _ & Hc).
  exists c, p, out, added, ix. exact (conj E (conj F Hc)).
Defined.

Lemma transfer_challenge_agrees_witness :
  ∃ c' prepared out added ix,
    prepareTransferOwnership node program payer wallet params new_owner None new_client
      = (c', Ok prepared)
    ∧ finalizeTransferOwnership prepared response = Ok (out, added)
    ∧ transfer_challenge (runtime_info (tx_metas out payer) <$> accounts ix)
        (tail (data ix)) (address_encode wallet) 7 1001 (address_encode program)
      = Ok (Signing.challenge (pt_signing prepared)).
Proof.
  run_sample (prepareTransferOwnership node program payer wallet params new_owner None new_client)
    (λ p, sample_fresh (pt_signing p) && is_ok (finalizeTransferOwnership p response)).
  apply andb_prop in H as [Hfr Hfin].
  destruct (finalizeTransferOwnership p response) as [[out added]|] eqn:F; [|discriminate Hfin].
  destruct (@transfer_challenge_agrees kit kit_laws program node payer wallet params new_owner None
    payer _ _ p response out added 7 1001 E F new_owner_ok (sample_fresh_ok _ Hfr))
    as (ix & _ & _ & Hc).
  exists c, p, out, added, ix. exact (conj E (conj F Hc)).
Defined.

Lemma remove_challenge_agrees_witness :
  ∃ c' prepared out ix,
    prepareRemoveAuthority node program payer wallet params (at_byte 13) None new_client
      = (c', Ok prepared)
    ∧ finalizeRemoveAuthority prepared response = Ok out
    ∧ target_challenge 2 (runtime_info (tx_metas out payer) <$> accounts ix)
        (tail (data ix)) (address_encode wallet) 7 1001 (address_encode program)
      = Ok (Signing.challenge (pr_signing prepared)).
Proof.
  run_sample (prepareRemoveAuthority node program payer wallet params (at_byte 13) None new_client)
    (λ p, sample_fresh (pr_signing p) && is_ok (finalizeRemoveAuthority p response)).
  apply andb_prop in H as [Hfr Hfin].
  destruct (finalizeRemoveAuthority p response) as [out|] eqn:F; [|discriminate Hfin].
  destruct (@remove_challenge_agrees kit program node payer wallet params (at_byte 13) None
    payer _ _ p response out 7 1001 E F (sample_fresh_ok _ Hfr)) as (ix & _ & _ & Hc).
  exists c, p, out, ix. exact (conj E (conj F Hc)).
Defined.

Lemma revoke_challenge_agrees_witness :
  ∃ c' prepared out ix,
    prepareRevokeSession node program payer wallet params (at_byte 14) (Some (at_byte 15)) new_client
      = (c', Ok prepared)
    ∧ finalizeRevokeSession prepared response = Ok out
    ∧ target_challenge 9 (runtime_info (tx_metas out payer) <$> accounts ix)
        (tail (data ix)) (address_encode wallet) 7 1001 (address_encode program)
      = Ok (Signing.challenge (pv_signing prepared)).
Proof.
  run_sample (prepareRevokeSession node program payer wallet params (at_byte 14) (Some (at_byte 15))
                new_client)
    (λ p, sample_fresh (pv_signing p) && is_ok (finalizeRevokeSession p response)).
  apply andb_prop in H as [Hfr Hfin].
  destruct (finalizeRevokeSession p response) as [out|] eqn:F; [|discriminate Hfin].
  destruct (@revoke_challenge_agrees kit program node payer wallet params (at_byte 14)
    (Some (at_byte 15)) payer _ _ p response out 7 1001 E F (sample_fresh_ok _ Hfr))
    as (ix & _ & _ & Hc).
  exists c, p, out, ix. exact (conj E (conj F Hc)).
Defined.

Lemma session_challenge_agrees_witness :
  ∃ c' prepared out session ix,
    prepareCreateSession node program payer wallet params (at_byte 16) 5000 (Some sample_policy) None
      new_client = (c', Ok prepared)
    ∧ finalizeCreateSession prepared response = Ok (out, session)
    ∧ create_session_challenge (runtime_info (tx_metas out payer) <$> accounts ix)
        (tail (data ix)) (address_encode wallet) 7 1001 (address_encode program)
      = Ok (Signing.challenge (pc_signing prepared)).
Proof.
  run_sample (prepareCreateSession node program payer wallet params (at_byte 16) 5000
                (Some sample_policy) None new_client)
    (λ p, sample_fresh (pc_signing p) && is_ok (finalizeCreateSession p response)).
  apply andb_prop in H as [Hfr Hfin].
  destruct (finalizeCreateSession p response) as [[out session]|] eqn:F; [|discriminate Hfin].
  destruct (@session_challenge_agrees kit kit_laws program node payer wallet params (at_byte 16) 5000
    (Some sample_policy) None payer _ _ p response out session 7 1001 E F)
    as (ix & _ & _ & _ & Hc).
  - lia.
  - split; [exact sample_policy_ok|]. split; [vm_compute; lia | vm_compute; reflexivity].
  - exact (sample_fresh_ok _ Hfr).
  - exists c, p, out, session, ix. exact (conj E (conj F Hc)).
Defined.
