(* ===== verification/ProgramAuth.v ===== *)
(** * Authenticating a passkey

    Models [Secp256r1Authenticator::authenticate] of
    src/program/src/auth/secp256r1/mod.rs whole, and the Secp256r1 branch of
    src/program/src/processor/execute/immediate.rs up to it.  An assertion the program
    accepts was made for this very request, is accepted once, and every Execute the
    SDK finalizes with a genuine assertion is accepted. *)
From S2P Require Import Prelude Bytes Kit Constants JsMap Pdas Actions Json Packing Compact Builders.
From S2P Require Import Signing Accounts ChallengeReads Ownership ClientHelpers Client.
From S2P Require Import ClientOps Samples ClientProps ProgramActions ProgramChallenges EndToEnd ProgramWebauthn.
Local Open Scope Z_scope.

(** ** The program *)

(** The instructions sysvar: every instruction of the transaction with its program
    and data, and which one runs. *)
Record Instructions := mkInstructions { in_instructions : list (bytes * bytes); in_current_index : nat }.

(** [ct_eq]: every pair of bytes is compared. *)
Fixpoint ct_acc (a b : bytes) (acc : Z) : Z :=
  match a, b with
  | x :: a, y :: b => ct_acc a b (Z.lor acc (Z.lxor (val x) (val y)))
  | _, _ => acc
  end.
Definition ct_eq (a b : bytes) : bool :=
  if negb (length a =? length b)%nat then false else ct_acc a b 0 =? 0.

(** Fields of [AuthorityAccountHeader] and of a Secp256r1 authority's data. *)
Definition HEADER_SIZE : nat := 48.
Definition header_counter (auth_data : bytes) : Z := le_combine (slice 8 12 auth_data).
Definition header_wallet (auth_data : bytes) : bytes := slice 16 48 auth_data.
Definition stored_pubkey (auth_data : bytes) : bytes := slice 80 113 auth_data.
Definition stored_rp_id_hash (auth_data : bytes) : bytes := slice 113 145 auth_data.

Section program.
Context `{K : Kit}.

(** Returns the authority's data with the counter it commits. *)
Definition authenticate (accounts : list AccountInfo) (auth_data auth_payload signed_payload discriminator : bytes)
    (program_id : bytes) (stack_height current_slot : Z) (ixs : Instructions) : result bytes :=
  (throw! PInvalidAuthorityPayload when (length auth_payload <? 18)%nat;
   let slot := le_combine (slice 0 8 auth_payload) in
   let submitted_counter := le_combine (slice 8 12 auth_payload) in
   let sysvar_ix_index := Z.to_nat (val (auth_payload !!! 12%nat)) in
   throw! PPermissionDenied when 1 <? stack_height;
   throw! PInvalidSignatureAge when current_slot <? slot;
   throw! PInvalidSignatureAge when MAX_SLOT_AGE <=? current_slot - slot;
   throw! PInvalidAuthorityPayload when (length auth_data <? HEADER_SIZE)%nat;
   expected_counter ← next_counter (header_counter auth_data);
   throw! PSignatureReused when negb (submitted_counter =? expected_counter);
   throw! PInvalidAuthorityPayload when (length auth_data <? 113 + 32)%nat;
   payer ← of_option PNotEnoughAccountKeys (accounts !! 0%nat);
   throw! PMissingRequiredSignature when negb (ai_is_signer payer);
   let hasher := sha256 (discriminator ++ take 14 auth_payload ++ signed_payload ++ ai_key payer
                         ++ header_wallet auth_data ++ le_split 4 expected_counter ++ program_id) in
   let auth_data_len := Z.to_nat (le_combine (slice 14 16 auth_payload)) in
   throw! PInvalidAuthorityPayload when (length auth_payload <? 16 + auth_data_len + 2)%nat;
   let authenticator_data_raw := slice 16 (16 + auth_data_len) auth_payload in
   let cdj_len_offset := (16 + auth_data_len)%nat in
   let cdj_len := Z.to_nat (le_combine (slice cdj_len_offset (cdj_len_offset + 2) auth_payload)) in
   let cdj_offset := (cdj_len_offset + 2)%nat in
   throw! PInvalidAuthorityPayload
     when (cdj_len =? 0)%nat || negb (length auth_payload =? cdj_offset + cdj_len)%nat;
   let raw_client_data_json := slice cdj_offset (cdj_offset + cdj_len) auth_payload in
   type_value ← extract_top_level_string_field raw_client_data_json (lit "type");
   throw! PInvalidAuthenticationKind when negb (bytesEqual type_value (lit "webauthn.get"));
   challenge_value ← extract_top_level_string_field raw_client_data_json (lit "challenge");
   throw! PInvalidMessageHash when negb (ct_eq challenge_value (base64url_encode_no_pad hasher));
   let client_data_hash := sha256 raw_client_data_json in
   auth_data_parser ← AuthDataParser_new authenticator_data_raw;
   throw! PPermissionDenied when negb (is_user_present auth_data_parser);
   throw! PInvalidPubkey when negb (bytesEqual (rp_id_hash auth_data_parser) (stored_rp_id_hash auth_data));
   sysvar_instructions ← of_option PInvalidAuthorityPayload (accounts !! sysvar_ix_index);
   throw! PInvalidInstruction
     when negb (bytesEqual (ai_key sysvar_instructions) (address_encode SYSVAR_INSTRUCTIONS_ADDRESS));
   throw! PInvalidInstruction when (in_current_index ixs =? 0)%nat;
   let secp_ix := in_instructions ixs !!! (in_current_index ixs - 1)%nat in
   throw! PInvalidInstruction when negb (bytesEqual (fst secp_ix) (address_encode SECP256R1_PROGRAM_ADDRESS));
   _ ← verify_secp256r1_instruction_data (snd secp_ix) (stored_pubkey auth_data) authenticator_data_raw client_data_hash;
   Ok (set_at 8 (le_split 4 expected_counter) auth_data))%js.

(** ** Execute *)

(** An account as the runtime loads it. *)
Record Loaded := mkLoaded { ld_info : AccountInfo; ld_owner : bytes; ld_data : bytes }.

(** [check_header]. *)
Definition CURRENT_ACCOUNT_VERSION : Z := 1.
Definition check_header (data : bytes) (expected : Z) (version_offset : option nat) (min_len : nat) : result unit :=
  (throw! PInvalidAccountData when (length data <? min_len)%nat;
   throw! PInvalidAccountData when negb (val (data !!! 0%nat) =? expected);
   match version_offset with
   | Some offset => throw! PAccountVersionMismatch when negb (val (data !!! offset) =? CURRENT_ACCOUNT_VERSION); Ok ()
   | None => Ok ()
   end)%js.

Definition Disc_Wallet : Z := 0x21.
Definition Disc_Authority : Z := 0x22.
Definition Disc_Session : Z := 0x23.
Definition WalletAccount_check (data : bytes) : result unit := check_header data Disc_Wallet (Some 2%nat) 8.
Definition AuthorityAccountHeader_check (data : bytes) : result unit := check_header data Disc_Authority (Some 4%nat) HEADER_SIZE.

Definition SessionAccount_size : nat := 80.

(** Who an Execute was authorised by; a passkey's authority gets new data. *)
Inductive Authorised := ByEd25519 | ByPasskey (auth_data : bytes) | BySession (session_key : bytes).

(** [process] of Execute up to the end of its authentication. *)
Definition execute_authorised (accounts : list Loaded) (instruction_data program_id : bytes)
    (stack_height current_slot : Z) (ixs : Instructions) : result Authorised :=
  (throw! PPermissionDenied when 1 <? stack_height;
   payer ← of_option PNotEnoughAccountKeys (accounts !! 0%nat);
   throw! PMissingRequiredSignature when negb (ai_is_signer (ld_info payer));
   wallet_pda ← of_option PNotEnoughAccountKeys (accounts !! 1%nat);
   authority_pda ← of_option PNotEnoughAccountKeys (accounts !! 2%nat);
   vault_pda ← of_option PNotEnoughAccountKeys (accounts !! 3%nat);
   throw! PIllegalOwner
     when negb (bytesEqual (ld_owner wallet_pda) program_id) || negb (bytesEqual (ld_owner authority_pda) program_id);
   _ ← WalletAccount_check (ld_data wallet_pda);
   throw! PInvalidAccountData when negb (ai_is_writable (ld_info authority_pda));
   let authority_data := ld_data authority_pda in
   throw! PInvalidAccountData when (length authority_data =? 0)%nat;
   let discriminator := val (authority_data !!! 0%nat) in
   '(compact_instructions, compact_len) ← parse_compact_instructions instruction_data;
   let infos := ld_info <$> accounts in
   if discriminator =? Disc_Authority then
     _ ← AuthorityAccountHeader_check authority_data;
     throw! PInvalidAccountData when negb (bytesEqual (header_wallet authority_data) (ai_key (ld_info wallet_pda)));
     if val (authority_data !!! 1%nat) =? 0 then
       _ ← ed25519_authenticate infos authority_data; Ok ByEd25519
     else if val (authority_data !!! 1%nat) =? 1 then
       preimage ← accounts_hash_preimage infos compact_instructions;
       ByPasskey <$> authenticate infos authority_data (drop compact_len instruction_data)
         (take compact_len instruction_data ++ sha256 preimage) [u8 4] program_id stack_height current_slot ixs
     else Throw PInvalidAuthenticationKind
   else if discriminator =? Disc_Session then
     throw! PPermissionDenied when 1 <? stack_height;
     throw! PInvalidAccountData when (length authority_data <? SessionAccount_size)%nat;
     let session_key := slice 40 72 authority_data in
     throw! PInvalidAccountData when negb (bytesEqual (slice 8 40 authority_data) (ai_key (ld_info wallet_pda)));
     throw! PSessionExpired when le_combine (slice 72 80 authority_data) <? current_slot;
     throw! PMissingRequiredSignature
       when negb (existsb (λ acc, ai_is_signer acc && bytesEqual (ai_key acc) session_key) infos);
     Ok (BySession session_key)
   else Throw PInvalidAccountData)%js.
End program.

(** ** What is accepted *)
Section accepted.
Context `{K : Kit}.

(** The bytes a request is signed over. *)
Definition request_preimage (discriminator prefix signed_payload : bytes) (payer : AccountInfo) (wallet : bytes)
    (counter : Z) (program_id : bytes) : bytes :=
  discriminator ++ prefix ++ signed_payload ++ ai_key payer ++ wallet ++ le_split 4 counter ++ program_id.

Record Accepted (accounts : list AccountInfo) (auth_data auth_payload signed_payload discriminator program_id : bytes)
    (stack_height current_slot : Z) (ixs : Instructions) (ap : AuthPayload) (payer : AccountInfo) : Prop := {
  ac_payload : parse_auth_payload auth_payload = Ok ap;
  ac_top_level : stack_height <= 1;
  ac_fresh : ap_slot ap <= current_slot < ap_slot ap + MAX_SLOT_AGE;
  ac_stored : (145 <= length auth_data)%nat;
  ac_counter : ap_counter ap = header_counter auth_data + 1 ∧ ap_counter ap < 2 ^ 32;
  ac_payer : accounts !! 0%nat = Some payer ∧ ai_is_signer payer = true;
  ac_type : extract_top_level_string_field (ap_client_data_json ap) (lit "type") = Ok (lit "webauthn.get");
  ac_challenge : extract_top_level_string_field (ap_client_data_json ap) (lit "challenge")
    = Ok (base64url_encode_no_pad (sha256 (request_preimage discriminator (ap_prefix ap) signed_payload payer
        (header_wallet auth_data) (ap_counter ap) program_id)));
  ac_length : (37 <= length (ap_authenticator_data ap))%nat;
  ac_user_present : Z.testbit (val (ap_authenticator_data ap !!! 32%nat)) 0 = true;
  ac_relying_party : slice 0 32 (ap_authenticator_data ap) = stored_rp_id_hash auth_data;
  ac_sysvar : ∃ sysvar, accounts !! Z.to_nat (ap_sysvar_ix_index ap) = Some sysvar
    ∧ ai_key sysvar = address_encode SYSVAR_INSTRUCTIONS_ADDRESS;
  ac_after_precompile : in_current_index ixs ≠ 0%nat;
  ac_precompile : fst (in_instructions ixs !!! (in_current_index ixs - 1)%nat) = address_encode SECP256R1_PROGRAM_ADDRESS;
  ac_signature : verify_secp256r1_instruction_data (snd (in_instructions ixs !!! (in_current_index ixs - 1)%nat))
    (stored_pubkey auth_data) (ap_authenticator_data ap) (sha256 (ap_client_data_json ap)) = Ok ();
}.

Lemma ct_acc_zero a b acc : length a = length b → 0 <= acc → ct_acc a b acc = 0 ↔ acc = 0 ∧ a = b.
Proof.
  revert b acc. induction a as [|x a IH]; intros [|y b] acc Hl Ha; try done; cbn [ct_acc]; [naive_solver|].
  injection Hl as Hl. pose proof (val_range x). pose proof (val_range y).
  rewrite IH; [|done|apply Z.lor_nonneg; split; [done|apply Z.lxor_nonneg; lia]].
  rewrite Z.lor_eq_0_iff, Z.lxor_eq_0_iff. split; [intros [[-> ->%val_inj] ->]; done|]. by intros [-> [= -> ->]].
Qed.

Lemma ct_eq_spec a b : ct_eq a b = true ↔ a = b.
Proof.
  unfold ct_eq. destruct (Nat.eqb_spec (length a) (length b)) as [E|E]; cbn [negb].
  - rewrite Z.eqb_eq, ct_acc_zero by (done || lia). naive_solver.
  - split; [done|]. by intros ->.
Qed.

Lemma next_counter_ok c e : next_counter c = Ok e ↔ e = c + 1 ∧ e < 2 ^ 32.
Proof. unfold next_counter. destruct (Z.ltb_spec (c + 1) (2 ^ 32)); split; [by intros [= <-]|by intros [-> _]|done|lia]. Qed.

Lemma user_present_bit d : is_user_present (mkAuthData d) = Z.testbit (val (d !!! 32%nat)) 0.
Proof. unfold is_user_present. cbn [ad_data]. by rewrite land_1, negb_involutive. Qed.

Lemma AuthDataParser_ok d : (37 <= length d)%nat → AuthDataParser_new d = Ok (mkAuthData d).
Proof. intros H. unfold AuthDataParser_new, AUTH_DATA_MIN_LEN. by rewrite (proj2 (Nat.ltb_ge _ _) H). Qed.

Lemma pass_throw {E A} c (e : E) (k : outcome E A) : c = false → (throw_if c e ≫= λ _, k) = k.
Proof. by intros ->. Qed.

(** Passes a check whose condition the context refutes. *)
Ltac pass := rewrite pass_throw by
  (rewrite ?negb_false_iff, ?bytesEqual_spec, ?ct_eq_spec, ?Z.eqb_eq, ?Nat.eqb_neq; done || (apply Z.ltb_ge || apply Z.leb_gt || apply Nat.ltb_ge); lia).

(** [authenticate] accepts exactly [Accepted] requests, and commits the counter. *)
Theorem authenticate_iff accounts auth_data auth_payload signed_payload discriminator program_id stack_height current_slot ixs d :
  authenticate accounts auth_data auth_payload signed_payload discriminator program_id stack_height current_slot ixs = Ok d
  ↔ ∃ ap payer, Accepted accounts auth_data auth_payload signed_payload discriminator program_id stack_height current_slot ixs ap payer
      ∧ d = set_at 8 (le_split 4 (ap_counter ap)) auth_data.
Proof.
  split.
  - unfold authenticate. intros H.
    apply bind_inv in H as ([] & H18 & H). apply bind_inv in H as ([] & Hst & H).
    apply bind_inv in H as ([] & Hs1 & H). apply bind_inv in H as ([] & Hs2 & H). apply bind_inv in H as ([] & _ & H).
    apply bind_inv in H as (e & [-> He]%next_counter_ok & H). apply bind_inv in H as ([] & Hc & H).
    apply bind_inv in H as ([] & Hl & H). apply bind_inv in H as (payer & Hp & H). apply bind_inv in H as ([] & Hsg & H).
    apply bind_inv in H as ([] & Hp1 & H). apply bind_inv in H as ([] & Hp2 & H).
    apply bind_inv in H as (ty & Hty & H). apply bind_inv in H as ([] & Hk & H).
    apply bind_inv in H as (ch & Hch & H). apply bind_inv in H as ([] & Hm & H).
    apply bind_inv in H as (parser & Hpar & H). apply bind_inv in H as ([] & Hup & H).
    apply bind_inv in H as ([] & Hrp & H). apply bind_inv in H as (sv & Hsv & H).
    apply bind_inv in H as ([] & Hkey & H). apply bind_inv in H as ([] & Hci & H).
    apply bind_inv in H as ([] & Hpid & H). apply bind_inv in H as ([] & Hver & [= <-]).
    unfold AuthDataParser_new in Hpar. apply bind_inv in Hpar as ([] & H37 & [= <-]).
    rewrite throw_if_ok in *. rewrite of_option_ok in *.
    rewrite user_present_bit in Hup. unfold rp_id_hash in Hrp. cbn [ad_data] in Hrp.
    rewrite ?negb_false_iff, ?bytesEqual_spec, ?ct_eq_spec, ?Z.eqb_eq in *. subst ty ch. unfold AUTH_DATA_MIN_LEN in H37. apply Nat.ltb_ge in Hl, H37.
    destruct (parse_auth_payload auth_payload) as [ap|] eqn:Hpay; pose proof Hpay as E; unfold parse_auth_payload in E;
      rewrite (proj2 (throw_if_ok _ _) H18), bind_ok, (proj2 (throw_if_ok _ _) Hp1), bind_ok,
        (proj2 (throw_if_ok _ _) Hp2), bind_ok in E; [|done].
    exists ap, payer. injection E as <-. cbn [ap_counter]. split; [|by rewrite Hc].
    constructor; cbn [ap_slot ap_counter ap_sysvar_ix_index ap_prefix ap_authenticator_data ap_client_data_json];
      try exact Hpay; rewrite ?Hc; try done; try lia; try (unfold MAX_SLOT_AGE in *; lia).
    + by exists sv.
    + by apply Nat.eqb_neq.
  - intros (ap & payer & A & ->). destruct A as [Hpay Htop Hfr Hst [Hc Hc2] [Hp Hsg] Hty Hch H37 Hup Hrp (sv & Hsv & Hkey) Hci Hpid Hver].
    unfold parse_auth_payload in Hpay. apply bind_inv in Hpay as ([] & H18 & Hpay).
    apply bind_inv in Hpay as ([] & Hp1 & Hpay). apply bind_inv in Hpay as ([] & Hp2 & Hpay).
    match type of Hpay with Ok ?x = Ok ap => assert (x = ap) as <- by congruence end.
    cbn [ap_slot ap_counter ap_sysvar_ix_index ap_prefix ap_authenticator_data ap_client_data_json] in *.
    assert (Hn : next_counter (header_counter auth_data) = Ok (le_combine (slice 8 12 auth_payload))) by (by apply next_counter_ok).
    rewrite throw_if_ok in H18, Hp1, Hp2. unfold MAX_SLOT_AGE in Hfr.
    unfold authenticate, HEADER_SIZE, MAX_SLOT_AGE.
    do 5 pass. rewrite Hn, bind_ok. pass. pass. rewrite Hp. cbn [of_option]. rewrite bind_ok. pass. pass. pass.
    rewrite Hty, bind_ok. pass. rewrite Hch, bind_ok. pass. rewrite AuthDataParser_ok, bind_ok by done.
    rewrite user_present_bit. pass. pass. rewrite Hsv. cbn [of_option]. rewrite bind_ok. pass. pass. pass.
    by rewrite Hver, bind_ok.
Qed.
End accepted.

(** ** One assertion, one request *)
Section binding.
Context `{K : Kit}.

Lemma length_ap_prefix b ap : parse_auth_payload b = Ok ap → length (ap_prefix ap) = 14%nat.
Proof.
  unfold parse_auth_payload. intros ([] & H18%throw_if_ok & H)%bind_inv. apply Nat.ltb_ge in H18.
  apply bind_inv in H as ([] & _ & H). apply bind_inv in H as ([] & _ & H).
  match type of H with Ok ?x = _ => assert (x = ap) as <- by congruence end. cbn [ap_prefix]. rewrite length_slice. lia.
Qed.

Lemma ap_counter_range b ap : parse_auth_payload b = Ok ap → 0 <= ap_counter ap < 2 ^ 32.
Proof.
  unfold parse_auth_payload. intros ([] & H18%throw_if_ok & H)%bind_inv. apply Nat.ltb_ge in H18.
  apply bind_inv in H as ([] & _ & H). apply bind_inv in H as ([] & _ & H).
  match type of H with Ok ?x = _ => assert (x = ap) as <- by congruence end. cbn [ap_counter].
  apply (le_combine_range 4). rewrite length_slice. lia.
Qed.

Lemma length_header_wallet d : (145 <= length d)%nat → length (header_wallet d) = 32%nat.
Proof. intros H. unfold header_wallet. rewrite length_slice. lia. Qed.

Lemma preimage_inj d d' p p' s s' y y' w w' c c' g g' :
  length d = length d' → length p = length p' → length (ai_key y) = length (ai_key y') → length w = length w' →
  length g = length g' → 0 <= c < 2 ^ 32 → 0 <= c' < 2 ^ 32 →
  request_preimage d p s y w c g = request_preimage d' p' s' y' w' c' g' →
  d = d' ∧ p = p' ∧ s = s' ∧ ai_key y = ai_key y' ∧ w = w' ∧ c = c' ∧ g = g'.
Proof.
  intros Hd Hp Hy Hw Hg Hc Hc' H. unfold request_preimage in H.
  apply app_inj_len in H as [-> H]; [|done]. apply app_inj_len in H as [-> H]; [|done].
  assert (Hs : length s = length s').
  { apply (f_equal length) in H. rewrite !length_app, !length_le_split in H. lia. }
  apply app_inj_len in H as [-> H]; [|done]. apply app_inj_len in H as [-> H]; [|done].
  apply app_inj_len in H as [-> H]; [|done]. apply app_inj_len in H as [Hcc ->]; [|by rewrite !length_le_split].
  apply (le_split_inj 4) in Hcc; [|cbn; lia..]. done.
Qed.

(** C3.  An assertion authorises one request.  If the program accepts the same
    clientDataJSON twice, for any authorities, instructions and accounts, then both
    times it is for the same instruction, the same slot, counter and signed payload,
    the same payer, wallet and program, unless SHA-256 collides on the two. *)
Theorem assertion_authorises_one_request
    (accounts accounts' : list AccountInfo) (auth_data auth_data' auth_payload auth_payload' signed_payload signed_payload' : bytes)
    (disc disc' : Z) (program_id program_id' : bytes) (height height' now now' : Z) (ixs ixs' : Instructions)
    (d d' : bytes) (ap ap' : AuthPayload) (payer payer' : AccountInfo) :
  authenticate accounts auth_data auth_payload signed_payload [u8 disc] program_id height now ixs = Ok d →
  authenticate accounts' auth_data' auth_payload' signed_payload' [u8 disc'] program_id' height' now' ixs' = Ok d' →
  parse_auth_payload auth_payload = Ok ap → parse_auth_payload auth_payload' = Ok ap' →
  ap_client_data_json ap = ap_client_data_json ap' →
  accounts !! 0%nat = Some payer → accounts' !! 0%nat = Some payer' →
  length (ai_key payer) = 32%nat → length (ai_key payer') = 32%nat →
  length program_id = 32%nat → length program_id' = 32%nat →
  let x := request_preimage [u8 disc] (ap_prefix ap) signed_payload payer (header_wallet auth_data) (ap_counter ap) program_id in
  let y := request_preimage [u8 disc'] (ap_prefix ap') signed_payload' payer' (header_wallet auth_data') (ap_counter ap') program_id' in
  (sha256 x = sha256 y → x = y) →
  u8 disc = u8 disc' ∧ ap_prefix ap = ap_prefix ap' ∧ signed_payload = signed_payload' ∧ ai_key payer = ai_key payer'
  ∧ header_wallet auth_data = header_wallet auth_data' ∧ ap_counter ap = ap_counter ap' ∧ program_id = program_id'.
Proof.
  intros (ap1 & p1 & A & _)%authenticate_iff (ap2 & p2 & A' & _)%authenticate_iff Hap Hap' Hcdj Hp Hp' L1 L2 L3 L4 x y Hcoll.
  pose proof (ac_payload _ _ _ _ _ _ _ _ _ _ _ A) as E1. rewrite Hap in E1. injection E1 as <-.
  pose proof (ac_payload _ _ _ _ _ _ _ _ _ _ _ A') as E2. rewrite Hap' in E2. injection E2 as <-.
  destruct (ac_payer _ _ _ _ _ _ _ _ _ _ _ A) as [E1 _]. rewrite Hp in E1. injection E1 as <-.
  destruct (ac_payer _ _ _ _ _ _ _ _ _ _ _ A') as [E2 _]. rewrite Hp' in E2. injection E2 as <-.
  pose proof (ac_challenge _ _ _ _ _ _ _ _ _ _ _ A) as C1. pose proof (ac_challenge _ _ _ _ _ _ _ _ _ _ _ A') as C2.
  rewrite <- Hcdj, C1 in C2. assert (Hb : sha256 x = sha256 y) by (apply base64url_inj; by injection C2). specialize (Hcoll Hb).
  apply preimage_inj in Hcoll as (Hd & ? & ? & ? & ? & ? & ?); [|done| | | | |by eapply ap_counter_range..].
  - injection Hd as ->. done.
  - by rewrite (length_ap_prefix _ _ Hap), (length_ap_prefix _ _ Hap').
  - congruence.
  - rewrite !length_header_wallet; [done|by apply (ac_stored _ _ _ _ _ _ _ _ _ _ _ A')|by apply (ac_stored _ _ _ _ _ _ _ _ _ _ _ A)].
  - congruence.
Qed.
End binding.

(** ** No replay *)
Section replay.
Context `{K : Kit}.

(** Everything of a call but the authority's account. *)
Record Attempt := mkAttempt {
  at_accounts : list AccountInfo;
  at_payload : bytes;
  at_signed : bytes;
  at_discriminator : bytes;
  at_program_id : bytes;
  at_height : Z;
  at_slot : Z;
  at_instructions : Instructions;
}.

Definition attempt (auth_data : bytes) (a : Attempt) : result bytes :=
  authenticate (at_accounts a) auth_data (at_payload a) (at_signed a) (at_discriminator a) (at_program_id a)
    (at_height a) (at_slot a) (at_instructions a).

(** The account after a call; a transaction that fails leaves it. *)
Definition after (auth_data : bytes) (a : Attempt) : bytes :=
  match attempt auth_data a with Ok d => d | Throw _ => auth_data end.

(** What a call may not change: everything but the counter. *)
Definition same_authority (d d' : bytes) : Prop :=
  length d = length d' ∧ take 8 d = take 8 d' ∧ drop 12 d = drop 12 d'.

Lemma set_counter d c : (145 <= length d)%nat → 0 <= c < 2 ^ 32 →
  header_counter (set_at 8 (le_split 4 c) d) = c ∧ same_authority d (set_at 8 (le_split 4 c) d).
Proof.
  intros Hl Hc. unfold set_at, same_authority. rewrite length_le_split. change (8 + 4)%nat with 12%nat. split_and!.
  - unfold header_counter. rewrite slice_mid; [by apply le_combine_small| |]; rewrite ?length_le_split, length_take; lia.
  - rewrite !length_app, length_take, length_le_split, length_drop. lia.
  - rewrite take_app_le by (rewrite length_take; lia). by rewrite take_take.
  - rewrite app_assoc, drop_app_len; [done|]. rewrite length_app, length_take, length_le_split. lia.
Qed.

Lemma attempt_counter d a d' : attempt d a = Ok d' → header_counter d' = header_counter d + 1 ∧ same_authority d d'.
Proof.
  intros (ap & payer & A & ->)%authenticate_iff. destruct (ac_counter _ _ _ _ _ _ _ _ _ _ _ A) as [Hc _].
  pose proof (ap_counter_range _ _ (ac_payload _ _ _ _ _ _ _ _ _ _ _ A)) as Hr.
  destruct (set_counter d (ap_counter ap) (ac_stored _ _ _ _ _ _ _ _ _ _ _ A) Hr) as [-> ?]. by rewrite <- Hc.
Qed.

Lemma same_authority_refl d : same_authority d d.
Proof. done. Qed.

Lemma same_authority_trans a b c : same_authority a b → same_authority b c → same_authority a c.
Proof. intros (? & ? & ?) (? & ? & ?). split_and!; congruence. Qed.

(** What can happen to a passkey authority's account: a call, whose transaction may
    still fail and leave the account as it was; a write of policy state, which lies
    behind the 145 bytes of header and key material; and the removal of the authority
    and its creation anew, with any data. *)
Inductive Event :=
  | Call (a : Attempt) (landed : bool)
  | PolicyWrite (policy : bytes)
  | Recreated (data : bytes).

Definition happens (d : bytes) (e : Event) : bytes :=
  match e with
  | Call a landed => if landed then after d a else d
  | PolicyWrite policy => take 145 d ++ policy
  | Recreated data => data
  end.

Definition recreates (e : Event) : bool := match e with Recreated _ => true | _ => false end.

(** The number of calls of a history that are accepted and land. *)
Fixpoint accepted_count (d : bytes) (l : list Event) : Z :=
  match l with
  | [] => 0
  | e :: l => match e with Call a true => if is_ok (attempt d a) then 1 else 0 | _ => 0 end + accepted_count (happens d e) l
  end.

(** What no event short of a removal changes: the header but for its counter, and the
    key material. *)
Definition same_keys (d d' : bytes) : Prop := take 8 d = take 8 d' ∧ slice 12 145 d = slice 12 145 d'.

Lemma same_authority_keys d d' : same_authority d d' → same_keys d d'.
Proof. intros (_ & H1 & H2). split; [done|]. unfold slice. by rewrite H2. Qed.

Lemma same_keys_trans a b c : same_keys a b → same_keys b c → same_keys a c.
Proof. intros [] []. split; congruence. Qed.

Lemma policy_write d p : (145 <= length d)%nat →
  (145 <= length (take 145 d ++ p))%nat ∧ header_counter (take 145 d ++ p) = header_counter d ∧ same_keys d (take 145 d ++ p).
Proof.
  intros Hl. assert (Hs : ∀ i j, (j <= 145)%nat → slice i j (take 145 d ++ p) = slice i j d).
  { intros i j Hj. unfold slice. destruct (Nat.le_gt_cases i j) as [Hij|Hij]; [|by replace (j - i)%nat with 0%nat by lia].
    rewrite drop_app_le by (rewrite length_take; lia). rewrite take_app_le by (rewrite length_drop, length_take; lia).
    rewrite skipn_firstn_comm, take_take. f_equal. lia. }
  split_and!; [rewrite length_app, length_take; lia|unfold header_counter; by rewrite Hs by lia|split; [|by rewrite Hs]].
  rewrite take_app_le by (rewrite length_take; lia). by rewrite take_take.
Qed.

Lemma one_event d e : (145 <= length d)%nat → recreates e = false →
  (145 <= length (happens d e))%nat ∧ header_counter (happens d e) = header_counter d + accepted_count d [e] ∧ same_keys d (happens d e).
Proof.
  intros Hl He. destruct e as [a landed|p|]; [|destruct (policy_write d p Hl) as (? & Hc & ?); cbn [happens accepted_count]; split_and!; [done|lia|done]|done].
  cbn [happens accepted_count]. destruct landed; [|split_and!; [done|lia|done]]. unfold after.
  destruct (attempt d a) as [d'|] eqn:E; cbn [is_ok]; [|split_and!; [done|lia|done]].
  destruct (attempt_counter _ _ _ E) as [Hc Hs]. split_and!; [by rewrite <- (proj1 Hs)|lia|by apply same_authority_keys].
Qed.

Lemma history l d : (145 <= length d)%nat → forallb (λ e, negb (recreates e)) l = true →
  (145 <= length (fold_left happens l d))%nat ∧ header_counter (fold_left happens l d) = header_counter d + accepted_count d l
  ∧ 0 <= accepted_count d l ∧ same_keys d (fold_left happens l d).
Proof.
  revert d. induction l as [|e l IH]; intros d Hl Hn; [cbn; split_and!; [done|lia|lia|done]|].
  cbn [forallb] in Hn. apply andb_prop in Hn as [He%negb_true_iff Hn].
  destruct (one_event d e Hl He) as (Hl' & Hc & Hs). destruct (IH (happens d e) Hl' Hn) as (H1 & H2 & H3 & H4).
  cbn [fold_left accepted_count] in *. split_and!; [done|lia| |by eapply same_keys_trans].
  destruct e as [? []| |]; try lia. destruct (is_ok _); lia.
Qed.

(** C4.  A signature is spent once.  An accepted call advances the authority's counter by
    one and changes nothing else of it.  As long as the authority is not removed, over
    any history of calls, failed transactions and policy writes, the counter advances by
    one for each call accepted and the keys stay; and the auth payload of a call that
    landed is refused ever after, whatever else of the transaction changes around it.
    If the authority has been removed and created anew since, a payload is only accepted
    again within the 150 slots its signature lives. *)
Theorem assertion_accepted_once (l : list Event) (a b : Attempt) (d d1 : bytes) :
  attempt d a = Ok d1 →
  header_counter d1 = header_counter d + 1 ∧ same_authority d d1
  ∧ (forallb (λ e, negb (recreates e)) l = true →
       header_counter (fold_left happens l d1) = header_counter d1 + accepted_count d1 l
       ∧ same_keys d1 (fold_left happens l d1)
       ∧ (at_payload b = at_payload a → is_ok (attempt (fold_left happens l d1) b) = false))
  ∧ (at_payload b = at_payload a → is_ok (attempt (fold_left happens l d1) b) = true → at_slot b < at_slot a + MAX_SLOT_AGE).
Proof.
  intros Ha. destruct (attempt_counter _ _ _ Ha) as [Hc Hs]. split_and!; [done|done| |].
  - intros Hn. assert (Hl : (145 <= length d1)%nat).
    { rewrite <- (proj1 Hs). apply authenticate_iff in Ha as (ap & payer & A & _). exact (ac_stored _ _ _ _ _ _ _ _ _ _ _ A). }
    destruct (history l d1 Hl Hn) as (_ & H1 & H2 & H3). split_and!; [done|done|]. intros Hp.
    destruct (attempt (fold_left happens l d1) b) as [d2|] eqn:Hb; [exfalso|done].
    apply authenticate_iff in Ha as (ap & payer & A & _), Hb as (ap' & payer' & B & _).
    pose proof (ac_payload _ _ _ _ _ _ _ _ _ _ _ A) as E1. pose proof (ac_payload _ _ _ _ _ _ _ _ _ _ _ B) as E2.
    rewrite Hp, E1 in E2. injection E2 as <-.
    destruct (ac_counter _ _ _ _ _ _ _ _ _ _ _ A) as [C1 _], (ac_counter _ _ _ _ _ _ _ _ _ _ _ B) as [C2 _]. lia.
  - intros Hp Hb. destruct (attempt (fold_left happens l d1) b) as [d2|] eqn:Eb; [|done].
    apply authenticate_iff in Ha as (ap & payer & A & _), Eb as (ap' & payer' & B & _).
    pose proof (ac_payload _ _ _ _ _ _ _ _ _ _ _ A) as E1. pose proof (ac_payload _ _ _ _ _ _ _ _ _ _ _ B) as E2.
    rewrite Hp, E1 in E2. injection E2 as <-.
    pose proof (ac_fresh _ _ _ _ _ _ _ _ _ _ _ A). pose proof (ac_fresh _ _ _ _ _ _ _ _ _ _ _ B). lia.
Qed.
End replay.

(** ** Who can execute *)
Section consent.
Context `{K : Kit}.

Definition signed_by (infos : list AccountInfo) (key : bytes) : Prop :=
  ∃ i, i ∈ infos ∧ ai_is_signer i = true ∧ ai_key i = key.

Lemma signer_found infos key :
  existsb (λ i, ai_is_signer i && bytesEqual (ai_key i) key) infos = true ↔ signed_by infos key.
Proof. rewrite existsb_Exists. unfold signed_by. setoid_rewrite andb_true_iff. by setoid_rewrite bytesEqual_spec. Qed.

(** Why an Execute on [wallet] with the authority account [data] may run. *)
Definition consent (infos : list AccountInfo) (payer : AccountInfo) (wallet data instruction_data program_id : bytes)
    (height slot : Z) (ixs : Instructions) (a : Authorised) : Prop :=
  match a with
  | ByEd25519 => header_wallet data = wallet ∧ signed_by infos (slice 48 80 data)
  | BySession key => slice 8 40 data = wallet ∧ slot <= le_combine (slice 72 80 data) ∧ key = slice 40 72 data
                     ∧ signed_by infos key
  | ByPasskey data' => header_wallet data = wallet ∧ ∃ cs n pre ap,
      parse_compact_instructions instruction_data = Ok (cs, n) ∧ accounts_hash_preimage infos cs = Ok pre
      ∧ Accepted infos data (drop n instruction_data) (take n instruction_data ++ sha256 pre) [u8 4] program_id
          height slot ixs ap payer
      ∧ data' = set_at 8 (le_split 4 (ap_counter ap)) data
  end.

(** C2.  No Execute without consent.  When the program passes the authentication of an
    Execute, it was called at the top level, its payer signed, the wallet and the
    authority account belong to the program, and the authority account names this
    wallet and is one of: an Ed25519 authority whose key signed the transaction; an
    unexpired session whose key signed it; or a passkey authority whose key made,
    with the user present and for the stored relying party, an assertion over exactly
    these inner instructions and accounts, this payer, wallet, counter and program. *)
Theorem execute_needs_consent (accounts : list Loaded) (instruction_data program_id : bytes) (height slot : Z)
    (ixs : Instructions) (a : Authorised) :
  execute_authorised accounts instruction_data program_id height slot ixs = Ok a →
  height <= 1 ∧ ∃ payer wallet authority vault,
    take 4 accounts = [payer; wallet; authority; vault]
    ∧ ai_is_signer (ld_info payer) = true
    ∧ ld_owner wallet = program_id ∧ ld_owner authority = program_id
    ∧ consent (ld_info <$> accounts) (ld_info payer) (ai_key (ld_info wallet)) (ld_data authority) instruction_data
        program_id height slot ixs a.
Proof.
  unfold execute_authorised. intros H.
  apply bind_inv in H as ([] & Hh%throw_if_ok & H). apply bind_inv in H as (payer & Hp%of_option_ok & H).
  apply bind_inv in H as ([] & Hsg%throw_if_ok & H). apply bind_inv in H as (wallet & Hw%of_option_ok & H).
  apply bind_inv in H as (authority & Ha%of_option_ok & H). apply bind_inv in H as (vault & Hv%of_option_ok & H).
  apply bind_inv in H as ([] & Ho%throw_if_ok & H). apply bind_inv in H as ([] & _ & H).
  apply bind_inv in H as ([] & _ & H). apply bind_inv in H as ([] & _ & H).
  apply bind_inv in H as ([cs n] & Hparse & H).
  apply orb_false_iff in Ho as [Ho1 Ho2]. rewrite negb_false_iff, bytesEqual_spec in Ho1, Ho2.
  apply negb_false_iff in Hsg. split; [lia|]. exists payer, wallet, authority, vault. split_and!; [|done|done|done|].
  { clear -Hp Hw Ha Hv. destruct accounts as [|? [|? [|? [|]]]]; try done. by simplify_eq/=. }
  set (infos := ld_info <$> accounts) in *. set (data := ld_data authority) in *.
  destruct (_ =? Disc_Authority).
  - apply bind_inv in H as ([] & _ & H). apply bind_inv in H as ([] & Hwal%throw_if_ok & H).
    rewrite negb_false_iff, bytesEqual_spec in Hwal.
    destruct (_ =? 0).
    { apply bind_inv in H as ([] & He & [= <-]). split; [done|]. unfold ed25519_authenticate in He.
      apply bind_inv in He as ([] & _ & He). apply bind_inv in He as ([] & He%throw_if_ok & _).
      by apply negb_false_iff, signer_found in He. }
    destruct (_ =? 1); [|done]. apply bind_inv in H as (pre & Hpre & H).
    destruct (authenticate _ _ _ _ _ _ _ _ _) as [d|] eqn:E; [|done]. injection H as <-.
    apply authenticate_iff in E as (ap & p & A & ->). split; [done|]. exists cs, n, pre, ap. split_and!; [done|done| |done].
    destruct (ac_payer _ _ _ _ _ _ _ _ _ _ _ A) as [Ep _]. subst infos. rewrite list_lookup_fmap, Hp in Ep. by injection Ep as <-.
  - destruct (_ =? Disc_Session); [|done]. apply bind_inv in H as ([] & _ & H). apply bind_inv in H as ([] & _ & H).
    apply bind_inv in H as ([] & Hwal%throw_if_ok & H). apply bind_inv in H as ([] & Hexp%throw_if_ok & H).
    apply bind_inv in H as ([] & Hk%throw_if_ok & [= <-]). rewrite negb_false_iff, bytesEqual_spec in Hwal.
    apply negb_false_iff, signer_found in Hk. split_and!; [done|lia|done|done].
Qed.
End consent.

(** ** The SDK's Execute is accepted *)
Section accepts.
Context `{KL : KitLaws}.
Variable programId : address.

(** What an authenticator answers a request with: client data over the challenge and
    its hash, and authenticator data of the relying party with the user present. *)
Definition genuine_response (p : PreparedSecp256r1) (rpIdHash : bytes) (r : WebAuthnResponse) : Prop :=
  (∃ rest, r_clientDataJson r = collected (base64url_encode_no_pad (Signing.challenge p)) rest)
  ∧ r_clientDataJsonHash r = sha256 (r_clientDataJson r)
  ∧ (37 <= length (r_authenticatorData r))%nat
  ∧ Z.testbit (val (r_authenticatorData r !!! 32%nat)) 0 = true
  ∧ slice 0 32 (r_authenticatorData r) = rpIdHash.

(** The authority's account holds the passkey the request was prepared for. *)
Record StoredPasskey (auth_data : bytes) (wallet : address) (key rpIdHash : bytes) (counter : Z) : Prop := {
  sp_length : (145 <= length auth_data)%nat;
  sp_disc : val (auth_data !!! 0%nat) = Disc_Authority;
  sp_type : val (auth_data !!! 1%nat) = 1;
  sp_version : val (auth_data !!! 4%nat) = CURRENT_ACCOUNT_VERSION;
  sp_counter : header_counter auth_data = counter;
  sp_wallet : header_wallet auth_data = address_encode wallet;
  sp_key : stored_pubkey auth_data = key;
  sp_rp : stored_rp_id_hash auth_data = rpIdHash;
}.

Lemma stored_checked d wallet key rp counter : StoredPasskey d wallet key rp counter → AuthorityAccountHeader_check d = Ok ().
Proof.
  intros [Hl Hd _ Hv]. unfold AuthorityAccountHeader_check, check_header, HEADER_SIZE.
  rewrite pass_throw by (apply Nat.ltb_ge; lia). rewrite pass_throw by (by rewrite Hd). rewrite pass_throw by (by rewrite Hv). done.
Qed.

Definition entry_of (ix : Instruction) : bytes * bytes := (address_encode (programAddress ix), data ix).

(** The finalized payload and precompile instruction are accepted. *)
Lemma finalized_accepted infos auth_data p rpIdHash r ap pix sp disc wallet counter slot payer sysvar ixs :
  finalizeSecp256r1 p r = Ok (ap, pix) → genuine_response p rpIdHash r → fresh p counter slot →
  StoredPasskey auth_data wallet (p_publicKeyBytes p) rpIdHash counter →
  infos !! 0%nat = Some payer → ai_is_signer payer = true → 0 <= p_sysvarIxIndex p < 256 →
  infos !! Z.to_nat (p_sysvarIxIndex p) = Some sysvar → ai_key sysvar = address_encode SYSVAR_INSTRUCTIONS_ADDRESS →
  in_current_index ixs ≠ 0%nat → in_instructions ixs !!! (in_current_index ixs - 1)%nat = entry_of pix →
  Signing.challenge p = sha256 (request_preimage disc (buildAuthPayloadPrefix (p_slot p) (p_counter p) (p_sysvarIxIndex p)) sp
    payer (address_encode wallet) (p_counter p) (address_encode programId)) →
  authenticate infos auth_data ap sp disc (address_encode programId) 1 slot ixs
  = Ok (set_at 8 (le_split 4 (counter + 1)) auth_data).
Proof.
  intros Hf ((rest & Hcdj) & Hhash & H37 & Hup & Hrp) (Hc & Hcr & Hsr & Hs) S Hp Hsg Hsv Hsys Hkey Hci Hix Hch.
  assert (Hcl : (0 < length (r_clientDataJson r))%nat) by (rewrite Hcdj; unfold collected; cbn; lia).
  assert (Hpay : parse_auth_payload ap = Ok (mkAuthPayload (p_slot p) (p_counter p) (p_sysvarIxIndex p)
    (buildAuthPayloadPrefix (p_slot p) (p_counter p) (p_sysvarIxIndex p)) (r_authenticatorData r) (r_clientDataJson r))).
  { unfold finalizeSecp256r1 in Hf. apply bind_inv in Hf as (ap' & Hb & Hf). apply bind_inv in Hf as (pix' & _ & [= -> ->]).
    pose proof Hb as Hb'. unfold buildAuthPayload in Hb'. apply bind_inv in Hb' as ([] & L1%throw_if_ok & Hb').
    apply bind_inv in Hb' as ([] & L2%throw_if_ok & _). apply Z.ltb_ge in L1, L2.
    destruct (auth_payload_roundtrip (p_slot p) (p_counter p) (p_sysvarIxIndex p) (r_authenticatorData r) (r_clientDataJson r))
      as (b & Hb2 & Hparse); [lia..|]. rewrite Hb in Hb2. by injection Hb2 as ->. }
  destruct (precompile_accepted p r ap pix Hf) as (Hpa & _ & Hver); [rewrite Hhash; apply sha256_length|].
  destruct (extract_collected (base64url_encode_no_pad (Signing.challenge p)) rest (base64url_plain _)) as [Hty Hcv].
  apply authenticate_iff. match type of Hpay with _ = Ok ?q => exists q, payer end.
  split; [|cbn [ap_counter]; by rewrite Hc].
  constructor; cbn [ap_slot ap_counter ap_sysvar_ix_index ap_prefix ap_authenticator_data ap_client_data_json];
    try exact Hpay; try done; rewrite ?(sp_counter _ _ _ _ _ S), ?(sp_wallet _ _ _ _ _ S), ?(sp_rp _ _ _ _ _ S),
    ?(sp_key _ _ _ _ _ S), ?Hcdj; try done; try lia; rewrite ?Hix; try done.
  - by apply S.
  - by rewrite Hcv, Hch.
  - by exists sysvar.
  - cbn [fst entry_of]. by rewrite Hpa.
  - cbn [snd entry_of]. by rewrite <- Hcdj, <- Hhash.
Qed.

(** The accounts of the instruction as the runtime loads them: the wallet and the
    authority's account belong to the program. *)
Definition loads (accounts : list Loaded) (infos : list AccountInfo) (program_id auth_data : bytes) : Prop :=
  ld_info <$> accounts = infos
  ∧ (∃ w, accounts !! 1%nat = Some w ∧ ld_owner w = program_id ∧ WalletAccount_check (ld_data w) = Ok ())
  ∧ (∃ a, accounts !! 2%nat = Some a ∧ ld_owner a = program_id ∧ ld_data a = auth_data).

(** C1.  A passkey's Execute goes through.  When a client prepares and finalizes an
    Execute with what an authenticator answers to its challenge, and the returned
    instructions are the transaction, the program, on the account of that passkey with
    the counter the SDK read and within 150 slots, finds the compact instructions,
    rebuilds the accounts hash and the challenge, finds it in the client data, the
    precompile instruction right before its own, and authorises the Execute; it commits
    the next counter and changes nothing else of the authority. *)
Theorem execute_accepted (env : Env) (fees : bool) (payer wallet : address)
    (params : Secp256r1Params) (ixs : list Instruction) (feePayer : option address)
    (c c' : client) (prepared : PreparedExecute) (r : WebAuthnResponse) (out : list Instruction)
    (counter slot : Z) (auth_data rpIdHash : bytes) :
  prepareExecute env programId fees payer wallet params ixs feePayer c = (c', Ok prepared) →
  finalizeExecute prepared r = Ok out →
  (length ixs <= MAX_COMPACT_INSTRUCTIONS)%nat → Forall fits ixs →
  no_fee_alias (pe_protocolFee prepared)
    (executeFixed payer wallet (pe_authorityPda prepared) (pe_vaultPda prepared) ++ pe_remainingAccounts prepared) →
  fresh (pe_signing prepared) counter slot →
  genuine_response (pe_signing prepared) rpIdHash r →
  StoredPasskey auth_data wallet (p_publicKeyBytes (pe_signing prepared)) rpIdHash counter →
  ∃ ix infos,
    last out = Some ix ∧ head (data ix) = Some (u8 4)
    ∧ processor_accounts fees (runtime_info (tx_metas out (default payer feePayer)) <$> accounts ix) = Ok infos
    ∧ ∀ loaded, loads loaded infos (address_encode programId) auth_data →
        execute_authorised loaded (tail (data ix)) (address_encode programId) 1 slot
          (mkInstructions (entry_of <$> out) (length out - 1))
        = Ok (ByPasskey (set_at 8 (le_split 4 (counter + 1)) auth_data)).
Proof.
  intros Hprep Hfin Hn Hfits Halias Hfresh Hgen S.
  destruct (execute_finalized programId _ _ _ _ _ _ _ _ _ _ _ _ Hprep Hfin Hn Hfits Halias)
    as (before & pix & ix & ap & packed & cs & pre & Hout & Hhead & Hf & Hsv & Hacc & Hsg & Hwr & Hdata & Hparse & Hpre & Hch).
  set (tx := tx_metas out (default payer feePayer)) in *.
  set (metas := executeFixed payer wallet (pe_authorityPda prepared) (pe_vaultPda prepared) ++ pe_remainingAccounts prepared) in *.
  exists ix, (runtime_info tx <$> metas). split; [by rewrite Hout, last_app|]. split; [done|]. split; [exact Hacc|].
  intros loaded (Hinfos & (w & Hw & How & Hwc) & (a & Ha & Hoa & Hda)).
  destruct loaded as [|lp [|lw [|la [|lv rest]]]]; try done. cbn in Hw, Ha. injection Hw as ->. injection Ha as ->.
  pose proof Hinfos as Hi. cbn in Hi. injection Hi as Hip Hiw Hia _.
  unfold execute_authorised. rewrite pass_throw by done. cbn [lookup list_lookup of_option]. rewrite bind_ok, Hip.
  rewrite pass_throw by (cbn [runtime_info ai_is_signer m_address]; by rewrite Hsg). rewrite !bind_ok.
  rewrite pass_throw by (by rewrite How, Hoa, bytesEqual_refl). rewrite Hwc, bind_ok.
  rewrite pass_throw by (rewrite Hia; cbn [runtime_info ai_is_writable m_address]; by rewrite Hwr).
  pose proof (sp_length _ _ _ _ _ S) as Hl. rewrite Hda.
  rewrite pass_throw by (apply Nat.eqb_neq; lia). rewrite Hdata, Hparse, bind_ok, (sp_disc _ _ _ _ _ S), (sp_type _ _ _ _ _ S).
  change (Disc_Authority =? Disc_Authority) with true. cbn iota.
  rewrite (stored_checked _ _ _ _ _ S).
  rewrite bind_ok, Hiw. rewrite pass_throw by (rewrite (sp_wallet _ _ _ _ _ S); cbn; by rewrite bytesEqual_refl).
  change (1 =? 0) with false. change (1 =? 1) with true. cbn iota. rewrite Hinfos, Hpre, bind_ok, drop_app_len, take_app_len by done.
  erewrite finalized_accepted; [|exact Hf|exact Hgen|exact Hfresh|exact S|done|done|lia|by rewrite Hsv|done| | |exact Hch];
    [done| |].
  - cbn [in_current_index]. rewrite Hout, length_app. cbn. lia.
  - cbn [in_current_index in_instructions]. rewrite Hout, fmap_app, !fmap_cons, length_app. cbn [length].
    replace (length before + 2 - 1 - 1)%nat with (length (entry_of <$> before)) by (rewrite length_fmap; lia).
    by rewrite list_lookup_total_middle.
Qed.
End accepts.

(** ** Examples *)
Module AuthSample.
Import ConcreteKit Sample.

(** The sample authority with the relying party of a passkey; its counter is 7. *)
Definition rp : bytes := replicate 32 (u8 77).
Definition account : bytes := authority_account ++ rp.
Definition wallet_account : bytes := [u8 Disc_Wallet; u8 255; u8 1; u8 0; u8 1; u8 0; u8 0; u8 0].

(** What the passkey answers to a challenge. *)
Definition auth_bytes : bytes := rp ++ u8 5 :: zeros 4.
Definition client_data (challenge : bytes) : bytes := collected (base64url_encode_no_pad challenge) (lit "}").
Definition answer (p : PreparedSecp256r1) : WebAuthnResponse :=
  let cdj := client_data (Signing.challenge p) in mkResponse (zeros 64) auth_bytes (sha256 cdj) cdj.

Lemma answer_genuine p : genuine_response p rp (answer p).
Proof. split_and!; [by eexists|done|apply Nat.leb_le; reflexivity|done|done]. Qed.

Lemma account_stored : StoredPasskey account wallet (replicate 33 (u8 6)) rp 7.
Proof. constructor; vm_compute; try reflexivity. Qed.

Definition load (infos : list AccountInfo) : list Loaded :=
  match infos with
  | p :: w :: a :: rest =>
    mkLoaded p [] [] :: mkLoaded w (address_encode program) wallet_account :: mkLoaded a (address_encode program) account
    :: ((λ i, mkLoaded i [] []) <$> rest)
  | _ => []
  end.

Lemma load_loads infos : (3 <= length infos)%nat → loads (load infos) infos (address_encode program) account.
Proof.
  intros H. destruct infos as [|p [|w [|a rest]]]; cbn in H; try lia. cbn [load]. split_and!.
  - rewrite !fmap_cons. cbn [ld_info]. do 3 f_equal. rewrite <- list_fmap_compose. apply list_fmap_id.
  - eexists. split; [reflexivity|]. split; [done|]. vm_compute. reflexivity.
  - eexists. split; [reflexivity|]. done.
Qed.

(** A call that does nothing but authenticate, at counter [c]. *)
Definition infos : list AccountInfo :=
  [mkInfo (address_encode payer) true true; mkInfo (address_encode wallet) false false; mkInfo (address_encode (at_byte 30)) false true;
   mkInfo (address_encode (at_byte 31)) false true; mkInfo (address_encode SYSVAR_INSTRUCTIONS_ADDRESS) false false].
Definition signed : bytes := u8 0 :: sha256 [].
Definition prefix (c : Z) : bytes := buildAuthPayloadPrefix 1000 c 4.
Definition cdj (c : Z) : bytes :=
  client_data (sha256 (request_preimage [u8 4] (prefix c) signed (mkInfo (address_encode payer) true true) (address_encode wallet) c
                         (address_encode program))).
Definition payload_at (c : Z) : bytes := auth_payload_bytes 1000 c 4 auth_bytes (cdj c).
Definition transaction (c : Z) : Instructions :=
  mkInstructions [(address_encode SECP256R1_PROGRAM_ADDRESS, precompileData (replicate 33 (u8 6)) (auth_bytes ++ sha256 (cdj c)) (zeros 64));
                  (address_encode program, [])] 1.
Definition call (c : Z) : Attempt := mkAttempt infos (payload_at c) signed [u8 4] (address_encode program) 1 1001 (transaction c).
Definition at_counter (c : Z) : bytes := set_at 8 (le_split 4 c) account.
End AuthSample.

Import ConcreteKit Sample AuthSample.

Lemma assertion_accepted_once_witness :
  attempt account (call 8) = Ok (at_counter 8) ∧ attempt (at_counter 8) (call 9) = Ok (at_counter 9)
  ∧ is_ok (attempt (fold_left happens [Call (call 9) true; PolicyWrite [u8 1]] (at_counter 8)) (call 8)) = false
  ∧ at_slot (call 8) < at_slot (call 8) + MAX_SLOT_AGE.
Proof.
  assert (H : attempt account (call 8) = Ok (at_counter 8)) by (vm_compute; reflexivity).
  split; [exact H|]. split; [vm_compute; reflexivity|]. split.
  - exact (proj2 (proj2 (proj1 (proj2 (proj2 (assertion_accepted_once [Call (call 9) true; PolicyWrite [u8 1]] (call 8) (call 8) account (at_counter 8) H))) eq_refl)) eq_refl).
  - refine (proj2 (proj2 (proj2 (assertion_accepted_once [Recreated account] (call 8) (call 8) account (at_counter 8) H))) eq_refl _).
    vm_compute. reflexivity.
Defined.

(** The same assertion for two authority accounts, of different roles: of one wallet. *)
Lemma assertion_authorises_one_request_witness :
  let other := set_at 2 [u8 2] account in
  authenticate infos account (payload_at 8) signed [u8 4] (address_encode program) 1 1001 (transaction 8) = Ok (at_counter 8)
  ∧ authenticate infos other (payload_at 8) signed [u8 4] (address_encode program) 1 1002 (transaction 8)
    = Ok (set_at 2 [u8 2] (at_counter 8))
  ∧ other ≠ account ∧ header_wallet account = header_wallet other.
Proof.
  intros other.
  assert (H : authenticate infos account (payload_at 8) signed [u8 4] (address_encode program) 1 1001 (transaction 8) = Ok (at_counter 8))
    by (vm_compute; reflexivity).
  assert (H' : authenticate infos other (payload_at 8) signed [u8 4] (address_encode program) 1 1002 (transaction 8)
    = Ok (set_at 2 [u8 2] (at_counter 8))) by (vm_compute; reflexivity).
  split; [exact H|]. split; [exact H'|]. split; [by vm_compute|].
  assert (E : ∃ ap, parse_auth_payload (payload_at 8) = Ok ap) by (eexists; vm_compute; reflexivity). destruct E as [ap E].
  exact (proj1 (proj2 (proj2 (proj2 (proj2 (assertion_authorises_one_request infos infos account other (payload_at 8) (payload_at 8)
    signed signed 4 4 (address_encode program) (address_encode program) 1 1 1001 1002 (transaction 8) (transaction 8) _ _ ap ap
    (mkInfo (address_encode payer) true true) (mkInfo (address_encode payer) true true)
    H H' E E eq_refl eq_refl eq_refl eq_refl eq_refl eq_refl eq_refl (λ _, eq_refl))))))).
Defined.

(** An Execute of no inner instruction, at the account's next counter. *)
Lemma execute_needs_consent_witness :
  execute_authorised (load infos) (u8 0 :: payload_at 8) (address_encode program) 1 1001 (transaction 8) = Ok (ByPasskey (at_counter 8))
  ∧ (1 <= 1).
Proof.
  assert (H : execute_authorised (load infos) (u8 0 :: payload_at 8) (address_encode program) 1 1001 (transaction 8)
    = Ok (ByPasskey (at_counter 8))) by (vm_compute; reflexivity).
  split; [exact H|]. exact (proj1 (execute_needs_consent _ _ _ _ _ _ _ H)).
Defined.

Lemma execute_accepted_witness :
  ∃ c' prepared out ix infos,
    prepareExecute node program true payer wallet params [inner] None new_client = (c', Ok prepared)
    ∧ finalizeExecute prepared (answer (pe_signing prepared)) = Ok out
    ∧ last out = Some ix
    ∧ execute_authorised (load infos) (tail (data ix)) (address_encode program) 1 1001
        (mkInstructions (entry_of <$> out) (length out - 1)) = Ok (ByPasskey (at_counter 8)).
Proof.
  destruct (returns_inv
    (prepareExecute node program true payer wallet params [inner] None new_client)
    (λ p, sample_fresh (pe_signing p) &&
          alias_free (pe_protocolFee p) (@executeFixed kit payer wallet (pe_authorityPda p) (pe_vaultPda p)
                                         ++ pe_remainingAccounts p)
          && bytesEqual (p_publicKeyBytes (pe_signing p)) (replicate 33 (u8 6))
          && match finalizeExecute p (answer (pe_signing p)) with
             | Ok out => match last out with
                         | Some ix => match processor_accounts true (runtime_info (tx_metas out payer) <$> accounts ix) with
                                      | Ok infos => (3 <=? length infos)%nat
                                      | _ => false end
                         | _ => false end
             | _ => false end))
    as (c' & p & E & [[[Hfr Hal]%andb_prop Hkey%bytesEqual_spec]%andb_prop Hfin]%andb_prop); [vm_compute; reflexivity|].
  destruct (finalizeExecute p (answer (pe_signing p))) as [out|] eqn:F; [|discriminate Hfin].
  pose proof account_stored as S. rewrite <- Hkey in S.
  destruct (@execute_accepted kit kit_laws program node true payer wallet params [inner] None _ _
    p (answer (pe_signing p)) out 7 1001 account rp E F (proj1 (Nat.leb_le 1 16) eq_refl)
    inner_fits (alias_free_ok _ _ Hal) (sample_fresh_ok _ Hfr) (answer_genuine _) S) as (ix & infos & Hl & _ & Hacc & Hx).
  exists c', p, out, ix, infos. split; [exact E|]. split; [exact F|]. split; [exact Hl|].
  rewrite Hl in Hfin. cbn [default] in Hacc. rewrite Hacc in Hfin. apply Nat.leb_le in Hfin.
  exact (Hx _ (load_loads infos Hfin)).
Defined.
