(* ===== verification/ProgramHandlers.v ===== *)
(** * Whole instructions of the program

    Models Authorize (src/program/src/processor/execute/authorize.rs), ExecuteDeferred
    (processor/execute/deferred.rs), CreateSession (processor/session/create.rs) and
    AddAuthority (processor/authority/manage.rs), every check and write of them, over
    accounts as the runtime loads them, with the runtime's refusal to change an account
    given read-only.  The system program's verdict on creating an account is a parameter.  The calls ExecuteDeferred makes are its result, not their
    effects.  The theorems run what the SDK finalizes through them. *)
From S2P Require Import Prelude Bytes Kit Constants JsMap Pdas Actions Json Packing Compact Builders.
From S2P Require Import Signing Accounts ChallengeReads Ownership ClientHelpers Client.
From S2P Require Import ClientOps Samples ClientProps ProgramActions ProgramChallenges EndToEnd EndToEndManage ProgramWebauthn ProgramAuth.
Local Open Scope Z_scope.

(** ** Creating an account *)

(** What an account to create holds already, the rent it needs, and whether the system
    program carries out the transfer, the allocation and the assignment. *)
Record Funding := mkFunding { fu_balance : Z; fu_rent : Z; fu_created : bool }.

Section handlers.
Context `{K : Kit}.
Variable program_id : address.

(** [initialize_pda_account].  The runtime refuses a call that makes writable what the
    caller holds read-only: the payer of a transfer, and the account itself. *)
Definition initialize_pda_account (fu : Funding) (payer target system_program : AccountInfo) : result unit :=
  (throw! PIncorrectProgramId when negb (bytesEqual (ai_key system_program) (address_encode SYSTEM_PROGRAM_ADDRESS));
   throw! EExternal "privilege escalation" when (fu_balance fu <? fu_rent fu) && negb (ai_is_writable payer);
   throw! EExternal "privilege escalation" when negb (ai_is_writable target);
   throw! EExternal "system program" when negb (fu_created fu);
   Ok ())%js.

(** ** Authorize *)
Definition Disc_DeferredExec : Z := 0x24.
Definition DeferredExecAccount_size : nat := 176.
Definition DeferredExecAccount_check (data : bytes) : result unit :=
  check_header data Disc_DeferredExec (Some 1%nat) DeferredExecAccount_size.

(** [DeferredExecAccount] as it is written. *)
Definition DeferredExecAccount (bump : Z) (instructions_hash accounts_hash wallet authority payer : bytes) (expires_at : Z) : bytes :=
  [u8 Disc_DeferredExec; u8 CURRENT_ACCOUNT_VERSION; u8 bump] ++ zeros 5 ++ instructions_hash ++ accounts_hash
  ++ wallet ++ authority ++ payer ++ le_split 8 expires_at.

Definition header_role (auth_data : bytes) : Z := val (auth_data !!! 2%nat).
Definition header_policy_len (auth_data : bytes) : Z := le_combine (slice 12 14 auth_data).

(** The authority's data and the new account's. *)
Definition authorize (fu : Funding) (accounts : list Loaded) (instruction_data : bytes) (stack_height current_slot : Z)
    (ixs : Instructions) : result (bytes * bytes) :=
  (payer ← of_option PNotEnoughAccountKeys (accounts !! 0%nat);
   wallet_pda ← of_option PNotEnoughAccountKeys (accounts !! 1%nat);
   authority_pda ← of_option PNotEnoughAccountKeys (accounts !! 2%nat);
   deferred_pda ← of_option PNotEnoughAccountKeys (accounts !! 3%nat);
   system_program ← of_option PNotEnoughAccountKeys (accounts !! 4%nat);
   rent_sysvar ← of_option PNotEnoughAccountKeys (accounts !! 5%nat);
   throw! PMissingRequiredSignature when negb (ai_is_signer (ld_info payer));
   throw! PIllegalOwner when negb (bytesEqual (ld_owner wallet_pda) (address_encode program_id))
                             || negb (bytesEqual (ld_owner authority_pda) (address_encode program_id));
   _ ← WalletAccount_check (ld_data wallet_pda);
   throw! PInvalidAccountData when negb (ai_is_writable (ld_info authority_pda));
   throw! PInvalidInstructionData when (length instruction_data <? 66)%nat;
   let instructions_hash := slice 0 32 instruction_data in
   let accounts_hash := slice 32 64 instruction_data in
   let expiry_offset := le_combine (slice 64 66 instruction_data) in
   let auth_payload := drop 66 instruction_data in
   throw! PInvalidExpiryWindow when (expiry_offset <? MIN_EXPIRY_SLOTS) || (MAX_EXPIRY_SLOTS <? expiry_offset);
   let authority_data := ld_data authority_pda in
   _ ← AuthorityAccountHeader_check authority_data;
   throw! PInvalidAccountData when negb (bytesEqual (header_wallet authority_data) (ai_key (ld_info wallet_pda)));
   throw! PInvalidAuthenticationKind when negb (val (authority_data !!! 1%nat) =? 1);
   throw! PPermissionDenied when 1 <? header_role authority_data;
   throw! PPermissionDenied when negb (header_policy_len authority_data =? 0);
   let signed_payload := instructions_hash ++ accounts_hash ++ le_split 2 expiry_offset in
   authority_data ← authenticate (ld_info <$> accounts) authority_data auth_payload signed_payload [u8 6]
     (address_encode program_id) stack_height current_slot ixs;
   let counter_for_seed := header_counter authority_data in
   let expires_at := current_slot + expiry_offset in
   throw! PArithmeticOverflow when 2 ^ 64 <=? expires_at;
   '(expected_pda, bump) ← of_option PInvalidSeeds
     (getProgramDerivedAddress program_id [utf8 SEED_DEFERRED; ai_key (ld_info wallet_pda); ai_key (ld_info authority_pda);
        le_split 4 counter_for_seed]);
   throw! PInvalidSeeds when negb (bytesEqual (ai_key (ld_info deferred_pda)) (address_encode expected_pda));
   _ ← initialize_pda_account fu (ld_info payer) (ld_info deferred_pda) (ld_info system_program);
   Ok (authority_data, DeferredExecAccount bump instructions_hash accounts_hash (ai_key (ld_info wallet_pda))
         (ai_key (ld_info authority_pda)) (ai_key (ld_info payer)) expires_at))%js.

(** ** ExecuteDeferred *)

(** A call the program makes, with the privileges it passes on. *)
Record Invoked := mkInvoked { iv_program : bytes; iv_accounts : list AccountInfo; iv_data : bytes }.

(** [decompress]. *)
Definition decompress (infos : list AccountInfo) (ix : CompactInstruction) : result (AccountInfo * list (AccountInfo * bool)) :=
  program ← of_option PInvalidInstructionData (infos !! Z.to_nat (programIdIndex ix));
  accounts ← mapR (λ byte, let '(index, forward) := decodeAccountIndex byte in
                           acc ← of_option PInvalidInstructionData (infos !! Z.to_nat index); Ok (acc, forward))
               (accountIndexes ix);
  Ok (program, accounts).

(** One turn of the loop: the vault signs, and an account whose signature the compact
    instruction asks for, never the payer. *)
Definition invoke_one (infos : list AccountInfo) (payer_key vault_key : bytes) (ix : CompactInstruction) : result Invoked :=
  ('(program, accs) ← decompress infos ix;
   throw! PSelfReentrancyNotAllowed when bytesEqual (ai_key program) (address_encode program_id);
   Ok (mkInvoked (ai_key program)
         ((λ af : AccountInfo * bool, let '(acc, forward) := af in
           mkInfo (ai_key acc)
             (forward && ai_is_signer acc && negb (bytesEqual (ai_key acc) payer_key) || bytesEqual (ai_key acc) vault_key)
             (ai_is_writable acc)) <$> accs)
         (c_data ix)))%js.

(** The calls it makes, the data it leaves in the authorization's account and the balance
    it leaves in the refund destination's; the two balances are read after the calls. *)
Definition execute_deferred (accounts : list Loaded) (instruction_data : bytes) (stack_height current_slot : Z)
    (deferred_lamports refund : Z) : result (list Invoked * bytes * Z) :=
  (throw! PPermissionDenied when 1 <? stack_height;
   payer ← of_option PNotEnoughAccountKeys (accounts !! 0%nat);
   wallet_pda ← of_option PNotEnoughAccountKeys (accounts !! 1%nat);
   vault_pda ← of_option PNotEnoughAccountKeys (accounts !! 2%nat);
   deferred_pda ← of_option PNotEnoughAccountKeys (accounts !! 3%nat);
   refund_dest ← of_option PNotEnoughAccountKeys (accounts !! 4%nat);
   throw! PMissingRequiredSignature when negb (ai_is_signer (ld_info payer));
   throw! PIllegalOwner when negb (bytesEqual (ld_owner wallet_pda) (address_encode program_id))
                             || negb (bytesEqual (ld_owner deferred_pda) (address_encode program_id));
   _ ← WalletAccount_check (ld_data wallet_pda);
   let data := ld_data deferred_pda in
   _ ← DeferredExecAccount_check data;
   throw! PInvalidAccountData when negb (bytesEqual (slice 72 104 data) (ai_key (ld_info wallet_pda)));
   throw! PInvalidAccountData when negb (bytesEqual (slice 136 168 data) (ai_key (ld_info refund_dest)));
   throw! PDeferredAuthorizationExpired when le_combine (slice 168 176 data) <? current_slot;
   '(compact_instructions, compact_len) ← parse_compact_instructions instruction_data;
   throw! PDeferredHashMismatch
     when negb (bytesEqual (sha256 (take compact_len instruction_data)) (slice 8 40 data));
   let infos := ld_info <$> accounts in
   preimage ← accounts_hash_preimage infos compact_instructions;
   throw! PDeferredHashMismatch when negb (bytesEqual (sha256 preimage) (slice 40 72 data));
   '(vault_key, _) ← of_option PInvalidSeeds
     (getProgramDerivedAddress program_id [utf8 SEED_VAULT; ai_key (ld_info wallet_pda)]);
   throw! PInvalidSeeds when negb (bytesEqual (ai_key (ld_info vault_pda)) (address_encode vault_key));
   calls ← mapR (invoke_one infos (ai_key (ld_info payer)) (ai_key (ld_info vault_pda))) compact_instructions;
   throw! PArithmeticOverflow when 2 ^ 64 <=? refund + deferred_lamports;
   throw! EExternal "read-only data modified" when negb (ai_is_writable (ld_info deferred_pda));
   throw! EExternal "read-only lamport change" when negb (ai_is_writable (ld_info refund_dest));
   Ok (calls, zeros (length data), refund + deferred_lamports))%js.

(** ** CreateSession *)
Definition MAX_SESSION_SLOTS : Z := 6480000.
Definition saturating_add (a b : Z) : Z := Z.min (a + b) (2 ^ 64 - 1).

(** [SessionAccount] as it is written, with its actions. *)
Definition session_account (bump : Z) (wallet session_key : bytes) (expires_at : Z) (actions : bytes) : bytes :=
  [u8 Disc_Session; u8 bump; u8 CURRENT_ACCOUNT_VERSION] ++ zeros 5 ++ wallet ++ session_key ++ le_split 8 expires_at ++ actions.

(** The authorizer's data and the new account's. *)
Definition create_session (fu : Funding) (accounts : list Loaded) (instruction_data : bytes) (stack_height current_slot : Z)
    (ixs : Instructions) : result (bytes * bytes) :=
  ('(session_key, expires_at, actions_bytes, args_end_offset) ← session_args instruction_data;
   payer ← of_option PNotEnoughAccountKeys (accounts !! 0%nat);
   throw! PMissingRequiredSignature when negb (ai_is_signer (ld_info payer));
   wallet_pda ← of_option PNotEnoughAccountKeys (accounts !! 1%nat);
   authorizer_pda ← of_option PNotEnoughAccountKeys (accounts !! 2%nat);
   session_pda ← of_option PNotEnoughAccountKeys (accounts !! 3%nat);
   system_program ← of_option PNotEnoughAccountKeys (accounts !! 4%nat);
   rent_sysvar ← of_option PNotEnoughAccountKeys (accounts !! 5%nat);
   throw! PInvalidArgument when negb (bytesEqual (ai_key (ld_info rent_sysvar)) (address_encode SYSVAR_RENT_ADDRESS));
   throw! PIncorrectProgramId when negb (bytesEqual (ai_key (ld_info system_program)) (address_encode SYSTEM_PROGRAM_ADDRESS));
   throw! PIllegalOwner when negb (bytesEqual (ld_owner wallet_pda) (address_encode program_id))
                             || negb (bytesEqual (ld_owner authorizer_pda) (address_encode program_id));
   _ ← WalletAccount_check (ld_data wallet_pda);
   let auth_data := ld_data authorizer_pda in
   _ ← AuthorityAccountHeader_check auth_data;
   throw! PInvalidAccountData when negb (bytesEqual (header_wallet auth_data) (ai_key (ld_info wallet_pda)));
   throw! PPermissionDenied when negb (header_role auth_data =? 0) && negb (header_role auth_data =? 1);
   throw! PPermissionDenied when negb (header_policy_len auth_data =? 0);
   throw! PInvalidSessionDuration when expires_at <=? current_slot;
   throw! PInvalidSessionDuration when saturating_add current_slot MAX_SESSION_SLOTS <? expires_at;
   let data_payload := take args_end_offset instruction_data in
   let authority_payload := drop args_end_offset instruction_data in
   let infos := ld_info <$> accounts in
   auth_data ←
     (if val (auth_data !!! 1%nat) =? 0 then
        throw! PPermissionDenied when 1 <? stack_height; _ ← ed25519_authenticate infos auth_data; Ok auth_data
      else if val (auth_data !!! 1%nat) =? 1 then
        auth_data ← authenticate infos auth_data authority_payload (data_payload ++ ai_key (ld_info payer)) [u8 5]
          (address_encode program_id) stack_height current_slot ixs;
        throw! EExternal "read-only data modified" when negb (ai_is_writable (ld_info authorizer_pda)); Ok auth_data
      else Throw PInvalidAuthenticationKind);
   '(session_address, bump) ← of_option PInvalidSeeds
     (getProgramDerivedAddress program_id [utf8 SEED_SESSION; ai_key (ld_info wallet_pda); session_key]);
   throw! PInvalidSeeds when negb (bytesEqual (ai_key (ld_info session_pda)) (address_encode session_address));
   throw! PAccountAlreadyInitialized when negb (length (ld_data session_pda) =? 0)%nat;
   _ ← initialize_pda_account fu (ld_info payer) (ld_info session_pda) (ld_info system_program);
   Ok (auth_data, session_account bump (ai_key (ld_info wallet_pda)) session_key expires_at actions_bytes))%js.

(** ** AddAuthority *)
Definition RANK_OWNER : Z := 0.
Definition RANK_ADMIN : Z := 1.
Definition RANK_DELEGATE : Z := 2.
Definition can_add (actor new_rank : Z) : bool :=
  if RANK_DELEGATE <? new_rank then false
  else if actor =? RANK_OWNER then true else if actor =? RANK_ADMIN then new_rank =? RANK_DELEGATE else false.

Definition owner_count (wallet_data : bytes) : Z := le_combine (slice 4 8 wallet_data).
Definition set_owner_count (wallet_data : bytes) (count : Z) : bytes := set_at 4 (le_split 4 count) wallet_data.

(** The key material an authority's account holds: an Ed25519 key, or a credential, a
    compressed key and the hash of a relying party. *)
Definition stored_key (authority_type : Z) (full_auth_data : bytes) : bytes :=
  if authority_type =? 0 then take 32 full_auth_data
  else let rp_id_len := Z.to_nat (val (full_auth_data !!! 65%nat)) in
    take 32 full_auth_data ++ slice 32 65 full_auth_data ++ sha256 (slice 66 (66 + rp_id_len) full_auth_data).

(** An authority's account as it is written. *)
Definition new_authority (authority_type role bump : Z) (wallet key policy : bytes) : bytes :=
  ([u8 Disc_Authority; u8 authority_type; u8 role; u8 bump; u8 CURRENT_ACCOUNT_VERSION] ++ zeros 3) ++ le_split 4 0
  ++ le_split 2 (Z.of_nat (length policy)) ++ zeros 2 ++ wallet ++ key ++ policy.

(** The admin's data, the new account's and the wallet's. *)
Definition add_authority (fu : Funding) (accounts : list Loaded) (instruction_data : bytes) (stack_height current_slot : Z)
    (ixs : Instructions) : result (bytes * bytes * bytes) :=
  (data_payload_len ← add_payload_len instruction_data;
   let authority_type := val (instruction_data !!! 0%nat) in
   let new_role := val (instruction_data !!! 1%nat) in
   key_len ← add_key_len authority_type (drop 8 instruction_data);
   let full_auth_data := slice 8 (8 + key_len) instruction_data in
   let id_seed := take 32 full_auth_data in
   let policy := slice (8 + key_len + 2) data_payload_len instruction_data in
   let data_payload := take data_payload_len instruction_data in
   let authority_payload := drop data_payload_len instruction_data in
   payer ← of_option PNotEnoughAccountKeys (accounts !! 0%nat);
   throw! PMissingRequiredSignature when negb (ai_is_signer (ld_info payer));
   wallet_pda ← of_option PNotEnoughAccountKeys (accounts !! 1%nat);
   admin_auth_pda ← of_option PNotEnoughAccountKeys (accounts !! 2%nat);
   new_auth_pda ← of_option PNotEnoughAccountKeys (accounts !! 3%nat);
   system_program ← of_option PNotEnoughAccountKeys (accounts !! 4%nat);
   throw! PIllegalOwner when negb (bytesEqual (ld_owner wallet_pda) (address_encode program_id));
   throw! PIllegalOwner when negb (bytesEqual (ld_owner admin_auth_pda) (address_encode program_id));
   _ ← WalletAccount_check (ld_data wallet_pda);
   rent_sysvar ← of_option PNotEnoughAccountKeys (accounts !! 5%nat);
   throw! PInvalidArgument when negb (bytesEqual (ai_key (ld_info rent_sysvar)) (address_encode SYSVAR_RENT_ADDRESS));
   let admin_data := ld_data admin_auth_pda in
   _ ← AuthorityAccountHeader_check admin_data;
   throw! PInvalidAccountData when negb (bytesEqual (header_wallet admin_data) (ai_key (ld_info wallet_pda)));
   let infos := ld_info <$> accounts in
   admin_data' ←
     (if val (admin_data !!! 1%nat) =? 0 then
        throw! PPermissionDenied when 1 <? stack_height; _ ← ed25519_authenticate infos admin_data; Ok admin_data
      else if val (admin_data !!! 1%nat) =? 1 then
        throw! PInvalidAccountData when negb (ai_is_writable (ld_info admin_auth_pda));
        authenticate infos admin_data authority_payload (data_payload ++ ai_key (ld_info payer)) [u8 1]
          (address_encode program_id) stack_height current_slot ixs
      else Throw PInvalidAuthenticationKind);
   throw! PPermissionDenied when negb (can_add (header_role admin_data) new_role);
   throw! PDelegateRequiresPolicy when (new_role =? RANK_DELEGATE) && (length policy =? 0)%nat;
   throw! PPolicyRankMismatch when negb (new_role =? RANK_DELEGATE) && negb (length policy =? 0)%nat;
   throw! PPolicyBearingAuthorityCannotDelegate when negb (header_policy_len admin_data =? 0);
   '(new_auth_key, bump) ← of_option PInvalidSeeds
     (getProgramDerivedAddress program_id [utf8 SEED_AUTHORITY; ai_key (ld_info wallet_pda); id_seed]);
   throw! PInvalidSeeds when negb (bytesEqual (ai_key (ld_info new_auth_pda)) (address_encode new_auth_key));
   throw! PAccountAlreadyInitialized when negb (length (ld_data new_auth_pda) =? 0)%nat;
   _ ← initialize_pda_account fu (ld_info payer) (ld_info new_auth_pda) (ld_info system_program);
   wallet_data ←
     (if new_role =? RANK_OWNER then
        let next := owner_count (ld_data wallet_pda) + 1 in
        throw! PArithmeticOverflow when 2 ^ 32 <=? next;
        throw! EExternal "read-only data modified" when negb (ai_is_writable (ld_info wallet_pda));
        Ok (set_owner_count (ld_data wallet_pda) next)
      else Ok (ld_data wallet_pda));
   Ok (admin_data', new_authority authority_type new_role bump (ai_key (ld_info wallet_pda))
                      (stored_key authority_type full_auth_data) policy, wallet_data))%js.
End handlers.

(** ** The accounts they write *)
Section written.
Context `{KL : KitLaws}.

Lemma initialize_ok fu payer target system_program :
  ai_key system_program = address_encode SYSTEM_PROGRAM_ADDRESS → ai_is_writable payer = true → ai_is_writable target = true →
  fu_created fu = true → initialize_pda_account fu payer target system_program = Ok ().
Proof.
  intros Hk Hp Ht Hc. unfold initialize_pda_account. rewrite pass_throw by (by rewrite Hk, bytesEqual_refl).
  rewrite pass_throw by (by rewrite Hp, andb_false_r). rewrite pass_throw by (by rewrite Ht). by rewrite pass_throw by (by rewrite Hc).
Qed.

(** What ExecuteDeferred and Execute read back of them. *)
Lemma deferred_reads bump ih ah wallet authority payer exp :
  length ih = 32%nat → length ah = 32%nat → length wallet = 32%nat → length authority = 32%nat → length payer = 32%nat →
  0 <= exp < 2 ^ 64 →
  let d := DeferredExecAccount bump ih ah wallet authority payer exp in
  DeferredExecAccount_check d = Ok () ∧ slice 8 40 d = ih ∧ slice 40 72 d = ah ∧ slice 72 104 d = wallet
  ∧ slice 136 168 d = payer ∧ le_combine (slice 168 176 d) = exp.
Proof.
  intros H1 H2 H3 H4 H5 He d.
  assert (Hl : length d = 176%nat).
  { subst d. unfold DeferredExecAccount. rewrite !length_app, length_le_split, length_zeros. cbn [length]. lia. }
  split; [unfold DeferredExecAccount_check, check_header, DeferredExecAccount_size; rewrite Hl; by rewrite !pass_throw|].
  assert (∃ h, length h = 8%nat ∧ d = h ++ ih ++ ah ++ wallet ++ authority ++ payer ++ le_split 8 exp ++ []) as (h & Hh & ->).
  { eexists. split; [|subst d; unfold DeferredExecAccount; rewrite app_assoc, app_nil_r; reflexivity]. done. }
  split_and!.
  - apply slice_mid; lia.
  - rewrite app_assoc. apply slice_mid; rewrite ?length_app; lia.
  - rewrite app_assoc, (app_assoc _ ah). apply slice_mid; rewrite ?length_app; lia.
  - rewrite app_assoc, (app_assoc _ ah), (app_assoc _ wallet), (app_assoc _ authority). apply slice_mid; rewrite ?length_app; lia.
  - rewrite app_assoc, (app_assoc _ ah), (app_assoc _ wallet), (app_assoc _ authority), (app_assoc _ payer).
    rewrite slice_mid, le_combine_small by (rewrite ?length_app, ?length_le_split; lia). done.
Qed.
End written.

(** ** Deferred execution *)
Section deferred.
Context `{KL : KitLaws}.
Variable programId : address.

(** An owner or admin without a policy, which is who may authorize and create sessions. *)
Definition unbounded_manager (auth_data : bytes) : Prop := header_role auth_data <= 1 ∧ header_policy_len auth_data = 0.

(** The accounts of ExecuteDeferred as the runtime loads them. *)
Definition loads_deferred (accounts : list Loaded) (infos : list AccountInfo) (program_id deferred_data : bytes) : Prop :=
  ld_info <$> accounts = infos
  ∧ (∃ w, accounts !! 1%nat = Some w ∧ ld_owner w = program_id ∧ WalletAccount_check (ld_data w) = Ok ())
  ∧ (∃ a, accounts !! 3%nat = Some a ∧ ld_owner a = program_id ∧ ld_data a = deferred_data).

(** The call that runs [ix]: its program, its data and its accounts in order, writable
    as the transaction has them; the vault signs, and a signer [ix] declares that signs
    the transaction, but for the executor. *)
Definition runs (tx : list AccountMeta) (executor vault : address) (ix : Instruction) (call : Invoked) : Prop :=
  call = mkInvoked (address_encode (programAddress ix))
    ((λ m, mkInfo (address_encode (m_address m))
             (role_signer (m_role m) && signer_in tx (m_address m) && negb (bool_decide (m_address m = executor))
              || bool_decide (m_address m = vault))
             (writable_in tx (m_address m))) <$> accounts ix)
    (data ix).

Lemma bytesEqual_address (a b : address) : bytesEqual (address_encode a) (address_encode b) = bool_decide (a = b).
Proof.
  destruct (bytesEqual _ _) eqn:E; symmetry.
  - apply bool_decide_eq_true. by apply bytesEqual_spec, address_encode_inj in E.
  - apply bool_decide_eq_false. intros ->. by rewrite bytesEqual_refl in E.
Qed.

Lemma compact_index_info tx ms b a fwd : compact_index (m_address <$> ms) b a fwd →
  (runtime_info tx <$> ms) !! Z.to_nat (decodeAccountIndex b).1 = Some (mkInfo (address_encode a) (signer_in tx a) (writable_in tx a)).
Proof.
  intros (_ & Hl & _). rewrite list_lookup_fmap in Hl. rewrite list_lookup_fmap. destruct (ms !! _) as [m|]; [|discriminate Hl]. injection Hl as <-. done.
Qed.

Lemma no_forward_index b : 0 <= b < 256 → (decodeAccountIndex b).2 = false → (decodeAccountIndex b).1 = b.
Proof.
  intros Hb Hf. pose proof (index_byte_no_forward b Hb Hf). cbn. unfold ACCOUNT_INDEX_MASK.
  change 127 with (Z.ones 7). rewrite Z.land_ones by lia. apply Z.mod_small. lia.
Qed.

(** A resolved compact instruction runs the instruction it came from. *)
Lemma resolved_runs tx ms executor vault ix c : resolves (m_address <$> ms) executor ix c → programAddress ix ≠ programId →
  ∃ call, invoke_one programId (runtime_info tx <$> ms) (address_encode executor) (address_encode vault) c = Ok call
    ∧ runs tx executor vault ix call.
Proof.
  intros (Hp & Hd & Ha) Hne. unfold invoke_one, decompress.
  pose proof (compact_index_info tx _ _ _ _ Hp) as Hprog. destruct Hp as (Hb & _ & Hf).
  rewrite (no_forward_index _ Hb Hf) in Hprog. rewrite Hprog. cbn [of_option]. rewrite bind_ok.
  assert (Haccs : mapR (λ byte, let '(index, forward) := decodeAccountIndex byte in
      acc ← of_option PInvalidInstructionData ((runtime_info tx <$> ms) !! Z.to_nat index); Ok (acc, forward)) (accountIndexes c)
    = Ok ((λ m, (mkInfo (address_encode (m_address m)) (signer_in tx (m_address m)) (writable_in tx (m_address m)),
                 role_signer (m_role m) && negb (bool_decide (m_address m = executor)))) <$> accounts ix)).
  { clear Hprog. induction Ha as [|m b l bs Hi _ IH]; [done|]. cbn [mapR]. pose proof (compact_index_info tx _ _ _ _ Hi) as Hinfo.
    destruct Hi as (_ & _ & Hfwd). destruct (decodeAccountIndex b) as [i f]. cbn [fst snd] in *. rewrite Hinfo, Hfwd. cbn [of_option].
    rewrite !bind_ok, IH, bind_ok. done. }
  rewrite Haccs, !bind_ok. cbn [ai_key]. rewrite bytesEqual_address, bool_decide_eq_false_2 by done. cbn [throw_if]. rewrite bind_ok.
  eexists. split; [reflexivity|]. unfold runs. rewrite Hd. f_equal. rewrite <- list_fmap_compose. apply list_fmap_ext.
  intros i m _. cbn [compose ai_key ai_is_signer ai_is_writable]. rewrite !bytesEqual_address. f_equal.
  by destruct (role_signer (m_role m)), (signer_in tx (m_address m)), (bool_decide (m_address m = executor)), (bool_decide (m_address m = vault)).
Qed.

Lemma all_run tx ms executor vault ixs cs : Forall2 (resolves (m_address <$> ms) executor) ixs cs →
  Forall (λ ix, programAddress ix ≠ programId) ixs →
  ∃ calls, mapR (invoke_one programId (runtime_info tx <$> ms) (address_encode executor) (address_encode vault)) cs = Ok calls
    ∧ Forall2 (runs tx executor vault) ixs calls.
Proof.
  induction 1 as [|ix c ixs cs Hr _ IH]; intros Hf; [by exists []|]. apply Forall_cons in Hf as [Hne Hf].
  destruct (resolved_runs tx ms executor vault ix c Hr Hne) as (call & E & Hc). destruct (IH Hf) as (calls & E' & Hcs).
  exists (call :: calls). cbn [mapR]. rewrite E, bind_ok, E'. split; [done|by constructor].
Qed.

(** ExecuteDeferred on what Authorize stored. *)
Lemma execute_deferred_ok executor wallet vault b bump deferred authority refund ixs l rem tx pre slot exp loaded rent balance :
  balance + rent < 2 ^ 64 → findVaultPda wallet programId = Ok (vault, b) → Forall compact_ok l → (length l <= MAX_COMPACT_INSTRUCTIONS)%nat →
  signer_in tx executor = true → writable_in tx deferred = true → writable_in tx refund = true → 0 <= slot <= exp → exp < 2 ^ 64 →
  accounts_hash_preimage (runtime_info tx <$> deferredFixed executor wallet vault deferred refund ++ rem) l = Ok pre →
  Forall2 (resolves (m_address <$> deferredFixed executor wallet vault deferred refund ++ rem) executor) ixs l →
  Forall (λ ix, programAddress ix ≠ programId) ixs →
  loads_deferred loaded (runtime_info tx <$> deferredFixed executor wallet vault deferred refund ++ rem) (address_encode programId)
    (DeferredExecAccount bump (computeInstructionsHash l) (sha256 pre) (address_encode wallet) (address_encode authority)
       (address_encode refund) exp) →
  ∃ calls, execute_deferred programId loaded (packCompactInstructions l ++ []) 1 slot rent balance = Ok (calls, zeros 176, balance + rent)
    ∧ Forall2 (runs tx executor vault) ixs calls.
Proof.
  intros Hbal Hv Hok Hn Hsig Hwd Hwr Hexp He64 Hpre Hres Hself (Hinfos & (w & Hw & How & Hwc) & (a & Ha & Hoa & Hda)).
  destruct (deferred_reads bump (computeInstructionsHash l) (sha256 pre) (address_encode wallet) (address_encode authority)
    (address_encode refund) exp) as (Hck & Hih & Hah & Hdw & Hdp & Hde);
    [apply sha256_length|apply sha256_length|apply address_encode_length..|lia|]. rewrite <- Hda in *.
  destruct (all_run tx _ executor vault ixs l Hres Hself) as (calls & Hcalls & Hruns). exists calls. split; [|done].
  assert (Hlen : length (ld_data a) = 176%nat).
  { rewrite Hda. unfold DeferredExecAccount. rewrite !length_app, length_le_split, length_zeros, !address_encode_length.
    unfold computeInstructionsHash. rewrite !sha256_length. done. }
  destruct loaded as [|lp [|lw [|lv [|ld [|lr rest]]]]]; try done. cbn in Hw, Ha. injection Hw as ->. injection Ha as ->.
  pose proof Hinfos as Hi. cbn [fmap list_fmap deferredFixed app] in Hi. injection Hi as Hip Hiw Hiv Hid Hir _.
  unfold execute_deferred. rewrite pass_throw by done. cbn [lookup list_lookup of_option]. rewrite !bind_ok.
  rewrite pass_throw by (rewrite Hip; cbn [runtime_info ai_is_signer m_address]; by rewrite Hsig).
  rewrite pass_throw by (by rewrite How, Hoa, bytesEqual_refl). rewrite Hwc, bind_ok. cbv zeta. rewrite Hck, bind_ok.
  rewrite pass_throw by (rewrite Hdw, Hiw; cbn; by rewrite bytesEqual_refl).
  rewrite pass_throw by (rewrite Hdp, Hir; cbn; by rewrite bytesEqual_refl).
  rewrite pass_throw by (rewrite Hde; apply Z.ltb_ge; lia). rewrite parse_packed by done. rewrite bind_ok, take_app_len by done.
  rewrite pass_throw by (rewrite Hih; unfold computeInstructionsHash; by rewrite bytesEqual_refl).
  rewrite Hinfos, Hpre, bind_ok. rewrite pass_throw by (by rewrite Hah, bytesEqual_refl).
  unfold findVaultPda, derive in Hv. rewrite Hiw. cbn [runtime_info ai_key m_address].
  destruct (getProgramDerivedAddress _ _) as [vb|]; [|done]. injection Hv as ->. cbn [of_option]. rewrite bind_ok. cbn beta iota.
  rewrite pass_throw by (rewrite Hiv; cbn; by rewrite bytesEqual_refl).
  rewrite Hip, Hiv. cbn [runtime_info ai_key m_address]. rewrite Hcalls, bind_ok. rewrite pass_throw by (by apply Z.leb_gt).
  rewrite pass_throw by (rewrite Hid; cbn [runtime_info ai_is_writable m_address]; by rewrite Hwd).
  rewrite pass_throw by (rewrite Hir; cbn [runtime_info ai_is_writable m_address]; by rewrite Hwr). by rewrite Hlen.
Qed.
(** Authorize on a finalized instruction. *)
Lemma authorize_ok payer wallet authority deferred b ih ah e ap tx fu slot ixs loaded auth_data counter :
  findDeferredExecPda wallet authority (counter + 1) programId = Ok (deferred, b) →
  length ih = 32%nat → length ah = 32%nat → MIN_EXPIRY_SLOTS <= e <= MAX_EXPIRY_SLOTS → slot + e < 2 ^ 64 →
  fu_created fu = true → 0 <= counter < 2 ^ 32 - 1 →
  signer_in tx payer = true → writable_in tx payer = true → writable_in tx authority = true → writable_in tx deferred = true →
  (145 <= length auth_data)%nat → AuthorityAccountHeader_check auth_data = Ok () → header_wallet auth_data = address_encode wallet →
  val (auth_data !!! 1%nat) = 1 → unbounded_manager auth_data →
  let ix := createAuthorizeIx payer wallet authority deferred ih ah e ap programId in
  authenticate (runtime_info tx <$> accounts ix) auth_data ap (ih ++ ah ++ le_split 2 e) [u8 6] (address_encode programId) 1 slot ixs
    = Ok (set_at 8 (le_split 4 (counter + 1)) auth_data) →
  loads loaded (runtime_info tx <$> accounts ix) (address_encode programId) auth_data →
  authorize programId fu loaded (tail (data ix)) 1 slot ixs
  = Ok (set_at 8 (le_split 4 (counter + 1)) auth_data,
        DeferredExecAccount b ih ah (address_encode wallet) (address_encode authority) (address_encode payer) (slot + e)).
Proof.
  intros Hpda Hih Hah He Hs Hfu Hc Hsig Hwp Hwa Hwd Hl Hck Hwal Hty [Hrole Hpol] ix Hauth (Hinfos & (w & Hw & How & Hwc) & (a & Ha & Hoa & Hda)).
  unfold MIN_EXPIRY_SLOTS, MAX_EXPIRY_SLOTS in *.
  destruct (authorize_parts ih ah ap e) as (Hlen & H1 & H2 & H3 & H4); [done|done|lia|]. subst ix. rewrite authorize_data.
  destruct loaded as [|lp [|lw [|la [|ld [|ls [|lr rest]]]]]]; try done. cbn in Hw, Ha. injection Hw as ->. injection Ha as ->.
  pose proof Hinfos as Hi. cbn [fmap list_fmap accounts createAuthorizeIx] in Hi. injection Hi as Hip Hiw Hia Hid His _ _.
  unfold authorize. cbn [lookup list_lookup of_option]. rewrite !bind_ok.
  rewrite pass_throw by (rewrite Hip; cbn [runtime_info ai_is_signer m_address]; by rewrite Hsig).
  rewrite pass_throw by (by rewrite How, Hoa, bytesEqual_refl). rewrite Hwc, bind_ok.
  rewrite pass_throw by (rewrite Hia; cbn [runtime_info ai_is_writable m_address]; by rewrite Hwa).
  rewrite Hlen. cbn [throw_if]. rewrite bind_ok. cbv zeta. rewrite H1, H2, H3, H4.
  rewrite pass_throw by (unfold MIN_EXPIRY_SLOTS, MAX_EXPIRY_SLOTS; apply orb_false_intro; apply Z.ltb_ge; lia).
  rewrite Hda, Hck, bind_ok. rewrite pass_throw by (rewrite Hwal, Hiw; cbn; by rewrite bytesEqual_refl).
  rewrite pass_throw by (by rewrite Hty). rewrite pass_throw by (apply Z.ltb_ge; lia). rewrite pass_throw by (by rewrite Hpol).
  rewrite Hinfos, Hauth, bind_ok. destruct (set_counter auth_data (counter + 1) Hl ltac:(lia)) as [-> _].
  rewrite pass_throw by (apply Z.leb_gt; lia). rewrite Hiw, Hia, Hid, His, Hip. cbn [runtime_info ai_key m_address].
  unfold findDeferredExecPda, derive in Hpda. destruct (getProgramDerivedAddress programId _) as [pb|]; [|done]. injection Hpda as ->.
  cbn [of_option]. rewrite bind_ok. cbn beta iota. rewrite pass_throw by (by rewrite bytesEqual_refl).
  rewrite initialize_ok; [done|done|done|done|done].
Qed.

(** C6.  The two transactions of a deferred execution fit together.  For at most sixteen
    inner instructions that fit the compact format and none of which calls this program,
    the instruction [finalizeAuthorize] returns, with what an authenticator answers to its
    challenge, passes Authorize whole, on the account of an owner's or admin's passkey
    without a policy, within 150 slots, with an expiry offset of 10 to 9000 slots and when
    the system program creates the account.  On the account Authorize writes, the
    instruction [executeDeferredFromPayload] later builds from the payload alone passes
    ExecuteDeferred whole, when the named executor submits it by the expiry and the fee
    accounts are none of the accounts the instructions use: it makes exactly the calls
    that were asked for, in order, with their programs, accounts and data, signed by the
    vault and never by the executor, zeroes the authorization's account and moves its
    lamports to the payer that created it. *)
Theorem deferred_execution_agrees (env : Env) (payer wallet : address) (params : Secp256r1Params)
    (ixs : list Instruction) (off : option Z) (executor feePayer : option address) (txPayer : address)
    (c c' : client) (prepared : PreparedAuthorize) (r : WebAuthnResponse) (az : Authorized)
    (counter slot1 : Z) (auth_data rpIdHash : bytes) (fu : Funding) :
  prepareAuthorize env programId payer wallet params ixs off executor feePayer c = (c', Ok prepared) →
  finalizeAuthorize prepared r = Ok az →
  (length ixs <= MAX_COMPACT_INSTRUCTIONS)%nat → Forall fits ixs → Forall (λ ix, programAddress ix ≠ programId) ixs →
  MIN_EXPIRY_SLOTS <= default 300 off <= MAX_EXPIRY_SLOTS → slot1 + default 300 off < 2 ^ 64 → fu_created fu = true →
  fresh (pz_signing prepared) counter slot1 → genuine_response (pz_signing prepared) rpIdHash r →
  StoredPasskey auth_data wallet (p_publicKeyBytes (pz_signing prepared)) rpIdHash counter → unbounded_manager auth_data →
  ∃ ix1 stored, last (az_instructions az) = Some ix1 ∧ head (data ix1) = Some (u8 6)
    ∧ (∀ loaded, loads loaded (runtime_info (tx_metas (az_instructions az) txPayer) <$> accounts ix1) (address_encode programId) auth_data →
        authorize programId fu loaded (tail (data ix1)) 1 slot1
          (mkInstructions (entry_of <$> az_instructions az) (length (az_instructions az) - 1))
        = Ok (set_at 8 (le_split 4 (counter + 1)) auth_data, stored))
    ∧ ∀ (env2 : Env) (fees : bool) (c2 c3 : client) (out : list Instruction) (slot2 : Z),
        executeDeferredFromPayload env2 programId fees (pz_executor prepared) (az_deferredPayload az) None c2 = (c3, Ok out) →
        (∀ ix, last out = Some ix → suffix_apart (5 + length (pz_remainingAccounts prepared)) ix) →
        0 <= slot2 <= slot1 + default 300 off →
        let tx := tx_metas out (default (pz_executor prepared) feePayer) in
        ∃ ix2 infos vault b, last out = Some ix2 ∧ head (data ix2) = Some (u8 7)
          ∧ findVaultPda wallet programId = Ok (vault, b)
          ∧ processor_accounts fees (runtime_info tx <$> accounts ix2) = Ok infos
          ∧ ∀ loaded rent balance, loads_deferred loaded infos (address_encode programId) stored → balance + rent < 2 ^ 64 →
              ∃ calls, execute_deferred programId loaded (tail (data ix2)) 1 slot2 rent balance = Ok (calls, zeros 176, balance + rent)
                ∧ Forall2 (runs tx (pz_executor prepared) vault) ixs calls.
Proof.
  intros (vault & b & deferred & b' & rs & l & Hv & Hd & Hl & ->)%prepareAuthorize_ok Hfin Hn Hfits Hself Hoff Hs1 Hfu Hfresh Hgen S Hum.
  unfold finalizeAuthorize in Hfin. apply bind_inv in Hfin as ([ap pix] & Hf & [= <-]).
  cbn [pz_signing pz_payer pz_walletPda pz_authorityPda pz_deferredExecPda pz_instructionsHash
       pz_accountsHash pz_expiryOffset pz_programId pz_executor pz_remainingAccounts
       az_instructions az_deferredPayload] in *.
  set (executor' := default payer executor) in *. pose proof Hfresh as (Hcnt & Hcr & _ & _). change (rs_counter rs = counter + 1) in Hcnt.
  set (ih := computeInstructionsHash (la_compactInstructions l)) in *.
  set (ix := createAuthorizeIx payer wallet (rs_authorityPda rs) deferred ih (la_accountsHash l) (default 300 off) ap programId) in *.
  eexists ix, _. split; [done|]. split; [done|]. split.
  { intros loaded Hload. rewrite Hcnt in Hd. eapply authorize_ok; try exact Hd; try exact Hload; try done.
    - apply sha256_length.
    - by eapply layout_hash_length.
    - apply (tx_signer _ _ ix (mkMeta payer WRITABLE_SIGNER)); [right; by left|by left|done].
    - apply writable_in_true. exists (mkMeta payer WRITABLE_SIGNER). split; [|done]. apply elem_of_tx_metas. left. exists ix.
      split; [right; by left|by left].
    - apply writable_in_true. exists (mkMeta (rs_authorityPda rs) WRITABLE). split; [|done]. apply elem_of_tx_metas. left. exists ix.
      split; [right; by left|right; right; by left].
    - apply writable_in_true. exists (mkMeta deferred WRITABLE). split; [|done]. apply elem_of_tx_metas. left. exists ix.
      split; [right; by left|right; right; right; by left].
    - apply S.
    - by eapply stored_checked.
    - apply S.
    - apply S.
    - eapply finalized_accepted; [exact Hf|exact Hgen|exact Hfresh|exact S|reflexivity| |done|reflexivity|done|done|done|].
      + apply (tx_signer _ _ ix (mkMeta payer WRITABLE_SIGNER)); [right; by left|by left|done].
      + by rewrite signing_challenge, u16LE_split. }
  intros env2 fees c2 c3 out slot2 (vault' & b'' & fee & c4 & c5 & Hv' & Hfee & ->)%executeDeferred_ok Hapart Hs2.
  cbn [dp_walletPda dp_deferredExecPda dp_refundDestination dp_compactInstructions dp_remainingAccounts default] in *.
  rewrite Hv in Hv'. injection Hv' as <- <-. apply resolution_shape in Hfee.
  set (fixed := deferredFixed executor' wallet vault deferred payer) in *.
  set (ix2 := createExecuteDeferredIx _ _ _ _ _ _ _ _ _) in *.
  set (tx := tx_metas _ _).
  assert (Hacc : accounts ix2 = (fixed ++ la_remainingAccounts l) ++ feeSuffix (fee_accounts fee)) by done.
  assert (Hag : runtime_agrees tx (fixed ++ la_remainingAccounts l) feePayer).
  { apply (fee_tx_agrees programId fees executor' fee [] ix2); [done| |done|by left|].
    - by intros i ?%not_elem_of_nil.
    - apply (suffix_apart_alias _ _ ix2 Hacc). apply Hapart. by rewrite last_snoc. }
  destruct (layout_hash _ _ _ _ _ _ Hl Hag) as (Hlay & pre & Hpre & Hhash).
  destruct (layout_compact_ok _ _ _ _ _ Hlay Hfits) as [Hok Hlen].
  exists ix2, (runtime_info tx <$> fixed ++ la_remainingAccounts l), vault, b.
  split; [by rewrite last_snoc|]. split; [done|]. split; [done|]. split.
  { rewrite Hacc. by apply (processor_strips programId fees executor'). }
  assert (Hdata : tail (data ix2) = packCompactInstructions (la_compactInstructions l) ++ []).
  { cbn [data ix2 createExecuteDeferredIx]. rewrite concatBytes_concat. done. }
  intros loaded rent balance Hload Hbal. rewrite Hdata. rewrite Hhash in Hload. subst ih.
  eapply execute_deferred_ok; [exact Hbal|exact Hv|exact Hok|by rewrite Hlen| | | |done|done|exact Hpre| |done|exact Hload].
  - apply (tx_signer _ _ ix2 (mkMeta executor' WRITABLE_SIGNER)); [|by left|done]. rewrite elem_of_app. right. by left.
  - apply writable_in_true. exists (mkMeta deferred WRITABLE). split; [|done]. apply elem_of_tx_metas. left. exists ix2.
    split; [rewrite elem_of_app; right; by left|]. right; right; right; by left.
  - apply writable_in_true. exists (mkMeta payer WRITABLE). split; [|done]. apply elem_of_tx_metas. left. exists ix2.
    split; [rewrite elem_of_app; right; by left|]. right; right; right; right; by left.
  - rewrite fmap_app. by apply layout_resolves_all.
Qed.
End deferred.

(** ** Sessions *)
Section sessions.
Context `{KL : KitLaws}.
Variable programId : address.

Definition duration_ok (slot exp : Z) : bool := negb (exp <=? slot) && negb (saturating_add slot MAX_SESSION_SLOTS <? exp).

Lemma session_reads bump wallet key exp actions : length wallet = 32%nat → length key = 32%nat → 0 <= exp < 2 ^ 64 →
  let d := session_account bump wallet key exp actions in
  (80 <= length d)%nat ∧ val (d !!! 0%nat) = Disc_Session ∧ slice 8 40 d = wallet ∧ slice 40 72 d = key
  ∧ le_combine (slice 72 80 d) = exp ∧ drop 80 d = actions.
Proof.
  intros Hw Hk He d. assert (∃ h, length h = 8%nat ∧ val (h !!! 0%nat) = Disc_Session ∧ d = h ++ wallet ++ key ++ le_split 8 exp ++ actions)
    as (h & Hh & Hd0 & ->).
  { eexists. split; [|split; [|subst d; unfold session_account; rewrite app_assoc; reflexivity]]; done. }
  split_and!.
  - rewrite !length_app, length_le_split. lia.
  - by rewrite lookup_total_app_l by lia.
  - apply slice_mid; lia.
  - rewrite app_assoc. apply slice_mid; rewrite ?length_app; lia.
  - rewrite app_assoc, (app_assoc _ key). rewrite slice_mid, le_combine_small by (rewrite ?length_app, ?length_le_split; lia). done.
  - rewrite app_assoc, (app_assoc _ key), (app_assoc _ (le_split 8 exp)). apply drop_app_len. rewrite !length_app, length_le_split. lia.
Qed.

(** The accounts of an Execute by a session, as the runtime loads them. *)
Definition loads_session (accounts : list Loaded) (wallet : address) (session_data : bytes) : Prop :=
  ∃ p w s v rest, accounts = p :: w :: s :: v :: rest ∧ ai_is_signer (ld_info p) = true
    ∧ ai_key (ld_info w) = address_encode wallet ∧ ld_owner w = address_encode programId ∧ WalletAccount_check (ld_data w) = Ok ()
    ∧ ai_is_writable (ld_info s) = true ∧ ld_owner s = address_encode programId ∧ ld_data s = session_data.

(** Execute's verdict on a session it is given. *)
Lemma session_executes loaded wallet key exp bump actions idata slot ixs :
  length key = 32%nat → 0 <= exp < 2 ^ 64 → is_ok (parse_compact_instructions idata) = true →
  loads_session loaded wallet (session_account bump (address_encode wallet) key exp actions) →
  execute_authorised loaded idata (address_encode programId) 1 slot ixs
  = if exp <? slot then Throw PSessionExpired
    else if existsb (λ acc, ai_is_signer acc && bytesEqual (ai_key acc) key) (ld_info <$> loaded) then Ok (BySession key)
    else Throw PMissingRequiredSignature.
Proof.
  intros Hk He Hparse (p & w & s & v & rest & -> & Hp & Hwk & How & Hwc & Hsw & Hos & Hds).
  destruct (session_reads bump (address_encode wallet) key exp actions (address_encode_length wallet) Hk He) as (Hl & Hd & Hw & Hkey & Hexp & _).
  set (d := session_account _ _ _ _ _) in *. unfold execute_authorised. rewrite pass_throw by done. cbn [lookup list_lookup of_option].
  rewrite bind_ok. rewrite pass_throw by (by rewrite Hp). rewrite !bind_ok. rewrite pass_throw by (by rewrite How, Hos, bytesEqual_refl).
  rewrite Hwc, bind_ok. rewrite pass_throw by (by rewrite Hsw). rewrite Hds. rewrite pass_throw by (apply Nat.eqb_neq; lia).
  destruct (parse_compact_instructions idata) as [[cs n]|]; [|done]. rewrite bind_ok, Hd. cbn beta iota zeta.
  change (Disc_Session =? Disc_Authority) with false. change (Disc_Session =? Disc_Session) with true. cbn iota.
  rewrite pass_throw by done. rewrite pass_throw by (apply Nat.ltb_ge; exact Hl). rewrite Hw, Hwk, Hexp, Hkey.
  rewrite pass_throw by (by rewrite bytesEqual_refl). destruct (exp <? slot); [done|]. cbn [throw_if]. rewrite bind_ok.
  by destruct (existsb _ _).
Qed.

End sessions.

(** ** Authorities *)
Section authorities.
Context `{KL : KitLaws}.
Variable programId : address.

(** What an owner's account holds of its key, after its header. *)
Definition owner_kind (o : CreateWalletOwner) : Z := match o with OwnerEd25519 _ => 0 | OwnerSecp256r1 _ _ _ => 1 end.
Definition owner_key (o : CreateWalletOwner) : bytes :=
  match o with OwnerEd25519 a => address_encode a | OwnerSecp256r1 cred pk rpId => cred ++ pk ++ sha256 (utf8 rpId) end.

Lemma stored_owner_key o f rest : resolveOwnerFields o = Ok f → owner_ok o →
  authType f = owner_kind o ∧ take 32 (key_material f) = credentialOrPubkey f
  ∧ stored_key (authType f) (take (length (key_material f)) (key_material f ++ rest)) = owner_key o.
Proof.
  intros H Ho. rewrite take_app_len by done. destruct o as [a|cred pk rp]; cbn [resolveOwnerFields owner_ok] in *.
  - apply bind_inv in H as ([] & _ & [= <-]). unfold key_material. cbn -[Z.eqb take]. rewrite app_nil_r. split; [done|].
    assert (E : take 32 (address_encode a) = address_encode a) by (apply take_ge; by rewrite address_encode_length). by rewrite E.
  - unfold assertByteLength, assertNonZeroBytes in H.
    apply bind_inv in H as ([] & H1%throw_if_ok & H). apply bind_inv in H as ([] & H2%throw_if_ok & H).
    apply bind_inv in H as ([] & H3%throw_if_ok & H). apply bind_inv in H as ([] & H4%throw_if_ok & H).
    injection H as <-. apply negb_false_iff, Nat.eqb_eq in H1, H2. split; [done|].
    assert (Hm : key_material (mkOwnerFields AUTH_TYPE_SECP256R1 cred (Some pk) (Some rp))
      = cred ++ pk ++ [u8 (Z.of_nat (length (utf8 rp)))] ++ utf8 rp ++ []).
    { unfold key_material. cbn [authType credentialOrPubkey secp256r1Pubkey of_rpId].
      destruct rp as [|ch rp]; [cbn in Ho; lia|]. cbn [passkeyParts Z.eqb AUTH_TYPE_SECP256R1 Pos.eqb concat app]. by rewrite ?app_nil_r. }
    rewrite Hm. cbn [authType credentialOrPubkey owner_key]. split; [by apply take_app_len|].
    unfold stored_key. change (AUTH_TYPE_SECP256R1 =? 0) with false. cbn iota.
    rewrite take_app_len by done. f_equal. f_equal; [apply slice_mid; lia|]. f_equal.
    rewrite !lookup_total_app_r by lia. replace (65 - length cred - length pk)%nat with 0%nat by lia.
    change (([u8 (Z.of_nat (length (utf8 rp)))] ++ utf8 rp ++ []) !!! 0%nat) with (u8 (Z.of_nat (length (utf8 rp)))).
    rewrite val_u8_small, Nat2Z.id by lia. rewrite app_assoc, (app_assoc _ [_]). f_equal. apply slice_mid; rewrite ?length_app; cbn [length]; lia.
Qed.

Lemma authority_reads kind role bump wallet key policy : 0 <= kind < 256 → 0 <= role < 256 → length wallet = 32%nat →
  (length policy <= MAX_POLICY_BUFFER_SIZE)%nat →
  let d := new_authority kind role bump wallet key policy in
  (∃ h, length h = 48%nat ∧ d = h ++ key ++ policy) ∧ AuthorityAccountHeader_check d = Ok () ∧ val (d !!! 0%nat) = Disc_Authority
  ∧ val (d !!! 1%nat) = kind ∧ header_role d = role ∧ val (d !!! 4%nat) = CURRENT_ACCOUNT_VERSION ∧ header_counter d = 0
  ∧ header_policy_len d = Z.of_nat (length policy) ∧ header_wallet d = wallet.
Proof.
  intros Hk Hr Hw Hp d. unfold MAX_POLICY_BUFFER_SIZE in Hp.
  set (h8 := [u8 Disc_Authority; u8 kind; u8 role; u8 bump; u8 CURRENT_ACCOUNT_VERSION] ++ zeros 3).
  assert (Hd : d = h8 ++ le_split 4 0 ++ le_split 2 (Z.of_nat (length policy)) ++ zeros 2 ++ wallet ++ key ++ policy) by done.
  assert (H8 : length h8 = 8%nat) by done.
  assert (Hcopy : ∃ h, length h = 48%nat ∧ d = h ++ key ++ policy).
  { exists (h8 ++ le_split 4 0 ++ le_split 2 (Z.of_nat (length policy)) ++ zeros 2 ++ wallet).
    split; [rewrite !length_app, !length_le_split, length_zeros; lia|]. rewrite Hd, <- !app_assoc. done. }
  assert (Hget : ∀ i, (i < 8)%nat → d !!! i = h8 !!! i) by (intros i Hi; rewrite Hd, lookup_total_app_l by lia; done).
  assert (Hlen : (48 <= length d)%nat) by (destruct Hcopy as (h & Hh & ->); rewrite length_app; lia).
  assert (H0 : val (d !!! 0%nat) = Disc_Authority) by (rewrite Hget by lia; done).
  assert (H4 : val (d !!! 4%nat) = CURRENT_ACCOUNT_VERSION) by (rewrite Hget by lia; done).
  split_and!; try done.
  - unfold AuthorityAccountHeader_check, check_header, HEADER_SIZE. rewrite pass_throw by (apply Nat.ltb_ge; lia).
    rewrite pass_throw by (by rewrite H0). by rewrite pass_throw by (by rewrite H4).
  - rewrite Hget by lia. by apply (val_u8_small kind).
  - unfold header_role. rewrite Hget by lia. by apply (val_u8_small role).
  - unfold header_policy_len. rewrite Hd, app_assoc, slice_mid, le_combine_small by (rewrite ?length_app, ?length_le_split; lia). done.
  - unfold header_wallet. rewrite Hd, app_assoc, (app_assoc _ (le_split 2 _)), (app_assoc _ (zeros 2)).
    apply slice_mid; rewrite ?length_app, ?length_le_split, ?length_zeros; lia.
Qed.

(** The parts of AddAuthority's data. *)
Lemma add_parts o f role policy ap : resolveOwnerFields o = Ok f → owner_ok o → 0 <= role < 256 →
  let payload := buildDataPayloadForAdd (authType f) role (credentialOrPubkey f) (secp256r1Pubkey f) (of_rpId f) policy in
  let d := payload ++ ap in let k := length (key_material f) in
  val (d !!! 0%nat) = owner_kind o ∧ val (d !!! 1%nat) = role ∧ add_key_len (owner_kind o) (drop 8 d) = Ok k
  ∧ take 32 (slice 8 (8 + k) d) = credentialOrPubkey f ∧ stored_key (owner_kind o) (slice 8 (8 + k) d) = owner_key o
  ∧ slice (8 + k + 2) (length payload) d = default [] policy.
Proof.
  intros H Ho Hr. cbv zeta. rewrite add_payload_eq. destruct (stored_owner_key o f [] H Ho) as (Ht & Hseed & Hkey).
  rewrite app_nil_r, firstn_all in Hkey. rewrite <- Ht. pose proof (owner_type o f H Ho) as Hty.
  set (h := [u8 (authType f); u8 role] ++ zeros 6). assert (Hh : length h = 8%nat) by done.
  set (p := default [] policy). set (km := key_material f) in *. set (l2 := le_split 2 _).
  assert (Hl2 : length l2 = 2%nat) by apply length_le_split.
  rewrite <- !(app_assoc h), <- !(app_assoc km), <- !(app_assoc l2).
  assert (Hs : slice 8 (8 + length km) (h ++ km ++ l2 ++ p ++ ap) = km) by (apply slice_mid; lia).
  split_and!.
  - rewrite lookup_total_app_l by lia. by apply (val_u8_small (authType f)).
  - rewrite lookup_total_app_l by lia. by apply (val_u8_small role).
  - rewrite drop_app_len by done. by apply (add_key_len_ok o).
  - by rewrite Hs.
  - by rewrite Hs.
  - rewrite !length_app, app_assoc, (app_assoc _ l2). apply slice_mid; rewrite !length_app; lia.
Qed.

(** The key an account holds, as Execute reads it. *)
Lemma authority_holds o f role bump wallet policy : resolveOwnerFields o = Ok f → owner_ok o → 0 <= role < 256 →
  (length policy <= MAX_POLICY_BUFFER_SIZE)%nat →
  let d := new_authority (owner_kind o) role bump (address_encode wallet) (owner_key o) policy in
  match o with
  | OwnerEd25519 a => AuthorityAccountHeader_check d = Ok () ∧ header_wallet d = address_encode wallet ∧ val (d !!! 1%nat) = 0
      ∧ slice 48 80 d = address_encode a ∧ drop 80 d = policy
  | OwnerSecp256r1 cred pk rpId => StoredPasskey d wallet pk (sha256 (utf8 rpId)) 0 ∧ slice 48 80 d = cred ∧ drop 145 d = policy
  end ∧ header_role d = role ∧ header_policy_len d = Z.of_nat (length policy).
Proof.
  intros H Ho Hr Hp. cbv zeta. destruct (authority_reads (owner_kind o) role bump (address_encode wallet) (owner_key o) policy)
    as ((h & Hh & Hd) & Hck & H0 & H1 & Hrole & H4 & Hc & Hpl & Hw); [by destruct o|done|apply address_encode_length|done|].
  set (d := new_authority _ _ _ _ _ _) in *.
  split; [|done]. destruct o as [a|cred pk rp]; cbn [owner_key owner_kind] in *.
  - split_and!; [done..| |].
    + rewrite Hd. apply slice_mid; rewrite ?address_encode_length; lia.
    + rewrite Hd, app_assoc. apply drop_app_len. rewrite length_app, address_encode_length. lia.
  - destruct (owner_material _ f H Ho) as (Hcred & _ & _). cbn [resolveOwnerFields] in H. unfold assertByteLength, assertNonZeroBytes in H.
    apply bind_inv in H as ([] & H1'%throw_if_ok & H). apply bind_inv in H as ([] & H2'%throw_if_ok & H).
    apply negb_false_iff, Nat.eqb_eq in H1', H2'. rewrite <- !app_assoc in Hd.
    assert (Hsha := sha256_length (utf8 rp)). split_and!; [split; try done| |].
    + rewrite Hd, !length_app. lia.
    + unfold stored_pubkey. rewrite Hd, app_assoc. apply slice_mid; rewrite ?length_app; lia.
    + unfold stored_rp_id_hash. rewrite Hd, app_assoc, (app_assoc _ pk). apply slice_mid; rewrite ?length_app; lia.
    + rewrite Hd. apply slice_mid; lia.
    + rewrite Hd, app_assoc, (app_assoc _ pk), (app_assoc _ (sha256 _)). apply drop_app_len. rewrite !length_app. lia.
Qed.

(** The SDK's checks of a role are the program's. *)
Lemma role_checked role allow policy : assertAddAuthorityRole role allow policy = Ok () →
  0 <= role <= 2 ∧ (role =? RANK_DELEGATE) && (length (default [] policy) =? 0)%nat = false
  ∧ negb (role =? RANK_DELEGATE) && negb (length (default [] policy) =? 0)%nat = false.
Proof.
  unfold assertAddAuthorityRole. change ROLE_SPENDER with RANK_DELEGATE. intros H. apply bind_inv in H as ([] & _ & H).
  apply bind_inv in H as ([] & H1%throw_if_ok & H). apply bind_inv in H as ([] & H2%throw_if_ok & H).
  apply bind_inv in H as ([] & H3%throw_if_ok & _). apply orb_false_iff in H1 as [?%Z.ltb_ge ?%Z.ltb_ge]. split; [lia|].
  destruct policy as [[|x p]|]; cbn in H2, H3 |- *; by destruct (role =? RANK_DELEGATE).
Qed.

End authorities.

(** ** Instances *)
Module HandlerSample.
Import ConcreteKit Sample AuthSample.

Definition funding : Funding := mkFunding 0 1000000 true.

Lemma account_unbounded : unbounded_manager account.
Proof. split; [apply Z.leb_le|]; vm_compute; reflexivity. Qed.

(** The accounts of ExecuteDeferred, the authorization's fourth. *)
Definition load_deferred (stored : bytes) (infos : list AccountInfo) : list Loaded :=
  match infos with
  | p :: w :: v :: d :: rest =>
    mkLoaded p [] [] :: mkLoaded w (address_encode program) wallet_account :: mkLoaded v [] []
    :: mkLoaded d (address_encode program) stored :: ((λ i, mkLoaded i [] []) <$> rest)
  | _ => []
  end.

Lemma load_deferred_loads stored infos : (4 <= length infos)%nat →
  loads_deferred (load_deferred stored infos) infos (address_encode program) stored.
Proof.
  intros H. destruct infos as [|p [|w [|v [|d rest]]]]; cbn in H; try lia. cbn [load_deferred]. split_and!.
  - rewrite !fmap_cons. cbn [ld_info]. do 4 f_equal. rewrite <- list_fmap_compose. apply list_fmap_id.
  - eexists. split; [reflexivity|]. split; [done|]. vm_compute. reflexivity.
  - eexists. split; [reflexivity|]. done.
Qed.

Lemma load_fourth infos : (4 <= length infos)%nat → ∃ s, load infos !! 3%nat = Some s ∧ ld_data s = [].
Proof. intros H. destruct infos as [|p [|w [|v [|d rest]]]]; cbn in H; try lia. by eexists. Qed.

Lemma load_second infos : (4 <= length infos)%nat → ∃ w, load infos !! 1%nat = Some w ∧ ld_data w = wallet_account.
Proof. intros H. destruct infos as [|p [|w [|v [|d rest]]]]; cbn in H; try lia. by eexists. Qed.
End HandlerSample.

Import ConcreteKit Sample AuthSample HandlerSample.

(** Authorized by one payer, executed by another party it named, fee charged. *)
Lemma deferred_execution_agrees_witness :
  ∃ c' prepared az ix1 stored c3 out ix2 infos calls,
    prepareAuthorize node program payer wallet params [inner] None (Some (at_byte 3)) None new_client = (c', Ok prepared)
    ∧ finalizeAuthorize prepared (answer (pz_signing prepared)) = Ok az
    ∧ authorize program funding (load (runtime_info (tx_metas (az_instructions az) payer) <$> accounts ix1)) (tail (data ix1)) 1 1001
        (mkInstructions (entry_of <$> az_instructions az) (length (az_instructions az) - 1)) = Ok (at_counter 8, stored)
    ∧ executeDeferredFromPayload node program true (pz_executor prepared) (az_deferredPayload az) None new_client = (c3, Ok out)
    ∧ last out = Some ix2
    ∧ execute_deferred program (load_deferred stored infos) (tail (data ix2)) 1 1200 2000000 500 = Ok (calls, zeros 176, 2000500) ∧ length calls = 1%nat.
Proof.
  destruct (returns_inv
    (prepareAuthorize node program payer wallet params [inner] None (Some (at_byte 3)) None new_client)
    (λ p, sample_fresh (pz_signing p) && bytesEqual (p_publicKeyBytes (pz_signing p)) (replicate 33 (u8 6)) &&
          match finalizeAuthorize p (answer (pz_signing p)) with
          | Ok az => match last (az_instructions az) with Some ix => (4 <=? length (accounts ix))%nat | None => false end &&
              returns (executeDeferredFromPayload node program true (pz_executor p) (az_deferredPayload az) None new_client)
                (λ out, match last out with
                        | Some ix => apart (5 + length (pz_remainingAccounts p)) ix
                          && match processor_accounts true (runtime_info (tx_metas out (pz_executor p)) <$> accounts ix) with
                             | Ok infos => (4 <=? length infos)%nat | _ => false end
                        | None => false end)
          | _ => false end))
    as (c' & p & E & [[Hfr Hkey%bytesEqual_spec]%andb_prop Hfin]%andb_prop); [vm_compute; reflexivity|].
  destruct (finalizeAuthorize p (answer (pz_signing p))) as [az|] eqn:F; [|discriminate Hfin].
  apply andb_prop in Hfin as [Hl1 Hfin]. apply returns_inv in Hfin as (c3 & out & E2 & Hap).
  pose proof account_stored as S. rewrite <- Hkey in S.
  destruct (@deferred_execution_agrees kit kit_laws program node payer wallet params [inner] None
    (Some (at_byte 3)) None payer _ _ p (answer (pz_signing p)) az 7 1001 account rp funding E F) as (ix1 & stored & H1 & _ & Hst & Hnext);
    [apply Nat.leb_le; reflexivity|exact inner_fits| |cbn; unfold MIN_EXPIRY_SLOTS, MAX_EXPIRY_SLOTS; lia|cbn; lia|done
    |exact (sample_fresh_ok _ Hfr)|apply answer_genuine|exact S|exact account_unbounded|].
  { constructor; [|constructor]. apply (bool_decide_eq_true_1 (programAddress inner ≠ program)). vm_compute. reflexivity. }
  rewrite H1 in Hl1. apply Nat.leb_le in Hl1.
  destruct (Hnext node true new_client c3 out 1200 E2) as (ix2 & infos & vault & b & Hl & _ & _ & Hacc & Hc).
  { intros ix Hix. rewrite Hix in Hap. apply andb_prop in Hap as [Hap _]. exact (apart_ok _ _ Hap). }
  { cbn. lia. }
  rewrite Hl in Hap. apply andb_prop in Hap as [_ Hap]. cbn [default] in Hacc. rewrite Hacc in Hap. apply Nat.leb_le in Hap.
  destruct (Hc _ 2000000 500 (load_deferred_loads stored infos Hap) eq_refl) as (calls & Hx & Hr).
  exists c', p, az, ix1, stored, c3, out, ix2, infos, calls. split; [exact E|]. split; [exact F|]. split.
  { apply Hst, load_loads. rewrite length_fmap. lia. }
  split; [exact E2|]. split; [exact Hl|]. split; [exact Hx|]. symmetry. exact (Forall2_length _ _ _ Hr).
Defined.



(** The SDK marks the payer read-only, and the runtime will not let it pay for the account
    unless it also pays for the transaction. *)
Example payer_must_pay_for_transaction :
  let run txPayer :=
    match prepareCreateSession node program payer wallet params (at_byte 16) 5000 (Some sample_policy) None new_client with
    | (_, Ok p) => match finalizeCreateSession p (answer (pc_signing p)) with
                   | Ok (out, _) => match last out with
                       | Some ix => create_session program funding (load (runtime_info (tx_metas out txPayer) <$> accounts ix)) (tail (data ix)) 1 1001
                                      (mkInstructions (entry_of <$> out) (length out - 1))
                       | None => Throw (EExternal "none") end
                   | _ => Throw (EExternal "none") end
    | _ => Throw (EExternal "none") end in
  is_ok (run payer) = true ∧ match run (at_byte 3) with Throw (EExternal m) => m = "privilege escalation"%string | _ => False end.
Proof. vm_compute. split; reflexivity. Qed.
