(* ===== verification/WorkerPool.v ===== *)
(** * Bounded concurrency

    Models [mapBounded] of src/sdk/sdk-kit/src/client.ts: workers that share
    one [next] index, each taking the next item, awaiting [fn] on it and
    storing the result at the item's place. The pool is a state machine that
    moves each time a call settles; [mapBounded] runs it with the calls of a
    client, in the order the outside settles them. *)
From S2P Require Import Prelude Bytes Kit Client.
Local Open Scope nat_scope.

Section pool.
Context {B : Type}.

Record pool := mkPool {
  p_next : nat;
  p_out : list (option B);
  (** The items whose [fn] is awaited, one per worker still in its loop. *)
  p_running : list nat;
  (** What [Promise.all] has rejected with. *)
  p_failed : option error;
}.

(** A worker at the head of its [while], over [n] items. *)
Definition turn (n : nat) (p : pool) : pool :=
  if p_next p <? n
  then mkPool (S (p_next p)) (p_out p) (p_running p ++ [p_next p]) (p_failed p)
  else p.

(** [Array.from({ length: Math.min(limit, items.length) }, worker)]. *)
Definition start (limit n : nat) : pool :=
  Nat.iter (Nat.min limit n) (turn n) (mkPool 0 (replicate n None) [] None).

Definition finish_item (i : nat) (l : list nat) : list nat := List.filter (λ j, negb (j =? i)) l.

(** [fn(items[i])] settles: its worker stores the result and goes on, or ends
    with the error; the first error is the one the caller sees. *)
Definition settle (n i : nat) (r : result B) (p : pool) : pool :=
  match r with
  | Ok y => turn n (mkPool (p_next p) (<[i := Some y]> (p_out p)) (finish_item i (p_running p))
                      (p_failed p))
  | Throw e => mkPool (p_next p) (p_out p) (finish_item i (p_running p))
                 (match p_failed p with None => Some e | f => f end)
  end.

Inductive reachable (limit n : nat) : pool → Prop :=
  | reach_start : reachable limit n (start limit n)
  | reach_settle p i r :
      reachable limit n p → i ∈ p_running p → reachable limit n (settle n i r p).

(** What [k] workers leave invariant: the items in flight are distinct and at
    most [k]; items are taken once, in input order; a place of [out] is filled
    only when its own item's call has ended; and as long as nothing failed no
    item is lost, and no worker idles while items are left. *)
Record PoolInv (k n : nat) (p : pool) : Prop := {
  pi_nodup : NoDup (p_running p);
  pi_taken : ∀ i, i ∈ p_running p → i < p_next p;
  pi_limit : length (p_running p) <= k;
  pi_next : p_next p <= n;
  pi_length : length (p_out p) = n;
  pi_filled : ∀ i y, p_out p !! i = Some (Some y) → i < p_next p ∧ i ∉ p_running p;
  pi_kept : p_failed p = None →
    ∀ i, i < p_next p → i ∈ p_running p ∨ ∃ y, p_out p !! i = Some (Some y);
  pi_busy : p_failed p = None → length (p_running p) = k ∨ p_next p = n;
}.

Lemma turn_inv k n p : PoolInv k n p → PoolInv (S k) n (turn n p).
Proof.
  intros [Hd Ht Hl Hn Hlen Hf Hk Hb]. unfold turn. destruct (Nat.ltb_spec (p_next p) n) as [Hlt|Hge].
  2:{ split; try done; [lia|]. intros _. right. lia. }
  split; cbn [p_next p_out p_running p_failed]; try done.
  - apply NoDup_app. split_and!; [done | | apply NoDup_singleton].
    intros i Hi%Ht Hj%list_elem_of_singleton. lia.
  - intros i [Hi%Ht|Hi%list_elem_of_singleton]%elem_of_app; lia.
  - rewrite length_app. simpl. lia.
  - intros i y [Hi Hr]%Hf. split; [lia|]. intros [?|?%list_elem_of_singleton]%elem_of_app; [done|lia].
  - intros H i Hi. rewrite elem_of_app, list_elem_of_singleton.
    destruct (decide (i = p_next p)) as [->|]; [tauto|]. destruct (Hk H i) as [?|?]; [lia|tauto|tauto].
  - intros H. rewrite length_app. simpl. destruct (Hb H); [left|]; lia.
Qed.

Lemma start_inv limit n : PoolInv (Nat.min limit n) n (start limit n).
Proof.
  unfold start. induction (Nat.min limit n) as [|k IH]; [|by apply turn_inv].
  split; cbn; try done; try lia; try apply NoDup_nil_2; try apply length_replicate.
  all: try (by intros i Hi%elem_of_nil); try (by intros i y [? ?]%lookup_replicate); try (by left).
Qed.

Lemma elem_of_finish i l j : j ∈ finish_item i l ↔ j ∈ l ∧ j ≠ i.
Proof.
  unfold finish_item. rewrite elem_of_filter_bool, negb_true_iff, Nat.eqb_neq. done.
Qed.

Lemma length_finish i l : NoDup l → i ∈ l → S (length (finish_item i l)) = length l.
Proof.
  induction 1 as [|j l Hj Hd IH]; [by intros ?%elem_of_nil|]. intros Hi. cbn [finish_item List.filter].
  destruct (Nat.eqb_spec j i) as [->|Hne]; cbn [negb].
  - assert (Hid : ∀ k, i ∉ k → List.filter (λ j, negb (j =? i)) k = k).
    { induction k as [|x k IHk]; [done|]. intros Hk. cbn.
      destruct (Nat.eqb_spec x i) as [->|]; [set_solver|]. cbn. rewrite IHk; [done|set_solver]. }
    by rewrite Hid.
  - cbn [length]. f_equal. apply IH. set_solver.
Qed.

Lemma NoDup_finish i l : NoDup l → NoDup (finish_item i l).
Proof.
  unfold finish_item. induction 1 as [|j l Hj Hd IH]; cbn; [constructor|].
  destruct (_ =? _); cbn; [done|]. constructor; [|done]. rewrite elem_of_filter_bool. tauto.
Qed.

Lemma settle_inv k n i r p : PoolInv k n p → i ∈ p_running p → PoolInv k n (settle n i r p).
Proof.
  intros [Hd Ht Hl Hn Hlen Hf Hk Hb] Hi. pose proof (length_finish _ _ Hd Hi) as Hlf.
  pose proof (NoDup_finish i _ Hd) as Hd'.
  destruct r as [y|e]; cbn [settle].
  - destruct k as [|k]; [lia|]. apply turn_inv.
    split; cbn [p_next p_out p_running p_failed]; try done.
    + intros j [Hj _]%elem_of_finish. auto.
    + lia.
    + by rewrite length_insert.
    + intros j z Hj. rewrite elem_of_finish. destruct (decide (j = i)) as [->|Hne].
      * split; [auto|tauto].
      * rewrite list_lookup_insert_ne in Hj by done. apply Hf in Hj. tauto.
    + intros H j Hj. rewrite elem_of_finish. destruct (decide (j = i)) as [->|Hne].
      * right. exists y. rewrite list_lookup_insert_eq; [done|]. rewrite Hlen. apply Ht in Hi. lia.
      * rewrite list_lookup_insert_ne by done. destruct (Hk H j Hj) as [?|?]; tauto.
    + intros H. destruct (Hb H); [left|right]; lia.
  - split; cbn [p_next p_out p_running p_failed]; try done.
    + intros j [Hj _]%elem_of_finish. auto.
    + lia.
    + intros j z Hj. rewrite elem_of_finish. apply Hf in Hj. tauto.
    + by destruct (p_failed p).
    + by destruct (p_failed p).
Qed.
End pool.
Arguments pool : clear implicits.

(** At most [limit] calls are ever in flight, no item is handed out twice, and
    no result lands in another item's place, however the calls settle. *)
Theorem pool_reachable_inv {B} limit n (p : pool B) :
  reachable limit n p → PoolInv (Nat.min limit n) n p.
Proof. induction 1; [apply start_inv | by apply settle_inv]. Qed.

(** Every settling moves the pool towards its end, where, if nothing failed,
    all the results are there. *)
Definition pool_rank {B} (n : nat) (p : pool B) : nat := (n - p_next p) + length (p_running p).

Lemma rank_start {B} limit n : pool_rank n (start (B := B) limit n) = n.
Proof.
  unfold start. set (p0 := mkPool (B := B) 0 (replicate n None) [] None).
  assert (H : ∀ k, k <= n → pool_rank n (Nat.iter k (turn n) p0) = n ∧ p_next (Nat.iter k (turn n) p0) = k).
  { induction k as [|k IH]; intros Hk; [unfold pool_rank; cbn; lia|].
    change (Nat.iter (S k) (turn n) p0) with (turn n (Nat.iter k (turn n) p0)).
    destruct IH as [Hr Hn]; [lia|]. revert Hr Hn. generalize (Nat.iter k (turn n) p0). clear -Hk.
    unfold turn, pool_rank. intros p Hr Hn.
    destruct (Nat.ltb_spec (p_next p) n); [|lia]. cbn [p_next p_running]. rewrite length_app. cbn. lia. }
  apply H. lia.
Qed.

Lemma rank_settle {B} k n i r (p : pool B) :
  PoolInv k n p → i ∈ p_running p → S (pool_rank n (settle n i r p)) <= pool_rank n p.
Proof.
  intros HI Hi. pose proof (length_finish _ _ (pi_nodup _ _ _ HI) Hi). unfold pool_rank.
  destruct r; cbn [settle]; [unfold turn; cbn [p_next p_running]|cbn; lia].
  destruct (Nat.ltb_spec (p_next p) n); cbn [p_next p_running]; rewrite ?length_app; cbn [length]; lia.
Qed.

Lemma pool_done {B} k n (p : pool B) :
  PoolInv k n p → (0 < k)%nat ∨ n = 0 → p_running p = [] → p_failed p = None →
  ∃ ys, mapM id (p_out p) = Some ys.
Proof.
  intros HI Hk Hr Hf. apply mapM_is_Some. apply Forall_lookup. intros i o Ho.
  assert (Hn : p_next p = n).
  { destruct (pi_busy _ _ _ HI Hf) as [Hb|]; [|done]. rewrite Hr in Hb. cbn in Hb.
    pose proof (pi_next _ _ _ HI). destruct Hk; lia. }
  apply lookup_lt_Some in Ho as Hlt. rewrite (pi_length _ _ _ HI), <- Hn in Hlt.
  destruct (pi_kept _ _ _ HI Hf i Hlt) as [Hi|[y Hy]]; [rewrite Hr in Hi; set_solver|].
  rewrite Ho in Hy. injection Hy as ->. by exists y.
Qed.

(** ** The pool of a client's calls *)
Section map_bounded.
Context `{K : Kit}.
Variable env : Env.
Context {T B : Type} (fn : T → M B) (items : list T).

(** A promise and how it settles. *)
Definition settled {A} (m : M A) : M (result A) := λ c, let '(c', r) := m c in (c', Ok r).

(** One of the calls in flight settles, as the outside has it. *)
Definition pick (k : nat) (l : list nat) : nat := nth (env_settles env k mod length l) l 0.

Fixpoint run_pool (fuel : nat) (p : pool B) : M (pool B) :=
  match fuel, p_running p with
  | S fuel, _ :: _ =>
    k ← ask;
    let i := pick k (p_running p) in
    match items !! i with
    | Some item => r ← settled (fn item); run_pool fuel (settle (length items) i r p)
    | None => mret p
    end
  | _, _ => mret p
  end.

Definition mapBounded (limit : nat) : M (list B) :=
  p ← run_pool (length items) (start limit (length items));
  match p_failed p with
  | Some e => lift (Throw e)
  | None => lift (of_option ERangeError (mapM id (p_out p)))
  end.

Lemma pick_elem k l : l ≠ [] → pick k l ∈ l.
Proof.
  intros Hl. unfold pick. apply list_elem_of_In, nth_In. apply Nat.mod_upper_bound. by destruct l.
Qed.

(** Every result stored is what the call on its item returned, and the error
    recorded is one a call threw. *)
Definition honest (p : pool B) : Prop :=
  (∀ i y, p_out p !! i = Some (Some y) →
     ∃ item c c', items !! i = Some item ∧ fn item c = (c', Ok y)) ∧
  (∀ e, p_failed p = Some e → ∃ item c c', item ∈ items ∧ fn item c = (c', Throw e)).

Lemma turn_honest p : honest p → honest (turn (length items) p).
Proof. unfold turn. by destruct (_ <? _). Qed.

Lemma settle_honest i item c c' r p :
  items !! i = Some item → fn item c = (c', r) → honest p → honest (settle (length items) i r p).
Proof.
  intros Hi Hf [Ho He]. destruct r as [y|e]; cbn [settle].
  - apply turn_honest. split; [|done]. cbn [p_out]. intros j z Hj.
    destruct (decide (i = j)) as [<-|Hne]; [|rewrite list_lookup_insert_ne in Hj by done; auto].
    apply list_lookup_insert_Some in Hj as [(_ & [= <-] & _)|[? _]]; [|done]. by exists item, c, c'.
  - split; [done|]. cbn [p_failed]. intros e' H. destruct (p_failed p) eqn:E; [auto|].
    injection H as <-. exists item, c, c'. split; [by eapply list_elem_of_lookup_2|done].
Qed.

Lemma start_honest limit : honest (start limit (length items)).
Proof.
  unfold start. induction (Nat.min _ _) as [|k IH]; [|by apply turn_honest].
  split; [|done]. by intros i y [? ?]%lookup_replicate.
Qed.

Lemma run_pool_ok fuel limit p c :
  reachable limit (length items) p → honest p → pool_rank (length items) p <= fuel →
  ∃ c' p', run_pool fuel p c = (c', Ok p') ∧ reachable limit (length items) p' ∧ honest p'
    ∧ p_running p' = [].
Proof.
  revert p c. induction fuel as [|fuel IH]; intros p c Hr Hh Hk.
  { exists c, p. split_and!; try done. unfold pool_rank in Hk. destruct (p_running p); [done|cbn in Hk; lia]. }
  cbn [run_pool]. destruct (p_running p) as [|i0 l0] eqn:El; [by exists c, p|].
  unfold mbind at 1, M_bind at 1. cbn [ask]. set (k := asked c). set (c1 := mkClient _ _ _).
  pose proof (pool_reachable_inv _ _ _ Hr) as HI.
  assert (Hpick : pick k (i0 :: l0) ∈ p_running p) by (rewrite El; by apply pick_elem).
  pose proof (pi_taken _ _ _ HI _ Hpick) as Hlt. pose proof (pi_next _ _ _ HI) as Hn.
  set (i := pick k (i0 :: l0)) in *.
  destruct (lookup_lt_is_Some_2 items i) as [item Hitem]; [lia|]. rewrite Hitem.
  unfold mbind at 1, M_bind at 1, settled. destruct (fn item c1) as [c2 r] eqn:Ef.
  apply IH.
  - by constructor.
  - by eapply settle_honest.
  - pose proof (rank_settle _ _ _ r _ HI Hpick). lia.
Qed.

(** [mapBounded] always settles: with every result, in input order, each the
    answer of the call on its item, or with an error one of the calls threw. *)
Theorem mapBounded_settles limit c : 0 < limit →
  ∃ c' r, mapBounded limit c = (c', r) ∧
    match r with
    | Ok ys => Forall2 (λ item y, ∃ c1 c2, fn item c1 = (c2, Ok y)) items ys
    | Throw e => ∃ item c1 c2, item ∈ items ∧ fn item c1 = (c2, Throw e)
    end.
Proof.
  intros Hlim. unfold mapBounded.
  destruct (run_pool_ok (length items) limit (start limit (length items)) c) as (c' & p & Hp & Hr & [Ho He] & Hd);
    [constructor | apply start_honest | by rewrite rank_start |].
  unfold mbind, M_bind. rewrite Hp. destruct (p_failed p) as [e|] eqn:Ef; [by exists c', (Throw e); split; [|by apply He]|].
  pose proof (pool_reachable_inv _ _ _ Hr) as HI.
  destruct (pool_done _ _ _ HI) as [ys Hys]; [|done|done|].
  { destruct items; [by right|]. left. cbn [length]. lia. }
  rewrite Hys. eexists _, (Ok ys). split; [done|].
  apply mapM_Some in Hys. pose proof (Forall2_length _ _ _ Hys) as Hl. rewrite (pi_length _ _ _ HI) in Hl.
  apply Forall2_same_length_lookup_2; [done|]. intros i item y Hi Hy.
  destruct (Forall2_lookup_r _ _ _ _ _ Hys Hy) as (o & Hio & Hoy). unfold id in Hoy. subst o.
  destruct (Ho _ _ Hio) as (item' & c1 & c2 & Hi' & Hf). rewrite Hi in Hi'. injection Hi' as <-. by exists c1, c2.
Qed.
End map_bounded.
