(* ===== verification/WalletLookup.v ===== *)
(** * Finding and vetting wallets

    Models the wallet lookup of src/sdk/sdk-kit/src/client.ts: the raw scan by
    authority, a returning passkey's candidates, the reads of everything that
    can spend from a wallet, the facts reported about each candidate, the
    choice of the user's own wallet, and the vetting of a migration's
    destination. *)
From S2P Require Import Prelude Bytes Kit Constants JsMap Pdas Builders Accounts Json Ownership.
From S2P Require Import V1 ClientHelpers Client WorkerPool.
Local Open Scope Z_scope.

(** [atOrAfterSlot]: [more] further tries while the node is behind. *)
Fixpoint atOrAfterSlot `{K : Kit} {A} (more : nat) (read : M A) : M A := λ c,
  match read c with
  | (c, Throw e) =>
    match more with
    | S more => if is_min_context_slot e then atOrAfterSlot more read c else (c, Throw e)
    | O => (c, Throw e)
    end
  | r => r
  end.

(** [OWNERSHIP_DISCS]. *)
Record Discs := mkDiscs { d_wallet : Z; d_authority : Z; d_session : Z; d_deferred : Z }.

Definition OWNERSHIP_DISCS (version : Z) : Discs :=
  if version =? 1
  then mkDiscs V1_DISC_WALLET V1_DISC_AUTHORITY V1_DISC_SESSION V1_DISC_DEFERRED_EXEC
  else mkDiscs DISC_WALLET DISC_AUTHORITY DISC_SESSION DISC_DEFERRED_EXEC.

(** [expiryAt]. *)
Definition expiryAt (data : bytes) (offset : nat) : result Z :=
  if (offset + 8 <=? length data)%nat then readU64 data offset else Ok U64_MAX.

Section lookup.
Context `{K : Kit}.
Variable env : Env.
Variable programId : address.

Abbreviation row := (address * bytes)%type.

Definition ZERO_ADDRESS : address := address_lit "11111111111111111111111111111111".

(** [{ pubkey, data }] of a [{ pubkey, account }]. *)
Definition row_of (entry : address * AccountView) : result row :=
  data ← decodeBase64 (av_data entry.2); Ok (entry.1, data).

(** [memcmp] filters, by offset. *)
Definition getProgramAccounts (program : address) (filters : list (nat * bytes))
    (minContextSlot : option Z) : M (Z * list (address * AccountView)) :=
  n ← ask; lift (env_getProgramAccounts env n program filters minContextSlot).

(** ** Lookup by authority *)
Record WalletAuthorityRecord := mkWar {
  war_walletPda : address;
  war_authorityPda : address;
  war_vaultPda : address;
  war_role : option Z;
  war_authorityType : option Z;
}.

Definition authority_record (entry : address * AccountView) : M WalletAuthorityRecord :=
  '(pubkey, data) ← lift (row_of entry);
  walletPda ← lift (addressFromBytes (slice 16 48 data));
  '(vaultPda, _) ← findVault programId walletPda;
  mret (mkWar walletPda pubkey vaultPda (byte_at data 2) (byte_at data 1)).

Definition findWalletsByAuthority (credential : bytes) (authorityType : AuthorityTypeName) :
    M (list WalletAuthorityRecord) :=
  _ ← lift (assertByteLength credential 32 "credential");
  let typeValue := match authorityType with Ed25519 => AUTH_TYPE_ED25519
                                          | Secp256r1 => AUTH_TYPE_SECP256R1 end in
  '(_, accounts) ← getProgramAccounts programId
    [(0%nat, [u8 DISC_AUTHORITY; u8 typeValue]); (48%nat, credential)] None;
  mapM authority_record accounts.

(** ** A returning passkey's candidates *)

(** One account of [scan], or [None] when it is skipped. *)
Definition candidate_of (version : Z) (program : address) (entry : address * AccountView) :
    M (option PasskeyWalletCandidate) :=
  '(pubkey, data) ← lift (row_of entry);
  if (length data <? 145)%nat || negb (byte_is data 2 ROLE_OWNER) then mret None
  else
    walletPda ← lift (addressFromBytes (slice 16 48 data));
    '(vaultPda, _) ← lift (if version =? 2 then findVaultPda walletPda program
                           else findV1VaultPda walletPda program);
    mret (Some (mkCandidate version program walletPda vaultPda pubkey (slice 80 113 data))).

Definition scan_candidates (credentialIdHash rpIdHash : bytes) (version : Z) (program : address) :
    M (list PasskeyWalletCandidate) :=
  '(_, accounts) ← getProgramAccounts program
    [(0%nat, [u8 (d_authority (OWNERSHIP_DISCS version)); u8 AUTH_TYPE_SECP256R1]);
     (48%nat, credentialIdHash); (113%nat, rpIdHash)] None;
  out ← mapM (candidate_of version program) accounts;
  mret (omap id out).

Definition findPasskeyWalletCandidates (credentialIdHash : bytes) (rpId : string)
    (includeV1 : option bool) : M (list PasskeyWalletCandidate) :=
  _ ← lift (assertByteLength credentialIdHash 32 "credentialIdHash");
  let rpIdHash := sha256 (utf8 rpId) in
  '(v2, v1) ← both env
    (scan_candidates credentialIdHash rpIdHash 2 programId)
    (match includeV1 with
     | Some false => mret []
     | _ => scan_candidates credentialIdHash rpIdHash 1 (legacyProgramIdFor programId)
     end);
  mret (v2 ++ v1).

(** ** The reads *)
Record AccountRead := mkRead { ar_owner : address; ar_lamports : Z; ar_data : bytes }.

Definition read_of (info : option AccountView) : result (option AccountRead) :=
  match info with
  | None => Ok None
  | Some i => data ← decodeBase64 (av_data i); Ok (Some (mkRead (av_owner i) (av_lamports i) data))
  end.

(** What the predicates on an account look at. *)
Definition owner_data (r : option AccountRead) : option (address * bytes) :=
  (λ i, (ar_owner i, ar_data i)) <$> r.

(** [for (let i = 0; i < addresses.length; i += 100)], from the page at the
    front of [addresses]. *)
Fixpoint read_pages (fuel : nat) (addresses : list address) (minContextSlot : option Z)
    (slot : Z) (infos : list (option AccountRead)) : M (Z * list (option AccountRead)) :=
  match fuel, addresses with
  | S fuel, _ :: _ =>
    '(contextSlot, value) ← atOrAfterSlot 4
      (n ← ask; lift (env_getMultipleAccounts env n (take 100 addresses) minContextSlot));
    page ← lift (mapR read_of value);
    read_pages fuel (drop 100 addresses) minContextSlot (maxSlot slot [contextSlot]) (infos ++ page)
  | _, _ => mret (slot, infos)
  end.

Definition readAccounts (addresses : list address) (minContextSlot : option Z) :
    M (Z * list (option AccountRead)) :=
  read_pages (length addresses) addresses minContextSlot (default 0 minContextSlot) [].

Definition scanWalletAccounts (program wallet : address) (disc : Z) (walletOffset : nat)
    (minContextSlot : option Z) : M (Z * list row) :=
  '(slot, value) ← atOrAfterSlot 4 (getProgramAccounts program
    [(0%nat, [u8 disc]); (walletOffset, address_encode wallet)] minContextSlot);
  rows ← lift (mapR row_of value);
  mret (slot, rows).

Definition readTokenAccounts (vault tokenProgram : address) (minContextSlot : option Z) :
    M (Z * list row) :=
  '(slot, value) ← atOrAfterSlot 4
    (n ← ask; lift (env_getTokenAccountsByOwner env n vault tokenProgram minContextSlot));
  rows ← lift (mapR row_of value);
  mret (slot, rows).

Record OwnedTokens := mkOwned { ot_slot : Z; ot_spl : list row; ot_token2022 : list row }.

Definition readVaultTokenAccounts (vault : address) (minContextSlot : option Z) : M OwnedTokens :=
  '((s1, spl), (s2, token2022)) ← both env
    (readTokenAccounts vault TOKEN_PROGRAM_ADDRESS minContextSlot)
    (readTokenAccounts vault TOKEN_2022_PROGRAM_ADDRESS minContextSlot);
  mret (mkOwned (maxSlot s1 [s2]) spl token2022).

Record SpendingState := mkSpending {
  ss_authorities : list row;
  ss_sessions : list row;
  ss_deferred : list row;
  ss_infos : list (option AccountRead);
  ss_ownedTokens : OwnedTokens;
  ss_slot : Z;
}.

Definition readSpendingState (program wallet vault : address) (discs : Discs)
    (accounts : list address) : M SpendingState :=
  let scan := scanWalletAccounts program wallet in
  '(t1, authorities) ← scan (d_authority discs) 16%nat None;
  '((t2, sessions), (t2', deferred)) ← both env
    (scan (d_session discs) 8%nat (Some t1)) (scan (d_deferred discs) 72%nat (Some t1));
  let after := maxSlot t2 [t2'] in
  '((t3, infos), ownedTokens) ← both env
    (readAccounts accounts (Some after)) (readVaultTokenAccounts vault (Some after));
  mret (mkSpending authorities sessions deferred
          ((λ i, mjoin (infos !! i)) <$> seq 0 (length accounts)) ownedTokens
          (maxSlot t3 [ot_slot ownedTokens])).

(** ** A candidate's facts *)
Definition watchedAtasOf (vault : address) (mints : list address) : result (list address) :=
  mapR (λ mint, getAssociatedTokenAddress mint vault TOKEN_PROGRAM_ADDRESS) mints.

(** What the watched accounts are paired with. *)
Definition watched_of (atas mints : list address) (infos : list (option AccountRead)) : list Watched :=
  zip_with (λ am info, mkWatched am.1 am.2 (owner_data info)) (zip atas mints) infos.

(** The candidate's authority is still the Owner-rank key it was found with. *)
Definition own_intact (c : PasskeyWalletCandidate) (own : option bytes) : bool :=
  match own with
  | Some d => (145 <=? length d)%nat && byte_is d 1 AUTH_TYPE_SECP256R1 && byte_is d 2 ROLE_OWNER
              && bytesEqual (slice 80 113 d) (c_publicKey c)
  | None => false
  end.

Definition own_rpIdHash (own : option bytes) : option bytes :=
  match own with
  | Some d => if (145 <=? length d)%nat then Some (slice 113 145 d) else None
  | None => None
  end.

Definition other_authority (trustedKeys : list address) (rpIdHash : option bytes) (r : row) :
    result OtherAuthority :=
  let '(pubkey, data) := r in
  let role := roleName (byte_at data 2) in
  if byte_is data 1 AUTH_TYPE_ED25519 then
    publicKey ← (if (80 <=? length data)%nat
                 then k ← addressFromBytes (slice 48 80 data); Ok (Some k) else Ok None);
    Ok (mkOther pubkey (KindEd25519 publicKey) role
          (match publicKey with Some k => bool_decide (k ∈ trustedKeys) | None => false end))
  else
    Ok (mkOther pubkey (KindSecp256r1
          (match rpIdHash with
           | Some h => (145 <=? length data)%nat && bytesEqual (slice 113 145 data) h
           | None => false
           end)) role false).

(** A session, or [None] once it has expired. *)
Definition live_session (trustedKeys : list address) (slot : Z) (r : row) : result (option LiveSession) :=
  let '(pubkey, data) := r in
  let readable := (80 <=? length data)%nat in
  expiresAtSlot ← (if readable then readU64 data 72 else Ok U64_MAX);
  if expiresAtSlot <? slot then Ok None
  else
    sessionKey ← (if readable then addressFromBytes (slice 40 72 data) else Ok ZERO_ADDRESS);
    Ok (Some (mkLive pubkey sessionKey expiresAtSlot (readable && bool_decide (sessionKey ∈ trustedKeys)))).

Definition pending_deferred (slot : Z) (r : row) : result (option PendingDeferred) :=
  let '(pubkey, data) := r in
  let readable := (176 <=? length data)%nat in
  expiresAtSlot ← (if readable then readU64 data 168 else Ok U64_MAX);
  if expiresAtSlot <? slot then Ok None
  else
    authorizedBy ← (if readable then addressFromBytes (slice 104 136 data) else Ok ZERO_ADDRESS);
    Ok (Some (mkPending pubkey authorizedBy expiresAtSlot false)).

Definition is_own (c : PasskeyWalletCandidate) (r : row) : bool := bool_decide (r.1 = c_authorityPda c).

(** From what was read, the facts; [None] when the wallet is gone. *)
Definition facts_of (c : PasskeyWalletCandidate) (slot : Z) (trustedKeys mints atas : list address)
    (read : SpendingState) : result (option WalletFacts) :=
  let walletInfo := mjoin (ss_infos read !! 0%nat) in
  let vaultInfo := mjoin (ss_infos read !! 1%nat) in
  let ataInfos := drop 2 (ss_infos read) in
  if negb (isLiveWallet (c_programId c) (c_version c) (owner_data walletInfo)) then Ok None
  else
    let lamports := match vaultInfo with Some i => ar_lamports i | None => 0 end in
    let vaultIsSystemAccount := isSystemAccount (owner_data vaultInfo) in
    let own := snd <$> List.find (is_own c) (ss_authorities read) in
    let ownIntact := own_intact c own in
    otherAuthorities ← mapR (other_authority trustedKeys (own_rpIdHash own))
      (List.filter (λ r, negb (is_own c r)) (ss_authorities read));
    sessions ← mapR (live_session trustedKeys slot) (ss_sessions read);
    deferred ← mapR (pending_deferred slot) (ss_deferred read);
    let liveSessions := omap id sessions in
    let pendingDeferred := omap id deferred in
    tokenGrants ← vaultTokenGrants (c_vaultPda c) (ot_spl (ss_ownedTokens read))
      (ot_token2022 (ss_ownedTokens read)) (watched_of atas mints ataInfos) trustedKeys;
    let controlledAlone :=
      ownIntact && vaultIsSystemAccount && forallb oa_trusted otherAuthorities
      && forallb ls_trusted liveSessions && forallb pd_trusted pendingDeferred
      && forallb tg_trusted tokenGrants in
    signatureCount ← (if ownIntact then readU32 (default [] own) 8 else Ok 0);
    Ok (Some (mkFacts c lamports slot otherAuthorities liveSessions pendingDeferred
                vaultIsSystemAccount tokenGrants controlledAlone signatureCount)).

Definition describeCandidate (slot : Z) (trustedKeys mints : list address)
    (c : PasskeyWalletCandidate) : M (option WalletFacts) :=
  atas ← lift (watchedAtasOf (c_vaultPda c) mints);
  read ← readSpendingState (c_programId c) (c_walletPda c) (c_vaultPda c)
    (OWNERSHIP_DISCS (c_version c)) (c_walletPda c :: c_vaultPda c :: atas);
  lift (facts_of c slot trustedKeys mints atas read).

Definition getSlot : M Z := n ← ask; lift (env_getSlot env n).

Definition parse_keys (keys : list string) : result (list address) :=
  mapR (λ k, of_option (EExternal "address") (parse_address k)) keys.

(** The candidates whose wallet is there. *)
Definition live_candidates (candidates : list PasskeyWalletCandidate)
    (wallets : list (option AccountRead)) : list PasskeyWalletCandidate :=
  fst <$> List.filter
    (λ ci, isLiveWallet (c_programId ci.1) (c_version ci.1) (owner_data (mjoin (wallets !! ci.2))))
    (zip candidates (seq 0 (length candidates))).

Definition describeWalletCandidates (candidates : list PasskeyWalletCandidate)
    (trustedKeys watchMints : option (list string)) : M (list WalletFacts) :=
  trusted ← lift (parse_keys (default [] trustedKeys));
  mints ← lift (watchedMints (default [] watchMints));
  if (length candidates =? 0)%nat then mret []
  else
    slot ← getSlot;
    '(_, wallets) ← readAccounts (c_walletPda <$> candidates) None;
    let live := live_candidates candidates wallets in
    described ← mapBounded env (describeCandidate slot trusted mints) live 4;
    mret (omap id described).

Record OwnWallet := mkOwnWallet {
  ow_adopt : option WalletFacts;
  ow_needsConfirmation : list WalletFacts;
  ow_unproven : Z;
}.

Definition findOwnPasskeyWallet (credentialIdHash : bytes) (rpId : string) (proof : OwnershipProof)
    (trustedKeys watchMints : option (list string)) (includeV1 : option bool) : M OwnWallet :=
  candidates ← findPasskeyWalletCandidates credentialIdHash rpId includeV1;
  let proven := verifyOwnershipProof c_publicKey candidates proof rpId in
  let unproven := Z.of_nat (length candidates) - Z.of_nat (length proven) in
  if (length proven =? 0)%nat then mret (mkOwnWallet None [] unproven)
  else
    facts ← describeWalletCandidates proven trustedKeys watchMints;
    let '(adopt, needsConfirmation) := pickOwnWallet facts in
    mret (mkOwnWallet adopt needsConfirmation unproven).

(** ** Vetting a migration's destination *)

(** Why a wallet is not this key's alone; the texts that quote a token grant
    carry it. *)
Inductive Refusal :=
  | NotAWallet
  | AuthorityCount (n : nat)
  | NotThisKeysAlone
  | OtherKeyOrParty
  | HasLiveSession
  | HasPendingDeferred
  | VaultCarriesData
  | VaultOwnedBy (owner : address)
  | VaultGrant (g : TokenGrant).

Record Vet := mkVetted { vt_problem : option Refusal; vt_slot : Z; vt_signatureCount : Z }.

Definition some_live (rows : list row) (offset : nat) (slot : Z) : result bool :=
  expiries ← mapR (λ x, expiryAt x.2 offset) rows;
  Ok (existsb (λ e, slot <=? e) expiries).

(** The passkey stored on an authority is the owner's: key and relying party. *)
Definition stores_passkey (fields : OwnerFields) (a : bytes) : bool :=
  bytesEqual (slice 80 113 a) (default [] (secp256r1Pubkey fields))
  && bytesEqual (slice 113 145 a) (sha256 (utf8 (default "" (of_rpId fields)))).

Definition vault_problem (vaultInfo : option (address * bytes)) : option Refusal :=
  if isSystemAccount vaultInfo then None
  else match vaultInfo with
       | Some (owner, _) => Some (if bool_decide (owner = SYSTEM_PROGRAM_ADDRESS) then VaultCarriesData
                                  else VaultOwnedBy owner)
       | None => None
       end.

(** The checks on what was read, in order. *)
Definition vet_of (vault : address) (fields : OwnerFields) (mints atas : list address)
    (slot : Z) (read : SpendingState) : result Vet :=
  let refuse problem := Ok (mkVetted (Some problem) (ss_slot read) 0) in
  let walletInfo := mjoin (ss_infos read !! 0%nat) in
  let vaultInfo := mjoin (ss_infos read !! 1%nat) in
  let watchedInfos := drop 2 (ss_infos read) in
  if negb (isLiveWallet programId 2 (owner_data walletInfo)) then refuse NotAWallet
  else match ss_authorities read with
  | [(_, a)] =>
    if negb (byte_is a 1 (authType fields)) || negb (byte_is a 2 ROLE_OWNER)
       || negb (bytesEqual (slice 48 80 a) (credentialOrPubkey fields))
    then refuse NotThisKeysAlone
    else if (authType fields =? AUTH_TYPE_SECP256R1) && negb (stores_passkey fields a)
    then refuse OtherKeyOrParty
    else
      liveSession ← some_live (ss_sessions read) 72 slot;
      if (liveSession : bool) then refuse HasLiveSession
      else
        pending ← some_live (ss_deferred read) 168 slot;
        if (pending : bool) then refuse HasPendingDeferred
        else match vault_problem (owner_data vaultInfo) with
        | Some problem => refuse problem
        | None =>
          grants ← vaultTokenGrants vault (ot_spl (ss_ownedTokens read))
            (ot_token2022 (ss_ownedTokens read)) (watched_of atas mints watchedInfos) [];
          match grants with
          | grant :: _ => refuse (VaultGrant grant)
          | [] =>
            signatureCount ← (if authType fields =? AUTH_TYPE_SECP256R1 then readU32 a 8 else Ok 0);
            Ok (mkVetted None (ss_slot read) signatureCount)
          end
        end
  | l => refuse (AuthorityCount (length l))
  end.

Definition vetDestination (wallet : address) (owner : CreateWalletOwner) (mints : list address) : M Vet :=
  fields ← lift (resolveOwnerFields owner);
  slot ← getSlot;
  '(vault, _) ← findVault programId wallet;
  watchedAtas ← lift (watchedAtasOf vault mints);
  read ← readSpendingState programId wallet vault (OWNERSHIP_DISCS 2)
    (wallet :: vault :: watchedAtas);
  lift (vet_of vault fields mints watchedAtas slot read).

Definition vetMigrationDestination (wallet : address) (owner : CreateWalletOwner)
    (watchMints : option (list string)) : M (option Refusal) :=
  mints ← lift (watchedMints (default [] watchMints));
  vet ← vetDestination wallet owner mints;
  mret (vt_problem vet).

(** ** The owner's passkey on other accounts *)
Definition assertV1PasskeyOwner (authority : address) (owner : CreateWalletOwner) : M unit :=
  fields ← lift (resolveOwnerFields owner);
  value ← rpc_getAccountInfo env authority;
  match value with
  | None => lift (Throw EAuthorityNotFound)
  | Some v =>
    data ← lift (decodeBase64 (av_data v));
    lift (throw! ENotPasskeyAuthority when (length data <? 145)%nat;
          throw! EOwnerKeyMismatch
            when negb (bytesEqual (slice 80 113 data) (default [] (secp256r1Pubkey fields)));
          throw! EOwnerRpMismatch
            when negb (bytesEqual (slice 113 145 data) (sha256 (utf8 (default "" (of_rpId fields)))));
          Ok ())%js
  end.

Record SignedAuthority := mkSignedAuthority {
  sa_walletPda : address;
  sa_authorityPda : address;
  sa_role : option Z;
}.

(** One account of the scan, or [None] when it is skipped. *)
Definition signed_authority (fields : OwnerFields) (entry : address * AccountView) :
    result (option SignedAuthority) :=
  '(pubkey, data) ← row_of entry;
  if (length data <? 145)%nat || negb (stores_passkey fields data) then Ok None
  else
    counter ← readU32 data 8;
    if counter =? 0 then Ok None
    else
      walletPda ← addressFromBytes (slice 16 48 data);
      Ok (Some (mkSignedAuthority walletPda pubkey (byte_at data 2))).

Definition signedPasskeyAuthorities (owner : CreateWalletOwner) : M (list SignedAuthority) :=
  fields ← lift (resolveOwnerFields owner);
  let rpIdHash := sha256 (utf8 (default "" (of_rpId fields))) in
  '(_, accounts) ← getProgramAccounts programId
    [(0%nat, [u8 DISC_AUTHORITY; u8 AUTH_TYPE_SECP256R1]);
     (48%nat, credentialOrPubkey fields); (113%nat, rpIdHash)] None;
  out ← lift (mapR (signed_authority fields) accounts);
  mret (omap id out).
End lookup.
