(* ===== verification/Ledger.v ===== *)
(** * The ledger behind the reads

    What the wallet lookup reads is a moving ledger: transactions change it
    while the client reads, and each read is answered from the state at the end
    of some slot. This file states that setting: a history of ledger states, a
    node that serves reads from it ([Serves], the documented meaning of
    [minContextSlot], [memcmp] filters and [getTokenAccountsByOwner]), the
    powers over one wallet's funds that a state holds, and which power can make
    which (the order of [readSpendingState] in src/sdk/sdk-kit/src/client.ts).
    The main lemma, [reads_in_order_are_complete], is the argument of that
    function's comment. *)
From S2P Require Import Prelude Bytes Kit Constants Builders Accounts Ownership ClientHelpers.
From S2P Require Import Client WalletLookup.
Local Open Scope Z_scope.

Section ledger.
Context `{K : Kit}.

Record account := mkAccount { acc_owner : address; acc_lamports : Z; acc_data : bytes }.
Definition ledger := address → option account.

Definition view_of (a : account) : AccountView :=
  view_of_bytes (acc_owner a) (acc_lamports a) (acc_data a).

Definition matches (filters : list (nat * bytes)) (data : bytes) : bool :=
  forallb (λ f, bytesEqual (slice f.1 (f.1 + length f.2) data) f.2) filters.

(** The token program's own test of what is a token account. *)
Variable valid_token : bytes → bool.

Definition token_account_of (tokenProgram vault : address) (a : account) : Prop :=
  acc_owner a = tokenProgram ∧ valid_token (acc_data a) = true
  ∧ slice 32 64 (acc_data a) = address_encode vault.

(** A node, or several behind one address: each answer is the ledger at the
    end of the slot it names, no older than the slot asked for. *)
Record Serves (env : Env) (bank : Z → ledger) : Prop := {
  sv_program n program filters min slot rows :
    env_getProgramAccounts env n program filters min = Ok (slot, rows) →
    default slot min <= slot ∧
    ∀ a v, (a, v) ∈ rows ↔ ∃ acc, bank slot a = Some acc ∧ acc_owner acc = program
                                 ∧ matches filters (acc_data acc) = true ∧ v = view_of acc;
  sv_multiple n addresses min slot infos :
    env_getMultipleAccounts env n addresses min = Ok (slot, infos) →
    default slot min <= slot ∧ infos = (λ a, view_of <$> bank slot a) <$> addresses;
  sv_tokens n vault tokenProgram min slot rows :
    env_getTokenAccountsByOwner env n vault tokenProgram min = Ok (slot, rows) →
    default slot min <= slot ∧
    ∀ a v, (a, v) ∈ rows ↔ ∃ acc, bank slot a = Some acc ∧ token_account_of tokenProgram vault acc
                                 ∧ v = view_of acc;
}.

(** ** Powers over a wallet *)

(** What can move the funds of a wallet, identified by what the program checks
    when it is used: an authority by its type, rank and key material, a session
    by its key and expiry, a pending deferred execution by its expiry; and the
    rights the vault's tokens, or the vault itself, may have been given away
    to. *)
Inductive power :=
  | PAuthority (pda : address) (type role : option Z) (credential publicKey : bytes)
  | PSession (pda : address) (key expiry : bytes)
  | PDeferred (pda : address) (expiry : bytes)
  | PDelegate (tokenProgram tokenAccount grantee : address)
  | PNativeClose (tokenProgram tokenAccount grantee : address)
  | PTaken (ata owner : address)
  | PVault.

Variables (program wallet vault : address) (discs : Discs) (watched : list address).

Definition program_account (disc : Z) (walletOffset : nat) (a : account) : bool :=
  bool_decide (acc_owner a = program)
  && matches [(0%nat, [u8 disc]); (walletOffset, address_encode wallet)] (acc_data a).

Definition vault_token_account (tokenProgram : address) (a : account) : bool :=
  (bool_decide (tokenProgram = TOKEN_PROGRAM_ADDRESS)
   || bool_decide (tokenProgram = TOKEN_2022_PROGRAM_ADDRESS))
  && bool_decide (acc_owner a = tokenProgram) && valid_token (acc_data a) && bytesEqual (slice 32 64 (acc_data a)) (address_encode vault).

(** The [COption] at [offset] is set to [grantee]. *)
Definition option_set (data : bytes) (offset : nat) (grantee : address) : bool :=
  negb (le_combine (slice offset (offset + 4) data) =? 0)
  && bytesEqual (slice (offset + 4) (offset + 36) data) (address_encode grantee).

Definition IS_NATIVE : nat := 109.

Definition at_account (L : ledger) (a : address) (test : account → bool) : bool :=
  match L a with Some acc => test acc | None => false end.

Definition holds (L : ledger) (p : power) : bool :=
  match p with
  | PAuthority a type role credential publicKey => at_account L a (λ acc,
      program_account (d_authority discs) 16 acc
      && bool_decide (byte_at (acc_data acc) 1 = type) && bool_decide (byte_at (acc_data acc) 2 = role)
      && bytesEqual (slice 48 80 (acc_data acc)) credential
      && bytesEqual (slice 80 113 (acc_data acc)) publicKey)
  | PSession a key expiry => at_account L a (λ acc,
      program_account (d_session discs) 8 acc && bytesEqual (slice 40 72 (acc_data acc)) key
      && bytesEqual (slice 72 80 (acc_data acc)) expiry)
  | PDeferred a expiry => at_account L a (λ acc,
      program_account (d_deferred discs) 72 acc && bytesEqual (slice 168 176 (acc_data acc)) expiry)
  | PDelegate tp a g => at_account L a (λ acc,
      vault_token_account tp acc && option_set (acc_data acc) TOKEN_DELEGATE g
      && negb (bool_decide (g = vault)))
  | PNativeClose tp a g => at_account L a (λ acc,
      vault_token_account tp acc && negb (le_combine (slice IS_NATIVE (IS_NATIVE + 4) (acc_data acc)) =? 0)
      && option_set (acc_data acc) TOKEN_CLOSE_AUTHORITY g && negb (bool_decide (g = vault)))
  | PTaken a o => bool_decide (a ∈ watched) && at_account L a (λ acc,
      bool_decide (acc_owner acc = TOKEN_PROGRAM_ADDRESS)
      && bytesEqual (slice 32 64 (acc_data acc)) (address_encode o) && negb (bool_decide (o = vault)))
  | PVault => negb (isSystemAccount ((λ acc, (acc_owner acc, acc_data acc)) <$> L vault))
  end.

(** Not refused as expired at [slot]. *)
Definition usable (slot : Z) (p : power) : Prop :=
  match p with
  | PSession _ _ expiry | PDeferred _ expiry => slot <= le_combine expiry
  | _ => True
  end.

(** Only an authority makes authorities, sessions and deferred executions;
    they, sessions and deferred executions make the vault sign; and whoever
    holds a token account, or its close authority, can hand it on. *)
Definition makes (q p : power) : Prop :=
  match q, p with
  | PAuthority _ _ _ _ _, _ => True
  | PSession _ _ _, (PDelegate _ _ _ | PNativeClose _ _ _ | PTaken _ _ | PVault) => True
  | PDeferred _ _, (PDelegate _ _ _ | PNativeClose _ _ _ | PTaken _ _ | PVault) => True
  | PNativeClose tp a _, PNativeClose tp' a' _ => tp = tp' ∧ a = a'
  | PTaken a _, PTaken a' _ => a = a'
  | _, _ => False
  end.

(** ** A history *)
Record History := mkHistory {
  (** The ledger after the first [i] transactions. *)
  h_state : nat → ledger;
  (** The slot transaction [i] runs in, and how many have run by a slot's end. *)
  h_slot : nat → Z;
  h_upto : Z → nat;
  (** The powers over this wallet that transaction [i] uses. *)
  h_uses : nat → power → Prop;
}.

Variable H : History.

(** From the wallet's creation (transaction [born]) on, a power appears only in
    a transaction that uses one which can make it, and only when it is there
    and has not expired. *)
Record PowerFlow (born : nat) : Prop := {
  pf_upto i slot : (i < h_upto H slot)%nat ↔ h_slot H i <= slot;
  pf_makes i p : (born <= i)%nat → holds (h_state H (S i)) p = true → holds (h_state H i) p = false →
    ∃ q, h_uses H i q ∧ holds (h_state H i) q = true ∧ usable (h_slot H i) q ∧ makes q p;
}.

(** None of the powers in [Own] is used between transactions [m] and [n]. *)
Definition quiet (Own : power → Prop) (m n : nat) : Prop :=
  ∀ i q, (m <= i < n)%nat → h_uses H i q → holds (h_state H i) q = true →
    usable (h_slot H i) q → ¬ Own q.

Definition bank (slot : Z) : ledger := h_state H (h_upto H slot).

Lemma upto_mono born s t : PowerFlow born → s <= t → (h_upto H s <= h_upto H t)%nat.
Proof.
  intros F Hst. destruct (Nat.le_gt_cases (h_upto H s) (h_upto H t)) as [|Hlt]; [done|].
  apply (pf_upto _ F) in Hlt.
  assert (h_slot H (h_upto H t) <= t) as Hx%(pf_upto _ F) by lia. lia.
Qed.

Lemma usable_mono s t p : s <= t → usable t p → usable s p.
Proof. destruct p; cbn; lia. Qed.

(** Reading in the order power flows is complete. [seen t p] says that [p] was
    looked for at the end of slot [t], no earlier than [slot], and found only
    if it is one of [Own]; whatever can make a power is looked for no later
    than it. Then, as long as the powers in [Own] are not used, whoever can
    spend afterwards is in [Own]. *)
Lemma reads_in_order_are_complete born slot t1 (Own : power → Prop) (seen : Z → power → Prop) :
  PowerFlow born → (born <= h_upto H slot)%nat →
  (∀ t p, seen t p → slot <= t ∧ t1 <= t
     ∧ (holds (bank t) p = true → usable slot p → Own p)) →
  (∀ t p q, seen t p → makes q p → ∃ t', t' <= t ∧ seen t' q) →
  ∀ n p t, seen t p → (h_upto H t <= n)%nat → quiet Own (h_upto H t1) n →
    holds (h_state H n) p = true → usable slot p → Own p.
Proof.
  intros F Hborn Hseen Hflow. induction n as [|n IH]; intros p t Hp Hn Hq Hh Hu.
  { destruct (Hseen _ _ Hp) as (_ & _ & Hown). apply Hown; [|done]. unfold bank.
    by replace (h_upto H t) with 0%nat by lia. }
  destruct (Hseen _ _ Hp) as (Hslot & Ht1 & Hown).
  destruct (decide (h_upto H t = S n)) as [E|Hne]; [apply Hown; [|done]; unfold bank; by rewrite E|].
  assert (Hle : (h_upto H t <= n)%nat) by lia.
  assert (Hq' : quiet Own (h_upto H t1) n) by (intros i q Hi; apply Hq; lia).
  destruct (holds (h_state H n) p) eqn:Eh; [by apply (IH p t)|]. exfalso.
  pose proof (upto_mono _ _ _ F Hslot) as Hm. pose proof (upto_mono _ _ _ F Ht1) as Hm1.
  destruct (pf_makes _ F n p) as (q & Hacts & Hhq & Huq & Hmk); [lia | done | done |].
  apply (Hq n q); [lia | done | done | done |].
  destruct (Hflow _ _ _ Hp Hmk) as (t' & Ht' & Hseenq).
  apply (IH q t'); [done | | done | done |].
  - pose proof (upto_mono _ _ _ F Ht'). lia.
  - assert (Hnt : ¬ h_slot H n <= t) by (rewrite <- (pf_upto _ F); lia).
    eapply usable_mono; [|exact Huq]. lia.
Qed.
End ledger.
