(* ===== verification/LookupSafety.v ===== *)
(** * What the wallet lookup's reads guarantee

    The reads of src/sdk/sdk-kit/src/client.ts against a ledger that moves
    while they are made: each step of [readSpendingState] is a snapshot no
    older than the step before, so that a wallet reported [controlledAlone], or
    one that passes the migration vet, can be spent from only by its own key
    (and the keys the caller trusts). *)
From S2P Require Import Prelude Bytes Kit Constants JsMap Pdas Builders Accounts Json Ownership.
From S2P Require Import V1 ClientHelpers Client ClientProps WorkerPool WalletLookup Ledger.
Local Open Scope Z_scope.

Section reads.
Context `{KL : KitLaws}.
Variables (valid_token : bytes → bool) (env : Env) (bank : Z → ledger).
Hypothesis serves : Serves valid_token env bank.

Lemma atOrAfterSlot_ok {A} more (read : M A) c c' a :
  atOrAfterSlot more read c = (c', Ok a) → ∃ c1 c2, read c1 = (c2, Ok a).
Proof.
  revert c. induction more as [|more IH]; intros c; cbn [atOrAfterSlot];
    destruct (read c) as [c1 [x|e]] eqn:E; try done.
  - intros [= <- <-]. eauto.
  - intros [= <- <-]. eauto.
  - destruct (is_min_context_slot e); [apply IH | done].
Qed.

(** The rows of [L] that pass [test], in some order. *)
Definition rows_at (L : ledger) (test : account → Prop) (rows : list (address * bytes)) : Prop :=
  ∀ a d, (a, d) ∈ rows ↔ ∃ acc, L a = Some acc ∧ test acc ∧ d = acc_data acc.

Lemma row_of_view a acc : row_of (a, view_of acc) = Ok (a, acc_data acc).
Proof. unfold row_of, view_of. cbn [fst snd]. by rewrite decodeBase64_view. Qed.

Lemma rows_decode L test value rows :
  (∀ a v, (a, v) ∈ value ↔ ∃ acc, L a = Some acc ∧ test acc ∧ v = view_of acc) →
  mapR row_of value = Ok rows → rows_at L test rows.
Proof.
  intros Hv Hm%mapR_ok a d. split.
  - intros [i Hi]%list_elem_of_lookup_1. destruct (Forall2_lookup_r _ _ _ _ _ Hm Hi) as ([a' v] & Hav & Hrow).
    apply list_elem_of_lookup_2, Hv in Hav as (acc & HL & Ht & ->).
    rewrite row_of_view in Hrow. injection Hrow as <- <-. eauto.
  - intros (acc & HL & Ht & ->). assert (Hin : (a, view_of acc) ∈ value) by (apply Hv; eauto).
    apply list_elem_of_lookup_1 in Hin as [i Hi].
    destruct (Forall2_lookup_l _ _ _ _ _ Hm Hi) as (r & Hr & Hrow).
    rewrite row_of_view in Hrow. injection Hrow as <-. by eapply list_elem_of_lookup_2.
Qed.

Lemma scan_ok program wallet disc off min c c' t rows :
  scanWalletAccounts env program wallet disc off min c = (c', Ok (t, rows)) →
  default t min <= t ∧ (∃ n v, env_getProgramAccounts env n program
      [(0%nat, [u8 disc]); (off, address_encode wallet)] min = Ok (t, v)) ∧
  rows_at (bank t) (λ acc, program_account program wallet disc off acc = true) rows.
Proof.
  unfold scanWalletAccounts, getProgramAccounts. intros H. m_step H. destruct a as [slot value].
  m_step H. apply lift_inv in E0 as [-> Hm]. apply mret_inv in H as [-> [= -> ->]].
  apply atOrAfterSlot_ok in E as (c1 & c2 & E). m_step E. apply lift_inv in E as [-> E].
  destruct (sv_program _ _ _ serves _ _ _ _ _ _ E) as [Hmin Hrows].
  split; [done|]. split; [by eauto|]. eapply rows_decode; [|done]. intros x v. rewrite Hrows.
  split; intros (acc & HL & Ht); exists acc; revert Ht; unfold program_account;
    rewrite andb_true_iff, bool_decide_eq_true; tauto.
Qed.

Lemma tokens_ok vault tp min c c' t rows :
  readTokenAccounts env vault tp min c = (c', Ok (t, rows)) →
  default t min <= t ∧ rows_at (bank t) (token_account_of valid_token tp vault) rows.
Proof.
  unfold readTokenAccounts. intros H. m_step H. destruct a as [slot value].
  m_step H. apply lift_inv in E0 as [-> Hm]. apply mret_inv in H as [-> [= -> ->]].
  apply atOrAfterSlot_ok in E as (c1 & c2 & E). m_step E. apply lift_inv in E as [-> E].
  destruct (sv_tokens _ _ _ serves _ _ _ _ _ _ E) as [Hmin Hrows].
  split; [done|]. eapply rows_decode; [|done]. exact Hrows.
Qed.

Definition read_at (L : ledger) (a : address) : option AccountRead :=
  (λ acc, mkRead (acc_owner acc) (acc_lamports acc) (acc_data acc)) <$> L a.

Lemma mapR_read_of L addresses page :
  mapR read_of ((λ a, view_of <$> L a) <$> addresses) = Ok page → page = read_at L <$> addresses.
Proof.
  revert page. induction addresses as [|a l IH]; intros page; cbn [fmap list_fmap mapR]; [by intros [= <-]|].
  intros (x & Hx & (ys & Hys & [= <-])%bind_inv)%bind_inv. f_equal; [|by apply IH].
  unfold read_at. destruct (L a) as [acc|]; cbn [fmap option_fmap option_map read_of] in *; [|by injection Hx].
  unfold view_of in Hx. rewrite decodeBase64_view, bind_ok in Hx. cbn in Hx. by injection Hx.
Qed.

Lemma maxSlot_two a b : maxSlot a [b] = Z.max a b.
Proof. unfold maxSlot. cbn. destruct (Z.ltb_spec b a); lia. Qed.

Lemma read_pages_step fuel addresses min slot infos : addresses ≠ [] →
  read_pages env (S fuel) addresses min slot infos =
    ('(t, value) ← atOrAfterSlot 4
       (n ← ask; lift (env_getMultipleAccounts env n (take 100 addresses) min));
     page ← lift (mapR read_of value);
     read_pages env fuel (drop 100 addresses) min (maxSlot slot [t]) (infos ++ page)).
Proof. by destruct addresses. Qed.

(** The node answered a read of [a] from slot [t]. *)
Definition answered (min : option Z) (a : address) (t : Z) : Prop :=
  ∃ n l infos, env_getMultipleAccounts env n l min = Ok (t, infos) ∧ a ∈ l.

Lemma read_pages_ok fuel addresses min slot infos c c' slot' infos' :
  (length addresses <= fuel)%nat →
  read_pages env fuel addresses min slot infos c = (c', Ok (slot', infos')) →
  slot <= slot' ∧ ∃ new, infos' = infos ++ new ∧
    Forall2 (λ a info, ∃ t, default t min <= t <= slot' ∧ answered min a t ∧ info = read_at (bank t) a) addresses new.
Proof.
  revert addresses slot infos c. induction fuel as [|fuel IH]; intros addresses slot infos c Hl.
  { destruct addresses; [|cbn in Hl; lia]. intros [-> [= -> ->]]%mret_inv. split; [lia|].
    exists []. by rewrite app_nil_r. }
  destruct (decide (addresses = [])) as [->|Hne].
  { intros [-> [= -> ->]]%mret_inv. split; [lia|]. exists []. by rewrite app_nil_r. }
  rewrite read_pages_step by done. intros H. assert (Hl' : (length (drop 100 addresses) <= fuel)%nat).
  { rewrite length_drop. destruct addresses; [done|]. cbn [length] in *. lia. }
  m_step H. destruct a as [t value].
  m_step H. apply lift_inv in E0 as [-> Hm]. rewrite maxSlot_two in H.
  apply atOrAfterSlot_ok in E as (c1 & c2 & E). m_step E. apply lift_inv in E as [-> E].
  destruct (sv_multiple _ _ _ serves _ _ _ _ _ E) as [Hmin ->]. apply mapR_read_of in Hm.
  apply IH in H as (Hs & new & -> & Hnew); [|done].
  split; [lia|]. eexists. rewrite <- app_assoc. split; [done|]. rewrite Hm.
  rewrite <- (take_drop 100 addresses) at 1. apply Forall2_app; [|exact Hnew].
  apply Forall2_fmap_r, Forall2_same_length_lookup_2; [done|]. intros i x y Hx Hy.
  rewrite Hx in Hy. injection Hy as <-. exists t. split; [lia|]. split; [|done]. eexists _, _, _. split; [exact E|].
  by eapply list_elem_of_lookup_2.
Qed.

(** A scan of the wallet's accounts of one kind, asked for at [min] or later, that was
    answered from slot [t]. *)
Definition scanned (program wallet : address) (disc : Z) (off : nat) (min : option Z) (t : Z) : Prop :=
  ∃ n rows, env_getProgramAccounts env n program [(0%nat, [u8 disc]); (off, address_encode wallet)] min = Ok (t, rows).

(** What [readSpendingState] returns: the authorities as of [t1], the sessions
    and deferred executions as of [ts] and [td], no older, and everything else
    as of slots no older than those. *)
Record Snapshot (program wallet vault : address) (discs : Discs) (accounts : list address)
    (s : SpendingState) (t1 ts td : Z) : Prop := {
  sn_first : scanned program wallet (d_authority discs) 16 None t1
    ∧ scanned program wallet (d_session discs) 8 (Some t1) ts ∧ scanned program wallet (d_deferred discs) 72 (Some t1) td;
  sn_order : t1 <= ts ∧ t1 <= td;
  sn_last : Z.max ts td <= ss_slot s;
  sn_authorities : rows_at (bank t1)
    (λ acc, program_account program wallet (d_authority discs) 16 acc = true) (ss_authorities s);
  sn_sessions : rows_at (bank ts)
    (λ acc, program_account program wallet (d_session discs) 8 acc = true) (ss_sessions s);
  sn_deferred : rows_at (bank td)
    (λ acc, program_account program wallet (d_deferred discs) 72 acc = true) (ss_deferred s);
  sn_infos i a : accounts !! i = Some a → ∃ t, Z.max ts td <= t <= ss_slot s
    ∧ ss_infos s !! i = Some (read_at (bank t) a);
  sn_spl : ∃ t, Z.max ts td <= t <= ss_slot s ∧
    rows_at (bank t) (token_account_of valid_token TOKEN_PROGRAM_ADDRESS vault) (ot_spl (ss_ownedTokens s));
  sn_token2022 : ∃ t, Z.max ts td <= t <= ss_slot s ∧
    rows_at (bank t) (token_account_of valid_token TOKEN_2022_PROGRAM_ADDRESS vault)
      (ot_token2022 (ss_ownedTokens s));
}.

Lemma owned_ok vault min c c' o :
  readVaultTokenAccounts env vault (Some min) c = (c', Ok o) →
  ∃ t t', min <= t <= ot_slot o ∧ min <= t' <= ot_slot o
    ∧ rows_at (bank t) (token_account_of valid_token TOKEN_PROGRAM_ADDRESS vault) (ot_spl o)
    ∧ rows_at (bank t') (token_account_of valid_token TOKEN_2022_PROGRAM_ADDRESS vault) (ot_token2022 o).
Proof.
  unfold readVaultTokenAccounts. intros H. m_step H. destruct a as [[s1 spl] [s2 t22]].
  apply mret_inv in H as [-> <-]. apply both_inv in E as (? & ? & [? ?] & [? ?] & _ & _ & H1 & H2 & [= <- <- <- <-]).
  apply tokens_ok in H1 as [? ?], H2 as [? ?]. cbn [default from_option] in *. unfold id in *.
  exists s1, s2. cbn [ot_slot ot_spl ot_token2022]. rewrite maxSlot_two. split_and!; try done; lia.
Qed.

Lemma readSpendingState_ok program wallet vault discs accounts c c' s :
  readSpendingState env program wallet vault discs accounts c = (c', Ok s) →
  ∃ t1 ts td, Snapshot program wallet vault discs accounts s t1 ts td.
Proof.
  unfold readSpendingState. intros H. m_step H. destruct a as [t1 authorities].
  apply scan_ok in E as (_ & Hfirst & Hauth).
  m_step H. destruct a as [[ts sessions] [td deferred]].
  apply both_inv in E as (? & ? & [? ?] & [? ?] & _ & _ & H1 & H2 & [= <- <- <- <-]).
  apply scan_ok in H1 as (Hts & Hsess & Hs), H2 as (Htd & Hdef & Hd). cbn [default from_option] in Hts, Htd. unfold id in *.
  m_step H. destruct a as [[t3 infos] owned]. apply mret_inv in H as [-> <-].
  apply both_inv in E as (? & ? & [? ?] & ? & _ & _ & H1 & H2 & [= <- <- <-]).
  rewrite !maxSlot_two in *. unfold readAccounts in H1.
  apply read_pages_ok in H1 as (Hmax & new & -> & Hnew); [|done]. cbn [default from_option app] in Hmax, Hnew.
  unfold id in *. apply owned_ok in H2 as (t4 & t5 & Ht4 & Ht5 & Hspl & Ht22).
  exists t1, ts, td. split; cbn [ss_slot ss_authorities ss_sessions ss_deferred ss_infos ss_ownedTokens];
    rewrite ?maxSlot_two; try done; try lia.
  - intros i a Ha. destruct (Forall2_lookup_l _ _ _ _ _ Hnew Ha) as (info & Hi & t & Ht & _ & ->).
    exists t. split; [lia|]. rewrite list_lookup_fmap, lookup_seq_lt by (by eapply lookup_lt_Some).
    cbn [fmap option_fmap option_map]. f_equal. cbn. by rewrite Hi.
  - exists t4. split; [lia|done].
  - exists t5. split; [lia|done].
Qed.
End reads.

(** ** Grants *)
Section grants.
Context `{KL : KitLaws}.

Lemma addressFromBytes_encode a : addressFromBytes (address_encode a) = Ok a.
Proof.
  destruct (addressFromBytes_ok (address_encode a)) as (b & -> & Hb); [apply address_encode_length|].
  by apply address_encode_inj in Hb as ->.
Qed.

Lemma mapR_concat_elem {A B} (f : A → result (list B)) l gss x ys y :
  mapR f l = Ok gss → x ∈ l → f x = Ok ys → y ∈ ys → y ∈ concat gss.
Proof.
  intros Hm%mapR_ok [i Hi]%list_elem_of_lookup_1 Hf Hy.
  destruct (Forall2_lookup_l _ _ _ _ _ Hm Hi) as (ys' & Hys & Hf'). rewrite Hf in Hf'. injection Hf' as <-.
  apply list_elem_of_In, in_concat. exists ys. split; apply list_elem_of_In; [by eapply list_elem_of_lookup_2|done].
Qed.

(** A grant to [g] at [offset] of a token account is reported, as trusted only
    if [g] is. *)
Lemma grant_at_set pubkey tp mint vault trusted data kind offset g :
  option_set data offset g = true → g ≠ vault →
  grant_at pubkey tp mint vault trusted data kind offset
  = Ok [mkGrant pubkey tp (Some mint) kind (Some g) (bool_decide (g ∈ trusted))].
Proof.
  unfold option_set, grant_at, readU32, getUint. intros [Ht Hs]%andb_true_iff Hg.
  apply bytesEqual_spec in Hs. pose proof (f_equal length Hs) as Hl.
  rewrite length_slice, address_encode_length in Hl.
  destruct (Nat.leb_spec (offset + 4) (length data)); [|lia]. rewrite bind_ok.
  destruct (_ =? 0); [done|]. rewrite Hs, addressFromBytes_encode, bind_ok.
  by rewrite bool_decide_false.
Qed.

Lemma grantsOn_trusted rows tp vault trusted gs a d offset g :
  grantsOn rows tp vault trusted = Ok gs → forallb tg_trusted gs = true → (a, d) ∈ rows →
  offset = TOKEN_DELEGATE ∨ offset = TOKEN_CLOSE_AUTHORITY →
  option_set d offset g = true → g ≠ vault → g ∈ trusted.
Proof.
  intros (gss & Hm & [= <-])%bind_inv Hall Hin Hoff Hset Hg.
  rewrite forallb_Forall, Forall_forall in Hall.
  destruct (grants_of_spec tp vault trusted (a, d)) as (ys & Hys & _).
  enough (Hex : ∃ y, y ∈ ys ∧ (tg_trusted y = true → g ∈ trusted)).
  { destruct Hex as (y & Hy & Ht). apply Ht, Hall. by eapply mapR_concat_elem. }
  revert Hys. unfold grants_of. destruct (Nat.ltb_spec (length d) TOKEN_ACCOUNT_LEN) as [Hlt|Hge].
  { intros [= <-]. eexists. by split; [apply list_elem_of_singleton|]. }
  intros (mint & _ & (x & Hx & (y & Hy & [= <-])%bind_inv)%bind_inv)%bind_inv.
  destruct Hoff as [->| ->];
    [rewrite (grant_at_set _ _ _ _ _ _ _ _ g) in Hx by done; injection Hx as <-
    |rewrite (grant_at_set _ _ _ _ _ _ _ _ g) in Hy by done; injection Hy as <-];
    (eexists; split; [apply elem_of_app; (left + right); by apply list_elem_of_singleton|]);
    cbn; by intros ?%bool_decide_eq_true.
Qed.

Lemma watched_trusted watched vault trusted gss w d o :
  mapR (watched_grant vault trusted) watched = Ok gss → forallb tg_trusted (concat gss) = true →
  w ∈ watched → wt_info w = Some (TOKEN_PROGRAM_ADDRESS, d) →
  slice 32 64 d = address_encode o → o ≠ vault → o ∈ trusted.
Proof.
  intros Hm Hall Hw Hi Hs Ho. rewrite forallb_Forall, Forall_forall in Hall.
  pose proof (f_equal length Hs) as Hl. rewrite length_slice, address_encode_length in Hl.
  assert (Hg : watched_grant vault trusted w = Ok [mkGrant (wt_address w) TOKEN_PROGRAM_ADDRESS
    (Some (wt_mint w)) GrantOwner (Some o) (bool_decide (o ∈ trusted))]).
  { unfold watched_grant. rewrite Hi, bool_decide_true by done. cbn [negb].
    destruct (Nat.ltb_spec (length d) 64); [lia|].
    by rewrite Hs, addressFromBytes_encode, bind_ok, bool_decide_false. }
  eapply mapR_concat_elem in Hg; [|exact Hm|exact Hw|by apply list_elem_of_singleton].
  apply Hall in Hg. cbn in Hg. by apply bool_decide_eq_true in Hg.
Qed.
End grants.

(** ** From clean reads to safety *)
Section clean.
Context `{KL : KitLaws}.
Variables (valid_token : bytes → bool) (env : Env).
(** The ledger at the end of each slot. *)
Variable B : Z → ledger.
Variables (program wallet vault : address) (discs : Discs) (atas : list address).

(** Nothing in these reads, still usable at [slot], is outside [Own]. *)
Record Clean (Own : power → Prop) (slot : Z) (s : SpendingState) : Prop := {
  cl_authorities a d : (a, d) ∈ ss_authorities s →
    Own (PAuthority a (byte_at d 1) (byte_at d 2) (slice 48 80 d) (slice 80 113 d));
  cl_sessions a d : (a, d) ∈ ss_sessions s → slot <= le_combine (slice 72 80 d) →
    Own (PSession a (slice 40 72 d) (slice 72 80 d));
  cl_deferred a d : (a, d) ∈ ss_deferred s → slot <= le_combine (slice 168 176 d) →
    Own (PDeferred a (slice 168 176 d));
  cl_tokens tp rows a d g :
    (tp = TOKEN_PROGRAM_ADDRESS ∧ rows = ot_spl (ss_ownedTokens s))
    ∨ (tp = TOKEN_2022_PROGRAM_ADDRESS ∧ rows = ot_token2022 (ss_ownedTokens s)) →
    (a, d) ∈ rows → g ≠ vault →
    (option_set d TOKEN_DELEGATE g = true → Own (PDelegate tp a g))
    ∧ (option_set d TOKEN_CLOSE_AUTHORITY g = true → Own (PNativeClose tp a g));
  cl_taken i a r o : atas !! i = Some a → ss_infos s !! (2 + i)%nat = Some (Some r) →
    ar_owner r = TOKEN_PROGRAM_ADDRESS → slice 32 64 (ar_data r) = address_encode o → o ≠ vault →
    Own (PTaken a o);
  cl_vault : isSystemAccount (owner_data (mjoin (ss_infos s !! 1%nat))) = true;
}.

(** What the reads find out about whoever can spend.  Each power is looked for at the end
    of one slot, an authority, a session and a deferred execution in those the node
    answered the scans for them from, the last two asked for at the first's slot; whatever can make a power is looked for no later than it; and what is found there, and
    not expired at [slot], is in [Own]. *)
Definition ReadOnlyBy (slot : Z) (Own : power → Prop) : Prop :=
  ∃ t1 ts td T (at_ : power → Z),
    (scanned env program wallet (d_authority discs) 16 None t1
     ∧ scanned env program wallet (d_session discs) 8 (Some t1) ts
     ∧ scanned env program wallet (d_deferred discs) 72 (Some t1) td)
    ∧ ((∀ a type role credential publicKey, at_ (PAuthority a type role credential publicKey) = t1)
       ∧ (∀ a key expiry, at_ (PSession a key expiry) = ts) ∧ ∀ a expiry, at_ (PDeferred a expiry) = td)
    ∧ (∀ p, t1 <= at_ p <= T)
    ∧ (∀ p q, makes q p → at_ q <= at_ p)
    ∧ ∀ p, holds valid_token program wallet vault discs atas (B (at_ p)) p = true → usable slot p → Own p.

Variables (s : SpendingState) (t1 ts td : Z).
Hypothesis snapshot : Snapshot valid_token env B program wallet vault discs
  (wallet :: vault :: atas) s t1 ts td.

Abbreviation pholds := (holds valid_token program wallet vault discs atas).

(** When the reads looked for a power. *)
Definition looked (t : Z) (p : power) : Prop :=
  match p with
  | PAuthority _ _ _ _ _ => t = t1
  | PSession _ _ _ => t = ts
  | PDeferred _ _ => t = td
  | PDelegate tp _ _ | PNativeClose tp _ _ =>
    Z.max ts td <= t ∧
    ((tp = TOKEN_PROGRAM_ADDRESS ∧ rows_at (B t)
        (token_account_of valid_token TOKEN_PROGRAM_ADDRESS vault) (ot_spl (ss_ownedTokens s)))
     ∨ (tp = TOKEN_2022_PROGRAM_ADDRESS ∧ rows_at (B t)
        (token_account_of valid_token TOKEN_2022_PROGRAM_ADDRESS vault) (ot_token2022 (ss_ownedTokens s)))
     ∨ (tp ≠ TOKEN_PROGRAM_ADDRESS ∧ tp ≠ TOKEN_2022_PROGRAM_ADDRESS))
  | PTaken a _ =>
    Z.max ts td <= t ∧
    (a ∉ atas ∨ ∃ i, atas !! i = Some a ∧ ss_infos s !! (2 + i)%nat = Some (read_at (B t) a))
  | PVault => Z.max ts td <= t ∧ ss_infos s !! 1%nat = Some (read_at (B t) vault)
  end.

Lemma finite_choice {A} (P : nat → A → Z → Prop) (l : list A) :
  (∀ i a, l !! i = Some a → ∃ t, P i a t) → ∃ f, ∀ i a, l !! i = Some a → P i a (f i).
Proof.
  induction l as [|x l IH] using rev_ind; intros Hl; [by exists (λ _, 0)|].
  destruct IH as (f & Hf); [intros i a Hi; apply Hl; by apply lookup_app_l_Some|].
  destruct (Hl (length l) x) as (t & Ht); [by rewrite lookup_app_r, Nat.sub_diag by lia|].
  exists (λ i, if (i =? length l)%nat then t else f i). intros i a Hi.
  destruct (Nat.eqb_spec i (length l)) as [->|Hne].
  - rewrite lookup_app_r, Nat.sub_diag in Hi by lia. by injection Hi as <-.
  - apply Hf. apply lookup_app_Some in Hi as [Hi|[Hge Hi]]; [done|]. apply lookup_lt_Some in Hi as Hlt. cbn in Hlt. lia.
Qed.

(** One slot for every power, in the order of the reads. *)
Lemma looked_in_order : ∃ at_, (∀ p, looked (at_ p) p ∧ at_ p <= ss_slot s)
  ∧ ((∀ a type role credential publicKey, at_ (PAuthority a type role credential publicKey) = t1)
     ∧ (∀ a key expiry, at_ (PSession a key expiry) = ts) ∧ ∀ a expiry, at_ (PDeferred a expiry) = td)
  ∧ (∀ p q, makes q p → at_ q <= at_ p).
Proof.
  pose proof (sn_order _ _ _ _ _ _ _ _ _ _ _ _ snapshot) as [Hs Hd].
  pose proof (sn_last _ _ _ _ _ _ _ _ _ _ _ _ snapshot) as Hlast.
  destruct (sn_spl _ _ _ _ _ _ _ _ _ _ _ _ snapshot) as (t4 & Ht4 & Hspl).
  destruct (sn_token2022 _ _ _ _ _ _ _ _ _ _ _ _ snapshot) as (t5 & Ht5 & Ht22).
  destruct (finite_choice (λ i a t, Z.max ts td <= t <= ss_slot s ∧ ss_infos s !! i = Some (read_at (B t) a)) _
    (sn_infos _ _ _ _ _ _ _ _ _ _ _ _ snapshot)) as (f & Hf).
  set (tok := λ tp : address, if decide (tp = TOKEN_PROGRAM_ADDRESS) then t4 else t5).
  set (ata := λ a : address, match list_find (λ x, x = a) atas with Some (i, _) => f (2 + i)%nat | None => ss_slot s end).
  assert (Htok : ∀ tp, Z.max ts td <= tok tp <= ss_slot s) by (intros tp; subst tok; cbn; destruct (decide _); lia).
  assert (Hata : ∀ a, Z.max ts td <= ata a <= ss_slot s
    ∧ (a ∉ atas ∨ ∃ i, atas !! i = Some a ∧ ss_infos s !! (2 + i)%nat = Some (read_at (B (ata a)) a))).
  { intros a. subst ata. cbn beta. destruct (list_find _ _) as [[i x]|] eqn:E.
    - apply list_find_Some in E as (Hi & -> & _). destruct (Hf (2 + i)%nat a Hi) as [Ht Hinfo]. split; [done|]. right. eauto.
    - split; [lia|]. left. apply list_find_None in E. intros Hin. rewrite Forall_forall in E. by eapply E. }
  destruct (Hf 1%nat vault eq_refl) as [Hv Hvi].
  exists (λ p, match p with
               | PAuthority _ _ _ _ _ => t1 | PSession _ _ _ => ts | PDeferred _ _ => td
               | PDelegate tp _ _ | PNativeClose tp _ _ => tok tp | PTaken a _ => ata a | PVault => f 1%nat
               end).
  split; [|split; [done|]].
  - intros p. destruct p as [| | |tp a g|tp a g|a o|]; cbn [looked]; try (split; [done|lia]).
    1,2: specialize (Htok tp); split; [|lia]; split; [lia|]; subst tok; cbn; destruct (decide (tp = TOKEN_PROGRAM_ADDRESS)) as [->|]; [tauto|];
         destruct (decide (tp = TOKEN_2022_PROGRAM_ADDRESS)) as [->|]; tauto.
    + destruct (Hata a) as [Ht Hx]. split; [|lia]. split; [lia|done].
    + split; [|lia]. split; [lia|done].
  - intros p q Hm. destruct q as [| | |tp a g|tp a g|a o|], p as [| | |tp' a' g'|tp' a' g'|a' o'|]; cbn in Hm; try done;
      try (pose proof (Htok tp')); try (destruct (Hata a') as [? _]); try lia.
    + destruct Hm as [-> _]. lia.
    + subst a'. lia.
Qed.

Ltac split_andb :=
  repeat match goal with
  | H : (_ && _)%bool = true |- _ => apply andb_true_iff in H as [? ?]
  | H : bool_decide _ = true |- _ => apply bool_decide_eq_true in H
  | H : negb (bool_decide _) = true |- _ => apply negb_true_iff, bool_decide_eq_false in H
  | H : bytesEqual _ _ = true |- _ => apply bytesEqual_spec in H
  end.

Lemma at_account_inv (L : ledger) a test :
  at_account L a test = true → ∃ acc, L a = Some acc ∧ test acc = true.
Proof. unfold at_account. destruct (L a); [eauto|done]. Qed.

Lemma looked_clean Own slot t p : Clean Own slot s → looked t p →
  pholds (B t) p = true → usable slot p → Own p.
Proof.
  intros C Hp Hh Hu. destruct p as [a type role cred key|a key expiry|a expiry|tp a g|tp a g|a o|];
    cbn [looked holds usable] in Hp, Hh, Hu.
  - subst t. apply at_account_inv in Hh as (acc & HL & Ht). split_andb. subst.
    apply (cl_authorities _ _ _ C). apply (sn_authorities _ _ _ _ _ _ _ _ _ _ _ _ snapshot). eauto.
  - subst t. apply at_account_inv in Hh as (acc & HL & Ht). split_andb. subst.
    apply (cl_sessions _ _ _ C); [|done]. apply (sn_sessions _ _ _ _ _ _ _ _ _ _ _ _ snapshot). eauto.
  - subst t. apply at_account_inv in Hh as (acc & HL & Ht). split_andb. subst.
    apply (cl_deferred _ _ _ C); [|done]. apply (sn_deferred _ _ _ _ _ _ _ _ _ _ _ _ snapshot). eauto.
  - apply at_account_inv in Hh as (acc & HL & Ht). unfold vault_token_account in Ht. split_andb.
    destruct Hp as [_ [[-> Hr]|[[-> Hr]|[? ?]]]].
    + eapply (cl_tokens _ _ _ C); [by left| | done | done]. apply Hr. exists acc. done.
    + eapply (cl_tokens _ _ _ C); [by right| | done | done]. apply Hr. exists acc. done.
    + by rewrite !bool_decide_false in * by done.
  - apply at_account_inv in Hh as (acc & HL & Ht). unfold vault_token_account in Ht. split_andb.
    destruct Hp as [_ [[-> Hr]|[[-> Hr]|[? ?]]]].
    + eapply (cl_tokens _ _ _ C); [by left| | done | done]. apply Hr. exists acc. done.
    + eapply (cl_tokens _ _ _ C); [by right| | done | done]. apply Hr. exists acc. done.
    + by rewrite !bool_decide_false in * by done.
  - split_andb. destruct Hp as [_ [?|(i & Hi & Hinfo)]]; [done|].
    match goal with Hx : at_account _ _ _ = true |- _ => apply at_account_inv in Hx as (acc & HL & Ht) end. split_andb.
    unfold read_at in Hinfo. rewrite HL in Hinfo. by eapply (cl_taken _ _ _ C).
  - destruct Hp as [_ Hinfo]. pose proof (cl_vault _ _ _ C) as Hv. rewrite Hinfo in Hv.
    unfold read_at, owner_data in Hv. cbn [mjoin option_join] in Hv.
    apply negb_true_iff in Hh. destruct (B t vault) as [acc|]; cbn in Hh, Hv; congruence.
Qed.

(** Reads that are clean find only [Own]. *)
Lemma clean_reads Own slot : Clean Own slot s → ReadOnlyBy slot Own.
Proof.
  intros C. pose proof (sn_first _ _ _ _ _ _ _ _ _ _ _ _ snapshot) as Hfirst.
  pose proof (sn_order _ _ _ _ _ _ _ _ _ _ _ _ snapshot) as [Hs Hd].
  destruct looked_in_order as (at_ & Hat & Hauth & Hord). exists t1, ts, td, (ss_slot s), at_. split; [done|]. split; [done|].
  split; [|split; [done|]].
  - intros p. destruct (Hat p) as [Hp Hle]. split; [|done]. destruct p; cbn [looked] in Hp; lia.
  - intros p. destruct (Hat p) as [Hp _]. by apply looked_clean.
Qed.
End clean.

(** ** What may be concluded about later *)
Section stays.
Context `{KL : KitLaws}.
Variables (valid_token : bytes → bool) (env : Env).
Variables (program wallet vault : address) (discs : Discs) (atas : list address).
Variables (H : History) (born : nat).
Hypothesis flow : PowerFlow valid_token program wallet vault discs atas H born.

(** No scan made without a [minContextSlot] is answered from a bank older than
    [slot].  No node promises it, and the code does not ask for it. *)
Definition scans_reach (slot : Z) : Prop :=
  ∀ n program filters t v, env_getProgramAccounts env n program filters None = Ok (t, v) → slot <= t.

(** From the end of the last slot read on, only [Own] can spend, until a power in [Own]
    is used. *)
Definition SpentOnlyBy (slot : Z) (Own : power → Prop) : Prop :=
  ∃ t1 T, slot <= t1 <= T ∧ ∀ n p, (h_upto H T <= n)%nat →
    quiet valid_token program wallet vault discs atas H Own (h_upto H t1) n →
    holds valid_token program wallet vault discs atas (h_state H n) p = true →
    usable slot p → Own p.

(** Under [PowerFlow] and [scans_reach], whoever can spend from the wallet at any time
    after the reads is in [Own], unless a power in [Own] has been used since they began. *)
Lemma read_only_stays Own slot :
  ReadOnlyBy valid_token env (bank H) program wallet vault discs atas slot Own → (born <= h_upto H slot)%nat →
  scans_reach slot → SpentOnlyBy slot Own.
Proof.
  intros (t1 & ts & td & T & at_ & ((n & rows & Hfirst) & _) & _ & Hat & Hord & Hown) Hborn Hpin. apply Hpin in Hfirst.
  exists t1, T. split; [pose proof (Hat PVault); lia|]. intros m p Hm Hq.
  eapply (reads_in_order_are_complete valid_token program wallet vault discs atas H born slot t1 Own (λ t p, t = at_ p));
    [done|done| | |reflexivity| |done].
  - intros t' p' ->. specialize (Hat p'). split; [lia|]. split; [lia|]. apply Hown.
  - intros t' p' q -> Hmk. exists (at_ q). split; [by apply Hord|done].
  - pose proof (upto_mono _ _ _ _ _ _ _ _ _ _ flow (proj2 (Hat p))). lia.
Qed.
End stays.

(** ** A wallet its passkey controls alone *)
Section controlled.
Context `{KL : KitLaws}.

(** The powers [controlledAlone] leaves: the candidate's own Owner-rank
    passkey, and what is held by a key the caller trusts. *)
Definition OwnPower (c : PasskeyWalletCandidate) (trusted : list address) (p : power) : Prop :=
  match p with
  | PAuthority a type role credential publicKey =>
    (a = c_authorityPda c ∧ type = Some AUTH_TYPE_SECP256R1 ∧ role = Some ROLE_OWNER
     ∧ publicKey = c_publicKey c)
    ∨ (type = Some AUTH_TYPE_ED25519 ∧ ∃ k, k ∈ trusted ∧ address_encode k = credential)
  | PSession _ key _ => ∃ k, k ∈ trusted ∧ address_encode k = key
  | PDeferred _ _ => False
  | PDelegate _ _ g | PNativeClose _ _ g | PTaken _ g => g ∈ trusted
  | PVault => False
  end.

Lemma byte_is_at d i v : byte_is d i v = true → byte_at d i = Some v.
Proof. unfold byte_is. destruct (byte_at d i); [|done]. by intros ->%Z.eqb_eq. Qed.

Lemma mapR_elem {A B} (f : A → result B) l ys x :
  mapR f l = Ok ys → x ∈ l → ∃ y, y ∈ ys ∧ f x = Ok y.
Proof.
  intros Hm%mapR_ok [i Hi]%list_elem_of_lookup_1.
  destruct (Forall2_lookup_l _ _ _ _ _ Hm Hi) as (y & Hy & Hf). exists y. split; [by eapply list_elem_of_lookup_2|done].
Qed.

Lemma mapR_omap_trusted {A B} (f : A → result (option B)) (t : B → bool) l ys x y :
  mapR f l = Ok ys → forallb t (omap id ys) = true → x ∈ l → f x = Ok (Some y) → t y = true.
Proof.
  intros Hm Ht Hx Hf. destruct (mapR_elem _ _ _ _ Hm Hx) as (o & Ho & Hf'). rewrite Hf in Hf'.
  injection Hf' as <-. rewrite forallb_Forall, Forall_forall in Ht. apply Ht.
  apply list_elem_of_omap. by exists (Some y).
Qed.

Lemma other_trusted trusted rp a d y :
  other_authority trusted rp (a, d) = Ok y → oa_trusted y = true →
  byte_at d 1 = Some AUTH_TYPE_ED25519 ∧ ∃ k, k ∈ trusted ∧ address_encode k = slice 48 80 d.
Proof.
  unfold other_authority. destruct (byte_is d 1 AUTH_TYPE_ED25519) eqn:E; [|by intros [= <-]].
  destruct (Nat.leb_spec 80 (length d)) as [Hl|Hl]; [|by intros [= <-]].
  destruct (addressFromBytes_ok (slice 48 80 d)) as (k & -> & Hk); [rewrite length_slice; lia|].
  cbn. intros [= <-] Ht. cbn in Ht. apply bool_decide_eq_true in Ht.
  split; [by apply byte_is_at|]. by exists k.
Qed.

Lemma session_trusted trusted slot a d o :
  slot <= U64_MAX → live_session trusted slot (a, d) = Ok o → slot <= le_combine (slice 72 80 d) →
  ∃ y, o = Some y ∧ (ls_trusted y = true → ∃ k, k ∈ trusted ∧ address_encode k = slice 40 72 d).
Proof.
  intros Hslot H Hexp. unfold live_session in H. destruct (Nat.leb_spec 80 (length d)) as [Hl|Hl].
  - unfold readU64, getUint in H. destruct (Nat.leb_spec (72 + 8) (length d)); [|lia]. rewrite bind_ok in H.
    change (slice 72 80 d) with (slice 72 (72 + 8) d) in Hexp.
    destruct (Z.ltb_spec (le_combine (slice 72 (72 + 8) d)) slot); [lia|].
    destruct (addressFromBytes_ok (slice 40 72 d)) as (k & Hk & He); [rewrite length_slice; lia|].
    rewrite Hk, bind_ok in H. injection H as <-. eexists. split; [done|]. cbn.
    intros Ht%bool_decide_eq_true. by exists k.
  - rewrite bind_ok in H. destruct (Z.ltb_spec U64_MAX slot); [lia|]. injection H as <-. by eexists.
Qed.

Lemma deferred_reported slot a d o :
  slot <= U64_MAX → pending_deferred slot (a, d) = Ok o → slot <= le_combine (slice 168 176 d) →
  ∃ y, o = Some y ∧ pd_trusted y = false.
Proof.
  intros Hslot H Hexp. unfold pending_deferred in H. destruct (Nat.leb_spec 176 (length d)) as [Hl|Hl].
  - unfold readU64, getUint in H. destruct (Nat.leb_spec (168 + 8) (length d)); [|lia]. rewrite bind_ok in H.
    change (slice 168 176 d) with (slice 168 (168 + 8) d) in Hexp.
    destruct (Z.ltb_spec (le_combine (slice 168 (168 + 8) d)) slot); [lia|].
    destruct (addressFromBytes_ok (slice 104 136 d)) as (k & Hk & He); [rewrite length_slice; lia|].
    rewrite Hk, bind_ok in H. injection H as <-. by eexists.
  - rewrite bind_ok in H. destruct (Z.ltb_spec U64_MAX slot); [lia|]. injection H as <-. by eexists.
Qed.

Section facts.
Variables (valid_token : bytes → bool) (env : Env) (B : Z → ledger).
Hypothesis serves : Serves valid_token env B.
(** The candidate, the slot read first, the trusted keys and watched mints of
    [describeWalletCandidates], and the candidate's watched accounts. *)
Variables (c : PasskeyWalletCandidate) (slot : Z) (trusted mints atas : list address).
Hypothesis atas_ok : watchedAtasOf (c_vaultPda c) mints = Ok atas.

Abbreviation discs := (OWNERSHIP_DISCS (c_version c)).

(** The watched account of index [i] and its info, as paired. *)
Lemma watched_of_lookup (infos : list (option AccountRead)) i a info :
  length mints = length atas → atas !! i = Some a → infos !! i = Some info →
  ∃ w, w ∈ watched_of atas mints infos ∧ wt_address w = a ∧ wt_info w = owner_data info.
Proof.
  intros Hl Ha Hi. destruct (lookup_lt_is_Some_2 mints i) as [m Hm]; [rewrite Hl; by eapply lookup_lt_Some|].
  exists (mkWatched a m (owner_data info)). split; [|done]. apply (list_elem_of_lookup_2 _ i).
  unfold watched_of. apply lookup_zip_with_Some. exists (a, m), info. split; [done|]. split; [|done].
  apply lookup_zip_with_Some. by exists a, m.
Qed.

Lemma facts_clean t1 ts td s f :
  Snapshot valid_token env B (c_programId c) (c_walletPda c) (c_vaultPda c) discs
    (c_walletPda c :: c_vaultPda c :: atas) s t1 ts td →
  slot <= U64_MAX → facts_of c slot trusted mints atas s = Ok (Some f) → wf_controlledAlone f = true →
  Clean (c_vaultPda c) atas (OwnPower c trusted) slot s.
Proof.
  intros Sn Hslot Hf Hca. unfold facts_of in Hf. destruct (negb _); [done|].
  apply bind_inv in Hf as (others & Ho & Hf). apply bind_inv in Hf as (sess & Hs & Hf).
  apply bind_inv in Hf as (defs & Hd & Hf). apply bind_inv in Hf as (grants & Hg & Hf).
  apply bind_inv in Hf as (count & _ & [= <-]). cbn [wf_controlledAlone] in Hca.
  rewrite !andb_true_iff in Hca. destruct Hca as [[[[[Hown Hvault] Hot] Hst] Hdt] Hgt].
  split.
  - intros a d Hin. destruct (decide (a = c_authorityPda c)) as [->|Hne].
    + left. destruct (List.find (is_own c) (ss_authorities s)) as [[a' d']|] eqn:Ef; [|done].
      apply List.find_some in Ef as [Hin'%list_elem_of_In Hown'%bool_decide_eq_true]. cbn in Hown'. subst a'.
      apply (sn_authorities _ _ _ _ _ _ _ _ _ _ _ _ Sn) in Hin as (acc & HL & _ & ->).
      apply (sn_authorities _ _ _ _ _ _ _ _ _ _ _ _ Sn) in Hin' as (acc' & HL' & _ & ->).
      rewrite HL in HL'. injection HL' as <-. cbn [fmap option_fmap option_map snd own_intact] in Hown.
      rewrite !andb_true_iff in Hown. destruct Hown as [[[_ H1%byte_is_at] H2%byte_is_at] H3%bytesEqual_spec].
      done.
    + right. destruct (mapR_elem _ _ _ (a, d) Ho) as (y & Hy & Hoy).
      { apply elem_of_filter_bool. split; [done|]. unfold is_own. cbn. by rewrite bool_decide_false. }
      rewrite forallb_Forall, Forall_forall in Hot. by eapply other_trusted; [exact Hoy | apply Hot].
  - intros a d Hin Hexp. destruct (mapR_elem _ _ _ _ Hs Hin) as (o & _ & Hso).
    destruct (session_trusted _ _ _ _ _ Hslot Hso Hexp) as (y & -> & Hy).
    cbn. apply Hy. by eapply mapR_omap_trusted.
  - intros a d Hin Hexp. destruct (mapR_elem _ _ _ _ Hd Hin) as (o & _ & Hdo).
    destruct (deferred_reported _ _ _ _ Hslot Hdo Hexp) as (y & -> & Hy).
    assert (Ht : pd_trusted y = true) by (by eapply mapR_omap_trusted). congruence.
  - intros tp rows a d g Hrows Hin Hgv. unfold vaultTokenGrants in Hg.
    apply bind_inv in Hg as (g1 & Hg1 & Hg). apply bind_inv in Hg as (g2 & Hg2 & Hg).
    apply bind_inv in Hg as (g3 & Hg3 & [= <-]). rewrite !List.forallb_app, !andb_true_iff in Hgt.
    destruct Hgt as (Ht1 & Ht2 & _).
    assert (Hgs : ∃ gs, grantsOn rows tp (c_vaultPda c) trusted = Ok gs ∧ forallb tg_trusted gs = true)
      by (destruct Hrows as [[-> ->]|[-> ->]]; eauto).
    destruct Hgs as (gs & Hgs & Hgst).
    split; intros Hset; (eapply (grantsOn_trusted _ _ _ _ _ _ _ _ g Hgs Hgst); [exact Hin | | exact Hset | done]);
      tauto.
  - intros i a r o Ha Hi Hr Hsl Ho'. unfold vaultTokenGrants in Hg.
    apply bind_inv in Hg as (g1 & Hg1 & Hg). apply bind_inv in Hg as (g2 & Hg2 & Hg).
    apply bind_inv in Hg as (g3 & Hg3 & [= <-]). rewrite !List.forallb_app, !andb_true_iff in Hgt.
    destruct (watched_of_lookup (drop 2 (ss_infos s)) i a (Some r)) as (w & Hw & _ & Hinfo);
      [symmetry; by apply (mapR_length _ _ _ atas_ok) | done | by rewrite lookup_drop |].
    cbn [OwnPower]. eapply (watched_trusted _ _ _ _ w (ar_data r)); [exact Hg3 | tauto | done | | done | done].
    rewrite Hinfo. cbn. by rewrite Hr.
  - exact Hvault.
Qed.

Lemma controlled_alone_is_safe cl cl' f :
  describeCandidate env slot trusted mints c cl = (cl', Ok (Some f)) → wf_controlledAlone f = true →
  slot <= U64_MAX →
  ReadOnlyBy valid_token env B (c_programId c) (c_walletPda c) (c_vaultPda c) discs atas slot
    (OwnPower c trusted).
Proof.
  intros Hrun Hca Hmax. unfold describeCandidate in Hrun.
  m_step Hrun. apply lift_inv in E as [-> E]. rewrite atas_ok in E. injection E as <-.
  m_step Hrun. apply lift_inv in Hrun as [-> Hf].
  eapply readSpendingState_ok in E as (t1 & ts & td & Sn); [|exact serves].
  eapply clean_reads; [exact Sn | by eapply facts_clean].
Qed.
End facts.
End controlled.

(** ** The returning user's wallet *)
Section own_wallet.
Context `{KL : KitLaws}.

Lemma mapM_inv {A B} (f : A → M B) l c c' ys :
  mapM f l c = (c', Ok ys) → Forall2 (λ x y, ∃ c1 c2, f x c1 = (c2, Ok y)) l ys.
Proof.
  revert c c' ys. induction l as [|x l IH]; intros c c' ys H; cbn [mapM] in H.
  { apply mret_inv in H as [_ <-]. constructor. }
  m_step H. m_step H. apply mret_inv in H as [_ <-]. constructor; [eauto|]. eapply IH. eassumption.
Qed.

Variables (valid_token : bytes → bool) (env : Env) (programId : address) (B : Z → ledger).
Hypothesis serves : Serves valid_token env B.

(** At the end of slot [t] the candidate's authority account is a passkey
    authority of Owner rank on its wallet, with this credential, relying party
    and key. *)
Record FoundAt (credentialIdHash : bytes) (rpId : string) (c : PasskeyWalletCandidate) (t : Z)
    (acc : account) : Prop := {
  fa_there : B t (c_authorityPda c) = Some acc;
  fa_owner : acc_owner acc = c_programId c;
  fa_version : c_version c = 2 ∧ c_programId c = programId
               ∨ c_version c = 1 ∧ c_programId c = legacyProgramIdFor programId;
  fa_disc : slice 0 2 (acc_data acc)
            = [u8 (d_authority (OWNERSHIP_DISCS (c_version c))); u8 AUTH_TYPE_SECP256R1];
  fa_role : byte_at (acc_data acc) 2 = Some ROLE_OWNER;
  fa_wallet : slice 16 48 (acc_data acc) = address_encode (c_walletPda c);
  fa_credential : slice 48 (48 + length credentialIdHash) (acc_data acc) = credentialIdHash;
  fa_key : slice 80 113 (acc_data acc) = c_publicKey c;
  fa_party : slice 113 145 (acc_data acc) = sha256 (utf8 rpId);
  fa_vault : ∃ bump, (if c_version c =? 2 then findVaultPda (c_walletPda c) (c_programId c)
                      else findV1VaultPda (c_walletPda c) (c_programId c)) = Ok (c_vaultPda c, bump);
}.

Lemma scan_candidates_ok credentialIdHash rpId version program cl cl' l c :
  (version = 2 ∧ program = programId ∨ version = 1 ∧ program = legacyProgramIdFor programId) →
  scan_candidates env credentialIdHash (sha256 (utf8 rpId)) version program cl = (cl', Ok l) →
  c ∈ l → ∃ t acc, FoundAt credentialIdHash rpId c t acc.
Proof.
  intros Hver Hscan Hc. unfold scan_candidates in Hscan. m_step Hscan. destruct a as [t rows].
  unfold getProgramAccounts in E. m_step E. apply lift_inv in E as [-> E].
  apply (sv_program _ _ _ serves) in E as [_ Hrows].
  m_step Hscan. apply mret_inv in Hscan as [_ <-]. apply mapM_inv in E.
  apply list_elem_of_omap in Hc as ([c'|] & Hc & [= ->]). apply list_elem_of_lookup_1 in Hc as [i Hi].
  destruct (Forall2_lookup_r _ _ _ _ _ E Hi) as ([p v] & Hpv & ? & ? & Hcand).
  apply list_elem_of_lookup_2, Hrows in Hpv as (acc & Hacc & Hown & Hmatch & ->).
  unfold candidate_of in Hcand. rewrite row_of_view in Hcand. clear E0. m_step Hcand.
  apply lift_inv in E0 as [-> [= <-]]. cbn beta iota in Hcand.
  destruct (Nat.ltb_spec (length (acc_data acc)) 145) as [|Hlen];
    [by apply mret_inv in Hcand as [_ ?]|].
  destruct (byte_is (acc_data acc) 2 ROLE_OWNER) eqn:Erole; cbn [orb negb] in Hcand;
    [|by apply mret_inv in Hcand as [_ ?]].
  m_step Hcand. apply lift_inv in E0 as [-> Hw]. m_step Hcand. apply lift_inv in E0 as [-> Hv].
  match type of Hv with _ = Ok ?x => destruct x as [vault bump] end. apply mret_inv in Hcand as [_ [= <-]].
  unfold matches in Hmatch. cbn [forallb fst snd] in Hmatch. rewrite !andb_true_iff in Hmatch.
  destruct Hmatch as (H1%bytesEqual_spec & H2%bytesEqual_spec & H3%bytesEqual_spec & _).
  rewrite sha256_length in H3. exists t, acc. split; cbn; try done.
  - by apply byte_is_at.
  - unfold addressFromBytes in Hw. apply of_option_ok in Hw.
    destruct (address_encode_decode (slice 16 48 (acc_data acc))) as (w & Hd & He); [rewrite length_slice; lia|].
    rewrite Hd in Hw. by injection Hw as <-.
  - by exists bump.
Qed.

Lemma candidates_ok credentialIdHash rpId includeV1 cl cl' l c :
  findPasskeyWalletCandidates env programId credentialIdHash rpId includeV1 cl = (cl', Ok l) →
  c ∈ l → ∃ t acc, FoundAt credentialIdHash rpId c t acc.
Proof.
  unfold findPasskeyWalletCandidates. intros Hrun Hc. m_step Hrun. m_step Hrun. destruct a0 as [v2 v1].
  apply mret_inv in Hrun as [_ <-]. apply both_inv in E0 as (? & ? & ? & ? & _ & _ & H1 & H2 & [= <- <-]).
  apply elem_of_app in Hc as [Hc|Hc].
  - eapply scan_candidates_ok; [|exact H1|done]. by left.
  - destruct includeV1 as [[]|]; try (by eapply scan_candidates_ok; [by right|exact H2|done]).
    apply mret_inv in H2 as [_ <-]. set_solver.
Qed.

Lemma describe_ok candidates tk wm cl cl' facts f :
  describeWalletCandidates env candidates tk wm cl = (cl', Ok facts) → f ∈ facts →
  ∃ trusted mints cl1 cl2, parse_keys (default [] tk) = Ok trusted
    ∧ watchedMints (default [] wm) = Ok mints ∧ wf_candidate f ∈ candidates
    ∧ describeCandidate env (wf_slot f) trusted mints (wf_candidate f) cl1 = (cl2, Ok (Some f)).
Proof.
  unfold describeWalletCandidates. intros Hrun Hf. m_step Hrun. apply lift_inv in E as [-> Ht].
  m_step Hrun. apply lift_inv in E as [-> Hm]. destruct (_ =? _)%nat.
  { apply mret_inv in Hrun as [_ <-]. set_solver. }
  m_step Hrun. m_step Hrun. destruct a2 as [? wallets]. m_step Hrun. apply mret_inv in Hrun as [_ <-].
  destruct (mapBounded_settles env (describeCandidate env a1 a a0) (live_candidates candidates wallets) 4 c0)
    as (c2 & r & Hr & Hspec); [lia|]. rewrite E1 in Hr. injection Hr as <- <-.
  apply list_elem_of_omap in Hf as ([f'|] & Hf & [= ->]). apply list_elem_of_lookup_1 in Hf as [i Hi].
  destruct (Forall2_lookup_r _ _ _ _ _ Hspec Hi) as (c3 & Hc3 & cl1 & cl2 & Hd).
  assert (Hfields : wf_candidate f = c3 ∧ wf_slot f = a1).
  { revert Hd. clear. unfold describeCandidate. intros H. m_step H. m_step H. apply lift_inv in H as [_ H].
    unfold facts_of in H. destruct (negb _); [done|].
    repeat (apply bind_inv in H as (? & _ & H)). by injection H as <-. }
  destruct Hfields as [-> ->]. exists a, a0, cl1, cl2. split_and!; try done.
  apply list_elem_of_lookup_2 in Hc3. unfold live_candidates in Hc3.
  apply list_elem_of_fmap in Hc3 as ([x k] & -> & [Hx _]%elem_of_filter_bool). cbn.
  apply list_elem_of_lookup_1 in Hx as [j Hj]. apply lookup_zip_with_Some in Hj as (? & ? & [= <- <-] & Hx & _).
  by eapply list_elem_of_lookup_2.
Qed.

(** What is shown of an adopted wallet. *)
Definition SafelyAdopted (credentialIdHash : bytes) (rpId : string) (proof : OwnershipProof)
    (tk wm : option (list string)) (f : WalletFacts) : Prop :=
  let c := wf_candidate f in
  genuine proof rpId
  ∧ (∃ fmt, p256_verify fmt (signature proof) (signed_digest proof) (c_publicKey c) = Some true)
  ∧ (∃ t acc, FoundAt credentialIdHash rpId c t acc)
  ∧ 0 < wf_signatureCount f
  ∧ ∃ trusted mints atas, parse_keys (default [] tk) = Ok trusted
    ∧ watchedMints (default [] wm) = Ok mints ∧ watchedAtasOf (c_vaultPda c) mints = Ok atas
    ∧ ReadOnlyBy valid_token env B (c_programId c) (c_walletPda c) (c_vaultPda c)
        (OWNERSHIP_DISCS (c_version c)) atas (wf_slot f) (OwnPower c trusted).

Lemma adopted_safe credentialIdHash rpId proof tk wm includeV1 cl cl' r f :
  findOwnPasskeyWallet env programId credentialIdHash rpId proof tk wm includeV1 cl = (cl', Ok r) →
  ow_adopt r = Some f → wf_slot f <= U64_MAX →
  SafelyAdopted credentialIdHash rpId proof tk wm f.
Proof.
  unfold findOwnPasskeyWallet, SafelyAdopted. intros Hrun Hadopt Hmax. set (c := wf_candidate f). m_step Hrun.
  destruct (_ =? 0)%nat; [apply mret_inv in Hrun as [_ <-]; done|].
  m_step Hrun. pose proof (pick_cases a0) as Hpick. destruct (pickOwnWallet a0) as [ad nc].
  apply mret_inv in Hrun as [_ <-]. cbn in Hadopt. subst ad. destruct Hpick as (Hsigned & Hca & _).
  assert (Hf : f ∈ List.filter signed_for a0) by (rewrite Hsigned; by apply list_elem_of_singleton).
  apply elem_of_filter_bool in Hf as [Hf Hcount%Z.ltb_lt].
  destruct (describe_ok _ _ _ _ _ _ _ E0 Hf) as (trusted & mints & cl1 & cl2 & Htk & Hwm & Hin & Hd).
  apply verifyOwnershipProof_in in Hin as (Hin & Hgen & Hver).
  split; [done|]. split; [done|]. split; [by eapply candidates_ok|]. split; [done|].
  destruct (watchedAtasOf (c_vaultPda c) mints) as [atas|e] eqn:Ha.
  2:{ unfold describeCandidate in Hd. m_step Hd. apply lift_inv in E1 as [_ Hok]. subst c. congruence. }
  exists trusted, mints, atas. split_and!; try done. by eapply controlled_alone_is_safe.
Qed.

End own_wallet.

(** ** A vetted migration destination *)
Section vetted.
Context `{KL : KitLaws}.
Variables (valid_token : bytes → bool) (env : Env) (programId : address) (B : Z → ledger).
Hypothesis serves : Serves valid_token env B.

(** The one power the vet leaves: an Owner-rank authority with exactly the
    owner's key. *)
Definition OwnerPower (fields : OwnerFields) (p : power) : Prop :=
  match p with
  | PAuthority _ type role credential publicKey =>
    type = Some (authType fields) ∧ role = Some ROLE_OWNER ∧ credential = credentialOrPubkey fields
    ∧ (authType fields = AUTH_TYPE_SECP256R1 → publicKey = default [] (secp256r1Pubkey fields))
  | _ => False
  end.

Lemma some_live_false rows offset slot a d :
  slot <= U64_MAX → some_live rows offset slot = Ok false → (a, d) ∈ rows →
  ¬ slot <= le_combine (slice offset (offset + 8) d).
Proof.
  intros Hmax (es & Hm & Hl)%bind_inv Hin Hexp. destruct (mapR_elem _ _ _ _ Hm Hin) as (e & He & Hd).
  assert (Hno : existsb (λ e, slot <=? e) es = false) by congruence.
  rewrite existsb_false in Hno. apply Hno in He. cbn [snd] in Hd. unfold expiryAt, readU64, getUint in Hd.
  destruct (Nat.leb_spec (offset + 8) (length d)); injection Hd as <-; apply Z.leb_gt in He; lia.
Qed.

Lemma no_grants_owned vault rows tp gs a d offset g :
  grantsOn rows tp vault [] = Ok gs → gs = [] → (a, d) ∈ rows →
  offset = TOKEN_DELEGATE ∨ offset = TOKEN_CLOSE_AUTHORITY → option_set d offset g = true → g = vault.
Proof.
  intros Hg -> Hin Ho Hs. destruct (decide (g = vault)) as [|Hne]; [done|].
  pose proof (grantsOn_trusted _ _ _ _ _ _ _ _ g Hg eq_refl Hin Ho Hs Hne). set_solver.
Qed.

Lemma vet_clean vault fields mints atas slot s v :
  watchedAtasOf vault mints = Ok atas → slot <= U64_MAX →
  vet_of programId vault fields mints atas slot s = Ok v → vt_problem v = None →
  Clean vault atas (OwnerPower fields) slot s.
Proof.
  intros Hatas Hmax Hv Hp. unfold vet_of in Hv.
  destruct (negb (isLiveWallet _ _ _)); [by injection Hv as <-|].
  destruct (ss_authorities s) as [|[pda a] [|? ?]] eqn:Eauth; [by injection Hv as <-| |by injection Hv as <-].
  destruct (byte_is a 1 _) eqn:E1; [|by injection Hv as <-].
  destruct (byte_is a 2 _) eqn:E2; [|by injection Hv as <-].
  destruct (bytesEqual (slice 48 80 a) _) eqn:E3; [|by injection Hv as <-]. cbn [negb orb] in Hv.
  destruct (_ && _) eqn:E4; [by injection Hv as <-|].
  apply bind_inv in Hv as ([] & Hs & Hv); [by injection Hv as <-|].
  apply bind_inv in Hv as ([] & Hd & Hv); [by injection Hv as <-|].
  destruct (vault_problem _) eqn:Evp; [by injection Hv as <-|].
  apply bind_inv in Hv as ([|g gs] & Hg & Hv); [|by injection Hv as <-]. clear Hv.
  unfold vaultTokenGrants in Hg. apply bind_inv in Hg as (g1 & Hg1 & Hg). apply bind_inv in Hg as (g2 & Hg2 & Hg).
  apply bind_inv in Hg as (g3 & Hg3 & [= Hnil]). apply app_nil in Hnil as [-> [-> Hnil]%app_nil].
  split.
  - intros a' d Hin. rewrite Eauth in Hin. apply list_elem_of_singleton in Hin as [= -> ->].
    cbn. split; [by apply byte_is_at|]. split; [by apply byte_is_at|]. split; [by apply bytesEqual_spec|].
    intros Hty. rewrite Hty, Z.eqb_refl in E4. apply negb_false_iff in E4. unfold stores_passkey in E4.
    apply andb_true_iff in E4 as [H5 _]. by apply bytesEqual_spec.
  - intros a' d Hin Hexp. by eapply (some_live_false _ _ _ _ _ Hmax Hs).
  - intros a' d Hin Hexp. by eapply (some_live_false _ _ _ _ _ Hmax Hd).
  - intros tp rows a' d g Hrows Hin Hne. assert (Hgs : grantsOn rows tp vault [] = Ok [])
      by (destruct Hrows as [[-> ->]|[-> ->]]; done).
    split; intros Hset; exfalso; apply Hne.
    + exact (no_grants_owned _ _ _ _ _ _ _ _ Hgs eq_refl Hin (or_introl eq_refl) Hset).
    + exact (no_grants_owned _ _ _ _ _ _ _ _ Hgs eq_refl Hin (or_intror eq_refl) Hset).
  - intros i a' r o Ha Hi Hr Hsl Ho.
    destruct (watched_of_lookup mints atas (drop 2 (ss_infos s)) i a' (Some r)) as (w & Hw & _ & Hinfo);
      [symmetry; by apply (mapR_length _ _ _ Hatas) | done | by rewrite lookup_drop |].
    enough (o ∈ []) by set_solver.
    eapply (watched_trusted _ _ _ _ w (ar_data r)); [exact Hg3 | by rewrite Hnil | done | | done | done].
    rewrite Hinfo. cbn. by rewrite Hr.
  - unfold vault_problem in Evp. destruct (isSystemAccount _) eqn:Es; [done|].
    by destruct (owner_data _) as [[? ?]|].
Qed.

(** In the reads of a vet that passes, only the owner's key can spend. *)
Lemma vet_is_safe wallet owner mints atas vault bump slot cl cl' fields s v :
  resolveOwnerFields owner = Ok fields → findVaultPda wallet programId = Ok (vault, bump) →
  watchedAtasOf vault mints = Ok atas → slot <= U64_MAX →
  readSpendingState env programId wallet vault (OWNERSHIP_DISCS 2) (wallet :: vault :: atas) cl
    = (cl', Ok s) →
  vet_of programId vault fields mints atas slot s = Ok v → vt_problem v = None →
  ReadOnlyBy valid_token env B programId wallet vault (OWNERSHIP_DISCS 2) atas slot (OwnerPower fields).
Proof.
  intros Hf Hvault Ha Hmax Hread Hv Hp.
  eapply readSpendingState_ok in Hread as (t1 & ts & td & Sn); [|exact serves].
  eapply clean_reads; [exact Sn | by eapply vet_clean].
Qed.

(** In the ledger states read for it, every power over [wallet] not expired at the slot
    read first is its owner's key. *)
Definition OwnersAlone (wallet : address) (owner : CreateWalletOwner) (mints : list address) : Prop :=
  ∃ fields vault bump atas slot n,
    resolveOwnerFields owner = Ok fields ∧ findVaultPda wallet programId = Ok (vault, bump)
    ∧ watchedAtasOf vault mints = Ok atas ∧ env_getSlot env n = Ok slot
    ∧ (slot <= U64_MAX →
       ReadOnlyBy valid_token env B programId wallet vault (OWNERSHIP_DISCS 2) atas slot (OwnerPower fields)).

Lemma vetDestination_safe wallet owner mints cl cl' v :
  vetDestination env programId wallet owner mints cl = (cl', Ok v) → vt_problem v = None →
  OwnersAlone wallet owner mints.
Proof.
  unfold vetDestination. intros E Hp.
  m_step E. apply lift_inv in E0 as [-> Hf]. m_step E. unfold getSlot in E0. m_step E0.
  apply lift_inv in E0 as [-> Hslot]. m_step E. match type of E0 with _ = (_, Ok ?x) => destruct x as [vault bump] end.
  apply lift_inv in E0 as [-> Hvault]. m_step E. apply lift_inv in E0 as [-> Ha].
  m_step E. apply lift_inv in E as [_ Hv].
  do 6 eexists. split_and!; [exact Hf | exact Hvault | exact Ha | exact Hslot |].
  intros. by eapply vet_is_safe.
Qed.

Lemma vetted_safe wallet owner wm cl cl' :
  vetMigrationDestination env programId wallet owner wm cl = (cl', Ok None) →
  ∃ mints, watchedMints (default [] wm) = Ok mints ∧ OwnersAlone wallet owner mints.
Proof.
  unfold vetMigrationDestination. intros Hrun. m_step Hrun. apply lift_inv in E as [-> Hm].
  m_step Hrun. apply mret_inv in Hrun as [_ Hp]. eexists. split; [exact Hm|]. by eapply vetDestination_safe.
Qed.

(** A wallet that passes the migration vet is the owner's alone in the states read: its one
    authority is an Owner-rank one with exactly the owner's key (for a passkey: its
    credential and its public key), and nobody else holds a power over its funds. *)
Theorem vetted_destination_is_safe wallet owner wm cl cl' :
  vetMigrationDestination env programId wallet owner wm cl = (cl', Ok None) →
  ∃ mints, watchedMints (default [] wm) = Ok mints ∧ OwnersAlone wallet owner mints.
Proof. apply vetted_safe. Qed.
End vetted.
