(* ===== verification/LookupSamples.v ===== *)
(** * A run of the wallet lookup

    A node that serves a small ledger, in which one passkey owns one wallet and
    a deposit lands while the wallet is being read, and the lookup's theorems
    at that run. *)
From S2P Require Import Prelude Bytes Kit Constants JsMap Pdas Builders Accounts Json Ownership.
From S2P Require Import ClientHelpers Client ClientProps Samples WorkerPool WalletLookup Ledger.
From S2P Require Import LookupSafety.
Import ConcreteKit.
Local Open Scope Z_scope.

(** ** Serving a ledger *)
Section serve.
Context `{KL : KitLaws}.

Definition ledger_of (l : list (address * account)) : ledger := λ a,
  snd <$> List.find (λ p, bool_decide (p.1 = a)) l.

Lemma ledger_of_elem l a acc : NoDup l.*1 → ledger_of l a = Some acc ↔ (a, acc) ∈ l.
Proof.
  intros Hd. unfold ledger_of. split.
  - destruct (List.find _ l) as [[a' acc']|] eqn:E; [|done]. cbn. intros [= ->].
    apply List.find_some in E as [H%list_elem_of_In Ha%bool_decide_eq_true]. cbn in Ha. by subst.
  - induction l as [|[b acc'] l IH]; [set_solver|]. cbn [List.find fst]. rewrite fmap_cons in Hd.
    apply NoDup_cons in Hd as [Hb Hd]. intros [[= -> ->]|Hin]%elem_of_cons; [by rewrite bool_decide_true|].
    rewrite bool_decide_false; [by apply IH|]. intros <-. apply Hb. apply list_elem_of_fmap. by exists (b, acc).
Qed.

Lemma ledger_of_last l k x y a : a ≠ k → ledger_of (l ++ [(k, x)]) a = ledger_of (l ++ [(k, y)]) a.
Proof.
  intros Ha. unfold ledger_of. induction l as [|[b acc] l IH]; cbn [app List.find fst].
  - by rewrite bool_decide_false.
  - by destruct (bool_decide (b = a)).
Qed.

Variables (accounts : Z → list (address * account)) (answers : nat → Z) (now : Z).
Hypothesis distinct : ∀ slot, NoDup (accounts slot).*1.
Variable valid_token : bytes → bool.

Definition answered_at (n : nat) (min : option Z) : Z := Z.max (answers n) (default (answers n) min).

Definition served_rows (test : account → bool) (slot : Z) : list (address * AccountView) :=
  (λ p, (p.1, view_of p.2)) <$> List.filter (λ p, test p.2) (accounts slot).

(** A node that answers question [n] as of slot [answers n], or of the slot
    asked for if that is later. *)
Definition serving : Env := mkEnv
  (λ n a, Ok (view_of <$> ledger_of (accounts (answers n)) a)) (λ _ n, zeros n) (λ _, 0) (λ _, [])
  (λ _, false) (λ _, Ok now)
  (λ n l min, let slot := answered_at n min in
              Ok (slot, (λ a, view_of <$> ledger_of (accounts slot) a) <$> l))
  (λ n program filters min, let slot := answered_at n min in
     Ok (slot, served_rows (λ a, bool_decide (acc_owner a = program) && matches filters (acc_data a)) slot))
  (λ n vault tp min, let slot := answered_at n min in
     Ok (slot, served_rows (λ a, bool_decide (acc_owner a = tp) && valid_token (acc_data a)
                                 && bytesEqual (slice 32 64 (acc_data a)) (address_encode vault)) slot))
  (λ n, n).

Lemma served_rows_elem test slot a v :
  (a, v) ∈ served_rows test slot ↔
  ∃ acc, ledger_of (accounts slot) a = Some acc ∧ test acc = true ∧ v = view_of acc.
Proof.
  unfold served_rows. rewrite list_elem_of_fmap. split.
  - intros ([b acc] & [= -> ->] & [Hin Ht]%elem_of_filter_bool). exists acc. cbn.
    by rewrite ledger_of_elem.
  - intros (acc & Hl & Ht & ->). exists (a, acc). split; [done|]. apply elem_of_filter_bool.
    by rewrite ledger_of_elem in Hl by done.
Qed.

Lemma serving_serves : Serves valid_token serving (λ slot, ledger_of (accounts slot)).
Proof.
  split; cbn [serving env_getProgramAccounts env_getMultipleAccounts env_getTokenAccountsByOwner].
  - intros n program filters min slot rows [= <- <-]. split; [unfold answered_at; destruct min; cbn; lia|].
    intros a v. rewrite served_rows_elem. split; intros (acc & Hl & Ht); exists acc; revert Ht;
      rewrite andb_true_iff, bool_decide_eq_true; tauto.
  - intros n l min slot infos [= <- <-]. split; [unfold answered_at; destruct min; cbn; lia|done].
  - intros n vault tp min slot rows [= <- <-]. split; [unfold answered_at; destruct min; cbn; lia|].
    intros a v. rewrite served_rows_elem. unfold token_account_of.
    split; intros (acc & Hl & Ht); exists acc; revert Ht;
      rewrite !andb_true_iff, bool_decide_eq_true, bytesEqual_spec; tauto.
Qed.
End serve.

(** Powers do not depend on lamports. *)
Lemma holds_ext `{K : Kit} vt program wallet vault discs watched (L L' : ledger) p :
  (∀ a, (λ x, (acc_owner x, acc_data x)) <$> L a = (λ x, (acc_owner x, acc_data x)) <$> L' a) →
  holds vt program wallet vault discs watched L p = holds vt program wallet vault discs watched L' p.
Proof.
  intros H. destruct p as [a ty ro cr k|a k e|a e|tp a g|tp a g|a o|]; cbn [holds]; [| | | | |f_equal|by rewrite H].
  all: unfold at_account, program_account, vault_token_account; specialize (H a).
  all: destruct (L a) as [x|], (L' a) as [y|]; cbn in H; try done.
  all: injection H as Ho Hd; by rewrite Ho, Hd.
Qed.

(** ** One passkey, one wallet *)
Module LookupSample.
Definition program : addr := at_byte 9.
Definition wallet : addr := at_byte 2.
Definition authority : addr := at_byte 3.
Definition credential : bytes := replicate 32 (u8 5).
Definition vault : addr :=
  match findVaultPda (K := kit) wallet program with Ok (v, _) => v | Throw _ => at_byte 4 end.

(** The wallet account, the passkey's authority (it has signed seven times),
    and the vault. *)
Definition wallet_data : bytes := u8 DISC_WALLET :: zeros 7.
Definition authority_data : bytes :=
  [u8 DISC_AUTHORITY; u8 1; u8 0; u8 255; u8 1] ++ zeros 3 ++ [u8 7] ++ zeros 7
  ++ replicate 32 (u8 2) ++ credential ++ sample_key ++ toy_hash (utf8 "a.com").

Definition state (deposit : Z) : list (addr * @account kit) :=
  [(wallet, mkAccount (K := kit) program 1 wallet_data);
   (authority, mkAccount (K := kit) program 1 authority_data);
   (vault, mkAccount (K := kit) SYSTEM_PROGRAM_ADDRESS deposit [])].

(** The deposit is the first transaction, in slot 60; later ones are elsewhere. *)
Definition history : @History kit := mkHistory (K := kit)
  (λ n, ledger_of (state (if (n =? 0)%nat then 0 else 500)))
  (λ i, 60 + Z.of_nat i) (λ slot, Z.to_nat (slot - 59)) (λ _ _, False).

(** A node that is at slot 55 when the reads begin, and moves a slot a read. *)
Definition node : @Env kit :=
  serving (λ slot, state (if (Z.to_nat (slot - 59) =? 0)%nat then 0 else 500))
    (λ n, 55 + Z.of_nat n) 55 (λ d, (length d =? 165)%nat).

Definition found := findOwnPasskeyWallet node program credential "a.com" (sample_proof 7) None None
  (Some false) new_client.

Definition adopted (r : OwnWallet) : bool :=
  match ow_adopt r with
  | Some f => (wf_slot f =? 55) && bool_decide (c_programId (wf_candidate f) = program)
              && bool_decide (c_walletPda (wf_candidate f) = wallet)
              && bool_decide (c_vaultPda (wf_candidate f) = vault) && (c_version (wf_candidate f) =? 2)
              && bytesEqual (c_publicKey (wf_candidate f)) sample_key
  | None => false
  end.

Lemma distinct slot : NoDup (state slot).*1.
Proof.
  assert (Hd : NoDup ((λ a : addr, proj1_sig a) <$> (state slot).*1)).
  { cbn [state fmap list_fmap fst]. apply (bool_decide_unpack _). vm_compute. exact I. }
  by apply NoDup_fmap_1 in Hd.
Qed.

Lemma serves : Serves (K := kit) (λ d, (length d =? 165)%nat) node (bank history).
Proof. apply (@serving_serves kit kit_laws). intros slot. apply distinct. Qed.

Lemma flow watched :
  PowerFlow (K := kit) (λ d, (length d =? 165)%nat) program wallet vault (OWNERSHIP_DISCS 2) watched history 0.
Proof.
  split.
  - intros i slot. cbn. lia.
  - intros i p _ H1 H2. exfalso. cbn [h_state history] in H1, H2.
    rewrite (@holds_ext kit _ _ _ _ _ _ _ (ledger_of (K := kit) (state (if (i =? 0)%nat then 0 else 500)))) in H1;
      [congruence|].
    intros a. unfold ledger_of, state. cbn [List.find fst].
    by repeat destruct (bool_decide _).
Qed.

Lemma found_adopts : Sample.returns found adopted = true.
Proof. vm_compute. reflexivity. Qed.

(** Every scan here is answered at slot 55 or later. *)
Lemma reach : scans_reach (K := kit) node 55.
Proof. intros n prog filters t v [= <- _]. unfold answered_at. cbn. lia. Qed.
End LookupSample.


(** The wallet the sample passkey owns passes the vet. *)
Definition sample_owner : @CreateWalletOwner kit :=
  OwnerSecp256r1 LookupSample.credential sample_key "a.com".

Lemma vetted_destination_is_safe_witness :
  ∃ fields atas, resolveOwnerFields sample_owner = Ok fields ∧
    SpentOnlyBy (K := kit) (λ d, (length d =? 165)%nat) LookupSample.program LookupSample.wallet
      LookupSample.vault (OWNERSHIP_DISCS 2) atas LookupSample.history 55 (OwnerPower fields).
Proof.
  destruct (Sample.returns_inv (vetMigrationDestination LookupSample.node LookupSample.program
    LookupSample.wallet sample_owner None new_client) (λ r, match r with None => true | _ => false end))
    as (cl & r & Hrun & Hr); [vm_compute; reflexivity|].
  destruct r as [?|]; [discriminate|].
  destruct (@vetted_destination_is_safe kit kit_laws _ _ _ _ LookupSample.serves _ _ _ _ _ Hrun)
    as (mints & _ & fields & vault & bump & atas & slot & n & Hf & Hv & _ & Hs & Hsafe).
  injection Hs as <-. exists fields, atas. split; [exact Hf|].
  assert (vault = LookupSample.vault) as ->
    by (unfold LookupSample.vault; by rewrite Hv).
  refine (@read_only_stays kit _ _ _ _ _ _ _ _ 0 (LookupSample.flow atas) _ _ (Hsafe _) (Nat.le_0_l _) LookupSample.reach).
  vm_compute. discriminate.
Defined.

(** ** When the slot is ahead of the scans

    [describeWalletCandidates] reads the slot first, but does not ask the scans
    to be at least as new. Here a fast node answers the slot (65) and lagging
    ones the rest (59). A session that expires at slot 61 makes the vault
    approve a delegate in slot 60: it counts as expired, and its grant is not
    there yet. *)
Module LaggingScans.
Import LookupSample.
Definition session : addr := at_byte 6.
Definition mallory : addr := at_byte 66.
Definition token_account : addr := at_byte 7.

Definition session_data : bytes :=
  u8 DISC_SESSION :: zeros 7 ++ replicate 32 (u8 2) ++ replicate 32 (u8 66) ++ le_split 8 61.
Definition token_data (approved : bool) : bytes :=
  zeros 32 ++ proj1_sig vault ++ zeros 8
  ++ (if approved then [u8 1] ++ zeros 3 ++ replicate 32 (u8 66) else zeros 36) ++ zeros 57.

Definition state' (approved : bool) : list (addr * @account kit) :=
  (state 0 ++ [(session, mkAccount (K := kit) program 1 session_data)])
  ++ [(token_account, mkAccount (K := kit) TOKEN_PROGRAM_ADDRESS 1 (token_data approved))].

Definition approver : @power kit := PSession (K := kit) session (replicate 32 (u8 66)) (le_split 8 61).

Definition moves : @History kit := mkHistory (K := kit)
  (λ n, ledger_of (state' (negb (n =? 0)%nat))) (λ i, 60 + Z.of_nat i) (λ slot, Z.to_nat (slot - 59))
  (λ i q, i = 0%nat ∧ q = approver).

Definition nodes : @Env kit :=
  serving (λ slot, state' (negb (Z.to_nat (slot - 59) =? 0)%nat)) (λ _, 59) 65
    (λ d, (length d =? 165)%nat).

Definition candidate : @PasskeyWalletCandidate kit := mkCandidate (K := kit) 2 program wallet vault authority sample_key.

Lemma distinct' b : NoDup (state' b).*1.
Proof.
  assert (Hd : NoDup ((λ a : addr, proj1_sig a) <$> (state' b).*1)).
  { cbn [state' state app fmap list_fmap fst]. apply (bool_decide_unpack _). vm_compute. exact I. }
  by apply NoDup_fmap_1 in Hd.
Qed.

Lemma nodes_serve : Serves (K := kit) (λ d, (length d =? 165)%nat) nodes (bank moves).
Proof. apply (@serving_serves kit kit_laws). intros slot. apply distinct'. Qed.

Lemma not_the_programs b : ∃ acc, ledger_of (K := kit) (state' b) token_account = Some acc
  ∧ acc_owner acc = TOKEN_PROGRAM_ADDRESS.
Proof.
  exists (mkAccount (K := kit) TOKEN_PROGRAM_ADDRESS 1 (token_data b)). split; [|done].
  apply ledger_of_elem; [apply distinct'|]. unfold state'. apply elem_of_app. right. by apply list_elem_of_singleton.
Qed.

(** The accounts of the program are the same before and after. *)
Lemma programs_unmoved b a (test : @account kit → bool) :
  (∀ acc, acc_owner acc = TOKEN_PROGRAM_ADDRESS → test acc = false) →
  at_account (ledger_of (K := kit) (state' b)) a test
  = at_account (ledger_of (K := kit) (state' false)) a test.
Proof.
  intros Ht. unfold at_account. destruct (decide (a = token_account)) as [->|Hne].
  - destruct (not_the_programs b) as (x & -> & Hx), (not_the_programs false) as (y & -> & Hy).
    by rewrite (Ht x Hx), (Ht y Hy).
  - unfold state'. by rewrite (ledger_of_last (K := kit) _ _ _
      (mkAccount (K := kit) TOKEN_PROGRAM_ADDRESS 1 (token_data false)) _ Hne).
Qed.

Lemma not_program acc disc off : acc_owner acc = TOKEN_PROGRAM_ADDRESS →
  program_account (K := kit) program wallet disc off acc = false.
Proof.
  intros H. unfold program_account. rewrite H, bool_decide_false; [done|].
  intros E. apply (f_equal (λ a : addr, proj1_sig a !! 0%nat)) in E. vm_compute in E. discriminate E.
Qed.

Lemma moves_flow watched :
  PowerFlow (K := kit) (λ d, (length d =? 165)%nat) program wallet vault (OWNERSHIP_DISCS 2) watched moves 0.
Proof.
  split; [intros i slot; cbn; lia|]. intros i p _ H1 H2. cbn [h_state moves] in H1, H2.
  assert (Hq : holds (K := kit) (λ d, (length d =? 165)%nat) program wallet vault (OWNERSHIP_DISCS 2) watched
    (ledger_of (state' false)) approver = true) by (vm_compute; reflexivity).
  destruct i as [|i]; cbn [Nat.eqb negb] in H1, H2; [|congruence].
  destruct p as [a ty ro cr k|a k e|a e|tp a g|tp a g|a o|].
  1-3: exfalso; cbn [holds] in H1, H2; rewrite programs_unmoved in H1; [congruence|].
  1-3: intros acc Hacc; by rewrite not_program.
  all: exists approver; split; [by split|]; split; [exact Hq|]; split; [vm_compute; discriminate | exact I].
Qed.

Lemma described_alone : Sample.returns (describeWalletCandidates nodes [candidate] None None new_client)
  (λ l, match l with [f] => wf_controlledAlone f && (wf_slot f =? 65) | _ => false end) = true.
Proof. vm_compute. reflexivity. Qed.

(** The wallet is reported as controlled alone, the candidate's own key is
    never used, and yet from slot 60 on a delegate can spend from it. *)
Theorem slot_ahead_of_scans_hides_a_grant :
  ∃ f, (∃ cl, describeWalletCandidates nodes [candidate] None None new_client = (cl, Ok [f]))
    ∧ wf_controlledAlone f = true ∧ wf_slot f = 65
    ∧ ∀ n watched, (1 <= n)%nat →
      quiet (K := kit) (λ d, (length d =? 165)%nat) program wallet vault (OWNERSHIP_DISCS 2) watched moves
        (OwnPower candidate []) 0 n
      ∧ holds (K := kit) (λ d, (length d =? 165)%nat) program wallet vault (OWNERSHIP_DISCS 2) watched
          (h_state moves n) (PDelegate TOKEN_PROGRAM_ADDRESS token_account mallory) = true
      ∧ ¬ OwnPower candidate [] (PDelegate TOKEN_PROGRAM_ADDRESS token_account mallory).
Proof.
  destruct (Sample.returns_inv _ _ described_alone) as (cl & l & Hrun & Hl).
  destruct l as [|f [|? ?]]; [discriminate Hl| |discriminate Hl].
  apply andb_true_iff in Hl as [Hca Hs%Z.eqb_eq].
  exists f. split; [exists cl; exact Hrun|]. split; [exact Hca|]. split; [exact Hs|]. intros n watched Hn. split; [|split].
  - intros i q _ [-> ->] _ _ (k & Hk & _). by apply elem_of_nil in Hk.
  - destruct n as [|n]; [lia|]. vm_compute. reflexivity.
  - intros Hk. exact (not_elem_of_nil _ Hk).
Qed.
End LaggingScans.
