(* ===== verification/Migration.v ===== *)
(** * Migrating a v1 wallet

    Models [migrateV1Wallet] and [findV1WalletsByOwner] of
    src/sdk/sdk-kit/src/client.ts: the v1 wallet's accounts and state, the
    choice and vetting of the v2 destination, which token accounts move, the
    instructions that set the destination up, and the instruction (or passkey
    challenge) that moves everything. *)
From S2P Require Import Prelude Bytes Kit Constants JsMap Pdas Builders Signing Accounts.
From S2P Require Import ChallengeReads Ownership V1 ClientHelpers Client WalletLookup.
Local Open Scope Z_scope.

Section migration.
Context `{K : Kit}.
Variable env : Env.
Variable programId : address.
Variable protocolFees : bool.

Definition lookupV1WalletsByOwner (credential : bytes) (authorityType : AuthorityTypeName)
    (v1ProgramId : option address) : M (list V1WalletRecord) :=
  n ← ask;
  lift (findV1WalletsByOwner (λ program filters, snd <$> env_getProgramAccounts env n program filters None)
          credential (default (legacyProgramIdFor programId) v1ProgramId) authorityType).

Record MigrateParams := mkMigrateParams {
  mp_payer : address;
  mp_owner : CreateWalletOwner;
  mp_userSeed : option bytes;
  mp_v1Wallet : option address;
  mp_destinationUserSeed : option bytes;
  mp_v1ProgramId : option address;
  mp_excludeTokenAccounts : option (list address);
  mp_refundDestination : option address;
  mp_minContextSlot : option Z;
  mp_commitment : option Commitment;
  mp_watchMints : option (list string);
}.

(** The retired v1 deployments. *)
Definition retired : list address :=
  List.filter (λ id, negb (bool_decide (id = PROGRAM_ID_MAINNET)) && negb (bool_decide (id = PROGRAM_ID_DEVNET)))
    [PROGRAM_ID_MAINNET_V1; PROGRAM_ID_DEVNET_V1].

(** [v1]: where the old wallet is. *)
Definition v1_accounts (p : MigrateParams) (credentialOrPubkey : bytes) (v1ProgramId : address) :
    result V1Accounts :=
  match mp_v1Wallet p, mp_userSeed p with
  | Some wallet, _ =>
    '(vault, _) ← findV1VaultPda wallet v1ProgramId;
    '(authority, _) ← findV1AuthorityPda wallet credentialOrPubkey v1ProgramId;
    Ok (mkV1 wallet vault authority)
  | None, Some userSeed => deriveV1Accounts userSeed credentialOrPubkey v1ProgramId
  | None, None => Throw ENeedSeedOrWallet
  end.

(** ** The destination *)

(** The wallet the passkey has signed for, when it is the only one and it
    passes the vet, with the slot of the vet's newest read. *)
Definition reusable_wallet (p : MigrateParams) (fields : OwnerFields) (mints : list address) :
    M (option (address * Z)) :=
  if authType fields =? AUTH_TYPE_SECP256R1 then
    signed ← signedPasskeyAuthorities env programId (mp_owner p);
    match signed with
    | [s] =>
      if bool_decide (sa_role s = Some ROLE_OWNER) then
        vet ← vetDestination env programId (sa_walletPda s) (mp_owner p) mints;
        mret (match vt_problem vet with
              | None => if 0 <? vt_signatureCount vet then Some (sa_walletPda s, vt_slot vet) else None
              | Some _ => None
              end)
      else mret None
    | _ => mret None
    end
  else mret None.

Record Destination := mkDestination {
  ds_wallet : address;
  (** The seed the wallet derives from, when this call knows it. *)
  ds_seed : option bytes;
  (** Once it has passed the vet: the slot of the vet's newest read. *)
  ds_vettedAt : option Z;
}.

Definition choose_destination (p : MigrateParams) (fields : OwnerFields) (mints : list address) :
    M Destination :=
  match mp_userSeed p with
  | Some seed => '(wallet, _) ← findWallet programId seed; mret (mkDestination wallet (Some seed) None)
  | None =>
    reused ← reusable_wallet p fields mints;
    match reused with
    | Some (wallet, slot) => mret (mkDestination wallet None (Some slot))
    | None =>
      seed ← (match mp_destinationUserSeed p with
              | Some seed => mret seed
              | None => n ← ask; mret (env_randomBytes env n 32)
              end);
      '(wallet, _) ← findWallet programId seed;
      mret (mkDestination wallet (Some seed) None)
    end
  end.

(** [createFrom] and [vettedAt], once the destination is settled. *)
Definition settle_destination (p : MigrateParams) (mints : list address) (d : Destination) :
    M (option bytes * option Z) :=
  match ds_vettedAt d with
  | Some slot => mret (None, Some slot)
  | None =>
    value ← rpc_getAccountInfo env (ds_wallet d);
    walletAccount ← lift (read_of value);
    if isSystemAccount (owner_data walletAccount) then mret (ds_seed d, None)
    else
      vet ← vetDestination env programId (ds_wallet d) (mp_owner p) mints;
      match vt_problem vet with
      | Some _ => lift (Throw (ERefusedDestination
                    (match mp_userSeed p with Some _ => "userSeed" | None => "destinationUserSeed" end)))
      | None => mret (None, Some (vt_slot vet))
      end
  end.

(** ** The tokens *)
Record DestState := mkDestState {
  dst_dest : address;
  dst_frozen : bool;
  dst_problem : option DestinationProblem;
}.

Definition destination_of (v2Vault : address) (t : V1VaultToken) : result address :=
  getAssociatedTokenAddress (t_mint t) v2Vault (t_tokenProgram t).

(** [infos.forEach((info, j) => ...)] over one page. *)
Fixpoint set_dests (v2Vault : address) (page : list V1VaultToken) (dests : list address)
    (infos : list (option AccountRead)) (m : list (address * DestState)) :
    result (list (address * DestState)) :=
  match page, dests, infos with
  | t :: page, dest :: dests, info :: infos =>
    match owner_data info with
    | Some (owner, data) =>
      if isSystemAccount (Some (owner, data)) then set_dests v2Vault page dests infos m
      else
        problem ← destinationTokenAccountProblem dest (owner, data) (t_tokenProgram t) v2Vault;
        set_dests v2Vault page dests infos
          (map_set (t_ata t) (mkDestState dest (tokenAccountFrozen data) problem) m)
    | None => set_dests v2Vault page dests infos m
    end
  | _, _, _ => Ok m
  end.

(** [for (let i = 0; i < toCheck.length; i += 100)]. *)
Fixpoint read_dests (fuel : nat) (v2Vault : address) (vettedAt : option Z) (toCheck : list V1VaultToken)
    (m : list (address * DestState)) : M (list (address * DestState)) :=
  match fuel, toCheck with
  | S fuel, _ :: _ =>
    let page := take 100 toCheck in
    dests ← lift (mapR (destination_of v2Vault) page);
    '(_, infos) ← readAccounts env dests vettedAt;
    m ← lift (set_dests v2Vault page dests infos m);
    read_dests fuel v2Vault vettedAt (drop 100 toCheck) m
  | _, _ => mret m
  end.

Definition on_arrival (s : V1VaultToken * UnmovableReason) : bool := bool_decide (s.2 = RFrozenOnArrival).

Definition dest_frozen (m : list (address * DestState)) (t : V1VaultToken) : bool :=
  match map_get (t_ata t) m with Some d => dst_frozen d | None => false end.
Definition dest_thawed (m : list (address * DestState)) (t : V1VaultToken) : bool :=
  match map_get (t_ata t) m with Some d => negb (dst_frozen d) | None => false end.

(** [tokens] and [skippedTokens], from the classification and the state of the
    destination accounts. *)
Definition settle_tokens (m : list (address * DestState)) (movable : list V1VaultToken)
    (skipped : list (V1VaultToken * UnmovableReason)) :
    list V1VaultToken * list (V1VaultToken * UnmovableReason) :=
  let arriving := List.filter on_arrival skipped in
  (List.filter (λ t, negb (dest_frozen m t)) movable
     ++ (fst <$> List.filter (λ s, dest_thawed m s.1) arriving),
   List.filter (λ s, negb (on_arrival s)) skipped
     ++ ((λ t, (t, RDestinationFrozen)) <$> List.filter (dest_frozen m) movable)
     ++ List.filter (λ s, negb (dest_thawed m s.1)) arriving).

Definition rigged (m : list (address * DestState)) (tokens : list V1VaultToken) : list V1VaultToken :=
  List.filter (λ t, match map_get (t_ata t) m with
                    | Some d => match dst_problem d with Some _ => true | None => false end
                    | None => false end) tokens.

(** [withheldByMint], in insertion order. *)
Definition withheld_by_mint (tokens : list V1VaultToken) : list (address * list address) :=
  fold_left (λ m t, if t_withheldFees t
                    then map_set (t_mint t) (default [] (map_get (t_mint t) m) ++ [t_ata t]) m else m)
    tokens [].

Definition migrate_pair (v2Vault : address) (t : V1VaultToken) : result MigrateTokenPair :=
  destAta ← destination_of v2Vault t;
  Ok (mkPair (t_ata t) destAta (t_mint t) (t_tokenProgram t)).

(** ** The whole call *)
Inductive MigrateStep :=
  | MigrateEd25519 (instruction : Instruction) (instructions : list Instruction)
  | MigrateSecp256r1 (prepared : PreparedSecp256r1)
      (finalize : WebAuthnResponse → result (list Instruction)).

Record MigrationPlan := mkPlan {
  mg_v1 : V1Accounts;
  mg_destinationWallet : address;
  mg_destinationUserSeed : option bytes;
  mg_v2Vault : address;
  mg_tokens : list V1VaultToken;
  mg_skippedTokens : list (V1VaultToken * UnmovableReason);
  mg_setupInstructions : list Instruction;
  mg_migrate : MigrateStep;
}.

Definition migrate_payload (v2Vault v1Wallet refundDestination : address) (pairs : list MigrateTokenPair) :
    bytes :=
  concatBytes ([address_encode v2Vault; address_encode v1Wallet; [u8 (Z.of_nat (length pairs))];
                address_encode refundDestination] ++ (address_encode ∘ sourceAta <$> pairs)).

(** The owner's signature, or the challenge for it. *)
Definition migrate_step (p : MigrateParams) (v1 : V1Accounts)
    (v1ProgramId v2Vault : address) (pairs : list MigrateTokenPair) (harvests : list Instruction) :
    M MigrateStep :=
  let refundDestination := default (mp_payer p) (mp_refundDestination p) in
  let signedPayload := migrate_payload v2Vault (v1_wallet v1) refundDestination pairs in
  let build authSigner isSigner authPayload :=
    createMigrateWalletIx (mp_payer p) (v1_wallet v1) (v1_authority v1) (v1_vault v1) v2Vault
      refundDestination authSigner isSigner pairs authPayload v1ProgramId in
  match mp_owner p with
  | OwnerEd25519 publicKey =>
    let instruction := build publicKey true None in
    mret (MigrateEd25519 instruction (harvests ++ [instruction]))
  | OwnerSecp256r1 _ compressedPubkey _ =>
    n ← ask;
    '(_, slot, counter) ← lift (run_reads
      (challengeReadConfig (Some (mkOptions (mp_commitment p) (mp_minContextSlot p))))
      (mkHave (Some compressedPubkey) None) (env_now env n) (env_schedule env n));
    let prepared := buildPasskeySigning v1ProgramId DISC_MIGRATE_WALLET SYSVAR_IX_INDEX_MIGRATE_WALLET
                      signedPayload slot counter (mp_payer p) (v1_wallet v1) compressedPubkey in
    mret (MigrateSecp256r1 prepared (λ response,
      '(authPayload, precompileIx) ← finalizeSecp256r1 prepared response;
      Ok (harvests ++ [precompileIx; build (mp_payer p) false (Some authPayload)])))
  end.

(** Once the destination is settled: the tokens, the checks and the plan. *)
Definition plan_migration (p : MigrateParams) (v1 : V1Accounts) (v1ProgramId v2Wallet : address)
    (destinationUserSeed createFrom : option bytes) (vettedAt : option Z) : M MigrationPlan :=
  '(v2Vault, _) ← findVault programId v2Wallet;
  n ← ask;
  held ← lift (enumerateV1VaultTokens
    (λ vault tokenProgram, snd <$> env_getTokenAccountsByOwner env n vault tokenProgram None) (v1_vault v1));
  n ← ask;
  '(movable, skipped) ← lift (classifyV1VaultTokens
    (λ l, snd <$> env_getMultipleAccounts env n l None) held (default [] (mp_excludeTokenAccounts p)));
  let toCheck := movable ++ (fst <$> List.filter on_arrival skipped) in
  destState ← read_dests (length toCheck) v2Vault vettedAt toCheck [];
  let '(tokens, skippedTokens) := settle_tokens destState movable skipped in
  _ ← lift (throw_if (negb (length (rigged destState tokens) =? 0)%nat)
              (ERiggedDestination (length (rigged destState tokens))));
  _ ← lift (throw_if (255 <? length tokens)%nat (ETooManyTokens (length tokens)));
  creation ← (match createFrom with
              | Some seed => created ← createWallet env programId protocolFees (mp_payer p) seed (mp_owner p);
                             mret (cw_instructions created)
              | None => mret []
              end);
  pairs ← lift (mapR (migrate_pair v2Vault) tokens);
  let setup := creation ++ ((λ pr, createAssociatedTokenAccountIdempotentIx (mp_payer p) (destAta pr)
                                     v2Vault (pairMint pr) (pairTokenProgram pr)) <$> pairs) in
  let harvests := (λ ms, harvestWithheldIx ms.1 ms.2) <$> withheld_by_mint tokens in
  step ← migrate_step p v1 v1ProgramId v2Vault pairs harvests;
  mret (mkPlan v1 v2Wallet destinationUserSeed v2Vault tokens skippedTokens setup step).

Definition migrateV1Wallet (p : MigrateParams) : M MigrationPlan :=
  fields ← lift (resolveOwnerFields (mp_owner p));
  let v1ProgramId := default (legacyProgramIdFor programId) (mp_v1ProgramId p) in
  _ ← lift (throw_if (bool_decide (programId ∈ retired)) ERetiredClient);
  v1 ← lift (v1_accounts p (credentialOrPubkey fields) v1ProgramId);
  n ← ask;
  state ← lift (readV1WalletState (λ l, snd <$> env_getMultipleAccounts env n l None) v1);
  st ← lift (of_option ENoV1Wallet state);
  _ ← lift (throw_if (negb (bool_decide (ownerRole st = Some ROLE_OWNER))) ENotOwnerRank);
  _ ← (if authType fields =? AUTH_TYPE_SECP256R1
       then assertV1PasskeyOwner env (v1_authority v1) (mp_owner p) else mret ());
  mints ← lift (watchedMints (default [] (mp_watchMints p)));
  destination ← choose_destination p fields mints;
  '(createFrom, vettedAt) ← settle_destination p mints destination;
  plan_migration p v1 v1ProgramId (ds_wallet destination)
    (match mp_userSeed p with Some _ => None | None => ds_seed destination end) createFrom vettedAt.
End migration.
