(* ===== verification/MigrationProps.v ===== *)
(** * Properties of the migration

    What a migration plan promises: every token of the v1 vault is moved or
    reported, the funds land in a wallet created in the same setup or in one
    only its owner can spend from, and the owner's signature is over exactly
    what the program will do.  [MigrationSample] is a run: a passkey owner with a v1
    wallet (one token to move, one frozen) and a v2 wallet the passkey has already
    signed for. *)
From S2P Require Import Prelude Bytes Kit Constants JsMap Pdas Packing Builders Signing Accounts Json.
From S2P Require Import ChallengeReads Ownership V1 ClientHelpers Client ClientProps Samples ProgramChallenges.
From S2P Require Import EndToEnd WorkerPool WalletLookup Ledger LookupSafety LookupSamples Migration.
Local Open Scope Z_scope.

(** ** The steps of a plan *)
Section plan.
Context `{K : Kit}.
Variables (env : Env) (programId : address) (fees : bool) (p : MigrateParams).

Abbreviation v1Program := (default (legacyProgramIdFor programId) (mp_v1ProgramId p)).

(** A call that returned in some state of the client. *)
Definition returned {A} (m : M A) (x : A) : Prop := ∃ c c', m c = (c', Ok x).

(** The destination account each moved token gets. *)
Definition setup_token (v2Vault : address) (pr : MigrateTokenPair) : Instruction :=
  createAssociatedTokenAccountIdempotentIx (mp_payer p) (destAta pr) v2Vault (pairMint pr)
    (pairTokenProgram pr).

Definition harvests (tokens : list V1VaultToken) : list Instruction :=
  (λ ms, harvestWithheldIx ms.1 ms.2) <$> withheld_by_mint tokens.

(** How a plan comes about: the values of the steps of [migrateV1Wallet]. *)
Inductive Planned : MigrationPlan → Prop :=
  | planned fields v1 mints d createFrom vettedAt v2Vault bump n held n' movable skipped m tokens
      skippedTokens creation pairs step :
      resolveOwnerFields (mp_owner p) = Ok fields →
      v1_accounts p (credentialOrPubkey fields) v1Program = Ok v1 →
      watchedMints (default [] (mp_watchMints p)) = Ok mints →
      returned (choose_destination env programId p fields mints) d →
      returned (settle_destination env programId p mints d) (createFrom, vettedAt) →
      findVaultPda (ds_wallet d) programId = Ok (v2Vault, bump) →
      enumerateV1VaultTokens
        (λ vault tp, snd <$> env_getTokenAccountsByOwner env n vault tp None) (v1_vault v1) = Ok held →
      classifyV1VaultTokens (λ l, snd <$> env_getMultipleAccounts env n' l None) held
        (default [] (mp_excludeTokenAccounts p)) = Ok (movable, skipped) →
      returned (read_dests env (length (movable ++ (fst <$> List.filter on_arrival skipped))) v2Vault
                  vettedAt (movable ++ (fst <$> List.filter on_arrival skipped)) []) m →
      settle_tokens m movable skipped = (tokens, skippedTokens) →
      rigged m tokens = [] → (length tokens <= 255)%nat →
      match createFrom with
      | Some seed => ∃ created, returned (createWallet env programId fees (mp_payer p) seed (mp_owner p)) created
                                ∧ creation = cw_instructions created
      | None => creation = []
      end →
      mapR (migrate_pair v2Vault) tokens = Ok pairs →
      returned (migrate_step env p v1 v1Program v2Vault pairs (harvests tokens)) step →
      Planned (mkPlan v1 (ds_wallet d) (match mp_userSeed p with Some _ => None | None => ds_seed d end)
                 v2Vault tokens skippedTokens (creation ++ (setup_token v2Vault <$> pairs)) step).

Lemma migrate_planned c c' plan :
  migrateV1Wallet env programId fees p c = (c', Ok plan) → Planned plan ∧ programId ∉ retired.
Proof.
  unfold migrateV1Wallet. intros H.
  m_step H. apply lift_inv in E as [-> Hfields].
  m_step H. apply lift_inv in E as [-> Hret%throw_if_inv]. apply bool_decide_eq_false in Hret.
  m_step H. apply lift_inv in E as [-> Hv1]. m_step H.
  m_step H. apply lift_inv in E0 as [-> _]. m_step H. apply lift_inv in E0 as [-> _].
  m_step H. apply lift_inv in E0 as [-> _]. m_step H. clear E E0. m_step H. apply lift_inv in E as [-> Hmints].
  m_step H. rename E into Hchoose.
  m_step H. rename E into Hsettle. match type of Hsettle with _ = (_, Ok ?x) => destruct x as [createFrom vettedAt] end.
  m_step H. apply lift_inv in E as [-> Hvault].
  match type of Hvault with _ = Ok ?x => destruct x as [v2Vault bump] end.
  m_step H. clear E. m_step H. apply lift_inv in E as [-> Henum].
  m_step H. clear E. m_step H. apply lift_inv in E as [-> Hclass].
  match type of Hclass with _ = Ok ?x => destruct x as [movable skipped] end.
  m_step H. rename E into Hdests. destruct (settle_tokens _ movable skipped) as [tokens skippedTokens] eqn:Etok.
  m_step H. apply lift_inv in E as [-> Hrig%throw_if_inv]. apply negb_false_iff, Nat.eqb_eq, nil_length_inv in Hrig.
  m_step H. apply lift_inv in E as [-> Hlen%throw_if_inv]. apply Nat.ltb_ge in Hlen.
  m_step H. rename E into Hcreate. m_step H. apply lift_inv in E as [-> Hpairs].
  m_step H. rename E into Hstep. apply mret_inv in H as [_ <-]. split; [|done].
  eapply planned; try eassumption; try (eexists _, _; eassumption).
  destruct createFrom as [seed|]; [|by apply mret_inv in Hcreate as [_ <-]].
  m_step Hcreate. apply mret_inv in Hcreate as [_ <-]. eexists. split; [|done]. eexists _, _. eassumption.
Qed.
End plan.

(** ** Every token *)
Section tokens.
Context `{KL : KitLaws}.

Lemma classify_perm rpc tokens exclude movable skipped :
  classifyV1VaultTokens rpc tokens exclude = Ok (movable, skipped) → movable ++ skipped.*1 ≡ₚ tokens.
Proof.
  unfold classifyV1VaultTokens. intros (mints & _ & H)%bind_inv.
  destruct (classify_loop_ok mints
    (List.filter (λ t, negb (bool_decide (t_ata t ∈ exclude))) tokens) []
    ((λ t, (t, RExcluded)) <$> List.filter (λ t, bool_decide (t_ata t ∈ exclude)) tokens))
    as (mv & sk & Hl & Hp & _). rewrite Hl in H. injection H as <- <-. cbn [app].
  rewrite fmap_app, <- list_fmap_compose. cbn [compose fst].
  rewrite (Permutation_app_comm _ sk.*1), app_assoc, Hp, Permutation_app_comm.
  rewrite (list_fmap_ext _ id) by done. rewrite list_fmap_id. apply filter_split.
Qed.

Lemma settle_perm m movable skipped tokens skippedTokens :
  settle_tokens m movable skipped = (tokens, skippedTokens) →
  tokens ++ skippedTokens.*1 ≡ₚ movable ++ skipped.*1.
Proof.
  intros [= <- <-]. rewrite !fmap_app, <- list_fmap_compose. cbn [compose].
  rewrite (list_fmap_ext (fst ∘ _) id) by done. rewrite list_fmap_id.
  pose proof (filter_split on_arrival skipped) as HS.
  set (A := List.filter on_arrival skipped) in *.
  pose proof (filter_split (λ s, dest_thawed m s.1) A) as HA.
  pose proof (filter_split (dest_frozen m) movable) as HM.
  transitivity ((List.filter (dest_frozen m) movable ++ List.filter (λ t, negb (dest_frozen m t)) movable)
    ++ ((List.filter (λ s, dest_thawed m s.1) A ++ List.filter (λ s, negb (dest_thawed m s.1)) A)
        ++ List.filter (λ s, negb (on_arrival s)) skipped).*1).
  - rewrite !fmap_app. solve_Permutation.
  - by rewrite HM, HA, HS.
Qed.

Lemma pairs_of_tokens v2Vault tokens pairs t :
  mapR (migrate_pair v2Vault) tokens = Ok pairs → t ∈ tokens →
  ∃ pr, pr ∈ pairs ∧ sourceAta pr = t_ata t ∧ pairMint pr = t_mint t
    ∧ pairTokenProgram pr = t_tokenProgram t ∧ destination_of v2Vault t = Ok (destAta pr).
Proof.
  intros Hp Ht. destruct (mapR_elem _ _ _ _ Hp Ht) as (pr & Hin & Hpr). exists pr. split; [done|].
  unfold migrate_pair in Hpr. apply bind_inv in Hpr as (d & Hd & [= <-]). done.
Qed.

(** A token account that is the vault's alone: of the token program, of full length, owned
    by the vault, with no delegate or close authority but the vault, and not frozen. *)
Record VaultsAlone (vault tokenProgram : address) (acc : account) : Prop := {
  va_program : acc_owner acc = tokenProgram;
  va_length : (165 <= length (acc_data acc))%nat;
  va_owner : slice 32 64 (acc_data acc) = address_encode vault;
  va_delegate g : option_set (acc_data acc) 72 g = true → g = vault;
  va_close g : option_set (acc_data acc) 129 g = true → g = vault;
  va_thawed : byte_at (acc_data acc) 108 ≠ Some 2;
}.

Lemma no_problem dest vault tp acc :
  destinationTokenAccountProblem dest (acc_owner acc, acc_data acc) tp vault = Ok None →
  tokenAccountFrozen (acc_data acc) = false → VaultsAlone vault tp acc.
Proof.
  unfold destinationTokenAccountProblem. case_bool_decide as Hp; [|done]. cbn [negb].
  destruct (Nat.ltb_spec (length (acc_data acc)) TOKEN_ACCOUNT_LEN) as [|Hl]; [done|]. unfold TOKEN_ACCOUNT_LEN in Hl.
  intros (o & Ho & H)%bind_inv Hfz. case_bool_decide as Ho'; [|done]. subst o. cbn [negb] in H.
  apply bind_inv in H as ([|g gs] & Hg & [=]).
  assert (Hgrant : ∀ off g, off = TOKEN_DELEGATE ∨ off = TOKEN_CLOSE_AUTHORITY → option_set (acc_data acc) off g = true → g = vault).
  { intros off g Hoff Hset. destruct (decide (g = vault)) as [|Hne]; [done|].
    assert (Hin : (dest, acc_data acc) ∈ [(dest, acc_data acc)]) by (by apply list_elem_of_singleton).
    pose proof (grantsOn_trusted _ _ _ _ _ _ _ _ g Hg eq_refl Hin Hoff Hset Hne) as Hg'. by apply elem_of_nil in Hg'. }
  split; [done|done| |intros g; apply Hgrant; by left|intros g; apply Hgrant; by right|].
  - destruct (address_encode_decode (slice 32 64 (acc_data acc))) as (w & Hw & He); [rewrite length_slice; lia|].
    unfold addressFromBytes in Ho. apply of_option_ok in Ho. rewrite Hw in Ho. injection Ho as <-. done.
  - intros Hb. unfold tokenAccountFrozen, byte_is in Hfz. change TOKEN_STATE_OFFSET with 108%nat in Hfz. rewrite Hb in Hfz.
    rewrite (proj2 (Nat.ltb_lt 108 _)) in Hfz by lia. done.
Qed.

Section destinations.
Variables (env : Env) (valid_token : bytes → bool) (B : Z → ledger) (v2Vault : address) (vettedAt : option Z).
Hypothesis serves : Serves valid_token env B.

(** What [m] records of the destination [acc] of [t]. *)
Definition recorded (m : list (address * DestState)) (t : V1VaultToken) (dest : address) (acc : account) : Prop :=
  isSystemAccount (Some (acc_owner acc, acc_data acc)) = false →
  ∃ problem, destinationTokenAccountProblem dest (acc_owner acc, acc_data acc) (t_tokenProgram t) v2Vault = Ok problem
    ∧ map_get (t_ata t) m = Some (mkDestState dest (tokenAccountFrozen (acc_data acc)) problem).

Lemma set_dests_ok page dests infos m m' :
  set_dests v2Vault page dests infos m = Ok m' → NoDup (t_ata <$> page) →
  (∀ k, k ∉ t_ata <$> page → map_get k m' = map_get k m)
  ∧ ∀ i t dest acc, page !! i = Some t → dests !! i = Some dest →
      infos !! i = Some (Some (mkRead (acc_owner acc) (acc_lamports acc) (acc_data acc))) → recorded m' t dest acc.
Proof.
  revert dests infos m. induction page as [|t page IH]; intros dests infos m H Hnd.
  { injection H as <-. split; [done|]. by intros []. }
  rewrite fmap_cons in Hnd. apply NoDup_cons in Hnd as [Hnt Hnd].
  destruct dests as [|dest dests]; [injection H as <-; split; [done|]; by intros []|].
  destruct infos as [|info infos]; [injection H as <-; split; [done|]; by intros []|]. cbn [set_dests] in H.
  assert (Hrest : ∀ m0, set_dests v2Vault page dests infos m0 = Ok m' →
    (∀ k, k ∉ t_ata <$> page → map_get k m' = map_get k m0)
    ∧ ∀ i t' dest' acc, (t :: page) !! S i = Some t' → (dest :: dests) !! S i = Some dest' →
      (info :: infos) !! S i = Some (Some (mkRead (acc_owner acc) (acc_lamports acc) (acc_data acc))) → recorded m' t' dest' acc).
  { intros m0 H0. destruct (IH _ _ _ H0 Hnd) as [Hk Hr]. split; [done|]. intros i t' dest' acc. apply (Hr i). }
  destruct info as [r|]; cbn [owner_data fmap option_fmap option_map] in H.
  2:{ destruct (Hrest _ H) as [Hk Hr]. split; [intros k Hne; apply Hk; set_solver|]. intros [|i]; [done|apply (Hr i)]. }
  destruct (isSystemAccount _) eqn:Es.
  { destruct (Hrest _ H) as [Hk Hr]. split; [intros k Hne; apply Hk; set_solver|]. intros [|i]; [|apply (Hr i)].
    intros t' dest' acc [= <-] [= <-] [= ->] Hn. cbn in Es, Hn. congruence. }
  apply bind_inv in H as (problem & Hp & H). destruct (Hrest _ H) as [Hk Hr]. split.
  - intros k Hne. rewrite fmap_cons, not_elem_of_cons in Hne. rewrite Hk by tauto. apply map_get_set_ne. tauto.
  - intros [|i]; [|apply (Hr i)]. intros t' dest' acc [= <-] [= <-] [= ->] _. exists problem. split; [exact Hp|].
    rewrite Hk by done. apply map_get_set_eq.
Qed.

Lemma read_dests_ok fuel toCheck m0 m c c' :
  read_dests env fuel v2Vault vettedAt toCheck m0 c = (c', Ok m) → (length toCheck <= fuel)%nat → NoDup (t_ata <$> toCheck) →
  (∀ k, k ∉ t_ata <$> toCheck → map_get k m = map_get k m0)
  ∧ ∀ t, t ∈ toCheck → ∃ dest slot, destination_of v2Vault t = Ok dest ∧ answered env vettedAt dest slot
      ∧ ∀ acc, B slot dest = Some acc → recorded m t dest acc.
Proof.
  revert toCheck m0 c. induction fuel as [|fuel IH]; intros toCheck m0 c H Hl Hnd.
  { destruct toCheck; [|cbn in Hl; lia]. apply mret_inv in H as [_ <-]. split; [done|]. by intros t ?%elem_of_nil. }
  destruct (decide (toCheck = [])) as [->|Hne].
  { apply mret_inv in H as [_ <-]. split; [done|]. by intros t ?%elem_of_nil. }
  assert (Hstep : read_dests env (S fuel) v2Vault vettedAt toCheck m0
    = (dests ← lift (mapR (destination_of v2Vault) (take 100 toCheck));
       '(_, infos) ← readAccounts env dests vettedAt;
       m ← lift (set_dests v2Vault (take 100 toCheck) dests infos m0);
       read_dests env fuel v2Vault vettedAt (drop 100 toCheck) m)) by (by destruct toCheck).
  rewrite Hstep in H. clear Hstep. m_step H. apply lift_inv in E as [-> Hdests]. m_step H. destruct a0 as [sl infos].
  unfold readAccounts in E. eapply read_pages_ok in E as (_ & new & Hnew & Hinfos); [|exact serves|done]. cbn [app] in Hnew. subst infos.
  m_step H. apply lift_inv in E as [-> Hset].
  rewrite <- (take_drop 100 toCheck), fmap_app, NoDup_app in Hnd. destruct Hnd as (Hnd1 & Hdis & Hnd2).
  apply set_dests_ok in Hset as [Hk1 Hr1]; [|done].
  apply IH in H as [Hk2 Hr2]; [| |done].
  2:{ rewrite length_drop. destruct toCheck; [done|]. cbn [length] in *. lia. }
  rewrite <- (take_drop 100 toCheck), fmap_app. split.
  - intros k [H1 H2]%not_elem_of_app. by rewrite Hk2, Hk1.
  - intros t [Ht|Ht]%elem_of_app; [|by apply Hr2].
    apply list_elem_of_lookup_1 in Ht as [i Hi]. apply mapR_ok in Hdests.
    destruct (Forall2_lookup_l _ _ _ _ _ Hdests Hi) as (dest & Hdi & Hdest).
    destruct (Forall2_lookup_l _ _ _ _ _ Hinfos Hdi) as (info & Hii & slot & _ & Hans & ->).
    exists dest, slot. split; [done|]. split; [done|]. intros acc HB Hsys.
    unfold read_at in Hii. rewrite HB in Hii.
    destruct (Hr1 i t dest acc Hi Hdi Hii Hsys) as (problem & Hp & Hm). exists problem. split; [done|].
    rewrite Hk2; [done|]. apply Hdis. apply list_elem_of_fmap. exists t. split; [done|]. by eapply list_elem_of_lookup_2.
Qed.
End destinations.

(** What is moved was checked, and its destination is not frozen. *)
Lemma moved_checked m movable skipped tokens skippedTokens t :
  settle_tokens m movable skipped = (tokens, skippedTokens) → t ∈ tokens →
  t ∈ movable ++ (fst <$> List.filter on_arrival skipped) ∧ dest_frozen m t = false.
Proof.
  intros [= <- <-] Ht. apply elem_of_app in Ht as [[Ht Hfz]%elem_of_filter_bool|Ht].
  - split; [apply elem_of_app; by left|]. by apply negb_true_iff.
  - apply list_elem_of_fmap in Ht as (s & -> & [Hs' Hth]%elem_of_filter_bool). split.
    + apply elem_of_app. right. apply list_elem_of_fmap. by exists s.
    + unfold dest_thawed in Hth. unfold dest_frozen. destruct (map_get _ _); [|done]. by apply negb_true_iff in Hth.
Qed.

Lemma checked_once movable (skipped : list (V1VaultToken * UnmovableReason)) held :
  movable ++ skipped.*1 ≡ₚ held → NoDup (t_ata <$> held) →
  NoDup (t_ata <$> movable ++ (fst <$> List.filter on_arrival skipped)).
Proof.
  intros Hp Hnd. rewrite <- Hp, fmap_app, NoDup_app in Hnd. destruct Hnd as (H1 & Hdis & H2).
  rewrite fmap_app, NoDup_app. split; [done|].
  assert (Hsub : t_ata <$> (fst <$> List.filter on_arrival skipped) `sublist_of` t_ata <$> skipped.*1).
  { apply fmap_sublist, fmap_sublist. clear. induction skipped as [|x l IH]; [constructor|]. cbn [List.filter].
    destruct (on_arrival x); by constructor. }
  split; [|by eapply sublist_NoDup].
  intros k Hk1 Hk2. apply (Hdis k Hk1). apply sublist_submseteq in Hsub. by eapply elem_of_submseteq.
Qed.

(** C13.  No token is lost silently: a migration plan moves or reports, with a
    reason, each token account of the v1 vault exactly once; it moves at most
    255; and each one it moves gets its destination account in the setup, the new
    vault's own for that mint under that token program.  When the node lists each
    account once and answers reads of accounts from the ledger of some slot, the node
    was asked for every such destination account, and what it had of it in the slot it
    answered from was nothing yet (no account, or an empty one of the system program) or a
    token account of that program owned by the new vault, not frozen, and with no delegate
    or close authority but the vault. *)
Theorem migration_accounts_for_every_token env programId fees p c c' plan :
  migrateV1Wallet env programId fees p c = (c', Ok plan) →
  ∃ n held vettedAt, enumerateV1VaultTokens
      (λ vault tp, snd <$> env_getTokenAccountsByOwner env n vault tp None) (v1_vault (mg_v1 plan)) = Ok held
    ∧ mg_tokens plan ++ (mg_skippedTokens plan).*1 ≡ₚ held
    ∧ (length (mg_tokens plan) <= 255)%nat
    ∧ ∀ t, t ∈ mg_tokens plan → ∃ dest, destination_of (mg_v2Vault plan) t = Ok dest
      ∧ createAssociatedTokenAccountIdempotentIx (mp_payer p) dest (mg_v2Vault plan) (t_mint t)
          (t_tokenProgram t) ∈ mg_setupInstructions plan
      ∧ ∀ valid_token B, Serves valid_token env B → NoDup (t_ata <$> held) →
          ∃ slot, answered env vettedAt dest slot
            ∧ (isSystemAccount ((λ acc, (acc_owner acc, acc_data acc)) <$> B slot dest) = true
               ∨ ∃ acc, B slot dest = Some acc ∧ VaultsAlone (mg_v2Vault plan) (t_tokenProgram t) acc).
Proof.
  intros [Hpl _]%migrate_planned. destruct Hpl as [fields v1 mints d createFrom vettedAt v2Vault bump n held n'
    movable skipped m tokens skippedTokens creation pairs step Hf Hv1 Hm Hd Hs Hv Henum Hclass Hread Htok Hrig
    Hlen Hcr Hpairs Hstep].
  exists n, held, vettedAt. cbn [mg_v1 mg_tokens mg_skippedTokens mg_v2Vault mg_setupInstructions].
  apply classify_perm in Hclass.
  split; [done|]. split; [by rewrite (settle_perm _ _ _ _ _ Htok)|]. split; [done|]. intros t Ht.
  destruct (pairs_of_tokens _ _ _ _ Hpairs Ht) as (pr & Hin & _ & Hmint & Htp & Hdest).
  exists (destAta pr). split; [done|]. split.
  { apply elem_of_app. right. apply list_elem_of_fmap. exists pr. unfold setup_token. by rewrite Hmint, Htp. }
  intros valid_token B Hserves Hnd. destruct (moved_checked _ _ _ _ _ _ Htok Ht) as [Hchk Hfz].
  destruct Hread as (c1 & c2 & Hread).
  destruct (read_dests_ok _ _ _ _ _ Hserves _ _ _ _ _ _ Hread (le_n _) (checked_once _ _ _ Hclass Hnd)) as [_ Hr].
  destruct (Hr t Hchk) as (dest & slot & Hd' & Hans & Hrec). rewrite Hdest in Hd'. injection Hd' as <-.
  exists slot. split; [done|]. destruct (B slot (destAta pr)) as [acc|] eqn:HB; [|by left]. cbn [fmap option_fmap option_map].
  destruct (isSystemAccount _) eqn:Esys; [by left|]. right. exists acc. split; [done|].
  destruct (Hrec acc eq_refl Esys) as (problem & Hp & Hmap). unfold dest_frozen in Hfz. rewrite Hmap in Hfz.
  assert (Hnr : t ∉ rigged m tokens) by (rewrite Hrig; set_solver).
  unfold rigged in Hnr. rewrite elem_of_filter_bool, Hmap in Hnr. cbn [dst_problem dst_frozen] in Hnr, Hfz.
  destruct problem as [pb|]; [exfalso; by apply Hnr|]. by eapply no_problem.
Qed.
End tokens.

(** ** Where the funds land *)
Section landing.
Context `{KL : KitLaws}.
Variables (valid_token : bytes → bool) (env : Env) (programId : address) (fees : bool) (B : Z → ledger).
Hypothesis serves : Serves valid_token env B.

(** The destination is a wallet only its owner has a power over, or its seed is known. *)
Lemma destination_cases p fields mints d :
  returned (choose_destination env programId p fields mints) d →
  match ds_vettedAt d with
  | Some _ => OwnersAlone valid_token env programId B (ds_wallet d) (mp_owner p) mints
  | None => ∃ seed bump, ds_seed d = Some seed ∧ findWalletPda seed programId = Ok (ds_wallet d, bump)
  end.
Proof.
  intros (c & c' & Hrun). unfold choose_destination in Hrun. destruct (mp_userSeed p) as [seed|].
  { m_step Hrun. apply lift_inv in E as [-> Hw]. match type of Hw with _ = Ok ?x => destruct x as [w b] end.
    apply mret_inv in Hrun as [_ <-]. cbn. eauto. }
  m_step Hrun. match type of E with _ = (_, Ok ?x) => destruct x as [[w s]|] end.
  - apply mret_inv in Hrun as [_ <-]. cbn. unfold reusable_wallet in E.
    destruct (_ =? _); [|by apply mret_inv in E as [_ ?]]. m_step E.
    match type of E with context [match ?l with _ => _ end] => destruct l as [|sa [|? ?]] end;
      [by apply mret_inv in E as [_ ?]| |by apply mret_inv in E as [_ ?]].
    destruct (bool_decide _); [|by apply mret_inv in E as [_ ?]]. m_step E. apply mret_inv in E as [_ Hr].
    destruct (vt_problem _) eqn:Hp; [done|]. destruct (0 <? _); [|done]. injection Hr as <- <-.
    by eapply vetDestination_safe.
  - m_step Hrun. m_step Hrun. apply lift_inv in E1 as [-> Hw].
    match type of Hw with _ = Ok ?x => destruct x as [w b] end.
    apply mret_inv in Hrun as [_ <-]. cbn. eauto.
Qed.

Lemma settled_cases p fields mints d createFrom vettedAt :
  returned (choose_destination env programId p fields mints) d →
  returned (settle_destination env programId p mints d) (createFrom, vettedAt) →
  match createFrom with
  | Some seed => ∃ bump, findWalletPda seed programId = Ok (ds_wallet d, bump)
  | None => OwnersAlone valid_token env programId B (ds_wallet d) (mp_owner p) mints
  end.
Proof.
  intros Hd (c & c' & Hrun). apply destination_cases in Hd. unfold settle_destination in Hrun.
  destruct (ds_vettedAt d) as [s|]; [by apply mret_inv in Hrun as [_ [= <- <-]]|].
  m_step Hrun. m_step Hrun. destruct (isSystemAccount _).
  { apply mret_inv in Hrun as [_ [= <- <-]]. destruct Hd as (seed & bump & -> & Hw). eauto. }
  m_step Hrun. destruct (vt_problem _) eqn:Hp; [by apply lift_inv in Hrun as [_ ?]|].
  apply mret_inv in Hrun as [_ [= <- <-]]. by eapply vetDestination_safe.
Qed.

(** C12.  A migration delivers only to its owner: the destination is either a wallet that
    the returned setup creates for that owner, from a seed it derives from, or an existing
    one over which, in the ledger states read to vet it, the owner's key (for a passkey,
    its credential and public key, at Owner rank) holds every power that is not expired at
    the slot read first.  Authorities are looked for first, then sessions and deferred
    executions, each in the slot the node answered its scan from, and whatever can make a
    power no later than the power.  The node answers each read from one slot's ledger, no
    older than the slot it is asked for, and slots fit 64 bits.  Nothing is claimed of
    later states. *)
Theorem migration_lands_with_its_owner p c c' plan :
  migrateV1Wallet env programId fees p c = (c', Ok plan) →
  ∃ bump, findVaultPda (mg_destinationWallet plan) programId = Ok (mg_v2Vault plan, bump) ∧
  ((∃ seed created, returned (createWallet env programId fees (mp_payer p) seed (mp_owner p)) created
      ∧ cw_walletPda created = mg_destinationWallet plan ∧ cw_vaultPda created = mg_v2Vault plan
      ∧ cw_instructions created `prefix_of` mg_setupInstructions plan)
   ∨ ∃ mints, watchedMints (default [] (mp_watchMints p)) = Ok mints
       ∧ OwnersAlone valid_token env programId B (mg_destinationWallet plan) (mp_owner p) mints).
Proof.
  intros [Hpl _]%migrate_planned. destruct Hpl as [fields v1 mints d createFrom vettedAt v2Vault bump n held n'
    movable skipped m tokens skippedTokens creation pairs step Hf Hv1 Hm Hd Hs Hv Henum Hclass Hread Htok Hrig
    Hlen Hcr Hpairs Hstep].
  cbn [mg_destinationWallet mg_v2Vault mg_setupInstructions]. exists bump. split; [done|].
  pose proof (settled_cases _ _ _ _ _ _ Hd Hs) as Hcase. destruct createFrom as [seed|]; [left|right; eauto].
  destruct Hcr as (created & Hcr & ->), Hcase as [wb Hw]. exists seed, created. split; [done|].
  assert (Hw' : cw_walletPda created = ds_wallet d ∧ cw_vaultPda created = v2Vault).
  { destruct Hcr as (c1 & c2 & Hcr). unfold createWallet in Hcr. m_step Hcr. m_step Hcr.
    apply lift_inv in E0 as [-> E0]. match type of E0 with _ = Ok ?x => destruct x as [w b] end.
    m_step Hcr. apply lift_inv in E1 as [-> E1]. match type of E1 with _ = Ok ?x => destruct x as [va b'] end.
    m_step Hcr. m_step Hcr. match type of E3 with _ = (_, Ok ?x) => destruct x as [au b''] end.
    m_step Hcr. apply mret_inv in Hcr as [_ <-]. cbn. rewrite Hw in E0. injection E0 as <- <-.
    rewrite Hv in E1. injection E1 as <- <-. done. }
  destruct Hw' as [-> ->]. split_and!; try done. by eexists.
Qed.
End landing.

(** ** What the owner signs *)
Section signed.
Context `{KL : KitLaws}.
Variables (env : Env) (programId : address) (fees : bool).

Lemma pair_source pairs i :
  concat (pairMetas <$> pairs) !! (i * 4)%nat = (λ pr, mkMeta (sourceAta pr) WRITABLE) <$> pairs !! i.
Proof.
  revert i. induction pairs as [|pr pairs IH]; intros [|i]; try done.
  change (S i * 4)%nat with (4 + i * 4)%nat. cbn [fmap list_fmap concat pairMetas app lookup]. apply IH.
Qed.

Lemma sources_read tx fixed pairs : length fixed = 9%nat →
  mapR (λ i, of_option PNotEnoughAccountKeys
    ((runtime_info tx <$> fixed ++ concat (pairMetas <$> pairs)) !! (9 + i * TOKEN_ACCOUNTS)%nat))
    (seq 0 (length pairs))
  = Ok ((λ pr, runtime_info tx (mkMeta (sourceAta pr) WRITABLE)) <$> pairs).
Proof.
  intros Hl. apply mapR_ok, Forall2_same_length_lookup_2.
  { by rewrite length_seq, length_fmap. }
  intros i j y Hj Hy. apply lookup_seq in Hj as [-> Hi]. cbn [plus] in *.
  rewrite list_lookup_fmap in Hy. apply fmap_Some in Hy as (pr & Hpr & ->).
  rewrite list_lookup_fmap, lookup_app_r by lia. unfold TOKEN_ACCOUNTS. rewrite Hl.
  match goal with |- context [concat _ !! ?k] => replace k with (i * 4)%nat by lia end. by rewrite pair_source, Hpr.
Qed.

Lemma payload_sources tx pairs :
  concat (ai_key <$> ((λ pr, runtime_info tx (mkMeta (sourceAta pr) WRITABLE)) <$> pairs))
  = concat (address_encode ∘ sourceAta <$> pairs).
Proof. by rewrite <- list_fmap_compose. Qed.

(** The v1 accounts as the program stores them: the wallet, and an Owner-rank
    authority of it with this type and counter. *)
Record V1Stored (program v1Wallet : address) (type counter : Z) (wallet authority : bytes * bytes) : Prop := {
  vs_wallet_owner : wallet.1 = address_encode program;
  vs_wallet : head wallet.2 = Some (u8 V1_DISC_WALLET);
  vs_authority_owner : authority.1 = address_encode program;
  vs_length : (80 <= length authority.2)%nat;
  vs_head : slice 0 3 authority.2 = [u8 V1_DISC_AUTHORITY; u8 type; u8 0];
  vs_counter : le_combine (slice 8 12 authority.2) = counter;
  vs_v1Wallet : slice 16 48 authority.2 = address_encode v1Wallet;
}.

Lemma byte_is_slice d i l v : slice 0 3 d = l → l !! i = Some (u8 v) → (i < 3)%nat → 0 <= v < 256 →
  byte_is d i v = true.
Proof.
  intros <- Hl Hi Hv. unfold byte_is, byte_at. unfold slice in Hl. rewrite drop_0 in Hl.
  rewrite lookup_take_lt in Hl by lia. rewrite Hl. cbn. rewrite val_u8_small by done. apply Z.eqb_refl.
Qed.

(** What MigrateWallet authenticates, for the instruction the SDK builds: the
    accounts pass, and the payload signed is the SDK's. *)
Lemma migrate_reads payer v1W v1A v1V dest refund authS isS pairs ap program tx type counter wallet authority slot :
  let ix := createMigrateWalletIx payer v1W v1A v1V dest refund authS isS pairs ap program in
  let infos := runtime_info tx <$> accounts ix in
  V1Stored program v1W type counter wallet authority → (type = 0 ∨ type = 1) →
  (length pairs <= 255)%nat → signer_in tx payer = true →
  migrate_authenticates infos (tail (data ix)) wallet authority slot (address_encode program)
  = if type =? 0 then _ ← ed25519_authenticate infos authority.2; Ok None
    else challenge ← authenticate_challenge [u8 17] infos (default [] ap) (migrate_payload dest v1W refund pairs)
           (address_encode v1W) counter slot (address_encode program); Ok (Some challenge).
Proof.
  intros ix infos [Hwo Hw Hao Hl Hh Hc Hv] Ht Hn Hsig.
  unfold migrate_authenticates. set (I := infos). 
  assert (Hd : tail (data ix) = u8 (Z.of_nat (length pairs)) :: default [] ap).
  { subst ix. unfold createMigrateWalletIx. cbn [data]. rewrite concatBytes_concat. cbn [concat app tail].
    by rewrite app_nil_r. }
  rewrite Hd. cbn [head tail fmap option_fmap option_map of_option compose]. rewrite bind_ok.
  rewrite val_u8_small, Nat2Z.id by lia.
  assert (HI : I = (runtime_info tx <$> ([mkMeta payer WRITABLE_SIGNER; mkMeta v1W WRITABLE; mkMeta v1A WRITABLE;
    mkMeta v1V WRITABLE; mkMeta dest WRITABLE; mkMeta refund WRITABLE; mkMeta SYSTEM_PROGRAM_ADDRESS READONLY;
    mkMeta SYSVAR_INSTRUCTIONS_ADDRESS READONLY; mkMeta authS (if isS then READONLY_SIGNER else READONLY)]
    ++ concat (pairMetas <$> pairs)))) by done.
  assert (Hlk : (9 <= length I)%nat) by (rewrite HI, length_fmap, length_app; cbn [length]; lia).
  assert (H0 : ∃ i0 i1 i4 i5 i6, I !! 0%nat = Some i0 ∧ I !! 1%nat = Some i1 ∧ I !! 4%nat = Some i4
    ∧ I !! 5%nat = Some i5 ∧ I !! 6%nat = Some i6 ∧ ai_is_signer i0 = true ∧ ai_key i1 = address_encode v1W
    ∧ ai_key i4 = address_encode dest ∧ ai_key i5 = address_encode refund
    ∧ ai_key i6 = address_encode SYSTEM_PROGRAM_ADDRESS).
  { rewrite HI. do 5 eexists. split_and!; try reflexivity. exact Hsig. }
  destruct H0 as (i0 & i1 & i4 & i5 & i6 & E0 & E1 & E4 & E5 & E6 & Hs & K1 & K4 & K5 & K6).
  rewrite E0, E1, E4, E5, E6. cbn [of_option]. rewrite !bind_ok. unfold throw_if.
  destruct (Nat.ltb_spec (length I) 9) as [?|_]; [lia|]. rewrite bind_ok, Hs. cbn [negb]. rewrite bind_ok.
  rewrite K6, Hwo, Hao, !bytesEqual_refl. cbn [negb orb]. rewrite !bind_ok.
  assert (Hw' : (length wallet.2 =? 0)%nat || negb (byte_is wallet.2 0 V1_DISC_WALLET) = false).
  { destruct wallet.2; [done|]. injection Hw as ->. done. }
  rewrite Hw', bind_ok. destruct (Nat.ltb_spec (length authority.2) 48) as [?|_]; [lia|]. rewrite bind_ok.
  rewrite (byte_is_slice _ 0 _ V1_DISC_AUTHORITY Hh), (byte_is_slice _ 2 _ 0 Hh), Hv, K1, bytesEqual_refl
    by (done || lia).
  cbn [negb]. rewrite !bind_ok, HI, sources_read by done. rewrite bind_ok, Hc.
  rewrite K4, K5, payload_sources, <- HI.
  assert (Hpl : migrate_payload dest v1W refund pairs
    = address_encode dest ++ address_encode v1W ++ [u8 (Z.of_nat (length pairs))] ++ address_encode refund
      ++ concat (address_encode ∘ sourceAta <$> pairs)) by apply concatBytes_concat.
  rewrite <- Hpl. destruct Ht as [-> | ->].
  - by rewrite (byte_is_slice _ 1 _ 0 Hh) by (done || lia).
  - assert (H1 : byte_is authority.2 1 0 = false).
    { assert (H1 : byte_is authority.2 1 1 = true) by (apply (byte_is_slice _ 1 _ 1 Hh); done || lia).
      apply byte_is_at in H1. unfold byte_is. by rewrite H1. }
    by rewrite H1, (byte_is_slice _ 1 _ 1 Hh) by (done || lia).
Qed.

(** The challenge of a prepared migration, and the payer and account positions
    it was prepared for. *)
Lemma migrate_step_passkey p v1 program v2Vault pairs hv prepared finalize :
  returned (migrate_step env p v1 program v2Vault pairs hv) (MigrateSecp256r1 prepared finalize) →
  let refund := default (mp_payer p) (mp_refundDestination p) in
  ∃ slot counter key,
    prepared = buildPasskeySigning program DISC_MIGRATE_WALLET SYSVAR_IX_INDEX_MIGRATE_WALLET
                 (migrate_payload v2Vault (v1_wallet v1) refund pairs) slot counter (mp_payer p) (v1_wallet v1) key
    ∧ ∀ r out, finalize r = Ok out → ∃ ap pix, finalizeSecp256r1 prepared r = Ok (ap, pix)
        ∧ out = hv ++ [pix; createMigrateWalletIx (mp_payer p) (v1_wallet v1) (v1_authority v1) (v1_vault v1) v2Vault
                              refund (mp_payer p) false pairs (Some ap) program].
Proof.
  intros (c & c' & Hrun). unfold migrate_step in Hrun. destruct (mp_owner p) as [|? key ?].
  { by apply mret_inv in Hrun as [_ ?]. }
  m_step Hrun. m_step Hrun. match type of Hrun with context [let '(_, _) := ?x in _] => destruct x as [[? slot] counter] end.
  apply mret_inv in Hrun as [_ [= <- <-]]. exists slot, counter, key. split; [done|].
  intros r out Hfin. apply bind_inv in Hfin as ([ap pix] & Hf & [= <-]). eauto.
Qed.

Lemma migrate_step_ed25519 p v1 program v2Vault pairs hv ix out :
  returned (migrate_step env p v1 program v2Vault pairs hv) (MigrateEd25519 ix out) →
  ∃ owner, mp_owner p = OwnerEd25519 owner ∧ out = hv ++ [ix]
  ∧ ix = createMigrateWalletIx (mp_payer p) (v1_wallet v1) (v1_authority v1) (v1_vault v1) v2Vault
           (default (mp_payer p) (mp_refundDestination p)) owner true pairs None program.
Proof.
  intros (c & c' & Hrun). unfold migrate_step in Hrun. destruct (mp_owner p) as [owner|? key ?].
  { apply mret_inv in Hrun as [_ [= <- <-]]. eauto. }
  m_step Hrun. m_step Hrun. match type of Hrun with context [let '(_, _) := ?x in _] => destruct x as [[? slot] counter] end.
  by apply mret_inv in Hrun as [_ ?].
Qed.

(** What the owner hands back for a plan: the transaction's instructions, and
    what MigrateWallet must find signed. *)
Definition OwnerSigned (p : MigrateParams) (step : MigrateStep) (type counter slot : Z) (authority : bytes)
    (out : list Instruction) (expected : option bytes) : Prop :=
  match step with
  | MigrateEd25519 _ ixs =>
    type = AUTH_TYPE_ED25519 ∧ out = ixs ∧ expected = None
    ∧ ∃ owner, mp_owner p = OwnerEd25519 owner ∧ slice 48 80 authority = address_encode owner
  | MigrateSecp256r1 prepared finalize =>
    type = AUTH_TYPE_SECP256R1 ∧ (∃ r, finalize r = Ok out) ∧ fresh prepared counter slot
    ∧ expected = Some (Signing.challenge prepared)
  end.

Lemma pairs_length v2Vault tokens pairs :
  mapR (migrate_pair v2Vault) tokens = Ok pairs → length pairs = length tokens.
Proof. intros H%mapR_ok. symmetry. by eapply Forall2_length. Qed.

(** C11.  The signature a migration asks for is the one MigrateWallet checks.
    Sent as a transaction in which the payer signs, the plan's instructions end
    with one for the v1 program that passes the checks of its accounts and of
    the owner's rank, and then finds the Ed25519 owner's signature, or, for a
    passkey, recomputes from the accounts it was given the very challenge the
    passkey signed: over the destination, the v1 wallet, the refund and every
    source token account. *)
Theorem migrate_signature_agrees p c c' plan type counter slot wallet authority out expected txPayer :
  let program := default (legacyProgramIdFor programId) (mp_v1ProgramId p) in
  migrateV1Wallet env programId fees p c = (c', Ok plan) →
  V1Stored program (v1_wallet (mg_v1 plan)) type counter wallet authority →
  OwnerSigned p (mg_migrate plan) type counter slot authority.2 out expected →
  ∃ ix, last out = Some ix ∧ programAddress ix = program ∧ head (data ix) = Some (u8 17)
    ∧ migrate_authenticates (runtime_info (tx_metas out txPayer) <$> accounts ix) (tail (data ix)) wallet
        authority slot (address_encode program) = Ok expected.
Proof.
  intros program [Hpl _]%migrate_planned HV HS. destruct Hpl as [fields v1 mints d createFrom vettedAt v2Vault bump n
    held n' movable skipped m tokens skippedTokens creation pairs step _ _ _ _ _ _ _ _ _ _ _ Hlen _ Hpairs Hstep].
  cbn [mg_v1 mg_migrate] in *. rewrite <- (pairs_length _ _ _ Hpairs) in Hlen.
  destruct step as [ix ixs|prepared finalize]; cbn [OwnerSigned] in HS.
  - destruct HS as (-> & -> & -> & owner & Ho & Hkey).
    destruct (migrate_step_ed25519 _ _ _ _ _ _ _ _ Hstep) as (owner' & Ho' & -> & ->).
    rewrite Ho in Ho'. injection Ho' as <-. eexists. split; [by rewrite last_snoc|]. split; [done|].
    split; [by cbn [createMigrateWalletIx data]; rewrite concatBytes_concat|].
    erewrite migrate_reads; [|exact HV|by left|done|]; cycle 1.
    + eapply (tx_signer _ _ _ (mkMeta (mp_payer p) WRITABLE_SIGNER)); [apply elem_of_app; right; by left|by left|done].
    + cbn [Z.eqb AUTH_TYPE_ED25519]. unfold ed25519_authenticate, throw_if.
      destruct (Nat.ltb_spec (length authority.2) 80) as [?|_]; [destruct HV; lia|]. rewrite bind_ok.
      match goal with |- context [existsb ?f ?l] => assert (existsb f l = true) as -> end; [|done].
      apply existsb_exists. eexists. split; [apply list_elem_of_In, list_elem_of_fmap; eexists; split; [done|];
        apply elem_of_app; left; do 8 right; by left|].
      cbn [runtime_info ai_is_signer ai_key m_address]. rewrite Hkey, bytesEqual_refl, andb_true_r.
      eapply (tx_signer _ _ _ (mkMeta owner READONLY_SIGNER)); [apply elem_of_app; right; by left| |done].
      apply elem_of_app; left; do 8 right; by left.
  - destruct HS as (-> & (r & Hr) & Hfresh & ->).
    destruct (migrate_step_passkey _ _ _ _ _ _ _ _ Hstep) as (sl & ctr & key & -> & Hfin).
    destruct (Hfin r out Hr) as (ap & pix & Hf & ->). eexists.
    split; [apply last_Some; exists (harvests tokens ++ [pix]); by rewrite <- app_assoc|]. split; [done|].
    split; [by cbn [createMigrateWalletIx data]; rewrite concatBytes_concat|].
    assert (Hsig : signer_in (tx_metas (harvests tokens ++ [pix; createMigrateWalletIx (mp_payer p) (v1_wallet v1)
      (v1_authority v1) (v1_vault v1) v2Vault (default (mp_payer p) (mp_refundDestination p)) (mp_payer p) false
      pairs (Some ap) program]) txPayer) (mp_payer p) = true).
    { eapply (tx_signer _ _ _ (mkMeta (mp_payer p) WRITABLE_SIGNER)); [apply elem_of_app; right; right; by left|by left|done]. }
    erewrite migrate_reads; [|exact HV|by right|done|exact Hsig].
    cbn [Z.eqb AUTH_TYPE_SECP256R1 default].
    erewrite authenticate_finalized; [|exact Hf|exact Hfresh|reflexivity|exact Hsig|done|reflexivity|reflexivity].
    rewrite bind_ok. by rewrite signing_challenge.
Qed.
End signed.

(** ** A run *)
Import ConcreteKit.
Module MigrationSample.
Import LookupSample.
Definition v1Program : addr := at_byte 19.
Definition v1Wallet : addr := at_byte 12.
Definition mint : addr := at_byte 30.

Definition at_pda (r : result (addr * Z)) : addr := match r with Ok (a, _) => a | Throw _ => at_byte 255 end.
Definition v1Vault : addr := at_pda (findV1VaultPda (K := kit) v1Wallet v1Program).
Definition v1Authority : addr := at_pda (findV1AuthorityPda (K := kit) v1Wallet credential v1Program).

(** The v1 authority: a passkey, an owner, its counter at 4. *)
Definition v1_authority_data : bytes :=
  [u8 V1_DISC_AUTHORITY; u8 1; u8 0; u8 255; u8 1] ++ zeros 3 ++ [u8 4] ++ zeros 7
  ++ replicate 32 (u8 12) ++ credential ++ sample_key ++ toy_hash (utf8 "a.com").
Definition v1_wallet_data : bytes := u8 V1_DISC_WALLET :: zeros 7.

Definition v1_token_data (state : Z) : bytes :=
  proj1_sig mint ++ proj1_sig v1Vault ++ [u8 50] ++ zeros 43 ++ [u8 state] ++ zeros 56.

Definition accounts : list (addr * @account kit) :=
  state 500 ++
  [(v1Wallet, mkAccount (K := kit) v1Program 1 v1_wallet_data);
   (v1Authority, mkAccount (K := kit) v1Program 1 v1_authority_data);
   (v1Vault, mkAccount (K := kit) SYSTEM_PROGRAM_ADDRESS 900 []);
   (at_byte 40, mkAccount (K := kit) TOKEN_PROGRAM_ADDRESS 1 (v1_token_data 1));
   (at_byte 41, mkAccount (K := kit) TOKEN_PROGRAM_ADDRESS 1 (v1_token_data 2));
   (mint, mkAccount (K := kit) TOKEN_PROGRAM_ADDRESS 1 (zeros 82))].

(** Nothing happens meanwhile. *)
Definition history : @History kit := mkHistory (K := kit) (λ _, ledger_of accounts)
  (λ i, 60 + Z.of_nat i) (λ slot, Z.to_nat (slot - 59)) (λ _ _, False).

Definition serving_node : @Env kit :=
  serving (λ _, accounts) (λ n, 55 + Z.of_nat n) 55 (λ d, (length d =? 165)%nat).

(** The node, which also answers the two reads of the challenge. *)
Definition node : @Env kit := mkEnv (K := kit)
  (env_getAccountInfo serving_node) (env_randomBytes serving_node) (env_now serving_node)
  (λ _, [Answer 0 (Ok (RSlot 70));
         Answer 1 (Ok (RAccount (Some (view_of_bytes (K := kit) v1Program 1 v1_authority_data))))])
  (env_second_first serving_node) (env_getSlot serving_node) (env_getMultipleAccounts serving_node)
  (env_getProgramAccounts serving_node) (env_getTokenAccountsByOwner serving_node) (env_settles serving_node).

Definition params : @MigrateParams kit := mkMigrateParams (K := kit) (at_byte 1) sample_owner None
  (Some v1Wallet) None (Some v1Program) None None None None None.

Abbreviation run := (migrateV1Wallet node program false params new_client).

(** The run moves one token, reports the frozen one, reuses the wallet the
    passkey has signed for, and asks for the signature numbered 5. *)
Definition planned (p : @MigrationPlan kit) : bool :=
  (length (mg_tokens p) =? 1)%nat && (length (mg_skippedTokens p) =? 1)%nat
  && bool_decide (mg_destinationWallet p = wallet) && bool_decide (v1_wallet (mg_v1 p) = v1Wallet)
  && match mg_migrate p with
     | MigrateSecp256r1 prepared finalize =>
       (p_slot prepared =? 70) && (p_counter prepared =? 5)
       && match finalize Sample.response with Ok _ => true | Throw _ => false end
     | _ => false
     end.

Lemma run_plans : Sample.returns run planned = true.
Proof. vm_compute. reflexivity. Qed.

Lemma v1_distinct : NoDup accounts.*1.
Proof.
  assert (Hd : NoDup ((λ a : addr, proj1_sig a) <$> accounts.*1)).
  { apply (bool_decide_unpack _). vm_compute. exact I. }
  by apply NoDup_fmap_1 in Hd.
Qed.

Lemma v1_serves : Serves (K := kit) (λ d, (length d =? 165)%nat) node (bank history).
Proof.
  destruct (@serving_serves kit kit_laws (λ _, accounts) (λ n, 55 + Z.of_nat n) 55 (λ _, v1_distinct)
    (λ d, (length d =? 165)%nat)) as [H1 H2 H3]. split; [exact H1|exact H2|exact H3].
Qed.

Lemma stored : V1Stored (K := kit) v1Program v1Wallet 1 4 (proj1_sig v1Program, v1_wallet_data)
  (proj1_sig v1Program, v1_authority_data).
Proof. split; cbn [fst snd]; vm_compute; try reflexivity. lia. Qed.
End MigrationSample.

Lemma migration_accounts_for_every_token_witness :
  ∃ plan held, (length (mg_tokens plan) = 1)%nat ∧ (length held = 2)%nat
    ∧ mg_tokens plan ++ (mg_skippedTokens plan).*1 ≡ₚ held.
Proof.
  destruct (Sample.returns_inv _ _ MigrationSample.run_plans) as (cl & plan & Hrun & Hp).
  unfold MigrationSample.planned in Hp. rewrite !andb_true_iff, !Nat.eqb_eq in Hp.
  destruct Hp as [[[[Ht Hs] _] _] _].
  destruct (@migration_accounts_for_every_token kit kit_laws _ _ _ _ _ _ _ Hrun) as (n & held & at_ & _ & Hperm & _).
  exists plan, held. split; [exact Ht|]. split; [|exact Hperm].
  apply Permutation_length in Hperm. rewrite length_app, length_fmap, Ht, Hs in Hperm. symmetry. exact Hperm.
Defined.

Lemma migration_lands_with_its_owner_witness :
  ∃ plan : MigrationPlan (K := kit), mg_destinationWallet plan = LookupSample.wallet
    ∧ ∃ bump, findVaultPda LookupSample.wallet LookupSample.program = Ok (mg_v2Vault plan, bump).
Proof.
  destruct (Sample.returns_inv _ _ MigrationSample.run_plans) as (cl & plan & Hrun & Hp).
  unfold MigrationSample.planned in Hp. rewrite !andb_true_iff, bool_decide_eq_true in Hp.
  destruct Hp as [[[_ Hw] _] _].
  destruct (@migration_lands_with_its_owner kit kit_laws _ _ _ _ _ MigrationSample.v1_serves _ _ _ _ Hrun)
    as (bump & Hv & _).
  exists plan. split; [exact Hw|]. exists bump. rewrite <- Hw. exact Hv.
Defined.

Lemma migrate_signature_agrees_witness :
  ∃ (plan : MigrationPlan (K := kit)) prepared finalize out ix,
    mg_migrate plan = MigrateSecp256r1 prepared finalize ∧ last out = Some ix
    ∧ migrate_authenticates (runtime_info (tx_metas out (at_byte 1)) <$> accounts ix) (tail (data ix))
        (proj1_sig MigrationSample.v1Program, MigrationSample.v1_wallet_data)
        (proj1_sig MigrationSample.v1Program, MigrationSample.v1_authority_data) 75
        (address_encode MigrationSample.v1Program) = Ok (Some (Signing.challenge prepared)).
Proof.
  destruct (Sample.returns_inv _ _ MigrationSample.run_plans) as (cl & plan & Hrun & Hp).
  unfold MigrationSample.planned in Hp. rewrite !andb_true_iff in Hp.
  destruct Hp as [[_ Hv%bool_decide_eq_true] Hstep].
  destruct (mg_migrate plan) as [|prepared finalize] eqn:Em; [discriminate Hstep|].
  rewrite !andb_true_iff, !Z.eqb_eq in Hstep. destruct Hstep as [[Hsl Hc] Hf].
  destruct (finalize Sample.response) as [out|] eqn:Ef; [|discriminate Hf].
  destruct (@migrate_signature_agrees kit _ _ _ _ _ _ plan 1 4 75
    (proj1_sig MigrationSample.v1Program, MigrationSample.v1_wallet_data)
    (proj1_sig MigrationSample.v1Program, MigrationSample.v1_authority_data) out
    (Some (Signing.challenge prepared)) (at_byte 1) Hrun) as (ix & Hl & _ & _ & Ha).
  - rewrite Hv. exact MigrationSample.stored.
  - rewrite Em. split; [reflexivity|]. split; [exists Sample.response; exact Ef|]. split; [|reflexivity].
    unfold fresh, MAX_SLOT_AGE. rewrite Hsl, Hc. lia.
  - exists plan, prepared, finalize, out, ix. split; [exact Em|]. split; [exact Hl | exact Ha].
Defined.
