(* ===== verification/LegacyWeb3.v ===== *)
(** * The web3.js SDK: keys, buffers and addresses

    What the modules of src/sdk/sdk-legacy share: the instructions of web3.js v1,
    the checked writes of the [buffer] package (unlike a [DataView], which wraps,
    they throw a [RangeError]), bytes.ts, pdas.ts, spl.ts and the deployments of
    constants.ts.  A [PublicKey] is an [address] of [Kit]: the same 32 bytes,
    printed in the same base58. *)
From S2P Require Import Prelude Bytes Kit Constants.
From S2P Require Import Pdas Packing.
Local Open Scope Z_scope.

(** ** Buffer *)

(** A write of [v] within [lo] and [hi], both included, at width [w]. *)
Definition buffer_write (w : nat) (lo hi v : Z) : result bytes :=
  (throw! ERangeError when (v <? lo) || (hi <? v); Ok (le_split w v))%js.

Definition writeUInt8 (v : Z) : result bytes := buffer_write 1 0 0xff v.
Definition writeUInt16LE (v : Z) : result bytes := buffer_write 2 0 0xffff v.
Definition writeUInt32LE (v : Z) : result bytes := buffer_write 4 0 0xffffffff v.
Definition writeBigUInt64LE (v : Z) : result bytes := buffer_write 8 0 (2 ^ 64 - 1) v.
Definition writeBigInt64LE (v : Z) : result bytes := buffer_write 8 (- 2 ^ 63) (2 ^ 63 - 1) v.

(** [value] fits an unsigned (or, for [is_i64], signed) field. *)
Definition fits_uint (w : nat) (v : Z) : bool := (0 <=? v) && (v <? 2 ^ (8 * Z.of_nat w)).
Definition fits_i64 (v : Z) : bool := (- 2 ^ 63 <=? v) && (v <? 2 ^ 63).

Lemma buffer_write_spec w lo hi v :
  buffer_write w lo hi v = if (lo <=? v) && (v <=? hi) then Ok (le_split w v) else Throw ERangeError.
Proof.
  unfold buffer_write, throw_if. destruct (Z.ltb_spec v lo), (Z.ltb_spec hi v), (Z.leb_spec lo v), (Z.leb_spec v hi);
    done || lia.
Qed.

Lemma write_uint_fits w hi v : hi = 2 ^ (8 * Z.of_nat w) - 1 →
  buffer_write w 0 hi v = if fits_uint w v then Ok (le_split w v) else Throw ERangeError.
Proof.
  intros ->. rewrite buffer_write_spec. unfold fits_uint.
  destruct (Z.leb_spec 0 v), (Z.leb_spec v (2 ^ (8 * Z.of_nat w) - 1)), (Z.ltb_spec v (2 ^ (8 * Z.of_nat w)));
    done || lia.
Qed.

Lemma writeBigInt64LE_fits v :
  writeBigInt64LE v = if fits_i64 v then Ok (le_split 8 v) else Throw ERangeError.
Proof.
  unfold writeBigInt64LE. rewrite buffer_write_spec. unfold fits_i64.
  destruct (Z.leb_spec (- 2 ^ 63) v), (Z.leb_spec v (2 ^ 63 - 1)), (Z.ltb_spec v (2 ^ 63)); done || lia.
Qed.

(** bytes.ts: the total is a [reduce]. *)
Definition concatBytes (arrays : list bytes) : bytes :=
  concat_fill arrays 0 (zeros (fold_left (λ s a, (s + length a)%nat) arrays 0%nat)).

(** The documented meeting point of the two libraries: both find the address
    the runtime derives. *)
Class Web3Pda `{K : Kit} := {
  (** [PublicKey.findProgramAddressSync]; it throws when no bump works. *)
  findProgramAddressSync : list bytes → address → option (address * Z);
}.

Section web3.
Context `{K : Kit}.

(** ** Instructions *)
Record Key := mkKey { pubkey : address; k_isSigner : bool; k_isWritable : bool }.

Record TransactionInstruction := mkTi {
  ti_programId : address;
  ti_keys : list Key;
  ti_data : bytes;
}.

(** kit's instructions, as web3.js has them. *)
Definition web3_key (m : AccountMeta) : Key :=
  mkKey (m_address m) (role_signer (m_role m)) (role_writable (m_role m)).
Definition web3_ix (ix : Instruction) : TransactionInstruction :=
  mkTi (programAddress ix) (web3_key <$> accounts ix) (data ix).

(** ** Addresses *)
Context {W : Web3Pda}.

Definition find_sync (seeds : list bytes) (programId : address) : result (address * Z) :=
  of_option (EExternal "findProgramAddressSync") (findProgramAddressSync seeds programId).

Definition SEED_PREFIX : string := "lk2:".
Definition SEED_WALLET : string := SEED_PREFIX +:+ "wallet".
Definition SEED_VAULT : string := SEED_PREFIX +:+ "vault".
Definition SEED_AUTHORITY : string := SEED_PREFIX +:+ "authority".
Definition SEED_SESSION : string := SEED_PREFIX +:+ "session".
Definition SEED_DEFERRED : string := SEED_PREFIX +:+ "deferred".
Definition SEED_PROTOCOL_CONFIG : string := SEED_PREFIX +:+ "protocol_config".
Definition SEED_TREASURY_SHARD : string := SEED_PREFIX +:+ "treasury_shard".
Definition SEED_FEE_RECORD : string := SEED_PREFIX +:+ "fee_record".

Definition findWalletPda (userSeed : bytes) (programId : address) :=
  find_sync [utf8 SEED_WALLET; userSeed] programId.
Definition findVaultPda (walletPda programId : address) :=
  find_sync [utf8 SEED_VAULT; address_encode walletPda] programId.
Definition findAuthorityPda (walletPda : address) (credentialIdHash : bytes) (programId : address) :=
  find_sync [utf8 SEED_AUTHORITY; address_encode walletPda; credentialIdHash] programId.
Definition findSessionPda (walletPda : address) (sessionKey : bytes) (programId : address) :=
  find_sync [utf8 SEED_SESSION; address_encode walletPda; sessionKey] programId.
Definition findProtocolConfigPda (programId : address) :=
  find_sync [utf8 SEED_PROTOCOL_CONFIG] programId.
Definition findFeeRecordPda (payerPubkey programId : address) :=
  find_sync [utf8 SEED_FEE_RECORD; address_encode payerPubkey] programId.
Definition findTreasuryShardPda (shardId : Z) (programId : address) :=
  find_sync [utf8 SEED_TREASURY_SHARD; [u8 shardId]] programId.
Definition findDeferredExecPda (walletPda authorityPda : address) (counter : Z) (programId : address) :=
  counterBuf ← writeUInt32LE counter;
  find_sync [utf8 SEED_DEFERRED; address_encode walletPda; address_encode authorityPda; counterBuf] programId.

(** spl.ts *)
Definition ASSOCIATED_TOKEN_PROGRAM_ID : address := address_lit "ATokenGPvbdGVxr1b2hvZbsiqW5xWH25efTNsLJA8knL".

Definition getAssociatedTokenAddress (mint owner tokenProgram : address) : result address :=
  fst <$> find_sync [address_encode owner; address_encode tokenProgram; address_encode mint]
            ASSOCIATED_TOKEN_PROGRAM_ID.

Definition createAssociatedTokenAccountIdempotentIx (payer ata owner mint tokenProgram : address) :
    TransactionInstruction :=
  mkTi ASSOCIATED_TOKEN_PROGRAM_ID
    [mkKey payer true true; mkKey ata false true; mkKey owner false false; mkKey mint false false;
     mkKey SYSTEM_PROGRAM_ADDRESS false false; mkKey tokenProgram false false]
    [u8 1].

(** constants.ts: the deployments. *)
Definition PROGRAM_ID_MAINNET : address := address_lit "LazorFroiVuAjcwwQ2me83vTr5nc5NRxSaTg3pmEXC8".
Definition PROGRAM_ID_DEVNET : address := address_lit "57bTNWqtYTJbWuLWASKo6GqUTAK6oFDUR5c6hEc6V8nv".
Definition PROGRAM_ID_MAINNET_V1 : address := address_lit "LazorjRFNavitUaBu5m3WaNPjU1maipvSW2rZfAFAKi".
Definition PROGRAM_ID_DEVNET_V1 : address := address_lit "4h3XoNReAgEcHVxcZ8sw2aufi9MTr7BbvYYjzjWDyDxS".

Definition legacyProgramIdFor (programId : address) : address :=
  if decide (programId = PROGRAM_ID_MAINNET) then PROGRAM_ID_MAINNET_V1
  else if decide (programId = PROGRAM_ID_DEVNET) then PROGRAM_ID_DEVNET_V1
  else programId.
End web3.

(** ** The addresses agree *)
Section agree.
Context `{K : Kit} {W : Web3Pda}.

(** The v2 addresses the two SDKs derive, by name. *)
Definition legacy_find (n : Pdas.pda_name) (programId : address) : result (address * Z) :=
  match n with
  | Pdas.NWallet s => findWalletPda s programId
  | Pdas.NVault w => findVaultPda w programId
  | Pdas.NAuthority w c => findAuthorityPda w c programId
  | Pdas.NSession w k => findSessionPda w k programId
  | Pdas.NProtocolConfig => findProtocolConfigPda programId
  | Pdas.NFeeRecord p => findFeeRecordPda p programId
  | Pdas.NTreasuryShard i => findTreasuryShardPda i programId
  | Pdas.NDeferred w a c => findDeferredExecPda w a c programId
  | n => Pdas.find_pda n programId
  end.

Hypothesis same_derivation : ∀ seeds programId,
  findProgramAddressSync seeds programId = getProgramDerivedAddress programId seeds.

(** On a well-formed name both find the same address and bump; the web3.js SDK
    also refuses a counter the seed cannot hold. *)
Lemma legacy_find_agrees n programId a :
  Pdas.pda_wf n → legacy_find n programId = Ok a ↔ Pdas.find_pda n programId = Ok a.
Proof.
  intros Hwf.
  assert (H : ∀ seeds p, find_sync seeds p = Ok a ↔ Pdas.derive p seeds = Ok a).
  { intros seeds p. unfold find_sync, Pdas.derive. rewrite same_derivation.
    by destruct (getProgramDerivedAddress p seeds). }
  destruct n; try apply H; try done. cbn [legacy_find Pdas.find_pda Pdas.pda_wf] in *.
  unfold findDeferredExecPda, writeUInt32LE. rewrite buffer_write_spec.
  destruct (Z.leb_spec 0 counter), (Z.leb_spec counter 0xffffffff); try lia. apply H.
Qed.
End agree.
