(* ===== verification/LegacyCompact.v ===== *)
(** * The web3.js SDK: compact instructions

    Models src/sdk/sdk-legacy/src/utils/packing.ts and compact.ts: index bytes,
    packing, the two hashes, and the layout pass, whose maps are keyed by the
    base58 text of a key.  Both SDKs must produce the same bytes; the theorem at
    the end shows they do. *)
From S2P Require Import Prelude Bytes Kit Constants JsMap Packing Compact LegacyWeb3.
Local Open Scope Z_scope.

(** ** packing.ts *)
Definition ACCOUNT_INDEX_MASK : Z := 0x7f.
Definition ACCOUNT_INDEX_FORWARD_SIGNER : Z := 0x80.
Definition MAX_ACCOUNT_INDEX : Z := ACCOUNT_INDEX_MASK.

Definition encodeAccountIndex (index : Z) (forwardSigner : bool) : result Z :=
  (throw! EIndexCeiling index when (index <? 0) || (MAX_ACCOUNT_INDEX <? index);
   Ok (if forwardSigner then Z.lor index ACCOUNT_INDEX_FORWARD_SIGNER else index))%js.

Definition decodeAccountIndex (byte : Z) : Z * bool :=
  (Z.land byte ACCOUNT_INDEX_MASK, negb (Z.land byte ACCOUNT_INDEX_FORWARD_SIGNER =? 0)).

Definition accountFlags (isSigner isWritable : bool) : Z :=
  Z.lor (if isSigner then 1 else 0) (if isWritable then 2 else 0).

(** The loop of [packCompactInstructions], from the parts pushed so far. *)
Definition push_instruction_parts (parts : list bytes) (ix : CompactInstruction) : list bytes :=
  let len := Z.of_nat (length (c_data ix)) in
  parts ++ [[u8 (programIdIndex ix); u8 (Z.of_nat (length (accountIndexes ix)))];
            u8 <$> accountIndexes ix;
            [u8 (Z.land len 0xff); u8 (Z.land (Z.shiftr len 8) 0xff)];
            c_data ix].

Definition packCompactInstructions (instructions : list CompactInstruction) : bytes :=
  concatBytes (fold_left push_instruction_parts instructions [[u8 (Z.of_nat (length instructions))]]).

Section legacy_compact.
Context `{K : Kit}.

(** [push(meta, what)], which throws on [undefined]. *)
Definition push_key (missing : error) (meta : option Key) (parts : list bytes) : result (list bytes) :=
  match meta with
  | None => Throw missing
  | Some m => Ok (parts ++ [address_encode (pubkey m); [u8 (accountFlags (k_isSigner m) (k_isWritable m))]])
  end.

Fixpoint push_keys (metas : list Key) (bytes_ : list Z) (parts : list bytes) : result (list bytes) :=
  match bytes_ with
  | [] => Ok parts
  | byte :: bytes_ =>
    let index := (decodeAccountIndex byte).1 in
    parts ← push_key (EMissingAccount index (length metas)) (metas !! Z.to_nat index) parts;
    push_keys metas bytes_ parts
  end.

Fixpoint push_hashed (metas : list Key) (instructions : list CompactInstruction) (parts : list bytes) :
    result (list bytes) :=
  match instructions with
  | [] => Ok parts
  | ix :: instructions =>
    parts ← push_key (EMissingProgram (programIdIndex ix) (length metas))
      (metas !! Z.to_nat (decodeAccountIndex (programIdIndex ix)).1) parts;
    parts ← push_keys metas (accountIndexes ix) parts;
    push_hashed metas instructions parts
  end.

Definition computeAccountsHash (accountMetas : list Key) (instructions : list CompactInstruction) :
    result bytes :=
  parts ← push_hashed accountMetas instructions [];
  let data := concatBytes parts in
  Ok (sha256 data).

Definition computeInstructionsHash (instructions : list CompactInstruction) : bytes :=
  sha256 (packCompactInstructions instructions).

(** ** compact.ts *)
Abbreviation IndexMap := (list (string * nat)).
Abbreviation RemainingMap := (list (string * Key)).

Definition toBase58 (k : address) : string := address_string k.

(** [indexMap.set(accounts[j].toBase58(), i + j)] for every [j]. *)
Fixpoint index_keys (i : nat) (l : list address) (m : IndexMap) : IndexMap :=
  match l with
  | [] => m
  | a :: l => index_keys (S i) l (map_set (toBase58 a) i m)
  end.

Definition remember_program (indexMap : IndexMap) (programId : address) (remainingMap : RemainingMap) :
    RemainingMap :=
  let progKey := toBase58 programId in
  if negb (map_has progKey indexMap) && negb (map_has progKey remainingMap)
  then map_set progKey (mkKey programId false false) remainingMap else remainingMap.

(** The merge mutates the object in the map. *)
Definition remember_key (indexMap : IndexMap) (remainingMap : RemainingMap) (key : Key) : RemainingMap :=
  let k := toBase58 (pubkey key) in
  if negb (map_has k indexMap) then
    match map_get k remainingMap with
    | Some existing =>
      map_set k (mkKey (pubkey existing) (k_isSigner existing || k_isSigner key)
                   (k_isWritable existing || k_isWritable key)) remainingMap
    | None => map_set k (mkKey (pubkey key) (k_isSigner key) (k_isWritable key)) remainingMap
    end
  else remainingMap.

Definition remember_instruction (indexMap : IndexMap) (remainingMap : RemainingMap)
    (ix : TransactionInstruction) : RemainingMap :=
  fold_left (remember_key indexMap) (ti_keys ix) (remember_program indexMap (ti_programId ix) remainingMap).

(** [indexMap.get(k.toBase58())!]. *)
Definition index_at (indexMap : IndexMap) (k : address) : result Z :=
  of_option (EExternal "undefined index") (Z.of_nat <$> map_get (toBase58 k) indexMap).

Definition to_compact (indexMap : IndexMap) (payerKey : string) (ix : TransactionInstruction) :
    result CompactInstruction :=
  p ← index_at indexMap (ti_programId ix);
  programIdIndex ← encodeAccountIndex p false;
  accountIndexes ← mapR (λ k,
      i ← index_at indexMap (pubkey k);
      encodeAccountIndex i (k_isSigner k && negb (bool_decide (toBase58 (pubkey k) = payerKey))))
    (ti_keys ix);
  Ok (mkCompact programIdIndex accountIndexes (ti_data ix)).

Definition buildCompactLayout (fixedAccounts : list address) (instructions : list TransactionInstruction)
    (payer : address) : result (list CompactInstruction * list Key) :=
  let indexMap := index_keys 0 fixedAccounts [] in
  let remainingMap := fold_left (remember_instruction indexMap) instructions [] in
  let remainingAccounts := remainingMap.*2 in
  let indexMap := index_keys (length fixedAccounts) (pubkey <$> remainingAccounts) indexMap in
  compactInstructions ← mapR (to_compact indexMap (toBase58 payer)) instructions;
  Ok (compactInstructions, remainingAccounts).
End legacy_compact.

(** ** The two SDKs agree *)
Lemma concat_same parts : concatBytes parts = Bytes.concatBytes parts.
Proof. done. Qed.

Lemma pack_agrees ixs : packCompactInstructions ixs = Packing.packCompactInstructions ixs.
Proof.
  unfold packCompactInstructions, Packing.packCompactInstructions. rewrite concat_same. f_equal.
  assert (H : ∀ parts, fold_left push_instruction_parts ixs parts = parts ++ concat (pack_parts <$> ixs)).
  { induction ixs as [|ix ixs IH]; intros parts; cbn [fold_left fmap list_fmap concat]; [by rewrite app_nil_r|].
    rewrite IH. unfold push_instruction_parts. by rewrite <- app_assoc. }
  apply H.
Qed.

Section agree.
Context `{KL : KitLaws}.

Lemma key_flags m : accountFlags (k_isSigner (web3_key m)) (k_isWritable (web3_key m)) = flagsOf m.
Proof. by destruct m as [? []]. Qed.

Lemma push_key_at missing (metas : list AccountMeta) (i : nat) parts :
  push_key missing ((web3_key <$> metas) !! i) parts
  = m ← of_option missing (metas !! i); Ok (parts ++ hash_entry m).
Proof.
  rewrite list_lookup_fmap. destruct (metas !! i) as [m|]; [|done]. cbn [fmap option_fmap option_map push_key of_option].
  by rewrite bind_ok, key_flags.
Qed.

Lemma push_keys_agrees metas l parts :
  push_keys (web3_key <$> metas) l parts
  = accs ← mapR (λ b, let index := (decodeAccountIndex b).1 in
        a ← of_option (EMissingAccount index (length metas)) (meta_at metas index); Ok (hash_entry a)) l;
    Ok (parts ++ concat accs).
Proof.
  revert parts. induction l as [|b l IH]; intros parts; cbn [push_keys mapR]; [by rewrite bind_ok, app_nil_r|].
  rewrite push_key_at, length_fmap. unfold meta_at.
  destruct (metas !! Z.to_nat (decodeAccountIndex b).1) as [m|]; [|done]. cbn [of_option]. rewrite !bind_ok, IH.
  destruct (mapR _ l) as [accs|]; [|done]. rewrite !bind_ok. cbn [concat]. by rewrite app_assoc.
Qed.

Lemma entries_agree metas ix parts :
  (parts ← push_key (EMissingProgram (programIdIndex ix) (length metas))
      ((web3_key <$> metas) !! Z.to_nat (decodeAccountIndex (programIdIndex ix)).1) parts;
    push_keys (web3_key <$> metas) (accountIndexes ix) parts)
  = entries ← instruction_entries metas ix; Ok (parts ++ entries).
Proof.
  rewrite push_key_at. unfold instruction_entries, meta_at. change Packing.decodeAccountIndex with decodeAccountIndex.
  destruct (metas !! Z.to_nat (decodeAccountIndex (programIdIndex ix)).1) as [m|]; [|done].
  cbn [of_option]. rewrite !bind_ok, push_keys_agrees. unfold meta_at.
  destruct (mapR _ (accountIndexes ix)) as [accs|]; [|done]. by rewrite !bind_ok, <- app_assoc.
Qed.

Lemma hash_agrees metas ixs :
  computeAccountsHash (web3_key <$> metas) ixs = Packing.computeAccountsHash metas ixs.
Proof.
  unfold computeAccountsHash, Packing.computeAccountsHash, accounts_preimage.
  assert (H : ∀ parts, push_hashed (web3_key <$> metas) ixs parts
    = out ← mapR (instruction_entries metas) ixs; Ok (parts ++ concat out)).
  { induction ixs as [|ix ixs IH]; intros parts; cbn [push_hashed mapR]; [by rewrite bind_ok, app_nil_r|].
    pose proof (entries_agree metas ix parts) as He. rewrite length_fmap.
    destruct (push_key _ _ parts) as [parts1|]; cycle 1.
    { by destruct (instruction_entries metas ix). }
    rewrite bind_ok in He |- *. rewrite He. destruct (instruction_entries metas ix) as [entries|]; [|done].
    rewrite !bind_ok, IH. destruct (mapR _ ixs) as [out|]; [|done]. rewrite !bind_ok. cbn [concat]. by rewrite app_assoc. }
  rewrite H. by destruct (mapR _ ixs).
Qed.

(** A remaining account of kit's layout pass, as web3.js has it. *)
Definition mut_key (m : MutableMeta) : Key := mkKey (mm_address m) (isSigner m) (isWritable m).

Abbreviation texts := (relabel toBase58 (@id nat)).
Abbreviation named := (relabel toBase58 mut_key).

Lemma text_inj a b : toBase58 a = toBase58 b → a = b.
Proof. apply address_string_inj. Qed.

Lemma index_keys_agrees i l m : index_keys i l (texts m) = texts (index_from i l m).
Proof.
  revert i m. induction l as [|a l IH]; intros i m; [done|]. cbn [index_keys index_from].
  rewrite <- IH. f_equal. by rewrite <- (map_set_relabel toBase58 id text_inj a i m).
Qed.

Lemma remember_agrees indexMap rem ix :
  remember_instruction (texts indexMap) (named rem) (web3_ix ix) = named (add_instruction indexMap rem ix).
Proof.
  unfold remember_instruction, add_instruction.
  assert (Hp : remember_program (texts indexMap) (programAddress ix) (named rem)
               = named (add_program indexMap (programAddress ix) rem)).
  { unfold remember_program, add_program. rewrite !map_has_relabel by apply text_inj.
    destruct (negb _ && _); [|done]. by rewrite <- (map_set_relabel toBase58 mut_key text_inj). }
  cbn [web3_ix ti_programId ti_keys]. rewrite Hp. generalize (add_program indexMap (programAddress ix) rem) as r.
  induction (accounts ix) as [|m ms IH]; intros r; [done|]. cbn [fmap list_fmap fold_left]. rewrite <- IH. f_equal.
  unfold remember_key, add_account. rewrite flagsFromRole_role. cbn [web3_key pubkey k_isSigner k_isWritable].
  rewrite map_has_relabel, map_get_relabel by apply text_inj.
  destruct (map_has (m_address m) indexMap); [done|]. cbn [negb].
  destruct (map_get (m_address m) r) as [e|]; cbn [fmap option_fmap option_map];
    by rewrite <- (map_set_relabel toBase58 mut_key text_inj).
Qed.

Lemma to_compact_agrees indexMap payer ix :
  to_compact (texts indexMap) (toBase58 payer) (web3_ix ix) = compact_instruction indexMap payer ix.
Proof.
  assert (Hi : ∀ a, index_at (texts indexMap) a = index_of indexMap a).
  { intros a. unfold index_at, index_of. rewrite map_get_relabel by apply text_inj.
    by destruct (map_get a indexMap). }
  unfold to_compact, compact_instruction. cbn [web3_ix ti_programId ti_keys ti_data]. rewrite Hi.
  destruct (index_of indexMap (programAddress ix)) as [p|]; [|done]. rewrite !bind_ok.
  assert (He : ∀ i s, encodeAccountIndex i s = Packing.encodeAccountIndex i s).
  { intros i s. unfold encodeAccountIndex, Packing.encodeAccountIndex, throw_if.
    change Packing.MAX_ACCOUNT_INDEX with MAX_ACCOUNT_INDEX. by destruct (_ || _). }
  rewrite He. destruct (Packing.encodeAccountIndex p false) as [pi|]; [|done]. rewrite !bind_ok.
  assert (Hm : mapR (λ k, i ← index_at (texts indexMap) (pubkey k);
      encodeAccountIndex i (k_isSigner k && negb (bool_decide (toBase58 (pubkey k) = toBase58 payer))))
      (web3_key <$> accounts ix)
    = mapR (λ a, i ← index_of indexMap (m_address a);
      Packing.encodeAccountIndex i ((flagsFromRole (m_role a)).1 && negb (bool_decide (m_address a = payer))))
      (accounts ix)).
  { induction (accounts ix) as [|m ms IH]; [done|]. cbn [fmap list_fmap mapR]. rewrite IH, Hi, flagsFromRole_role.
    cbn [fst web3_key pubkey k_isSigner].
    rewrite (bool_decide_ext (toBase58 (m_address m) = toBase58 payer) (m_address m = payer))
      by (split; [apply text_inj | congruence]).
    destruct (index_of indexMap (m_address m)) as [i|]; [|done]. by rewrite !bind_ok, He. }
  by rewrite Hm.
Qed.

Definition web3_layout (l : list CompactInstruction * list AccountMeta) : list CompactInstruction * list Key :=
  (l.1, web3_key <$> l.2).

Lemma layout_agrees fixed (ixs : list Instruction) payer :
  buildCompactLayout fixed (web3_ix <$> ixs) payer
  = web3_layout <$> Compact.buildCompactLayout fixed ixs payer.
Proof.
  unfold buildCompactLayout, Compact.buildCompactLayout, collect.
  change (index_keys 0 fixed []) with (index_keys 0 fixed (texts [])). rewrite index_keys_agrees.
  set (im := index_from 0 fixed []).
  assert (Hr : ∀ rem, fold_left (remember_instruction (texts im)) (web3_ix <$> ixs) (named rem)
                      = named (fold_left (add_instruction im) ixs rem)).
  { induction ixs as [|ix ixs IH]; intros rem; [done|]. cbn [fmap list_fmap fold_left].
    by rewrite remember_agrees, IH. }
  specialize (Hr []). change (named []) with (@nil (string * Key)) in Hr. rewrite Hr, relabel_values.
  assert (Hk : ∀ l : list MutableMeta, pubkey <$> (mut_key <$> l) = mm_address <$> l)
    by (intros l; by rewrite <- list_fmap_compose).
  rewrite Hk, index_keys_agrees.
  set (rem := fold_left (add_instruction im) ixs []). set (im' := index_from _ _ im).
  assert (Hc : mapR (to_compact (texts im') (toBase58 payer)) (web3_ix <$> ixs)
               = mapR (compact_instruction im' payer) ixs).
  { clearbody im' rem. clear Hr. induction ixs as [|ix l IH]; [done|]. cbn [fmap list_fmap mapR]. by rewrite to_compact_agrees, IH. }
  assert (Hm : mut_key <$> rem.*2 = web3_key <$> (to_meta <$> rem.*2)).
  { generalize rem.*2 as l. induction l as [|[a [] []] l IH]; [done|..]; rewrite !fmap_cons, IH; done. }
  rewrite Hc, Hm. by destruct (mapR _ ixs).
Qed.

(** The web3.js SDK compacts exactly as the kit SDK does: the same index
    bytes with the same forward-signer bits, the same remaining accounts with
    the same privileges, the same packed bytes and the same two hashes, on every
    input, errors included. *)
Theorem compact_sdks_agree fixed (ixs : list Instruction) payer (metas : list AccountMeta) cs :
  buildCompactLayout fixed (web3_ix <$> ixs) payer
    = web3_layout <$> Compact.buildCompactLayout fixed ixs payer
  ∧ packCompactInstructions cs = Packing.packCompactInstructions cs
  ∧ computeAccountsHash (web3_key <$> metas) cs = Packing.computeAccountsHash metas cs
  ∧ computeInstructionsHash cs = Packing.computeInstructionsHash cs.
Proof.
  split; [apply layout_agrees|]. split; [apply pack_agrees|]. split; [apply hash_agrees|].
  unfold computeInstructionsHash. by rewrite pack_agrees.
Qed.
End agree.

Import ConcreteKit.

(** Two SDKs, one layout: a program and an account after a payer. *)
Lemma compact_sdks_agree_witness :
  let ix := mkIx (K := kit) (at_byte 20) [mkMeta (at_byte 21) WRITABLE_SIGNER] [u8 9] in
  is_ok (buildCompactLayout (K := kit) [at_byte 1] (web3_ix <$> [ix]) (at_byte 1)) = true.
Proof.
  intros ix. destruct (compact_sdks_agree (K := kit) [at_byte 1] [ix] (at_byte 1) [] []) as [-> _].
  vm_compute. reflexivity.
Defined.
