(* ===== verification/LegacyBuilders.v ===== *)
(** * The web3.js SDK: instruction builders and passkey signing

    Models src/sdk/sdk-legacy/src/utils/instructions.ts, the data bytes and the
    account keys of every instruction of the program, and secp256r1.ts and signing.ts:
    the auth payload and the challenge, the two-phase flow, the signed data payloads and
    the precompile instruction.  A builder that writes a
    number through [Buffer] throws when the number does not fit. *)
From S2P Require Import Prelude Bytes Kit Constants Builders Signing LegacyWeb3.
Local Open Scope Z_scope.

Definition DISC_CREATE_WALLET : Z := 0.
Definition DISC_ADD_AUTHORITY : Z := 1.
Definition DISC_REMOVE_AUTHORITY : Z := 2.
Definition DISC_TRANSFER_OWNERSHIP : Z := 3.
Definition DISC_EXECUTE : Z := 4.
Definition DISC_CREATE_SESSION : Z := 5.
Definition DISC_AUTHORIZE : Z := 6.
Definition DISC_EXECUTE_DEFERRED : Z := 7.
Definition DISC_RECLAIM_DEFERRED : Z := 8.
Definition DISC_REVOKE_SESSION : Z := 9.
Definition DISC_INITIALIZE_PROTOCOL : Z := 10.
Definition DISC_UPDATE_PROTOCOL : Z := 11.
Definition DISC_REGISTER_PAYER : Z := 12.
Definition DISC_WITHDRAW_TREASURY : Z := 13.
Definition DISC_INITIALIZE_TREASURY_SHARD : Z := 14.
Definition DISC_MIGRATE_WALLET : Z := 17.
Definition DISC_CLOSE_EXPIRED_SESSION : Z := 18.
Definition AUTH_TYPE_SECP256R1 : Z := 1.

Section builders.
Context `{K : Kit}.

(** [{ pubkey, isSigner, isWritable }], by its privileges. *)
Abbreviation signer_rw a := (mkKey a true true).
Abbreviation signer a := (mkKey a true false).
Abbreviation writable a := (mkKey a false true).
Abbreviation readonly a := (mkKey a false false).

(** The key material after the credential, for a passkey. *)
Definition key_parts (type : Z) (secp256r1Pubkey : option bytes) (rpId : option string) : list bytes :=
  match secp256r1Pubkey with
  | Some key =>
    if type =? AUTH_TYPE_SECP256R1 then
      key :: match rpId with
             | Some (String _ _ as rpId) =>
               let rpIdBytes := utf8 rpId in [[u8 (Z.of_nat (length rpIdBytes))]; rpIdBytes]
             | _ => []
             end
    else []
  | None => []
  end.

(** [if (params.authPayload) parts.push(params.authPayload)]. *)
Definition payload_part (authPayload : option bytes) : list bytes :=
  match authPayload with Some p => [p] | None => [] end.

(** The signer of an Ed25519 authority, else the instructions sysvar. *)
Definition auth_key (authorizerSigner : option address) (authPayload : option bytes) : list Key :=
  match authorizerSigner with
  | Some s => [signer s]
  | None => match authPayload with Some _ => [readonly SYSVAR_INSTRUCTIONS_ADDRESS] | None => [] end
  end.

Definition appendProtocolFeeAccounts (keys : list Key) (fee : option ProtocolFeeAccounts) : list Key :=
  match fee with
  | Some f => keys ++ [readonly (protocolConfigPda f); writable (feeRecordPda f); writable (treasuryShardPda f);
                       readonly SYSTEM_PROGRAM_ADDRESS]
  | None => keys
  end.

Definition createCreateWalletIx (payer walletPda vaultPda authorityPda : address) (userSeed : bytes)
    (authType authBump : Z) (credentialOrPubkey : bytes) (secp256r1Pubkey : option bytes)
    (rpId : option string) (protocolFee : option ProtocolFeeAccounts) (programId : address) :
    TransactionInstruction :=
  let parts := [[u8 DISC_CREATE_WALLET]; userSeed; [u8 authType; u8 authBump]; zeros 6; credentialOrPubkey]
               ++ key_parts authType secp256r1Pubkey rpId in
  let keys := [signer_rw payer; writable walletPda; writable vaultPda; writable authorityPda;
               readonly SYSTEM_PROGRAM_ADDRESS; readonly SYSVAR_RENT_ADDRESS] in
  mkTi programId (appendProtocolFeeAccounts keys protocolFee) (concatBytes parts).

Definition createAddAuthorityIx (payer walletPda adminAuthorityPda newAuthorityPda : address)
    (newType newRole : Z) (credentialOrPubkey : bytes) (secp256r1Pubkey : option bytes)
    (rpId : option string) (policy authPayload : option bytes) (authorizerSigner : option address)
    (programId : address) : result TransactionInstruction :=
  let parts := [[u8 DISC_ADD_AUTHORITY]; [u8 newType; u8 newRole]; zeros 6; credentialOrPubkey]
               ++ key_parts newType secp256r1Pubkey rpId in
  let policy := default [] policy in
  policyLen ← writeUInt16LE (Z.of_nat (length policy));
  let parts := parts ++ [policyLen; policy] ++ payload_part authPayload in
  let keys := [signer payer; writable walletPda; writable adminAuthorityPda; writable newAuthorityPda;
               readonly SYSTEM_PROGRAM_ADDRESS; readonly SYSVAR_RENT_ADDRESS]
              ++ auth_key authorizerSigner authPayload in
  Ok (mkTi programId keys (concatBytes parts)).

Definition createRemoveAuthorityIx
    (payer walletPda adminAuthorityPda targetAuthorityPda refundDestination : address)
    (authPayload : option bytes) (authorizerSigner : option address) (programId : address) :
    TransactionInstruction :=
  let keys := [signer payer; writable walletPda; writable adminAuthorityPda; writable targetAuthorityPda;
               writable refundDestination] ++ auth_key authorizerSigner authPayload in
  mkTi programId keys (concatBytes ([[u8 DISC_REMOVE_AUTHORITY]] ++ payload_part authPayload)).

Definition createTransferOwnershipIx
    (payer walletPda currentOwnerAuthorityPda newOwnerAuthorityPda refundDestination : address)
    (newType : Z) (credentialOrPubkey : bytes) (secp256r1Pubkey : option bytes) (rpId : option string)
    (authPayload : option bytes) (authorizerSigner : option address) (programId : address) :
    TransactionInstruction :=
  let parts := [[u8 DISC_TRANSFER_OWNERSHIP]; [u8 newType]; credentialOrPubkey]
               ++ key_parts newType secp256r1Pubkey rpId ++ payload_part authPayload in
  let keys := [signer payer; readonly walletPda; writable currentOwnerAuthorityPda; writable newOwnerAuthorityPda;
               writable refundDestination; readonly SYSTEM_PROGRAM_ADDRESS; readonly SYSVAR_RENT_ADDRESS]
              ++ auth_key authorizerSigner authPayload in
  mkTi programId keys (concatBytes parts).

Definition createExecuteIx (payer walletPda authorityPda vaultPda : address) (packedInstructions : bytes)
    (authPayload : option bytes) (authorizerSigner : option address) (remainingAccounts : list Key)
    (protocolFee : option ProtocolFeeAccounts) (programId : address) : TransactionInstruction :=
  let parts := [[u8 DISC_EXECUTE]; packedInstructions] ++ payload_part authPayload in
  let keys := [signer_rw payer; readonly walletPda; writable authorityPda; writable vaultPda]
              ++ auth_key authorizerSigner authPayload ++ remainingAccounts in
  mkTi programId (appendProtocolFeeAccounts keys protocolFee) (concatBytes parts).

Definition createCreateSessionIx (payer walletPda adminAuthorityPda sessionPda : address) (sessionKey : bytes)
    (expiresAt : Z) (actionsBuffer authPayload : option bytes) (authorizerSigner : option address)
    (programId : address) : result TransactionInstruction :=
  expiresAtBuf ← writeBigInt64LE expiresAt;
  let actionsBuffer := default [] actionsBuffer in
  let len := Z.of_nat (length actionsBuffer) in
  let parts := [[u8 DISC_CREATE_SESSION]; sessionKey; expiresAtBuf;
                [u8 (Z.land len 0xff); u8 (Z.land (Z.shiftr len 8) 0xff)]]
               ++ (if (0 <? length actionsBuffer)%nat then [actionsBuffer] else []) ++ payload_part authPayload in
  let keys := [signer payer; readonly walletPda; writable adminAuthorityPda; writable sessionPda;
               readonly SYSTEM_PROGRAM_ADDRESS; readonly SYSVAR_RENT_ADDRESS]
              ++ auth_key authorizerSigner authPayload in
  Ok (mkTi programId keys (concatBytes parts)).

Definition createAuthorizeIx (payer walletPda authorityPda deferredExecPda : address)
    (instructionsHash accountsHash : bytes) (expiryOffset : Z) (authPayload : bytes) (programId : address) :
    result TransactionInstruction :=
  expiryBuf ← writeUInt16LE expiryOffset;
  Ok (mkTi programId
        [signer_rw payer; readonly walletPda; writable authorityPda; writable deferredExecPda;
         readonly SYSTEM_PROGRAM_ADDRESS; readonly SYSVAR_RENT_ADDRESS; readonly SYSVAR_INSTRUCTIONS_ADDRESS]
        (concatBytes [[u8 DISC_AUTHORIZE]; instructionsHash; accountsHash; expiryBuf; authPayload])).

Definition createExecuteDeferredIx (payer walletPda vaultPda deferredExecPda refundDestination : address)
    (packedInstructions : bytes) (remainingAccounts : list Key) (protocolFee : option ProtocolFeeAccounts)
    (programId : address) : TransactionInstruction :=
  let keys := [signer_rw payer; readonly walletPda; writable vaultPda; writable deferredExecPda;
               writable refundDestination] ++ remainingAccounts in
  mkTi programId (appendProtocolFeeAccounts keys protocolFee)
    (concatBytes [[u8 DISC_EXECUTE_DEFERRED]; packedInstructions]).

Definition createReclaimDeferredIx (payer deferredExecPda refundDestination programId : address) :
    TransactionInstruction :=
  mkTi programId [signer payer; writable deferredExecPda; writable refundDestination] [u8 DISC_RECLAIM_DEFERRED].

Definition createRevokeSessionIx (payer walletPda adminAuthorityPda sessionPda refundDestination : address)
    (authPayload : option bytes) (authorizerSigner : option address) (programId : address) :
    TransactionInstruction :=
  let keys := [signer payer; readonly walletPda; writable adminAuthorityPda; writable sessionPda;
               writable refundDestination] ++ auth_key authorizerSigner authPayload in
  mkTi programId keys (concatBytes ([[u8 DISC_REVOKE_SESSION]] ++ payload_part authPayload)).

Definition createInitializeProtocolIx (payer protocolConfigPda admin treasury : address)
    (creationFee executionFee numShards : Z) (programId : address) : result TransactionInstruction :=
  creationFeeBuf ← writeBigUInt64LE creationFee;
  executionFeeBuf ← writeBigUInt64LE executionFee;
  Ok (mkTi programId
        [signer_rw payer; writable protocolConfigPda; readonly SYSTEM_PROGRAM_ADDRESS; readonly SYSVAR_RENT_ADDRESS]
        (concatBytes [[u8 DISC_INITIALIZE_PROTOCOL]; address_encode admin; address_encode treasury;
                      creationFeeBuf; executionFeeBuf; [u8 numShards]])).

Definition createUpdateProtocolIx (admin protocolConfigPda : address) (creationFee executionFee : Z)
    (enabled : bool) (newTreasury programId : address) : result TransactionInstruction :=
  creationFeeBuf ← writeBigUInt64LE creationFee;
  executionFeeBuf ← writeBigUInt64LE executionFee;
  Ok (mkTi programId [signer admin; writable protocolConfigPda]
        (concatBytes [[u8 DISC_UPDATE_PROTOCOL]; creationFeeBuf; executionFeeBuf;
                      [u8 (if enabled then 1 else 0)]; zeros 7; address_encode newTreasury])).

Definition createRegisterPayerIx (payer feeRecordPda programId : address) : TransactionInstruction :=
  mkTi programId
    [signer_rw payer; writable feeRecordPda; readonly SYSTEM_PROGRAM_ADDRESS; readonly SYSVAR_RENT_ADDRESS]
    [u8 DISC_REGISTER_PAYER].

Definition createWithdrawTreasuryIx (admin protocolConfigPda treasuryShardPda treasury programId : address) :
    TransactionInstruction :=
  mkTi programId
    [signer admin; readonly protocolConfigPda; writable treasuryShardPda; writable treasury;
     readonly SYSVAR_RENT_ADDRESS]
    [u8 DISC_WITHDRAW_TREASURY].

Definition createInitializeTreasuryShardIx (payer protocolConfigPda admin treasuryShardPda : address)
    (shardId : Z) (programId : address) : TransactionInstruction :=
  mkTi programId
    [signer_rw payer; readonly protocolConfigPda; signer admin; writable treasuryShardPda;
     readonly SYSTEM_PROGRAM_ADDRESS; readonly SYSVAR_RENT_ADDRESS]
    [u8 DISC_INITIALIZE_TREASURY_SHARD; u8 shardId].

(** The four keys pushed per token. *)
Definition token_keys (t : MigrateTokenPair) : list Key :=
  [writable (sourceAta t); writable (destAta t); readonly (pairMint t); readonly (pairTokenProgram t)].

Definition createMigrateWalletIx
    (payer v1Wallet v1Authority v1Vault destination refundDestination authSigner : address)
    (authSignerIsSigner : bool) (tokens : list MigrateTokenPair) (authPayload : option bytes)
    (programId : address) : TransactionInstruction :=
  let keys := [signer_rw payer; writable v1Wallet; writable v1Authority; writable v1Vault; writable destination;
               writable refundDestination; readonly SYSTEM_PROGRAM_ADDRESS; readonly SYSVAR_INSTRUCTIONS_ADDRESS;
               mkKey authSigner authSignerIsSigner false] in
  mkTi programId (fold_left (λ keys t, keys ++ token_keys t) tokens keys)
    (concatBytes [[u8 DISC_MIGRATE_WALLET; u8 (Z.of_nat (length tokens))]; default [] authPayload]).

Definition createCloseExpiredSessionIx (caller sessionPda refundDestination programId : address) :
    TransactionInstruction :=
  mkTi programId [signer_rw caller; writable sessionPda; writable refundDestination]
    [u8 DISC_CLOSE_EXPIRED_SESSION].
End builders.

(** ** Passkey signing *)


(** [buf.writeX(v, off)] into [buf]. *)
Definition write_at (off : nat) (written : result bytes) (buf : bytes) : result bytes :=
  w ← written; Ok (set_at off w buf).

(** [Buffer.from(source).copy(buf, off)]: what fits is copied. *)
Definition copy_at (off : nat) (source buf : bytes) : bytes :=
  set_at off (take (length buf - off) source) buf.

Definition buildAuthPayloadPrefix (slot counter sysvarIxIndex : Z) : result bytes :=
  buf ← write_at 0 (writeBigUInt64LE slot) (zeros 14);
  buf ← write_at 8 (writeUInt32LE counter) buf;
  buf ← write_at 12 (writeUInt8 sysvarIxIndex) buf;
  write_at 13 (writeUInt8 0x80) buf.

Definition buildAuthPayload (slot counter sysvarIxIndex : Z) (authenticatorData clientDataJson : bytes) :
    result bytes :=
  let authDataLen := length authenticatorData in
  let cdjLen := length clientDataJson in
  (throw! EAuthDataTooLong authDataLen when 0xffff <? Z.of_nat authDataLen;
   throw! EClientDataTooLong cdjLen when 0xffff <? Z.of_nat cdjLen;
   let buf := zeros (8 + 4 + 1 + 1 + 2 + authDataLen + 2 + cdjLen) in
   buf ← write_at 0 (writeBigUInt64LE slot) buf;
   buf ← write_at 8 (writeUInt32LE counter) buf;
   buf ← write_at 12 (writeUInt8 sysvarIxIndex) buf;
   buf ← write_at 13 (writeUInt8 0x80) buf;
   buf ← write_at 14 (writeUInt16LE (Z.of_nat authDataLen)) buf;
   let buf := copy_at 16 authenticatorData buf in
   buf ← write_at (16 + authDataLen) (writeUInt16LE (Z.of_nat cdjLen)) buf;
   Ok (copy_at (18 + authDataLen) clientDataJson buf))%js.

Section signing.
Context `{K : Kit}.

Definition generateAuthenticatorData (rpId : string) : bytes :=
  let rpIdHash := sha256 (utf8 rpId) in
  let data := set_at 0 rpIdHash (zeros 37) in
  set_at 32 [u8 0x01] data.

(** The hash is updated with each field in turn. *)
Definition buildSecp256r1Challenge (discriminator authPayload signedPayload : bytes) (payer wallet : address)
    (counter : Z) (programId : address) : result bytes :=
  counterBuf ← writeUInt32LE counter;
  Ok (sha256 (fold_left (λ hashed field, hashed ++ field)
    [discriminator; authPayload; signedPayload; address_encode payer; address_encode wallet; counterBuf;
     address_encode programId] [])).

Definition prepareSecp256r1 (discriminator signedPayload : bytes) (sysvarIxIndex slot counter : Z)
    (payer wallet programId : address) (publicKeyBytes : bytes) : result PreparedSecp256r1 :=
  challengePrefix ← buildAuthPayloadPrefix slot counter sysvarIxIndex;
  challenge ← buildSecp256r1Challenge discriminator challengePrefix signedPayload payer wallet counter programId;
  Ok (mkPrepared challenge slot counter sysvarIxIndex publicKeyBytes).

Definition precompile_data (publicKey message signature : bytes) : result bytes :=
  let HEADER_SIZE := 16%nat in
  let sigOffset := HEADER_SIZE in
  let pubkeyOffset := (sigOffset + 64)%nat in
  let msgOffset := (pubkeyOffset + 33 + 1)%nat in
  let data := zeros (HEADER_SIZE + 64 + 33 + 1 + length message) in
  data ← write_at 0 (writeUInt8 1) data;
  data ← write_at 1 (writeUInt8 0) data;
  data ← write_at 2 (writeUInt16LE (Z.of_nat sigOffset)) data;
  data ← write_at 4 (writeUInt16LE 0xFFFF) data;
  data ← write_at 6 (writeUInt16LE (Z.of_nat pubkeyOffset)) data;
  data ← write_at 8 (writeUInt16LE 0xFFFF) data;
  data ← write_at 10 (writeUInt16LE (Z.of_nat msgOffset)) data;
  data ← write_at 12 (writeUInt16LE (Z.of_nat (length message))) data;
  data ← write_at 14 (writeUInt16LE 0xFFFF) data;
  let data := copy_at sigOffset signature data in
  let data := copy_at pubkeyOffset publicKey data in
  Ok (copy_at msgOffset message data).

Definition SECP256R1_PROGRAM_ID : address := address_lit "Secp256r1SigVerify1111111111111111111111111".

Definition buildSecp256r1PrecompileIx (publicKey message signature : bytes) : result TransactionInstruction :=
  (throw! ESignatureLength (length signature) when negb (length signature =? 64)%nat;
   throw! EPublicKeyLength (length publicKey) when negb (length publicKey =? 33)%nat;
   throw! EMessageTooLong (length message) when 0xffff <? Z.of_nat (length message);
   data ← precompile_data publicKey message signature;
   Ok (mkTi SECP256R1_PROGRAM_ID [] data))%js.

Definition finalizeSecp256r1 (prepared : PreparedSecp256r1) (response : WebAuthnResponse) :
    result (bytes * TransactionInstruction) :=
  authPayload ← buildAuthPayload (p_slot prepared) (p_counter prepared) (p_sysvarIxIndex prepared)
    (r_authenticatorData response) (r_clientDataJson response);
  let precompileMessage := concatBytes [r_authenticatorData response; r_clientDataJsonHash response] in
  precompileIx ← buildSecp256r1PrecompileIx (p_publicKeyBytes prepared) precompileMessage (r_signature response);
  Ok (authPayload, precompileIx).

Definition signWithSecp256r1 (signer : Secp256r1Signer) (discriminator signedPayload : bytes)
    (sysvarIxIndex slot counter : Z) (payer wallet programId : address) :
    result (bytes * TransactionInstruction) :=
  prepared ← prepareSecp256r1 discriminator signedPayload sysvarIxIndex slot counter payer wallet programId
    (s_publicKeyBytes signer);
  response ← s_sign signer (challenge prepared);
  finalizeSecp256r1 prepared response.
End signing.

(** ** The signed data payloads *)
Definition buildDataPayloadForAdd (newType newRole : Z) (credentialOrPubkey : bytes)
    (secp256r1Pubkey : option bytes) (rpId : option string) (policy : option bytes) : result bytes :=
  let parts := [[u8 newType; u8 newRole]; zeros 6; credentialOrPubkey] ++ key_parts newType secp256r1Pubkey rpId in
  let p := default [] policy in
  policyLen ← writeUInt16LE (Z.of_nat (length p));
  Ok (concatBytes (parts ++ [policyLen; p])).

Definition buildDataPayloadForTransfer (newType : Z) (credentialOrPubkey : bytes)
    (secp256r1Pubkey : option bytes) (rpId : option string) : bytes :=
  concatBytes ([[u8 newType]; credentialOrPubkey] ++ key_parts newType secp256r1Pubkey rpId).

(** [buf.set] throws when the key does not fit. *)
Definition buildDataPayloadForSession (sessionKey : bytes) (expiresAt : Z) (actionsBuffer : option bytes) :
    result bytes :=
  let actionsLen := match actionsBuffer with Some b => length b | None => 0%nat end in
  (throw! ERangeError when (42 + actionsLen <? length sessionKey)%nat;
   let buf := set_at 0 sessionKey (zeros (42 + actionsLen)) in
   expiresAtBuf ← writeBigInt64LE expiresAt;
   let buf := set_at 32 expiresAtBuf buf in
   let buf := set_at 40 [u8 (Z.land (Z.of_nat actionsLen) 0xff)] buf in
   let buf := set_at 41 [u8 (Z.land (Z.shiftr (Z.of_nat actionsLen) 8) 0xff)] buf in
   Ok (match actionsBuffer with
       | Some b => if (0 <? actionsLen)%nat then set_at 42 b buf else buf
       | None => buf
       end))%js.
