(* ===== verification/LegacyParity.v ===== *)
(** * The two SDKs build the same transactions

    The web3.js SDK against the kit one: every instruction of the program, and
    every step of a passkey signature.  They differ only in what they do with a
    number its field cannot hold: [Buffer] throws, a [DataView] wraps. *)
From S2P Require Import Prelude Bytes Kit Constants Builders Signing LegacyWeb3 LegacyBuilders.
Local Open Scope Z_scope.

(** ** Instructions *)
Section instructions.
Context `{K : Kit}.

(** What an application asks of either SDK. *)
Inductive request :=
  | CreateWallet (payer walletPda vaultPda authorityPda : address) (userSeed : bytes) (authType authBump : Z)
      (credential : bytes) (key : option bytes) (rpId : option string) (fee : option ProtocolFeeAccounts)
  | AddAuthority (payer walletPda adminPda newPda : address) (newType newRole : Z) (credential : bytes)
      (key : option bytes) (rpId : option string) (policy authPayload : option bytes) (signer : option address)
  | RemoveAuthority (payer walletPda adminPda targetPda refund : address) (authPayload : option bytes)
      (signer : option address)
  | TransferOwnership (payer walletPda currentPda newPda refund : address) (newType : Z) (credential : bytes)
      (key : option bytes) (rpId : option string) (authPayload : option bytes) (signer : option address)
  | Execute (payer walletPda authorityPda vaultPda : address) (packed : bytes) (authPayload : option bytes)
      (signer : option address) (remaining : list AccountMeta) (fee : option ProtocolFeeAccounts)
  | CreateSession (payer walletPda adminPda sessionPda : address) (sessionKey : bytes) (expiresAt : Z)
      (actions authPayload : option bytes) (signer : option address)
  | Authorize (payer walletPda authorityPda deferredPda : address) (instructionsHash accountsHash : bytes)
      (expiryOffset : Z) (authPayload : bytes)
  | ExecuteDeferred (payer walletPda vaultPda deferredPda refund : address) (packed : bytes)
      (remaining : list AccountMeta) (fee : option ProtocolFeeAccounts)
  | ReclaimDeferred (payer deferredPda refund : address)
  | RevokeSession (payer walletPda adminPda sessionPda refund : address) (authPayload : option bytes)
      (signer : option address)
  | InitializeProtocol (payer config admin treasury : address) (creationFee executionFee numShards : Z)
  | UpdateProtocol (admin config : address) (creationFee executionFee : Z) (enabled : bool) (treasury : address)
  | RegisterPayer (payer feeRecord : address)
  | WithdrawTreasury (admin config shard treasury : address)
  | InitializeTreasuryShard (payer config admin shard : address) (shardId : Z)
  | MigrateWallet (payer v1Wallet v1Authority v1Vault destination refund authSigner : address) (isSigner : bool)
      (tokens : list MigrateTokenPair) (authPayload : option bytes)
  | CloseExpiredSession (caller sessionPda refund : address).

Variable programId : address.

Definition kit_build (r : request) : Instruction :=
  match r with
  | CreateWallet p w v a s t b c k rp f => Builders.createCreateWalletIx p w v a s t b c k rp f programId
  | AddAuthority p w a n t ro c k rp po ap s => Builders.createAddAuthorityIx p w a n t ro c k rp po ap s programId
  | RemoveAuthority p w a t rf ap s => Builders.createRemoveAuthorityIx p w a t rf ap s programId
  | TransferOwnership p w c n rf t cr k rp ap s =>
      Builders.createTransferOwnershipIx p w c n rf t cr k rp ap s programId
  | Execute p w a v pk ap s rem f => Builders.createExecuteIx p w a v pk ap s rem f programId
  | CreateSession p w a se k e ac ap s => Builders.createCreateSessionIx p w a se k e ac ap s programId
  | Authorize p w a d ih ah e ap => Builders.createAuthorizeIx p w a d ih ah e ap programId
  | ExecuteDeferred p w v d rf pk rem f => Builders.createExecuteDeferredIx p w v d rf pk rem f programId
  | ReclaimDeferred p d rf => Builders.createReclaimDeferredIx p d rf programId
  | RevokeSession p w a se rf ap s => Builders.createRevokeSessionIx p w a se rf ap s programId
  | InitializeProtocol p c a t cf ef n => Builders.createInitializeProtocolIx p c a t cf ef n programId
  | UpdateProtocol a c cf ef en t => Builders.createUpdateProtocolIx a c cf ef en t programId
  | RegisterPayer p f => Builders.createRegisterPayerIx p f programId
  | WithdrawTreasury a c s t => Builders.createWithdrawTreasuryIx a c s t programId
  | InitializeTreasuryShard p c a s i => Builders.createInitializeTreasuryShardIx p c a s i programId
  | MigrateWallet p w a v d rf s sg ts ap => Builders.createMigrateWalletIx p w a v d rf s sg ts ap programId
  | CloseExpiredSession c s rf => Builders.createCloseExpiredSessionIx c s rf programId
  end.

Definition legacy_build (r : request) : result TransactionInstruction :=
  match r with
  | CreateWallet p w v a s t b c k rp f => Ok (createCreateWalletIx p w v a s t b c k rp f programId)
  | AddAuthority p w a n t ro c k rp po ap s => createAddAuthorityIx p w a n t ro c k rp po ap s programId
  | RemoveAuthority p w a t rf ap s => Ok (createRemoveAuthorityIx p w a t rf ap s programId)
  | TransferOwnership p w c n rf t cr k rp ap s =>
      Ok (createTransferOwnershipIx p w c n rf t cr k rp ap s programId)
  | Execute p w a v pk ap s rem f => Ok (createExecuteIx p w a v pk ap s (web3_key <$> rem) f programId)
  | CreateSession p w a se k e ac ap s => createCreateSessionIx p w a se k e ac ap s programId
  | Authorize p w a d ih ah e ap => createAuthorizeIx p w a d ih ah e ap programId
  | ExecuteDeferred p w v d rf pk rem f => Ok (createExecuteDeferredIx p w v d rf pk (web3_key <$> rem) f programId)
  | ReclaimDeferred p d rf => Ok (createReclaimDeferredIx p d rf programId)
  | RevokeSession p w a se rf ap s => Ok (createRevokeSessionIx p w a se rf ap s programId)
  | InitializeProtocol p c a t cf ef n => createInitializeProtocolIx p c a t cf ef n programId
  | UpdateProtocol a c cf ef en t => createUpdateProtocolIx a c cf ef en t programId
  | RegisterPayer p f => Ok (createRegisterPayerIx p f programId)
  | WithdrawTreasury a c s t => Ok (createWithdrawTreasuryIx a c s t programId)
  | InitializeTreasuryShard p c a s i => Ok (createInitializeTreasuryShardIx p c a s i programId)
  | MigrateWallet p w a v d rf s sg ts ap => Ok (createMigrateWalletIx p w a v d rf s sg ts ap programId)
  | CloseExpiredSession c s rf => Ok (createCloseExpiredSessionIx c s rf programId)
  end.

(** The numbers [Buffer] checks. *)
Definition request_fits (r : request) : bool :=
  match r with
  | AddAuthority _ _ _ _ _ _ _ _ _ policy _ _ => fits_uint 2 (Z.of_nat (length (default [] policy)))
  | CreateSession _ _ _ _ _ expiresAt _ _ _ => fits_i64 expiresAt
  | Authorize _ _ _ _ _ _ expiryOffset _ => fits_uint 2 expiryOffset
  | InitializeProtocol _ _ _ _ cf ef _ | UpdateProtocol _ _ cf ef _ _ => fits_uint 8 cf && fits_uint 8 ef
  | _ => true
  end.

Lemma auth_key_agrees signer ap : auth_key signer ap = web3_key <$> authAccount signer ap.
Proof. by destruct signer, ap. Qed.

Lemma fee_agrees ms fee :
  appendProtocolFeeAccounts (web3_key <$> ms) fee = web3_key <$> ms ++ feeSuffix fee.
Proof. destruct fee; cbn [appendProtocolFeeAccounts feeSuffix]; by rewrite fmap_app, ?app_nil_r. Qed.

Lemma token_keys_agree tokens ms :
  fold_left (λ keys t, keys ++ token_keys t) tokens (web3_key <$> ms)
  = web3_key <$> ms ++ concat (pairMetas <$> tokens).
Proof.
  revert ms. induction tokens as [|t tokens IH]; intros ms; cbn [fold_left fmap list_fmap concat]; [by rewrite app_nil_r|].
  rewrite app_assoc, <- IH. f_equal. by rewrite fmap_app.
Qed.

Lemma write16 v : writeUInt16LE v = if fits_uint 2 v then Ok (le_split 2 v) else Throw ERangeError.
Proof. by apply write_uint_fits. Qed.
Lemma write32 v : writeUInt32LE v = if fits_uint 4 v then Ok (le_split 4 v) else Throw ERangeError.
Proof. by apply write_uint_fits. Qed.
Lemma write64 v : writeBigUInt64LE v = if fits_uint 8 v then Ok (le_split 8 v) else Throw ERangeError.
Proof. by apply write_uint_fits. Qed.
Lemma write8 v : writeUInt8 v = if fits_uint 1 v then Ok [u8 v] else Throw ERangeError.
Proof. unfold writeUInt8. by rewrite write_uint_fits. Qed.

Lemma build_agrees (r : request) :
  legacy_build r = if request_fits r then Ok (web3_ix (kit_build r)) else Throw ERangeError.
Proof.
  destruct r; cbn [legacy_build request_fits kit_build]; f_equal;
    unfold createCreateWalletIx, createAddAuthorityIx, createRemoveAuthorityIx, createTransferOwnershipIx,
      createExecuteIx, createCreateSessionIx, createAuthorizeIx, createExecuteDeferredIx, createRevokeSessionIx,
      createInitializeProtocolIx, createUpdateProtocolIx, createMigrateWalletIx.
  all: rewrite ?auth_key_agrees, ?write16, ?write64, ?writeBigInt64LE_fits.
  all: try reflexivity.
  - by destruct fee.
  - destruct (fits_uint _ _); [|done]. rewrite bind_ok, <- app_assoc. done.
  - unfold web3_ix, Builders.createExecuteIx. cbn [programAddress accounts data]. f_equal.
    rewrite !app_assoc, <- fee_agrees. f_equal. by rewrite !fmap_app.
  - by destruct (fits_i64 _).
  - destruct (fits_uint _ _); [|done]. rewrite bind_ok. unfold Builders.createAuthorizeIx. by rewrite u16LE_split.
  - unfold web3_ix, Builders.createExecuteDeferredIx. cbn [programAddress accounts data]. f_equal.
    by rewrite !app_assoc, <- fee_agrees.
  - by destruct (fits_uint 8 creationFee), (fits_uint 8 executionFee).
  - by destruct (fits_uint 8 creationFee), (fits_uint 8 executionFee).
  - unfold web3_ix, Builders.createMigrateWalletIx. cbn [programAddress accounts data]. f_equal.
    rewrite <- token_keys_agree. by destruct isSigner.
Qed.

(** C24.  Whichever SDK an application uses, the program receives the same
    instruction: for every request, the web3.js SDK builds the same data bytes
    and the same accounts with the same privileges as the kit SDK.  The only
    other outcome is a [RangeError], exactly when one of the numbers it writes
    through a checking [Buffer] method does not fit: the length of an added
    authority's policy (u16), a session's expiry (i64), an authorization's expiry
    offset (u16), or a protocol fee (u64).  Every other number is written alike by
    both and wraps in both: types, roles, bumps, shard counts and ids, the
    length of a relying party id, and the length of a session's actions. *)
Theorem instruction_sdks_agree (r : request) :
  legacy_build r = if request_fits r then Ok (web3_ix (kit_build r)) else Throw ERangeError.
Proof. apply build_agrees. Qed.
End instructions.

(** ** Passkey signatures *)
Section passkey.
Context `{K : Kit}.

Lemma write_at_if (b : bool) off w buf :
  write_at off (if b then Ok w else Throw ERangeError) buf
  = if b then Ok (set_at off w buf) else Throw ERangeError.
Proof. by destruct b. Qed.

Lemma write_at_ok off w buf : write_at off (Ok w) buf = Ok (set_at off w buf).
Proof. done. Qed.

Lemma copy_at_fits off source buf : (off + length source <= length buf)%nat → copy_at off source buf = set_at off source buf.
Proof. intros H. unfold copy_at. by rewrite take_ge by lia. Qed.

(** The numbers of a passkey signature that [Buffer] checks. *)
Definition signature_fits (slot counter sysvarIxIndex : Z) : bool :=
  fits_uint 8 slot && fits_uint 4 counter && fits_uint 1 sysvarIxIndex.

Lemma prefix_agrees slot counter i :
  buildAuthPayloadPrefix slot counter i
  = if signature_fits slot counter i then Ok (Signing.buildAuthPayloadPrefix slot counter i) else Throw ERangeError.
Proof.
  unfold buildAuthPayloadPrefix, signature_fits. rewrite write64, write32, !write8. rewrite !write_at_if.
  destruct (fits_uint 8 slot); [|done]. rewrite bind_ok, !write_at_if. destruct (fits_uint 4 counter); [|done].
  rewrite bind_ok, !write_at_if. by destruct (fits_uint 1 i).
Qed.

Ltac set_len :=
  rewrite ?length_le_split, ?length_zeros; cbn [length];
  first [lia | rewrite length_set_at by set_len; set_len].

Lemma auth_payload_agrees slot counter i ad cdj :
  signature_fits slot counter i = true →
  buildAuthPayload slot counter i ad cdj = Signing.buildAuthPayload slot counter i ad cdj.
Proof.
  unfold buildAuthPayload, Signing.buildAuthPayload, signature_fits, throw_if. intros H.
  apply andb_true_iff in H as [[H8 H4]%andb_true_iff H1].
  destruct (Z.ltb_spec 0xffff (Z.of_nat (length ad))) as [?|Ha]; [done|].
  destruct (Z.ltb_spec 0xffff (Z.of_nat (length cdj))) as [?|Hc]; [done|]. rewrite !bind_ok.
  rewrite write64, write32, !write8, !write16, H8, H4, H1.
  assert (fits_uint 2 (Z.of_nat (length ad)) = true ∧ fits_uint 2 (Z.of_nat (length cdj)) = true) as [-> ->].
  { unfold fits_uint. split; apply andb_true_iff; rewrite Z.leb_le, Z.ltb_lt; split; try lia;
      change (2 ^ (8 * Z.of_nat 2)) with 65536; lia. }
  change (fits_uint 1 0x80) with true. do 6 rewrite write_at_ok, bind_ok. f_equal.
  rewrite (copy_at_fits 16 ad) by set_len. by rewrite copy_at_fits by set_len.
Qed.

Lemma precompile_agrees key message signature :
  buildSecp256r1PrecompileIx key message signature
  = web3_ix <$> Signing.buildSecp256r1PrecompileIx key message signature.
Proof.
  unfold buildSecp256r1PrecompileIx, Signing.buildSecp256r1PrecompileIx, throw_if.
  destruct (Nat.eqb_spec (length signature) 64) as [Hs|]; [|done]. cbn [negb].
  destruct (Nat.eqb_spec (length key) 33) as [Hk|]; [|done]. cbn [negb]. rewrite !bind_ok.
  destruct (Z.ltb_spec 0xffff (Z.of_nat (length message))) as [?|Hm]; [done|]. rewrite !bind_ok.
  unfold precompile_data. cbv zeta. rewrite !write8, !write16.
  assert (fits_uint 2 (Z.of_nat (length message)) = true) as ->.
  { unfold fits_uint. apply andb_true_iff. rewrite Z.leb_le, Z.ltb_lt. change (2 ^ (8 * Z.of_nat 2)) with 65536. lia. }
  change (fits_uint 1 1) with true. change (fits_uint 1 0) with true. change (fits_uint 2 0xFFFF) with true.
  change (fits_uint 2 (Z.of_nat 16)) with true. change (fits_uint 2 (Z.of_nat (16 + 64))) with true.
  change (fits_uint 2 (Z.of_nat (16 + 64 + 33 + 1))) with true.
  cbv iota. do 9 rewrite write_at_ok, bind_ok. rewrite bind_ok.
  rewrite (copy_at_fits 16 signature) by set_len. rewrite (copy_at_fits (16 + 64) key) by set_len.
  rewrite copy_at_fits by set_len. done.
Qed.

(** A finalized signature, as web3.js has it. *)
Definition web3_final (f : bytes * Instruction) : bytes * TransactionInstruction := (f.1, web3_ix f.2).

Lemma prepare_agrees disc sp i slot counter payer wallet programId key :
  prepareSecp256r1 disc sp i slot counter payer wallet programId key
  = if signature_fits slot counter i
    then Ok (Signing.prepareSecp256r1 disc sp i slot counter payer wallet programId key) else Throw ERangeError.
Proof.
  unfold prepareSecp256r1. rewrite prefix_agrees. destruct (signature_fits slot counter i) eqn:H; [|done].
  apply andb_true_iff in H as [[_ H4]%andb_true_iff _].
  rewrite bind_ok. unfold buildSecp256r1Challenge. rewrite write32, H4, !bind_ok. do 2 f_equal.
  cbn [fold_left app]. unfold Signing.buildSecp256r1Challenge, challengePreimage. by rewrite <- !app_assoc.
Qed.

Lemma finalize_agrees p r :
  signature_fits (p_slot p) (p_counter p) (p_sysvarIxIndex p) = true →
  finalizeSecp256r1 p r = web3_final <$> Signing.finalizeSecp256r1 p r.
Proof.
  intros H. unfold finalizeSecp256r1, Signing.finalizeSecp256r1. rewrite auth_payload_agrees by done.
  destruct (Signing.buildAuthPayload _ _ _ _ _) as [ap|]; [|done]. rewrite !bind_ok, precompile_agrees.
  by destruct (Signing.buildSecp256r1PrecompileIx _ _ _).
Qed.

Lemma session_payload_agrees sessionKey expiresAt actions :
  (length sessionKey <= 42)%nat →
  buildDataPayloadForSession sessionKey expiresAt actions
  = if fits_i64 expiresAt then Signing.buildDataPayloadForSession sessionKey expiresAt actions else Throw ERangeError.
Proof.
  intros H. unfold buildDataPayloadForSession, Signing.buildDataPayloadForSession, throw_if.
  destruct (Nat.ltb_spec (42 + match actions with Some b => length b | None => 0 end) (length sessionKey)); [lia|].
  rewrite !bind_ok, writeBigInt64LE_fits. by destruct (fits_i64 expiresAt).
Qed.

Lemma add_payload_agrees type role credential pk rpId policy :
  buildDataPayloadForAdd type role credential pk rpId policy
  = if fits_uint 2 (Z.of_nat (length (default [] policy)))
    then Ok (Signing.buildDataPayloadForAdd type role credential pk rpId policy) else Throw ERangeError.
Proof.
  unfold buildDataPayloadForAdd. rewrite write16. destruct (fits_uint _ _); [|done].
  rewrite bind_ok. unfold Signing.buildDataPayloadForAdd. by rewrite <- app_assoc.
Qed.

(** A passkey signs the same bytes through either SDK, and either SDK can
    finish what the other began: when the slot, the counter and the sysvar index
    fit their fields, the web3.js SDK prepares the same challenge as the kit SDK,
    finalizes a response into the same auth payload and precompile instruction
    with the same errors, and signs over the same data payloads; otherwise it
    throws a [RangeError] before anything is signed. *)
Theorem passkey_sdks_agree disc sp i slot counter payer wallet programId key :
  let prepared := Signing.prepareSecp256r1 disc sp i slot counter payer wallet programId key in
  prepareSecp256r1 disc sp i slot counter payer wallet programId key
    = (if signature_fits slot counter i then Ok prepared else Throw ERangeError)
  ∧ (signature_fits slot counter i = true →
     ∀ r, finalizeSecp256r1 prepared r = web3_final <$> Signing.finalizeSecp256r1 prepared r)
  ∧ (∀ type role credential pk rpId policy,
     buildDataPayloadForAdd type role credential pk rpId policy
     = if fits_uint 2 (Z.of_nat (length (default [] policy)))
       then Ok (Signing.buildDataPayloadForAdd type role credential pk rpId policy) else Throw ERangeError)
  ∧ (∀ type credential pk rpId,
     buildDataPayloadForTransfer type credential pk rpId = Signing.buildDataPayloadForTransfer type credential pk rpId)
  ∧ (∀ sessionKey expiresAt actions, length sessionKey = 32%nat →
     buildDataPayloadForSession sessionKey expiresAt actions
     = if fits_i64 expiresAt then Signing.buildDataPayloadForSession sessionKey expiresAt actions
       else Throw ERangeError).
Proof.
  intros prepared. split; [apply prepare_agrees|]. split; [intros H r; by apply finalize_agrees|].
  split; [intros; apply add_payload_agrees|].
  split; [done|intros k e a Hk; apply session_payload_agrees; lia].
Qed.
End passkey.
