(* ===== verification/LegacyActions.v ===== *)
(** * The web3.js SDK: session actions

    Models src/sdk/sdk-legacy/src/utils/actions.ts: [serializeActions], whose
    amounts are written through a [DataView] and wrap, and [parseActions], which
    reads a policy back off the chain for an operator; and the account readers
    of accounts.ts. *)
From S2P Require Import Prelude Bytes Kit Constants Actions ProgramActions Accounts LegacyWeb3.
Local Open Scope Z_scope.

Definition ACTION_HEADER_SIZE : nat := 11.

(** [view.setBigUint64(offset, value, true)] on [buf]. *)
Definition writeU64LE (buf : bytes) (offset : nat) (value : Z) : bytes :=
  set_at offset (setBigUint64 value) buf.

Definition writeU16LE (buf : bytes) (offset : nat) (value : Z) : bytes :=
  set_at (S offset) [u8 (Z.land (Z.shiftr value 8) 0xff)] (set_at offset [u8 (Z.land value 0xff)] buf).

(** [for (let i = 7; i >= 0; i--) value = (value << 8n) | BigInt(buf[offset + i])]:
    [BigInt(undefined)] throws. *)
Fixpoint readU64_loop (n : nat) (buf : bytes) (offset : nat) (value : Z) : result Z :=
  match n with
  | O => Ok value
  | S i =>
    b ← of_option (EExternal "TypeError") (buf !! (offset + i)%nat);
    readU64_loop i buf offset (Z.lor (Z.shiftl value 8) (val b))
  end.
Definition readU64LE (buf : bytes) (offset : nat) : result Z := readU64_loop 8 buf offset 0.

(** [buf[offset] | (buf[offset + 1] << 8)]. *)
Definition readU16LE (buf : bytes) (offset : nat) : Z :=
  Z.lor (val (buf !!! offset)) (Z.shiftl (val (buf !!! S offset)) 8).

(** [new PublicKey(bytes)]: web3.js, which throws on more than 32 bytes. *)
Class Web3Keys `{K : Kit} := { new_PublicKey : bytes → option address }.
Class Web3KeysLaws `{K : Kit} (W : Web3Keys) : Prop := {
  new_PublicKey_32 : ∀ b, length b = 32%nat → new_PublicKey b = address_decode b;
}.

Section actions.
Context `{K : Kit}.

Definition serializeActionData (action : SessionAction) : bytes :=
  match action with
  | SolLimitAction remaining _ => writeU64LE (zeros 8) 0 remaining
  | SolRecurringLimitAction limit window _ =>
    let buf := writeU64LE (zeros 32) 0 limit in
    let buf := writeU64LE buf 8 0 in
    let buf := writeU64LE buf 16 window in
    writeU64LE buf 24 0
  | SolMaxPerTxAction max _ => writeU64LE (zeros 8) 0 max
  | TokenLimitAction mint remaining _ =>
    writeU64LE (set_at 0 (address_encode mint) (zeros 40)) 32 remaining
  | TokenRecurringLimitAction mint limit window _ =>
    let buf := set_at 0 (address_encode mint) (zeros 64) in
    let buf := writeU64LE buf 32 limit in
    let buf := writeU64LE buf 40 0 in
    let buf := writeU64LE buf 48 window in
    writeU64LE buf 56 0
  | TokenMaxPerTxAction mint max _ => writeU64LE (set_at 0 (address_encode mint) (zeros 40)) 32 max
  | ProgramWhitelistAction programId _ | ProgramBlacklistAction programId _ => address_encode programId
  end.

(** What the loop pushes for one action. *)
Definition serialized_parts (action : SessionAction) : list bytes :=
  let data := serializeActionData action in
  let header := set_at 0 [u8 (type_num (action_type action))] (zeros ACTION_HEADER_SIZE) in
  let header := writeU16LE header 1 (Z.of_nat (length data)) in
  let header := writeU64LE header 3 (default 0 (action_expiresAt action)) in
  [header; data].

Definition serializeActions (actions : list SessionAction) : bytes :=
  match actions with
  | [] => []
  | _ => concatBytes (fold_left (λ parts a, parts ++ serialized_parts a) actions [])
  end.

(** ** Reading a policy back *)
Context {W : Web3Keys}.

Record ParsedAction := mkParsed {
  pa_type : Z;
  pa_expiresAt : Z;
  pa_limit : option Z;
  pa_spent : option Z;
  pa_window : option Z;
  pa_lastReset : option Z;
  pa_mint : option address;
  pa_programId : option address;
  pa_raw : bytes;
}.

Definition public_key (data : bytes) : result address :=
  of_option (EExternal "PublicKey") (new_PublicKey (slice 0 32 data)).

(** The four counters of a recurring limit, from [at_] on. *)
Definition recurring_fields (data : bytes) (at_ : nat) : result (Z * Z * Z * Z) :=
  limit ← readU64LE data at_;
  spent ← readU64LE data (at_ + 8);
  window ← readU64LE data (at_ + 16);
  lastReset ← readU64LE data (at_ + 24);
  Ok (limit, spent, window, lastReset).

(** The [switch] on the type. *)
Definition parsed_fields (type expiresAt : Z) (data : bytes) : result ParsedAction :=
  if (type =? type_num SolLimit) || (type =? type_num SolMaxPerTx) then
    limit ← readU64LE data 0;
    Ok (mkParsed type expiresAt (Some limit) None None None None None data)
  else if type =? type_num SolRecurringLimit then
    '(limit, spent, window, lastReset) ← recurring_fields data 0;
    Ok (mkParsed type expiresAt (Some limit) (Some spent) (Some window) (Some lastReset) None None data)
  else if (type =? type_num TokenLimit) || (type =? type_num TokenMaxPerTx) then
    mint ← public_key data;
    limit ← readU64LE data 32;
    Ok (mkParsed type expiresAt (Some limit) None None None (Some mint) None data)
  else if type =? type_num TokenRecurringLimit then
    mint ← public_key data;
    '(limit, spent, window, lastReset) ← recurring_fields data 32;
    Ok (mkParsed type expiresAt (Some limit) (Some spent) (Some window) (Some lastReset) (Some mint) None data)
  else if (type =? type_num ProgramWhitelist) || (type =? type_num ProgramBlacklist) then
    programId ← public_key data;
    Ok (mkParsed type expiresAt None None None None None (Some programId) data)
  else Ok (mkParsed type expiresAt None None None None None None data).

(** Each turn moves the offset by at least the header: [length buffer] turns
    are enough. *)
Fixpoint parseActions_loop (fuel : nat) (buffer : bytes) (offset : nat) (out : list ParsedAction) :
    result (list ParsedAction) :=
  match fuel with
  | O => Ok out
  | S fuel =>
    if (offset <? length buffer)%nat then
      throw! EMalformedActions offset when (length buffer <? offset + ACTION_HEADER_SIZE)%nat;
      let type := val (buffer !!! offset) in
      let dataLen := Z.to_nat (readU16LE buffer (offset + 1)) in
      expiresAt ← readU64LE buffer (offset + 3);
      let dataStart := (offset + ACTION_HEADER_SIZE)%nat in
      throw! EMalformedActions offset when (length buffer <? dataStart + dataLen)%nat;
      let data := slice dataStart (dataStart + dataLen) buffer in
      parsed ← parsed_fields type expiresAt data;
      parseActions_loop fuel buffer (dataStart + dataLen) (out ++ [parsed])
    else Ok out
  end%js.

Definition parseActions (buffer : bytes) : result (list ParsedAction) :=
  parseActions_loop (length buffer) buffer 0 [].
End actions.

(** ** What is written *)
Section written.
Context `{KL : KitLaws}.

Lemma data_payload a : serializeActionData a = payload a.
Proof.
  destruct a; cbn [serializeActionData payload]; unfold writeU64LE, setBigUint64; try done.
  all: match goal with |- context [zeros ?n] => change (zeros n) with ([] ++ zeros n) end.
  all: rewrite ?set_at_zeros by len; rewrite ?length_le_split, ?address_encode_length.
  all: change (zeros _) with (@nil Byte.byte); by rewrite ?app_nil_r, <- ?app_assoc.
Qed.

Lemma parts_wire a : concat (serialized_parts a) = wire a.
Proof.
  unfold serialized_parts, writeU16LE, writeU64LE, setBigUint64. rewrite data_payload.
  change (zeros ACTION_HEADER_SIZE) with ([] ++ zeros 11). rewrite set_at_zeros by len.
  rewrite set_at_zeros by len. rewrite set_at_zeros by len. rewrite set_at_zeros by len.
  cbn [concat]. rewrite app_nil_r. unfold wire.
  pose proof (u16LE_split (Z.of_nat (length (payload a)))) as H. unfold u16LE in H.
  rewrite <- H. by rewrite app_nil_r, <- !app_assoc.
Qed.

(** Every list of actions is written, amounts and expiries modulo [2 ^ 64]. *)
Lemma serialize_wires acts : serializeActions acts = concat (wire <$> acts).
Proof.
  assert (H : ∀ parts, concat (fold_left (λ parts a, parts ++ serialized_parts a) acts parts)
                       = concat parts ++ concat (wire <$> acts)).
  { induction acts as [|a acts IH]; intros parts; cbn [fold_left fmap list_fmap concat]; [by rewrite app_nil_r|].
    rewrite IH, concat_app, parts_wire. by rewrite <- app_assoc. }
  destruct acts as [|a acts]; [done|]. unfold serializeActions. change (@concatBytes) with (@Bytes.concatBytes).
  rewrite concatBytes_concat. apply (H []).
Qed.

(** The action whose amounts are reduced to u64s. *)
Definition u64_wrap (v : Z) : Z := v mod 2 ^ 64.
Definition wrapped (a : SessionAction) : SessionAction :=
  match a with
  | SolLimitAction v e => SolLimitAction (u64_wrap v) e
  | SolRecurringLimitAction l w e => SolRecurringLimitAction (u64_wrap l) (u64_wrap w) e
  | SolMaxPerTxAction v e => SolMaxPerTxAction (u64_wrap v) e
  | TokenLimitAction m v e => TokenLimitAction m (u64_wrap v) e
  | TokenRecurringLimitAction m l w e => TokenRecurringLimitAction m (u64_wrap l) (u64_wrap w) e
  | TokenMaxPerTxAction m v e => TokenMaxPerTxAction m (u64_wrap v) e
  | a => a
  end.

Lemma u64_wrap_ok v : is_u64 (u64_wrap v) = true.
Proof. apply is_u64_spec. unfold u64_wrap. apply Z.mod_pos_bound. lia. Qed.

Lemma wrapped_ok a : amounts_ok (wrapped a) = true.
Proof. destruct a; cbn [wrapped amounts_ok]; by rewrite ?u64_wrap_ok. Qed.

Lemma le_split_wrap v : le_split 8 (u64_wrap v) = le_split 8 v.
Proof.
  assert (H : le_combine (le_split 8 (u64_wrap v)) = le_combine (le_split 8 v)).
  { rewrite !le_combine_split. unfold u64_wrap. by rewrite Zmod_mod. }
  rewrite <- (split_le_combine (le_split 8 (u64_wrap v))), <- (split_le_combine (le_split 8 v)).
  by rewrite H, !length_le_split.
Qed.

Lemma wire_wrapped a : wire (wrapped a) = wire a.
Proof. destruct a; unfold wire; cbn [wrapped action_type action_expiresAt payload]; by rewrite ?le_split_wrap. Qed.

(** The two SDKs serialize a policy alike when its amounts are u64s. When
    one is not, the kit SDK throws and the web3.js SDK writes it modulo [2 ^ 64]:
    what the program stores is the policy of the reduced amounts. *)
Theorem action_sdks_agree (acts : list SessionAction) :
  (forallb amounts_ok acts = true → Actions.serializeActions acts = Ok (serializeActions acts))
  ∧ (forallb amounts_ok acts = false → is_ok (Actions.serializeActions acts) = false
     ∧ Actions.serializeActions (wrapped <$> acts) = Ok (serializeActions acts)).
Proof.
  assert (Hok : ∀ l, forallb amounts_ok l = true → Actions.serializeActions l = Ok (serializeActions l)).
  { intros l Hl. rewrite serialize_wires. by apply serializeActions_ok, forallb_Forall. }
  split; [apply Hok|]. intros H. split; [by rewrite serializeActions_total|].
  rewrite Hok, !serialize_wires.
  - rewrite <- list_fmap_compose. do 2 f_equal. apply list_fmap_ext. intros i a _. apply wire_wrapped.
  - apply forallb_forall. intros a (b & -> & _)%list_elem_of_In%list_elem_of_fmap. apply wrapped_ok.
Qed.
End written.

(** ** What is read back *)
Lemma slice_cons_at off e (b : bytes) x :
  b !! off = Some x → (off < e)%nat → slice off e b = x :: slice (S off) e b.
Proof.
  intros Hx He. unfold slice. rewrite (drop_S b x off Hx).
  replace (e - off)%nat with (S (e - S off)) by lia. done.
Qed.

Lemma readU64LE_ok b off : (off + 8 <= length b)%nat →
  readU64LE b off = Ok (le_combine (slice off (off + 8) b)).
Proof.
  intros Hl. unfold readU64LE.
  assert (H : ∀ n, (n <= 8)%nat →
    readU64_loop n b off (le_combine (slice (off + n) (off + 8) b)) = Ok (le_combine (slice off (off + 8) b))).
  { induction n as [|n IH]; intros Hn; cbn [readU64_loop]; [by rewrite Nat.add_0_r|].
    destruct (lookup_lt_is_Some_2 b (off + n)) as [x Hx]; [lia|]. rewrite Hx. cbn [of_option]. rewrite bind_ok.
    rewrite <- IH by lia. f_equal. rewrite (slice_cons_at (off + n) (off + 8) b x Hx) by lia.
    cbn [le_combine]. rewrite Z.lor_comm. by rewrite Nat.add_succ_r. }
  specialize (H 8%nat ltac:(lia)). rewrite <- H. f_equal. unfold slice. by rewrite Nat.sub_diag.
Qed.

Lemma readU16LE_ok b off : (off + 2 <= length b)%nat → readU16LE b off = le_combine (slice off (off + 2) b).
Proof.
  intros Hl. destruct (lookup_lt_is_Some_2 b off) as [x Hx]; [lia|].
  destruct (lookup_lt_is_Some_2 b (S off)) as [y Hy]; [lia|].
  rewrite (slice_cons_at off _ b x Hx), (slice_cons_at (S off) _ b y Hy) by lia.
  unfold readU16LE. rewrite (list_lookup_total_correct _ _ _ Hx), (list_lookup_total_correct _ _ _ Hy).
  unfold slice. replace (off + 2 - S (S off))%nat with 0%nat by lia.
  change (le_combine (x :: y :: take 0 _)) with (Z.lor (val x) (Z.shiftl (Z.lor (val y) (Z.shiftl 0 8)) 8)).
  by rewrite Z.shiftl_0_l, Z.lor_0_r.
Qed.

Section read.
Context `{KL : KitLaws} {W : Web3Keys} {WL : Web3KeysLaws W}.

Definition u64_at (data : bytes) (off : nat) : Z := le_combine (slice off (off + 8) data).

(** The operator's [p] is what the program enforces as [v]. *)
Definition enforced (buf : bytes) (v : ActionView) (p : ParsedAction) : Prop :=
  let data := view_data buf v in
  pa_type p = type_num (av_type v) ∧ pa_expiresAt p = av_expires_at v ∧ pa_raw p = data ∧
  match av_type v with
  | SolLimit | SolMaxPerTx => pa_limit p = Some (u64_at data 0)
  | SolRecurringLimit =>
    pa_limit p = Some (u64_at data 0) ∧ pa_spent p = Some (u64_at data 8)
    ∧ pa_window p = Some (u64_at data 16) ∧ pa_lastReset p = Some (u64_at data 24)
  | TokenLimit | TokenMaxPerTx =>
    address_encode <$> pa_mint p = Some (slice 0 32 data) ∧ pa_limit p = Some (u64_at data 32)
  | TokenRecurringLimit =>
    address_encode <$> pa_mint p = Some (slice 0 32 data)
    ∧ pa_limit p = Some (u64_at data 32) ∧ pa_spent p = Some (u64_at data 40)
    ∧ pa_window p = Some (u64_at data 48) ∧ pa_lastReset p = Some (u64_at data 56)
  | ProgramWhitelist | ProgramBlacklist => address_encode <$> pa_programId p = Some (slice 0 32 data)
  end.

Lemma public_key_ok data : (32 <= length data)%nat →
  ∃ a, public_key data = Ok a ∧ address_encode a = slice 0 32 data.
Proof.
  intros Hl. unfold public_key. assert (Hs : length (slice 0 32 data) = 32%nat) by (rewrite length_slice; lia).
  rewrite new_PublicKey_32 by done. destruct (address_encode_decode _ Hs) as (a & -> & Ha). by exists a.
Qed.

Lemma recurring_ok data at_ : (at_ + 32 <= length data)%nat →
  recurring_fields data at_ = Ok (u64_at data at_, u64_at data (at_ + 8), u64_at data (at_ + 16), u64_at data (at_ + 24)).
Proof. intros H. unfold recurring_fields, u64_at. by rewrite !readU64LE_ok, !bind_ok by lia. Qed.

Lemma parsed_fields_ok buf v :
  length (view_data buf v) = payload_size (av_type v) →
  ∃ p, parsed_fields (type_num (av_type v)) (av_expires_at v) (view_data buf v) = Ok p ∧ enforced buf v p.
Proof.
  intros Hl. unfold enforced, parsed_fields. destruct (av_type v); cbn [type_num Z.eqb Pos.eqb orb payload_size] in *.
  all: try (assert (32 <= length (view_data buf v))%nat as H32 by lia;
            destruct (public_key_ok _ H32) as (a & Ha & Hk); rewrite Ha, bind_ok).
  all: rewrite ?readU64LE_ok, ?recurring_ok, ?bind_ok by lia.
  all: eexists; split; [reflexivity|]; cbn; by rewrite ?Hk.
Qed.

Lemma from_u8_inv z t : from_u8 z = Ok t → z = type_num t.
Proof.
  unfold from_u8. intros H. repeat case_match; by simplify_eq.
Qed.

Definition sized (v : ActionView) : Prop := av_data_len v = payload_size (av_type v).

Lemma read_loop fuel buf cursor acc views' :
  parse_loop fuel buf cursor acc = Ok views' →
  ∃ views, views' = acc ++ views ∧
    (Forall sized views → ∀ out, ∃ l, parseActions_loop fuel buf cursor out = Ok (out ++ l)
                                     ∧ Forall2 (enforced buf) views l).
Proof.
  revert cursor acc. induction fuel as [|fuel IH]; intros cursor acc; cbn [parse_loop parseActions_loop].
  { intros [= <-]. exists []. rewrite app_nil_r. split; [done|]. intros _ out. exists []. by rewrite app_nil_r. }
  destruct (Nat.ltb_spec cursor (length buf)) as [Hc|]; cycle 1.
  { intros [= <-]. exists []. rewrite app_nil_r. split; [done|]. intros _ out. exists []. by rewrite app_nil_r. }
  intros H. apply bind_inv in H as ([] & Hh%throw_if_ok & H). apply bind_inv in H as (t & Ht%from_u8_inv & H).
  apply bind_inv in H as ([] & Hd%throw_if_ok & H). apply bind_inv in H as ([] & _ & H).
  apply Nat.ltb_ge in Hh, Hd. unfold Actions.ACTION_HEADER_SIZE, ACTION_HEADER_SIZE, throw_if in *.
  set (v := mkView t _ _ _) in H. destruct (IH _ _ H) as (views & -> & Hread). exists (v :: views).
  rewrite <- app_assoc. split; [done|]. intros [Hv Hvs]%Forall_cons out. unfold sized in Hv.
  replace (length buf <? cursor + 11)%nat with false by (symmetry; apply Nat.ltb_ge; lia). rewrite bind_ok.
  rewrite readU64LE_ok, bind_ok, readU16LE_ok by lia.
  replace (cursor + 1 + 2)%nat with (cursor + 3)%nat by lia. replace (cursor + 3 + 8)%nat with (cursor + 11)%nat by lia.
  replace (length buf <? cursor + 11 + Z.to_nat (le_combine (slice (cursor + 1) (cursor + 3) buf)))%nat with false
    by (symmetry; apply Nat.ltb_ge; lia). rewrite bind_ok.
  destruct (parsed_fields_ok buf v) as (p & Hp & He).
  { rewrite <- Hv. unfold view_data. rewrite length_slice. cbn [v av_data_offset av_data_len]. lia. }
  unfold view_data in Hp. cbn [v av_type av_expires_at av_data_offset av_data_len] in Hp. rewrite Ht, Hp, bind_ok.
  destruct (Hread Hvs (out ++ [p])) as (l & Hl & Hall). exists (p :: l). rewrite Hl, <- app_assoc.
  split; [done|]. by constructor.
Qed.

(** C25.  An operator reads the policy the program enforces: of every action
    buffer the program accepts, however far its counters have moved since it was
    written, [parseActions] returns one action per action of the program, with
    its type, expiry, caps, consumption, window, mint or program, and never an
    error or a partial list. *)
Theorem policy_read_back buf views :
  ProgramActions.parse_actions buf = Ok views → Forall sized views →
  ∃ l, parseActions buf = Ok l ∧ Forall2 (enforced buf) views l.
Proof.
  intros H Hs. destruct (read_loop _ _ _ _ _ H) as (views' & -> & Hread). apply (Hread Hs []).
Qed.
End read.

(** ** accounts.ts *)
Section accounts.
Context `{K : Kit} {W : Web3Keys}.

(** [data.readUInt16LE(off)] and the like: in range. *)
Definition read_le (w : nat) (data : bytes) (off : nat) : Z := le_combine (slice off (off + w) data).

Definition buffer_key (data : bytes) (off : nat) : result address :=
  of_option (EExternal "PublicKey") (new_PublicKey (slice off (off + 32) data)).

(** [AuthorityAccount.fromBuffer], and its [isBounded]. *)
Definition authorityFromBuffer (data : bytes) : result AuthorityAccountData :=
  (throw! EAccountTooShort (length data) 48 when (length data <? 48)%nat;
   let counter := read_le 4 data 8 in
   let policyLen := read_le 2 data 12 in
   wallet ← buffer_key data 16;
   Ok (mkAuthority (val (data !!! 0%nat)) (val (data !!! 1%nat)) (val (data !!! 2%nat)) (val (data !!! 3%nat))
         (val (data !!! 4%nat)) counter policyLen (0 <? policyLen) wallet))%js.

(** [SessionAccount.fromBuffer]. *)
Definition sessionFromBuffer (data : bytes) : result SessionAccountData :=
  (throw! EAccountTooShort (length data) 80 when (length data <? 80)%nat;
   wallet ← buffer_key data 8;
   sessionKey ← buffer_key data 40;
   Ok (mkSession (val (data !!! 0%nat)) (val (data !!! 1%nat)) (val (data !!! 2%nat)) wallet sessionKey
         (read_le 8 data 72)))%js.
End accounts.

Section same_accounts.
Context `{KL : KitLaws} {W : Web3Keys} {WL : Web3KeysLaws W}.

Lemma byte_field data i : (i < length data)%nat → uint_field 1 data i = Ok (val (data !!! i)).
Proof.
  intros Hi. rewrite uint_field_ok by lia. destruct (lookup_lt_is_Some_2 data i Hi) as [x Hx].
  rewrite (slice_cons_at i _ data x Hx), (list_lookup_total_correct _ _ _ Hx) by lia.
  unfold slice. replace (i + 1 - S i)%nat with 0%nat by lia.
  change (le_combine (x :: take 0 _)) with (Z.lor (val x) (Z.shiftl 0 8)). by rewrite Z.shiftl_0_l, Z.lor_0_r.
Qed.

Lemma key_field data off : (off + 32 <= length data)%nat →
  ∃ a, buffer_key data off = Ok a ∧ address_field data off = Ok a.
Proof.
  intros H. unfold buffer_key, address_field. rewrite bytes_field_ok, bind_ok by done.
  assert (Hs : length (slice off (off + 32) data) = 32%nat) by (rewrite length_slice; lia).
  rewrite new_PublicKey_32 by done. destruct (address_encode_decode _ Hs) as (a & -> & _). by exists a.
Qed.

(** The web3.js account classes read what kit's decoders do. *)
Lemma account_readers_agree data :
  authorityFromBuffer data = decodeAuthorityAccount data ∧ sessionFromBuffer data = decodeSessionAccount data.
Proof.
  unfold authorityFromBuffer, decodeAuthorityAccount, sessionFromBuffer, decodeSessionAccount, throw_if,
    AUTHORITY_HEADER_SIZE, SESSION_HEADER_SIZE, read_le. split.
  - destruct (Nat.ltb_spec (length data) 48); [done|]. rewrite !bind_ok.
    rewrite !byte_field, !bytes_field_ok, !uint_field_ok, !bind_ok by lia.
    destruct (key_field data 16) as (a & -> & ->); [lia|]. done.
  - destruct (Nat.ltb_spec (length data) 80); [done|]. rewrite !bind_ok.
    rewrite !byte_field, !bytes_field_ok, !uint_field_ok, !bind_ok by lia.
    destruct (key_field data 8) as (a & -> & ->); [lia|]. destruct (key_field data 40) as (b & -> & ->); [lia|]. done.
Qed.
End same_accounts.

(** ** Examples *)
Import ConcreteKit.

#[export] Instance concrete_keys : Web3Keys (K := kit) := {| new_PublicKey := address_decode |}.
#[export] Instance concrete_keys_laws : Web3KeysLaws (K := kit) concrete_keys.
Proof. by split. Qed.

(** A recurring limit of 100 per 50 slots, of which 30 are spent. *)
Definition sample_buffer : bytes :=
  [u8 2] ++ le_split 2 32 ++ le_split 8 900 ++ le_split 8 100 ++ le_split 8 30 ++ le_split 8 50 ++ le_split 8 700.

Lemma policy_read_back_witness :
  ∃ p, parseActions sample_buffer = Ok [p] ∧ pa_limit p = Some 100 ∧ pa_spent p = Some 30.
Proof.
  destruct (policy_read_back sample_buffer [mkView SolRecurringLimit 900 11 32]) as (l & Hl & Hall);
    [vm_compute; reflexivity | constructor; [reflexivity | constructor] |].
  apply Forall2_cons_inv_l in Hall as (p & l' & (_ & _ & _ & H1 & H2 & _) & Hnil & ->).
  apply Forall2_nil_inv_l in Hnil as ->. exists p. split; [exact Hl|]. split; [exact H1 | exact H2].
Defined.

(** A limit of -1 is refused by one SDK and means no limit in the other. *)
Lemma action_sdks_agree_witness :
  is_ok (Actions.serializeActions [SolLimitAction (K := kit) (-1) None]) = false
  ∧ Actions.serializeActions [SolLimitAction (K := kit) (2 ^ 64 - 1) None]
    = Ok (serializeActions [SolLimitAction (K := kit) (-1) None]).
Proof. exact (proj2 (action_sdks_agree [SolLimitAction (K := kit) (-1) None]) eq_refl). Defined.
