(* ===== verification/LegacyReads.v ===== *)
(** * The web3.js SDK: the reads of a passkey challenge

    Models src/sdk/sdk-legacy/src/utils/challengeReads.ts.  Its
    [ChallengeReadGroup] is the kit SDK's, and its state is the [world] of
    [ChallengeReads]; what differs is what the connection answers and throws,
    how a lagging node is recognised, and which commitment is read at.  The
    theorem at the end: every run of these reads is a run of the kit SDK's
    reads, so that what is shown of those holds here. *)
From S2P Require Import Prelude Bytes Kit Constants Accounts ChallengeReads.
Local Open Scope Z_scope.

(** ** Commitments *)

(** web3.js's [Commitment], with the deprecated names. *)
Inductive Web3Commitment :=
  | W3Processed | W3Confirmed | W3Finalized | W3Recent | W3Single | W3SingleGossip | W3Root | W3Max.

#[export] Instance Web3Commitment_eq_dec : EqDecision Web3Commitment.
Proof. solve_decision. Defined.

Definition CHALLENGE_READ_COMMITMENT : Web3Commitment := W3Confirmed.
Definition MIN_CONTEXT_SLOT_WAIT_MS : Z := 10000.
Definition FINALIZED_MIN_CONTEXT_SLOT_WAIT_MS : Z := 30000.

(** [own] is [connection.commitment]. *)
Definition defaultChallengeCommitment (own : option Web3Commitment) : Web3Commitment :=
  if bool_decide (own = Some W3Processed) || bool_decide (own = Some W3Recent)
  then W3Processed else CHALLENGE_READ_COMMITMENT.

Definition minContextSlotWaitMs (commitment : Web3Commitment) : Z :=
  if bool_decide (commitment = W3Finalized) || bool_decide (commitment = W3Max)
     || bool_decide (commitment = W3Root)
  then FINALIZED_MIN_CONTEXT_SLOT_WAIT_MS else MIN_CONTEXT_SLOT_WAIT_MS.

Record ChallengeReadOptions := mkOptions {
  o_commitment : option Web3Commitment;
  o_minContextSlot : option Z;
}.

Record ReadConfig := mkConfig {
  commitment : Web3Commitment;
  minContextSlot : option Z;
}.

Definition challengeReadConfig (own : option Web3Commitment) (opts : option ChallengeReadOptions) :
    ReadConfig :=
  mkConfig (default (defaultChallengeCommitment own) (opts ≫= o_commitment)) (opts ≫= o_minContextSlot).

(** ** A node that is behind *)

(** [s.toLowerCase()], on ASCII. *)
Definition lower_ascii (c : Ascii.ascii) : Ascii.ascii :=
  let n := Ascii.nat_of_ascii c in
  if (65 <=? n)%nat && (n <=? 90)%nat then Ascii.ascii_of_nat (n + 32) else c.
Definition toLowerCase (s : string) : string :=
  String.string_of_list_ascii (lower_ascii <$> String.list_ascii_of_string s).
(** [s.includes(part)]. *)
Definition includes (part s : string) : bool :=
  match String.index 0 part s with Some _ => true | None => false end.

Definition MIN_CONTEXT_SLOT_NOT_REACHED : Z := -32016.

(** By the code, which [E_MIN_CONTEXT_SLOT] stands for, or by the message of an
    error that lost it. *)
Definition minContextSlotNotReached (e : error) : bool :=
  match e with
  | ERpc code message =>
    bool_decide (code = Some MIN_CONTEXT_SLOT_NOT_REACHED)
    || includes "minimum context slot has not been reached" (toLowerCase message)
  | e => is_min_context_slot e
  end.

(** ** The reads *)
Section reads.
Context `{K : Kit}.

(** web3.js's [AccountInfo<Buffer>]. *)
Record AccountInfo := mkInfo { ai_owner : address; ai_lamports : Z; ai_data : bytes }.

(** What the connection answers: [getAccountInfoAndContext]'s value, or
    [getSlot]'s. *)
Inductive answer := AAccount (value : option AccountInfo) | ASlot (slot : Z).

(** [readAuthorityAccount], and the check its callers make first. *)
Definition authority_data (r : answer) : result bytes :=
  match r with
  | AAccount (Some info) => Ok (ai_data info)
  | AAccount None => Throw EAuthorityNotFound
  | ASlot _ => Throw (EExternal "reply")
  end.

Definition readChallengeCounter (r : answer) : result Z :=
  data ← authority_data r;
  (throw! EAccountTooShort (length data) 12 when (length data <? 12)%nat;
   readU32 data 8)%js.

Definition readChallengeKey (r : answer) : result bytes :=
  data ← authority_data r;
  (throw! EAccountTooShort (length data) 113 when (length data <? 113)%nat;
   throw! ENotAuthority when negb (byte_is data 0 DISC_AUTHORITY);
   throw! ENotSecp256r1 when negb (byte_is data 1 1);
   Ok (slice 80 (80 + 33) data))%js.

Definition readChallengeSlot (r : answer) : result Z :=
  match r with ASlot s => Ok s | AAccount _ => Throw (EExternal "reply") end.

Definition finish_read (kind : reader) (r : answer) : result rvalue :=
  match kind with
  | ReadKey => VKey <$> readChallengeKey r
  | ReadSlot => VSlot <$> readChallengeSlot r
  | ReadCounter => VCounter <$> readChallengeCounter r
  end.

(** The body of [atOrAfterContextSlot]'s loop, on what [read()] gave. *)
Definition atOrAfterContextSlot (config : ReadConfig) (stopped : bool) (time : Z) (r : rd) (attempt : Z)
    (got : result answer) : phase :=
  match got with
  | Ok a => match finish_read (rd_kind r) a with Ok v => Settled (Ok v) | Throw e => Rejected e end
  | Throw e =>
    match minContextSlot config with
    | None => Rejected e
    | Some floor =>
      if negb (minContextSlotNotReached e) then Rejected e
      else if stopped then Rejected e
      else
        let waitedMs := time - rd_started r in
        let delay := backoff attempt in
        if minContextSlotWaitMs (commitment config) <? waitedMs + delay
        then Rejected (EMinContextSlot floor waitedMs)
        else Asleep attempt (time + delay) e
    end
  end.

(** What happens next, as in [ChallengeReads.event]. *)
Inductive event :=
  | Answered (i : nat) (got : result answer)
  | Fired (i : nat)
  | Resumed (i : nat)
  | Caught (i : nat)
  | Passed (ms : Z).

Definition step (config : ReadConfig) (w : world) (ev : event) : option world :=
  match ev with
  | Passed ms => if 0 <=? ms then Some (mkWorld (now w + ms) (isStopped w) (firstFailure w) (readers w))
                 else None
  | Answered i got =>
      r ← readers w !! i;
      match rd_phase r with
      | Reading attempt =>
          Some (set_reader i (atOrAfterContextSlot config (isStopped w) (now w) r attempt got) w)
      | _ => None
      end
  | Fired i =>
      r ← readers w !! i;
      match rd_phase r with
      | Asleep attempt until e => if until <=? now w then Some (set_reader i (Awake attempt e) w) else None
      | _ => None
      end
  | Resumed i =>
      r ← readers w !! i;
      match rd_phase r with
      | Awake attempt e => Some (set_reader i (if isStopped w then Rejected e else Reading (attempt + 1)) w)
      | _ => None
      end
  | Caught i =>
      r ← readers w !! i;
      match rd_phase r with
      | Rejected e => Some (stop e (set_reader i (Settled (Throw e)) w))
      | _ => None
      end
  end.

Fixpoint run (config : ReadConfig) (w : world) (evs : list event) : option world :=
  match evs with
  | [] => Some w
  | ev :: evs => w' ← step config w ev; run config w' evs
  end.

Inductive reaches (config : ReadConfig) (w : world) : world → Prop :=
  | reaches_refl : reaches config w w
  | reaches_step w' w'' ev : reaches config w w' → step config w' ev = Some w'' → reaches config w w''.
End reads.

(** ** The kit SDK's reads *)
Section simulation.
Context `{KL : KitLaws}.

(** The level a commitment names. *)
Definition kit_commitment (c : Web3Commitment) : Commitment :=
  match c with
  | W3Processed | W3Recent => Processed
  | W3Confirmed | W3Single | W3SingleGossip => Confirmed
  | W3Finalized | W3Root | W3Max => Finalized
  end.

(** How far behind the tip a level reads. *)
Definition staleness (c : Commitment) : Z :=
  match c with Processed => 0 | Confirmed => 1 | Finalized => 2 end.

Definition kit_options (own : option Web3Commitment) (o : ChallengeReadOptions) :
    ChallengeReads.ChallengeReadOptions :=
  ChallengeReads.mkOptions (Some (kit_commitment (default (defaultChallengeCommitment own) (o_commitment o))))
    (o_minContextSlot o).

Definition kit_config (c : ReadConfig) : ChallengeReads.ReadConfig :=
  ChallengeReads.mkConfig (kit_commitment (commitment c)) (minContextSlot c).

(** The same answers and errors, as @solana/kit reports them. *)
Definition kit_view (i : AccountInfo) : AccountView := view_of_bytes (ai_owner i) (ai_lamports i) (ai_data i).
Definition kit_reply (a : answer) : reply :=
  match a with AAccount v => RAccount (kit_view <$> v) | ASlot s => RSlot s end.
Definition kit_error (e : error) : error := if minContextSlotNotReached e then E_MIN_CONTEXT_SLOT else e.
Definition kit_result {A B} (f : A → B) (r : result A) : result B :=
  match r with Ok a => Ok (f a) | Throw e => Throw (kit_error e) end.

Definition kit_event (ev : event) : ChallengeReads.event :=
  match ev with
  | Answered i got => Answer i (kit_result kit_reply got)
  | Fired i => Timer i
  | Resumed i => Resume i
  | Caught i => Catch i
  | Passed ms => Tick ms
  end.

Definition kit_phase (p : phase) : phase :=
  match p with
  | Reading a => Reading a
  | Asleep a u e => Asleep a u (kit_error e)
  | Awake a e => Awake a (kit_error e)
  | Rejected e => Rejected (kit_error e)
  | Settled r => Settled (kit_result id r)
  end.
Definition kit_rd (r : rd) : rd := mkRd (rd_kind r) (rd_started r) (kit_phase (rd_phase r)).
Definition kit_world (w : world) : world :=
  mkWorld (now w) (isStopped w) (kit_error <$> firstFailure w) (kit_rd <$> readers w).

Lemma is_min_kit_error e : is_min_context_slot (kit_error e) = minContextSlotNotReached e.
Proof. unfold kit_error. destruct (minContextSlotNotReached e) eqn:H; [done|]. by destruct e. Qed.

Lemma decode_kit_view i : decodeBase64 (av_data (kit_view i)) = Ok (ai_data i).
Proof. apply decodeBase64_view. Qed.

Lemma authority_data_agrees a : authority_bytes (kit_reply a) = authority_data a.
Proof. destruct a as [[i|]|]; [apply decode_kit_view|done..]. Qed.

Lemma finish_agrees k a : finish k (kit_reply a) = finish_read k a.
Proof.
  destruct k; cbn [finish finish_read]; f_equal.
  - unfold ChallengeReads.readChallengeKey. by rewrite authority_data_agrees.
  - by destruct a.
  - unfold ChallengeReads.readChallengeCounter. by rewrite authority_data_agrees.
Qed.

(** Only the connection throws an [ERpc]. *)
Lemma finish_error k a e : finish_read k a = Throw e → kit_error e = e.
Proof.
  destruct k, a as [[i|]|s]; cbn; try (by intros [= <-]).
  all: unfold readChallengeKey, readChallengeCounter, authority_data, throw_if, readU32, getUint; rewrite ?bind_ok.
  all: repeat (case_match; rewrite ?bind_ok; cbn in *; simplify_eq); intros; simplify_eq; try done.
Qed.

Lemma wait_agrees c : ChallengeReads.minContextSlotWaitMs (kit_commitment c) = minContextSlotWaitMs c.
Proof. by destruct c. Qed.

Lemma answer_agrees config stopped time r attempt got :
  on_answer (kit_config config) stopped time (kit_rd r) attempt (kit_result kit_reply got)
  = kit_phase (atOrAfterContextSlot config stopped time r attempt got).
Proof.
  destruct got as [a|e]; cbn [kit_result on_answer atOrAfterContextSlot].
  - cbn [kit_rd rd_kind]. rewrite finish_agrees. destruct (finish_read (rd_kind r) a) as [v|e] eqn:Hf; [done|].
    cbn [kit_phase]. by rewrite (finish_error _ _ _ Hf).
  - cbn [kit_config ChallengeReads.minContextSlot ChallengeReads.commitment].
    destruct (minContextSlot config) as [floor|]; [|done]. rewrite is_min_kit_error.
    destruct (minContextSlotNotReached e); [|done]. cbn [negb]. destruct stopped; [done|].
    rewrite wait_agrees. by destruct (_ <? _).
Qed.

Lemma set_reader_agrees i p w : kit_world (set_reader i p w) = set_reader i (kit_phase p) (kit_world w).
Proof.
  unfold kit_world, set_reader. cbn [now isStopped firstFailure readers]. f_equal.
  apply list_eq. intros j. rewrite list_lookup_fmap. destruct (decide (i = j)) as [<-|Hne].
  - rewrite !list_lookup_alter_eq, list_lookup_fmap. by destruct (readers w !! i).
  - by rewrite !list_lookup_alter_ne, list_lookup_fmap by done.
Qed.

Lemma stop_agrees e w : kit_world (stop e w) = stop (kit_error e) (kit_world w).
Proof.
  unfold stop. cbn [kit_world isStopped]. destruct (isStopped w); [done|].
  unfold kit_world. cbn [now isStopped firstFailure readers fmap option_fmap option_map]. f_equal.
  induction (readers w) as [|[k s p] l IH]; [done|]. rewrite !fmap_cons, IH. f_equal. by destruct p.
Qed.

Lemma reader_at w i : readers (kit_world w) !! i = kit_rd <$> readers w !! i.
Proof. apply list_lookup_fmap. Qed.

(** One step here is one step there. *)
Lemma step_agrees config w ev :
  ChallengeReads.step (kit_config config) (kit_world w) (kit_event ev)
  = kit_world <$> step config w ev.
Proof.
  destruct ev as [i got|i|i|i|ms]; cbn [kit_event ChallengeReads.step step].
  5: by destruct (0 <=? ms).
  all: rewrite reader_at; destruct (readers w !! i) as [[k s p]|]; [|done].
  all: cbn [fmap option_fmap option_map mbind option_bind kit_rd rd_phase]; destruct p; try done.
  all: cbn [kit_phase fmap option_fmap option_map].
  - f_equal. rewrite set_reader_agrees, <- answer_agrees. done.
  - cbn [kit_world now]. destruct (until <=? now w); [|done]. cbn [fmap option_fmap option_map]. by rewrite set_reader_agrees.
  - rewrite set_reader_agrees. cbn [kit_world isStopped]. by destruct (isStopped w).
  - by rewrite stop_agrees, set_reader_agrees.
Qed.

Lemma run_agrees config evs w :
  ChallengeReads.run (kit_config config) (kit_world w) (kit_event <$> evs) = kit_world <$> run config w evs.
Proof.
  revert w. induction evs as [|ev evs IH]; intros w; [done|].
  rewrite fmap_cons. cbn [ChallengeReads.run run]. rewrite step_agrees.
  destruct (step config w ev) as [w'|]; [|done]. by apply IH.
Qed.

Lemma config_agrees own o :
  ChallengeReads.challengeReadConfig (Some (kit_options own o)) = kit_config (challengeReadConfig own (Some o)).
Proof. done. Qed.

(** A reader that has not settled can move, at once or after its sleep. *)
Lemma reader_moves config w i r :
  readers w !! i = Some r → (∀ v, rd_phase r ≠ Settled v) →
  ∃ ev ms w1 w2, is_tick (kit_event ev) = false ∧ step config w (Passed ms) = Some w1 ∧ step config w1 ev = Some w2.
Proof.
  intros Hi Hr. assert (H0 : ∀ ev w2, is_tick (kit_event ev) = false → step config w ev = Some w2 →
    ∃ ev ms w1 w2, is_tick (kit_event ev) = false ∧ step config w (Passed ms) = Some w1 ∧ step config w1 ev = Some w2).
  { intros ev w2 Ht Hs. exists ev, 0, w, w2. split; [done|]. split; [|done].
    cbn. rewrite Z.add_0_r. by destruct w. }
  destruct (rd_phase r) as [a|a u e|a e|e|v] eqn:Hp; [..|by destruct (Hr v)].
  - eapply (H0 (Answered i (Throw (EExternal "")))); [done|]. cbn. by rewrite Hi; cbn; rewrite Hp.
  - exists (Fired i), (Z.max 0 (u - now w)), (mkWorld (now w + Z.max 0 (u - now w)) (isStopped w) (firstFailure w) (readers w)).
    eexists. split; [done|]. split; cbn.
    + by destruct (Z.leb_spec 0 (Z.max 0 (u - now w))); [|lia].
    + rewrite Hi. cbn. rewrite Hp. by destruct (Z.leb_spec u (now w + Z.max 0 (u - now w))); [|lia].
  - eapply (H0 (Resumed i)); [done|]. cbn. by rewrite Hi; cbn; rewrite Hp.
  - eapply (H0 (Caught i)); [done|]. cbn. by rewrite Hi; cbn; rewrite Hp.
Qed.

(** C22.  The web3.js SDK's challenge reads behave as the kit SDK's do.  Any run
    of them, whatever the connection answers or throws, is step for step a run
    of the kit reads at the same level and floor, so a stopped group is silent
    and polling is bounded here too; a run has at most 327 events besides the
    passing of time, and while a read has not settled something can happen.  The
    reads are made at the floor the caller gives and at the level it names,
    whatever the connection's; when it names none, at one never staler than the
    connection's own, nor than [confirmed]. *)
Theorem web3_reads_refine (own : option Web3Commitment) (o : ChallengeReadOptions) (have : Have) (t : Z)
    (w w' : world) (evs : list event) :
  let config := challengeReadConfig own (Some o) in
  readChallengeInputs have (new_group t) = Ok w → run config w evs = Some w' →
  ChallengeReads.run (ChallengeReads.challengeReadConfig (Some (kit_options own o))) w (kit_event <$> evs)
    = Some (kit_world w')
  ∧ (length (List.filter (λ ev, negb (is_tick (kit_event ev))) evs) <= 327)%nat
  ∧ (forallb is_settled (readers w') = true
     ∨ ∃ ev ms w1 w2, is_tick (kit_event ev) = false ∧ step config w' (Passed ms) = Some w1
         ∧ step config w1 ev = Some w2)
  ∧ minContextSlot config = o_minContextSlot o
  ∧ match o_commitment o with
    | Some named => commitment config = named
    | None => staleness (kit_commitment (commitment config))
                <= Z.min (staleness Confirmed) (staleness (kit_commitment (default W3Finalized own)))
    end.
Proof.
  intros config Hs Hrun.
  assert (Hk : ChallengeReads.run (kit_config config) w (kit_event <$> evs) = Some (kit_world w')).
  { rewrite <- (fmap_Some_2 kit_world _ _ Hrun). rewrite <- run_agrees. f_equal. 
    unfold readChallengeInputs in Hs. cbn in Hs. injection Hs as <-. unfold kit_world. cbn. f_equal.
    by destruct have as [[] []]. }
  split; [done|]. split.
  { pose proof (run_bounded _ _ _ _ _ _ Hs Hk) as Hle. etransitivity; [|exact Hle].
    apply Nat.eq_le_incl. clear. induction evs as [|ev evs IH]; [done|]. cbn. destruct (is_tick _); cbn; by rewrite IH. }
  split; [|split; [done|]; unfold config; cbn; by destruct (o_commitment o), own as [[]|]].
  destruct (forallb is_settled (readers w')) eqn:E; [by left|right].
  assert (Hex : ∃ r, r ∈ readers w' ∧ is_settled r = false).
  { revert E. induction (readers w') as [|r l IH]; [done|]. cbn. destruct (is_settled r) eqn:Er.
    - intros (r' & Hr & Hs')%IH. exists r'. split; [by right|done].
    - intros _. exists r. split; [by left|done]. }
  destruct Hex as (r & [i Hi]%list_elem_of_lookup & Hns). eapply reader_moves; [done|].
  intros v Hv. unfold is_settled in Hns. by rewrite Hv in Hns.
Qed.
End simulation.

Import ConcreteKit.

(** On a connection at [processed]: the slot read is told to wait by a message
    without its code, then the counter read fails for good. *)
Definition web3_have : Have := mkHave (Some (zeros 33)) None.
Definition web3_events : list (@event kit) :=
  [Answered 0 (Throw (ERpc None "failed to get slot: Minimum context slot has not been reached"));
   Passed 100; Fired 0; Resumed 0; Answered 0 (Ok (ASlot 5001));
   Answered 1 (Throw (ERpc (Some (-32005)) "Node is behind")); Caught 1].
Definition web3_end : world :=
  mkWorld 100 true (Some (ERpc (Some (-32005)) "Node is behind"))
    [mkRd ReadSlot 0 (Settled (Ok (VSlot 5001)));
     mkRd ReadCounter 0 (Settled (Throw (ERpc (Some (-32005)) "Node is behind")))].

Lemma web3_reads_refine_witness :
  run (challengeReadConfig (Some W3Processed) (Some (mkOptions None (Some 5000))))
      (mkWorld 0 false None (start_reader 0 <$> [ReadSlot; ReadCounter])) web3_events = Some web3_end
  ∧ (length (List.filter (λ ev, negb (is_tick (kit_event ev))) web3_events) <= 327)%nat.
Proof.
  assert (Hrun : run (challengeReadConfig (Some W3Processed) (Some (mkOptions None (Some 5000))))
      (mkWorld 0 false None (start_reader 0 <$> [ReadSlot; ReadCounter])) web3_events = Some web3_end)
    by (vm_compute; reflexivity).
  split; [exact Hrun|].
  exact (proj1 (proj2 (web3_reads_refine (K := kit) (Some W3Processed) (mkOptions None (Some 5000)) web3_have 0
    _ _ web3_events eq_refl Hrun))).
Defined.
