(* ===== verification/LegacyCalls.v ===== *)
(** * The web3.js SDK: calls of the client, and what it is for two to agree

    What a [LazorKitClient] of src/sdk/sdk-legacy asks its connection
    ([Web3Env]), the monad its methods run in, and the relation [agree]: a
    method of this SDK does to its caches and returns what the kit SDK's method
    does when the same node answers it.  The rules after the relation follow the
    constructs the methods are written with. *)
From S2P Require Import Prelude Bytes Kit Constants JsMap Signing ChallengeReads Client WorkerPool.
From S2P Require Import LegacyWeb3 LegacyReads.
Local Open Scope Z_scope.

Create HintDb agree.

Section calls.
Context `{K : Kit}.

(** [_protocolConfig] and [_registeredPayers] (base58 texts) of the client;
    [l_asked] counts the questions put to the outside. *)
Record web3_client := mkWeb3Client {
  l_protocolConfig : option (option ProtocolConfigView);
  l_registeredPayers : list string;
  l_asked : nat;
}.

(** What the connection answers; a [minContextSlot] of [None] is [undefined]. *)
Record Web3Env := mkWeb3Env {
  l_getAccountInfo : nat → address → result (option AccountInfo);
  l_getSlot : nat → result Z;
  l_getMultipleAccounts : nat → list address → option Z → result (Z * list (option AccountInfo));
  l_getProgramAccounts : nat → address → list (nat * bytes) → option Z →
    result (Z * list (address * AccountInfo));
  l_getTokenAccountsByOwner : nat → address → address → option Z →
    result (Z * list (address * AccountInfo));
  l_randomBytes : nat → nat → bytes;
  l_now : nat → Z;
  l_schedule : nat → list LegacyReads.event;
  l_second_first : nat → bool;
  l_settles : nat → nat;
  l_commitment : option Web3Commitment;
  l_rpcEndpoint : string;
}.

Definition L (A : Type) : Type := web3_client → web3_client * result A.

#[export] Instance L_ret : MRet L := λ A a c, (c, Ok a).
#[export] Instance L_bind : MBind L := λ A B f m c,
  match m c with (c, Ok a) => f a c | (c, Throw e) => (c, Throw e) end.

Definition lift3 {A} (r : result A) : L A := λ c, (c, r).
Definition modify3 (f : web3_client → web3_client) : L unit := λ c, (f c, Ok ()).
Definition get3 : L web3_client := λ c, (c, Ok c).
Definition ask3 : L nat := λ c,
  (mkWeb3Client (l_protocolConfig c) (l_registeredPayers c) (S (l_asked c)), Ok (l_asked c)).

Variable env : Web3Env.

(** [Promise.all] of two calls, as [Client.both]. *)
Definition both3 {A B} (a : L A) (b : L B) : L (A * B) := λ c,
  let '(c, n) := (mkWeb3Client (l_protocolConfig c) (l_registeredPayers c) (S (l_asked c)), l_asked c) in
  let '(c, ra) := a c in
  let '(c, rb) := b c in
  (c, match ra, rb with
      | Ok x, Ok y => Ok (x, y)
      | Throw e, Ok _ | Ok _, Throw e => Throw e
      | Throw e, Throw e' => Throw (if l_second_first env n then e' else e)
      end).

Definition settled3 {A} (m : L A) : L (result A) := λ c, let '(c', r) := m c in (c', Ok r).

(** The raw calls. *)
Definition getAccountInfo3 (a : address) : L (option AccountInfo) :=
  n ← ask3; lift3 (l_getAccountInfo env n a).
Definition getSlot3 : L Z := n ← ask3; lift3 (l_getSlot env n).
Definition getMultipleAccounts3 (keys : list address) (minContextSlot : option Z) :
    L (Z * list (option AccountInfo)) := n ← ask3; lift3 (l_getMultipleAccounts env n keys minContextSlot).
Definition getProgramAccounts3 (program : address) (filters : list (nat * bytes)) (minContextSlot : option Z) :
    L (Z * list (address * AccountInfo)) :=
  n ← ask3; lift3 (l_getProgramAccounts env n program filters minContextSlot).
Definition getTokenAccountsByOwner3 (vault tokenProgram : address) (minContextSlot : option Z) :
    L (Z * list (address * AccountInfo)) :=
  n ← ask3; lift3 (l_getTokenAccountsByOwner env n vault tokenProgram minContextSlot).
End calls.

(** ** The same node, through the other library *)
Section agreement.
Context `{KL : KitLaws}.

(** The caches of a kit client, as this client has them. *)
Definition web3_of (c : client) : web3_client :=
  mkWeb3Client (_protocolConfig c) (address_string <$> _registeredPayers c) (asked c).

(** @solana/kit recognises the lagging node by the code alone. *)
Definition coded_error (e : error) : error :=
  match e with
  | ERpc code _ => if bool_decide (code = Some MIN_CONTEXT_SLOT_NOT_REACHED) then E_MIN_CONTEXT_SLOT else e
  | e => e
  end.
Definition coded {A B} (f : A → B) (r : result A) : result B :=
  match r with Ok a => Ok (f a) | Throw e => Throw (coded_error e) end.

Definition kit_info (i : option AccountInfo) : option AccountView := kit_view <$> i.
Definition kit_infos (answer : Z * list (option AccountInfo)) : Z * list (option AccountView) :=
  (answer.1, kit_info <$> answer.2).
Definition kit_entry (entry : address * AccountInfo) : address * AccountView := (entry.1, kit_view entry.2).
Definition kit_rows (answer : Z * list (address * AccountInfo)) : Z * list (address * AccountView) :=
  (answer.1, kit_entry <$> answer.2).

Definition kit_env (env : Web3Env) : Env :=
  mkEnv (λ n a, coded kit_info (l_getAccountInfo env n a))
    (l_randomBytes env) (l_now env) (λ n, (kit_event <$> l_schedule env n : list _)) (l_second_first env)
    (λ n, coded id (l_getSlot env n))
    (λ n l m, coded kit_infos (l_getMultipleAccounts env n l m))
    (λ n p f m, coded kit_rows (l_getProgramAccounts env n p f m))
    (λ n v p m, coded kit_rows (l_getTokenAccountsByOwner env n v p m))
    (l_settles env).

(** ** Agreement *)

(** [e'] is what the kit SDK has for [e]: the same error, the other library's
    name for the node being behind, or the other library's own exception. *)
Definition same_error (e' e : error) : Prop :=
  e' = e ∨ (minContextSlotNotReached e = true ∧ e' = E_MIN_CONTEXT_SLOT)
  ∨ ∃ tag' tag, e' = EExternal tag' ∧ e = EExternal tag.

Inductive same_result {A B} (R : A → B → Prop) : result A → result B → Prop :=
  | same_ok a b : R a b → same_result R (Ok a) (Ok b)
  | same_throw e' e : same_error e' e → same_result R (Throw e') (Throw e).

(** The kit method [m] and the web3.js method [l]: the same effect on the
    caches, and results that [R] relates or the same error.  Where [strict] is
    [false] the web3.js method may instead throw a [RangeError]: a number does
    not fit its field, which a [DataView] wraps and a [Buffer] refuses. *)
Definition agree {A B} (strict : bool) (R : A → B → Prop) (m : M A) (l : L B) : Prop := ∀ c,
  (strict = false ∧ (l (web3_of c)).2 = Throw ERangeError)
  ∨ ((l (web3_of c)).1 = web3_of (m c).1 ∧ same_result R (m c).2 (l (web3_of c)).2).

Lemma same_error_refl e : same_error e e.
Proof. by left. Qed.

Lemma same_error_coded e : same_error (coded_error e) e.
Proof.
  destruct e; try (by left). unfold coded_error. case_bool_decide as H; [|by left].
  right. left. split; [|done]. cbn. by rewrite (bool_decide_eq_true_2 _ H).
Qed.

Lemma same_error_kit e : same_error (kit_error e) e.
Proof. unfold kit_error. destruct (minContextSlotNotReached e) eqn:H; [right; by left|by left]. Qed.

Lemma same_external {A B} (R : A → B → Prop) tag' tag (o : option A) (o' : option B) :
  option_Forall2 R o o' → same_result R (of_option (EExternal tag') o) (of_option (EExternal tag) o').
Proof. intros [x y H|]; constructor; [done|]. right. right. by eexists _, _. Qed.

Lemma same_refl {A} (r : result A) : same_result eq r r.
Proof. destruct r; constructor; [done|apply same_error_refl]. Qed.

Lemma same_coded {A B} (f : A → B) (R : B → A → Prop) r : (∀ a, R (f a) a) → same_result R (coded f r) r.
Proof. intros H. destruct r; constructor; [apply H|apply same_error_coded]. Qed.

Lemma same_fmap {A B C D} (R : A → B → Prop) (S : C → D → Prop) (f : A → C) (g : B → D) r s :
  same_result R r s → (∀ a b, R a b → S (f a) (g b)) → same_result S (f <$> r) (g <$> s).
Proof. intros [a b H|e' e H] HS; constructor; auto. Qed.

Lemma same_bind {A B C D} (R : A → B → Prop) (S : C → D → Prop) (f : A → result C) (g : B → result D) r s :
  same_result R r s → (∀ a b, R a b → same_result S (f a) (g b)) → same_result S (r ≫= f) (s ≫= g).
Proof. intros [a b H|e' e H] HS; [by apply HS|by constructor]. Qed.

Lemma same_weaken {A B} (R S : A → B → Prop) r s :
  same_result R r s → (∀ a b, R a b → S a b) → same_result S r s.
Proof. intros [a b Hr|e e2 He] HS; constructor; auto. Qed.

Lemma same_mapR {A B C D} (R : A → B → Prop) (S : C → D → Prop) (f : A → result C) (g : B → result D) l k :
  Forall2 R l k → (∀ a b, R a b → same_result S (f a) (g b)) → same_result (Forall2 S) (mapR f l) (mapR g k).
Proof.
  intros Hl H. induction Hl as [|a b l k Hab _ IH]; [by repeat constructor|]. cbn [mapR].
  eapply same_bind; [by apply H|]. intros c d Hcd. eapply same_bind; [exact IH|]. intros cs ds Hs.
  by repeat constructor.
Qed.

(** The rules. *)
Lemma agree_ret {A B} b (R : A → B → Prop) x y : R x y → agree b R (mret x) (mret y).
Proof. intros H c. right. split; [done|]. by constructor. Qed.

Lemma agree_lift {A B} b (R : A → B → Prop) r s : same_result R r s → agree b R (lift r) (lift3 s).
Proof. intros H c. by right. Qed.

(** What only this SDK checks. *)
Lemma agree_range {A B} (R : A → B → Prop) m l :
  agree false R m l → ∀ ok : bool, agree false R m (if ok then l else lift3 (Throw ERangeError)).
Proof. intros H []; [done|]. intros c. by left. Qed.

Lemma agree_bind {A B C D} b (R : A → B → Prop) (S : C → D → Prop) m l f g :
  agree b R m l → (∀ x y, R x y → agree b S (f x) (g y)) → agree b S (m ≫= f) (l ≫= g).
Proof.
  intros H HS c. unfold mbind, M_bind, L_bind. specialize (H c).
  destruct (m c) as [c1 r], (l (web3_of c)) as [l1 s]. cbn [fst snd] in H.
  destruct H as [[Hb ->]|[-> Hr]]; [by left|]. destruct Hr as [x y Hxy|e' e He]; [by apply HS|].
  right. split; [done|]. by constructor.
Qed.

Lemma agree_weaken {A B} b (R S : A → B → Prop) m l :
  agree b R m l → (∀ x y, R x y → S x y) → agree b S m l.
Proof. intros H HS c. destruct (H c) as [|[? Hr]]; [by left|right]. split; [done|]. by eapply same_weaken. Qed.

Lemma agree_strict {A B} (R : A → B → Prop) m l : agree true R m l → agree false R m l.
Proof. intros H c. destruct (H c) as [[? _]|]; [done|by right]. Qed.

Lemma agree_ask b : agree b eq ask ask3.
Proof. intros c. right. split; [done|]. by constructor. Qed.

Lemma agree_get b : agree b (λ c l, l = web3_of c) get get3.
Proof. intros c. right. split; [done|]. by constructor. Qed.

Lemma agree_modify b f g : (∀ c, g (web3_of c) = web3_of (f c)) → agree b eq (modify f) (modify3 g).
Proof. intros H c. right. split; [apply H|]. by constructor. Qed.

(** Neither call may throw a [RangeError]: which error is seen depends on both. *)
Lemma agree_both {A B C D} env (R : A → B → Prop) (S : C → D → Prop) m l m' l' :
  agree true R m l → agree true S m' l' →
  agree true (λ x y, R x.1 y.1 ∧ S x.2 y.2) (both (kit_env env) m m') (both3 env l l').
Proof.
  intros H H' c. right. unfold both, both3.
  set (c0 := mkClient _ _ _). change (mkWeb3Client _ _ _) with (web3_of c0).
  specialize (H c0). destruct (m c0) as [c1 r], (l (web3_of c0)) as [l1 s]. cbn [fst snd] in H.
  destruct H as [[? _]|[-> Hr]]; [done|].
  specialize (H' c1). destruct (m' c1) as [c2 r'], (l' (web3_of c1)) as [l2 s']. cbn [fst snd] in H'.
  destruct H' as [[? _]|[-> Hr']]; [done|]. split; [done|]. cbn [snd].
  destruct Hr, Hr'; constructor; try done. cbn. by destruct (l_second_first env _).
Qed.

Lemma agree_mapM {A B C D} b (R : A → B → Prop) (S : C → D → Prop) (f : A → M C) (g : B → L D) l k :
  Forall2 R l k → (∀ x y, R x y → agree b S (f x) (g y)) → agree b (Forall2 S) (mapM f l) (mapM g k).
Proof.
  intros Hl H. induction Hl as [|x y l k Hxy _ IH]; [by apply agree_ret|]. cbn [mapM].
  eapply agree_bind; [by apply H|]. intros u v Huv. eapply agree_bind; [exact IH|]. intros us vs Hs.
  apply agree_ret. by constructor.
Qed.

Lemma agree_if {A B} b (R : A → B → Prop) (x y : bool) m l m' l' :
  x = y → agree b R m l → agree b R m' l' → agree b R (if x then m else m') (if y then l else l').
Proof. intros <- ? ?. by destruct x. Qed.

(** The raw calls, on the same node. *)
Variable env : Web3Env.
Abbreviation kenv := (kit_env env).

Definition same_info (v : option AccountView) (i : option AccountInfo) : Prop := v = kit_info i.
Definition same_infos (v : Z * list (option AccountView)) (i : Z * list (option AccountInfo)) : Prop :=
  v = kit_infos i.
Definition same_rows (v : Z * list (address * AccountView)) (i : Z * list (address * AccountInfo)) : Prop :=
  v = kit_rows i.

Lemma agree_getAccountInfo b a : agree b same_info (rpc_getAccountInfo kenv a) (getAccountInfo3 env a).
Proof. eapply agree_bind; [apply agree_ask|]. intros n ? <-. by apply agree_lift, same_coded. Qed.
End agreement.

#[export] Hint Resolve agree_ret agree_lift agree_ask agree_get agree_both agree_getAccountInfo same_refl : agree.
