(* ===== verification/LegacyOwnership.v ===== *)
(** * The web3.js SDK: ownership proofs and message challenges

    Models the pure half of src/sdk/sdk-legacy/src/utils/ownership.ts (the
    challenges, the verification of an assertion, the recovery of a key, the
    choice of a wallet) and signedMessage.ts.  The records are those of
    [Ownership]: the two SDKs declare the same fields. *)
From S2P Require Import Prelude Bytes Kit Constants Builders Signing Json Ownership LegacyWeb3.
Local Open Scope Z_scope.

Definition OWNERSHIP_PROOF_DOMAIN : string := "LazorKit ownership proof v1".
Definition OWNERSHIP_PROOF_TAG : bytes := utf8 OWNERSHIP_PROOF_DOMAIN.
Definition OWNERSHIP_PROOF_NONCE_LENGTH : nat := 32.
Definition SIGNED_MESSAGE_DOMAIN : string := "LazorKit signed message v1".
Definition SIGNED_MESSAGE_TAG : bytes := utf8 SIGNED_MESSAGE_DOMAIN.

(** [randomBytes] of @noble/hashes. *)
Definition createOwnershipChallenge (randomBytes : nat → bytes) : bytes := randomBytes 32%nat.

Definition createTaggedOwnershipChallenge (randomBytes : nat → bytes) : bytes :=
  concatBytes [OWNERSHIP_PROOF_TAG; randomBytes OWNERSHIP_PROOF_NONCE_LENGTH].

Definition SIGNATURE_FORMATS : list sig_format := [Der; CompactSig].

(** [for (let i = 0; i < a.length; i++) if (a[i] !== b[i]) return false]. *)
Fixpoint same_bytes (a b : bytes) : bool :=
  match a, b with
  | x :: a, y :: b => if negb (val x =? val y) then false else same_bytes a b
  | _, _ => true
  end.
Definition bytesEqual (a b : bytes) : bool :=
  if negb (length a =? length b)%nat then false else same_bytes a b.

Section ownership.
Context `{K : Kit}.

Definition signedMessageChallenge (message : SignedMessageInput) : result bytes :=
  bytes ← messageBytes message;
  Ok (concatBytes [SIGNED_MESSAGE_TAG; sha256 (concatBytes [SIGNED_MESSAGE_TAG; bytes])]).

Definition rpIdHashOf (rpId : string) : bytes := sha256 (utf8 rpId).

Definition base64UrlNoPad (b : bytes) : bytes :=
  strip_trailing_eq (url_char <$> utf8 (base64_text b)).

(** [typeof clientData !== 'object' || clientData === null]. *)
Definition not_an_object (v : json) : bool :=
  match v with JObj _ | JArr _ => false | _ => true end.

(** [const { name } = v] of an object: [undefined] when it has none. *)
Definition member (v : json) (name : bytes) : option json :=
  match v with JObj ms => snd <$> List.find (λ m, Bytes.bytesEqual (fst m) name) (reverse ms) | _ => None end.

(** The text is decoded by [Buffer], which keeps a byte-order mark. *)
Definition assertionDigest (proof : OwnershipProof) (rpId : string) : option bytes :=
  if (length (challenge proof) <? 16)%nat then None else
  match json_parse (clientDataJson proof) with
  | None => None
  | Some clientData =>
    if not_an_object clientData then None
    else if negb (is_string (member clientData (lit "type")) (lit "webauthn.get")) then None
    else if negb (is_string (member clientData (lit "challenge")) (base64UrlNoPad (challenge proof))) then None
    else if (length (authenticatorData proof) <? 37)%nat then None
    else if negb (bytesEqual (slice 0 32 (authenticatorData proof)) (rpIdHashOf rpId)) then None
    else if Z.land (val (authenticatorData proof !!! 32%nat)) 0x01 =? 0 then None
    else Some (sha256 (concatBytes [authenticatorData proof; sha256 (clientDataJson proof)]))
  end.

Definition p256Verifies (sig message publicKey : bytes) : bool :=
  existsb (λ format, match p256_verify format sig message publicKey with
                     | Some b => b | None => false end) SIGNATURE_FORMATS.

Definition verifyOwnershipProof {T} (publicKey : T → bytes) (candidates : list T)
    (proof : OwnershipProof) (rpId : string) : list T :=
  match assertionDigest proof rpId with
  | None => []
  | Some digest => List.filter (λ c, p256Verifies (signature proof) digest (publicKey c)) candidates
  end.

(** One recovery id of one reading of the signature. *)
Definition recovered (recover : nat → bytes → option bytes) (sig digest : bytes) (keys : list bytes)
    (recovery : nat) : list bytes :=
  match recover recovery digest with
  | None => keys
  | Some key =>
    if negb (length key =? 33)%nat then keys
    else if negb (p256Verifies sig digest key) then keys
    else if negb (existsb (λ k, bytesEqual k key) keys) then keys ++ [key] else keys
  end.

Definition recoverPasskeyPublicKeys (proof : OwnershipProof) (rpId : string) : list bytes :=
  match assertionDigest proof rpId with
  | None => []
  | Some digest =>
    fold_left (λ keys format, match p256_recover format (signature proof) with
                              | None => keys
                              | Some recover => fold_left (recovered recover (signature proof) digest) (seq 0 4) keys
                              end) SIGNATURE_FORMATS []
  end.

(** The double loop over the proofs: each against the later ones. *)
Fixpoint challenges_repeat (proofs : list OwnershipProof) : bool :=
  match proofs with
  | [] => false
  | p :: rest => existsb (λ q, bytesEqual (challenge p) (challenge q)) rest || challenges_repeat rest
  end.

Definition resolvePasskeyPublicKey (proofs : list OwnershipProof) (rpId : string) : option bytes :=
  match proofs with
  | first :: _ :: _ =>
    if challenges_repeat proofs then None
    else
      let common := fold_left (λ common proof,
          let keys := recoverPasskeyPublicKeys proof rpId in
          List.filter (λ c, existsb (λ k, bytesEqual k c) keys) common)
        (drop 1 proofs) (recoverPasskeyPublicKeys first rpId) in
      match common with [key] => Some key | _ => None end
  | _ => None
  end.

(** The comparator: the first difference that is not zero. *)
Definition or_else (a b : Z) : Z := if a =? 0 then b else a.
Definition compareStrings (a b : string) : Z :=
  match String.compare a b with Lt => -1 | Gt => 1 | Eq => 0 end.
Definition compare (a b : WalletFacts) : Z :=
  or_else (Z.b2z (0 <? wf_signatureCount b) - Z.b2z (0 <? wf_signatureCount a))
    (or_else (wf_version a - wf_version b)
      (or_else (wf_lamports b - wf_lamports a)
        (compareStrings (address_string (wf_walletPda a)) (address_string (wf_walletPda b))))).

Definition pickOwnWallet (facts : list WalletFacts) : option WalletFacts * list WalletFacts :=
  let ordered := js_sort compare facts in
  let signed := List.filter (λ f, 0 <? wf_signatureCount f) ordered in
  match signed with
  | [f] => if wf_controlledAlone f then (Some f, []) else (None, ordered)
  | _ => (None, ordered)
  end.

(** An address asked for as text or as a key. *)
Inductive KeyInput := KeyText (s : string) | KeyPublic (a : address).
Definition key_text (k : KeyInput) : string :=
  match k with KeyText s => s | KeyPublic a => address_string a end.

Definition selectWalletByAddress {T} (walletPda vaultPda : T → address) (candidates : list T)
    (wanted : KeyInput) : option T :=
  let wanted := key_text wanted in
  List.find (λ c, String.eqb (address_string (vaultPda c)) wanted
                  || String.eqb (address_string (walletPda c)) wanted) candidates.
End ownership.

(** ** The two SDKs agree *)
Section agree.
Context `{KL : KitLaws}.

Lemma same_bytes_every a b : length a = length b → same_bytes a b = every_at a b.
Proof.
  revert b. induction a as [|x a IH]; intros [|y b] H; try done. cbn. rewrite <- IH by (by injection H).
  by destruct (val x =? val y).
Qed.

Lemma bytesEqual_agrees a b : bytesEqual a b = Bytes.bytesEqual a b.
Proof.
  unfold bytesEqual, Bytes.bytesEqual. destruct (Nat.eqb_spec (length a) (length b)) as [H|]; [|done].
  by rewrite same_bytes_every.
Qed.

Lemma concat_two a b : concatBytes [a; b] = a ++ b.
Proof. change concatBytes with Bytes.concatBytes. rewrite concatBytes_concat. cbn. by rewrite app_nil_r. Qed.

Definition is_bom (b : bytes) : bool :=
  match b with
  | x :: y :: z :: _ => (val x =? 0xef) && (val y =? 0xbb) && (val z =? 0xbf)
  | _ => false
  end.

Lemma text_decode_plain b : is_bom b = false → text_decode b = b.
Proof. destruct b as [|x [|y [|z r]]]; try done. cbn. by intros ->. Qed.

(** What the kit SDK makes of a proof, a throw counted as a refusal. *)
Definition kit_digest (proof : OwnershipProof) (rpId : string) : option bytes :=
  match Ownership.assertionDigest proof rpId with Ok d => d | Throw _ => None end.

Lemma member_property v name : not_an_object v = false → property v name = Ok (member v name).
Proof. by destruct v. Qed.

Lemma digest_agrees proof rpId :
  is_bom (clientDataJson proof) = false → assertionDigest proof rpId = kit_digest proof rpId.
Proof.
  intros Hb. unfold assertionDigest, kit_digest, Ownership.assertionDigest, client_data_matches.
  destruct (length (challenge proof) <? 16)%nat; [done|]. rewrite text_decode_plain by done.
  destruct (json_parse (clientDataJson proof)) as [v|]; [|done]. cbn [of_option]. rewrite bind_ok.
  destruct (not_an_object v) eqn:Hv.
  { destruct v; try done. }
  rewrite !member_property by done. rewrite !bind_ok. destruct (is_string (member v (lit "type")) _); [|done].
  cbn [negb]. rewrite !bind_ok. change Ownership.base64UrlNoPad with base64UrlNoPad.
  destruct (is_string (member v (lit "challenge")) _); [|done]. cbn [negb].
  destruct (length (authenticatorData proof) <? 37)%nat; [done|]. rewrite bytesEqual_agrees.
  change (rpIdHashOf rpId) with (sha256 (utf8 rpId)).
  destruct (Bytes.bytesEqual _ _); [|done]. cbn [negb].
  destruct (Z.land _ _ =? 0); [done|]. rewrite concat_two. by rewrite concat2_app.
Qed.

(** A byte-order mark is no JSON. *)
Lemma bom_refused proof rpId : is_bom (clientDataJson proof) = true → assertionDigest proof rpId = None.
Proof.
  intros Hb. unfold assertionDigest. destruct (_ <? _)%nat; [done|].
  destruct (clientDataJson proof) as [|x [|y [|z r]]]; try done. cbn [is_bom] in Hb.
  apply andb_true_iff in Hb as [[Hx _]%andb_true_iff _]. apply Z.eqb_eq in Hx.
  assert (x = u8 0xef) as ->.
  { apply val_inj. by rewrite val_u8. }
  done.
Qed.

Lemma verifies_agrees sig digest key : p256Verifies sig digest key = Ownership.p256Verifies sig digest key.
Proof. done. Qed.

Lemma existsb_key_agrees key (keys : list bytes) :
  existsb (λ k, bytesEqual k key) keys = existsb (λ k, Bytes.bytesEqual k key) keys.
Proof. induction keys as [|k l IH]; [done|]. cbn. by rewrite IH, bytesEqual_agrees. Qed.

Lemma recover_agrees proof rpId :
  is_bom (clientDataJson proof) = false →
  recoverPasskeyPublicKeys proof rpId = Ownership.recoverPasskeyPublicKeys proof rpId.
Proof.
  intros Hb. unfold recoverPasskeyPublicKeys, Ownership.recoverPasskeyPublicKeys. rewrite digest_agrees by done.
  unfold kit_digest. destruct (Ownership.assertionDigest proof rpId) as [[d|]|]; [|done..].
  change SIGNATURE_FORMATS with Ownership.SIGNATURE_FORMATS.
  generalize (@nil bytes) as keys. induction Ownership.SIGNATURE_FORMATS as [|f fs IH]; intros keys; [done|].
  cbn [fold_left]. rewrite IH. f_equal. unfold recover_format.
  destruct (p256_recover f (signature proof)) as [rec|]; [|done]. clear IH.
  revert keys. induction (seq 0 4) as [|i l IHl]; intros keys; [done|]. cbn [fold_left].
  assert (recovered rec (signature proof) d keys i = recover_one rec (signature proof) d keys i) as ->; [|apply IHl].
  unfold recovered, recover_one. destruct (rec i d) as [key|]; [|done]. by rewrite existsb_key_agrees.
Qed.

Lemma verify_agrees {T} (publicKey : T → bytes) candidates proof rpId :
  is_bom (clientDataJson proof) = false →
  verifyOwnershipProof publicKey candidates proof rpId
  = Ownership.verifyOwnershipProof publicKey candidates proof rpId.
Proof.
  intros Hb. unfold verifyOwnershipProof, Ownership.verifyOwnershipProof. rewrite digest_agrees by done.
  unfold kit_digest. by destruct (Ownership.assertionDigest proof rpId) as [[d|]|].
Qed.

Lemma challenges_agree proofs : challenges_repeat proofs = repeated_challenge proofs.
Proof.
  induction proofs as [|p ps IH]; [done|]. cbn. rewrite IH. f_equal.
  clear IH. induction ps as [|q l IH]; [done|]. cbn. by rewrite IH, bytesEqual_agrees.
Qed.

Lemma resolve_agrees proofs rpId :
  Forall (λ p, is_bom (clientDataJson p) = false) proofs →
  resolvePasskeyPublicKey proofs rpId = Ownership.resolvePasskeyPublicKey proofs rpId.
Proof.
  intros Hb. destruct proofs as [|p [|q ps]]; [done..|].
  unfold resolvePasskeyPublicKey, Ownership.resolvePasskeyPublicKey. rewrite challenges_agree.
  destruct (repeated_challenge _); [done|]. inversion Hb as [|? ? Hp Hps]; subst.
  rewrite recover_agrees by done. cbn [drop].
  assert (H : ∀ l keys, Forall (λ p, is_bom (clientDataJson p) = false) l →
    fold_left (λ common proof, let keys := recoverPasskeyPublicKeys proof rpId in
        List.filter (λ c, existsb (λ k, bytesEqual k c) keys) common) l keys
    = fold_left (common_keys rpId) l keys).
  { induction l as [|r l IH]; intros keys Hl; [done|]. inversion Hl; subst. cbn [fold_left]. rewrite IH by done.
    f_equal. unfold common_keys. rewrite recover_agrees by done. cbv zeta.
    induction keys as [|k ks IHk]; [done|]. cbn [List.filter]. by rewrite existsb_key_agrees, IHk. }
  by rewrite H.
Qed.

(** *** The choice *)
Lemma sub_eqb_0 a b : (a - b =? 0) = (a =? b).
Proof. destruct (Z.eqb_spec (a - b) 0), (Z.eqb_spec a b); done || lia. Qed.

Lemma compare_sign a b : (compare a b <? 0) = (compareFacts a b <? 0).
Proof.
  unfold compare, compareFacts, signed_for. unfold or_else at 1.
  destruct (_ - _ =? 0); [|done]. cbn [negb]. unfold or_else at 1. rewrite sub_eqb_0.
  destruct (Z.eqb_spec (wf_version a) (wf_version b)); [|done]. cbn [negb]. unfold or_else. rewrite sub_eqb_0.
  rewrite (Z.eqb_sym (wf_lamports b)). destruct (Z.eqb_spec (wf_lamports a) (wf_lamports b)); [done|]. cbn [negb].
  destruct (Z.ltb_spec (wf_lamports b) (wf_lamports a)); lia.
Qed.

Lemma sort_agrees facts : js_sort compare facts = js_sort compareFacts facts.
Proof.
  assert (Hi : ∀ x l, sort_insert compare x l = sort_insert compareFacts x l).
  { intros x. induction l as [|y l IH]; [done|]. cbn. by rewrite compare_sign, IH. }
  unfold js_sort. generalize (@nil WalletFacts) as acc.
  induction facts as [|f fs IH]; intros acc; [done|]. cbn. by rewrite Hi, IH.
Qed.

Lemma pick_agrees facts : pickOwnWallet facts = Ownership.pickOwnWallet facts.
Proof. unfold pickOwnWallet, Ownership.pickOwnWallet. by rewrite sort_agrees. Qed.

Lemma message_agrees message : signedMessageChallenge message = Ownership.signedMessageChallenge message.
Proof.
  unfold signedMessageChallenge. destruct (messageBytes message) as [b|] eqn:H; cycle 1.
  { unfold Ownership.signedMessageChallenge. by rewrite H. }
  rewrite (signedMessageChallenge_eq _ _ H), bind_ok. by rewrite !concat_two.
Qed.

(** C23.  Who owns a wallet does not depend on the SDK: for every proof whose
    client data does not start with a byte-order mark, the web3.js SDK proves
    the same candidates, recovers and resolves the same keys, and in every case
    makes the same choice among the same facts and asks for the same message
    challenges.  On client data with a byte-order mark, which the kit SDK strips,
    it proves nothing. *)
Theorem ownership_sdks_agree {T} (publicKey : T → bytes) (candidates : list T) (proofs : list OwnershipProof)
    (proof : OwnershipProof) (rpId : string) (facts : list WalletFacts) (message : SignedMessageInput) :
  (if is_bom (clientDataJson proof)
   then verifyOwnershipProof publicKey candidates proof rpId = [] ∧ recoverPasskeyPublicKeys proof rpId = []
   else verifyOwnershipProof publicKey candidates proof rpId
          = Ownership.verifyOwnershipProof publicKey candidates proof rpId
        ∧ recoverPasskeyPublicKeys proof rpId = Ownership.recoverPasskeyPublicKeys proof rpId)
  ∧ (forallb (λ p, negb (is_bom (clientDataJson p))) proofs = true →
     resolvePasskeyPublicKey proofs rpId = Ownership.resolvePasskeyPublicKey proofs rpId)
  ∧ pickOwnWallet facts = Ownership.pickOwnWallet facts
  ∧ signedMessageChallenge message = Ownership.signedMessageChallenge message.
Proof.
  split; [destruct (is_bom _) eqn:Hb|].
  - unfold verifyOwnershipProof, recoverPasskeyPublicKeys. by rewrite bom_refused.
  - split; [by apply verify_agrees | by apply recover_agrees].
  - split; [|split; [apply pick_agrees | apply message_agrees]].
    intros H. apply resolve_agrees, Forall_forall. intros p Hp. rewrite forallb_forall in H.
    apply negb_true_iff, H. by apply list_elem_of_In.
Qed.
End agree.

(** ** Examples *)
Import ConcreteKit.

(** The same proof, its client data behind a byte-order mark. *)
Definition bom_proof : OwnershipProof :=
  let p := sample_proof 7 in
  mkProof (challenge p) (signature p) (authenticatorData p) ([u8 0xef; u8 0xbb; u8 0xbf] ++ clientDataJson p).

Lemma ownership_sdks_agree_witness :
  verifyOwnershipProof (K := kit) id [zeros 33; sample_key] (sample_proof 7) "a.com" = [sample_key]
  ∧ resolvePasskeyPublicKey (K := kit) [sample_proof 7; sample_proof 8] "a.com"
    = Ownership.resolvePasskeyPublicKey (K := kit) [sample_proof 7; sample_proof 8] "a.com"
  ∧ verifyOwnershipProof (K := kit) id [sample_key] bom_proof "a.com" = []
  ∧ Ownership.verifyOwnershipProof (K := kit) id [sample_key] bom_proof "a.com" = [sample_key].
Proof.
  destruct (ownership_sdks_agree (KL := kit_laws) id [zeros 33; sample_key] [sample_proof 7; sample_proof 8]
    (sample_proof 7) "a.com" [] MessageOther) as (Hv & Hr & _).
  destruct (ownership_sdks_agree (KL := kit_laws) id [sample_key] [] bom_proof "a.com" [] MessageOther) as (Hb & _).
  split_and!; [rewrite (proj1 Hv); vm_compute; reflexivity|by apply Hr|exact (proj1 Hb)|vm_compute; reflexivity].
Defined.
