(* ===== verification/LegacyV1.v ===== *)
(** * The web3.js SDK: reading v1 wallets

    Models src/sdk/sdk-legacy/src/utils/v1.ts: the bare v1 addresses, the
    Token-2022 TLV reader and the checks built on it, and the enumeration,
    classification and discovery of v1 wallets.  The connection's methods are
    arguments, as in [V1]. *)
From S2P Require Import Prelude Bytes Kit Constants JsMap Pdas Builders Accounts V1.
From S2P Require Import LegacyWeb3 LegacyActions LegacyReads LegacyCalls.
Local Open Scope Z_scope.

Definition V1_SEED_WALLET : string := "wallet".
Definition V1_SEED_VAULT : string := "vault".
Definition V1_SEED_AUTHORITY : string := "authority".
Definition V1_DISC_WALLET : Z := 1.
Definition V1_DISC_AUTHORITY : Z := 2.
Definition V1_DISC_SESSION : Z := 3.
Definition V1_DISC_DEFERRED_EXEC : Z := 4.
Definition TOKEN_STATE_OFFSET : nat := 108.
Definition TOKEN_STATE_FROZEN : Z := 2.
Definition TLV_START : nat := 166.
Definition EXT_TRANSFER_FEE_AMOUNT : Z := 2.
Definition EXT_DEFAULT_ACCOUNT_STATE : Z := 6.
Definition EXT_NON_TRANSFERABLE : Z := 9.
Definition EXT_CPI_GUARD : Z := 11.
Definition EXT_NON_TRANSFERABLE_ACCOUNT : Z := 13.
Definition EXT_TRANSFER_HOOK : Z := 14.
Definition EXT_PAUSABLE : Z := 26.

(** The [while] loop; every turn moves [off] by at least four. *)
Fixpoint tlv_turns (fuel off : nat) (data : bytes) (out : list (Z * bytes)) : list (Z * bytes) :=
  match fuel with
  | O => out
  | S fuel =>
    if (off + 4 <=? length data)%nat then
      let type := Z.lor (val (data !!! off)) (Z.shiftl (val (data !!! (off + 1)%nat)) 8) in
      let len := Z.lor (val (data !!! (off + 2)%nat)) (Z.shiftl (val (data !!! (off + 3)%nat)) 8) in
      if (type =? 0) && (len =? 0) then out
      else tlv_turns fuel (off + (4 + Z.to_nat len)) data
             (map_set type (slice (off + 4) (off + 4 + Z.to_nat len) data) out)
    else out
  end.
Definition tlvExtensions (data : bytes) : list (Z * bytes) := tlv_turns (length data) TLV_START data [].

(** [b.some((x) => x !== 0)]. *)
Definition has_nonzero (b : bytes) : bool := existsb (λ x, negb (val x =? 0)) b.

Definition tokenAccountWithheldFees (accountData : bytes) : bool :=
  match map_get EXT_TRANSFER_FEE_AMOUNT (tlvExtensions accountData) with
  | Some fees => (8 <=? length fees)%nat && has_nonzero (slice 0 8 fees)
  | None => false
  end.

Definition tokenAccountFrozen (accountData : bytes) : bool :=
  (TOKEN_STATE_OFFSET <? length accountData)%nat && byte_is accountData TOKEN_STATE_OFFSET TOKEN_STATE_FROZEN.

Definition tokenAccountBlocker (accountData : bytes) : option UnmovableReason :=
  if byte_is accountData TOKEN_STATE_OFFSET TOKEN_STATE_FROZEN then Some RFrozen
  else
    let ext := tlvExtensions accountData in
    if map_has EXT_NON_TRANSFERABLE_ACCOUNT ext then Some RNonTransferable
    else match map_get EXT_CPI_GUARD ext with
         | Some guard => if negb (byte_is guard 0 0) then Some RCpiGuard else None
         | None => None
         end.

Section v1.
Context `{K : Kit} {W : Web3Pda} {W' : Web3Keys}.

Definition new_key (b : bytes) : result address := of_option (EExternal "PublicKey") (new_PublicKey b).

Definition findV1WalletPda (userSeed : bytes) (programId : address) :=
  find_sync [utf8 V1_SEED_WALLET; userSeed] programId.
Definition findV1VaultPda (walletPda programId : address) :=
  find_sync [utf8 V1_SEED_VAULT; address_encode walletPda] programId.
Definition findV1AuthorityPda (walletPda : address) (idSeed : bytes) (programId : address) :=
  find_sync [utf8 V1_SEED_AUTHORITY; address_encode walletPda; idSeed] programId.

Definition deriveV1Accounts (userSeed ownerIdSeed : bytes) (programId : address) : result V1Accounts :=
  '(wallet, _) ← findV1WalletPda userSeed programId;
  '(vault, _) ← findV1VaultPda wallet programId;
  '(authority, _) ← findV1AuthorityPda wallet ownerIdSeed programId;
  Ok (mkV1 wallet vault authority).

Definition mintTransferHook (mintData : bytes) : result (option address) :=
  match map_get EXT_TRANSFER_HOOK (tlvExtensions mintData) with
  | Some value =>
    if (length value <? 64)%nat then Ok None
    else
      let program := slice 32 64 value in
      if has_nonzero program then Some <$> new_key program else Ok None
  | None => Ok None
  end.

Definition mintBlocker (mintData : bytes) : result (option UnmovableReason) :=
  let ext := tlvExtensions mintData in
  if map_has EXT_NON_TRANSFERABLE ext then Ok (Some RNonTransferable)
  else
    hook ← mintTransferHook mintData;
    match hook with
    | Some _ => Ok (Some RTransferHook)
    | None =>
      if (match map_get EXT_PAUSABLE ext with
          | Some pausable => (33 <=? length pausable)%nat && negb (byte_is pausable 32 0)
          | None => false end)
      then Ok (Some RPaused)
      else match map_get EXT_DEFAULT_ACCOUNT_STATE ext with
           | Some defaultState =>
             if byte_is defaultState 0 TOKEN_STATE_FROZEN then Ok (Some RFrozenOnArrival) else Ok None
           | None => Ok None
           end
    end.

(** One entry of [res.value]. *)
Definition held_token (tokenProgram : address) (entry : address * AccountInfo) : result V1VaultToken :=
  let data := ai_data entry.2 in
  mint ← new_key (slice 0 32 data);
  amount ← readU64 data 64;
  Ok (mkToken entry.1 mint amount tokenProgram (byte_is data TOKEN_STATE_OFFSET TOKEN_STATE_FROZEN)
        (tokenAccountBlocker data) (tokenAccountWithheldFees data)).

Definition enumerateV1VaultTokens
    (getTokenAccountsByOwner : address → address → result (list (address * AccountInfo)))
    (vault : address) : result (list V1VaultToken) :=
  out ← mapR (λ tokenProgram,
    value ← getTokenAccountsByOwner vault tokenProgram;
    mapR (held_token tokenProgram) value) [TOKEN_PROGRAM_ADDRESS; TOKEN_2022_PROGRAM_ADDRESS];
  Ok (concat out).

(** [mintInfo], keyed by the base58 text of the mint. *)
Abbreviation MintMap := (list (string * option (address * bytes))).

(** [[...new Set(xs)]] of texts. *)
Fixpoint unique_texts (l seen : list string) : list string :=
  match l with
  | [] => []
  | s :: l => if bool_decide (s ∈ seen) then unique_texts l seen else s :: unique_texts l (s :: seen)
  end.

Fixpoint set_mint_infos (page : list string) (infos : list (option AccountInfo)) (m : MintMap) : MintMap :=
  match page, infos with
  | p :: page, info :: infos =>
    set_mint_infos page infos (map_set p ((λ i, (ai_owner i, ai_data i)) <$> info) m)
  | _, _ => m
  end.

(** [for (let i = 0; i < mints.length; i += 100)], from the page at the front. *)
Fixpoint read_mint_infos (getMultipleAccountsInfo : list address → result (list (option AccountInfo)))
    (fuel : nat) (mints : list string) (m : MintMap) : result MintMap :=
  match fuel, mints with
  | S fuel, _ :: _ =>
    let page := take 100 mints in
    keys ← mapR (λ s, of_option (EExternal "PublicKey") (parse_address s)) page;
    infos ← getMultipleAccountsInfo keys;
    read_mint_infos getMultipleAccountsInfo fuel (drop 100 mints) (set_mint_infos page infos m)
  | _, _ => Ok m
  end.

(** The chain of [??]. *)
Definition unmovable_reason (mint : option (address * bytes)) (t : V1VaultToken) :
    result (option UnmovableReason) :=
  match t_blocker t with
  | Some r => Ok (Some r)
  | None =>
    if t_frozen t then Ok (Some RFrozen)
    else if negb (match mint with Some (owner, _) => bool_decide (owner = t_tokenProgram t) | None => false end)
    then Ok (Some RMintMissing)
    else match mint with
         | Some (_, data) =>
           if bool_decide (t_tokenProgram t = TOKEN_2022_PROGRAM_ADDRESS) then mintBlocker data else Ok None
         | None => Ok None
         end
  end.

(** The loop over the candidates. *)
Fixpoint sort_candidates (mintInfo : MintMap) (candidates movable : list V1VaultToken)
    (skipped : list (V1VaultToken * UnmovableReason)) :
    result (list V1VaultToken * list (V1VaultToken * UnmovableReason)) :=
  match candidates with
  | [] => Ok (movable, skipped)
  | t :: candidates =>
    reason ← unmovable_reason (mjoin (map_get (address_string (t_mint t)) mintInfo)) t;
    match reason with
    | Some r => sort_candidates mintInfo candidates movable (skipped ++ [(t, r)])
    | None => sort_candidates mintInfo candidates (movable ++ [t]) skipped
    end
  end.

(** The first loop: what the caller leaves out, and the rest. *)
Definition left_out (exclude : list address) (t : V1VaultToken) : bool :=
  existsb (λ e, bool_decide (e = t_ata t)) exclude.

Definition classifyV1VaultTokens
    (getMultipleAccountsInfo : list address → result (list (option AccountInfo)))
    (tokens : list V1VaultToken) (exclude : list address) :
    result (list V1VaultToken * list (V1VaultToken * UnmovableReason)) :=
  let skipped := (λ t, (t, RExcluded)) <$> List.filter (left_out exclude) tokens in
  let candidates := List.filter (λ t, negb (left_out exclude t)) tokens in
  let mints := unique_texts (address_string <$> (t_mint <$> candidates)) [] in
  mintInfo ← read_mint_infos getMultipleAccountsInfo (length mints) mints [];
  sort_candidates mintInfo candidates [] skipped.

Definition wallet_record (programId : address) (entry : address * AccountInfo) : result V1WalletRecord :=
  let data := ai_data entry.2 in
  wallet ← new_key (slice 16 48 data);
  '(vault, _) ← findV1VaultPda wallet programId;
  let ownerPubkey := if byte_is data 1 1 then slice 80 113 data else slice 48 80 data in
  Ok (mkV1Record (mkV1 wallet vault entry.1) (byte_at data 2) (byte_at data 1) ownerPubkey).

Definition findV1WalletsByOwner
    (getProgramAccounts : address → list (nat * bytes) → result (list (address * AccountInfo)))
    (ownerIdSeed : bytes) (programId : address) (authorityType : AuthorityTypeName) :
    result (list V1WalletRecord) :=
  (throw! EByteLength "ownerIdSeed" 32 (length ownerIdSeed) when negb (length ownerIdSeed =? 32)%nat;
   let discAndType := [u8 V1_DISC_AUTHORITY; u8 (match authorityType with Ed25519 => 0 | Secp256r1 => 1 end)] in
   accounts ← getProgramAccounts programId [(0%nat, discAndType); (48%nat, ownerIdSeed)];
   mapR (wallet_record programId) accounts)%js.

Definition readV1WalletState (getMultipleAccountsInfo : list address → result (list (option AccountInfo)))
    (accounts : V1Accounts) : result (option V1State) :=
  infos ← getMultipleAccountsInfo [v1_wallet accounts; v1_authority accounts; v1_vault accounts];
  let at_ i := mjoin (infos !! i) in
  match at_ 0%nat with
  | None => Ok None
  | Some walletInfo =>
    if (length (ai_data walletInfo) =? 0)%nat then Ok None
    else if negb (byte_is (ai_data walletInfo) 0 V1_DISC_WALLET) then Ok None
    else match at_ 1%nat with
    | None => Ok None
    | Some authInfo =>
      if negb (byte_is (ai_data authInfo) 0 V1_DISC_AUTHORITY) then Ok None
      else Ok (Some (mkV1State (byte_at (ai_data authInfo) 1) (byte_at (ai_data authInfo) 2)
                       (match at_ 2%nat with Some i => ai_lamports i | None => 0 end)))
    end
  end.

Definition harvestWithheldIx (mint : address) (sources : list address) : TransactionInstruction :=
  mkTi TOKEN_2022_PROGRAM_ADDRESS (mkKey mint false true :: ((λ s, mkKey s false true) <$> sources))
    [u8 26; u8 4].
End v1.

(** ** The two SDKs agree *)
Lemma tlv_turns_agree fuel off data out : tlv_turns fuel off data out = tlv_loop fuel off data out.
Proof.
  revert off out. induction fuel as [|fuel IH]; intros off out; [done|]. cbn [tlv_turns tlv_loop].
  destruct (_ <=? _)%nat; [|done]. unfold u16_or.
  replace (off + 1)%nat with (S off) by lia. replace (off + 3)%nat with (S (off + 2)) by lia.
  destruct (_ && _); [done|]. by rewrite IH, Nat.add_assoc.
Qed.

Lemma tlv_agrees data : tlvExtensions data = V1.tlvExtensions data.
Proof. apply tlv_turns_agree. Qed.

Lemma withheld_agrees data : tokenAccountWithheldFees data = V1.tokenAccountWithheldFees data.
Proof. unfold tokenAccountWithheldFees. by rewrite tlv_agrees. Qed.

Lemma blocker_agrees data : tokenAccountBlocker data = V1.tokenAccountBlocker data.
Proof. unfold tokenAccountBlocker. by rewrite tlv_agrees. Qed.

Section agree.
Context `{KL : KitLaws} {W : Web3Pda} {W' : Web3Keys} {WL : Web3KeysLaws W'}.
Hypothesis same_derivation : ∀ seeds programId,
  findProgramAddressSync seeds programId = getProgramDerivedAddress programId seeds.

Lemma derive_agrees seeds programId : same_result eq (Pdas.derive programId seeds) (find_sync seeds programId).
Proof.
  unfold Pdas.derive, find_sync. rewrite same_derivation. apply same_external.
  by destruct (getProgramDerivedAddress _ _); constructor.
Qed.

(** A key of 32 bytes. *)
Lemma key_agrees tag b : length b = 32%nat →
  ∃ a, of_option (EExternal tag) (address_decode b) = Ok a ∧ new_key b = Ok a ∧ address_encode a = b.
Proof.
  intros Hb. destruct (address_encode_decode b Hb) as (a & Ha & Hab). exists a.
  unfold new_key. by rewrite (new_PublicKey_32 b Hb), Ha.
Qed.

Lemma hook_agrees data : V1.mintTransferHook data = mintTransferHook data.
Proof.
  unfold V1.mintTransferHook, mintTransferHook. rewrite tlv_agrees.
  change V1.EXT_TRANSFER_HOOK with EXT_TRANSFER_HOOK.
  destruct (map_get EXT_TRANSFER_HOOK _) as [v|]; [|done]. destruct (Nat.ltb_spec (length v) 64); [done|].
  change some_nonzero with has_nonzero. cbv zeta. destruct (has_nonzero _); [|done].
  destruct (key_agrees "decode" (slice 32 64 v)) as (a & -> & -> & _); [|done].
  rewrite length_slice. lia.
Qed.

Lemma mint_blocker_agrees data : V1.mintBlocker data = mintBlocker data.
Proof.
  unfold V1.mintBlocker, mintBlocker. rewrite hook_agrees, tlv_agrees. cbv zeta.
  change V1.EXT_NON_TRANSFERABLE with EXT_NON_TRANSFERABLE. destruct (map_has _ _); [done|].
  destruct (mintTransferHook data) as [[h|]|]; [done| |done]. rewrite !bind_ok.
  change V1.EXT_PAUSABLE with EXT_PAUSABLE. change V1.EXT_DEFAULT_ACCOUNT_STATE with EXT_DEFAULT_ACCOUNT_STATE.
  change V1.TOKEN_STATE_FROZEN with TOKEN_STATE_FROZEN.
  destruct (match map_get EXT_PAUSABLE _ with Some _ => _ | None => _ end); [done|].
  destruct (map_get EXT_DEFAULT_ACCOUNT_STATE _) as [s|]; [|done]. by destruct (byte_is s 0 _).
Qed.

Lemma held_agrees tp entry : (165 <= length (ai_data entry.2))%nat →
  vault_token tp (kit_entry entry) = held_token tp entry.
Proof.
  intros Hl. unfold vault_token, held_token. cbn [kit_entry fst snd]. rewrite decode_kit_view, bind_ok.
  destruct (key_agrees "decode" (slice 0 32 (ai_data entry.2))) as (a & Ha & Hk & _); [rewrite length_slice; lia|].
  unfold tokenAccountMint, tokenAccountAmount. cbv zeta. rewrite Ha, Hk, !bind_ok, blocker_agrees, withheld_agrees. done.
Qed.

(** What the RPC documents of an answer to [getTokenAccountsByOwner]: token
    accounts are whole. *)
Definition token_rows_ok (rows : list (address * AccountInfo)) : Prop :=
  Forall (λ r, 165 <= length (ai_data r.2))%nat rows.

Lemma mapR_compose {A B C} (f : A → B) (g : B → result C) l : mapR g (f <$> l) = mapR (g ∘ f) l.
Proof. induction l as [|x l IH]; [done|]. cbn. by rewrite IH. Qed.

Lemma mapR_ext_in {A B} (f g : A → result B) l : Forall (λ x, f x = g x) l → mapR f l = mapR g l.
Proof. induction 1 as [|x l Hx _ IH]; [done|]. cbn. by rewrite Hx, IH. Qed.

Lemma enumerate_agrees (get : address → address → result (list (address * AccountInfo))) vault :
  (∀ v p rows, get v p = Ok rows → token_rows_ok rows) →
  same_result eq (V1.enumerateV1VaultTokens (λ v p, coded (λ l, (kit_entry <$> l : list _)) (get v p)) vault)
    (enumerateV1VaultTokens get vault).
Proof.
  intros Hrows. unfold V1.enumerateV1VaultTokens, enumerateV1VaultTokens.
  eapply same_bind; [eapply (same_mapR eq eq)|].
  - by apply Forall2_same_length_lookup; split; [|intros; congruence].
  - intros p ? <-. destruct (get vault p) as [rows|e] eqn:Hg; cbn [coded].
    2:{ constructor. apply same_error_coded. }
    rewrite !bind_ok, mapR_compose. erewrite mapR_ext_in; [apply same_refl|].
    eapply Forall_impl; [by eapply Hrows|]. intros r Hr. by apply held_agrees.
  - intros a b Hab. assert (a = b) as <-. { apply list_eq_Forall2. exact Hab. } apply same_refl.
Qed.

(** *** Classification *)
Abbreviation by_text := (relabel address_string (@id (option (address * bytes)))).

Lemma unique_agrees (l seen : list address) :
  unique_texts (address_string <$> l) (address_string <$> seen) = address_string <$> js_unique l seen.
Proof.
  revert seen. induction l as [|a l IH]; intros seen; [done|]. rewrite fmap_cons. cbn [unique_texts js_unique].
  rewrite (bool_decide_ext (address_string a ∈ address_string <$> seen) (a ∈ seen)).
  - case_bool_decide; [apply IH|]. rewrite fmap_cons. f_equal. apply (IH (a :: seen)).
  - rewrite list_elem_of_fmap. split; [|eauto]. by intros (b & ->%address_string_inj & ?).
Qed.

Lemma set_mints_agree page infos m :
  V1.set_mints page (kit_info <$> infos) m
  = Ok (fold_left (λ m pi, map_set pi.1 pi.2 m)
          (zip page ((λ i : option AccountInfo, (λ i, (ai_owner i, ai_data i)) <$> i) <$> infos)) m).
Proof.
  revert infos m. induction page as [|p page IH]; intros [|i infos] m; try done.
  rewrite !fmap_cons. cbn [V1.set_mints zip zip_with fold_left fst snd].
  assert (mint_entry (kit_info i) = Ok ((λ i, (ai_owner i, ai_data i)) <$> i)) as ->.
  { destruct i as [i|]; [|done]. cbn [kit_info fmap option_fmap option_map mint_entry]. by rewrite decode_kit_view, bind_ok. }
  rewrite bind_ok. apply IH.
Qed.

Lemma set_infos_agree page infos m :
  set_mint_infos (address_string <$> page) infos (by_text m)
  = by_text (fold_left (λ m pi, map_set pi.1 pi.2 m)
          (zip page ((λ i : option AccountInfo, (λ i, (ai_owner i, ai_data i)) <$> i) <$> infos)) m).
Proof.
  revert infos m. induction page as [|p page IH]; intros [|i infos] m; try done.
  rewrite !fmap_cons. cbn [set_mint_infos zip zip_with fold_left fst snd]. rewrite <- IH. f_equal.
  by rewrite <- (map_set_relabel address_string id address_string_inj).
Qed.

Lemma parse_texts (l : list address) :
  mapR (λ s, of_option (EExternal "PublicKey") (parse_address s)) (address_string <$> l) = Ok l.
Proof. induction l as [|a l IH]; [done|]. rewrite fmap_cons. cbn [mapR]. rewrite parse_own_string, IH. done. Qed.

Lemma read_mints_agree get fuel mints m :
  same_result (λ k l, l = by_text k)
    (V1.read_mints (λ l, coded (λ v, (kit_info <$> v : list _)) (get l)) fuel mints m)
    (read_mint_infos get fuel (address_string <$> mints) (by_text m)).
Proof.
  revert mints m. induction fuel as [|fuel IH]; intros [|a mints] m; try by constructor.
  cbn [V1.read_mints]. change (address_string <$> a :: mints) with (address_string a :: (address_string <$> mints)).
  cbn [read_mint_infos]. change (address_string a :: (address_string <$> mints)) with (address_string <$> a :: mints).
  rewrite <- fmap_take, <- fmap_drop, parse_texts, bind_ok.
  destruct (get (take 100 (a :: mints))) as [infos|e]; cbn [coded]; cycle 1.
  { constructor. apply same_error_coded. }
  rewrite !bind_ok, set_mints_agree, bind_ok, set_infos_agree. apply IH.
Qed.

Lemma unmovable_agrees mint t : V1.unmovable mint t = unmovable_reason mint t.
Proof.
  unfold V1.unmovable, unmovable_reason. destruct (t_blocker t); [done|]. destruct (t_frozen t); [done|].
  destruct mint as [[owner data]|]; [|done]. case_bool_decide; [|done]. cbn [negb].
  case_bool_decide; [apply mint_blocker_agrees|done].
Qed.

Lemma held_sort_agrees mintInfo candidates movable skipped :
  sort_candidates (by_text mintInfo) candidates movable skipped
  = V1.classify_loop mintInfo candidates movable skipped.
Proof.
  revert movable skipped. induction candidates as [|t l IH]; intros movable skipped; [done|].
  cbn [sort_candidates V1.classify_loop]. rewrite map_get_relabel by apply address_string_inj.
  rewrite <- unmovable_agrees. replace (id <$> map_get (t_mint t) mintInfo) with (map_get (t_mint t) mintInfo)
    by (by destruct (map_get (t_mint t) mintInfo)).
  destruct (V1.unmovable _ t) as [[r|]|]; [by rewrite !bind_ok, IH..|done].
Qed.

Lemma left_out_agrees exclude t : left_out exclude t = bool_decide (t_ata t ∈ exclude).
Proof.
  unfold left_out. induction exclude as [|e l IH]; [done|]. cbn [existsb]. rewrite IH.
  rewrite (bool_decide_ext (t_ata t ∈ e :: l) (e = t_ata t ∨ t_ata t ∈ l))
    by (rewrite elem_of_cons; split; intros [|]; subst; auto).
  by rewrite bool_decide_or.
Qed.

Lemma classify_agrees get tokens exclude :
  same_result eq (V1.classifyV1VaultTokens (λ l, coded (λ v, (kit_info <$> v : list _)) (get l)) tokens exclude)
    (classifyV1VaultTokens get tokens exclude).
Proof.
  unfold V1.classifyV1VaultTokens, classifyV1VaultTokens. cbv zeta.
  assert (Hf : ∀ l, List.filter (left_out exclude) l = List.filter (λ t, bool_decide (t_ata t ∈ exclude)) l
             ∧ List.filter (λ t, negb (left_out exclude t)) l = List.filter (λ t, negb (bool_decide (t_ata t ∈ exclude))) l).
  { induction l as [|t l [IH IH']]; [done|]. cbn [List.filter]. by rewrite left_out_agrees, IH, IH'. }
  destruct (Hf tokens) as [-> ->]. rewrite (unique_agrees _ []), length_fmap.
  eapply same_bind; [apply (read_mints_agree get _ _ [])|]. intros k l ->. rewrite held_sort_agrees. apply same_refl.
Qed.

(** *** Discovery *)

(** What the RPC documents of [memcmp] filters: every account returned holds
    the bytes asked for. *)
Definition rows_match (filters : list (nat * bytes)) (rows : list (address * AccountInfo)) : Prop :=
  Forall (λ r, Forall (λ f, slice f.1 (f.1 + length f.2) (ai_data r.2) = f.2) filters) rows.

Lemma rows_match_length filters rows r off b :
  rows_match filters rows → r ∈ rows → (off, b) ∈ filters → b ≠ [] →
  (off + length b <= length (ai_data r.2))%nat.
Proof.
  intros H Hr Hf Hb. unfold rows_match in H. rewrite Forall_forall in H. specialize (H r Hr).
  rewrite Forall_forall in H. specialize (H _ Hf). cbn [fst snd] in H. apply (f_equal length) in H.
  rewrite length_slice in H. destruct b; [done|]. cbn [length] in *. lia.
Qed.

Lemma record_agrees programId entry : (48 <= length (ai_data entry.2))%nat →
  same_result eq (V1.v1_record programId (kit_entry entry)) (wallet_record programId entry).
Proof.
  intros Hl. unfold V1.v1_record, wallet_record. cbn [kit_entry fst snd]. rewrite decode_kit_view, bind_ok.
  destruct (key_agrees "decode" (slice 16 48 (ai_data entry.2))) as (a & -> & -> & _); [rewrite length_slice; lia|].
  rewrite !bind_ok. eapply same_bind; [apply derive_agrees|]. intros [v b] ? <-. apply same_refl.
Qed.

Lemma find_v1_agrees get ownerIdSeed programId authorityType :
  (∀ p fs rows, get p fs = Ok rows → rows_match fs rows) →
  same_result eq
    (V1.findV1WalletsByOwner (λ p fs, coded (λ l, (kit_entry <$> l : list _)) (get p fs)) ownerIdSeed programId authorityType)
    (findV1WalletsByOwner get ownerIdSeed programId authorityType).
Proof.
  intros Hrows. unfold V1.findV1WalletsByOwner, findV1WalletsByOwner, throw_if.
  destruct (Nat.eqb_spec (length ownerIdSeed) 32) as [Hs|]; [|by apply same_refl]. cbn [negb]. rewrite !bind_ok.
  change Constants.V1_DISC_AUTHORITY with V1_DISC_AUTHORITY. set (fs := [_; _]).
  destruct (get programId fs) as [rows|e] eqn:Hg; cbn [coded]; [|constructor; apply same_error_coded].
  rewrite !bind_ok. pose proof (Hrows _ _ _ Hg) as Hm.
  eapply same_weaken; [|intros a b H; by apply list_eq_Forall2].
  eapply (same_mapR (λ v r, v = kit_entry r ∧ r ∈ rows)).
  - apply Forall2_fmap_l, Forall_Forall2_diag, Forall_forall. done.
  - intros ? r [-> Hr]. apply record_agrees.
    pose proof (rows_match_length _ _ _ 48 ownerIdSeed Hm Hr) as Hlen. rewrite Hs in Hlen.
    enough (48 + 32 <= length (ai_data r.2))%nat by lia. apply Hlen; [set_solver|]. intros ->. done.
Qed.

Lemma state_agrees get accounts :
  same_result eq (V1.readV1WalletState (λ l, coded (λ v, (kit_info <$> v : list _)) (get l)) accounts)
    (readV1WalletState get accounts).
Proof.
  unfold V1.readV1WalletState, readV1WalletState.
  destruct (get _) as [infos|e]; cbn [coded]; [|constructor; apply same_error_coded].
  rewrite !bind_ok. cbv zeta. rewrite !list_lookup_fmap.
  assert (H : ∀ i, mjoin (kit_info <$> infos !! i) = kit_view <$> mjoin (infos !! i)).
  { intros i. by destruct (infos !! i) as [[]|]. }
  rewrite !H. destruct (mjoin (infos !! 0%nat)) as [wi|]; [|apply same_refl].
  cbn [fmap option_fmap option_map]. rewrite decode_kit_view, bind_ok.
  destruct (length (ai_data wi) =? 0)%nat; [apply same_refl|]. cbn [orb].
  change Constants.V1_DISC_WALLET with V1_DISC_WALLET. destruct (byte_is (ai_data wi) 0 _); [|apply same_refl].
  cbn [negb]. destruct (mjoin (infos !! 1%nat)) as [ai|]; [|apply same_refl].
  cbn [fmap option_fmap option_map]. rewrite decode_kit_view, bind_ok.
  change Constants.V1_DISC_AUTHORITY with V1_DISC_AUTHORITY. destruct (byte_is (ai_data ai) 0 _); [|apply same_refl].
  cbn [negb]. constructor. by destruct (mjoin (infos !! 2%nat)).
Qed.

Lemma harvest_agrees mint sources : harvestWithheldIx mint sources = web3_ix (Builders.harvestWithheldIx mint sources).
Proof. unfold harvestWithheldIx, web3_ix. cbn. f_equal. f_equal. by rewrite <- list_fmap_compose. Qed.
End agree.
