(* ===== verification/LegacyLookup.v ===== *)
(** * The web3.js SDK: finding and vetting wallets

    Models the chain reads of src/sdk/sdk-legacy/src/utils/ownership.ts (a
    returning passkey's candidates, everything that can spend from a wallet, the
    facts reported about each candidate) and the lookups of client.ts that use
    them.  [LegacyLookupParity] compares them with [WalletLookup]. *)
From S2P Require Import Prelude Bytes Kit Constants JsMap Pdas Builders Accounts Ownership V1 ClientHelpers.
From S2P Require Import Client WorkerPool WalletLookup.
From S2P Require Import LegacyWeb3 LegacyActions LegacyReads LegacyCalls LegacyOwnership LegacyV1.
Local Open Scope Z_scope.

(** ** Layouts *)
Record VersionLayout := mkVersionLayout {
  vl_wallet : Z;
  vl_authority : Z;
  vl_session : Z;
  vl_deferred : Z;
}.
Definition LAYOUTS (version : Z) : VersionLayout :=
  if version =? 1
  then mkVersionLayout V1_DISC_WALLET V1_DISC_AUTHORITY V1_DISC_SESSION V1_DISC_DEFERRED_EXEC
  else mkVersionLayout DISC_WALLET DISC_AUTHORITY DISC_SESSION DISC_DEFERRED_EXEC.

Definition AUTHORITY_COUNTER : nat := 8.
Definition AUTHORITY_WALLET : nat := 16.
Definition AUTHORITY_KEY : nat := 48.
Definition AUTHORITY_ED25519_LEN : nat := 80.
Definition AUTHORITY_P256_KEY : nat := 80.
Definition AUTHORITY_RP_ID_HASH : nat := 113.
Definition AUTHORITY_SECP256R1_LEN : nat := 145.
Definition SESSION_WALLET : nat := 8.
Definition SESSION_KEY : nat := 40.
Definition SESSION_EXPIRES_AT : nat := 72.
Definition DEFERRED_WALLET : nat := 72.
Definition DEFERRED_AUTHORITY : nat := 104.
Definition DEFERRED_EXPIRES_AT : nat := 168.
Definition TOKEN_OWNER : nat := 32.
Definition TOKEN_DELEGATE : nat := 72.
Definition TOKEN_CLOSE_AUTHORITY : nat := 129.
Definition TOKEN_ACCOUNT_LEN : nat := 165.
Definition UNREADABLE_EXPIRY : Z := 0xffffffffffffffff.
Definition DESCRIBE_CONCURRENCY : nat := 4.
Definition MIN_CONTEXT_SLOT_TRIES : nat := 5.

Definition roleName (role : option Z) : AuthorityRoleName :=
  match role with
  | Some 0 => RoleOwner | Some 1 => RoleAdmin | Some 2 => RoleSpender | _ => RoleUnknown
  end.

Definition sessionExpiry (data : bytes) : result Z :=
  if (SESSION_EXPIRES_AT + 8 <=? length data)%nat then readU64 data SESSION_EXPIRES_AT else Ok UNREADABLE_EXPIRY.
Definition deferredExpiry (data : bytes) : result Z :=
  if (DEFERRED_EXPIRES_AT + 8 <=? length data)%nat then readU64 data DEFERRED_EXPIRES_AT else Ok UNREADABLE_EXPIRY.

(** By the code: these calls keep it. *)
Definition minContextSlotNotReached (e : error) : bool :=
  match e with
  | ERpc code _ => bool_decide (code = Some MIN_CONTEXT_SLOT_NOT_REACHED)
  | e => is_min_context_slot e
  end.

(** [more] further tries. *)
Fixpoint atOrAfterSlot `{K : Kit} {A} (more : nat) (read : L A) : L A := λ c,
  match read c with
  | (c, Throw e) =>
    match more with
    | S more => if minContextSlotNotReached e then atOrAfterSlot more read c else (c, Throw e)
    | O => (c, Throw e)
    end
  | r => r
  end.

Section vault.
Context `{K : Kit} {W : Web3Pda} {W' : Web3Keys}.

(** ** Vault checks *)
Definition isPlainSystemAccount (info : option AccountInfo) : bool :=
  match info with
  | None => true
  | Some i => bool_decide (ai_owner i = SYSTEM_PROGRAM_ADDRESS) && (length (ai_data i) =? 0)%nat
  end.

Definition isLiveWallet (programId : address) (version : Z) (info : option AccountInfo) : bool :=
  match info with
  | None => false
  | Some i => bool_decide (ai_owner i = programId) && (0 <? length (ai_data i))%nat
              && byte_is (ai_data i) 0 (vl_wallet (LAYOUTS version))
  end.

Definition WATCHED_MINTS : list address :=
  address_lit <$> ["So11111111111111111111111111111111111111112";
                   "EPjFWdd5AufqSSqeM2qN1xzybapC8G4wEGGkZwyTDt1v";
                   "Es9vMFrzaCERmJfrF4H2FYD4KCoNkY11McCe8BenwNYB";
                   "4zMMC9srt5Ri5X14GAgXhaHii3GnPAEERYPJgZJDncDU"]%string.

(** [new PublicKey(k)] of a text or of a key. *)
Definition input_key (k : KeyInput) : result address :=
  match k with
  | KeyText s => of_option (EExternal "PublicKey") (parse_address s)
  | KeyPublic a => Ok a
  end.

Fixpoint add_mints (mints : list address) (extra : list KeyInput) : result (list address) :=
  match extra with
  | [] => Ok mints
  | m :: extra =>
    mint ← input_key m;
    add_mints (if negb (existsb (λ w, bool_decide (w = mint)) mints) then mints ++ [mint] else mints) extra
  end.
Definition watchedMints (extra : list KeyInput) : result (list address) := add_mints WATCHED_MINTS extra.

Definition watchedTokenAccounts (vault : address) (mints : list address) : result (list (address * address)) :=
  mapR (λ mint, a ← getAssociatedTokenAddress mint vault TOKEN_PROGRAM_ADDRESS; Ok (a, mint)) mints.

Definition unreadableGrant (tokenAccount tokenProgram : address) : TokenGrant :=
  mkGrant tokenAccount tokenProgram None GrantUnreadable None false.

(** [trusted] holds base58 texts. *)
Definition trusts (trusted : list string) (a : address) : bool := bool_decide (address_string a ∈ trusted).

(** One turn of the loop over the two [COption] fields. *)
Definition right_at (tokenAccount tokenProgram mint vault : address) (trusted : list string) (data : bytes)
    (kind : GrantKind) (offset : nat) : result (list TokenGrant) :=
  tag ← readU32 data offset;
  if tag =? 0 then Ok []
  else
    grantee ← new_key (slice (offset + 4) (offset + 36) data);
    if bool_decide (grantee = vault) then Ok []
    else Ok [mkGrant tokenAccount tokenProgram (Some mint) kind (Some grantee) (trusts trusted grantee)].

Definition tokenAccountGrants (tokenAccount tokenProgram : address) (data : bytes) (vault : address)
    (trusted : list string) : result (list TokenGrant) :=
  if (length data <? TOKEN_ACCOUNT_LEN)%nat then Ok [unreadableGrant tokenAccount tokenProgram]
  else
    mint ← new_key (slice 0 32 data);
    d ← right_at tokenAccount tokenProgram mint vault trusted data GrantDelegate TOKEN_DELEGATE;
    c ← right_at tokenAccount tokenProgram mint vault trusted data GrantCloseAuthority TOKEN_CLOSE_AUTHORITY;
    Ok (d ++ c).

Record WatchedAccount := mkWatchedAccount { wa_address : address; wa_mint : address; wa_info : option AccountInfo }.

(** One turn of the loop over the watched accounts. *)
Definition handed_over (vault : address) (trusted : list string) (w : WatchedAccount) : result (list TokenGrant) :=
  match wa_info w with
  | None => Ok []
  | Some info =>
    if negb (bool_decide (ai_owner info = TOKEN_PROGRAM_ADDRESS)) then Ok []
    else if (length (ai_data info) <? TOKEN_OWNER + 32)%nat
    then Ok [unreadableGrant (wa_address w) TOKEN_PROGRAM_ADDRESS]
    else
      owner ← new_key (slice TOKEN_OWNER (TOKEN_OWNER + 32) (ai_data info));
      if bool_decide (owner = vault) then Ok []
      else Ok [mkGrant (wa_address w) TOKEN_PROGRAM_ADDRESS (Some (wa_mint w)) GrantOwner (Some owner)
                 (trusts trusted owner)]
  end.

Abbreviation AccountRow := (address * AccountInfo)%type.

Definition vaultTokenGrants (vault : address) (spl token2022 : list AccountRow) (watched : list WatchedAccount)
    (trusted : list string) : result (list TokenGrant) :=
  a ← mapR (λ r, tokenAccountGrants r.1 TOKEN_PROGRAM_ADDRESS (ai_data r.2) vault trusted) spl;
  b ← mapR (λ r, tokenAccountGrants r.1 TOKEN_2022_PROGRAM_ADDRESS (ai_data r.2) vault trusted) token2022;
  c ← mapR (handed_over vault trusted) watched;
  Ok (concat a ++ concat b ++ concat c).

(** The texts are [DestinationProblem]s. *)
Definition tokenAccountProblem (addr : address) (info : AccountInfo) (vault tokenProgram : address) :
    result (option DestinationProblem) :=
  if negb (bool_decide (ai_owner info = tokenProgram)) then Ok (Some (WrongProgram (ai_owner info)))
  else if (length (ai_data info) <? TOKEN_ACCOUNT_LEN)%nat then Ok (Some Unreadable)
  else
    owner ← new_key (slice TOKEN_OWNER (TOKEN_OWNER + 32) (ai_data info));
    if negb (bool_decide (owner = vault)) then Ok (Some (WrongOwner owner))
    else
      grants ← tokenAccountGrants addr tokenProgram (ai_data info) vault [];
      Ok (match grants with grant :: _ => Some (HasGrant grant) | [] => None end).
End vault.

(** ** Bounded concurrency *)
Section map_bounded.
Context `{K : Kit}.
Variable env : Web3Env.
Context {T B : Type} (fn : T → L B) (items : list T).

(** Workers over one [next] index: the pool of [WorkerPool]. *)
Definition next_settled (k : nat) (l : list nat) : nat := nth (l_settles env k mod length l) l 0%nat.

Fixpoint run_workers (fuel : nat) (p : pool B) : L (pool B) :=
  match fuel, p_running p with
  | S fuel, _ :: _ =>
    k ← ask3;
    let i := next_settled k (p_running p) in
    match items !! i with
    | Some item => r ← settled3 (fn item); run_workers fuel (settle (length items) i r p)
    | None => mret p
    end
  | _, _ => mret p
  end.

Definition mapBounded (limit : nat) : L (list B) :=
  p ← run_workers (length items) (start limit (length items));
  match p_failed p with
  | Some e => lift3 (Throw e)
  | None => lift3 (of_option ERangeError (mapM id (p_out p)))
  end.
End map_bounded.

Section lookup.
Context `{K : Kit} {W : Web3Pda} {W' : Web3Keys}.
Variable env : Web3Env.

Abbreviation AccountRow := (address * AccountInfo)%type.

(** ** Consistent reads *)
Fixpoint read_keys (fuel : nat) (keys : list address) (minContextSlot : option Z) (slot : Z)
    (infos : list (option AccountInfo)) : L (Z * list (option AccountInfo)) :=
  match fuel, keys with
  | S fuel, _ :: _ =>
    '(contextSlot, value) ← atOrAfterSlot (MIN_CONTEXT_SLOT_TRIES - 1)
      (getMultipleAccounts3 env (take 100 keys) minContextSlot);
    read_keys fuel (drop 100 keys) minContextSlot (Z.max slot contextSlot) (infos ++ value)
  | _, _ => mret (slot, infos)
  end.

Definition readAccounts (keys : list address) (minContextSlot : option Z) : L (Z * list (option AccountInfo)) :=
  read_keys (length keys) keys minContextSlot (default 0 minContextSlot) [].

Definition scanWalletAccounts (programId wallet : address) (disc : Z) (walletOffset : nat)
    (minContextSlot : option Z) : L (Z * list AccountRow) :=
  '(slot, value) ← atOrAfterSlot (MIN_CONTEXT_SLOT_TRIES - 1) (getProgramAccounts3 env programId
    [(0%nat, [u8 disc]); (walletOffset, address_encode wallet)] minContextSlot);
  mret (slot, value).

Record OwnedRows := mkOwnedRows { or_slot : Z; or_spl : list AccountRow; or_token2022 : list AccountRow }.

Definition readVaultTokenAccounts (vault : address) (minContextSlot : option Z) : L OwnedRows :=
  let read programId := atOrAfterSlot (MIN_CONTEXT_SLOT_TRIES - 1)
    (getTokenAccountsByOwner3 env vault programId minContextSlot) in
  '(spl, token2022) ← both3 env (read TOKEN_PROGRAM_ADDRESS) (read TOKEN_2022_PROGRAM_ADDRESS);
  mret (mkOwnedRows (Z.max spl.1 token2022.1) spl.2 token2022.2).

Record SpendingRead := mkSpendingRead {
  sr_authorities : list AccountRow;
  sr_sessions : list AccountRow;
  sr_deferred : list AccountRow;
  sr_infos : list (option AccountInfo);
  sr_ownedTokens : OwnedRows;
  sr_slot : Z;
}.

Definition readSpendingState (programId wallet vault : address) (authority session deferred : Z)
    (accounts : list address) : L SpendingRead :=
  let scan := scanWalletAccounts programId wallet in
  '(t1, authorities) ← scan authority AUTHORITY_WALLET None;
  '((t2, sessions), (t2', deferredRows)) ← both3 env
    (scan session SESSION_WALLET (Some t1)) (scan deferred DEFERRED_WALLET (Some t1));
  let after := Z.max t2 t2' in
  '((t3, infos), ownedTokens) ← both3 env
    (readAccounts accounts (Some after)) (readVaultTokenAccounts vault (Some after));
  mret (mkSpendingRead authorities sessions deferredRows
          ((λ i, mjoin (infos !! i)) <$> seq 0 (length accounts)) ownedTokens
          (Z.max t3 (or_slot ownedTokens))).

(** ** A returning passkey's candidates *)
Definition owner_rank (r : AccountRow) : bool :=
  (AUTHORITY_SECP256R1_LEN <=? length (ai_data r.2))%nat && byte_is (ai_data r.2) 2 ROLE_OWNER.

Definition candidate_at (version : Z) (target : address) (r : AccountRow) : result PasskeyWalletCandidate :=
  let data := ai_data r.2 in
  walletPda ← new_key (slice AUTHORITY_WALLET (AUTHORITY_WALLET + 32) data);
  '(vaultPda, _) ← (if version =? 2 then LegacyWeb3.findVaultPda walletPda target
                    else LegacyV1.findV1VaultPda walletPda target);
  Ok (mkCandidate version target walletPda vaultPda r.1 (slice AUTHORITY_P256_KEY AUTHORITY_RP_ID_HASH data)).

Definition scan_target (credentialIdHash rpIdHash : bytes) (version : Z) (target : address) :
    L (list PasskeyWalletCandidate) :=
  '(_, accounts) ← getProgramAccounts3 env target
    [(0%nat, [u8 (vl_authority (LAYOUTS version)); u8 AUTH_TYPE_SECP256R1]);
     (AUTHORITY_KEY, credentialIdHash); (AUTHORITY_RP_ID_HASH, rpIdHash)] None;
  lift3 (mapR (candidate_at version target) (List.filter owner_rank accounts)).

(** [Promise.all] over one target or two. *)
Definition scanPasskeyWalletCandidates (programId : address) (credentialIdHash : bytes) (rpId : string)
    (includeV1 : option bool) : L (list PasskeyWalletCandidate) :=
  _ ← lift3 (throw_if (negb (length credentialIdHash =? 32)%nat)
               (EByteLength "credentialIdHash" 32 (length credentialIdHash)));
  let rpIdHash := rpIdHashOf rpId in
  '(v2, v1) ← both3 env (scan_target credentialIdHash rpIdHash 2 programId)
    (if default true includeV1
     then scan_target credentialIdHash rpIdHash 1 (LegacyWeb3.legacyProgramIdFor programId) else mret []);
  mret (v2 ++ v1).

(** ** A candidate's facts *)
Definition ownIntact (c : PasskeyWalletCandidate) (own : option bytes) : bool :=
  match own with
  | Some d => (AUTHORITY_SECP256R1_LEN <=? length d)%nat && byte_is d 1 AUTH_TYPE_SECP256R1
              && byte_is d 2 ROLE_OWNER
              && LegacyOwnership.bytesEqual (slice AUTHORITY_P256_KEY AUTHORITY_RP_ID_HASH d) (c_publicKey c)
  | None => false
  end.

Definition ownRpIdHash (own : option bytes) : option bytes :=
  match own with
  | Some d => if (AUTHORITY_SECP256R1_LEN <=? length d)%nat
              then Some (slice AUTHORITY_RP_ID_HASH AUTHORITY_SECP256R1_LEN d) else None
  | None => None
  end.

(** One turn of the loop over the authorities, past the [continue]. *)
Definition otherAuthority (trusted : list string) (rpIdHash : option bytes) (r : AccountRow) :
    result OtherAuthority :=
  let data := ai_data r.2 in
  let role := roleName (byte_at data 2) in
  if byte_is data 1 AUTH_TYPE_ED25519 then
    publicKey ← (if (AUTHORITY_ED25519_LEN <=? length data)%nat
                 then Some <$> new_key (slice AUTHORITY_KEY AUTHORITY_ED25519_LEN data) else Ok None);
    Ok (mkOther r.1 (KindEd25519 publicKey) role
          (match publicKey with Some k => trusts trusted k | None => false end))
  else
    Ok (mkOther r.1 (KindSecp256r1
          (match rpIdHash with
           | Some h => (AUTHORITY_SECP256R1_LEN <=? length data)%nat
                       && LegacyOwnership.bytesEqual (slice AUTHORITY_RP_ID_HASH AUTHORITY_SECP256R1_LEN data) h
           | None => false
           end)) role false).

(** [PublicKey.default]. *)
Definition default_key : address := address_lit "11111111111111111111111111111111".

Definition liveSession (trusted : list string) (slot : Z) (r : AccountRow) : result (option LiveSession) :=
  let data := ai_data r.2 in
  expiresAtSlot ← sessionExpiry data;
  if expiresAtSlot <? slot then Ok None
  else
    let readable := (SESSION_EXPIRES_AT + 8 <=? length data)%nat in
    sessionKey ← (if readable then new_key (slice SESSION_KEY (SESSION_KEY + 32) data) else Ok default_key);
    Ok (Some (mkLive r.1 sessionKey expiresAtSlot (readable && trusts trusted sessionKey))).

Definition pendingDeferred (slot : Z) (r : AccountRow) : result (option PendingDeferred) :=
  let data := ai_data r.2 in
  expiresAtSlot ← deferredExpiry data;
  if expiresAtSlot <? slot then Ok None
  else
    authorizedBy ← (if (DEFERRED_EXPIRES_AT + 8 <=? length data)%nat
                    then new_key (slice DEFERRED_AUTHORITY (DEFERRED_AUTHORITY + 32) data) else Ok default_key);
    Ok (Some (mkPending r.1 authorizedBy expiresAtSlot false)).

Definition isOwn (c : PasskeyWalletCandidate) (r : AccountRow) : bool := bool_decide (r.1 = c_authorityPda c).

(** [watched.map((w, i) => ({ ...w, info: watchedInfos[i] }))]. *)
Definition with_infos (watched : list (address * address)) (infos : list (option AccountInfo)) : list WatchedAccount :=
  zip_with (λ w i, mkWatchedAccount w.1 w.2 (mjoin (infos !! i))) watched (seq 0 (length watched)).

(** What [describeCandidate] makes of what was read. *)
Definition candidate_facts (c : PasskeyWalletCandidate) (slot : Z) (trusted : list string)
    (watched : list (address * address)) (read : SpendingRead) : result (option WalletFacts) :=
  let walletInfo := mjoin (sr_infos read !! 0%nat) in
  let vaultInfo := mjoin (sr_infos read !! 1%nat) in
  let watchedInfos := drop 2 (sr_infos read) in
  if negb (isLiveWallet (c_programId c) (c_version c) walletInfo) then Ok None
  else
    let lamports := match vaultInfo with Some i => ai_lamports i | None => 0 end in
    let vaultIsSystemAccount := isPlainSystemAccount vaultInfo in
    tokenGrants ← vaultTokenGrants (c_vaultPda c) (or_spl (sr_ownedTokens read))
      (or_token2022 (sr_ownedTokens read)) (with_infos watched watchedInfos) trusted;
    let own := (λ r, ai_data r.2) <$> List.find (isOwn c) (sr_authorities read) in
    otherAuthorities ← mapR (otherAuthority trusted (ownRpIdHash own))
      (List.filter (λ r, negb (isOwn c r)) (sr_authorities read));
    sessions ← mapR (liveSession trusted slot) (sr_sessions read);
    deferred ← mapR (pendingDeferred slot) (sr_deferred read);
    let liveSessions := omap id sessions in
    let pending := omap id deferred in
    signatureCount ← (if ownIntact c own then readU32 (default [] own) AUTHORITY_COUNTER else Ok 0);
    Ok (Some (mkFacts c lamports slot otherAuthorities liveSessions pending vaultIsSystemAccount tokenGrants
      (ownIntact c own && vaultIsSystemAccount && forallb oa_trusted otherAuthorities
       && forallb ls_trusted liveSessions && forallb pd_trusted pending && forallb tg_trusted tokenGrants)
      signatureCount)).

Definition describeCandidate (slot : Z) (trusted : list string) (mints : list address)
    (c : PasskeyWalletCandidate) : L (option WalletFacts) :=
  watched ← lift3 (watchedTokenAccounts (c_vaultPda c) mints);
  let layout := LAYOUTS (c_version c) in
  read ← readSpendingState (c_programId c) (c_walletPda c) (c_vaultPda c)
    (vl_authority layout) (vl_session layout) (vl_deferred layout)
    (c_walletPda c :: c_vaultPda c :: watched.*1);
  lift3 (candidate_facts c slot trusted watched read).

Definition live_ones (candidates : list PasskeyWalletCandidate) (wallets : list (option AccountInfo)) :
    list PasskeyWalletCandidate :=
  fst <$> List.filter (λ ci, isLiveWallet (c_programId ci.1) (c_version ci.1) (mjoin (wallets !! ci.2)))
    (zip candidates (seq 0 (length candidates))).

Definition describePasskeyWallets (candidates : list PasskeyWalletCandidate)
    (trustedKeys watchMints : option (list KeyInput)) : L (list WalletFacts) :=
  trusted ← lift3 (mapR (λ k, address_string <$> input_key k) (default [] trustedKeys));
  mints ← lift3 (watchedMints (default [] watchMints));
  if (length candidates =? 0)%nat then mret []
  else
    slot ← getSlot3 env;
    '(_, wallets) ← readAccounts (c_walletPda <$> candidates) None;
    described ← mapBounded env (describeCandidate slot trusted mints) (live_ones candidates wallets)
                  DESCRIBE_CONCURRENCY;
    mret (omap id described).
End lookup.
