(* ===== verification/LegacyHelpers.v ===== *)
(** * The web3.js SDK: the client's helpers

    Models the functions at the top of src/sdk/sdk-legacy/src/utils/client.ts:
    argument checks, the compact layout with its hash, the runtime's view of
    account flags, and the program id inferred from the endpoint.  The owners
    and signers of types.ts are those of [ClientHelpers]. *)
From S2P Require Import Prelude Bytes Kit Constants JsMap Actions Packing Compact Ownership ClientHelpers Client.
From S2P Require Import LegacyWeb3 LegacyCompact LegacyReads.
Local Open Scope Z_scope.

Definition SYSVAR_IX_INDEX_ADD_AUTHORITY : Z := 6.
Definition SYSVAR_IX_INDEX_REMOVE_AUTHORITY : Z := 5.
Definition SYSVAR_IX_INDEX_TRANSFER_OWNERSHIP : Z := 7.
Definition SYSVAR_IX_INDEX_EXECUTE : Z := 4.
Definition SYSVAR_IX_INDEX_CREATE_SESSION : Z := 6.
Definition SYSVAR_IX_INDEX_AUTHORIZE : Z := 6.
Definition SYSVAR_IX_INDEX_REVOKE_SESSION : Z := 5.

Definition assertByteLength (value : bytes) (expected : nat) (name : string) : result unit :=
  throw_if (negb (length value =? expected)%nat) (EByteLength name expected (length value)).

Definition assertNonZeroBytes (value : bytes) (name : string) : result unit :=
  throw_if (forallb (λ b, val b =? 0) value) (EAllZero name).

Definition assertAddAuthorityRole (role : Z) (allowOwner : option bool) (policy : option bytes) : result unit :=
  (throw! EOwnerNeedsOptIn when (role =? ROLE_OWNER) && negb (default false allowOwner);
   throw! ERoleOutOfRange role when (role <? 0) || (2 <? role);
   throw! EDelegateNeedsPolicy when (role =? ROLE_SPENDER)
     && match policy with None => true | Some p => (length p =? 0)%nat end;
   throw! EPolicyRankMismatch when negb (role =? ROLE_SPENDER)
     && match policy with None => false | Some p => (0 <? length p)%nat end;
   Ok ())%js.

Section helpers.
Context `{K : Kit}.

Definition assertSessionActions (actions : option (list SessionAction)) (unrestricted : option bool) : result unit :=
  throw_if (match actions with None => true | Some l => (length l =? 0)%nat end
            && negb (default false unrestricted)) EUnrestrictedSession.

Definition resolveOwnerFields (owner : CreateWalletOwner) : result OwnerFields :=
  match owner with
  | OwnerEd25519 publicKey =>
      let publicKeyBytes := address_encode publicKey in
      _ ← assertNonZeroBytes publicKeyBytes "publicKey";
      Ok (mkOwnerFields AUTH_TYPE_ED25519 publicKeyBytes None None)
  | OwnerSecp256r1 credentialIdHash compressedPubkey rpId =>
      _ ← assertByteLength credentialIdHash 32 "credentialIdHash";
      _ ← assertByteLength compressedPubkey 33 "compressedPubkey";
      _ ← assertNonZeroBytes credentialIdHash "credentialIdHash";
      _ ← assertNonZeroBytes compressedPubkey "compressedPubkey";
      Ok (mkOwnerFields AUTH_TYPE_SECP256R1 credentialIdHash (Some compressedPubkey) (Some rpId))
  end.

(** [merge(m)] into the map keyed by base58 text. *)
Abbreviation FlagMap := (list (string * (bool * bool))).
Definition merge (union : FlagMap) (m : Key) : FlagMap :=
  let key := toBase58 (pubkey m) in
  let u := map_get key union in
  map_set key (k_isSigner m || default false (fst <$> u), k_isWritable m || default false (snd <$> u)) union.

(** [union.get(...)!]: every meta has been merged. *)
Definition with_flags (union : FlagMap) (m : Key) : Key :=
  match map_get (toBase58 (pubkey m)) union with
  | Some (s, w) => mkKey (pubkey m) s w
  | None => m
  end.

Definition withRuntimeFlags (metas : list Key) (feePayer : option address) : list Key :=
  let union := fold_left merge metas [] in
  let union := match feePayer with Some f => merge union (mkKey f true true) | None => union end in
  with_flags union <$> metas.

Record LayoutHash := mkLayoutHash {
  lh_compactInstructions : list CompactInstruction;
  lh_remainingAccounts : list Key;
  lh_allAccountMetas : list Key;
  lh_accountsHash : bytes;
}.

(** The payer is the first fixed account. *)
Definition buildCompactLayoutAndHash (fixedAccounts : list Key) (userInstructions : list TransactionInstruction)
    (feePayer : option address) : result LayoutHash :=
  let fixedKeys := pubkey <$> fixedAccounts in
  payer ← of_option (EExternal "undefined") (fixedKeys !! 0%nat);
  '(compactInstructions, remainingAccounts) ←
    LegacyCompact.buildCompactLayout fixedKeys userInstructions payer;
  let allAccountMetas := withRuntimeFlags (fixedAccounts ++ remainingAccounts) feePayer in
  accountsHash ← LegacyCompact.computeAccountsHash allAccountMetas compactInstructions;
  Ok (mkLayoutHash compactInstructions remainingAccounts allAccountMetas accountsHash).

Definition payerSlot (byte : Z) : bool :=
  let index := (LegacyCompact.decodeAccountIndex byte).1 in (index =? 0) || (index =? 4).

Definition namesDeferredPayerSlot (compactInstructions : list CompactInstruction) : bool :=
  existsb (λ ix, payerSlot (programIdIndex ix) || existsb payerSlot (accountIndexes ix)) compactInstructions.

(** [rpcEndpoint] of the connection. *)
Definition inferProgramIdFromRpc (rpcEndpoint : string) : result address :=
  let rpc := toLowerCase rpcEndpoint in
  if includes "mainnet" rpc then Ok LegacyWeb3.PROGRAM_ID_MAINNET
  else if includes "devnet" rpc then Ok LegacyWeb3.PROGRAM_ID_DEVNET
  else if includes "localhost" rpc || includes "127.0.0.1" rpc || includes "0.0.0.0" rpc
  then Ok LegacyWeb3.PROGRAM_ID_DEVNET
  else Throw (ECannotInferProgram rpcEndpoint).
End helpers.

(** ** The two SDKs agree *)
Lemma role_check_agrees role allowOwner policy :
  assertAddAuthorityRole role allowOwner policy = ClientHelpers.assertAddAuthorityRole role allowOwner policy.
Proof.
  unfold assertAddAuthorityRole, ClientHelpers.assertAddAuthorityRole.
  destruct policy as [[|x p]|]; done.
Qed.

Section agree.
Context `{KL : KitLaws}.

Lemma owner_agrees owner : resolveOwnerFields owner = ClientHelpers.resolveOwnerFields owner.
Proof. done. Qed.

Lemma payer_slot_agrees cs : namesDeferredPayerSlot cs = ClientHelpers.namesDeferredPayerSlot cs.
Proof. done. Qed.

(** The two flags are the two bits of kit's role. *)
Definition flags_of (n : Z) : bool * bool := (Z.testbit n 1, Z.testbit n 0).
Abbreviation flag_map := (relabel toBase58 flags_of).

Lemma merge_agrees u m :
  merge (flag_map u) (web3_key m) = flag_map (union_add u (m_address m) (role_num (m_role m))).
Proof.
  unfold merge, union_add. cbn [web3_key pubkey k_isSigner k_isWritable].
  rewrite map_get_relabel by apply text_inj. rewrite <- (map_set_relabel toBase58 flags_of text_inj).
  f_equal. destruct (role_num_bits (m_role m)) as (_ & Hs & Hw). unfold flags_of.
  rewrite !Z.lor_spec, Hs, Hw, (orb_comm (role_signer _)), (orb_comm (role_writable _)).
  by destruct (map_get (m_address m) u).
Qed.

Lemma merges_agree metas u :
  fold_left merge (web3_key <$> metas) (flag_map u)
  = flag_map (fold_left (λ u m, union_add u (m_address m) (role_num (m_role m))) metas u).
Proof.
  revert u. induction metas as [|m l IH]; intros u; [done|]. rewrite fmap_cons. cbn [fold_left].
  by rewrite merge_agrees, IH.
Qed.

Lemma flags_agree metas feePayer :
  withRuntimeFlags (web3_key <$> metas) feePayer = web3_key <$> withRuntimeRoles metas feePayer.
Proof.
  unfold withRuntimeFlags. change (@nil (string * (bool * bool))) with (flag_map []). rewrite merges_agree.
  set (u := fold_left _ metas []).
  assert (match feePayer with Some f => merge (flag_map u) (mkKey f true true) | None => flag_map u end
    = flag_map (match feePayer with Some f => union_add u f (role_num WRITABLE_SIGNER) | None => u end)) as ->.
  { destruct feePayer as [f|]; [|done]. apply (merge_agrees u (mkMeta f WRITABLE_SIGNER)). }
  pose proof (runtime_union_ok metas feePayer) as Hok. cbv zeta in Hok. fold u in Hok.
  unfold withRuntimeRoles. fold u. set (v := match feePayer with Some _ => _ | None => _ end) in *.
  rewrite <- !list_fmap_compose. apply list_fmap_ext. intros i m Hi. cbn [compose].
  unfold with_flags. cbn [web3_key pubkey m_address m_role]. rewrite map_get_relabel by apply text_inj.
  destruct (Hok (m_address m)) as (Hn & H1 & H0). destruct (role_of_num_bits _ Hn) as [Hs Hw].
  destruct (map_get (m_address m) v) as [n|] eqn:Hg; cbn [fmap option_fmap option_map default] in *.
  - unfold web3_key, flags_of. cbn [m_address m_role]. f_equal; symmetry; [exact Hs | exact Hw].
  - cbn in H1, H0.
    assert (Hin : m ∈ metas ++ fee_payer_metas feePayer) by (apply elem_of_app; left; by eapply list_elem_of_lookup_2).
    unfold web3_key. cbn [m_address m_role]. f_equal.
    + change (role_signer (m_role m) = false). destruct (role_signer (m_role m)) eqn:E; [|done]. rewrite H1.
      symmetry. apply existsb_exists. exists m. split; [by apply list_elem_of_In|]. by rewrite bool_decide_eq_true_2, E.
    + change (role_writable (m_role m) = false). destruct (role_writable (m_role m)) eqn:E; [|done]. rewrite H0.
      symmetry. apply existsb_exists. exists m. split; [by apply list_elem_of_In|]. by rewrite bool_decide_eq_true_2, E.
Qed.

(** kit's layout, as web3.js has it. *)
Definition web3_hash (l : LayoutAndHash) : LayoutHash :=
  mkLayoutHash (la_compactInstructions l) (web3_key <$> la_remainingAccounts l)
    (web3_key <$> la_allAccountMetas l) (la_accountsHash l).

Lemma layout_hash_agrees (first : AccountMeta) (rest : list AccountMeta) (ixs : list Instruction) feePayer :
  buildCompactLayoutAndHash (web3_key <$> first :: rest) (web3_ix <$> ixs) feePayer
  = web3_hash <$> Client.buildCompactLayoutAndHash (first :: rest) ixs (m_address first) feePayer.
Proof.
  unfold buildCompactLayoutAndHash, Client.buildCompactLayoutAndHash. cbv zeta.
  assert (pubkey <$> (web3_key <$> first :: rest) = m_address <$> first :: rest) as ->
    by (by rewrite <- list_fmap_compose).
  change ((m_address <$> first :: rest) !! 0%nat) with (Some (m_address first)). cbn [of_option].
  rewrite bind_ok, layout_agrees. destruct (Compact.buildCompactLayout _ ixs (m_address first)) as [[cs rem]|]; [|done].
  change (web3_layout <$> Ok (cs, rem)) with (Ok (E := error) (cs, web3_key <$> rem)). rewrite !bind_ok.
  rewrite <- fmap_app, flags_agree, hash_agrees. by destruct (Packing.computeAccountsHash _ cs).
Qed.
End agree.
