(* ===== verification/LegacyVetting.v ===== *)
(** * The web3.js SDK: the client's lookups

    Models the methods of [LazorKitClient] (src/sdk/sdk-legacy/src/utils/client.ts)
    that look for wallets and authorities and vet the destination of a migration.
    Two of them the kit SDK does not have: the authorities of a wallet with their
    policies, and whether a wallet is recoverable. *)
From S2P Require Import Prelude Bytes Kit Constants JsMap Pdas Builders Accounts Ownership V1 ClientHelpers.
From S2P Require Import Client WorkerPool WalletLookup.
From S2P Require Import LegacyWeb3 LegacyActions LegacyReads LegacyCalls LegacyOwnership LegacyV1 LegacyLookup LegacyHelpers.
Local Open Scope Z_scope.

Section vetting.
Context `{K : Kit} {W : Web3Pda} {W' : Web3Keys}.
Variable env : Web3Env.
Variable programId : address.

Abbreviation AccountRow := (address * AccountInfo)%type.

Definition findWallet (userSeed : bytes) : L (address * Z) := lift3 (LegacyWeb3.findWalletPda userSeed programId).
Definition findVault (walletPda : address) : L (address * Z) := lift3 (LegacyWeb3.findVaultPda walletPda programId).

(** ** By authority *)
Definition authority_at (r : AccountRow) : L WalletAuthorityRecord :=
  let data := ai_data r.2 in
  walletPda ← lift3 (new_key (slice 16 48 data));
  '(vaultPda, _) ← findVault walletPda;
  mret (mkWar walletPda r.1 vaultPda (byte_at data 2) (byte_at data 1)).

Definition findWalletsByAuthority (credential : bytes) (authorityType : AuthorityTypeName) :
    L (list WalletAuthorityRecord) :=
  _ ← lift3 (assertByteLength credential 32 "credential");
  let typeValue := match authorityType with Ed25519 => AUTH_TYPE_ED25519 | Secp256r1 => AUTH_TYPE_SECP256R1 end in
  '(_, accounts) ← getProgramAccounts3 env programId
    [(0%nat, [u8 DISC_AUTHORITY; u8 typeValue]); (48%nat, credential)] None;
  mapM authority_at accounts.

(** ** A passkey's own wallet *)
Definition findPasskeyWalletCandidates (credentialIdHash : bytes) (rpId : string) (includeV1 : option bool) :
    L (list PasskeyWalletCandidate) := scanPasskeyWalletCandidates env programId credentialIdHash rpId includeV1.

Definition describeWalletCandidates (candidates : list PasskeyWalletCandidate)
    (trustedKeys watchMints : option (list KeyInput)) : L (list WalletFacts) :=
  describePasskeyWallets env candidates trustedKeys watchMints.

Definition findOwnPasskeyWallet (credentialIdHash : bytes) (rpId : string) (proof : OwnershipProof)
    (trustedKeys watchMints : option (list KeyInput)) (includeV1 : option bool) : L OwnWallet :=
  candidates ← findPasskeyWalletCandidates credentialIdHash rpId includeV1;
  let proven := LegacyOwnership.verifyOwnershipProof c_publicKey candidates proof rpId in
  let unproven := Z.of_nat (length candidates) - Z.of_nat (length proven) in
  if (length proven =? 0)%nat then mret (mkOwnWallet None [] unproven)
  else
    facts ← describeWalletCandidates proven trustedKeys watchMints;
    let '(adopt, needsConfirmation) := LegacyOwnership.pickOwnWallet facts in
    mret (mkOwnWallet adopt needsConfirmation unproven).

(** ** A migration's destination *)
Definition assertV1PasskeyOwner (authority : address) (owner : CreateWalletOwner) : L unit :=
  fields ← lift3 (resolveOwnerFields owner);
  info ← getAccountInfo3 env authority;
  match info with
  | None => lift3 (Throw EAuthorityNotFound)
  | Some i =>
    let data := ai_data i in
    lift3 (throw! ENotPasskeyAuthority when (length data <? 145)%nat;
           throw! EOwnerKeyMismatch
             when negb (Bytes.bytesEqual (slice 80 113 data) (default [] (secp256r1Pubkey fields)));
           throw! EOwnerRpMismatch
             when negb (Bytes.bytesEqual (slice 113 145 data) (sha256 (utf8 (default "" (of_rpId fields)))));
           Ok ())%js
  end.

(** [xs.some((x) => expiry(x.account.data) >= slot)]. *)
Fixpoint some_unexpired (expiry : bytes → result Z) (slot : Z) (rows : list AccountRow) : result bool :=
  match rows with
  | [] => Ok false
  | r :: rows =>
    e ← expiry (ai_data r.2);
    if slot <=? e then Ok true else some_unexpired expiry slot rows
  end.

(** The checks on what was read, in order. *)
Definition inspect (vault : address) (fields : OwnerFields) (watched : list (address * address))
    (slot : Z) (read : SpendingRead) : result Vet :=
  let fail problem := Ok (mkVetted (Some problem) (sr_slot read) 0) in
  let walletInfo := mjoin (sr_infos read !! 0%nat) in
  let vaultInfo := mjoin (sr_infos read !! 1%nat) in
  let watchedInfos := drop 2 (sr_infos read) in
  if negb (match walletInfo with
           | Some i => bool_decide (ai_owner i = programId) && byte_is (ai_data i) 0 DISC_WALLET
           | None => false end) then fail NotAWallet
  else match sr_authorities read with
  | [(_, info)] =>
    let a := ai_data info in
    if negb (byte_is a 1 (authType fields)) || negb (byte_is a 2 ROLE_OWNER)
       || negb (Bytes.bytesEqual (slice 48 80 a) (credentialOrPubkey fields))
    then fail NotThisKeysAlone
    else if (authType fields =? AUTH_TYPE_SECP256R1)
         && (negb (Bytes.bytesEqual (slice 80 113 a) (default [] (secp256r1Pubkey fields)))
             || negb (Bytes.bytesEqual (slice 113 145 a) (sha256 (utf8 (default "" (of_rpId fields))))))
    then fail OtherKeyOrParty
    else
      liveSession ← some_unexpired sessionExpiry slot (sr_sessions read);
      if (liveSession : bool) then fail HasLiveSession
      else
        pending ← some_unexpired deferredExpiry slot (sr_deferred read);
        if (pending : bool) then fail HasPendingDeferred
        else if negb (isPlainSystemAccount vaultInfo) then
          match vaultInfo with
          | Some i => fail (if bool_decide (ai_owner i = SYSTEM_PROGRAM_ADDRESS) then VaultCarriesData
                            else VaultOwnedBy (ai_owner i))
          | None => Throw (EExternal "TypeError")
          end
        else
          grants ← LegacyLookup.vaultTokenGrants vault (or_spl (sr_ownedTokens read))
            (or_token2022 (sr_ownedTokens read)) (with_infos watched watchedInfos) [];
          match grants with
          | grant :: _ => fail (VaultGrant grant)
          | [] =>
            signatureCount ← (if authType fields =? AUTH_TYPE_SECP256R1 then readU32 a 8 else Ok 0);
            Ok (mkVetted None (sr_slot read) signatureCount)
          end
  | l => fail (AuthorityCount (length l))
  end.

Definition inspectMigrationDestination (wallet : address) (owner : CreateWalletOwner) (mints : list address) : L Vet :=
  fields ← lift3 (resolveOwnerFields owner);
  slot ← getSlot3 env;
  '(vault, _) ← findVault wallet;
  watched ← lift3 (watchedTokenAccounts vault mints);
  read ← LegacyLookup.readSpendingState env programId wallet vault DISC_AUTHORITY DISC_SESSION DISC_DEFERRED_EXEC
    (wallet :: vault :: watched.*1);
  lift3 (inspect vault fields watched slot read).

Definition vetMigrationDestination (wallet : address) (owner : CreateWalletOwner)
    (watchMints : option (list KeyInput)) : L (option Refusal) :=
  mints ← lift3 (LegacyLookup.watchedMints (default [] watchMints));
  vet ← inspectMigrationDestination wallet owner mints;
  mret (vt_problem vet).

(** ** The owner's passkey on other accounts *)

(** The filter; the counter is read only of an account that passed the rest. *)
Definition signed_by (fields : OwnerFields) (rpIdHash : bytes) (r : AccountRow) : result bool :=
  let data := ai_data r.2 in
  if (145 <=? length data)%nat
     && Bytes.bytesEqual (slice 80 113 data) (default [] (secp256r1Pubkey fields))
     && Bytes.bytesEqual (slice 113 145 data) rpIdHash
  then counter ← readU32 data 8; Ok (0 <? counter) else Ok false.

Definition signed_entry (r : AccountRow) : result SignedAuthority :=
  walletPda ← new_key (slice 16 48 (ai_data r.2));
  Ok (mkSignedAuthority walletPda r.1 (byte_at (ai_data r.2) 2)).

Definition signedPasskeyAuthorities (owner : CreateWalletOwner) : L (list SignedAuthority) :=
  fields ← lift3 (resolveOwnerFields owner);
  let rpIdHash := sha256 (utf8 (default "" (of_rpId fields))) in
  '(_, accounts) ← getProgramAccounts3 env programId
    [(0%nat, [u8 DISC_AUTHORITY; u8 AUTH_TYPE_SECP256R1]);
     (48%nat, credentialOrPubkey fields); (113%nat, rpIdHash)] None;
  kept ← lift3 (mapR (signed_by fields rpIdHash) accounts);
  lift3 (mapR signed_entry (fst <$> List.filter snd (zip accounts kept))).

(** ** Only in this SDK *)
Record AuthoritySummary := mkSummary {
  as_authorityPda : address;
  as_role : option Z;
  as_authorityType : option Z;
  as_counter : Z;
  as_policyLen : Z;
  as_isBounded : bool;
  as_policy : option bytes;
}.

Definition summary_of (r : AccountRow) : result AuthoritySummary :=
  let data := ai_data r.2 in
  policyLen ← getUint 2 12 data;
  let fixedLen := if byte_is data 1 AUTH_TYPE_SECP256R1 then 145%nat else 80%nat in
  let policy := if (0 <? policyLen) && (fixedLen + Z.to_nat policyLen <=? length data)%nat
                then Some (slice fixedLen (fixedLen + Z.to_nat policyLen) data) else None in
  counter ← readU32 data 8;
  Ok (mkSummary r.1 (byte_at data 2) (byte_at data 1) counter policyLen (0 <? policyLen) policy).

Definition findAuthoritiesByWallet (walletPda : address) : L (list AuthoritySummary) :=
  '(_, accounts) ← getProgramAccounts3 env programId
    [(0%nat, [u8 DISC_AUTHORITY]); (16%nat, address_encode walletPda)] None;
  lift3 (mapR summary_of accounts).

Record RecoveryStatus := mkRecovery { ownerCount : Z; isRecoverable : bool }.

Definition getRecoveryStatus (walletPda : address) : L RecoveryStatus :=
  info ← getAccountInfo3 env walletPda;
  match info with
  | None => lift3 (Throw EWalletNotFound)
  | Some i =>
    if (length (ai_data i) <? 8)%nat then lift3 (Throw EWalletNotFound)
    else lift3 (count ← readU32 (ai_data i) 4; Ok (mkRecovery count (1 <? count)))
  end.
End vetting.
