(* ===== verification/LegacyLookupParity.v ===== *)
(** * The two SDKs find the same wallets

    The lookups of the web3.js SDK against those of the kit SDK: on the same
    node they make the same reads, report the same facts and adopt the same
    wallet. *)
From S2P Require Import Prelude Bytes Kit Constants JsMap Pdas Builders Accounts Ownership V1 ClientHelpers.
From S2P Require Import Client WorkerPool WalletLookup.
From S2P Require Import LegacyWeb3 LegacyCompact LegacyActions LegacyReads LegacyCalls LegacyOwnership LegacyV1 LegacyLookup LegacyHelpers LegacyVetting.
Local Open Scope Z_scope.

Lemma maxSlot_2 a b : maxSlot a [b] = Z.max a b.
Proof. unfold maxSlot. cbn. destruct (Z.ltb_spec b a); lia. Qed.

Section vault.
Context `{KL : KitLaws} {W : Web3Pda} {W' : Web3Keys} {WL : Web3KeysLaws W'}.
Hypothesis same_derivation : ∀ seeds programId,
  findProgramAddressSync seeds programId = getProgramDerivedAddress programId seeds.

Abbreviation row_data := (λ r : address * AccountInfo, (r.1, ai_data r.2)).
Definition pair_of (i : option AccountInfo) : option (address * bytes) := (λ i, (ai_owner i, ai_data i)) <$> i.

(** What the kit SDK's readers make of an answer. *)
Definition read_view (i : option AccountInfo) : option AccountRead :=
  (λ i, mkRead (ai_owner i) (ai_lamports i) (ai_data i)) <$> i.

Lemma owner_data_view i : owner_data (read_view i) = pair_of i.
Proof. by destruct i. Qed.

Lemma read_of_view i : read_of (kit_info i) = Ok (read_view i).
Proof. destruct i as [i|]; [|done]. cbn [kit_info fmap option_fmap option_map read_of]. by rewrite decode_kit_view. Qed.

Lemma mapR_view l : mapR read_of (kit_info <$> l) = Ok (read_view <$> l).
Proof. induction l as [|i l IH]; [done|]. rewrite fmap_cons. cbn [mapR]. by rewrite read_of_view, IH. Qed.

Lemma row_of_entry r : row_of (kit_entry r) = Ok (row_data r).
Proof. unfold row_of. cbn [kit_entry fst snd]. by rewrite decode_kit_view. Qed.

Lemma mapR_row_of l : mapR row_of (kit_entry <$> l) = Ok ((row_data <$> l : list (address * bytes))).
Proof. induction l as [|r l IH]; [done|]. rewrite fmap_cons. cbn [mapR]. by rewrite row_of_entry, IH. Qed.

Lemma system_agrees i : isSystemAccount (pair_of i) = isPlainSystemAccount i.
Proof. by destruct i. Qed.

Lemma live_agrees programId version i :
  ClientHelpers.isLiveWallet programId version (pair_of i) = isLiveWallet programId version i.
Proof.
  destruct i as [i|]; [|done]. cbn. f_equal; [f_equal; by destruct (ai_data i)|].
  unfold LAYOUTS, wallet_disc. by destruct (version =? 1).
Qed.

Lemma trusts_agrees (trusted : list address) a :
  trusts (address_string <$> trusted) a = bool_decide (a ∈ trusted).
Proof.
  unfold trusts. apply bool_decide_ext. rewrite list_elem_of_fmap. split; [|eauto].
  by intros (b & ->%address_string_inj & ?).
Qed.

(** Keys out of range never arise: the slices are 32 bytes long. *)
Lemma slice_key (s e : nat) data : (s + 32)%nat = e → (e <= length data)%nat →
  addressFromBytes (slice s e data) = new_key (slice s e data).
Proof.
  intros <- Hl. destruct (key_agrees "decode" (slice s (s + 32) data)) as (a & Ha & Hk & _).
  - rewrite length_slice. lia.
  - unfold addressFromBytes. by rewrite Ha, Hk.
Qed.

Lemma right_agrees pk tp mint vault trusted data kind offset : (offset + 36 <= length data)%nat →
  grant_at pk tp mint vault trusted data kind offset
  = right_at pk tp mint vault (address_string <$> trusted) data kind offset.
Proof.
  intros Hl. unfold grant_at, right_at. destruct (readU32 data offset) as [tag|]; [|done]. rewrite !bind_ok.
  destruct (tag =? 0); [done|]. rewrite slice_key by lia.
  destruct (new_key _) as [g|]; [|done]. rewrite !bind_ok, trusts_agrees. done.
Qed.

Lemma grants_agree tp vault trusted r :
  grants_of tp vault trusted (row_data r)
  = tokenAccountGrants r.1 tp (ai_data r.2) vault (address_string <$> trusted).
Proof.
  unfold grants_of, tokenAccountGrants. change ClientHelpers.TOKEN_ACCOUNT_LEN with TOKEN_ACCOUNT_LEN.
  destruct (Nat.ltb_spec (length (ai_data r.2)) TOKEN_ACCOUNT_LEN) as [|Hl]; [done|]. unfold TOKEN_ACCOUNT_LEN in Hl.
  rewrite slice_key by lia. destruct (new_key _) as [mint|]; [|done]. rewrite !bind_ok.
  rewrite !right_agrees; [done|..]; cbv [ClientHelpers.TOKEN_CLOSE_AUTHORITY ClientHelpers.TOKEN_DELEGATE]; lia.
Qed.

Lemma grants_on_agrees rows tp vault trusted :
  grantsOn (row_data <$> rows) tp vault trusted
  = gs ← mapR (λ r, tokenAccountGrants r.1 tp (ai_data r.2) vault (address_string <$> trusted)) rows; Ok (concat gs).
Proof.
  unfold grantsOn. rewrite mapR_compose. erewrite mapR_ext_in; [done|].
  apply Forall_forall. intros r _. apply grants_agree.
Qed.

(** A watched account, as the kit SDK has it. *)
Definition watched_view (w : WatchedAccount) : Watched := mkWatched (wa_address w) (wa_mint w) (pair_of (wa_info w)).

Lemma handed_agrees vault trusted w :
  watched_grant vault trusted (watched_view w) = handed_over vault (address_string <$> trusted) w.
Proof.
  destruct w as [a m [i|]]; [|done]. unfold watched_grant, handed_over.
  cbn [watched_view wa_address wa_mint wa_info wt_info wt_address wt_mint pair_of fmap option_fmap option_map].
  case_bool_decide; [|done]. cbn [negb]. change (TOKEN_OWNER + 32)%nat with 64%nat. change TOKEN_OWNER with 32%nat.
  destruct (Nat.ltb_spec (length (ai_data i)) 64); [done|]. rewrite slice_key by lia.
  destruct (new_key _) as [o|]; [|done]. rewrite !bind_ok, trusts_agrees. done.
Qed.

Lemma vault_grants_agree vault spl token2022 watched trusted :
  ClientHelpers.vaultTokenGrants vault (row_data <$> spl) (row_data <$> token2022) (watched_view <$> watched) trusted
  = vaultTokenGrants vault spl token2022 watched (address_string <$> trusted).
Proof.
  unfold ClientHelpers.vaultTokenGrants, vaultTokenGrants. rewrite !grants_on_agrees, mapR_compose.
  destruct (mapR _ spl) as [a|]; [|done]. rewrite !bind_ok.
  destruct (mapR _ token2022) as [b|]; [|done]. rewrite !bind_ok.
  erewrite mapR_ext_in; [done|]. apply Forall_forall. intros w _. apply handed_agrees.
Qed.

Lemma problem_agrees dest i tp vault :
  destinationTokenAccountProblem dest (ai_owner i, ai_data i) tp vault = tokenAccountProblem dest i vault tp.
Proof.
  unfold destinationTokenAccountProblem, tokenAccountProblem. case_bool_decide; [|done]. cbn [negb].
  change ClientHelpers.TOKEN_ACCOUNT_LEN with TOKEN_ACCOUNT_LEN.
  destruct (Nat.ltb_spec (length (ai_data i)) TOKEN_ACCOUNT_LEN) as [|Hl]; [done|]. unfold TOKEN_ACCOUNT_LEN in Hl.
  change (TOKEN_OWNER + 32)%nat with 64%nat. change TOKEN_OWNER with 32%nat.
  rewrite slice_key by lia. destruct (new_key _) as [o|]; [|done]. rewrite !bind_ok. case_bool_decide; [|done].
  cbn [negb]. pose proof (grants_on_agrees [(dest, i)] tp vault []) as Hg. cbn [fmap list_fmap fst snd] in Hg.
  rewrite Hg. cbn [mapR fst snd]. destruct (tokenAccountGrants _ _ _ _ _) as [g|]; [|done].
  rewrite !bind_ok. cbn [concat]. by rewrite app_nil_r.
Qed.

Lemma ata_agrees mint vault tp :
  same_result eq (Pdas.getAssociatedTokenAddress mint vault tp) (getAssociatedTokenAddress mint vault tp).
Proof.
  unfold Pdas.getAssociatedTokenAddress, getAssociatedTokenAddress.
  eapply same_fmap; [by apply derive_agrees|]. by intros ? ? ->.
Qed.

Lemma input_agrees k : same_result eq (of_option (EExternal "address") (parse_address (key_text k))) (input_key k).
Proof.
  destruct k as [s|a]; cbn [key_text input_key].
  - apply same_external. destruct (parse_address s); by constructor.
  - rewrite parse_own_string. by constructor.
Qed.

Lemma add_mints_agree extra mints : same_result eq (push_mints mints (key_text <$> extra)) (add_mints mints extra).
Proof.
  revert mints. induction extra as [|k l IH]; intros mints; [by constructor|]. rewrite fmap_cons.
  cbn [push_mints add_mints]. eapply same_bind; [apply input_agrees|]. intros mint ? <-.
  assert (existsb (λ w, bool_decide (w = mint)) mints = bool_decide (mint ∈ mints)) as ->.
  { induction mints as [|w ms IHm]; [done|]. cbn [existsb]. rewrite IHm.
    rewrite (bool_decide_ext (mint ∈ w :: ms) (w = mint ∨ mint ∈ ms))
      by (rewrite elem_of_cons; split; intros [|]; subst; auto). by rewrite bool_decide_or. }
  case_bool_decide; apply IH.
Qed.

Lemma watched_mints_agree extra :
  same_result eq (ClientHelpers.watchedMints (key_text <$> extra)) (watchedMints extra).
Proof. apply add_mints_agree. Qed.

Lemma watched_accounts_agree vault mints :
  same_result (λ atas watched, watched.*1 = atas ∧ watched.*2 = mints)
    (watchedAtasOf vault mints) (watchedTokenAccounts vault mints).
Proof.
  unfold watchedAtasOf, watchedTokenAccounts. induction mints as [|m ms IH]; [by constructor|]. cbn [mapR].
  destruct (ata_agrees m vault TOKEN_PROGRAM_ADDRESS) as [a ? <-|e' e He]; [|by constructor].
  rewrite !bind_ok. eapply same_bind; [exact IH|]. intros atas watched [<- <-]. by constructor.
Qed.
End vault.

(** ** The reads *)
Section reads.
Context `{KL : KitLaws} {W : Web3Pda} {W' : Web3Keys} {WL : Web3KeysLaws W'}.
Hypothesis same_derivation : ∀ seeds programId,
  findProgramAddressSync seeds programId = getProgramDerivedAddress programId seeds.
Variable env : Web3Env.
Abbreviation kenv := (kit_env env).
Abbreviation row_data := (λ r : address * AccountInfo, (r.1, ai_data r.2)).

Lemma coded_min e : is_min_context_slot (coded_error e) = minContextSlotNotReached e.
Proof. destruct e; try done. cbn. by case_bool_decide. Qed.

(** Retries of one call: the node is recognised as behind by both or by neither. *)
Lemma agree_retry {A B} s more (f : B → A) (call : nat → result B) :
  agree s (λ x y, x = f y) (WalletLookup.atOrAfterSlot more (n ← ask; lift (coded f (call n))))
    (atOrAfterSlot more (n ← ask3; lift3 (call n))).
Proof.
  induction more as [|more IH]; intros c; cbn [WalletLookup.atOrAfterSlot atOrAfterSlot].
  all: unfold mbind, M_bind, L_bind, ask, ask3, lift, lift3; cbn [fst snd web3_of l_asked].
  - right. destruct (call (asked c)) as [b|e]; cbn [coded]; [by split; constructor|].
    split; [done|]. constructor. apply same_error_coded.
  - destruct (call (asked c)) as [b|e]; cbn [coded]; [right; by split; constructor|]. rewrite coded_min.
    destruct (minContextSlotNotReached e); [|right; split; [done|constructor; apply same_error_coded]].
    exact (IH (mkClient _ _ _)).
Qed.

(** A page decoded without an error is only a value. *)
Lemma agree_ok_l {A B C} s (R : B → C → Prop) (x : A) f (l : L C) :
  agree s R (f x) l → agree s R (lift (Ok x) ≫= f) l.
Proof. exact id. Qed.

Lemma agree_view {A B C} s (R : A → C → Prop) (S : B → C → Prop) m (f : A → M B) (l : L C) :
  agree s R m l → (∀ x y, R x y → ∃ z, f x = mret z ∧ S z y) → agree s S (m ≫= f) l.
Proof.
  intros H HS c. unfold mbind, M_bind. specialize (H c). destruct (m c) as [c1 r]. cbn [fst snd] in H.
  destruct H as [H|[H1 H2]]; [by left|right]. destruct H2 as [x y Hxy|e' e He]; [|by split; [|constructor]].
  destruct (HS x y Hxy) as (z & -> & Hz). by split; [|constructor].
Qed.

Definition same_read (x : Z * list (option AccountRead)) (y : Z * list (option AccountInfo)) : Prop :=
  x = (y.1, read_view <$> y.2).
Definition same_scan (x : Z * list (address * bytes)) (y : Z * list (address * AccountInfo)) : Prop :=
  x = (y.1, row_data <$> y.2).

Lemma agree_read_pages s fuel keys m slot infos :
  agree s same_read (WalletLookup.read_pages kenv fuel keys m slot (read_view <$> infos))
    (read_keys env fuel keys m slot infos).
Proof.
  revert keys slot infos. induction fuel as [|fuel IH]; intros [|a keys] slot infos; try by apply agree_ret.
  cbn [WalletLookup.read_pages read_keys]. eapply agree_bind.
  { apply (agree_retry s 4 kit_infos (λ n, l_getMultipleAccounts env n (take 100 (a :: keys)) m)). }
  intros [slot' value'] [slot'' value] [= -> ->]. cbn [fst snd]. rewrite mapR_view.
  apply agree_ok_l. rewrite maxSlot_2, <- fmap_app. apply IH.
Qed.

Lemma agree_readAccounts s keys m :
  agree s same_read (WalletLookup.readAccounts kenv keys m) (readAccounts env keys m).
Proof. apply (agree_read_pages s _ _ _ _ []). Qed.

Lemma agree_scan s programId wallet disc offset m :
  agree s same_scan (WalletLookup.scanWalletAccounts kenv programId wallet disc offset m)
    (scanWalletAccounts env programId wallet disc offset m).
Proof.
  eapply agree_bind; [apply (agree_retry s 4 kit_rows (λ n, l_getProgramAccounts env n programId _ m))|].
  intros [slot' value'] [slot value] [= -> ->]. cbn [fst snd]. rewrite mapR_row_of. apply agree_ok_l.
  by apply agree_ret.
Qed.

Lemma agree_tokens s vault program m :
  agree s same_scan (WalletLookup.readTokenAccounts kenv vault program m)
    (atOrAfterSlot (MIN_CONTEXT_SLOT_TRIES - 1) (getTokenAccountsByOwner3 env vault program m)).
Proof.
  eapply agree_view; [apply (agree_retry s 4 kit_rows (λ n, l_getTokenAccountsByOwner env n vault program m))|].
  intros [slot' value'] [slot value] [= -> ->]. cbn [fst snd]. rewrite mapR_row_of. by eexists.
Qed.

Definition owned_view (o : OwnedRows) : OwnedTokens :=
  mkOwned (or_slot o) (row_data <$> or_spl o) (row_data <$> or_token2022 o).
Definition spending_view (r : SpendingRead) : SpendingState :=
  mkSpending (row_data <$> sr_authorities r) (row_data <$> sr_sessions r) (row_data <$> sr_deferred r)
    (read_view <$> sr_infos r) (owned_view (sr_ownedTokens r)) (sr_slot r).

Lemma agree_vault_tokens vault m :
  agree true (λ x y, x = owned_view y) (WalletLookup.readVaultTokenAccounts kenv vault m)
    (readVaultTokenAccounts env vault m).
Proof.
  eapply agree_bind; [apply agree_both; apply agree_tokens|].
  intros [[s1 spl] [s2 t22]] [x y] [[= -> ->] [= -> ->]]. cbn [fst snd]. apply agree_ret.
  by rewrite maxSlot_2.
Qed.

Lemma padded_view (infos : list (option AccountInfo)) n :
  (λ i, mjoin ((read_view <$> infos) !! i)) <$> seq 0 n = read_view <$> ((λ i, mjoin (infos !! i)) <$> seq 0 n).
Proof. rewrite <- list_fmap_compose. apply list_fmap_ext. intros ? i _. cbn. rewrite list_lookup_fmap. by destruct (infos !! i). Qed.

Lemma agree_spending programId wallet vault discs authority session deferred keys :
  d_authority discs = authority → d_session discs = session → d_deferred discs = deferred →
  agree true (λ x y, x = spending_view y ∧ length (sr_infos y) = length keys)
    (WalletLookup.readSpendingState kenv programId wallet vault discs keys)
    (readSpendingState env programId wallet vault authority session deferred keys).
Proof.
  intros <- <- <-. unfold WalletLookup.readSpendingState, readSpendingState.
  eapply agree_bind; [apply agree_scan|]. intros [t1 au] [t1' au'] [= -> ->].
  eapply agree_bind; [apply agree_both; apply agree_scan|].
  intros [[t2 se] [t3 de]] [x y] [[= -> ->] [= -> ->]]. cbn [fst snd]. destruct x as [x1 x2], y as [y1 y2].
  cbn [fst snd]. rewrite maxSlot_2. eapply agree_bind.
  { apply agree_both; [apply agree_readAccounts|apply agree_vault_tokens]. }
  intros [[t4 infos] o] [[t4' infos'] o'] [[= -> ->] [= ->]]. apply agree_ret.
  split; [|cbn [sr_infos]; by rewrite length_fmap, length_seq].
  unfold spending_view. cbn [sr_authorities sr_sessions sr_deferred sr_infos sr_ownedTokens sr_slot owned_view ot_slot].
  by rewrite maxSlot_2, padded_view.
Qed.
End reads.

(** ** The facts *)
Section facts.
Context `{KL : KitLaws} {W : Web3Pda} {W' : Web3Keys} {WL : Web3KeysLaws W'}.
Hypothesis same_derivation : ∀ seeds programId,
  findProgramAddressSync seeds programId = getProgramDerivedAddress programId seeds.
Abbreviation row_data := (λ r : address * AccountInfo, (r.1, ai_data r.2)).

Lemma other_agrees trusted h r :
  other_authority trusted h (row_data r) = otherAuthority (address_string <$> trusted) h r.
Proof.
  unfold other_authority, otherAuthority. destruct (byte_is _ 1 _).
  - change (80 <=? length (ai_data r.2))%nat with (AUTHORITY_ED25519_LEN <=? length (ai_data r.2))%nat.
    destruct (Nat.leb_spec AUTHORITY_ED25519_LEN (length (ai_data r.2))) as [Hl|]; [|done].
    unfold AUTHORITY_ED25519_LEN, AUTHORITY_KEY in *. rewrite slice_key by lia.
    destruct (new_key _) as [k|]; [|done]. cbn [fmap outcome_fmap]. rewrite !bind_ok, trusts_agrees. done.
  - destruct h as [h|]; [|done]. by rewrite bytesEqual_agrees.
Qed.

Lemma session_agrees trusted slot r :
  live_session trusted slot (row_data r) = liveSession (address_string <$> trusted) slot r.
Proof.
  unfold live_session, liveSession, sessionExpiry. change (SESSION_EXPIRES_AT + 8)%nat with 80%nat.
  destruct (Nat.leb_spec 80 (length (ai_data r.2))) as [Hl|]; [|by rewrite !bind_ok].
  unfold SESSION_EXPIRES_AT. destruct (readU64 _ _) as [e|]; [|done]. rewrite !bind_ok. destruct (e <? slot); [done|].
  unfold SESSION_KEY. cbn [Nat.add]. rewrite slice_key by lia. destruct (new_key _); [|done].
  by rewrite !bind_ok, trusts_agrees.
Qed.

Lemma pending_agrees slot r : pending_deferred slot (row_data r) = pendingDeferred slot r.
Proof.
  unfold pending_deferred, pendingDeferred, deferredExpiry. change (DEFERRED_EXPIRES_AT + 8)%nat with 176%nat.
  destruct (Nat.leb_spec 176 (length (ai_data r.2))) as [Hl|]; [|by rewrite !bind_ok].
  unfold DEFERRED_EXPIRES_AT. destruct (readU64 _ _) as [e|]; [|done]. rewrite !bind_ok. destruct (e <? slot); [done|].
  unfold DEFERRED_AUTHORITY. cbn [Nat.add]. rewrite slice_key by lia. by destruct (new_key _).
Qed.

Lemma intact_agrees c own : own_intact c own = ownIntact c own.
Proof. unfold own_intact, ownIntact. destruct own as [d|]; [|done]. by rewrite bytesEqual_agrees. Qed.

Lemma find_row (p : address * bytes → bool) rows :
  List.find p (row_data <$> rows) = row_data <$> List.find (λ r, p (row_data r)) rows.
Proof. induction rows as [|r l IH]; [done|]. rewrite fmap_cons. cbn [List.find]. by destruct (p _). Qed.

Lemma filter_row (p : address * bytes → bool) rows :
  List.filter p (row_data <$> rows) = row_data <$> List.filter (λ r, p (row_data r)) rows.
Proof. induction rows as [|r l IH]; [done|]. rewrite fmap_cons. cbn [List.filter]. rewrite IH. by destruct (p _). Qed.

Lemma mapR_row {B} (f : address * bytes → result B) g rows :
  (∀ r, f (row_data r) = g r) → mapR f (row_data <$> rows) = mapR g rows.
Proof. intros H. rewrite mapR_compose. apply mapR_ext_in, Forall_forall. intros r _. apply H. Qed.

Lemma watched_agrees (watched : list (address * address)) infos : length infos = length watched →
  watched_of watched.*1 watched.*2 (read_view <$> infos) = watched_view <$> with_infos watched infos.
Proof.
  intros Hl. apply list_eq. intros i. unfold watched_of, with_infos.
  rewrite list_lookup_fmap, !lookup_zip_with, !list_lookup_fmap.
  destruct (watched !! i) as [[a m]|] eqn:Hw; [|done].
  pose proof (lookup_lt_Some _ _ _ Hw) as Hi. rewrite lookup_seq_lt by done.
  destruct (lookup_lt_is_Some_2 infos i) as [x Hx]; [lia|]. rewrite Hx. cbn. rewrite Hx. by destruct x.
Qed.

(** What can be computed of an answer is computed: no account makes it throw. *)
Lemma grants_total vault spl token2022 watched trusted :
  ∃ gs, LegacyLookup.vaultTokenGrants vault spl token2022 watched (address_string <$> trusted) = Ok gs.
Proof.
  rewrite <- vault_grants_agree. unfold ClientHelpers.vaultTokenGrants.
  destruct (grantsOn_spec (row_data <$> spl) TOKEN_PROGRAM_ADDRESS vault trusted) as (a & -> & _).
  destruct (grantsOn_spec (row_data <$> token2022) TOKEN_2022_PROGRAM_ADDRESS vault trusted) as (b & -> & _).
  destruct (mapR_lists (watched_grant vault trusted) (watched_clean vault) (watched_view <$> watched))
    as (c & -> & _); [intros; apply watched_grant_spec|]. rewrite !bind_ok. by eexists.
Qed.

Lemma facts_agree c slot trusted watched read : length (sr_infos read) = S (S (length watched)) →
  facts_of c slot trusted watched.*2 watched.*1 (spending_view read)
  = candidate_facts c slot (address_string <$> trusted) watched read.
Proof.
  intros Hl. unfold facts_of, candidate_facts. destruct (sr_infos read) as [|i0 [|i1 infos]] eqn:Hi; [done..|].
  cbn [length] in Hl. unfold spending_view. rewrite Hi. cbn [ss_infos ss_authorities ss_sessions ss_deferred ss_ownedTokens].
  rewrite !fmap_cons. cbn [lookup list_lookup mjoin option_join drop skipn]. rewrite !owner_data_view, live_agrees, system_agrees.
  destruct (isLiveWallet _ _ _); [|done]. cbn [negb].
  rewrite !drop_0. rewrite watched_agrees by lia. cbn [owned_view ot_spl ot_token2022]. rewrite vault_grants_agree.
  destruct (grants_total (c_vaultPda c) (or_spl (sr_ownedTokens read)) (or_token2022 (sr_ownedTokens read))
    (with_infos watched infos) trusted) as (gs & ->).
  rewrite find_row, filter_row. change (λ r, is_own c (row_data r)) with (isOwn c).
  change (λ r, negb (is_own c (row_data r))) with (λ r, negb (isOwn c r)).
  rewrite !bind_ok. rewrite <- option_fmap_compose. change (snd ∘ row_data) with (λ r : address * AccountInfo, ai_data r.2).
  set (own := _ <$> List.find _ _).
  rewrite (mapR_row _ (otherAuthority (address_string <$> trusted) (ownRpIdHash own))) by (intros; apply other_agrees).
  rewrite (mapR_row _ (liveSession (address_string <$> trusted) slot)) by (intros; apply session_agrees).
  rewrite (mapR_row _ (pendingDeferred slot)) by (intros; apply pending_agrees).
  rewrite intact_agrees.
  destruct (mapR (otherAuthority _ _) _) as [o|]; [|done]. rewrite !bind_ok.
  destruct (mapR (liveSession _ _) _) as [ls|]; [|done]. rewrite !bind_ok.
  destruct (mapR (pendingDeferred _) _) as [pd|]; [|done]. rewrite !bind_ok.
  by destruct i1.
Qed.
End facts.

(** ** Workers *)
Section workers.
Context `{KL : KitLaws}.
Variable env : Web3Env.
Context {T B : Type} (f : T → M B) (g : T → L B) (items : list T).
Hypothesis same_item : ∀ x, agree true eq (f x) (g x).

Definition same_pool (p q : pool B) : Prop :=
  p_next p = p_next q ∧ p_out p = p_out q ∧ p_running p = p_running q
  ∧ option_Forall2 same_error (p_failed p) (p_failed q).

Lemma same_settle n i r r' p q :
  same_result eq r r' → same_pool p q → same_pool (settle n i r p) (settle n i r' q).
Proof.
  intros Hr (Hn & Ho & Hu & Hf). destruct Hr as [y ? <-|e' e He]; cbn [settle].
  - unfold turn. cbn [p_next p_out p_running p_failed]. rewrite Hn, Ho, Hu.
    by destruct (_ <? _)%nat.
  - rewrite Hn, Ho, Hu. repeat split. cbn [p_failed]. destruct Hf; by constructor.
Qed.

Lemma agree_settled (m : M B) (l : L B) :
  agree true eq m l → agree true (same_result eq) (settled m) (settled3 l).
Proof.
  intros H c. right. destruct (H c) as [[? _]|[H1 H2]]; [done|]. unfold settled, settled3.
  destruct (m c), (l (web3_of c)). cbn [fst snd] in *. by split; [|constructor].
Qed.

Lemma agree_workers fuel p q :
  same_pool p q → agree true same_pool (run_pool (kit_env env) f items fuel p) (run_workers env g items fuel q).
Proof.
  revert p q. induction fuel as [|fuel IH]; intros p q Hpq; [by apply agree_ret|].
  cbn [run_pool run_workers]. destruct Hpq as (Hn & Ho & Hu & Hf). rewrite <- Hu.
  destruct (p_running p) as [|j js] eqn:Hp; [apply agree_ret; split_and!; try done; by rewrite <- Hu|].
  eapply agree_bind; [apply agree_ask|]. intros k ? <-. change (pick (kit_env env) k) with (next_settled env k).
  destruct (items !! _) as [x|]; [|apply agree_ret; split_and!; try done; by rewrite <- Hu].
  eapply agree_bind; [by apply agree_settled|]. intros r r' Hr. apply IH, same_settle; [done|].
  split_and!; try done. by rewrite <- Hu.
Qed.

Lemma agree_mapBounded limit :
  agree true eq (WorkerPool.mapBounded (kit_env env) f items limit) (mapBounded env g items limit).
Proof.
  eapply agree_bind; [apply agree_workers; split_and!; try done|].
  { destruct (p_failed _); constructor. apply same_error_refl. }
  intros p q (_ & Ho & _ & Hf). destruct Hf as [e' e He|]; apply agree_lift; [by constructor|].
  rewrite Ho. apply same_refl.
Qed.
End workers.

(** ** The lookups *)
Section lookups.
Context `{KL : KitLaws} {W : Web3Pda} {W' : Web3Keys} {WL : Web3KeysLaws W'}.
Hypothesis same_derivation : ∀ seeds programId,
  findProgramAddressSync seeds programId = getProgramDerivedAddress programId seeds.
Variable env : Web3Env.
Variable programId : address.
Abbreviation kenv := (kit_env env).

Lemma discs_layout version :
  d_authority (OWNERSHIP_DISCS version) = vl_authority (LAYOUTS version)
  ∧ d_session (OWNERSHIP_DISCS version) = vl_session (LAYOUTS version)
  ∧ d_deferred (OWNERSHIP_DISCS version) = vl_deferred (LAYOUTS version).
Proof. unfold OWNERSHIP_DISCS, LAYOUTS. by destruct (version =? 1). Qed.

Lemma agree_describe slot trusted mints c :
  agree true eq (WalletLookup.describeCandidate kenv slot trusted mints c)
    (describeCandidate env slot (address_string <$> trusted) mints c).
Proof.
  eapply agree_bind; [apply agree_lift; by apply watched_accounts_agree|]. intros atas watched [<- <-].
  destruct (discs_layout (c_version c)) as (Ha & Hs & Hd).
  eapply agree_bind; [by apply agree_spending|]. intros s read [-> Hl].
  apply agree_lift. rewrite facts_agree; [apply same_refl|].
  rewrite Hl. cbn [length]. by rewrite length_fmap.
Qed.

Lemma trusted_agree keys :
  same_result (λ ks texts, texts = (address_string <$> ks : list string))
    (parse_keys (key_text <$> keys)) (mapR (λ k, address_string <$> input_key k) keys).
Proof.
  unfold parse_keys. rewrite mapR_compose. induction keys as [|k l IH]; [by constructor|]. cbn [mapR].
  eapply (same_bind (λ a t, t = address_string a)).
  - cbn [compose]. destruct (input_agrees k) as [? ? <-|e' e He]; by constructor.
  - intros a ? ->. eapply same_bind; [exact IH|]. intros ks ? ->. by constructor.
Qed.

Lemma live_ones_agree candidates infos :
  live_candidates candidates (read_view <$> infos) = live_ones candidates infos.
Proof.
  unfold live_candidates, live_ones. f_equal. apply List.filter_ext. intros [c i]. cbn [fst snd].
  rewrite <- live_agrees, <- owner_data_view, list_lookup_fmap. by destruct (infos !! i).
Qed.

Lemma agree_getSlot s : agree s eq (getSlot kenv) (getSlot3 env).
Proof. eapply agree_bind; [apply agree_ask|]. intros n ? <-. by apply agree_lift, same_coded. Qed.

Definition key_texts (keys : option (list KeyInput)) : option (list string) := (λ l, (key_text <$> l : list string)) <$> keys.

Lemma default_texts keys : default [] (key_texts keys) = key_text <$> default [] keys.
Proof. by destruct keys. Qed.

Lemma agree_describe_all candidates trustedKeys watchMints :
  agree true eq
    (WalletLookup.describeWalletCandidates kenv candidates (key_texts trustedKeys) (key_texts watchMints))
    (describePasskeyWallets env candidates trustedKeys watchMints).
Proof.
  unfold WalletLookup.describeWalletCandidates, describePasskeyWallets. rewrite !default_texts.
  eapply agree_bind; [apply agree_lift, trusted_agree|]. intros trusted ? ->.
  eapply agree_bind; [apply agree_lift; by apply watched_mints_agree|]. intros mints ? <-.
  apply agree_if; [done|by apply agree_ret|].
  eapply agree_bind; [apply agree_getSlot|]. intros slot ? <-.
  eapply agree_bind; [apply agree_readAccounts|]. intros ? [t infos] ->. cbn [fst snd].
  rewrite live_ones_agree. eapply agree_bind; [apply agree_mapBounded; intros c; apply agree_describe|].
  intros ? described ->. by apply agree_ret.
Qed.

Lemma agree_rows s program fs m :
  agree s (λ x y, x = kit_rows y) (getProgramAccounts kenv program fs m) (getProgramAccounts3 env program fs m).
Proof. eapply agree_bind; [apply agree_ask|]. intros n ? <-. by apply agree_lift, same_coded. Qed.

Lemma lift3_bind {A B} (r : result A) (f : A → result B) : lift3 (r ≫= f) = lift3 r ≫= (λ x, lift3 (f x)).
Proof. by destruct r. Qed.

Lemma candidate_one version target r :
  if owner_rank r
  then agree true (λ o c, o = Some c) (candidate_of version target (kit_entry r)) (lift3 (candidate_at version target r))
  else candidate_of version target (kit_entry r) = mret None.
Proof.
  unfold candidate_of, candidate_at, owner_rank. rewrite row_of_entry. set (data := ai_data r.2).
  change (lift (Ok (r.1, data)) ≫= ?f) with (f (r.1, data)). cbn beta iota.
  rewrite Nat.leb_antisym. change AUTHORITY_SECP256R1_LEN with 145%nat.
  destruct (Nat.ltb_spec (length data) 145) as [|Hl]; cbn [orb negb andb]; [done|].
  destruct (byte_is data 2 ROLE_OWNER); cbn [negb]; [|done].
  change (AUTHORITY_WALLET + 32)%nat with 48%nat. change AUTHORITY_WALLET with 16%nat.
  rewrite slice_key by lia.
  destruct (new_key (slice 16 48 data)) as [w|e]; [|by apply (agree_lift _ _ (Throw e) (Throw e)); constructor; left].
  rewrite bind_ok, lift3_bind. apply agree_ok_l. eapply agree_bind.
  { apply agree_lift. instantiate (1 := eq). destruct (version =? 2); by apply derive_agrees. }
  intros [v b] ? <-. by apply agree_ret.
Qed.

Lemma agree_candidates version target rows :
  agree true (λ out l, omap id out = l)
    (mapM (candidate_of version target) (kit_entry <$> rows))
    (lift3 (mapR (candidate_at version target) (List.filter owner_rank rows))).
Proof.
  induction rows as [|r rows IH]; [by apply agree_ret|]. rewrite fmap_cons. cbn [mapM List.filter].
  pose proof (candidate_one version target r) as Hr. destruct (owner_rank r).
  - cbn [mapR]. rewrite lift3_bind. eapply agree_bind; [exact Hr|]. intros ? c ->. rewrite lift3_bind.
    eapply agree_bind; [exact IH|]. intros out l <-. by apply agree_ret.
  - rewrite Hr. apply agree_ok_l. eapply agree_view; [exact IH|]. intros out l H. by eexists.
Qed.

Lemma agree_scan_target credentialIdHash rpIdHash version target :
  agree true eq (scan_candidates kenv credentialIdHash rpIdHash version target)
    (scan_target env credentialIdHash rpIdHash version target).
Proof.
  unfold scan_candidates, scan_target. destruct (discs_layout version) as (-> & _).
  eapply agree_bind; [apply agree_rows|]. intros ? [t rows] ->. cbn [kit_rows fst snd].
  eapply agree_view; [apply agree_candidates|]. intros out l <-. by eexists.
Qed.

Lemma agree_find_candidates credentialIdHash rpId includeV1 :
  agree true eq (WalletLookup.findPasskeyWalletCandidates kenv programId credentialIdHash rpId includeV1)
    (findPasskeyWalletCandidates env programId credentialIdHash rpId includeV1).
Proof.
  eapply agree_bind; [apply agree_lift, same_refl|]. intros [] [] _.
  eapply agree_bind.
  { apply agree_both; [apply agree_scan_target|]. instantiate (1 := eq).
    destruct includeV1 as [[]|]; [apply agree_scan_target|by apply agree_ret|apply agree_scan_target]. }
  intros [v2 v1] [? ?] [[= <-] [= <-]]. by apply agree_ret.
Qed.

Lemma agree_own_wallet credentialIdHash rpId proof trustedKeys watchMints includeV1 :
  is_bom (clientDataJson proof) = false →
  agree true eq
    (WalletLookup.findOwnPasskeyWallet kenv programId credentialIdHash rpId proof (key_texts trustedKeys)
       (key_texts watchMints) includeV1)
    (findOwnPasskeyWallet env programId credentialIdHash rpId proof trustedKeys watchMints includeV1).
Proof.
  intros Hb. eapply agree_bind; [apply agree_find_candidates|]. intros candidates ? <-.
  rewrite verify_agrees by done. cbv zeta. apply agree_if; [done|by apply agree_ret|].
  eapply agree_bind; [apply agree_describe_all|]. intros facts ? <-. rewrite pick_agrees.
  destruct (Ownership.pickOwnWallet facts). by apply agree_ret.
Qed.

(** *** Vetting *)
Lemma getUint_range w off d : (off + w <= length d)%nat → ∃ v, getUint w off d = Ok v ∧ 0 <= v.
Proof.
  intros H. unfold getUint. rewrite (proj2 (Nat.leb_le _ _) H). eexists. split; [done|].
  apply (le_combine_bound (slice off (off + w) d)).
Qed.
Definition expiry_of (off : nat) (d : bytes) : Z := match expiryAt d off with Ok e => e | Throw _ => 0 end.

Lemma expiryAt_total d off : expiryAt d off = Ok (expiry_of off d).
Proof.
  unfold expiry_of, expiryAt. destruct (Nat.leb_spec (off + 8) (length d)) as [H|]; [|done].
  unfold readU64. by destruct (getUint_range 8 off d H) as (v & -> & _).
Qed.

Lemma unexpired_agrees off expiry slot rows : (∀ d, expiry d = expiryAt d off) →
  some_live ((λ r : address * AccountInfo, (r.1, ai_data r.2)) <$> rows) off slot = some_unexpired expiry slot rows.
Proof.
  intros H. unfold some_live. rewrite (mapR_total _ (λ x, expiry_of off x.2)) by (intros; apply expiryAt_total).
  rewrite bind_ok, <- list_fmap_compose. induction rows as [|r l IH]; [done|]. cbn [some_unexpired].
  rewrite H, expiryAt_total, bind_ok, <- IH. cbn. by destruct (slot <=? _).
Qed.

Lemma inspect_agrees vault fields watched slot read : length (sr_infos read) = S (S (length watched)) →
  vet_of programId vault fields watched.*2 watched.*1 slot (spending_view read)
  = inspect programId vault fields watched slot read.
Proof.
  intros Hl. unfold vet_of, inspect. destruct (sr_infos read) as [|i0 [|i1 infos]] eqn:Hi; [done..|].
  cbn [length] in Hl. unfold spending_view. rewrite Hi.
  cbn [ss_infos ss_authorities ss_sessions ss_deferred ss_ownedTokens ss_slot].
  rewrite !fmap_cons. cbn [lookup list_lookup mjoin option_join drop skipn]. rewrite !drop_0, !owner_data_view.
  assert (ClientHelpers.isLiveWallet programId 2 (pair_of i0)
    = match i0 with Some i => bool_decide (ai_owner i = programId) && byte_is (ai_data i) 0 DISC_WALLET
                  | None => false end) as ->.
  { destruct i0 as [i|]; [|done]. cbn. destruct (ai_data i); [by destruct (bool_decide _)|]. by rewrite andb_true_r. }
  destruct (match i0 with Some _ => _ | None => _ end); [|done]. cbn [negb].
  destruct (sr_authorities read) as [|[p info] [|? l]]; [done| |cbn; by rewrite length_fmap].
  rewrite fmap_cons. cbn [fmap list_fmap fst snd]. unfold stores_passkey. rewrite negb_andb.
  destruct (_ || negb (Bytes.bytesEqual (slice 48 80 _) _)); [done|].
  destruct (_ && (_ || _)); [done|].
  rewrite (unexpired_agrees 72 sessionExpiry) by done. rewrite (unexpired_agrees 168 deferredExpiry) by done.
  destruct (some_unexpired sessionExpiry _ _) as [[]|]; try done. rewrite !bind_ok.
  destruct (some_unexpired deferredExpiry _ _) as [[]|]; try done. rewrite !bind_ok.
  unfold vault_problem. rewrite system_agrees. destruct (isPlainSystemAccount i1) eqn:Hs; cbn [negb].
  - rewrite watched_agrees by lia. cbn [owned_view ot_spl ot_token2022]. by rewrite vault_grants_agree.
  - by destruct i1.
Qed.

Lemma agree_vault s wallet : agree s eq (Client.findVault programId wallet) (findVault programId wallet).
Proof. apply agree_lift. by apply derive_agrees. Qed.

Lemma agree_inspect wallet owner mints :
  agree true eq (vetDestination kenv programId wallet owner mints)
    (inspectMigrationDestination env programId wallet owner mints).
Proof.
  eapply agree_bind; [apply agree_lift, same_refl|]. intros fields ? <-.
  eapply agree_bind; [apply agree_getSlot|]. intros slot ? <-.
  eapply agree_bind; [apply agree_vault|]. intros [vault bump] ? <-.
  eapply agree_bind; [apply agree_lift; by apply watched_accounts_agree|]. intros atas watched [<- <-].
  eapply agree_bind; [by apply agree_spending|]. intros s read [-> Hl].
  apply agree_lift. rewrite inspect_agrees; [apply same_refl|].
  rewrite Hl. cbn [length]. by rewrite length_fmap.
Qed.

Lemma agree_vet wallet owner watchMints :
  agree true eq (WalletLookup.vetMigrationDestination kenv programId wallet owner (key_texts watchMints))
    (vetMigrationDestination env programId wallet owner watchMints).
Proof.
  unfold WalletLookup.vetMigrationDestination, vetMigrationDestination. rewrite default_texts.
  eapply agree_bind; [apply agree_lift; by apply watched_mints_agree|]. intros mints ? <-.
  eapply agree_bind; [apply agree_inspect|]. intros vet ? <-. by apply agree_ret.
Qed.

Lemma agree_passkey_owner s authority owner :
  agree s eq (WalletLookup.assertV1PasskeyOwner kenv authority owner) (assertV1PasskeyOwner env authority owner).
Proof.
  eapply agree_bind; [apply agree_lift, same_refl|]. intros fields ? <-.
  eapply agree_bind; [apply agree_getAccountInfo|]. intros ? [i|] ->; [|apply agree_lift; apply same_refl].
  cbn [kit_info fmap option_fmap option_map]. rewrite decode_kit_view. apply agree_ok_l, agree_lift, same_refl.
Qed.

Abbreviation rp_hash := (λ fields, sha256 (utf8 (default "" (of_rpId fields)))).

Lemma signed_one fields r : ∃ o keep,
  signed_authority fields (kit_entry r) = Ok o ∧ signed_by fields (rp_hash fields) r = Ok keep
  ∧ (if keep : bool then ∃ s, o = Some s ∧ signed_entry r = Ok s else o = None).
Proof.
  unfold signed_authority, signed_by, signed_entry. rewrite row_of_entry, bind_ok. set (data := ai_data r.2).
  rewrite Nat.leb_antisym. destruct (Nat.ltb_spec (length data) 145) as [|Hl]; [by eexists _, _|]. cbn [negb andb orb].
  fold (stores_passkey fields data).
  destruct (stores_passkey fields data); cbn [negb andb]; [|by eexists _, _].
  unfold readU32. destruct (getUint_range 4 8 data) as (n & -> & Hn); [lia|]. rewrite !bind_ok.
  destruct (Z.eqb_spec n 0) as [->|]; [by eexists _, _|]. rewrite slice_key by lia.
  destruct (key_agrees "decode" (slice 16 48 data)) as (w & _ & -> & _); [rewrite length_slice; lia|]. rewrite bind_ok.
  eexists _, _. split; [done|]. split; [done|]. destruct (Z.ltb_spec 0 n); [|lia]. eexists. split; [done|]. by rewrite bind_ok.
Qed.

Lemma signed_agrees fields rows : ∃ out kept,
  mapR (signed_authority fields) (kit_entry <$> rows) = Ok out ∧ mapR (signed_by fields (rp_hash fields)) rows = Ok kept
  ∧ mapR signed_entry (fst <$> List.filter snd (zip rows kept) : list _) = Ok (omap id out).
Proof.
  induction rows as [|r l (out & kept & H1 & H2 & H3)]; [by exists [], []|].
  destruct (signed_one fields r) as (o & keep & Ho & Hk & H). exists (o :: out), (keep :: kept).
  rewrite fmap_cons. cbn [mapR]. rewrite Ho, Hk, H1, H2, !bind_ok. split_and!; [done..|]. cbn [zip zip_with List.filter snd].
  destruct keep; [|by rewrite H]. destruct H as (s & -> & Hs). rewrite fmap_cons. cbn [mapR fst]. by rewrite Hs, H3.
Qed.

Lemma agree_signed owner :
  agree true eq (WalletLookup.signedPasskeyAuthorities kenv programId owner)
    (signedPasskeyAuthorities env programId owner).
Proof.
  eapply agree_bind; [apply agree_lift, same_refl|]. intros fields ? <-. cbv zeta.
  eapply agree_bind; [apply agree_rows|]. intros ? [t rows] ->. cbn [kit_rows fst snd].
  destruct (signed_agrees fields rows) as (out & kept & -> & -> & H). apply agree_ok_l.
  change (lift3 (Ok kept) ≫= ?f) with (f kept). cbn beta. rewrite H. by apply agree_ret.
Qed.

(** *** By authority *)

(** What the RPC documents of its filters. *)
Definition honours_filters : Prop := ∀ n p fs m slot rows,
  l_getProgramAccounts env n p fs m = Ok (slot, rows) → rows_match fs rows.

Lemma agree_filtered s program fs m : honours_filters →
  agree s (λ x y, x = kit_rows y ∧ rows_match fs y.2) (getProgramAccounts kenv program fs m)
    (getProgramAccounts3 env program fs m).
Proof.
  intros H. eapply agree_bind; [apply agree_ask|]. intros n ? <-. apply agree_lift. cbn [kit_env env_getProgramAccounts].
  destruct (l_getProgramAccounts env n program fs m) as [[slot rows]|e] eqn:E; constructor; [|apply same_error_coded].
  split; [done|]. by eapply H.
Qed.

Lemma agree_authority s r : (48 <= length (ai_data r.2))%nat →
  agree s eq (authority_record programId (kit_entry r)) (authority_at programId r).
Proof.
  intros Hl. unfold authority_record, authority_at. rewrite row_of_entry. apply agree_ok_l.
  eapply agree_bind; [apply agree_lift; rewrite slice_key by lia; apply same_refl|]. intros w ? <-.
  eapply agree_bind; [apply agree_vault|]. intros [v b] ? <-. by apply agree_ret.
Qed.

Lemma agree_by_authority credential authorityType : honours_filters →
  agree true eq (WalletLookup.findWalletsByAuthority kenv programId credential authorityType)
    (findWalletsByAuthority env programId credential authorityType).
Proof.
  intros H. eapply (agree_bind _ (λ _ _, length credential = 32%nat)).
  { apply agree_lift. unfold ClientHelpers.assertByteLength, assertByteLength, throw_if.
    destruct (Nat.eqb_spec (length credential) 32); constructor; [done|by left]. }
  intros [] [] Hc. cbv zeta.
  eapply agree_bind; [by apply agree_filtered|]. intros ? [t rows] [-> Hm]. cbn [kit_rows fst snd] in *.
  eapply agree_weaken; [|intros a b Hab; by apply list_eq_Forall2].
  eapply (agree_mapM _ (λ v r, v = kit_entry r ∧ r ∈ rows)).
  - apply Forall2_fmap_l, Forall_Forall2_diag, Forall_forall. done.
  - intros ? r [-> Hr]. apply agree_authority. pose proof (rows_match_length _ _ _ 48 credential Hm Hr) as Hlen.
    rewrite Hc in Hlen. enough (48 + 32 <= length (ai_data r.2))%nat by lia. apply Hlen; [set_solver|]. by intros ->.
Qed.
End lookups.
