(* ===== verification/LegacyClient.v ===== *)
(** * The web3.js SDK: the client

    Models, from the [LazorKitClient] class of
    src/sdk/sdk-legacy/src/utils/client.ts, the constructor, the protocol fee
    with its caches, the challenge reads of a passkey and the methods that create
    a wallet and execute.  The owners and the [Secp256r1Signer] of types.ts are
    those of [ClientHelpers] and [Signing]; the signers name a web3.js
    commitment. *)
From S2P Require Import Prelude Bytes Kit Constants JsMap Builders Signing ChallengeReads Accounts ClientHelpers Client.
From S2P Require Import LegacyWeb3 LegacyBuilders LegacyCompact LegacyActions LegacyReads LegacyCalls LegacyHelpers LegacyVetting.
Local Open Scope Z_scope.

Section client.
Context `{K : Kit} {W : Web3Pda}.
Variable env : Web3Env.

(** ** The constructor *)
Record LazorKitClient := mkLazorKitClient {
  c_programId : address;
  c_protocolFees : bool;
}.

Definition new_LazorKitClient (programId : option address) (protocolFees : option bool) : result LazorKitClient :=
  programId ← (match programId with
               | Some p => Ok p
               | None => LegacyHelpers.inferProgramIdFromRpc (l_rpcEndpoint env)
               end);
  Ok (mkLazorKitClient programId (default true protocolFees)).

Variable programId : address.
Variable protocolFees : bool.

Abbreviation findWallet := (LegacyVetting.findWallet programId).
Abbreviation findVault := (LegacyVetting.findVault programId).
Definition findAuthority (walletPda : address) (credIdHash : bytes) : L (address * Z) :=
  lift3 (LegacyWeb3.findAuthorityPda walletPda credIdHash programId).
Definition findSession (walletPda : address) (sessionKey : bytes) : L (address * Z) :=
  lift3 (LegacyWeb3.findSessionPda walletPda sessionKey programId).
Definition findDeferredExec (walletPda authorityPda : address) (counter : Z) : L (address * Z) :=
  lift3 (LegacyWeb3.findDeferredExecPda walletPda authorityPda counter programId).
Definition findProtocolConfig : L (address * Z) := lift3 (LegacyWeb3.findProtocolConfigPda programId).
Definition findFeeRecord (payerPubkey : address) : L (address * Z) :=
  lift3 (LegacyWeb3.findFeeRecordPda payerPubkey programId).
Definition findTreasuryShard (shardId : Z) : L (address * Z) :=
  lift3 (LegacyWeb3.findTreasuryShardPda shardId programId).

(** ** Protocol fees *)
Definition set_config (v : option (option ProtocolConfigView)) : L unit :=
  modify3 (λ c, mkWeb3Client v (l_registeredPayers c) (l_asked c)).

(** [_registeredPayers.add(key)]. *)
Definition add_payer (key : string) : L unit :=
  modify3 (λ c, mkWeb3Client (l_protocolConfig c)
                  (if bool_decide (key ∈ l_registeredPayers c) then l_registeredPayers c
                   else l_registeredPayers c ++ [key]) (l_asked c)).

Definition config_of (info : option AccountInfo) : option ProtocolConfigView :=
  match info with
  | None => None
  | Some i =>
    if (length (ai_data i) <? 88)%nat || negb (byte_is (ai_data i) 0 DISC_PROTOCOL_CONFIG) then None
    else Some (mkConfigView (val (ai_data i !!! 4%nat)) (negb (byte_is (ai_data i) 3 0)))
  end.

Definition getProtocolConfig : L (option ProtocolConfigView) :=
  c ← get3;
  match l_protocolConfig c with
  | Some v => mret v
  | None =>
    '(configPda, _) ← findProtocolConfig;
    info ← getAccountInfo3 env configPda;
    _ ← set_config (Some (config_of info));
    mret (config_of info)
  end.

Definition invalidateProtocolCache : L unit := set_config None.

Definition resolveProtocolFee (payer : address) : L (option ProtocolFeeAccounts) :=
  if negb protocolFees then mret None
  else
    config ← getProtocolConfig;
    '(protocolConfigPda, _) ← findProtocolConfig;
    '(feeRecordPda, _) ← findFeeRecord payer;
    shardId ← (match config with
               | Some v =>
                 if enabled v && (0 <? numShards v)
                 then n ← ask3; mret (randU32 (l_randomBytes env n 4) mod numShards v)
                 else mret 0
               | None => mret 0
               end);
    '(treasuryShardPda, _) ← findTreasuryShard shardId;
    mret (Some (mkFee protocolConfigPda feeRecordPda treasuryShardPda)).

Definition record_exists (info : option AccountInfo) : bool :=
  match info with
  | None => false
  | Some i => (0 <? length (ai_data i))%nat && byte_is (ai_data i) 0 DISC_FEE_RECORD
  end.

Definition resolveProtocolFeeWithRegister (payer : address) :
    L (option (ProtocolFeeAccounts * option TransactionInstruction)) :=
  accounts ← resolveProtocolFee payer;
  match accounts with
  | None => mret None
  | Some accounts =>
    config ← getProtocolConfig;
    if negb (match config with Some v => enabled v | None => false end)
    then mret (Some (accounts, None))
    else
      let key := toBase58 payer in
      c ← get3;
      if bool_decide (key ∈ l_registeredPayers c) then mret (Some (accounts, None))
      else
        info ← getAccountInfo3 env (feeRecordPda accounts);
        if record_exists info then _ ← add_payer key; mret (Some (accounts, None))
        else
          let registerIx := createRegisterPayerIx payer (feeRecordPda accounts) programId in
          _ ← add_payer key;
          mret (Some (accounts, Some registerIx))
  end.

(** [fee?.accounts], and [fee?.registerIx ? [fee.registerIx] : []]. *)
Definition fee_accounts (fee : option (ProtocolFeeAccounts * option TransactionInstruction)) :
    option ProtocolFeeAccounts := fst <$> fee.
Definition fee_head (fee : option (ProtocolFeeAccounts * option TransactionInstruction)) :
    list TransactionInstruction := match fee with Some (_, Some ix) => [ix] | _ => [] end.

(** ** Signers *)
Record Secp256r1Params := mkParams {
  sp_credentialIdHash : bytes;
  sp_publicKeyBytes : option bytes;
  sp_authorityPda : option address;
  sp_slotOverride : option Z;
  sp_minContextSlot : option Z;
  sp_commitment : option Web3Commitment;
}.

Record Secp256r1SignerConfig := mkSignerConfig {
  sc_signer : Secp256r1Signer;
  sc_authorityPda : option address;
  sc_slotOverride : option Z;
  sc_minContextSlot : option Z;
  sc_commitment : option Web3Commitment;
}.

Inductive AdminSigner :=
  | AdminEd25519 (publicKey : address) (authorityPda : option address)
  | AdminSecp256r1 (s : Secp256r1SignerConfig).

Inductive ExecuteSigner :=
  | ExecAdmin (s : AdminSigner)
  | ExecSession (sessionPda sessionKeyPubkey : address).

Definition extractSecp256r1Params (s : Secp256r1SignerConfig) : Secp256r1Params :=
  mkParams (s_credentialIdHash (sc_signer s)) (Some (s_publicKeyBytes (sc_signer s)))
    (sc_authorityPda s) (sc_slotOverride s) (sc_minContextSlot s) (sc_commitment s).

(** [readChallengeInputs], run to the end of the schedule the outside gives. *)
Definition readChallengeInputs (opts : LegacyReads.ChallengeReadOptions) (have : Have) : L (bytes * Z * Z) :=
  n ← ask3;
  lift3 (w ← of_option (EExternal "schedule")
           (LegacyReads.run (LegacyReads.challengeReadConfig (l_commitment env) (Some opts))
              (mkWorld (l_now env n) false None (start_reader (l_now env n) <$> needed have)) (l_schedule env n));
         match inputs have w with
         | Some r => Ok r
         | None => Throw (default (EExternal "pending") (firstFailure w))
         end).

(** [readCounter], alone: it returns or throws what its loop ends with. *)
Definition readCounter (opts : LegacyReads.ChallengeReadOptions) : L Z :=
  n ← ask3;
  lift3 (w ← of_option (EExternal "schedule")
           (LegacyReads.run (LegacyReads.challengeReadConfig (l_commitment env) (Some opts))
              (mkWorld (l_now env n) false None [start_reader (l_now env n) ReadCounter]) (l_schedule env n));
         v ← (match rd_phase <$> readers w !! 0%nat with
              | Some (Settled r) => r
              | Some (Rejected e) => Throw e
              | _ => Throw (EExternal "pending")
              end);
         match v with VCounter c => Ok c | _ => Throw (EExternal "reply") end).

Definition resolveSecp256r1 (walletPda : address) (p : Secp256r1Params) : L Resolved :=
  _ ← lift3 (LegacyHelpers.assertByteLength (sp_credentialIdHash p) 32 "credentialIdHash");
  _ ← lift3 (match sp_publicKeyBytes p with
             | Some k => LegacyHelpers.assertByteLength k 33 "publicKeyBytes" | None => Ok () end);
  authorityPda ← (match sp_authorityPda p with
                  | Some a => mret a
                  | None => '(a, _) ← findAuthority walletPda (sp_credentialIdHash p); mret a
                  end);
  '(publicKeyBytes, slot, counter) ← readChallengeInputs
    (LegacyReads.mkOptions (sp_commitment p) (sp_minContextSlot p))
    (mkHave (sp_publicKeyBytes p) (sp_slotOverride p));
  mret (mkResolved authorityPda publicKeyBytes slot counter).

Definition resolveEd25519AuthorityPda (publicKey : address) (authorityPda : option address)
    (walletPda : address) : L address :=
  match authorityPda with
  | Some a => mret a
  | None => '(pda, _) ← findAuthority walletPda (address_encode publicKey); mret pda
  end.

Definition buildPasskeySigning (discriminator sysvarIxIndex : Z) (signedPayload : bytes)
    (slot counter : Z) (payer wallet : address) (publicKeyBytes : bytes) : result PreparedSecp256r1 :=
  LegacyBuilders.prepareSecp256r1 [u8 discriminator] signedPayload sysvarIxIndex slot counter payer wallet
    programId publicKeyBytes.

(** ** CreateWallet *)
Record CreatedWallet := mkCreated {
  cw_instructions : list TransactionInstruction;
  cw_walletPda : address;
  cw_vaultPda : address;
  cw_depositAddress : address;
  cw_authorityPda : address;
}.

Definition createWallet (payer : address) (userSeed : bytes) (owner : CreateWalletOwner) : L CreatedWallet :=
  _ ← lift3 (LegacyHelpers.assertByteLength userSeed 32 "userSeed");
  '(walletPda, _) ← findWallet userSeed;
  '(vaultPda, _) ← findVault walletPda;
  o ← lift3 (LegacyHelpers.resolveOwnerFields owner);
  '(authorityPda, authBump) ← findAuthority walletPda (credentialOrPubkey o);
  fee ← resolveProtocolFeeWithRegister payer;
  let ix := createCreateWalletIx payer walletPda vaultPda authorityPda userSeed (authType o) authBump
              (credentialOrPubkey o) (secp256r1Pubkey o) (of_rpId o) (fee_accounts fee) programId in
  mret (mkCreated (fee_head fee ++ [ix]) walletPda vaultPda vaultPda authorityPda).

(** ** Execute *)
Record PreparedExecute := mkPreparedExecute {
  pe_signing : PreparedSecp256r1;
  pe_payer : address;
  pe_walletPda : address;
  pe_authorityPda : address;
  pe_vaultPda : address;
  pe_packed : bytes;
  pe_remainingAccounts : list Key;
  pe_protocolFee : option ProtocolFeeAccounts;
  pe_registerIx : list TransactionInstruction;
  pe_programId : address;
}.

Definition executeFixed (payer walletPda authorityPda vaultPda : address) : list Key :=
  [mkKey payer true true; mkKey walletPda false false; mkKey authorityPda false true; mkKey vaultPda false true;
   mkKey SYSVAR_INSTRUCTIONS_ADDRESS false false].

(** The challenge reads and the fee read in one group, as in [Client]. *)
Definition prepareExecute (payer walletPda : address) (secp256r1 : Secp256r1Params)
    (instructions : list TransactionInstruction) (feePayer : option address) : L PreparedExecute :=
  '(vaultPda, _) ← findVault walletPda;
  '(r, fee) ← both3 env (resolveSecp256r1 walletPda secp256r1) (resolveProtocolFeeWithRegister payer);
  l ← lift3 (LegacyHelpers.buildCompactLayoutAndHash
               (executeFixed payer walletPda (rs_authorityPda r) vaultPda) instructions feePayer);
  let packed := LegacyCompact.packCompactInstructions (lh_compactInstructions l) in
  let signedPayload := concatBytes [packed; lh_accountsHash l] in
  signing ← lift3 (buildPasskeySigning DISC_EXECUTE LegacyHelpers.SYSVAR_IX_INDEX_EXECUTE signedPayload (rs_slot r)
                     (rs_counter r) payer walletPda (rs_publicKeyBytes r));
  mret (mkPreparedExecute signing payer walletPda (rs_authorityPda r) vaultPda packed
          (lh_remainingAccounts l) (fee_accounts fee) (fee_head fee) programId).

Definition finalizeExecute (prepared : PreparedExecute) (response : WebAuthnResponse) :
    result (list TransactionInstruction) :=
  '(authPayload, precompileIx) ← LegacyBuilders.finalizeSecp256r1 (pe_signing prepared) response;
  let ix := createExecuteIx (pe_payer prepared) (pe_walletPda prepared) (pe_authorityPda prepared)
              (pe_vaultPda prepared) (pe_packed prepared) (Some authPayload) None
              (pe_remainingAccounts prepared) (pe_protocolFee prepared) (pe_programId prepared) in
  Ok (pe_registerIx prepared ++ [precompileIx; ix]).

Definition execute (payer walletPda : address) (signer : ExecuteSigner)
    (instructions : list TransactionInstruction) (feePayer : option address) : L (list TransactionInstruction) :=
  '(vaultPda, _) ← findVault walletPda;
  fee ← resolveProtocolFeeWithRegister payer;
  match signer with
  | ExecAdmin (AdminEd25519 publicKey authority) =>
      authorityPda ← resolveEd25519AuthorityPda publicKey authority walletPda;
      '(compactInstructions, remainingAccounts) ← lift3 (LegacyCompact.buildCompactLayout
          [payer; walletPda; authorityPda; vaultPda; publicKey] instructions payer);
      let packed := LegacyCompact.packCompactInstructions compactInstructions in
      mret (fee_head fee ++
            [createExecuteIx payer walletPda authorityPda vaultPda packed None (Some publicKey)
               remainingAccounts (fee_accounts fee) programId])
  | ExecAdmin (AdminSecp256r1 s) =>
      prepared ← prepareExecute payer walletPda (extractSecp256r1Params s) instructions feePayer;
      response ← lift3 (s_sign (sc_signer s) (Signing.challenge (pe_signing prepared)));
      lift3 (finalizeExecute prepared response)
  | ExecSession sessionPda sessionKeyPubkey =>
      '(compactInstructions, remainingAccounts) ← lift3 (LegacyCompact.buildCompactLayout
          [payer; walletPda; sessionPda; vaultPda; sessionKeyPubkey] instructions payer);
      let packed := LegacyCompact.packCompactInstructions compactInstructions in
      let allRemaining := mkKey sessionKeyPubkey true false :: remainingAccounts in
      mret (fee_head fee ++
            [createExecuteIx payer walletPda sessionPda vaultPda packed None None allRemaining
               (fee_accounts fee) programId])
  end.
End client.
