(* ===== verification/LegacyOps.v ===== *)
(** * The web3.js SDK: the client's wallet-management methods

    Models, from the [LazorKitClient] class of
    src/sdk/sdk-legacy/src/utils/client.ts, the authority, session,
    deferred-execution and protocol-administration methods: for each operation
    the unified method, its [prepare] and its [finalize].  The [Prepared] records
    that hold no web3.js type have the fields of the kit SDK's and are those of
    [ClientOps]. *)
From S2P Require Import Prelude Bytes Kit Constants JsMap Actions Packing Builders Signing ChallengeReads ClientHelpers Client.
From S2P Require Import LegacyWeb3 LegacyBuilders LegacyCompact LegacyActions LegacyReads LegacyCalls LegacyHelpers LegacyVetting LegacyClient.
From S2P Require Import ClientOps.
Local Open Scope Z_scope.

Section ops.
Context `{K : Kit} {W : Web3Pda}.
Variable env : Web3Env.
Variable programId : address.
Variable protocolFees : bool.

Abbreviation findVault := (LegacyVetting.findVault programId).
Abbreviation findAuthority := (LegacyClient.findAuthority programId).
Abbreviation resolveSecp256r1 := (LegacyClient.resolveSecp256r1 env programId).
Abbreviation resolveEd25519AuthorityPda := (LegacyClient.resolveEd25519AuthorityPda programId).
Abbreviation buildPasskeySigning := (LegacyClient.buildPasskeySigning programId).

(** [await s.signer.sign(prepared.challenge)]. *)
Definition sign_challenge (s : LegacyClient.Secp256r1SignerConfig) (signing : PreparedSecp256r1) :
    L WebAuthnResponse :=
  lift3 (s_sign (LegacyClient.sc_signer s) (Signing.challenge signing)).

(** ** AddAuthority *)
Definition prepareAddAuthority (payer walletPda : address) (secp256r1 : LegacyClient.Secp256r1Params)
    (newAuthority : CreateWalletOwner) (role : Z) (policy : option bytes) (allowOwner : option bool) :
    L PreparedAddAuthority :=
  _ ← lift3 (LegacyHelpers.assertAddAuthorityRole role allowOwner policy);
  o ← lift3 (LegacyHelpers.resolveOwnerFields newAuthority);
  '(newAuthorityPda, _) ← findAuthority walletPda (credentialOrPubkey o);
  r ← resolveSecp256r1 walletPda secp256r1;
  dataPayload ← lift3 (LegacyBuilders.buildDataPayloadForAdd (authType o) role (credentialOrPubkey o)
                         (secp256r1Pubkey o) (of_rpId o) policy);
  let signedPayload := LegacyWeb3.concatBytes [dataPayload; address_encode payer] in
  signing ← lift3 (buildPasskeySigning DISC_ADD_AUTHORITY LegacyHelpers.SYSVAR_IX_INDEX_ADD_AUTHORITY
                     signedPayload (rs_slot r) (rs_counter r) payer walletPda (rs_publicKeyBytes r));
  mret (mkPreparedAdd signing payer walletPda (rs_authorityPda r) newAuthorityPda (authType o) role
          policy (credentialOrPubkey o) (secp256r1Pubkey o) (of_rpId o) programId).

Definition finalizeAddAuthority (p : PreparedAddAuthority) (response : WebAuthnResponse) :
    result (list TransactionInstruction * address) :=
  '(authPayload, precompileIx) ← LegacyBuilders.finalizeSecp256r1 (pa_signing p) response;
  ix ← LegacyBuilders.createAddAuthorityIx (pa_payer p) (pa_walletPda p) (pa_adminAuthorityPda p)
         (pa_newAuthorityPda p) (pa_newType p) (pa_newRole p) (pa_credentialOrPubkey p)
         (pa_secp256r1Pubkey p) (pa_rpId p) (pa_policy p) (Some authPayload) None (pa_programId p);
  Ok ([precompileIx; ix], pa_newAuthorityPda p).

Definition addAuthority (payer walletPda : address) (adminSigner : LegacyClient.AdminSigner)
    (newAuthority : CreateWalletOwner) (role : Z) (policy : option bytes) (allowOwner : option bool) :
    L (list TransactionInstruction * address) :=
  _ ← lift3 (LegacyHelpers.assertAddAuthorityRole role allowOwner policy);
  o ← lift3 (LegacyHelpers.resolveOwnerFields newAuthority);
  '(newAuthorityPda, _) ← findAuthority walletPda (credentialOrPubkey o);
  match adminSigner with
  | LegacyClient.AdminEd25519 publicKey authority =>
      adminAuthorityPda ← resolveEd25519AuthorityPda publicKey authority walletPda;
      ix ← lift3 (LegacyBuilders.createAddAuthorityIx payer walletPda adminAuthorityPda newAuthorityPda (authType o)
                    role (credentialOrPubkey o) (secp256r1Pubkey o) (of_rpId o) policy None
                    (Some publicKey) programId);
      mret ([ix], newAuthorityPda)
  | LegacyClient.AdminSecp256r1 s =>
      prepared ← prepareAddAuthority payer walletPda (LegacyClient.extractSecp256r1Params s) newAuthority role
                   policy allowOwner;
      response ← sign_challenge s (pa_signing prepared);
      lift3 (finalizeAddAuthority prepared response)
  end.

(** ** RemoveAuthority *)
Definition prepareRemoveAuthority (payer walletPda : address) (secp256r1 : LegacyClient.Secp256r1Params)
    (targetAuthorityPda : address) (refundDestination : option address) : L PreparedRemoveAuthority :=
  let refundDest := default payer refundDestination in
  r ← resolveSecp256r1 walletPda secp256r1;
  let signedPayload := LegacyWeb3.concatBytes [address_encode targetAuthorityPda; address_encode refundDest] in
  signing ← lift3 (buildPasskeySigning DISC_REMOVE_AUTHORITY LegacyHelpers.SYSVAR_IX_INDEX_REMOVE_AUTHORITY
                     signedPayload (rs_slot r) (rs_counter r) payer walletPda (rs_publicKeyBytes r));
  mret (mkPreparedRemove signing payer walletPda (rs_authorityPda r) targetAuthorityPda refundDest
          programId).

Definition finalizeRemoveAuthority (p : PreparedRemoveAuthority) (response : WebAuthnResponse) :
    result (list TransactionInstruction) :=
  '(authPayload, precompileIx) ← LegacyBuilders.finalizeSecp256r1 (pr_signing p) response;
  let ix := LegacyBuilders.createRemoveAuthorityIx (pr_payer p) (pr_walletPda p) (pr_adminAuthorityPda p)
              (pr_targetAuthorityPda p) (pr_refundDestination p) (Some authPayload) None
              (pr_programId p) in
  Ok [precompileIx; ix].

Definition removeAuthority (payer walletPda : address) (adminSigner : LegacyClient.AdminSigner)
    (targetAuthorityPda : address) (refundDestination : option address) : L (list TransactionInstruction) :=
  let refundDest := default payer refundDestination in
  match adminSigner with
  | LegacyClient.AdminEd25519 publicKey authority =>
      adminAuthorityPda ← resolveEd25519AuthorityPda publicKey authority walletPda;
      mret [LegacyBuilders.createRemoveAuthorityIx payer walletPda adminAuthorityPda targetAuthorityPda refundDest
              None (Some publicKey) programId]
  | LegacyClient.AdminSecp256r1 s =>
      prepared ← prepareRemoveAuthority payer walletPda (LegacyClient.extractSecp256r1Params s)
                   targetAuthorityPda refundDestination;
      response ← sign_challenge s (pr_signing prepared);
      lift3 (finalizeRemoveAuthority prepared response)
  end.

(** ** TransferOwnership *)
Definition prepareTransferOwnership (payer walletPda : address) (secp256r1 : LegacyClient.Secp256r1Params)
    (newOwner : CreateWalletOwner) (refundDestination : option address) :
    L PreparedTransferOwnership :=
  o ← lift3 (LegacyHelpers.resolveOwnerFields newOwner);
  '(newOwnerAuthorityPda, _) ← findAuthority walletPda (credentialOrPubkey o);
  let refundDest := default payer refundDestination in
  r ← resolveSecp256r1 walletPda secp256r1;
  let dataPayload := LegacyBuilders.buildDataPayloadForTransfer (authType o) (credentialOrPubkey o)
                       (secp256r1Pubkey o) (of_rpId o) in
  let signedPayload := LegacyWeb3.concatBytes [dataPayload; address_encode payer; address_encode refundDest] in
  signing ← lift3 (buildPasskeySigning DISC_TRANSFER_OWNERSHIP LegacyHelpers.SYSVAR_IX_INDEX_TRANSFER_OWNERSHIP
                     signedPayload (rs_slot r) (rs_counter r) payer walletPda (rs_publicKeyBytes r));
  mret (mkPreparedTransfer signing payer walletPda (rs_authorityPda r) newOwnerAuthorityPda refundDest
          (authType o) (credentialOrPubkey o) (secp256r1Pubkey o) (of_rpId o) programId).

Definition finalizeTransferOwnership (p : PreparedTransferOwnership) (response : WebAuthnResponse) :
    result (list TransactionInstruction * address) :=
  '(authPayload, precompileIx) ← LegacyBuilders.finalizeSecp256r1 (pt_signing p) response;
  let ix := LegacyBuilders.createTransferOwnershipIx (pt_payer p) (pt_walletPda p) (pt_currentOwnerAuthorityPda p)
              (pt_newOwnerAuthorityPda p) (pt_refundDestination p) (pt_newType p)
              (pt_credentialOrPubkey p) (pt_secp256r1Pubkey p) (pt_rpId p) (Some authPayload) None
              (pt_programId p) in
  Ok ([precompileIx; ix], pt_newOwnerAuthorityPda p).

Definition transferOwnership (payer walletPda : address) (ownerSigner : LegacyClient.AdminSigner)
    (newOwner : CreateWalletOwner) (refundDestination : option address) :
    L (list TransactionInstruction * address) :=
  o ← lift3 (LegacyHelpers.resolveOwnerFields newOwner);
  '(newOwnerAuthorityPda, _) ← findAuthority walletPda (credentialOrPubkey o);
  let refundDest := default payer refundDestination in
  match ownerSigner with
  | LegacyClient.AdminEd25519 publicKey authority =>
      currentOwnerAuthorityPda ← resolveEd25519AuthorityPda publicKey authority walletPda;
      let ix := LegacyBuilders.createTransferOwnershipIx payer walletPda currentOwnerAuthorityPda
                  newOwnerAuthorityPda refundDest (authType o) (credentialOrPubkey o)
                  (secp256r1Pubkey o) (of_rpId o) None (Some publicKey) programId in
      mret ([ix], newOwnerAuthorityPda)
  | LegacyClient.AdminSecp256r1 s =>
      prepared ← prepareTransferOwnership payer walletPda (LegacyClient.extractSecp256r1Params s) newOwner
                   refundDestination;
      response ← sign_challenge s (pt_signing prepared);
      lift3 (finalizeTransferOwnership prepared response)
  end.

(** ** Sessions *)

(** [actions && actions.length > 0 ? serializeActions(actions) : undefined]. *)
Definition actions_buffer (actions : option (list SessionAction)) : option bytes :=
  match actions with
  | Some ((_ :: _) as l) => Some (LegacyActions.serializeActions l)
  | _ => None
  end.

Definition prepareCreateSession (payer walletPda : address) (secp256r1 : LegacyClient.Secp256r1Params)
    (sessionKey : address) (expiresAt : Z) (actions : option (list SessionAction))
    (unrestricted : option bool) : L PreparedCreateSession :=
  _ ← lift3 (LegacyHelpers.assertSessionActions actions unrestricted);
  let sessionKeyBytes := address_encode sessionKey in
  '(sessionPda, _) ← LegacyClient.findSession programId walletPda sessionKeyBytes;
  r ← resolveSecp256r1 walletPda secp256r1;
  let actionsBuffer := actions_buffer actions in
  dataPayload ← lift3 (LegacyBuilders.buildDataPayloadForSession sessionKeyBytes expiresAt actionsBuffer);
  let signedPayload := LegacyWeb3.concatBytes [dataPayload; address_encode payer] in
  signing ← lift3 (buildPasskeySigning DISC_CREATE_SESSION LegacyHelpers.SYSVAR_IX_INDEX_CREATE_SESSION
                     signedPayload (rs_slot r) (rs_counter r) payer walletPda (rs_publicKeyBytes r));
  mret (mkPreparedSession signing payer walletPda (rs_authorityPda r) sessionPda sessionKeyBytes
          expiresAt actionsBuffer programId).

Definition finalizeCreateSession (p : PreparedCreateSession) (response : WebAuthnResponse) :
    result (list TransactionInstruction * address) :=
  '(authPayload, precompileIx) ← LegacyBuilders.finalizeSecp256r1 (pc_signing p) response;
  ix ← LegacyBuilders.createCreateSessionIx (pc_payer p) (pc_walletPda p) (pc_adminAuthorityPda p)
         (pc_sessionPda p) (pc_sessionKey p) (pc_expiresAt p) (pc_actionsBuffer p)
         (Some authPayload) None (pc_programId p);
  Ok ([precompileIx; ix], pc_sessionPda p).

Definition createSession (payer walletPda : address) (adminSigner : LegacyClient.AdminSigner)
    (sessionKey : address) (expiresAt : Z) (actions : option (list SessionAction))
    (unrestricted : option bool) : L (list TransactionInstruction * address) :=
  _ ← lift3 (LegacyHelpers.assertSessionActions actions unrestricted);
  let sessionKeyBytes := address_encode sessionKey in
  '(sessionPda, _) ← LegacyClient.findSession programId walletPda sessionKeyBytes;
  let actionsBuffer := actions_buffer actions in
  match adminSigner with
  | LegacyClient.AdminEd25519 publicKey authority =>
      adminAuthorityPda ← resolveEd25519AuthorityPda publicKey authority walletPda;
      ix ← lift3 (LegacyBuilders.createCreateSessionIx payer walletPda adminAuthorityPda sessionPda sessionKeyBytes
                    expiresAt actionsBuffer None (Some publicKey) programId);
      mret ([ix], sessionPda)
  | LegacyClient.AdminSecp256r1 s =>
      prepared ← prepareCreateSession payer walletPda (LegacyClient.extractSecp256r1Params s) sessionKey expiresAt
                   actions unrestricted;
      response ← sign_challenge s (pc_signing prepared);
      lift3 (finalizeCreateSession prepared response)
  end.

Definition prepareRevokeSession (payer walletPda : address) (secp256r1 : LegacyClient.Secp256r1Params)
    (sessionPda : address) (refundDestination : option address) : L PreparedRevokeSession :=
  let refundDest := default payer refundDestination in
  r ← resolveSecp256r1 walletPda secp256r1;
  let signedPayload := LegacyWeb3.concatBytes [address_encode sessionPda; address_encode refundDest] in
  signing ← lift3 (buildPasskeySigning DISC_REVOKE_SESSION LegacyHelpers.SYSVAR_IX_INDEX_REVOKE_SESSION
                     signedPayload (rs_slot r) (rs_counter r) payer walletPda (rs_publicKeyBytes r));
  mret (mkPreparedRevoke signing payer walletPda (rs_authorityPda r) sessionPda refundDest programId).

Definition finalizeRevokeSession (p : PreparedRevokeSession) (response : WebAuthnResponse) :
    result (list TransactionInstruction) :=
  '(authPayload, precompileIx) ← LegacyBuilders.finalizeSecp256r1 (pv_signing p) response;
  let ix := LegacyBuilders.createRevokeSessionIx (pv_payer p) (pv_walletPda p) (pv_adminAuthorityPda p)
              (pv_sessionPda p) (pv_refundDestination p) (Some authPayload) None (pv_programId p) in
  Ok [precompileIx; ix].

Definition revokeSession (payer walletPda : address) (adminSigner : LegacyClient.AdminSigner)
    (sessionPda : address) (refundDestination : option address) : L (list TransactionInstruction) :=
  let refundDest := default payer refundDestination in
  match adminSigner with
  | LegacyClient.AdminEd25519 publicKey authority =>
      adminAuthorityPda ← resolveEd25519AuthorityPda publicKey authority walletPda;
      mret [LegacyBuilders.createRevokeSessionIx payer walletPda adminAuthorityPda sessionPda refundDest None
              (Some publicKey) programId]
  | LegacyClient.AdminSecp256r1 s =>
      prepared ← prepareRevokeSession payer walletPda (LegacyClient.extractSecp256r1Params s) sessionPda
                   refundDestination;
      response ← sign_challenge s (pv_signing prepared);
      lift3 (finalizeRevokeSession prepared response)
  end.

(** ** Deferred execution *)
Record DeferredPayload := mkDeferredPayload {
  dp_walletPda : address;
  dp_deferredExecPda : address;
  dp_compactInstructions : list CompactInstruction;
  dp_remainingAccounts : list Key;
  dp_executor : option address;
  dp_refundDestination : option address;
}.

Record PreparedAuthorize := mkPreparedAuthorize {
  pz_signing : PreparedSecp256r1;
  pz_counter : Z;
  pz_payer : address;
  pz_executor : address;
  pz_walletPda : address;
  pz_authorityPda : address;
  pz_deferredExecPda : address;
  pz_instructionsHash : bytes;
  pz_accountsHash : bytes;
  pz_expiryOffset : Z;
  pz_compactInstructions : list CompactInstruction;
  pz_remainingAccounts : list Key;
  pz_programId : address;
}.

(** Transaction 2's fixed accounts. *)
Definition deferredFixed (executor walletPda vaultPda deferredExecPda refund : address) : list Key :=
  [mkKey executor true true; mkKey walletPda false false; mkKey vaultPda false true;
   mkKey deferredExecPda false true; mkKey refund false true].

Definition prepareAuthorize (payer walletPda : address) (secp256r1 : LegacyClient.Secp256r1Params)
    (instructions : list TransactionInstruction) (expiryOffset : option Z) (executor feePayer : option address) :
    L PreparedAuthorize :=
  '(vaultPda, _) ← findVault walletPda;
  r ← resolveSecp256r1 walletPda secp256r1;
  let expiryOffset := default 300 expiryOffset in
  '(deferredExecPda, _) ← LegacyClient.findDeferredExec programId walletPda (rs_authorityPda r) (rs_counter r);
  let executor := default payer executor in
  l ← lift3 (LegacyHelpers.buildCompactLayoutAndHash
               (deferredFixed executor walletPda vaultPda deferredExecPda payer) instructions feePayer);
  let instructionsHash := LegacyCompact.computeInstructionsHash (lh_compactInstructions l) in
  let expiryOffsetBuf := [u8 (Z.land expiryOffset 0xff); u8 (Z.land (Z.shiftr expiryOffset 8) 0xff)] in
  let signedPayload := LegacyWeb3.concatBytes [instructionsHash; lh_accountsHash l; expiryOffsetBuf] in
  signing ← lift3 (buildPasskeySigning DISC_AUTHORIZE LegacyHelpers.SYSVAR_IX_INDEX_AUTHORIZE signedPayload
                     (rs_slot r) (rs_counter r) payer walletPda (rs_publicKeyBytes r));
  mret (mkPreparedAuthorize signing (rs_counter r) payer executor walletPda (rs_authorityPda r)
          deferredExecPda instructionsHash (lh_accountsHash l) expiryOffset
          (lh_compactInstructions l) (lh_remainingAccounts l) programId).

Record Authorized := mkAuthorized {
  az_instructions : list TransactionInstruction;
  az_deferredExecPda : address;
  az_counter : Z;
  az_deferredPayload : DeferredPayload;
}.

Definition finalizeAuthorize (p : PreparedAuthorize) (response : WebAuthnResponse) : result Authorized :=
  '(authPayload, precompileIx) ← LegacyBuilders.finalizeSecp256r1 (pz_signing p) response;
  authorizeIx ← LegacyBuilders.createAuthorizeIx (pz_payer p) (pz_walletPda p) (pz_authorityPda p)
                  (pz_deferredExecPda p) (pz_instructionsHash p) (pz_accountsHash p)
                  (pz_expiryOffset p) authPayload (pz_programId p);
  Ok (mkAuthorized [precompileIx; authorizeIx] (pz_deferredExecPda p) (pz_counter p)
        (mkDeferredPayload (pz_walletPda p) (pz_deferredExecPda p) (pz_compactInstructions p)
           (pz_remainingAccounts p) (Some (pz_executor p)) (Some (pz_payer p)))).

Definition authorize (payer walletPda : address) (s : LegacyClient.Secp256r1SignerConfig)
    (instructions : list TransactionInstruction) (expiryOffset : option Z) (executor feePayer : option address) :
    L Authorized :=
  prepared ← prepareAuthorize payer walletPda (LegacyClient.extractSecp256r1Params s) instructions expiryOffset
               executor feePayer;
  response ← sign_challenge s (pz_signing prepared);
  lift3 (finalizeAuthorize prepared response).

Definition executeDeferredFromPayload (payer : address) (deferredPayload : DeferredPayload)
    (refundDestination : option address) : L (list TransactionInstruction) :=
  _ ← lift3 (throw_if (match dp_executor deferredPayload with
                       | Some executor => negb (bool_decide (executor = payer))
                           && LegacyHelpers.namesDeferredPayerSlot (dp_compactInstructions deferredPayload)
                       | None => false
                       end) EWrongExecutor);
  '(vaultPda, _) ← findVault (dp_walletPda deferredPayload);
  let refundDest := default (default payer (dp_refundDestination deferredPayload)) refundDestination in
  let packed := LegacyCompact.packCompactInstructions (dp_compactInstructions deferredPayload) in
  fee ← LegacyClient.resolveProtocolFeeWithRegister env programId protocolFees payer;
  let ix := LegacyBuilders.createExecuteDeferredIx payer (dp_walletPda deferredPayload) vaultPda
              (dp_deferredExecPda deferredPayload) refundDest packed
              (dp_remainingAccounts deferredPayload) (LegacyClient.fee_accounts fee) programId in
  mret (LegacyClient.fee_head fee ++ [ix]).

Definition reclaimDeferred (payer deferredExecPda : address) (refundDestination : option address) :
    list TransactionInstruction :=
  [LegacyBuilders.createReclaimDeferredIx payer deferredExecPda (default payer refundDestination) programId].

(** ** Protocol administration *)
Definition initializeProtocol (payer admin treasury : address) (creationFee executionFee shards : Z) :
    L (list TransactionInstruction * address) :=
  '(protocolConfigPda, _) ← LegacyClient.findProtocolConfig programId;
  ix ← lift3 (LegacyBuilders.createInitializeProtocolIx payer protocolConfigPda admin treasury creationFee
                executionFee shards programId);
  mret ([ix], protocolConfigPda).

Definition updateProtocol (admin : address) (creationFee executionFee : Z) (on : bool)
    (newTreasury : address) : L (list TransactionInstruction) :=
  '(protocolConfigPda, _) ← LegacyClient.findProtocolConfig programId;
  ix ← lift3 (LegacyBuilders.createUpdateProtocolIx admin protocolConfigPda creationFee executionFee on newTreasury
                programId);
  mret [ix].

Definition initializeTreasuryShard (payer admin : address) (shardId : Z) :
    L (list TransactionInstruction * address) :=
  '(protocolConfigPda, _) ← LegacyClient.findProtocolConfig programId;
  '(treasuryShardPda, _) ← LegacyClient.findTreasuryShard programId shardId;
  mret ([LegacyBuilders.createInitializeTreasuryShardIx payer protocolConfigPda admin treasuryShardPda shardId
           programId], treasuryShardPda).

Definition registerPayer (payer : address) : L (list TransactionInstruction * address) :=
  '(feeRecordPda, _) ← LegacyClient.findFeeRecord programId payer;
  mret ([LegacyBuilders.createRegisterPayerIx payer feeRecordPda programId], feeRecordPda).

Definition withdrawTreasury (admin : address) (shardId : Z) (treasury : address) :
    L (list TransactionInstruction) :=
  '(protocolConfigPda, _) ← LegacyClient.findProtocolConfig programId;
  '(treasuryShardPda, _) ← LegacyClient.findTreasuryShard programId shardId;
  mret [LegacyBuilders.createWithdrawTreasuryIx admin protocolConfigPda treasuryShardPda treasury programId].
End ops.
