(* ===== verification/LegacyClientParity.v ===== *)
(** * The two SDKs' clients do the same

    Every method of the web3.js client that builds a transaction, against the
    kit SDK's: on the same node the same effect on the caches, the same
    instructions, the same errors.  The web3.js SDK may throw a [RangeError]
    instead where a number does not fit its field. *)
From S2P Require Import Prelude Bytes Kit Constants JsMap Pdas Actions Packing Builders Signing ChallengeReads Accounts ClientHelpers Client.
From S2P Require Import LegacyWeb3 LegacyBuilders LegacyParity LegacyCompact LegacyActions LegacyReads LegacyCalls LegacyV1 LegacyHelpers LegacyVetting LegacyLookupParity LegacyClient.
From S2P Require Import ClientOps LegacyOps.
Local Open Scope Z_scope.

Section parity.
Context `{KL : KitLaws} {W : Web3Pda} {W' : Web3Keys} {WL : Web3KeysLaws W'}.
Hypothesis same_derivation : ∀ seeds programId,
  findProgramAddressSync seeds programId = getProgramDerivedAddress programId seeds.
Variable env : Web3Env.
Variable programId : address.
Variable protocolFees : bool.
Abbreviation kenv := (kit_env env).

(** A number [Buffer] checks: the result may stop being exact there. *)
Lemma agree_number {A B C} (ok : bool) (x : C) b (R : A → B → Prop) m g :
  (ok = true → agree b R m (g x)) → (ok = false → b = false) →
  agree b R m (lift3 (if ok then Ok x else Throw ERangeError) ≫= g).
Proof. intros H Hb. destruct ok; [by apply H|]. intros c. left. by rewrite Hb. Qed.

Lemma agree_assoc {A B C D} b (R : A → D → Prop) (m : M A) (l : L B) (f : B → L C) (g : C → L D) :
  agree b R m (l ≫= λ x, f x ≫= g) → agree b R m ((l ≫= f) ≫= g).
Proof.
  intros H c. specialize (H c). revert H. unfold mbind, L_bind. by destruct (l (web3_of c)) as [? []].
Qed.

Lemma agree_any {A B} b (R : A → B → Prop) m l : agree true R m l → agree b R m l.
Proof. intros H. destruct b; [done|]. by apply agree_strict. Qed.

Ltac agree_pda := apply agree_lift; by apply derive_agrees.

(** ** Protocol fees *)
Lemma agree_config : agree true eq (Client.getProtocolConfig kenv programId) (getProtocolConfig env programId).
Proof.
  unfold Client.getProtocolConfig, getProtocolConfig. eapply agree_bind; [apply agree_get|].
  intros c ? ->. cbn [web3_of l_protocolConfig]. destruct (_protocolConfig c) as [v|]; [by apply agree_ret|].
  eapply agree_bind; [agree_pda|]. intros [pda b] ? <-.
  eapply agree_bind; [apply agree_getAccountInfo|]. intros ? info ->.
  assert (Hset : ∀ v, agree true eq (Client.set_config v) (set_config v)) by (intros v; by apply agree_modify).
  destruct info as [i|]; cbn [kit_info fmap option_fmap option_map config_of].
  - rewrite decode_kit_view. apply agree_ok_l.
    destruct (_ || _); (eapply agree_bind; [apply Hset|]; intros [] [] _; by apply agree_ret).
  - eapply agree_bind; [apply Hset|]. intros [] [] _. by apply agree_ret.
Qed.

Lemma agree_fee payer :
  agree true eq (Client.resolveProtocolFee kenv programId protocolFees payer)
    (resolveProtocolFee env programId protocolFees payer).
Proof.
  unfold Client.resolveProtocolFee, resolveProtocolFee. destruct protocolFees; [|by apply agree_ret]. cbn [negb].
  eapply agree_bind; [apply agree_config|]. intros config ? <-.
  eapply agree_bind; [agree_pda|]. intros [a b] ? <-.
  eapply agree_bind; [agree_pda|]. intros [a' b'] ? <-.
  eapply (agree_bind _ eq).
  { destruct config as [v|]; [|by apply agree_ret]. apply agree_if; [done| |by apply agree_ret].
    eapply agree_bind; [apply agree_ask|]. intros n ? <-. by apply agree_ret. }
  intros shard ? <-. eapply agree_bind; [agree_pda|]. intros [a2 b2] ? <-. by apply agree_ret.
Qed.

Lemma payer_known payer (l : list address) :
  bool_decide (toBase58 payer ∈ (address_string <$> l : list string)) = bool_decide (payer ∈ l).
Proof.
  apply bool_decide_ext. rewrite list_elem_of_fmap. split; [|eauto].
  by intros (b & ->%text_inj & ?).
Qed.

Definition web3_fee (fee : option (ProtocolFeeAccounts * option Instruction)) :
    option (ProtocolFeeAccounts * option TransactionInstruction) := (λ f, (f.1, option_map web3_ix f.2)) <$> fee.

Lemma agree_register payer : agree true eq (register payer) (add_payer (toBase58 payer)).
Proof.
  apply agree_modify. intros c. unfold web3_of. cbn [l_protocolConfig l_registeredPayers l_asked].
  rewrite payer_known. f_equal. case_bool_decide; [done|]. cbn [_registeredPayers]. by rewrite fmap_app.
Qed.

Lemma agree_fee_register payer :
  agree true (λ x y, y = web3_fee x)
    (Client.resolveProtocolFeeWithRegister kenv programId protocolFees payer)
    (resolveProtocolFeeWithRegister env programId protocolFees payer).
Proof.
  eapply agree_bind; [apply agree_fee|]. intros [accounts|] ? <-; [|by apply agree_ret].
  eapply agree_bind; [apply agree_config|]. intros config ? <-. apply agree_if; [done|by apply agree_ret|].
  cbv zeta. eapply agree_bind; [apply agree_get|]. intros c ? ->. cbn [web3_of l_registeredPayers].
  rewrite payer_known. apply agree_if; [done|by apply agree_ret|].
  eapply agree_bind; [apply agree_getAccountInfo|]. intros ? info ->.
  assert (feeRecordExists (kit_info info) = Ok (record_exists info)) as ->.
  { destruct info as [i|]; [|done]. cbn [kit_info fmap option_fmap option_map feeRecordExists record_exists].
    rewrite decode_kit_view, bind_ok. by destruct (ai_data i). }
  apply agree_ok_l. apply agree_if; [done|..].
  all: eapply agree_bind; [apply agree_register|]; intros [] [] _; by apply agree_ret.
Qed.

Lemma fee_accounts_web3 fee : LegacyClient.fee_accounts (web3_fee fee) = Client.fee_accounts fee.
Proof. by destruct fee as [[]|]. Qed.

Lemma fee_head_web3 fee : fee_head (web3_fee fee) = web3_ix <$> fee_register fee.
Proof. by destruct fee as [[? []]|]. Qed.

(** ** Signers *)

(** The level this SDK reads at, named to the other. *)
Definition kit_level (c : option Web3Commitment) : option Commitment :=
  Some (kit_commitment (default (defaultChallengeCommitment (l_commitment env)) c)).
Definition kit_params (p : LegacyClient.Secp256r1Params) : Client.Secp256r1Params :=
  Client.mkParams (LegacyClient.sp_credentialIdHash p) (LegacyClient.sp_publicKeyBytes p)
    (LegacyClient.sp_authorityPda p) (LegacyClient.sp_slotOverride p) (LegacyClient.sp_minContextSlot p)
    (kit_level (LegacyClient.sp_commitment p)).
Definition kit_signer (s : LegacyClient.Secp256r1SignerConfig) : Client.Secp256r1SignerConfig :=
  Client.mkSignerConfig (LegacyClient.sc_signer s) (LegacyClient.sc_authorityPda s) (LegacyClient.sc_slotOverride s)
    (LegacyClient.sc_minContextSlot s) (kit_level (LegacyClient.sc_commitment s)).
Definition kit_admin (s : LegacyClient.AdminSigner) : Client.AdminSigner :=
  match s with
  | LegacyClient.AdminEd25519 k a => Client.AdminEd25519 k a
  | LegacyClient.AdminSecp256r1 s => Client.AdminSecp256r1 (kit_signer s)
  end.
Definition kit_exec (s : LegacyClient.ExecuteSigner) : Client.ExecuteSigner :=
  match s with
  | LegacyClient.ExecAdmin s => Client.ExecAdmin (kit_admin s)
  | LegacyClient.ExecSession p k => Client.ExecSession p k
  end.

Lemma value_agrees k w : value_of k (kit_world w) = value_of k w.
Proof.
  unfold value_of, kit_world. cbn [readers]. induction (readers w) as [|[k' t p] l IH]; [done|].
  rewrite fmap_cons. cbn [List.find kit_rd rd_kind]. case_bool_decide; [|exact IH].
  cbn [mbind option_bind kit_rd rd_phase]. destruct p as [| | | |[v|]]; done.
Qed.

Lemma inputs_agree have w : inputs have (kit_world w) = inputs have w.
Proof. unfold inputs. by rewrite !value_agrees. Qed.

Lemma start_world t (kinds : list reader) :
  kit_world (mkWorld t false None (start_reader t <$> kinds)) = mkWorld t false None (start_reader t <$> kinds).
Proof. unfold kit_world. cbn. f_equal. rewrite <- list_fmap_compose. by apply list_fmap_ext. Qed.

Lemma same_reads opts have n :
  same_result eq
    (run_reads (ChallengeReads.challengeReadConfig (Some (kit_options (l_commitment env) opts))) have
       (env_now kenv n) (env_schedule kenv n))
    (w ← of_option (EExternal "schedule")
           (LegacyReads.run (LegacyReads.challengeReadConfig (l_commitment env) (Some opts))
              (mkWorld (l_now env n) false None (start_reader (l_now env n) <$> needed have)) (l_schedule env n));
     match inputs have w with
     | Some r => Ok r
     | None => Throw (default (EExternal "pending") (firstFailure w))
     end).
Proof.
  rewrite config_agrees. unfold run_reads, ChallengeReads.readChallengeInputs.
  cbn [new_group isStopped now firstFailure readers app]. rewrite bind_ok.
  cbn [kit_env env_now env_schedule]. rewrite <- start_world, run_agrees, start_world.
  destruct (LegacyReads.run _ _ _) as [w|]; [|constructor; by left]. cbn [fmap option_fmap option_map of_option].
  rewrite !bind_ok, inputs_agree. destruct (inputs have w) as [r|]; [by constructor|]. constructor.
  cbn [kit_world firstFailure]. destruct (firstFailure w); [apply same_error_kit|by left].
Qed.

Lemma agree_authority_pda walletPda o c :
  agree true eq
    (match o with Some a => mret a | None => '(a, _) ← Client.findAuthority programId walletPda c; mret a end)
    (match o with Some a => mret a | None => '(a, _) ← findAuthority programId walletPda c; mret a end).
Proof.
  destruct o as [a|]; [by apply agree_ret|]. eapply agree_bind; [agree_pda|]. intros [a b] ? <-. by apply agree_ret.
Qed.

Lemma agree_resolve walletPda p :
  agree true eq (Client.resolveSecp256r1 kenv programId walletPda (kit_params p))
    (resolveSecp256r1 env programId walletPda p).
Proof.
  eapply agree_bind; [apply agree_lift, same_refl|]. intros [] [] _.
  eapply agree_bind; [apply agree_lift, same_refl|]. intros [] [] _.
  eapply agree_bind; [apply agree_authority_pda|]. intros pda ? <-.
  apply agree_assoc. eapply agree_bind; [apply agree_ask|]. intros n ? <-.
  eapply agree_bind; [apply agree_lift, (same_reads (LegacyReads.mkOptions (LegacyClient.sp_commitment p)
    (LegacyClient.sp_minContextSlot p)) (mkHave (LegacyClient.sp_publicKeyBytes p) (LegacyClient.sp_slotOverride p)) n)|].
  intros [[k sl] ct] ? <-. by apply agree_ret.
Qed.

Lemma agree_ed25519_pda k o walletPda :
  agree true eq (Client.resolveEd25519AuthorityPda programId k o walletPda)
    (resolveEd25519AuthorityPda programId k o walletPda).
Proof. apply agree_authority_pda. Qed.

Definition signed (s : PreparedSecp256r1) : Prop :=
  signature_fits (p_slot s) (p_counter s) (p_sysvarIxIndex s) = true.

(** The slot and the counter a passkey signs fit their fields, whatever the
    caches are when they are read. *)
Definition signs_fit (walletPda : address) (p : LegacyClient.Secp256r1Params) : Prop := ∀ c,
  match (Client.resolveSecp256r1 kenv programId walletPda (kit_params p) c).2 with
  | Ok r => fits_uint 8 (Client.rs_slot r) && fits_uint 4 (Client.rs_counter r)
  | Throw _ => true
  end = true.
Definition admin_fits (walletPda : address) (s : LegacyClient.AdminSigner) : Prop :=
  match s with
  | LegacyClient.AdminSecp256r1 s => signs_fit walletPda (LegacyClient.extractSecp256r1Params s)
  | _ => True
  end.
Definition exec_fits (walletPda : address) (s : LegacyClient.ExecuteSigner) : Prop :=
  match s with LegacyClient.ExecAdmin s => admin_fits walletPda s | _ => True end.

Lemma agree_resolved walletPda p :
  agree true (λ x y, x = y ∧ (signs_fit walletPda p → fits_uint 8 (Client.rs_slot x) && fits_uint 4 (Client.rs_counter x) = true))
    (Client.resolveSecp256r1 kenv programId walletPda (kit_params p)) (resolveSecp256r1 env programId walletPda p).
Proof.
  intros c. destruct (agree_resolve walletPda p c) as [[? _]|[Hc Hr]]; [done|right]. split; [exact Hc|].
  remember (Client.resolveSecp256r1 kenv programId walletPda (kit_params p) c).2 as o eqn:E.
  destruct Hr as [x y Hxy|e' e He]; constructor; [|done]. split; [done|]. intros Hf. specialize (Hf c). by rewrite <- E in Hf.
Qed.

(** What one SDK computes and the other checks as well. *)
Lemma agree_signing {A B} b (R : A → B → Prop) m g disc idx payload slot counter payer wallet key :
  fits_uint 1 idx = true → (b = true → fits_uint 8 slot && fits_uint 4 counter = true) →
  (signed (Client.buildPasskeySigning programId disc idx payload slot counter payer wallet key) →
   agree b R m (g (Client.buildPasskeySigning programId disc idx payload slot counter payer wallet key))) →
  agree b R m
    (lift3 (buildPasskeySigning programId disc idx payload slot counter payer wallet key) ≫= g).
Proof.
  intros Hi Hb H. unfold buildPasskeySigning. rewrite prepare_agrees. apply agree_number; [done|].
  unfold signature_fits. rewrite Hi, andb_true_r. destruct b; [|done]. by rewrite Hb.
Qed.

Lemma same_finalize {A B} (R : A → B → Prop) signing response f g :
  signed signing → (∀ payload ix, same_result R (f (payload, ix)) (g (payload, web3_ix ix))) →
  same_result R (Signing.finalizeSecp256r1 signing response ≫= f)
    (LegacyBuilders.finalizeSecp256r1 signing response ≫= g).
Proof.
  intros Hs H. rewrite finalize_agrees by done.
  destruct (Signing.finalizeSecp256r1 signing response) as [[payload ix]|e]; [apply H|constructor; by left].
Qed.

(** An instruction without numbers to check. *)
Lemma built_same p (r : request) ix : legacy_build p r = Ok ix → request_fits r = true → ix = web3_ix (kit_build p r).
Proof. intros H Hf. rewrite build_agrees, Hf in H. by injection H. Qed.

(** ** Create and execute *)
Definition same_ixs (x : list Instruction) (y : list TransactionInstruction) : Prop := y = web3_ix <$> x.

Definition web3_created (c : Client.CreatedWallet) : LegacyClient.CreatedWallet :=
  LegacyClient.mkCreated (web3_ix <$> Client.cw_instructions c) (Client.cw_walletPda c) (Client.cw_vaultPda c)
    (Client.cw_vaultPda c) (Client.cw_authorityPda c).

Lemma agree_createWallet payer seed owner :
  agree true (λ x y, y = web3_created x) (Client.createWallet kenv programId protocolFees payer seed owner)
    (createWallet env programId protocolFees payer seed owner).
Proof.
  eapply agree_bind; [apply agree_lift, same_refl|]. intros [] [] _.
  eapply agree_bind; [agree_pda|]. intros [w wb] ? <-.
  eapply agree_bind; [agree_pda|]. intros [v vb] ? <-.
  eapply agree_bind; [apply agree_lift, same_refl|]. intros o ? <-.
  eapply agree_bind; [agree_pda|]. intros [a ab] ? <-.
  eapply agree_bind; [apply agree_fee_register|]. intros fee ? ->. apply agree_ret.
  unfold web3_created. cbn [Client.cw_instructions Client.cw_walletPda Client.cw_vaultPda Client.cw_authorityPda].
  rewrite fee_accounts_web3, fee_head_web3, fmap_app. f_equal. f_equal. cbn [fmap list_fmap]. f_equal.
  exact (built_same programId (CreateWallet payer w v a seed (authType o) ab (credentialOrPubkey o)
    (secp256r1Pubkey o) (of_rpId o) (Client.fee_accounts fee)) _ eq_refl eq_refl).
Qed.

Definition web3_prepared (p : Client.PreparedExecute) : LegacyClient.PreparedExecute :=
  LegacyClient.mkPreparedExecute (Client.pe_signing p) (Client.pe_payer p) (Client.pe_walletPda p)
    (Client.pe_authorityPda p) (Client.pe_vaultPda p) (Client.pe_packed p)
    (web3_key <$> Client.pe_remainingAccounts p) (Client.pe_protocolFee p) (web3_ix <$> Client.pe_registerIx p)
    (Client.pe_programId p).

Lemma agree_layout (R : LayoutAndHash → LayoutHash → Prop) first rest (ixs : list Instruction) feePayer payer :
  m_address first = payer → (∀ l, R l (web3_hash l)) →
  same_result R (Client.buildCompactLayoutAndHash (first :: rest) ixs payer feePayer)
    (LegacyHelpers.buildCompactLayoutAndHash (web3_key <$> first :: rest) (web3_ix <$> ixs) feePayer).
Proof.
  intros <- H. rewrite layout_hash_agrees.
  destruct (Client.buildCompactLayoutAndHash _ _ _ _) as [l|]; constructor; [apply H|by left].
Qed.

Lemma agree_prepareExecute b payer walletPda p (ixs : list Instruction) feePayer : (b = true → signs_fit walletPda p) →
  agree b (λ x y, y = web3_prepared x ∧ signed (Client.pe_signing x))
    (Client.prepareExecute kenv programId protocolFees payer walletPda (kit_params p) ixs feePayer)
    (prepareExecute env programId protocolFees payer walletPda p (web3_ix <$> ixs) feePayer).
Proof.
  intros Hb. eapply agree_bind; [agree_pda|]. intros [v vb] ? <-.
  eapply agree_bind; [apply agree_any, agree_both; [apply agree_resolved|apply agree_fee_register]|].
  intros [r fee] [r' fee'] [[[= <-] Hr] [= ->]]. cbn [fst] in Hr.
  eapply agree_bind; [apply agree_lift; eapply (agree_layout (λ l l', l' = web3_hash l)); done|]. intros l ? ->.
  cbv zeta. cbn [web3_hash lh_compactInstructions lh_accountsHash lh_remainingAccounts].
  rewrite pack_agrees, fee_accounts_web3, fee_head_web3.
  apply agree_signing; [done|auto|]. intros Hs. by apply agree_ret.
Qed.

Lemma same_finalizeExecute p response : signed (Client.pe_signing p) →
  same_result same_ixs (Client.finalizeExecute p response) (finalizeExecute (web3_prepared p) response).
Proof.
  intros Hs. apply same_finalize; [done|]. intros payload ix. constructor. unfold same_ixs.
  cbn [web3_prepared LegacyClient.pe_registerIx LegacyClient.pe_payer LegacyClient.pe_walletPda LegacyClient.pe_authorityPda
    LegacyClient.pe_vaultPda LegacyClient.pe_packed LegacyClient.pe_remainingAccounts LegacyClient.pe_protocolFee
    LegacyClient.pe_programId]. rewrite fmap_app. cbn [fmap list_fmap]. f_equal. f_equal. f_equal.
  exact (built_same (Client.pe_programId p) (Execute (Client.pe_payer p) (Client.pe_walletPda p)
    (Client.pe_authorityPda p) (Client.pe_vaultPda p) (Client.pe_packed p) (Some payload) None
    (Client.pe_remainingAccounts p) (Client.pe_protocolFee p)) _ eq_refl eq_refl).
Qed.

Lemma agree_compact b fixed (ixs : list Instruction) payer :
  agree b (λ x y, y = web3_layout x) (lift (Compact.buildCompactLayout fixed ixs payer))
    (lift3 (LegacyCompact.buildCompactLayout fixed (web3_ix <$> ixs) payer)).
Proof.
  apply agree_lift. rewrite layout_agrees. destruct (Compact.buildCompactLayout _ _ _); constructor; [done|by left].
Qed.

Lemma agree_execute b payer walletPda s (ixs : list Instruction) feePayer : (b = true → exec_fits walletPda s) →
  agree b same_ixs
    (Client.execute kenv programId protocolFees payer walletPda (kit_exec s) ixs feePayer)
    (execute env programId protocolFees payer walletPda s (web3_ix <$> ixs) feePayer).
Proof.
  intros Hb. eapply agree_bind; [agree_pda|]. intros [v vb] ? <-.
  eapply agree_bind; [apply agree_any, agree_fee_register|]. intros fee ? ->.
  rewrite fee_accounts_web3, fee_head_web3. destruct s as [[k o|s]|sp sk]; cbn [kit_exec kit_admin].
  - eapply agree_bind; [apply agree_any, agree_ed25519_pda|]. intros a ? <-.
    eapply agree_bind; [apply agree_compact|]. intros [cs rem] ? ->. cbn [web3_layout fst snd]. apply agree_ret.
    unfold same_ixs. rewrite fmap_app, pack_agrees. f_equal. cbn [fmap list_fmap]. f_equal.
    exact (built_same programId (Execute payer walletPda a v _ None (Some k) rem (Client.fee_accounts fee)) _ eq_refl eq_refl).
  - eapply agree_bind; [by apply (agree_prepareExecute b payer walletPda (LegacyClient.extractSecp256r1Params s))|].
    intros p ? [-> Hs]. eapply agree_bind; [apply agree_lift, same_refl|]. intros response ? <-.
    by apply agree_lift, same_finalizeExecute.
  - eapply agree_bind; [apply agree_compact|]. intros [cs rem] ? ->. cbn [web3_layout fst snd]. apply agree_ret.
    unfold same_ixs. rewrite fmap_app, pack_agrees. f_equal. cbn [fmap list_fmap]. f_equal.
    exact (built_same programId (Execute payer walletPda sp v _ None None (mkMeta sk READONLY_SIGNER :: rem)
      (Client.fee_accounts fee)) _ eq_refl eq_refl).
Qed.

(** ** Authorities *)
Definition same_with_pda (x : list Instruction * address) (y : list TransactionInstruction * address) : Prop :=
  y = (web3_ix <$> x.1, x.2).

Lemma agree_sign b s signing :
  agree b eq (ClientOps.sign_challenge (kit_signer s) signing) (sign_challenge s signing).
Proof. apply agree_lift, same_refl. Qed.

(** An instruction with a number to check. *)
Lemma agree_build {A B} b (R : A → B → Prop) m g p (r : request) :
  (request_fits r = true → agree b R m (g (web3_ix (kit_build p r)))) → (request_fits r = false → b = false) →
  agree b R m (lift3 (legacy_build p r) ≫= g).
Proof. intros H Hb. rewrite build_agrees. by apply agree_number. Qed.

Lemma agree_prepareAdd b payer walletPda p owner role policy allowOwner :
  (b = true → signs_fit walletPda p ∧ fits_uint 2 (Z.of_nat (length (default [] policy))) = true) →
  agree b (λ x y, x = y ∧ signed (pa_signing x) ∧ fits_uint 2 (Z.of_nat (length (default [] (pa_policy x)))) = true)
    (ClientOps.prepareAddAuthority kenv programId payer walletPda (kit_params p) owner role policy allowOwner)
    (prepareAddAuthority env programId payer walletPda p owner role policy allowOwner).
Proof.
  intros Hb. eapply agree_bind; [apply agree_lift; rewrite role_check_agrees; apply same_refl|]. intros [] [] _.
  eapply agree_bind; [apply agree_lift, same_refl|]. intros o ? <-.
  eapply agree_bind; [agree_pda|]. intros [a ab] ? <-.
  eapply agree_bind; [apply agree_any, agree_resolved|]. intros r ? [<- Hr]. cbv zeta.
  rewrite add_payload_agrees. apply agree_number; [|destruct b; [|done]; by rewrite (proj2 (Hb eq_refl))]. intros Hp.
  apply agree_signing; [done|naive_solver|]. intros Hs. by apply agree_ret.
Qed.

Lemma same_finalizeAdd p response :
  signed (pa_signing p) → fits_uint 2 (Z.of_nat (length (default [] (pa_policy p)))) = true →
  same_result same_with_pda (ClientOps.finalizeAddAuthority p response) (finalizeAddAuthority p response).
Proof.
  intros Hs Hp. apply same_finalize; [done|]. intros payload ix.
  pose proof (build_agrees (pa_programId p) (AddAuthority (pa_payer p) (pa_walletPda p) (pa_adminAuthorityPda p)
    (pa_newAuthorityPda p) (pa_newType p) (pa_newRole p) (pa_credentialOrPubkey p) (pa_secp256r1Pubkey p) (pa_rpId p)
    (pa_policy p) (Some payload) None)) as H.
  cbn [legacy_build request_fits] in H. rewrite Hp in H. rewrite H, bind_ok. by constructor.
Qed.

Lemma agree_addAuthority b payer walletPda s owner role policy allowOwner :
  (b = true → admin_fits walletPda s ∧ fits_uint 2 (Z.of_nat (length (default [] policy))) = true) →
  agree b same_with_pda
    (ClientOps.addAuthority kenv programId payer walletPda (kit_admin s) owner role policy allowOwner)
    (addAuthority env programId payer walletPda s owner role policy allowOwner).
Proof.
  intros Hb. eapply agree_bind; [apply agree_lift; rewrite role_check_agrees; apply same_refl|]. intros [] [] _.
  eapply agree_bind; [apply agree_lift, same_refl|]. intros o ? <-.
  eapply agree_bind; [agree_pda|]. intros [a ab] ? <-.
  destruct s as [k au|s]; cbn [kit_admin admin_fits] in *.
  - eapply agree_bind; [apply agree_any, agree_ed25519_pda|]. intros ad ? <-.
    apply (agree_build _ _ _ _ programId (AddAuthority payer walletPda ad a (authType o) role (credentialOrPubkey o)
      (secp256r1Pubkey o) (of_rpId o) policy None (Some k)));
      [|cbn [request_fits]; destruct b; [by rewrite (proj2 (Hb eq_refl))|done]]. intros _. by apply agree_ret.
  - eapply agree_bind; [by apply (agree_prepareAdd b payer walletPda (LegacyClient.extractSecp256r1Params s))|].
    intros p ? (<- & Hs & Hp). eapply agree_bind; [apply agree_sign|]. intros response ? <-.
    by apply agree_lift, same_finalizeAdd.
Qed.

Lemma agree_removeAuthority b payer walletPda s target refund : (b = true → admin_fits walletPda s) →
  agree b same_ixs
    (ClientOps.removeAuthority kenv programId payer walletPda (kit_admin s) target refund)
    (removeAuthority env programId payer walletPda s target refund).
Proof.
  intros Hb. unfold ClientOps.removeAuthority, removeAuthority. cbv zeta. destruct s as [k au|s]; cbn [kit_admin admin_fits] in *.
  - eapply agree_bind; [apply agree_any, agree_ed25519_pda|]. intros a ? <-. by apply agree_ret.
  - eapply (agree_bind _ (λ x y, x = y ∧ signed (pr_signing x))).
    { eapply agree_bind; [apply agree_any, (agree_resolved walletPda (LegacyClient.extractSecp256r1Params s))|].
      intros r ? [<- Hr]. cbv zeta. apply agree_signing; [done|auto|]. intros Hs. by apply agree_ret. }
    intros p ? [<- Hs]. eapply agree_bind; [apply agree_sign|]. intros response ? <-. apply agree_lift.
    apply same_finalize; [done|]. intros payload ix. by constructor.
Qed.

Lemma agree_transferOwnership b payer walletPda s owner refund : (b = true → admin_fits walletPda s) →
  agree b same_with_pda
    (ClientOps.transferOwnership kenv programId payer walletPda (kit_admin s) owner refund)
    (transferOwnership env programId payer walletPda s owner refund).
Proof.
  intros Hb. eapply agree_bind; [apply agree_lift, same_refl|]. intros o ? <-.
  eapply agree_bind; [agree_pda|]. intros [a ab] ? <-. cbv zeta. destruct s as [k au|s]; cbn [kit_admin admin_fits] in *.
  - eapply agree_bind; [apply agree_any, agree_ed25519_pda|]. intros cur ? <-. by apply agree_ret.
  - eapply (agree_bind _ (λ x y, x = y ∧ signed (pt_signing x))).
    { eapply agree_bind; [apply agree_lift, same_refl|]. intros o' ? <-.
      eapply agree_bind; [agree_pda|]. intros [a' ab'] ? <-.
      eapply agree_bind; [apply agree_any, (agree_resolved walletPda (LegacyClient.extractSecp256r1Params s))|].
      intros r ? [<- Hr]. cbv zeta. apply agree_signing; [done|auto|]. intros Hs. by apply agree_ret. }
    intros p ? [<- Hs]. eapply agree_bind; [apply agree_sign|]. intros response ? <-. apply agree_lift.
    apply same_finalize; [done|]. intros payload ix. by constructor.
Qed.

(** ** Sessions *)
Definition actions_fit (actions : option (list SessionAction)) : bool := forallb amounts_ok (default [] actions).

Lemma buffer_agrees actions :
  actions_fit actions = true → ClientOps.actions_buffer actions = Ok (actions_buffer actions).
Proof.
  intros H. destruct actions as [[|a l]|]; [done| |done]. cbn [ClientOps.actions_buffer actions_buffer].
  rewrite serializeActions_ok by (by apply forallb_Forall). by rewrite serialize_wires.
Qed.

Lemma agree_prepareSession b payer walletPda p key expiresAt actions unrestricted : actions_fit actions = true →
  (b = true → signs_fit walletPda p ∧ fits_i64 expiresAt = true) →
  agree b (λ x y, x = y ∧ signed (pc_signing x) ∧ fits_i64 (pc_expiresAt x) = true)
    (ClientOps.prepareCreateSession kenv programId payer walletPda (kit_params p) key expiresAt actions unrestricted)
    (prepareCreateSession env programId payer walletPda p key expiresAt actions unrestricted).
Proof.
  intros Hf Hb. eapply agree_bind; [apply agree_lift; instantiate (1 := eq); apply same_refl|]. intros [] [] _. cbv zeta.
  eapply agree_bind; [agree_pda|]. intros [sp sb] ? <-.
  eapply agree_bind; [apply agree_any, agree_resolved|]. intros r ? [<- Hr].
  rewrite buffer_agrees by done. apply agree_ok_l.
  rewrite session_payload_agrees by (rewrite address_encode_length; lia).
  destruct (fits_i64 expiresAt) eqn:He; [|intros c; left; destruct b; [by destruct (Hb eq_refl)|done]].
  eapply agree_bind; [apply agree_lift, same_refl|]. intros d ? <-. apply agree_signing; [done|naive_solver|]. intros Hs. by apply agree_ret.
Qed.

Lemma agree_createSession b payer walletPda s key expiresAt actions unrestricted : actions_fit actions = true →
  (b = true → admin_fits walletPda s ∧ fits_i64 expiresAt = true) →
  agree b same_with_pda
    (ClientOps.createSession kenv programId payer walletPda (kit_admin s) key expiresAt actions unrestricted)
    (createSession env programId payer walletPda s key expiresAt actions unrestricted).
Proof.
  intros Hf Hb. eapply agree_bind; [apply agree_lift; instantiate (1 := eq); apply same_refl|]. intros [] [] _. cbv zeta.
  eapply agree_bind; [agree_pda|]. intros [sp sb] ? <-. rewrite buffer_agrees by done. apply agree_ok_l.
  destruct s as [k au|s]; cbn [kit_admin admin_fits] in *.
  - eapply agree_bind; [apply agree_any, agree_ed25519_pda|]. intros ad ? <-.
    apply (agree_build _ _ _ _ programId (CreateSession payer walletPda ad sp (address_encode key) expiresAt
      (actions_buffer actions) None (Some k)));
      [|cbn [request_fits]; destruct b; [by rewrite (proj2 (Hb eq_refl))|done]]. intros _. by apply agree_ret.
  - eapply agree_bind; [by apply (agree_prepareSession b payer walletPda (LegacyClient.extractSecp256r1Params s))|].
    intros p ? (<- & Hs & He). eapply agree_bind; [apply agree_sign|]. intros response ? <-. apply agree_lift.
    apply same_finalize; [done|]. intros payload ix.
    pose proof (build_agrees (pc_programId p) (CreateSession (pc_payer p) (pc_walletPda p) (pc_adminAuthorityPda p)
      (pc_sessionPda p) (pc_sessionKey p) (pc_expiresAt p) (pc_actionsBuffer p) (Some payload) None)) as H.
    cbn [legacy_build request_fits] in H. rewrite He in H. rewrite H, bind_ok. by constructor.
Qed.

Lemma agree_revokeSession b payer walletPda s session refund : (b = true → admin_fits walletPda s) →
  agree b same_ixs
    (ClientOps.revokeSession kenv programId payer walletPda (kit_admin s) session refund)
    (revokeSession env programId payer walletPda s session refund).
Proof.
  intros Hb. unfold ClientOps.revokeSession, revokeSession. cbv zeta. destruct s as [k au|s]; cbn [kit_admin admin_fits] in *.
  - eapply agree_bind; [apply agree_any, agree_ed25519_pda|]. intros a ? <-. by apply agree_ret.
  - eapply (agree_bind _ (λ x y, x = y ∧ signed (pv_signing x))).
    { eapply agree_bind; [apply agree_any, (agree_resolved walletPda (LegacyClient.extractSecp256r1Params s))|].
      intros r ? [<- Hr]. cbv zeta. apply agree_signing; [done|auto|]. intros Hs. by apply agree_ret. }
    intros p ? [<- Hs]. eapply agree_bind; [apply agree_sign|]. intros response ? <-. apply agree_lift.
    apply same_finalize; [done|]. intros payload ix. by constructor.
Qed.

(** ** Deferred execution *)
Definition web3_payload (d : ClientOps.DeferredPayload) : DeferredPayload :=
  mkDeferredPayload (ClientOps.dp_walletPda d) (ClientOps.dp_deferredExecPda d) (ClientOps.dp_compactInstructions d)
    (web3_key <$> ClientOps.dp_remainingAccounts d) (ClientOps.dp_executor d) (ClientOps.dp_refundDestination d).
Definition web3_prepared_authorize (p : ClientOps.PreparedAuthorize) : PreparedAuthorize :=
  mkPreparedAuthorize (ClientOps.pz_signing p) (ClientOps.pz_counter p) (ClientOps.pz_payer p)
    (ClientOps.pz_executor p) (ClientOps.pz_walletPda p) (ClientOps.pz_authorityPda p)
    (ClientOps.pz_deferredExecPda p) (ClientOps.pz_instructionsHash p) (ClientOps.pz_accountsHash p)
    (ClientOps.pz_expiryOffset p) (ClientOps.pz_compactInstructions p)
    (web3_key <$> ClientOps.pz_remainingAccounts p) (ClientOps.pz_programId p).
Definition web3_authorized (a : ClientOps.Authorized) : Authorized :=
  mkAuthorized (web3_ix <$> ClientOps.az_instructions a) (ClientOps.az_deferredExecPda a) (ClientOps.az_counter a)
    (web3_payload (ClientOps.az_deferredPayload a)).

Lemma agree_deferred_pda b walletPda authorityPda counter : (b = true → fits_uint 4 counter = true) →
  agree b eq (Client.findDeferredExec programId walletPda authorityPda counter)
    (findDeferredExec programId walletPda authorityPda counter).
Proof.
  intros Hb. unfold findDeferredExec, LegacyWeb3.findDeferredExecPda. rewrite write32.
  destruct (fits_uint 4 counter); [|intros c; left; destruct b; [by specialize (Hb eq_refl)|done]]. rewrite bind_ok. agree_pda.
Qed.

Lemma agree_prepareAuthorize b payer walletPda p (ixs : list Instruction) offset executor feePayer :
  (b = true → signs_fit walletPda p) →
  agree b (λ x y, y = web3_prepared_authorize x ∧ signed (ClientOps.pz_signing x)
           ∧ ClientOps.pz_expiryOffset x = default 300 offset)
    (ClientOps.prepareAuthorize kenv programId payer walletPda (kit_params p) ixs offset executor feePayer)
    (prepareAuthorize env programId payer walletPda p (web3_ix <$> ixs) offset executor feePayer).
Proof.
  intros Hb. eapply agree_bind; [agree_pda|]. intros [v vb] ? <-.
  eapply agree_bind; [apply agree_any, agree_resolved|]. intros r ? [<- Hr]. cbv zeta.
  assert (Hf : b = true → fits_uint 8 (Client.rs_slot r) && fits_uint 4 (Client.rs_counter r) = true) by auto.
  eapply agree_bind; [apply agree_deferred_pda; intros E; by specialize (Hf E); apply andb_true_iff in Hf as [_ ?]|]. intros [d db] ? <-.
  eapply agree_bind; [apply agree_lift; eapply (agree_layout (λ l l', l' = web3_hash l)); done|]. intros l ? ->.
  cbn [web3_hash lh_compactInstructions lh_accountsHash lh_remainingAccounts].
  unfold LegacyCompact.computeInstructionsHash. rewrite pack_agrees.
  apply agree_signing; [done|auto|]. intros Hs. by apply agree_ret.
Qed.

Lemma agree_authorize b payer walletPda s (ixs : list Instruction) offset executor feePayer :
  (b = true → signs_fit walletPda (LegacyClient.extractSecp256r1Params s) ∧ fits_uint 2 (default 300 offset) = true) →
  agree b (λ x y, y = web3_authorized x)
    (ClientOps.authorize kenv programId payer walletPda (kit_signer s) ixs offset executor feePayer)
    (authorize env programId payer walletPda s (web3_ix <$> ixs) offset executor feePayer).
Proof.
  intros Hb. eapply agree_bind; [apply (agree_prepareAuthorize b payer walletPda (LegacyClient.extractSecp256r1Params s)); naive_solver|].
  intros p ? (-> & Hs & Ho). eapply agree_bind; [apply agree_sign|]. intros response ? <-. intros c.
  unfold ClientOps.finalizeAuthorize, finalizeAuthorize. cbn [web3_prepared_authorize pz_signing].
  rewrite finalize_agrees by done. unfold lift, lift3. cbn [fst snd].
  destruct (Signing.finalizeSecp256r1 _ response) as [[payload ix]|e]; [|right; split; [done|constructor; by left]].
  pose proof (build_agrees (ClientOps.pz_programId p) (Authorize (ClientOps.pz_payer p) (ClientOps.pz_walletPda p)
    (ClientOps.pz_authorityPda p) (ClientOps.pz_deferredExecPda p) (ClientOps.pz_instructionsHash p)
    (ClientOps.pz_accountsHash p) (ClientOps.pz_expiryOffset p) payload)) as H.
  cbn [legacy_build request_fits] in H.
  change (web3_final <$> Ok (payload, ix)) with (Ok (E := error) (payload, web3_ix ix)). rewrite !bind_ok. cbn beta iota.
  cbn [web3_prepared_authorize pz_payer pz_walletPda pz_authorityPda pz_deferredExecPda
    pz_instructionsHash pz_accountsHash pz_expiryOffset pz_programId]. rewrite H.
  rewrite Ho in *. destruct (fits_uint 2 (default 300 offset)); [right|left; destruct b; [by destruct (Hb eq_refl)|done]].
  rewrite bind_ok. split; [done|]. by constructor.
Qed.

Lemma agree_executeDeferred payer d refund :
  agree true same_ixs
    (ClientOps.executeDeferredFromPayload kenv programId protocolFees payer d refund)
    (executeDeferredFromPayload env programId protocolFees payer (web3_payload d) refund).
Proof.
  eapply agree_bind; [apply agree_lift; instantiate (1 := eq); apply same_refl|]. intros [] [] _.
  eapply agree_bind; [agree_pda|]. intros [v vb] ? <-. cbv zeta.
  eapply agree_bind; [apply agree_fee_register|]. intros fee ? ->. apply agree_ret. unfold same_ixs.
  rewrite fee_accounts_web3, fee_head_web3, fmap_app. cbn [web3_payload dp_compactInstructions]. rewrite pack_agrees.
  f_equal. cbn [fmap list_fmap]. f_equal.
  exact (built_same programId (ExecuteDeferred payer (ClientOps.dp_walletPda d) v (ClientOps.dp_deferredExecPda d) _ _
    (ClientOps.dp_remainingAccounts d) (Client.fee_accounts fee)) _ eq_refl eq_refl).
Qed.

(** ** Administration *)
Lemma agree_initialize payer admin treasury cf ef shards :
  agree (fits_uint 8 cf && fits_uint 8 ef) same_with_pda
    (ClientOps.initializeProtocol programId payer admin treasury cf ef shards)
    (initializeProtocol programId payer admin treasury cf ef shards).
Proof.
  eapply agree_bind; [agree_pda|]. intros [c cb] ? <-.
  apply (agree_build _ _ _ _ programId (InitializeProtocol payer c admin treasury cf ef shards)); [|done].
  intros _. by apply agree_ret.
Qed.

Lemma agree_update admin cf ef on treasury :
  agree (fits_uint 8 cf && fits_uint 8 ef) same_ixs (ClientOps.updateProtocol programId admin cf ef on treasury)
    (updateProtocol programId admin cf ef on treasury).
Proof.
  eapply agree_bind; [agree_pda|]. intros [c cb] ? <-.
  apply (agree_build _ _ _ _ programId (UpdateProtocol admin c cf ef on treasury)); [|done].
  intros _. by apply agree_ret.
Qed.

Lemma agree_shard payer admin i :
  agree true same_with_pda (ClientOps.initializeTreasuryShard programId payer admin i)
    (initializeTreasuryShard programId payer admin i).
Proof.
  eapply agree_bind; [agree_pda|]. intros [c cb] ? <-. eapply agree_bind; [agree_pda|]. intros [t tb] ? <-.
  by apply agree_ret.
Qed.

Lemma agree_registerPayer payer :
  agree true same_with_pda (ClientOps.registerPayer programId payer) (registerPayer programId payer).
Proof. eapply agree_bind; [agree_pda|]. intros [c cb] ? <-. by apply agree_ret. Qed.

Lemma agree_withdraw admin i treasury :
  agree true same_ixs (ClientOps.withdrawTreasury programId admin i treasury) (withdrawTreasury programId admin i treasury).
Proof.
  eapply agree_bind; [agree_pda|]. intros [c cb] ? <-. eapply agree_bind; [agree_pda|]. intros [t tb] ? <-.
  by apply agree_ret.
Qed.
End parity.
