(* ===== verification/LegacyClientSame.v ===== *)
(** * One application, two SDKs

    The operations an application asks of a client, run on either SDK: the
    theorem that the two clients answer any sequence of them alike. *)
From S2P Require Import Prelude Bytes Kit Constants JsMap Pdas Actions Packing Builders Signing ChallengeReads Accounts ClientHelpers Client.
From S2P Require Import ClientProps Samples WorkerPool WalletLookup Ledger LookupSafety LookupSamples.
From S2P Require Import LegacyWeb3 LegacyBuilders LegacyParity LegacyCompact LegacyActions LegacyReads LegacyCalls LegacyOwnership LegacyV1 LegacyLookup LegacyHelpers LegacyVetting LegacyLookupParity LegacyLookupSafety LegacyClient.
From S2P Require Import ClientOps LegacyOps LegacyClientParity.
Local Open Scope Z_scope.

Section same.
Context `{KL : KitLaws} {W : Web3Pda} {W' : Web3Keys} {WL : Web3KeysLaws W'}.
Variable env : Web3Env.
Variable programId : address.
Variable protocolFees : bool.

(** What is asked, with the accounts and instructions as @solana/kit has them;
    the web3.js client is given [web3_ix] of the instructions. *)
Inductive op :=
  | OpCreateWallet (payer : address) (userSeed : bytes) (owner : CreateWalletOwner)
  | OpAddAuthority (payer walletPda : address) (s : LegacyClient.AdminSigner) (owner : CreateWalletOwner) (role : Z)
      (policy : option bytes) (allowOwner : option bool)
  | OpRemoveAuthority (payer walletPda : address) (s : LegacyClient.AdminSigner) (target : address)
      (refund : option address)
  | OpTransferOwnership (payer walletPda : address) (s : LegacyClient.AdminSigner) (owner : CreateWalletOwner)
      (refund : option address)
  | OpCreateSession (payer walletPda : address) (s : LegacyClient.AdminSigner) (key : address) (expiresAt : Z)
      (actions : option (list SessionAction)) (unrestricted : option bool)
  | OpRevokeSession (payer walletPda : address) (s : LegacyClient.AdminSigner) (session : address)
      (refund : option address)
  | OpExecute (payer walletPda : address) (s : LegacyClient.ExecuteSigner) (ixs : list Instruction)
      (feePayer : option address)
  | OpAuthorize (payer walletPda : address) (s : LegacyClient.Secp256r1SignerConfig) (ixs : list Instruction)
      (offset : option Z) (executor feePayer : option address)
  | OpExecuteDeferred (payer : address) (payload : ClientOps.DeferredPayload) (refund : option address)
  | OpReclaimDeferred (payer deferred : address) (refund : option address)
  | OpInitializeProtocol (payer admin treasury : address) (creationFee executionFee shards : Z)
  | OpUpdateProtocol (admin : address) (creationFee executionFee : Z) (on : bool) (treasury : address)
  | OpInitializeShard (payer admin : address) (shard : Z)
  | OpRegisterPayer (payer : address)
  | OpWithdraw (admin : address) (shard : Z) (treasury : address).

(** What is answered: instructions, addresses, and an authorization's counter
    and payload. *)
Record answer (I P : Type) := mkAnswer {
  an_instructions : list I;
  an_addresses : list address;
  an_deferred : option (Z * P);
}.

Abbreviation kit_answer := (answer Instruction ClientOps.DeferredPayload).
Abbreviation web3_answer := (answer TransactionInstruction LegacyOps.DeferredPayload).

Definition answer_web3 (a : kit_answer) : web3_answer :=
  mkAnswer _ _ (web3_ix <$> an_instructions _ _ a) (an_addresses _ _ a)
    ((λ d : Z * ClientOps.DeferredPayload, (d.1, web3_payload d.2)) <$> an_deferred _ _ a).

Definition ixs_only {I P} (l : list I) : answer I P := mkAnswer _ _ l [] None.
Definition with_pda {I P} (x : list I * address) : answer I P := mkAnswer _ _ x.1 [x.2] None.

Definition kit_run (o : op) : M kit_answer :=
  let kenv := kit_env env in
  match o with
  | OpCreateWallet p seed owner =>
      x ← Client.createWallet kenv programId protocolFees p seed owner;
      mret (mkAnswer _ _ (Client.cw_instructions x)
              [Client.cw_walletPda x; Client.cw_vaultPda x; Client.cw_authorityPda x] None)
  | OpAddAuthority p w s owner role policy allow =>
      x ← ClientOps.addAuthority kenv programId p w (kit_admin env s) owner role policy allow; mret (with_pda x)
  | OpRemoveAuthority p w s target refund =>
      x ← ClientOps.removeAuthority kenv programId p w (kit_admin env s) target refund; mret (ixs_only x)
  | OpTransferOwnership p w s owner refund =>
      x ← ClientOps.transferOwnership kenv programId p w (kit_admin env s) owner refund; mret (with_pda x)
  | OpCreateSession p w s key expiresAt actions unrestricted =>
      x ← ClientOps.createSession kenv programId p w (kit_admin env s) key expiresAt actions unrestricted;
      mret (with_pda x)
  | OpRevokeSession p w s session refund =>
      x ← ClientOps.revokeSession kenv programId p w (kit_admin env s) session refund; mret (ixs_only x)
  | OpExecute p w s ixs feePayer =>
      x ← Client.execute kenv programId protocolFees p w (kit_exec env s) ixs feePayer; mret (ixs_only x)
  | OpAuthorize p w s ixs offset executor feePayer =>
      x ← ClientOps.authorize kenv programId p w (kit_signer env s) ixs offset executor feePayer;
      mret (mkAnswer _ _ (ClientOps.az_instructions x) [ClientOps.az_deferredExecPda x]
              (Some (ClientOps.az_counter x, ClientOps.az_deferredPayload x)))
  | OpExecuteDeferred p payload refund =>
      x ← ClientOps.executeDeferredFromPayload kenv programId protocolFees p payload refund; mret (ixs_only x)
  | OpReclaimDeferred p deferred refund => mret (ixs_only (ClientOps.reclaimDeferred programId p deferred refund))
  | OpInitializeProtocol p admin treasury cf ef shards =>
      x ← ClientOps.initializeProtocol programId p admin treasury cf ef shards; mret (with_pda x)
  | OpUpdateProtocol admin cf ef on treasury =>
      x ← ClientOps.updateProtocol programId admin cf ef on treasury; mret (ixs_only x)
  | OpInitializeShard p admin shard =>
      x ← ClientOps.initializeTreasuryShard programId p admin shard; mret (with_pda x)
  | OpRegisterPayer p => x ← ClientOps.registerPayer programId p; mret (with_pda x)
  | OpWithdraw admin shard treasury =>
      x ← ClientOps.withdrawTreasury programId admin shard treasury; mret (ixs_only x)
  end.

Definition web3_run (o : op) : L web3_answer :=
  match o with
  | OpCreateWallet p seed owner =>
      x ← LegacyClient.createWallet env programId protocolFees p seed owner;
      mret (mkAnswer _ _ (LegacyClient.cw_instructions x)
              [LegacyClient.cw_walletPda x; LegacyClient.cw_vaultPda x; LegacyClient.cw_authorityPda x] None)
  | OpAddAuthority p w s owner role policy allow =>
      x ← LegacyOps.addAuthority env programId p w s owner role policy allow; mret (with_pda x)
  | OpRemoveAuthority p w s target refund =>
      x ← LegacyOps.removeAuthority env programId p w s target refund; mret (ixs_only x)
  | OpTransferOwnership p w s owner refund =>
      x ← LegacyOps.transferOwnership env programId p w s owner refund; mret (with_pda x)
  | OpCreateSession p w s key expiresAt actions unrestricted =>
      x ← LegacyOps.createSession env programId p w s key expiresAt actions unrestricted; mret (with_pda x)
  | OpRevokeSession p w s session refund =>
      x ← LegacyOps.revokeSession env programId p w s session refund; mret (ixs_only x)
  | OpExecute p w s ixs feePayer =>
      x ← LegacyClient.execute env programId protocolFees p w s (web3_ix <$> ixs) feePayer; mret (ixs_only x)
  | OpAuthorize p w s ixs offset executor feePayer =>
      x ← LegacyOps.authorize env programId p w s (web3_ix <$> ixs) offset executor feePayer;
      mret (mkAnswer _ _ (LegacyOps.az_instructions x) [LegacyOps.az_deferredExecPda x]
              (Some (LegacyOps.az_counter x, LegacyOps.az_deferredPayload x)))
  | OpExecuteDeferred p payload refund =>
      x ← LegacyOps.executeDeferredFromPayload env programId protocolFees p (web3_payload payload) refund;
      mret (ixs_only x)
  | OpReclaimDeferred p deferred refund => mret (ixs_only (LegacyOps.reclaimDeferred programId p deferred refund))
  | OpInitializeProtocol p admin treasury cf ef shards =>
      x ← LegacyOps.initializeProtocol programId p admin treasury cf ef shards; mret (with_pda x)
  | OpUpdateProtocol admin cf ef on treasury =>
      x ← LegacyOps.updateProtocol programId admin cf ef on treasury; mret (ixs_only x)
  | OpInitializeShard p admin shard =>
      x ← LegacyOps.initializeTreasuryShard programId p admin shard; mret (with_pda x)
  | OpRegisterPayer p => x ← LegacyOps.registerPayer programId p; mret (with_pda x)
  | OpWithdraw admin shard treasury =>
      x ← LegacyOps.withdrawTreasury programId admin shard treasury; mret (ixs_only x)
  end.

(** The kit SDK refuses amounts that are not u64s, which the other wraps. *)
Definition op_amounts (o : op) : bool :=
  match o with OpCreateSession _ _ _ _ _ actions _ => actions_fit actions | _ => true end.

(** The numbers of the request fit their fields, and so do the slot and the
    counter its passkey signs. *)
Definition op_fits (o : op) : Prop :=
  match o with
  | OpAddAuthority _ w s _ _ policy _ =>
      admin_fits env programId w s ∧ fits_uint 2 (Z.of_nat (length (default [] policy))) = true
  | OpRemoveAuthority _ w s _ _ | OpTransferOwnership _ w s _ _ | OpRevokeSession _ w s _ _ => admin_fits env programId w s
  | OpCreateSession _ w s _ expiresAt _ _ => admin_fits env programId w s ∧ fits_i64 expiresAt = true
  | OpExecute _ w s _ _ => exec_fits env programId w s
  | OpAuthorize _ w s _ offset _ _ =>
      signs_fit env programId w (LegacyClient.extractSecp256r1Params s) ∧ fits_uint 2 (default 300 offset) = true
  | OpInitializeProtocol _ _ _ cf ef _ | OpUpdateProtocol _ cf ef _ _ => fits_uint 8 cf && fits_uint 8 ef = true
  | _ => True
  end.

Hypothesis same_derivation : ∀ seeds programId,
  findProgramAddressSync seeds programId = getProgramDerivedAddress programId seeds.

Abbreviation same_answer := (λ x y, y = answer_web3 x).

Lemma agree_ixs b m l : agree b same_ixs m l →
  agree b same_answer (x ← m; mret (ixs_only x)) (y ← l; mret (ixs_only y)).
Proof. intros H. eapply agree_bind; [exact H|]. intros x ? ->. by apply agree_ret. Qed.

Lemma agree_pda b m l : agree b same_with_pda m l →
  agree b same_answer (x ← m; mret (with_pda x)) (y ← l; mret (with_pda y)).
Proof. intros H. eapply agree_bind; [exact H|]. intros [x a] ? ->. by apply agree_ret. Qed.

Lemma agree_fitting {A B} (ok b : bool) (R : A → B → Prop) m l :
  (b = true → ok = true) → agree ok R m l → agree b R m l.
Proof. intros Hb H. destruct ok; [by apply agree_any|]. by destruct b; [specialize (Hb eq_refl)|]. Qed.

Lemma agree_op b o : op_amounts o = true → (b = true → op_fits o) → agree b same_answer (kit_run o) (web3_run o).
Proof.
  intros Ha Hb. destruct o; cbn [kit_run web3_run op_fits] in *.
  - eapply agree_bind; [by apply agree_any, agree_createWallet|]. intros x ? ->. by apply agree_ret.
  - by apply agree_pda, agree_addAuthority.
  - by apply agree_ixs, agree_removeAuthority.
  - by apply agree_pda, agree_transferOwnership.
  - by apply agree_pda, agree_createSession.
  - by apply agree_ixs, agree_revokeSession.
  - by apply agree_ixs, agree_execute.
  - eapply agree_bind; [by apply agree_authorize|]. intros x ? ->. by apply agree_ret.
  - by apply agree_ixs, agree_any, agree_executeDeferred.
  - by apply agree_ret.
  - eapply agree_pda, agree_fitting; [exact Hb|by apply agree_initialize].
  - eapply agree_ixs, agree_fitting; [exact Hb|by apply agree_update].
  - by apply agree_pda, agree_any, agree_shard.
  - by apply agree_pda, agree_any, agree_registerPayer.
  - by apply agree_ixs, agree_any, agree_withdraw.
Qed.

Lemma agree_ops b ops : forallb op_amounts ops = true → (b = true → Forall op_fits ops) →
  agree b (Forall2 same_answer) (mapM kit_run ops) (mapM web3_run ops).
Proof.
  intros Ha Hb. eapply (agree_mapM _ (λ o o', o = o' ∧ op_amounts o = true ∧ (b = true → op_fits o))).
  - apply Forall_Forall2_diag, Forall_forall. intros o Ho. rewrite forallb_forall in Ha.
    split_and!; [done|by apply Ha, list_elem_of_In|]. intros E. specialize (Hb E). rewrite Forall_forall in Hb. auto.
  - intros o ? (<- & ? & ?). by apply agree_op.
Qed.

(** C18.  An application is served alike by the two SDKs: asked any sequence of
    operations whose session limits are u64s (the kit SDK refuses others, which the
    web3.js SDK wraps), on the same node, with the same answers of its
    authenticator and libraries that derive the same addresses, the web3.js client returns for each the instructions (data,
    accounts and privileges), addresses and deferred payload the kit client returns,
    or throws the same error, and both leave the same fee caches for the next.
    The one other outcome is a [RangeError] of the web3.js client, and there is
    none when the numbers of the requests fit their fields (policy length, session
    expiry, expiry offset, fees) and so do the slot, as a u64, and the next
    counter, as a u32, that the challenge reads of its passkeys give. *)
Theorem web3_client_agrees (ops : list op) :
  forallb op_amounts ops = true →
  agree false (Forall2 same_answer) (mapM kit_run ops) (mapM web3_run ops)
  ∧ (Forall op_fits ops → agree true (Forall2 same_answer) (mapM kit_run ops) (mapM web3_run ops)).
Proof. intros Ha. split; [by apply agree_ops|]. intros Hf. by apply agree_ops. Qed.
End same.

(** ** Examples *)
Import ConcreteKit.

Module Web3Run.
Definition served (a : addr) : option (@AccountInfo kit) :=
  match findProtocolConfigPda (K := kit) Sample.program with
  | Ok (pda, _) => if decide (a = pda) then Some (mkInfo (K := kit) Sample.program 1 Sample.config_account) else None
  | Throw _ => None
  end.

(** The node of [Sample], through web3.js. *)
Definition node : @Web3Env kit := mkWeb3Env (K := kit)
  (λ _ a, Ok (served a)) (λ _, Sample.unread) (λ _ _ _, Sample.unread) (λ _ _ _ _, Sample.unread)
  (λ _ _ _ _, Sample.unread) (λ _ n, replicate n (u8 6)) (λ _, 0)
  (λ _, [Answered 0 (Ok (AAccount (Some (mkInfo (K := kit) Sample.program 1 Sample.authority_account))))])
  (λ _, false) (λ _, 0%nat) (Some W3Processed) "http://localhost:8899".

Definition admin : @LegacyClient.AdminSigner kit := LegacyClient.AdminEd25519 (K := kit) (at_byte 7) None.
Definition passkey : @LegacyClient.Secp256r1SignerConfig kit :=
  LegacyClient.mkSignerConfig (K := kit) (Client.sc_signer Sample.passkey) None (Some 1000) None None.

(** A wallet, a spender, a session, a payment; and a payment by passkey. *)
Definition ops : list (@op kit) :=
  [OpCreateWallet Sample.payer (replicate 32 (u8 8)) (OwnerEd25519 (at_byte 7));
   OpCreateSession Sample.payer Sample.wallet admin (at_byte 30) 900 (Some [SolMaxPerTxAction 5 None]) None;
   OpExecute Sample.payer Sample.wallet (LegacyClient.ExecAdmin admin) [Sample.inner] None].
Definition signed_op : @op kit :=
  OpExecute Sample.payer Sample.wallet (LegacyClient.ExecAdmin (LegacyClient.AdminSecp256r1 passkey)) [Sample.inner] None.

Abbreviation run ops := (mapM (web3_run node Sample.program true) ops (web3_of new_client)).
End Web3Run.

Lemma web3_client_agrees_witness :
  agree (K := kit) true (Forall2 (λ x y, y = answer_web3 x))
    (mapM (kit_run Web3Run.node Sample.program true) (Web3Run.ops ++ [Web3Run.signed_op]))
    (mapM (web3_run Web3Run.node Sample.program true) (Web3Run.ops ++ [Web3Run.signed_op]))
  ∧ Web3Lookup.returns (Web3Run.run Web3Run.ops) (λ l, bool_decide (length <$> (an_instructions _ _ <$> l) = [2; 1; 1]%nat))
    = true
  ∧ Web3Lookup.returns (Web3Run.run [Web3Run.signed_op]) (λ l, bool_decide (length <$> (an_instructions _ _ <$> l) = [2]%nat))
    = true.
Proof.
  split; [|split; vm_compute; reflexivity].
  refine (proj2 (web3_client_agrees (KL := kit_laws) Web3Run.node Sample.program true concrete_derivation
    (Web3Run.ops ++ [Web3Run.signed_op]) ltac:(vm_compute; reflexivity)) _).
  repeat (apply List.Forall_cons; [first [exact I|split; [exact I|reflexivity]|idtac]|]); [|apply List.Forall_nil].
  intros c. vm_compute. reflexivity.
Defined.
