(* ===== verification/LegacyMigration.v ===== *)
(** * The web3.js SDK: migrating a v1 wallet

    Models [migrateV1Wallet] and [findV1WalletsByOwner] of the [LazorKitClient]
    class of src/sdk/sdk-legacy/src/utils/client.ts.
    [LegacyMigrationParity] compares them with [Migration]. *)
From S2P Require Import Prelude Bytes Kit Constants JsMap Pdas Builders Signing Accounts ChallengeReads Ownership V1 ClientHelpers Client.
From S2P Require Import WalletLookup Migration.
From S2P Require Import LegacyWeb3 LegacyBuilders LegacyCompact LegacyActions LegacyReads LegacyCalls LegacyOwnership LegacyV1 LegacyLookup LegacyHelpers LegacyVetting LegacyClient.
Local Open Scope Z_scope.

Section migration.
Context `{K : Kit} {W : Web3Pda} {W' : Web3Keys}.
Variable env : Web3Env.
Variable programId : address.
Variable protocolFees : bool.

Definition lookupV1WalletsByOwner (ownerIdSeed : bytes) (authorityType : option AuthorityTypeName)
    (v1ProgramId : option address) : L (list V1WalletRecord) :=
  n ← ask3;
  lift3 (LegacyV1.findV1WalletsByOwner (λ program filters, snd <$> l_getProgramAccounts env n program filters None)
           ownerIdSeed (default (LegacyWeb3.legacyProgramIdFor programId) v1ProgramId)
           (default Secp256r1 authorityType)).

Record MigrateParams := mkMigrateParams {
  mp_payer : address;
  mp_owner : CreateWalletOwner;
  mp_userSeed : option bytes;
  mp_v1Wallet : option address;
  mp_destinationUserSeed : option bytes;
  mp_v1ProgramId : option address;
  mp_excludeTokenAccounts : option (list address);
  mp_refundDestination : option address;
  mp_minContextSlot : option Z;
  mp_commitment : option Web3Commitment;
  mp_watchMints : option (list KeyInput);
}.

Definition retired : list address :=
  List.filter (λ id, negb (bool_decide (id = LegacyWeb3.PROGRAM_ID_MAINNET))
                     && negb (bool_decide (id = LegacyWeb3.PROGRAM_ID_DEVNET)))
    [LegacyWeb3.PROGRAM_ID_MAINNET_V1; LegacyWeb3.PROGRAM_ID_DEVNET_V1].

(** [v1]: where the old wallet is. *)
Definition v1_accounts (p : MigrateParams) (credentialOrPubkey : bytes) (v1ProgramId : address) :
    result V1Accounts :=
  match mp_v1Wallet p, mp_userSeed p with
  | Some wallet, _ =>
    '(vault, _) ← LegacyV1.findV1VaultPda wallet v1ProgramId;
    '(authority, _) ← LegacyV1.findV1AuthorityPda wallet credentialOrPubkey v1ProgramId;
    Ok (mkV1 wallet vault authority)
  | None, Some userSeed => LegacyV1.deriveV1Accounts userSeed credentialOrPubkey v1ProgramId
  | None, None => Throw ENeedSeedOrWallet
  end.

(** ** The destination: [v2Wallet], [destinationUserSeed] and [vettedAt] *)

(** The passkey's own signed wallet, with the slot of its vet. *)
Definition signed_wallet (p : MigrateParams) (mints : list address) : L (option (address * Z)) :=
  signed ← LegacyVetting.signedPasskeyAuthorities env programId (mp_owner p);
  match signed with
  | [s] =>
    if bool_decide (sa_role s = Some ROLE_OWNER) then
      vet ← inspectMigrationDestination env programId (sa_walletPda s) (mp_owner p) mints;
      mret (match vt_problem vet with
            | None => if 0 <? vt_signatureCount vet then Some (sa_walletPda s, vt_slot vet) else None
            | Some _ => None
            end)
    else mret None
  | _ => mret None
  end.

Definition pick_destination (p : MigrateParams) (fields : OwnerFields) (mints : list address) :
    L (address * option bytes * option Z) :=
  match mp_userSeed p with
  | Some seed => '(wallet, _) ← LegacyVetting.findWallet programId seed; mret (wallet, None, None)
  | None =>
    found ← (if authType fields =? AUTH_TYPE_SECP256R1 then signed_wallet p mints else mret None);
    match found with
    | Some (wallet, slot) => mret (wallet, None, Some slot)
    | None =>
      seed ← (match mp_destinationUserSeed p with
              | Some seed => mret seed
              | None => n ← ask3; mret (l_randomBytes env n 32)
              end);
      '(wallet, _) ← LegacyVetting.findWallet programId seed;
      mret (wallet, Some seed, None)
    end
  end.

(** [createV2Wallet] and [vettedAt]. *)
Definition vet_destination (p : MigrateParams) (mints : list address) (v2Wallet : address) (vettedAt : option Z) :
    L (bool * option Z) :=
  match vettedAt with
  | Some slot => mret (false, Some slot)
  | None =>
    info ← getAccountInfo3 env v2Wallet;
    if isPlainSystemAccount info then mret (true, None)
    else
      vet ← inspectMigrationDestination env programId v2Wallet (mp_owner p) mints;
      match vt_problem vet with
      | Some _ => lift3 (Throw (ERefusedDestination
                     (match mp_userSeed p with Some _ => "userSeed" | None => "destinationUserSeed" end)))
      | None => mret (false, Some (vt_slot vet))
      end
  end.

(** ** The tokens *)
Definition destOf (v2Vault : address) (t : V1VaultToken) : result address :=
  LegacyWeb3.getAssociatedTokenAddress (t_mint t) v2Vault (t_tokenProgram t).

(** [destState] ('frozen' is [true]) and [destInfo], keyed by the source account's text. *)
Record DestMaps := mkDestMaps {
  dm_state : list (string * bool);
  dm_info : list (string * AccountInfo);
}.

(** [infos.forEach((info, j) => ...)] over one page. *)
Fixpoint note_dests (page : list V1VaultToken) (infos : list (option AccountInfo)) (st : DestMaps) : DestMaps :=
  match page, infos with
  | t :: page, info :: infos =>
    let key := toBase58 (t_ata t) in
    note_dests page infos
      (match info with
       | Some i => if isPlainSystemAccount info then st
                   else mkDestMaps (map_set key (LegacyV1.tokenAccountFrozen (ai_data i)) (dm_state st))
                          (map_set key i (dm_info st))
       | None => st
       end)
  | _, _ => st
  end.

(** [for (let i = 0; i < toCheck.length; i += 100)]. *)
Fixpoint check_dests (fuel : nat) (v2Vault : address) (vettedAt : option Z) (toCheck : list V1VaultToken)
    (st : DestMaps) : L DestMaps :=
  match fuel, toCheck with
  | S fuel, _ :: _ =>
    let page := take 100 toCheck in
    keys ← lift3 (mapR (destOf v2Vault) page);
    '(_, infos) ← LegacyLookup.readAccounts env keys vettedAt;
    check_dests fuel v2Vault vettedAt (drop 100 toCheck) (note_dests page infos st)
  | _, _ => mret st
  end.

Definition state_is (frozen : bool) (st : DestMaps) (t : V1VaultToken) : bool :=
  bool_decide (map_get (toBase58 (t_ata t)) (dm_state st) = Some frozen).

Definition arriving (s : V1VaultToken * UnmovableReason) : bool := bool_decide (s.2 = RFrozenOnArrival).

(** The two loops that push to [tokens] and [skippedTokens]. *)
Abbreviation Sorted := (list V1VaultToken * list (V1VaultToken * UnmovableReason))%type.
Definition push_movable (st : DestMaps) (acc : Sorted) (t : V1VaultToken) : Sorted :=
  if state_is true st t then (acc.1, acc.2 ++ [(t, RDestinationFrozen)]) else (acc.1 ++ [t], acc.2).
Definition push_arriving (st : DestMaps) (acc : Sorted) (s : V1VaultToken * UnmovableReason) : Sorted :=
  if state_is false st s.1 then (acc.1 ++ [s.1], acc.2) else (acc.1, acc.2 ++ [s]).

Definition sort_tokens (st : DestMaps) (movable : list V1VaultToken)
    (skipped : list (V1VaultToken * UnmovableReason)) : Sorted :=
  fold_left (push_arriving st) (List.filter arriving skipped)
    (fold_left (push_movable st) movable ([], List.filter (λ s, negb (arriving s)) skipped)).

(** One turn of the [flatMap]; the texts are their token. *)
Definition rigged_token (st : DestMaps) (v2Vault : address) (t : V1VaultToken) : result (list V1VaultToken) :=
  match map_get (toBase58 (t_ata t)) (dm_info st) with
  | Some dest =>
    d ← destOf v2Vault t;
    problem ← tokenAccountProblem d dest v2Vault (t_tokenProgram t);
    Ok (match problem with Some _ => [t] | None => [] end)
  | None => Ok []
  end.

(** [withheldByMint], keyed by the mint's text. *)
Definition withheld_texts (tokens : list V1VaultToken) : list (string * list address) :=
  fold_left (λ m t, if t_withheldFees t
                    then let key := toBase58 (t_mint t) in
                         map_set key (default [] (map_get key m) ++ [t_ata t]) m
                    else m) tokens [].

Definition harvest_of (entry : string * list address) : result TransactionInstruction :=
  mint ← of_option (EExternal "PublicKey") (parse_address entry.1);
  Ok (LegacyV1.harvestWithheldIx mint entry.2).

(** One turn of [tokens.map], which also pushes the account's creation. *)
Definition token_pair (v2Vault : address) (t : V1VaultToken) : result MigrateTokenPair :=
  destAta ← LegacyWeb3.getAssociatedTokenAddress (t_mint t) v2Vault (t_tokenProgram t);
  Ok (mkPair (t_ata t) destAta (t_mint t) (t_tokenProgram t)).

(** ** The whole call *)
Inductive MigrateStep :=
  | MigrateEd25519 (instruction : TransactionInstruction) (instructions : list TransactionInstruction)
  | MigrateSecp256r1 (prepared : PreparedSecp256r1)
      (finalize : WebAuthnResponse → result (list TransactionInstruction)).

Record MigrationPlan := mkPlan {
  mg_v1 : V1Accounts;
  mg_destinationWallet : address;
  mg_destinationUserSeed : option bytes;
  mg_v2Vault : address;
  mg_tokens : list V1VaultToken;
  mg_skippedTokens : list (V1VaultToken * UnmovableReason);
  mg_setupInstructions : list TransactionInstruction;
  mg_migrate : MigrateStep;
}.

Definition migration_payload (v2Vault v1Wallet refundDestination : address) (tokens : list V1VaultToken)
    (pairs : list MigrateTokenPair) : bytes :=
  LegacyWeb3.concatBytes ([address_encode v2Vault; address_encode v1Wallet; [u8 (Z.of_nat (length tokens))];
                           address_encode refundDestination] ++ ((λ t, address_encode (sourceAta t)) <$> pairs)).

(** The branch on [authType]. *)
Definition migration_step (p : MigrateParams) (v1 : V1Accounts) (v1ProgramId v2Vault : address)
    (tokens : list V1VaultToken) (pairs : list MigrateTokenPair) (harvests : list TransactionInstruction) :
    L MigrateStep :=
  let refundDestination := default (mp_payer p) (mp_refundDestination p) in
  let signedPayload := migration_payload v2Vault (v1_wallet v1) refundDestination tokens pairs in
  let build authSigner isSigner authPayload :=
    LegacyBuilders.createMigrateWalletIx (mp_payer p) (v1_wallet v1) (v1_authority v1) (v1_vault v1) v2Vault
      refundDestination authSigner isSigner pairs authPayload v1ProgramId in
  match mp_owner p with
  | OwnerEd25519 publicKey =>
    let instruction := build publicKey true None in
    mret (MigrateEd25519 instruction (harvests ++ [instruction]))
  | OwnerSecp256r1 _ compressedPubkey _ =>
    '(_, slot, counter) ← LegacyClient.readChallengeInputs env
      (LegacyReads.mkOptions (mp_commitment p) (mp_minContextSlot p)) (mkHave (Some compressedPubkey) None);
    prepared ← lift3 (LegacyBuilders.prepareSecp256r1 [u8 DISC_MIGRATE_WALLET] signedPayload 7 slot counter
                        (mp_payer p) (v1_wallet v1) v1ProgramId compressedPubkey);
    mret (MigrateSecp256r1 prepared (λ response,
      '(authPayload, precompileIx) ← LegacyBuilders.finalizeSecp256r1 prepared response;
      Ok (harvests ++ [precompileIx; build (mp_payer p) false (Some authPayload)])))
  end.

(** Once the destination is settled: the tokens, the checks and the plan. *)
Definition plan_migration (p : MigrateParams) (v1 : V1Accounts) (v1ProgramId v2Wallet : address)
    (destinationUserSeed : option bytes) (createV2Wallet : bool) (vettedAt : option Z) : L MigrationPlan :=
  '(v2Vault, _) ← LegacyVetting.findVault programId v2Wallet;
  n ← ask3;
  held ← lift3 (LegacyV1.enumerateV1VaultTokens
    (λ vault tokenProgram, snd <$> l_getTokenAccountsByOwner env n vault tokenProgram None) (v1_vault v1));
  n ← ask3;
  '(movable, skipped) ← lift3 (LegacyV1.classifyV1VaultTokens
    (λ l, snd <$> l_getMultipleAccounts env n l None) held (default [] (mp_excludeTokenAccounts p)));
  let toCheck := movable ++ (fst <$> List.filter arriving skipped) in
  dests ← check_dests (length toCheck) v2Vault vettedAt toCheck (mkDestMaps [] []);
  let '(tokens, skippedTokens) := sort_tokens dests movable skipped in
  found ← lift3 (mapR (rigged_token dests v2Vault) tokens);
  let rigged := concat found in
  _ ← lift3 (throw_if (0 <? length rigged)%nat (ERiggedDestination (length rigged)));
  _ ← lift3 (throw_if (255 <? length tokens)%nat (ETooManyTokens (length tokens)));
  creation ← (if createV2Wallet
              then
                seed ← lift3 (of_option (EExternal "undefined")
                         (match mp_userSeed p with Some s => Some s | None => destinationUserSeed end));
                created ← LegacyClient.createWallet env programId protocolFees (mp_payer p) seed (mp_owner p);
                mret (LegacyClient.cw_instructions created)
              else mret []);
  pairs ← lift3 (mapR (token_pair v2Vault) tokens);
  let setup := creation ++ ((λ pr, LegacyWeb3.createAssociatedTokenAccountIdempotentIx (mp_payer p) (destAta pr)
                                     v2Vault (pairMint pr) (pairTokenProgram pr)) <$> pairs) in
  harvests ← lift3 (mapR harvest_of (withheld_texts tokens));
  step ← migration_step p v1 v1ProgramId v2Vault tokens pairs harvests;
  mret (mkPlan v1 v2Wallet destinationUserSeed v2Vault tokens skippedTokens setup step).

Definition migrateV1Wallet (p : MigrateParams) : L MigrationPlan :=
  fields ← lift3 (LegacyHelpers.resolveOwnerFields (mp_owner p));
  let v1ProgramId := default (LegacyWeb3.legacyProgramIdFor programId) (mp_v1ProgramId p) in
  _ ← lift3 (throw_if (bool_decide (programId ∈ retired)) ERetiredClient);
  v1 ← lift3 (v1_accounts p (credentialOrPubkey fields) v1ProgramId);
  n ← ask3;
  state ← lift3 (LegacyV1.readV1WalletState (λ l, snd <$> l_getMultipleAccounts env n l None) v1);
  st ← lift3 (of_option ENoV1Wallet state);
  _ ← lift3 (throw_if (negb (bool_decide (ownerRole st = Some ROLE_OWNER))) ENotOwnerRank);
  _ ← (if authType fields =? AUTH_TYPE_SECP256R1
       then LegacyVetting.assertV1PasskeyOwner env (v1_authority v1) (mp_owner p) else mret ());
  mints ← lift3 (LegacyLookup.watchedMints (default [] (mp_watchMints p)));
  '(v2Wallet, destinationUserSeed, vetted) ← pick_destination p fields mints;
  '(createV2Wallet, vettedAt) ← vet_destination p mints v2Wallet vetted;
  plan_migration p v1 v1ProgramId v2Wallet destinationUserSeed createV2Wallet vettedAt.
End migration.
