(* ===== verification/LegacyMigrationParity.v ===== *)
(** * The two SDKs migrate a wallet the same way

    [migrateV1Wallet] of the web3.js SDK against the kit SDK's: the same
    destination, the same tokens, the same instructions and challenge. *)
From S2P Require Import Prelude Bytes Kit Constants JsMap Pdas Builders Signing Accounts ChallengeReads Ownership V1 ClientHelpers Client.
From S2P Require Import WalletLookup Migration MigrationProps.
From S2P Require Import LegacyWeb3 LegacyBuilders LegacyParity LegacyCompact LegacyActions LegacyReads LegacyCalls LegacyOwnership LegacyV1 LegacyLookup LegacyHelpers LegacyVetting LegacyLookupParity LegacyClient LegacyClientParity LegacyMigration.
Local Open Scope Z_scope.

Section parity.
Context `{KL : KitLaws} {W : Web3Pda} {W' : Web3Keys} {WL : Web3KeysLaws W'}.
Hypothesis same_derivation : ∀ seeds programId,
  findProgramAddressSync seeds programId = getProgramDerivedAddress programId seeds.
Variable env : Web3Env.
Variable programId : address.
Variable protocolFees : bool.
Abbreviation kenv := (kit_env env).

Definition kit_migrate (p : LegacyMigration.MigrateParams) : Migration.MigrateParams :=
  Migration.mkMigrateParams (mp_payer p) (mp_owner p) (mp_userSeed p) (mp_v1Wallet p) (mp_destinationUserSeed p)
    (mp_v1ProgramId p) (mp_excludeTokenAccounts p) (mp_refundDestination p) (mp_minContextSlot p)
    (kit_level env (mp_commitment p)) (key_texts (mp_watchMints p)).

(** ** The node's answers to v1.ts *)
Lemma state_ext g h accounts : (∀ l, g l = h l) → V1.readV1WalletState g accounts = V1.readV1WalletState h accounts.
Proof. intros H. unfold V1.readV1WalletState. by rewrite H. Qed.

Lemma enumerate_ext g h vault : (∀ v p, g v p = h v p) →
  V1.enumerateV1VaultTokens g vault = V1.enumerateV1VaultTokens h vault.
Proof. intros H. unfold V1.enumerateV1VaultTokens. cbn [mapR]. by rewrite !H. Qed.

Lemma read_mints_ext g h fuel mints m : (∀ l, g l = h l) → V1.read_mints g fuel mints m = V1.read_mints h fuel mints m.
Proof.
  intros H. revert mints m. induction fuel as [|fuel IH]; intros [|a l] m; try done. cbn [V1.read_mints].
  rewrite H. destruct (h _) as [v|]; [|done]. rewrite !bind_ok. destruct (V1.set_mints _ v m); [|done].
  rewrite !bind_ok. apply IH.
Qed.

Lemma classify_ext g h tokens exclude : (∀ l, g l = h l) →
  V1.classifyV1VaultTokens g tokens exclude = V1.classifyV1VaultTokens h tokens exclude.
Proof. intros H. unfold V1.classifyV1VaultTokens. by rewrite (read_mints_ext g h _ _ _ H). Qed.

Lemma find_v1_ext g h seed program ty : (∀ p f, g p f = h p f) →
  V1.findV1WalletsByOwner g seed program ty = V1.findV1WalletsByOwner h seed program ty.
Proof. intros H. unfold V1.findV1WalletsByOwner. by rewrite H. Qed.

Lemma coded_snd {A B X} (f : A → B) (g : X * A → X * B) (r : result (X * A)) :
  (∀ x, g x = (x.1, f x.2)) → snd <$> coded g r = coded f (snd <$> r).
Proof. intros H. destruct r as [x|]; [|done]. cbn. by rewrite H. Qed.

Lemma same_state n v1 :
  same_result eq (V1.readV1WalletState (λ l, snd <$> env_getMultipleAccounts kenv n l None) v1)
    (LegacyV1.readV1WalletState (λ l, snd <$> l_getMultipleAccounts env n l None) v1).
Proof.
  rewrite (state_ext _ (λ l, coded (λ v, (kit_info <$> v : list _)) (snd <$> l_getMultipleAccounts env n l None))).
  - apply state_agrees.
  - intros l. by apply coded_snd.
Qed.

Lemma same_classified n tokens exclude :
  same_result eq (V1.classifyV1VaultTokens (λ l, snd <$> env_getMultipleAccounts kenv n l None) tokens exclude)
    (LegacyV1.classifyV1VaultTokens (λ l, snd <$> l_getMultipleAccounts env n l None) tokens exclude).
Proof.
  rewrite (classify_ext _ (λ l, coded (λ v, (kit_info <$> v : list _)) (snd <$> l_getMultipleAccounts env n l None))).
  - apply classify_agrees.
  - intros l. by apply coded_snd.
Qed.

(** What the RPC documents of [getTokenAccountsByOwner]: whole token accounts,
    and no account under two programs or twice. *)
Definition honours_tokens : Prop := ∀ n vault,
  (∀ p m slot rows, l_getTokenAccountsByOwner env n vault p m = Ok (slot, rows) → token_rows_ok rows)
  ∧ ∀ s1 rows1 s2 rows2,
      l_getTokenAccountsByOwner env n vault TOKEN_PROGRAM_ADDRESS None = Ok (s1, rows1) →
      l_getTokenAccountsByOwner env n vault TOKEN_2022_PROGRAM_ADDRESS None = Ok (s2, rows2) →
      NoDup (rows1.*1 ++ rows2.*1).

Lemma held_atas p rows held : mapR (held_token p) rows = Ok held → t_ata <$> held = rows.*1.
Proof.
  revert held. induction rows as [|r l IH]; intros held; cbn [mapR]; [by intros [= <-]|].
  intros (t & Ht & (ts & Hts & [= <-])%bind_inv)%bind_inv. rewrite !fmap_cons, (IH _ Hts). f_equal.
  unfold held_token in Ht. apply bind_inv in Ht as (m & _ & (a & _ & [= <-])%bind_inv). done.
Qed.

Lemma held_distinct n vault held : honours_tokens →
  LegacyV1.enumerateV1VaultTokens (λ v p, snd <$> l_getTokenAccountsByOwner env n v p None) vault = Ok held →
  NoDup (t_ata <$> held).
Proof.
  intros H He. unfold LegacyV1.enumerateV1VaultTokens in He. cbn [mapR] in He.
  destruct (l_getTokenAccountsByOwner env n vault TOKEN_PROGRAM_ADDRESS None) as [[s1 rows1]|] eqn:E1; [|done].
  destruct (l_getTokenAccountsByOwner env n vault TOKEN_2022_PROGRAM_ADDRESS None) as [[s2 rows2]|] eqn:E2.
  2:{ cbn in He. by destruct (mapR (held_token _) rows1). }
  change (snd <$> Ok (s1, rows1)) with (Ok (E := error) rows1) in He.
  change (snd <$> Ok (s2, rows2)) with (Ok (E := error) rows2) in He. rewrite !bind_ok in He.
  destruct (mapR (held_token TOKEN_PROGRAM_ADDRESS) rows1) as [h1|] eqn:H1; [|done].
  rewrite bind_ok in He. destruct (mapR (held_token TOKEN_2022_PROGRAM_ADDRESS) rows2) as [h2|] eqn:H2; [|done].
  injection He as <-. rewrite app_nil_r, fmap_app, (held_atas _ _ _ H1), (held_atas _ _ _ H2).
  by eapply (H n vault).
Qed.

Lemma same_held n vault : honours_tokens →
  same_result (λ x y, x = y ∧ NoDup (t_ata <$> y))
    (V1.enumerateV1VaultTokens (λ v p, snd <$> env_getTokenAccountsByOwner kenv n v p None) vault)
    (LegacyV1.enumerateV1VaultTokens (λ v p, snd <$> l_getTokenAccountsByOwner env n v p None) vault).
Proof.
  intros H. pose proof (held_distinct n vault) as Hd.
  rewrite (enumerate_ext _ (λ v p, coded (λ l, (kit_entry <$> l : list _)) (snd <$> l_getTokenAccountsByOwner env n v p None)))
    by (intros; by apply coded_snd).
  destruct (enumerate_agrees (λ v p, snd <$> l_getTokenAccountsByOwner env n v p None) vault) as [x y <-|e' e He];
    [|constructor; split; [done|by apply Hd]|by constructor].
  intros v p rows Hr. destruct (l_getTokenAccountsByOwner env n v p None) as [[s r]|] eqn:E; [|done].
  injection Hr as <-. by eapply (H n v).
Qed.

(** ** The destination *)
Definition seed_of (p : LegacyMigration.MigrateParams) (minted : option bytes) : option bytes :=
  match mp_userSeed p with Some s => Some s | None => minted end.

Definition same_destination (p : LegacyMigration.MigrateParams) (d : Destination) (x : address * option bytes * option Z) :
    Prop :=
  let '(wallet, minted, vettedAt) := x in
  ds_wallet d = wallet ∧ ds_vettedAt d = vettedAt
  ∧ match mp_userSeed p with Some _ => None | None => ds_seed d end = minted
  ∧ (vettedAt = None → ds_seed d = seed_of p minted ∧ is_Some (ds_seed d)).

Lemma agree_wallet b seed : agree b eq (Client.findWallet programId seed) (LegacyVetting.findWallet programId seed).
Proof. apply agree_lift. by apply derive_agrees. Qed.

Lemma agree_reusable p fields mints :
  agree true eq (reusable_wallet kenv programId (kit_migrate p) fields mints)
    (if authType fields =? AUTH_TYPE_SECP256R1 then signed_wallet env programId p mints else mret None).
Proof.
  unfold reusable_wallet, signed_wallet. apply agree_if; [done| |by apply agree_ret].
  eapply agree_bind; [by apply agree_signed|]. intros signed ? <-.
  destruct signed as [|s [|]]; try by apply agree_ret. apply agree_if; [done| |by apply agree_ret].
  eapply agree_bind; [by apply agree_inspect|]. intros vet ? <-. by apply agree_ret.
Qed.

Lemma agree_choose p fields mints :
  agree true (same_destination p) (choose_destination kenv programId (kit_migrate p) fields mints)
    (pick_destination env programId p fields mints).
Proof.
  unfold choose_destination, pick_destination. cbn [kit_migrate Migration.mp_userSeed Migration.mp_destinationUserSeed].
  destruct (mp_userSeed p) as [seed|] eqn:Hu.
  - eapply agree_bind; [apply agree_wallet|]. intros [w b] ? <-. apply agree_ret. unfold same_destination, seed_of.
    rewrite Hu. cbn. by eauto.
  - eapply agree_bind; [apply agree_reusable|]. intros [[w slot]|] ? <-.
    { apply agree_ret. unfold same_destination, seed_of. rewrite Hu. by cbn. }
    eapply (agree_bind _ eq).
    { destruct (mp_destinationUserSeed p); [by apply agree_ret|]. eapply agree_bind; [apply agree_ask|].
      intros n ? <-. by apply agree_ret. }
    intros seed ? <-. eapply agree_bind; [apply agree_wallet|]. intros [w b] ? <-. apply agree_ret.
    unfold same_destination, seed_of. rewrite Hu. cbn. by eauto.
Qed.

Lemma agree_settle p mints d wallet minted vetted : same_destination p d (wallet, minted, vetted) →
  agree true (λ x y, x = (if y.1 : bool then seed_of p minted else None, y.2) ∧ (y.1 = true → is_Some (seed_of p minted)))
    (settle_destination kenv programId (kit_migrate p) mints d) (vet_destination env programId p mints wallet vetted).
Proof.
  intros (<- & Hv & _ & Hs). unfold settle_destination, vet_destination. rewrite Hv.
  destruct vetted as [slot|]; [by apply agree_ret|]. destruct (Hs eq_refl) as [Hseed Hsome].
  eapply agree_bind; [apply agree_getAccountInfo|]. intros ? info ->. rewrite read_of_view. apply agree_ok_l.
  rewrite owner_data_view, system_agrees. apply agree_if; [done|..].
  - apply agree_ret. cbn [fst snd]. rewrite <- Hseed. done.
  - eapply agree_bind; [by apply agree_inspect|]. intros vet ? <-. destruct (vt_problem vet); [|by apply agree_ret].
    apply agree_lift. constructor. by left.
Qed.

(** ** The tokens *)
Abbreviation dest_map := (list (address * DestState)).

Lemma same_dest v2Vault t : same_result eq (destination_of v2Vault t) (destOf v2Vault t).
Proof. by apply ata_agrees. Qed.

Lemma problem_total dest i tp vault : ∃ problem, tokenAccountProblem dest i vault tp = Ok problem.
Proof.
  rewrite <- problem_agrees. unfold destinationTokenAccountProblem. case_bool_decide; [|by eexists]. cbn [negb].
  destruct (Nat.ltb_spec (length (ai_data i)) ClientHelpers.TOKEN_ACCOUNT_LEN) as [|Hl]; [by eexists|].
  unfold ClientHelpers.TOKEN_ACCOUNT_LEN in Hl.
  destruct (key_agrees "decode" (slice 32 64 (ai_data i))) as (o & Ho & _ & _); [rewrite length_slice; lia|].
  unfold addressFromBytes. rewrite Ho, bind_ok. case_bool_decide; [|by eexists]. cbn [negb].
  destruct (grantsOn_spec [(dest, ai_data i)] tp vault []) as (gs & -> & _). rewrite bind_ok. by eexists.
Qed.

Lemma frozen_agrees data : LegacyV1.tokenAccountFrozen data = V1.tokenAccountFrozen data.
Proof. done. Qed.

(** What the two SDKs know of the destination accounts: the frozen ones are the
    same, and an account of a token to check is known to both or to neither. *)
Definition same_note (v2Vault : address) (m : dest_map) (st : DestMaps) (t : V1VaultToken) : Prop :=
  match map_get (t_ata t) m, map_get (toBase58 (t_ata t)) (dm_info st) with
  | None, None => True
  | Some d, Some i => ∃ dest, destOf v2Vault t = Ok dest
                      ∧ tokenAccountProblem dest i v2Vault (t_tokenProgram t) = Ok (dst_problem d)
  | _, _ => False
  end.

Definition same_notes (v2Vault : address) (all : list V1VaultToken) (m : dest_map) (st : DestMaps) : Prop :=
  dm_state st = relabel toBase58 dst_frozen m ∧ Forall (same_note v2Vault m st) all.

Lemma note_one v2Vault all t dest i problem m st :
  NoDup (t_ata <$> all) → t ∈ all → destOf v2Vault t = Ok dest →
  tokenAccountProblem dest i v2Vault (t_tokenProgram t) = Ok problem → same_notes v2Vault all m st →
  same_notes v2Vault all
    (map_set (t_ata t) (mkDestState dest (V1.tokenAccountFrozen (ai_data i)) problem) m)
    (mkDestMaps (map_set (toBase58 (t_ata t)) (LegacyV1.tokenAccountFrozen (ai_data i)) (dm_state st))
       (map_set (toBase58 (t_ata t)) i (dm_info st))).
Proof.
  intros Hn Ht Hd Hp [Hs Hall]. split.
  - cbn [dm_state]. rewrite Hs. by rewrite <- (map_set_relabel toBase58 dst_frozen text_inj).
  - rewrite Forall_forall in Hall |- *. intros t' Ht'. unfold same_note. cbn [dm_info].
    destruct (decide (t_ata t' = t_ata t)) as [He|He].
    + assert (t' = t) as ->.
      { apply list_elem_of_lookup_1 in Ht as [j Hj], Ht' as [j' Hj'].
        assert (j' = j) as ->; [|congruence]. eapply (NoDup_lookup _ _ _ (t_ata t) Hn).
        - rewrite list_lookup_fmap, Hj'. cbn. by rewrite He.
        - by rewrite list_lookup_fmap, Hj. }
      rewrite !map_get_set_eq. exists dest. done.
    + assert (toBase58 (t_ata t') ≠ toBase58 (t_ata t)) by (intros ?%text_inj; done).
      rewrite !map_get_set_ne by done. by apply Hall.
Qed.

Lemma note_page v2Vault all page dests infos m st :
  NoDup (t_ata <$> all) → (∀ t, t ∈ page → t ∈ all) → Forall2 (λ t d, destOf v2Vault t = Ok d) page dests →
  same_notes v2Vault all m st →
  ∃ m', set_dests v2Vault page dests (read_view <$> infos) m = Ok m'
    ∧ same_notes v2Vault all m' (note_dests page infos st).
Proof.
  intros Hn Hin Hd. revert infos m st. induction Hd as [|t d page dests Ht Hd IH]; intros infos m st Hs; [by exists m|].
  destruct infos as [|info infos]; [by exists m|]. rewrite fmap_cons. cbn [set_dests note_dests].
  rewrite owner_data_view. specialize (IH (λ t H, Hin t (list_elem_of_further _ _ _ H)) infos).
  destruct info as [i|]; [|by apply IH]. cbn [pair_of fmap option_fmap option_map].
  change (Some (ai_owner i, ai_data i)) with (pair_of (Some i)). rewrite system_agrees.
  destruct (isPlainSystemAccount (Some i)); [by apply IH|]. rewrite problem_agrees.
  destruct (problem_total d i (t_tokenProgram t) v2Vault) as [problem Hp]. rewrite Hp, bind_ok.
  apply IH. apply note_one; [done|set_solver|done..].
Qed.

Lemma same_dests v2Vault page :
  same_result (λ x y, x = y ∧ Forall2 (λ t d, destOf v2Vault t = Ok d) page y)
    (mapR (destination_of v2Vault) page) (mapR (destOf v2Vault) page).
Proof.
  induction page as [|t page IH]; [by constructor|]. cbn [mapR].
  eapply (same_bind (λ x y, x = y ∧ destOf v2Vault t = Ok y)).
  - pose proof (same_dest v2Vault t) as H. destruct (destOf v2Vault t) eqn:E; inversion H; subst; by constructor.
  - intros d ? [<- Hd]. eapply same_bind; [exact IH|]. intros ds ? [<- Hds]. constructor. split; [done|]. by constructor.
Qed.

Lemma agree_dests v2Vault vettedAt all fuel toCheck m st :
  NoDup (t_ata <$> all) → (∀ t, t ∈ toCheck → t ∈ all) → same_notes v2Vault all m st →
  agree true (same_notes v2Vault all) (read_dests kenv fuel v2Vault vettedAt toCheck m)
    (check_dests env fuel v2Vault vettedAt toCheck st).
Proof.
  intros Hn. revert toCheck m st. induction fuel as [|fuel IH]; intros [|t toCheck] m st Hin Hs; try by apply agree_ret.
  cbn [read_dests check_dests]. eapply agree_bind; [apply agree_lift, same_dests|]. intros dests ? [<- Hd].
  eapply agree_bind; [apply agree_readAccounts|]. intros ? [slot infos] ->. cbn [fst snd].
  assert (Hpage : ∀ x, x ∈ take 100 (t :: toCheck) → x ∈ all).
  { intros x Hx. apply Hin. rewrite <- (take_drop 100 (t :: toCheck)). apply elem_of_app. by left. }
  assert (Hrest : ∀ x, x ∈ drop 100 (t :: toCheck) → x ∈ all).
  { intros x Hx. apply Hin. rewrite <- (take_drop 100 (t :: toCheck)). apply elem_of_app. by right. }
  destruct (note_page v2Vault all (take 100 (t :: toCheck)) dests infos m st Hn Hpage Hd Hs) as (m' & -> & Hs').
  apply agree_ok_l. by apply IH.
Qed.

Lemma state_agrees_frozen v2Vault all m st t : same_notes v2Vault all m st →
  state_is true st t = dest_frozen m t ∧ state_is false st t = dest_thawed m t.
Proof.
  intros [Hs _]. unfold state_is, dest_frozen, dest_thawed. rewrite Hs, map_get_relabel by apply text_inj.
  destruct (map_get (t_ata t) m) as [[d f pr]|]; [|done]. cbn. by destruct f.
Qed.

Lemma push_movable_all v2Vault all m st (l : list V1VaultToken) a b : same_notes v2Vault all m st →
  fold_left (push_movable st) l (a, b)
  = (a ++ List.filter (λ t, negb (dest_frozen m t)) l, b ++ ((λ t, (t, RDestinationFrozen)) <$> List.filter (dest_frozen m) l)).
Proof.
  intros Hs. revert a b. induction l as [|t l IH]; intros a b; [by rewrite !app_nil_r|]. cbn [fold_left].
  unfold push_movable at 2. destruct (state_agrees_frozen _ _ _ _ t Hs) as [-> _]. cbn [fst snd List.filter].
  destruct (dest_frozen m t); cbn [negb]; rewrite IH, <- app_assoc; done.
Qed.

Lemma push_arriving_all v2Vault all m st (l : list (V1VaultToken * UnmovableReason)) a b : same_notes v2Vault all m st →
  fold_left (push_arriving st) l (a, b)
  = (a ++ (fst <$> List.filter (λ s, dest_thawed m s.1) l), b ++ List.filter (λ s, negb (dest_thawed m s.1)) l).
Proof.
  intros Hs. revert a b. induction l as [|t l IH]; intros a b; [by rewrite !app_nil_r|]. cbn [fold_left].
  unfold push_arriving at 2. destruct (state_agrees_frozen _ _ _ _ t.1 Hs) as [_ ->]. cbn [fst snd List.filter].
  destruct (dest_thawed m t.1); cbn [negb]; rewrite IH, <- app_assoc; done.
Qed.

Lemma sort_agrees_tokens v2Vault all m st movable skipped : same_notes v2Vault all m st →
  sort_tokens st movable skipped = settle_tokens m movable skipped.
Proof.
  intros Hs. unfold sort_tokens, settle_tokens. rewrite (push_movable_all _ _ _ _ _ _ _ Hs).
  rewrite (push_arriving_all _ _ _ _ _ _ _ Hs). cbn [app]. by rewrite <- !app_assoc.
Qed.

Lemma rigged_agrees v2Vault all m st tokens : same_notes v2Vault all m st → (∀ t, t ∈ tokens → t ∈ all) →
  ∃ found, mapR (rigged_token st v2Vault) tokens = Ok found ∧ concat found = rigged m tokens.
Proof.
  intros [_ Hall] Hin. rewrite Forall_forall in Hall. induction tokens as [|t l IH]; [by exists []|].
  destruct IH as (found & Hf & Hc); [set_solver|]. specialize (Hall t (Hin t (list_elem_of_here _ _))).
  assert (Ht : rigged_token st v2Vault t = Ok (rigged m [t])).
  { unfold same_note in Hall. unfold rigged_token, rigged. cbn [List.filter].
    destruct (map_get (t_ata t) m) as [d|], (map_get (toBase58 (t_ata t)) (dm_info st)) as [i|]; try done.
    destruct Hall as (dest & -> & Hp). rewrite bind_ok, Hp, bind_ok. by destruct (dst_problem d). }
  exists (rigged m [t] :: found). cbn [mapR]. rewrite Ht, Hf, !bind_ok. split; [done|]. cbn [concat]. rewrite Hc.
  unfold rigged. cbn [List.filter]. by destruct (match map_get (t_ata t) m with Some _ => _ | None => _ end).
Qed.

(** ** The instructions *)
Lemma harvests_agree tokens :
  mapR harvest_of (withheld_texts tokens)
  = Ok (web3_ix <$> ((λ ms, Builders.harvestWithheldIx ms.1 ms.2) <$> withheld_by_mint tokens) : list _).
Proof.
  assert (withheld_texts tokens = relabel toBase58 id (withheld_by_mint tokens)) as ->.
  { unfold withheld_texts, withheld_by_mint. change (@nil (string * list address)) with (relabel toBase58 (@id (list address)) []).
    generalize (@nil (address * list address)). induction tokens as [|t l IH]; intros m; [done|]. cbn [fold_left].
    rewrite <- IH. f_equal. destruct (t_withheldFees t); [|done]. cbv zeta.
    rewrite map_get_relabel by apply text_inj. rewrite <- (map_set_relabel toBase58 id text_inj).
    by destruct (map_get (t_mint t) m). }
  induction (withheld_by_mint tokens) as [|[mint sources] l IH]; [done|]. unfold relabel in *. rewrite !fmap_cons.
  cbn [mapR fst snd]. rewrite IH. unfold harvest_of. cbn [fst snd]. change (toBase58 mint) with (address_string mint).
  rewrite parse_own_string. cbn [of_option]. by rewrite !bind_ok, harvest_agrees.
Qed.

Lemma same_pairs v2Vault tokens :
  same_result (λ x y, x = y ∧ length y = length tokens)
    (mapR (migrate_pair v2Vault) tokens) (mapR (token_pair v2Vault) tokens).
Proof.
  induction tokens as [|t l IH]; [by constructor|]. cbn [mapR].
  eapply (same_bind eq).
  - eapply same_bind; [apply same_dest|]. intros d ? <-. apply same_refl.
  - intros pr ? <-. eapply same_bind; [exact IH|]. intros prs ? [<- Hl]. constructor. split; [done|]. cbn. lia.
Qed.

Definition same_step (x : Migration.MigrateStep) (y : LegacyMigration.MigrateStep) : Prop :=
  match x, y with
  | Migration.MigrateEd25519 ix ixs, MigrateEd25519 ix' ixs' => ix' = web3_ix ix ∧ same_ixs ixs ixs'
  | Migration.MigrateSecp256r1 prepared finalize, MigrateSecp256r1 prepared' finalize' =>
      prepared' = prepared ∧ ∀ response, same_result same_ixs (finalize response) (finalize' response)
  | _, _ => False
  end.

(** [m] and [l] agree, but for this: where [m] returns a value with [P], [l] throws a
    [RangeError], and nowhere else. *)
Definition agree_unless {A B} (P : A → bool) (R : A → B → Prop) (m : M A) (l : L B) : Prop := ∀ c,
  (l (web3_of c)).1 = web3_of (m c).1
  ∧ ((∃ a, (m c).2 = Ok a ∧ P a = true ∧ (l (web3_of c)).2 = Throw ERangeError)
     ∨ ((∀ a, (m c).2 = Ok a → P a = false) ∧ same_result R (m c).2 (l (web3_of c)).2)).

Lemma unless_bind {A B C D} (P : C → bool) (R : A → B → Prop) (S : C → D → Prop) m l f g :
  agree true R m l → (∀ x y, R x y → agree_unless P S (f x) (g y)) → agree_unless P S (m ≫= f) (l ≫= g).
Proof.
  intros H HS c. unfold mbind, M_bind, L_bind. specialize (H c).
  destruct (m c) as [c1 r], (l (web3_of c)) as [l1 s']. cbn [fst snd] in H.
  destruct H as [[? _]|[-> Hr]]; [done|]. destruct Hr as [x y Hxy|e' e He]; [by apply HS|].
  split; [done|]. right. split; [done|]. by constructor.
Qed.

Lemma unless_ret {A B} (P : A → bool) (R : A → B → Prop) x y : P x = false → R x y → agree_unless P R (mret x) (mret y).
Proof. intros HP H c. split; [done|]. right. split; [by intros a [= <-]|]. by constructor. Qed.

Lemma unless_number {A B C} (P : A → bool) (R : A → B → Prop) (ok : bool) (x : C) a (g : C → B) :
  P a = negb ok → (ok = true → R a (g x)) →
  agree_unless P R (mret a) (lift3 (if ok then Ok x else Throw ERangeError) ≫= λ x, mret (g x)).
Proof.
  intros HP H. destruct ok; [by apply unless_ret; [|apply H]|]. intros c. split; [done|]. left. by exists a.
Qed.

Lemma unless_map {A B C D} (P : A → bool) (Q : C → bool) (R : A → B → Prop) (S : C → D → Prop) m l (f : A → C) (g : B → D) :
  agree_unless P R m l → (∀ x, Q (f x) = P x) → (∀ x y, R x y → S (f x) (g y)) →
  agree_unless Q S (m ≫= λ x, mret (f x)) (l ≫= λ y, mret (g y)).
Proof.
  intros H HP HS c. unfold mbind, M_bind, L_bind. specialize (H c).
  destruct (m c) as [c1 r], (l (web3_of c)) as [l1 s']. cbn [fst snd] in H. destruct H as [-> [(a & -> & Ha & ->)|[Hn Hr]]].
  - split; [done|]. left. exists (f a). by rewrite HP.
  - destruct Hr as [x y Hxy|e' e He]; (split; [done|]; right).
    + split; [intros a [= <-]; rewrite HP; by apply Hn|]. constructor. by apply HS.
    + split; [done|]. by constructor.
Qed.

Lemma unless_assoc {A B C D} (P : A → bool) (R : A → D → Prop) (m : M A) (l : L B) (f : B → L C) (g : C → L D) :
  agree_unless P R m (l ≫= λ x, f x ≫= g) → agree_unless P R m ((l ≫= f) ≫= g).
Proof. intros H c. specialize (H c). revert H. unfold mbind, L_bind. by destruct (l (web3_of c)) as [? []]. Qed.

(** A challenge whose slot or counter its field cannot hold. *)
Definition unfit_step (step : Migration.MigrateStep) : bool :=
  match step with
  | Migration.MigrateSecp256r1 prepared _ => negb (fits_uint 8 (p_slot prepared) && fits_uint 4 (p_counter prepared))
  | _ => false
  end.

Lemma payload_agrees v2Vault v1Wallet refund (tokens : list V1VaultToken) pairs : length pairs = length tokens →
  migration_payload v2Vault v1Wallet refund tokens pairs = migrate_payload v2Vault v1Wallet refund pairs.
Proof. intros H. unfold migration_payload, migrate_payload. by rewrite H. Qed.

Lemma migrate_built payer w a v d refund signer isSigner pairs payload p :
  LegacyBuilders.createMigrateWalletIx payer w a v d refund signer isSigner pairs payload p
  = web3_ix (Builders.createMigrateWalletIx payer w a v d refund signer isSigner pairs payload p).
Proof. exact (built_same p (MigrateWallet payer w a v d refund signer isSigner pairs payload) _ eq_refl eq_refl). Qed.

Lemma agree_step p v1 v1ProgramId v2Vault tokens pairs (harvests : list Instruction) : length pairs = length tokens →
  agree_unless unfit_step same_step
    (migrate_step kenv (kit_migrate p) v1 v1ProgramId v2Vault pairs harvests)
    (migration_step env p v1 v1ProgramId v2Vault tokens pairs (web3_ix <$> harvests)).
Proof.
  intros Hl. unfold migrate_step, migration_step. cbv zeta. rewrite payload_agrees by done.
  cbn [kit_migrate Migration.mp_owner Migration.mp_payer Migration.mp_refundDestination Migration.mp_minContextSlot
    Migration.mp_commitment].
  destruct (mp_owner p) as [key|cred key rp].
  - apply unless_ret; [done|]. split; [by rewrite migrate_built|]. unfold same_ixs. by rewrite fmap_app, migrate_built.
  - apply unless_assoc. eapply unless_bind; [apply agree_ask|]. intros n ? <-.
    eapply unless_bind; [apply agree_lift, (same_reads env (LegacyReads.mkOptions (mp_commitment p) (mp_minContextSlot p))
      (mkHave (Some key) None) n)|]. intros [[k slot] counter] ? <-.
    rewrite prepare_agrees. apply unless_number.
    { unfold signature_fits, unfit_step. cbn [p_slot p_counter buildPasskeySigning Signing.prepareSecp256r1].
      by rewrite andb_true_r. }
    intros Hs. split; [done|]. intros response.
    apply same_finalize; [done|]. intros payload ix. constructor. unfold same_ixs. by rewrite fmap_app, migrate_built.
Qed.

(** ** The whole call *)
Definition same_plan (x : Migration.MigrationPlan) (y : LegacyMigration.MigrationPlan) : Prop :=
  mg_v1 y = Migration.mg_v1 x ∧ mg_destinationWallet y = Migration.mg_destinationWallet x
  ∧ mg_destinationUserSeed y = Migration.mg_destinationUserSeed x ∧ mg_v2Vault y = Migration.mg_v2Vault x
  ∧ mg_tokens y = Migration.mg_tokens x ∧ mg_skippedTokens y = Migration.mg_skippedTokens x
  ∧ same_ixs (Migration.mg_setupInstructions x) (mg_setupInstructions y)
  ∧ same_step (Migration.mg_migrate x) (mg_migrate y).

Lemma same_v1_accounts p c v1ProgramId :
  same_result eq (Migration.v1_accounts (kit_migrate p) c v1ProgramId) (v1_accounts p c v1ProgramId).
Proof.
  unfold Migration.v1_accounts, v1_accounts. cbn [kit_migrate Migration.mp_v1Wallet Migration.mp_userSeed].
  destruct (mp_v1Wallet p) as [w|]; [|destruct (mp_userSeed p) as [seed|]; [|apply same_refl]].
  - eapply same_bind; [by apply derive_agrees|]. intros [v vb] ? <-.
    eapply same_bind; [by apply derive_agrees|]. intros [a ab] ? <-. apply same_refl.
  - eapply same_bind; [by apply derive_agrees|]. intros [w wb] ? <-.
    eapply same_bind; [by apply derive_agrees|]. intros [v vb] ? <-.
    eapply same_bind; [by apply derive_agrees|]. intros [a ab] ? <-. apply same_refl.
Qed.

(** The accounts to check are among those held. *)
Lemma checked_distinct rpc held exclude movable skipped :
  NoDup (t_ata <$> held) → V1.classifyV1VaultTokens rpc held exclude = Ok (movable, skipped) →
  NoDup (t_ata <$> movable ++ (fst <$> List.filter arriving skipped)).
Proof.
  intros Hn Hc%classify_perm. rewrite <- Hc in Hn. rewrite fmap_app in Hn |- *.
  apply NoDup_app in Hn as (H1 & H2 & H3). apply NoDup_app. split_and!; [done|..].
  - intros a Ha Hb. apply (H2 a Ha). revert Hb. rewrite !list_elem_of_fmap.
    intros (t & -> & (s & -> & [Hs _]%elem_of_filter_bool)%list_elem_of_fmap). exists s.1. split; [done|].
    apply list_elem_of_fmap. by exists s.
  - rewrite <- list_fmap_compose in H3 |- *. revert H3. clear. induction skipped as [|s l IH]; [done|].
    rewrite fmap_cons, NoDup_cons. intros [Hs Hl]. cbn [List.filter]. destruct (arriving s); [|by apply IH].
    rewrite fmap_cons, NoDup_cons. split; [|by apply IH]. rewrite !list_elem_of_fmap in Hs |- *.
    intros (x & Hx & [Hin _]%elem_of_filter_bool). apply Hs. by exists x.
Qed.

Lemma settled_checked m movable skipped t :
  t ∈ (settle_tokens m movable skipped).1 → t ∈ movable ++ (fst <$> List.filter arriving skipped).
Proof.
  unfold settle_tokens. cbn [fst]. rewrite !elem_of_app. intros [[H _]%elem_of_filter_bool|H]; [by left|right].
  apply list_elem_of_fmap in H as (s & -> & [Hs _]%elem_of_filter_bool). apply list_elem_of_fmap. by exists s.
Qed.

Lemma agree_creation b p minted (create : bool) :
  (create = true → is_Some (seed_of p minted)) →
  agree b same_ixs
    (match (if create then seed_of p minted else None) with
     | Some seed => created ← Client.createWallet kenv programId protocolFees (mp_payer p) seed (mp_owner p);
                    mret (Client.cw_instructions created)
     | None => mret []
     end)
    (if create
     then
       seed ← lift3 (of_option (EExternal "undefined") (seed_of p minted));
       created ← LegacyClient.createWallet env programId protocolFees (mp_payer p) seed (mp_owner p);
       mret (LegacyClient.cw_instructions created)
     else mret []).
Proof.
  intros Hs. destruct create; [|by apply agree_ret]. destruct (Hs eq_refl) as [seed ->].
  change (lift3 (of_option ?e (Some seed)) ≫= ?f) with (f seed). cbn beta.
  eapply agree_bind; [by apply agree_any, agree_createWallet|]. intros x ? ->. by apply agree_ret.
Qed.

(** A plan whose challenge's slot or counter its field cannot hold. *)
Definition unfit_plan (x : Migration.MigrationPlan) : bool := unfit_step (Migration.mg_migrate x).

Lemma agree_plan p v1 v1ProgramId wallet minted create vettedAt :
  honours_tokens → (create = true → is_Some (seed_of p minted)) →
  agree_unless unfit_plan same_plan
    (Migration.plan_migration kenv programId protocolFees (kit_migrate p) v1 v1ProgramId wallet minted
       (if create : bool then seed_of p minted else None) vettedAt)
    (plan_migration env programId protocolFees p v1 v1ProgramId wallet minted create vettedAt).
Proof.
  intros Hh Hc. eapply unless_bind; [apply agree_lift; by apply derive_agrees|]. intros [v2Vault vb] ? <-.
  eapply unless_bind; [apply agree_ask|]. intros n ? <-.
  eapply unless_bind; [by apply agree_lift, same_held|]. intros held ? [<- Hn].
  eapply unless_bind; [apply agree_ask|]. intros n' ? <-.
  eapply (unless_bind _ (λ x y, x = y ∧ NoDup (t_ata <$> y.1 ++ (fst <$> List.filter arriving y.2)))).
  { apply agree_lift. pose proof (same_classified n' held (default [] (mp_excludeTokenAccounts p))) as H.
    destruct (V1.classifyV1VaultTokens _ held _) as [[mv sk]|] eqn:E in H |- *; inversion H; subst; constructor; [|done].
    split; [done|]. by eapply checked_distinct. }
  intros [movable skipped] ? [<- Hd]. cbn [fst snd] in Hd.
  eapply unless_bind.
  { apply agree_any. apply (agree_dests v2Vault vettedAt (movable ++ (fst <$> List.filter arriving skipped)));
      [done|done|]. split; [done|]. apply Forall_forall. intros t _. done. }
  intros m st Hm. rewrite (sort_agrees_tokens _ _ _ _ _ _ Hm).
  destruct (settle_tokens m movable skipped) as [tokens skippedTokens] eqn:Ht.
  destruct (rigged_agrees _ _ _ _ tokens Hm) as (found & Hf & Hrig).
  { intros t Hin. apply (settled_checked m). by rewrite Ht. }
  rewrite Hf. change (lift3 (Ok found) ≫= ?f) with (f found). cbv zeta beta. rewrite Hrig.
  assert ((0 <? length (rigged m tokens))%nat = negb (length (rigged m tokens) =? 0)%nat) as ->.
  { by destruct (rigged m tokens). }
  eapply unless_bind; [apply agree_lift, same_refl|]. intros [] [] _.
  eapply unless_bind; [apply agree_lift, same_refl|]. intros [] [] _.
  eapply unless_bind; [by apply agree_creation|]. intros creation ? ->.
  eapply unless_bind; [apply agree_lift, same_pairs|]. intros pairs ? [<- Hlen].
  rewrite harvests_agree. change (lift3 (Ok ?x) ≫= ?f) with (f x). cbn beta.
  eapply unless_map; [by apply agree_step|done|].
  intros step step' Hstep. split_and!; try done. unfold same_ixs. cbn.
  rewrite fmap_app. f_equal. by rewrite <- list_fmap_compose.
Qed.

Lemma agree_migrate p : honours_tokens →
  agree_unless unfit_plan same_plan
    (Migration.migrateV1Wallet kenv programId protocolFees (kit_migrate p))
    (migrateV1Wallet env programId protocolFees p).
Proof.
  intros Hh. unfold Migration.migrateV1Wallet, migrateV1Wallet.
  eapply unless_bind; [apply agree_lift, same_refl|]. intros fields ? <-. cbv zeta.
  eapply unless_bind; [apply agree_lift, same_refl|]. intros [] [] _.
  eapply unless_bind; [apply agree_lift, same_v1_accounts|]. intros v1 ? <-.
  eapply unless_bind; [apply agree_ask|]. intros n ? <-.
  eapply unless_bind; [apply agree_lift, same_state|]. intros state ? <-.
  eapply unless_bind; [apply agree_lift, same_refl|]. intros st ? <-.
  eapply unless_bind; [apply agree_lift, same_refl|]. intros [] [] _.
  eapply (unless_bind _ eq); [apply agree_if; [done|by apply agree_passkey_owner|by apply agree_ret]|]. intros [] [] _.
  eapply unless_bind.
  { apply agree_lift. cbn [kit_migrate Migration.mp_watchMints]. rewrite default_texts. by apply watched_mints_agree. }
  intros mints ? <-.
  eapply unless_bind; [apply agree_any, agree_choose|]. intros d [[wallet minted] vetted] Hd.
  eapply unless_bind; [by apply agree_any, agree_settle|]. intros ? [create vettedAt] [-> Hc]. cbn [fst snd] in Hc |- *.
  destruct Hd as (-> & _ & Hm & _). cbn [kit_migrate Migration.mp_userSeed]. rewrite Hm. by apply agree_plan.
Qed.
End parity.
