(* ===== verification/LegacyMigrationSame.v ===== *)
(** * The same migration, whichever SDK plans it

    The theorem, and a run of it: the passkey owner of [MigrationProps], whose
    node is asked through web3.js. *)
From S2P Require Import Prelude Bytes Kit Constants JsMap Pdas Builders Signing Accounts ChallengeReads Ownership V1 ClientHelpers Client.
From S2P Require Import Samples WorkerPool WalletLookup Ledger LookupSafety LookupSamples Migration MigrationProps.
From S2P Require Import LegacyWeb3 LegacyBuilders LegacyParity LegacyCompact LegacyActions LegacyReads LegacyCalls LegacyOwnership LegacyV1 LegacyLookup LegacyHelpers LegacyVetting LegacyLookupParity LegacyLookupSafety LegacyClient LegacyClientParity LegacyMigration LegacyMigrationParity.
Local Open Scope Z_scope.

Section same.
Context `{KL : KitLaws} {W : Web3Pda} {W' : Web3Keys} {WL : Web3KeysLaws W'}.
Hypothesis same_derivation : ∀ seeds programId,
  findProgramAddressSync seeds programId = getProgramDerivedAddress programId seeds.
Variable env : Web3Env.
Variable programId : address.
Variable protocolFees : bool.
Abbreviation kenv := (kit_env env).

Lemma agree_lookup seed type program : honours_filters env →
  agree true eq (Migration.lookupV1WalletsByOwner kenv programId seed (default Secp256r1 type) program)
    (lookupV1WalletsByOwner env programId seed type program).
Proof.
  intros H. eapply agree_bind; [apply agree_ask|]. intros n ? <-. apply agree_lift.
  rewrite (find_v1_ext _ (λ p fs, coded (λ l, (kit_entry <$> l : list _)) (snd <$> l_getProgramAccounts env n p fs None)))
    by (intros; by apply coded_snd).
  apply find_v1_agrees; [done|]. intros p fs rows Hr.
  destruct (l_getProgramAccounts env n p fs None) as [[slot r]|] eqn:E; [|done]. injection Hr as <-. by eapply H.
Qed.

(** C19.  A v1 wallet is found and migrated the same way through either SDK: on
    the same node the web3.js SDK finds the same wallets, settles on the same
    destination (and refuses the same), moves and skips the same token accounts
    for the same reasons, and builds the same setup and migration instructions,
    or the same passkey challenge, whose answer it finalizes into the same
    instructions; the errors are the same.  It throws a [RangeError] exactly where the kit
    SDK returns a plan whose passkey challenge has a slot or a counter that does not fit
    its 64 or 32 bits.  The node applies the filters it is given, lists token accounts in
    full and each once, and the two libraries derive the same addresses. *)
Theorem web3_migration_agrees (p : MigrateParams) (seed : bytes) (type : option AuthorityTypeName)
    (program : option address) :
  honours_tokens env → honours_filters env →
  agree_unless unfit_plan same_plan
    (Migration.migrateV1Wallet kenv programId protocolFees (kit_migrate env p))
    (migrateV1Wallet env programId protocolFees p)
  ∧ agree true eq (Migration.lookupV1WalletsByOwner kenv programId seed (default Secp256r1 type) program)
      (lookupV1WalletsByOwner env programId seed type program).
Proof. intros Ht Hf. split; [by apply agree_migrate|by apply agree_lookup]. Qed.
End same.

(** ** A node that serves a ledger answers as documented *)
Section honoured.
Context `{KL : KitLaws}.
Variables (accounts : Z → list (address * account)) (answers : nat → Z) (now : Z).
Hypothesis distinct : ∀ slot, NoDup (accounts slot).*1.
Variable valid_token : bytes → bool.
Hypothesis whole : ∀ d, valid_token d = true → (165 <= length d)%nat.
Hypothesis fixed : ∀ n, accounts n = accounts 0.
Hypothesis programs_differ : TOKEN_PROGRAM_ADDRESS ≠ TOKEN_2022_PROGRAM_ADDRESS.

Lemma served_elem test slot a :
  a ∈ (served_infos accounts test slot).*1 → ∃ acc, (a, acc) ∈ accounts slot ∧ test acc = true.
Proof.
  unfold served_infos. rewrite <- list_fmap_compose.
  intros ([b acc] & -> & [Hin Ht]%elem_of_filter_bool)%list_elem_of_fmap. by exists acc.
Qed.

Lemma served_nodup test slot : NoDup (served_infos accounts test slot).*1.
Proof.
  unfold served_infos. rewrite <- list_fmap_compose. pose proof (distinct slot) as Hd. revert Hd.
  induction (accounts slot) as [|[a acc] l IH]; [done|]. rewrite fmap_cons, NoDup_cons. intros [Ha Hl].
  cbn [List.filter snd]. destruct (test acc); [|by apply IH]. rewrite fmap_cons, NoDup_cons. split; [|by apply IH].
  intros ([b acc'] & E & [Hin _]%elem_of_filter_bool)%list_elem_of_fmap. cbn in E. subst b.
  apply Ha, list_elem_of_fmap. by exists (a, acc').
Qed.

Lemma serving_honours_tokens : honours_tokens (serving3 accounts answers now valid_token).
Proof.
  intros n vault. split.
  - intros p m slot rows [= _ <-]. apply Forall_forall. intros r Hr. unfold served_infos in Hr.
    apply list_elem_of_fmap in Hr as ([a acc] & -> & [_ Ht]%elem_of_filter_bool). cbn in Ht |- *.
    rewrite !andb_true_iff in Ht. destruct Ht as [[_ Ht] _]. by apply whole.
  - intros s1 rows1 s2 rows2 [= _ <-] [= _ <-]. apply NoDup_app. split_and!; [apply served_nodup| |apply served_nodup].
    intros a (x & Hx & Hx1)%served_elem (y & Hy & Hy1)%served_elem. rewrite fixed in Hx, Hy.
    assert (x = y) as <-.
    { pose proof (proj2 (ledger_of_elem _ a x (distinct 0)) Hx) as H1.
      pose proof (proj2 (ledger_of_elem _ a y (distinct 0)) Hy) as H2. congruence. }
    rewrite !andb_true_iff, bool_decide_eq_true in Hx1, Hy1. destruct Hx1 as [[H1 _] _], Hy1 as [[H2 _] _].
    rewrite H1 in H2. by apply programs_differ.
Qed.

Lemma serving_honours_filters : honours_filters (serving3 accounts answers now valid_token).
Proof.
  intros n p fs m slot rows [= _ <-]. apply Forall_forall. intros r Hr. unfold served_infos in Hr.
  apply list_elem_of_fmap in Hr as ([a acc] & -> & [_ Ht]%elem_of_filter_bool). cbn [fst snd info_of ai_data] in *.
  apply andb_true_iff in Ht as [_ Ht]. unfold matches in Ht. rewrite forallb_forall in Ht.
  apply Forall_forall. intros f Hf%list_elem_of_In. by apply bytesEqual_spec, Ht.
Qed.
End honoured.

(** ** Examples *)
Import ConcreteKit.

Module Web3Migration.
Import MigrationSample.
Definition serving_node : @Web3Env kit :=
  serving3 (λ _, MigrationSample.accounts) (λ n, 55 + Z.of_nat n) 55 (λ d, (length d =? 165)%nat).

(** The node, which also answers the two reads of the challenge. *)
Definition node : @Web3Env kit := mkWeb3Env (K := kit)
  (l_getAccountInfo serving_node) (l_getSlot serving_node) (l_getMultipleAccounts serving_node)
  (l_getProgramAccounts serving_node) (l_getTokenAccountsByOwner serving_node) (l_randomBytes serving_node)
  (l_now serving_node)
  (λ _, [Answered 0 (Ok (ASlot (K := kit) 70));
         Answered 1 (Ok (AAccount (Some (mkInfo (K := kit) v1Program 1 v1_authority_data))))])
  (l_second_first serving_node) (l_settles serving_node) None "".

Definition params : @LegacyMigration.MigrateParams kit := LegacyMigration.mkMigrateParams (K := kit) (at_byte 1)
  sample_owner None (Some v1Wallet) None (Some v1Program) None None None None None.

Definition planned (p : @LegacyMigration.MigrationPlan kit) : bool :=
  (length (LegacyMigration.mg_tokens p) =? 1)%nat && (length (LegacyMigration.mg_skippedTokens p) =? 1)%nat
  && bool_decide (LegacyMigration.mg_destinationWallet p = LookupSample.wallet)
  && match LegacyMigration.mg_migrate p with
     | LegacyMigration.MigrateSecp256r1 prepared finalize =>
       (p_slot prepared =? 70) && (p_counter prepared =? 5)
       && match finalize Sample.response with Ok _ => true | Throw _ => false end
     | _ => false
     end.

Lemma node_honours_tokens : honours_tokens node.
Proof.
  intros n vault.
  pose proof (@serving_honours_tokens kit kit_laws (λ _, MigrationSample.accounts) (λ n, 55 + Z.of_nat n) 55
    (λ _, v1_distinct) (λ d, (length d =? 165)%nat)) as H.
  apply H; [|done|]; clear H.
  - intros d Hd%Nat.eqb_eq. lia.
  - intros H. apply (f_equal (address_encode (Kit := kit))) in H.
    vm_compute in H. discriminate H.
Qed.

Lemma node_honours_filters : honours_filters node.
Proof.
  intros n p fs m slot rows H. eapply (@serving_honours_filters kit (λ _, MigrationSample.accounts)
    (λ n, 55 + Z.of_nat n) 55 (λ d, (length d =? 165)%nat)). exact H.
Qed.

Lemma web3_run_plans : Web3Lookup.returns
  (migrateV1Wallet node LookupSample.program false params (web3_of new_client)) planned = true.
Proof. vm_compute. reflexivity. Qed.
End Web3Migration.

Lemma web3_migration_agrees_witness :
  agree_unless (K := kit) unfit_plan same_plan
    (Migration.migrateV1Wallet (kit_env Web3Migration.node) LookupSample.program false
       (kit_migrate Web3Migration.node Web3Migration.params))
    (migrateV1Wallet Web3Migration.node LookupSample.program false Web3Migration.params)
  ∧ Web3Lookup.returns (migrateV1Wallet Web3Migration.node LookupSample.program false Web3Migration.params
      (web3_of new_client)) Web3Migration.planned = true.
Proof.
  split; [|exact Web3Migration.web3_run_plans].
  exact (proj1 (web3_migration_agrees (KL := kit_laws) concrete_derivation Web3Migration.node LookupSample.program false
    Web3Migration.params [] None None Web3Migration.node_honours_tokens Web3Migration.node_honours_filters)).
Defined.
