(* ===== verification/LegacyDeferred.v ===== *)
(** * The deferred payload of the web3.js SDK

    Models [serializeDeferredPayload] and [deserializeDeferredPayload] of
    src/sdk/sdk-legacy/src/utils/types.ts, and compares what they write and read
    with [Deferred], the same functions of the kit SDK.  An account on this wire
    is [{pubkey, isSigner, isWritable}]; on the other it is [{address, role}]. *)
From S2P Require Import Prelude Bytes Kit Constants Packing Signing Json JsonText.
From S2P Require Import ChallengeReads Client ClientOps Samples Deferred.
From S2P Require Import LegacyWeb3 LegacyBuilders LegacyParity LegacyCompact LegacyActions LegacyReads LegacyCalls LegacyOwnership LegacyLookup LegacyHelpers LegacyVetting LegacyClient LegacyOps LegacyClientParity.
Local Open Scope Z_scope.

(** What the libraries do with a value of any JSON type: [new PublicKey(v)] of
    web3.js and [Buffer.from(v, 'base64')]. *)
Class Web3Wire `{K : Kit} := {
  key_from : option json → result address;
  buffer_from : option json → result bytes;
}.

(** [new PublicKey] reads a base58 text and throws on [undefined]; [Buffer] reads
    back the base64 it writes. *)
Class Web3WireLaws `{K : Kit} (W : Web3Wire) : Prop := {
  key_from_text : ∀ s, key_from (Some (JStr s)) = of_option (EExternal "PublicKey") (parse_address (js_string s));
  key_from_undefined : key_from None = Throw (EExternal "TypeError");
  buffer_from_text : ∀ b, buffer_from (Some (JStr (utf8 (base64_text b)))) = Ok b;
}.

Section wire.
Context `{K : Kit} {V : Web3Wire}.

Record RawKey := mkRawKey {
  rk_pubkey : address;
  rk_isSigner : option json;
  rk_isWritable : option json;
}.

Record RawPayload := mkRawPayload {
  rp_walletPda : address;
  rp_deferredExecPda : address;
  rp_compactInstructions : list RawCompact;
  rp_remainingAccounts : list RawKey;
  rp_executor : option address;
  rp_refundDestination : option address;
}.

Definition key_json (a : Key) : json :=
  JObj [(lit "pubkey", JAddress (pubkey a)); (lit "isSigner", JBool (k_isSigner a));
        (lit "isWritable", JBool (k_isWritable a))].

Definition payload_json (p : LegacyOps.DeferredPayload) : json :=
  wire_json (LegacyOps.dp_walletPda p) (LegacyOps.dp_deferredExecPda p)
    (compact_json <$> LegacyOps.dp_compactInstructions p) (key_json <$> LegacyOps.dp_remainingAccounts p)
    (LegacyOps.dp_executor p) (LegacyOps.dp_refundDestination p).

Definition serializeDeferredPayload (payload : LegacyOps.DeferredPayload) : string :=
  js_string (stringify (payload_json payload)).

Definition raw_compact (ix : json) : result RawCompact :=
  programIdIndex ← property ix (lit "programIdIndex");
  accountIndexes ← property ix (lit "accountIndexes");
  data ← property ix (lit "data");
  b ← buffer_from data;
  Ok (mkRawCompact programIdIndex accountIndexes b).

Definition raw_key (a : json) : result RawKey :=
  pubkey ← property a (lit "pubkey");
  pubkey ← key_from pubkey;
  isSigner ← property a (lit "isSigner");
  isWritable ← property a (lit "isWritable");
  Ok (mkRawKey pubkey isSigner isWritable).

(** [v !== undefined ? new PublicKey(v) : undefined]. *)
Definition opt_key (v : option json) : result (option address) :=
  match v with Some v => Some <$> key_from (Some v) | None => Ok None end.

Definition deserializeDeferredPayload (serialized : string) : result RawPayload :=
  w ← read_wire serialized;
  walletPda ← key_from (Some (JStr (w_walletPda w)));
  deferredExecPda ← key_from (Some (JStr (w_deferredExecPda w)));
  compact ← mapR raw_compact (w_compactInstructions w);
  remaining ← mapR raw_key (w_remainingAccounts w);
  executor ← opt_key (w_executor w);
  refundDestination ← opt_key (w_refundDestination w);
  Ok (mkRawPayload walletPda deferredExecPda compact remaining executor refundDestination).

(** ** The declared types *)
Definition as_bool (v : option json) : option bool :=
  match v with Some (JBool b) => Some b | _ => None end.

Definition typed_key (r : RawKey) : option Key :=
  isSigner ← as_bool (rk_isSigner r);
  isWritable ← as_bool (rk_isWritable r);
  Some (mkKey (rk_pubkey r) isSigner isWritable).

Definition typed (r : RawPayload) : option LegacyOps.DeferredPayload :=
  cs ← mapM typed_compact (rp_compactInstructions r);
  ks ← mapM typed_key (rp_remainingAccounts r);
  Some (LegacyOps.mkDeferredPayload (rp_walletPda r) (rp_deferredExecPda r) cs ks (rp_executor r)
          (rp_refundDestination r)).
End wire.

(** ** Reading back *)
Section roundtrip.
Context `{KL : KitLaws} {V : Web3Wire} {VL : Web3WireLaws V}.

Definition raw_k (k : Key) : RawKey :=
  mkRawKey (pubkey k) (Some (JBool (k_isSigner k))) (Some (JBool (k_isWritable k))).

Lemma key_json_text a : text_ok (key_json a) = true.
Proof.
  unfold key_json. cbn [text_ok forallb fst snd]. rewrite address_text.
  destruct (k_isSigner a), (k_isWritable a); reflexivity.
Qed.

Lemma keys_text l : forallb text_ok (key_json <$> l) = true.
Proof. apply forallb_fmap_Forall, Forall_forall. auto using key_json_text. Qed.

Lemma raw_compact_reads ix : raw_compact (compact_json ix) = Ok (raw_c ix).
Proof.
  unfold raw_compact, compact_json.
  rewrite (property_member _ (lit "programIdIndex") (JNat (programIdIndex ix))) by member. rewrite bind_ok.
  rewrite (property_member _ (lit "accountIndexes") (JArr (JNat <$> accountIndexes ix))) by member. rewrite bind_ok.
  rewrite (property_member _ (lit "data") (JStr (utf8 (base64_text (c_data ix))))) by member. rewrite bind_ok.
  by rewrite buffer_from_text.
Qed.

Lemma key_from_own a : key_from (Some (JAddress a)) = Ok a.
Proof. unfold JAddress. by rewrite key_from_text, js_string_utf8, parse_own_string. Qed.

Lemma raw_key_reads k : raw_key (key_json k) = Ok (raw_k k).
Proof.
  unfold raw_key, key_json.
  rewrite (property_member _ (lit "pubkey") (JAddress (pubkey k))) by member. rewrite bind_ok, key_from_own, bind_ok.
  rewrite (property_member _ (lit "isSigner") (JBool (k_isSigner k))) by member. rewrite bind_ok.
  by rewrite (property_member _ (lit "isWritable") (JBool (k_isWritable k))) by member.
Qed.

Lemma opt_key_own a : opt_key (JAddress <$> a) = Ok a.
Proof. destruct a as [a|]; [|done]. cbn [opt_key fmap option_fmap option_map]. by rewrite key_from_own. Qed.

Definition web3_payload_ok (p : LegacyOps.DeferredPayload) : Prop :=
  Forall (λ ix, 0 <= programIdIndex ix ∧ Forall (λ b, 0 <= b) (accountIndexes ix))
    (LegacyOps.dp_compactInstructions p).

Definition raw_payload (p : LegacyOps.DeferredPayload) : RawPayload :=
  mkRawPayload (LegacyOps.dp_walletPda p) (LegacyOps.dp_deferredExecPda p)
    (raw_c <$> LegacyOps.dp_compactInstructions p) (raw_k <$> LegacyOps.dp_remainingAccounts p)
    (LegacyOps.dp_executor p) (LegacyOps.dp_refundDestination p).

Lemma web3_reads_own p : web3_payload_ok p →
  deserializeDeferredPayload (serializeDeferredPayload p) = Ok (raw_payload p).
Proof.
  intros H. unfold deserializeDeferredPayload, serializeDeferredPayload, payload_json.
  rewrite read_wire_json by (by apply compacts_text || apply keys_text). rewrite bind_ok.
  cbn [w_walletPda w_deferredExecPda w_compactInstructions w_remainingAccounts w_executor w_refundDestination].
  fold (JAddress (LegacyOps.dp_walletPda p)). fold (JAddress (LegacyOps.dp_deferredExecPda p)).
  rewrite !key_from_own, !bind_ok.
  rewrite (mapR_fmap raw_compact compact_json raw_c), bind_ok by apply raw_compact_reads.
  rewrite (mapR_fmap raw_key key_json raw_k), bind_ok by apply raw_key_reads.
  by rewrite !opt_key_own, !bind_ok.
Qed.

Lemma typed_raw_payload p : web3_payload_ok p → typed (raw_payload p) = Some p.
Proof.
  intros H. unfold typed, raw_payload. cbn [rp_compactInstructions rp_remainingAccounts].
  rewrite (mapM_fmap typed_compact raw_c id), (mapM_fmap typed_key raw_k id).
  - cbn [mbind option_bind]. rewrite !list_fmap_id. by destruct p.
  - apply Forall_forall. by intros [] _.
  - by apply typed_compacts.
Qed.

(** ** The other SDK's payload *)

(** A kit account carries no [pubkey], and a web3.js one neither [address] nor [role]. *)
Lemma raw_key_of_meta m : raw_key (meta_json m) = Throw (EExternal "TypeError").
Proof.
  unfold raw_key, meta_json. rewrite (property_absent _ (lit "pubkey")) by closed.
  by rewrite bind_ok, key_from_undefined.
Qed.

Lemma raw_meta_of_key k : raw_meta (key_json k) = Ok (mkRawMeta None None).
Proof. unfold raw_meta, key_json. by rewrite !property_absent by closed. Qed.

Lemma web3_refuses_kit p m l : payload_ok p → ClientOps.dp_remainingAccounts p = m :: l →
  deserializeDeferredPayload (Deferred.serializeDeferredPayload p) = Throw (EExternal "TypeError").
Proof.
  intros H E. unfold deserializeDeferredPayload, Deferred.serializeDeferredPayload, Deferred.payload_json.
  rewrite read_wire_json by (by apply compacts_text || apply metas_text). rewrite bind_ok.
  cbn [w_walletPda w_deferredExecPda w_compactInstructions w_remainingAccounts w_executor w_refundDestination].
  fold (JAddress (ClientOps.dp_walletPda p)). fold (JAddress (ClientOps.dp_deferredExecPda p)).
  rewrite !key_from_own, !bind_ok.
  rewrite (mapR_fmap raw_compact compact_json raw_c), bind_ok by apply raw_compact_reads.
  rewrite E, fmap_cons. cbn [mapR]. by rewrite raw_key_of_meta.
Qed.

Lemma kit_reads_web3 p : payload_ok p → ∃ raw,
  Deferred.deserializeDeferredPayload (serializeDeferredPayload (web3_payload p)) = Ok raw
  ∧ rw_remainingAccounts raw = (λ _, mkRawMeta None None) <$> ClientOps.dp_remainingAccounts p
  ∧ (ClientOps.dp_remainingAccounts p ≠ [] → Deferred.typed raw = None).
Proof.
  intros H. unfold Deferred.deserializeDeferredPayload, serializeDeferredPayload, payload_json.
  rewrite read_wire_json by (by apply compacts_text || apply keys_text). rewrite bind_ok.
  cbn [w_walletPda w_deferredExecPda w_compactInstructions w_remainingAccounts w_executor w_refundDestination].
  rewrite (mapR_fmap Deferred.raw_compact compact_json raw_c), bind_ok by apply raw_compact_ok.
  rewrite (mapR_fmap raw_meta key_json (λ _, mkRawMeta None None)), bind_ok by apply raw_meta_of_key.
  rewrite !opt_address_ok, !bind_ok. eexists. split; [reflexivity|]. split.
  - cbn [rw_remainingAccounts web3_payload LegacyOps.dp_remainingAccounts]. by rewrite <- list_fmap_compose.
  - intros Hne. unfold Deferred.typed. cbn [rw_walletPda rw_deferredExecPda rw_compactInstructions rw_remainingAccounts].
    rewrite !js_string_utf8, !parse_own_string. cbn [mbind option_bind].
    destruct (mapM typed_compact _) as [cs|]; [|done]. cbn [mbind option_bind web3_payload LegacyOps.dp_remainingAccounts].
    by destruct (ClientOps.dp_remainingAccounts p).
Qed.

(** C26.  The two SDKs write the same version but not the same wire.  Each reads
    back what it writes, without an error and as the payload that was written, the
    absent executor or refund destination included.  A payload with an
    account beyond the fixed ones does not cross over: the web3.js SDK throws on
    the kit SDK's text (an account has no [pubkey]), and the kit SDK accepts the
    web3.js SDK's and hands on accounts with no address and no role.  Without such
    an account the two texts are the same, and either SDK reads both. *)
Theorem deferred_wires_compared (p : ClientOps.DeferredPayload) :
  payload_ok p →
  (∃ raw, Deferred.deserializeDeferredPayload (Deferred.serializeDeferredPayload p) = Ok raw
     ∧ Deferred.typed raw = Some p)
  ∧ (∃ raw, deserializeDeferredPayload (serializeDeferredPayload (web3_payload p)) = Ok raw
     ∧ typed raw = Some (web3_payload p))
  ∧ match ClientOps.dp_remainingAccounts p with
    | [] => serializeDeferredPayload (web3_payload p) = Deferred.serializeDeferredPayload p
    | _ :: _ =>
      deserializeDeferredPayload (Deferred.serializeDeferredPayload p) = Throw (EExternal "TypeError")
      ∧ ∃ raw, Deferred.deserializeDeferredPayload (serializeDeferredPayload (web3_payload p)) = Ok raw
        ∧ length (rw_remainingAccounts raw) = length (ClientOps.dp_remainingAccounts p)
        ∧ Forall (λ m, rm_address m = None ∧ rm_role m = None) (rw_remainingAccounts raw)
        ∧ Deferred.typed raw = None
    end.
Proof.
  intros H. split; [exists (raw_of p); auto using deserialize_serialize, typed_raw|].
  split; [exists (raw_payload (web3_payload p)); auto using web3_reads_own, typed_raw_payload|].
  destruct (ClientOps.dp_remainingAccounts p) as [|m l] eqn:E.
  - unfold serializeDeferredPayload, Deferred.serializeDeferredPayload, payload_json, Deferred.payload_json,
      web3_payload. cbn. by rewrite E.
  - split; [|destruct (kit_reads_web3 p H) as (raw & Hr & Hm & Ht); exists raw; rewrite E in Hm; split_and!; try done].
    + by eapply web3_refuses_kit.
    + rewrite Hm. by rewrite length_fmap.
    + rewrite Hm. apply Forall_fmap, Forall_forall. done.
    + apply Ht. by rewrite E.
Qed.
End roundtrip.

(** ** Examples *)
Import ConcreteKit Sample.

#[export] Instance concrete_wire : Web3Wire (K := kit) := {|
  key_from := λ v, match v with
                   | Some (JStr s) => of_option (EExternal "PublicKey") (parse_address (Kit := kit) (js_string s))
                   | _ => Throw (EExternal "TypeError")
                   end;
  buffer_from := λ v, match v with
                      | Some (JStr s) => of_option (EExternal "base64") (base64_bytes (js_string s))
                      | _ => Throw (EExternal "TypeError")
                      end |}.

#[export] Instance concrete_wire_laws : Web3WireLaws concrete_wire.
Proof.
  split; [done|done|]. intros b. cbn [buffer_from concrete_wire]. by rewrite js_string_utf8, base64_round_trip.
Qed.

Lemma deferred_wires_compared_witness :
  deserializeDeferredPayload (K := kit) (Deferred.serializeDeferredPayload sample_payload) = Throw (EExternal "TypeError")
  ∧ ∃ raw, Deferred.deserializeDeferredPayload (serializeDeferredPayload (web3_payload sample_payload)) = Ok raw
    ∧ length (rw_remainingAccounts raw) = 2%nat.
Proof.
  destruct (deferred_wires_compared (KL := kit_laws) (V := concrete_wire) sample_payload sample_payload_ok)
    as (_ & _ & Ht & raw & Hr & Hl & _).
  split; [exact Ht|]. exists raw. split; [exact Hr|exact Hl].
Defined.
