(* ===== verification/LegacyErrors.v ===== *)
(** * Naming the program's errors

    Models [ERROR_NAMES], [errorFromCode] and [extractErrorCode] of
    src/sdk/sdk-legacy/src/utils/errors.ts, and the two enumerations of
    src/program/src/error.rs the names stand for.  A text is its characters. *)
From S2P Require Import Prelude Bytes.
From Stdlib Require Import Ascii.
Local Open Scope Z_scope.

(** ** What the program declares *)
Inductive AuthError :=
  | InvalidAuthorityPayload | PermissionDenied | InvalidInstruction | InvalidPubkey | InvalidMessageHash
  | SignatureReused | InvalidSignatureAge | InvalidSessionDuration | SessionExpired
  | AuthorityDoesNotSupportSession | InvalidAuthenticationKind | InvalidMessage | SelfReentrancyNotAllowed
  | DeferredAuthorizationExpired | DeferredHashMismatch | InvalidExpiryWindow | UnauthorizedReclaim
  | DeferredAuthorizationNotExpired | InvalidSessionAccount
  | ActionBufferInvalid | ActionProgramNotWhitelisted | ActionProgramBlacklisted | ActionSolMaxPerTxExceeded
  | ActionSolLimitExceeded | ActionSolRecurringLimitExceeded | ActionTokenLimitExceeded
  | ActionTokenRecurringLimitExceeded | ActionWhitelistBlacklistConflict | ActionTokenMaxPerTxExceeded
  | SessionVaultOwnerChanged | SessionVaultDataLenChanged | SessionTokenAuthorityChanged
  | DelegateRequiresPolicy | PolicyBearingAuthorityCannotDelegate | PolicyRankMismatch | SessionNotExpired
  | ActionUnlistedSolOutflow | ActionUnlistedTokenOutflow.

Inductive ProtocolError :=
  | ProtocolAlreadyInitialized | InvalidProtocolAdmin | InvalidIntegratorRecord | InsufficientFeeBalance
  | IntegratorAlreadyRegistered | InvalidTreasury | FeeAccountsRequired | ProtocolNotInitialized
  | InvalidTreasuryShard | InvalidFeeRecord | AccountVersionMismatch | FeeExceedsMaximum
  | UnauthorizedInitializer | NoPendingAdmin | WrongProgramAddress | RetiredDeployment.

(** [e as u32]. *)
Definition auth_code (e : AuthError) : Z :=
  match e with
  | InvalidAuthorityPayload => 3001 | PermissionDenied => 3002 | InvalidInstruction => 3003
  | InvalidPubkey => 3004 | InvalidMessageHash => 3005 | SignatureReused => 3006 | InvalidSignatureAge => 3007
  | InvalidSessionDuration => 3008 | SessionExpired => 3009 | AuthorityDoesNotSupportSession => 3010
  | InvalidAuthenticationKind => 3011 | InvalidMessage => 3012 | SelfReentrancyNotAllowed => 3013
  | DeferredAuthorizationExpired => 3014 | DeferredHashMismatch => 3015 | InvalidExpiryWindow => 3016
  | UnauthorizedReclaim => 3017 | DeferredAuthorizationNotExpired => 3018 | InvalidSessionAccount => 3019
  | ActionBufferInvalid => 3020 | ActionProgramNotWhitelisted => 3021 | ActionProgramBlacklisted => 3022
  | ActionSolMaxPerTxExceeded => 3023 | ActionSolLimitExceeded => 3024 | ActionSolRecurringLimitExceeded => 3025
  | ActionTokenLimitExceeded => 3026 | ActionTokenRecurringLimitExceeded => 3027
  | ActionWhitelistBlacklistConflict => 3028 | ActionTokenMaxPerTxExceeded => 3029
  | SessionVaultOwnerChanged => 3030 | SessionVaultDataLenChanged => 3031 | SessionTokenAuthorityChanged => 3032
  | DelegateRequiresPolicy => 3033 | PolicyBearingAuthorityCannotDelegate => 3034 | PolicyRankMismatch => 3035
  | SessionNotExpired => 3036 | ActionUnlistedSolOutflow => 3037 | ActionUnlistedTokenOutflow => 3038
  end.

Definition protocol_code (e : ProtocolError) : Z :=
  match e with
  | ProtocolAlreadyInitialized => 4001 | InvalidProtocolAdmin => 4002 | InvalidIntegratorRecord => 4004
  | InsufficientFeeBalance => 4005 | IntegratorAlreadyRegistered => 4006 | InvalidTreasury => 4007
  | FeeAccountsRequired => 4008 | ProtocolNotInitialized => 4009 | InvalidTreasuryShard => 4010
  | InvalidFeeRecord => 4011 | AccountVersionMismatch => 4013 | FeeExceedsMaximum => 4014
  | UnauthorizedInitializer => 4015 | NoPendingAdmin => 4016 | WrongProgramAddress => 4017
  | RetiredDeployment => 4018
  end.

(** The identifier of a variant. *)
Definition auth_name (e : AuthError) : string :=
  match e with
  | InvalidAuthorityPayload => "InvalidAuthorityPayload" | PermissionDenied => "PermissionDenied"
  | InvalidInstruction => "InvalidInstruction" | InvalidPubkey => "InvalidPubkey"
  | InvalidMessageHash => "InvalidMessageHash" | SignatureReused => "SignatureReused"
  | InvalidSignatureAge => "InvalidSignatureAge" | InvalidSessionDuration => "InvalidSessionDuration"
  | SessionExpired => "SessionExpired" | AuthorityDoesNotSupportSession => "AuthorityDoesNotSupportSession"
  | InvalidAuthenticationKind => "InvalidAuthenticationKind" | InvalidMessage => "InvalidMessage"
  | SelfReentrancyNotAllowed => "SelfReentrancyNotAllowed"
  | DeferredAuthorizationExpired => "DeferredAuthorizationExpired"
  | DeferredHashMismatch => "DeferredHashMismatch" | InvalidExpiryWindow => "InvalidExpiryWindow"
  | UnauthorizedReclaim => "UnauthorizedReclaim"
  | DeferredAuthorizationNotExpired => "DeferredAuthorizationNotExpired"
  | InvalidSessionAccount => "InvalidSessionAccount" | ActionBufferInvalid => "ActionBufferInvalid"
  | ActionProgramNotWhitelisted => "ActionProgramNotWhitelisted"
  | ActionProgramBlacklisted => "ActionProgramBlacklisted"
  | ActionSolMaxPerTxExceeded => "ActionSolMaxPerTxExceeded" | ActionSolLimitExceeded => "ActionSolLimitExceeded"
  | ActionSolRecurringLimitExceeded => "ActionSolRecurringLimitExceeded"
  | ActionTokenLimitExceeded => "ActionTokenLimitExceeded"
  | ActionTokenRecurringLimitExceeded => "ActionTokenRecurringLimitExceeded"
  | ActionWhitelistBlacklistConflict => "ActionWhitelistBlacklistConflict"
  | ActionTokenMaxPerTxExceeded => "ActionTokenMaxPerTxExceeded"
  | SessionVaultOwnerChanged => "SessionVaultOwnerChanged"
  | SessionVaultDataLenChanged => "SessionVaultDataLenChanged"
  | SessionTokenAuthorityChanged => "SessionTokenAuthorityChanged"
  | DelegateRequiresPolicy => "DelegateRequiresPolicy"
  | PolicyBearingAuthorityCannotDelegate => "PolicyBearingAuthorityCannotDelegate"
  | PolicyRankMismatch => "PolicyRankMismatch" | SessionNotExpired => "SessionNotExpired"
  | ActionUnlistedSolOutflow => "ActionUnlistedSolOutflow"
  | ActionUnlistedTokenOutflow => "ActionUnlistedTokenOutflow"
  end.

Definition protocol_name (e : ProtocolError) : string :=
  match e with
  | ProtocolAlreadyInitialized => "ProtocolAlreadyInitialized" | InvalidProtocolAdmin => "InvalidProtocolAdmin"
  | InvalidIntegratorRecord => "InvalidIntegratorRecord" | InsufficientFeeBalance => "InsufficientFeeBalance"
  | IntegratorAlreadyRegistered => "IntegratorAlreadyRegistered" | InvalidTreasury => "InvalidTreasury"
  | FeeAccountsRequired => "FeeAccountsRequired" | ProtocolNotInitialized => "ProtocolNotInitialized"
  | InvalidTreasuryShard => "InvalidTreasuryShard" | InvalidFeeRecord => "InvalidFeeRecord"
  | AccountVersionMismatch => "AccountVersionMismatch" | FeeExceedsMaximum => "FeeExceedsMaximum"
  | UnauthorizedInitializer => "UnauthorizedInitializer" | NoPendingAdmin => "NoPendingAdmin"
  | WrongProgramAddress => "WrongProgramAddress" | RetiredDeployment => "RetiredDeployment"
  end.

(** An error of either kind: [ProgramError::Custom(e as u32)]. *)
Abbreviation program_error := (AuthError + ProtocolError)%type.
Definition custom_code (e : program_error) : Z := match e with inl e => auth_code e | inr e => protocol_code e end.
Definition error_name (e : program_error) : string := match e with inl e => auth_name e | inr e => protocol_name e end.

(** ** What the SDK makes of it *)
Definition ERROR_NAMES : list (Z * string) :=
  [(3001, "InvalidAuthorityPayload"); (3002, "PermissionDenied"); (3003, "InvalidInstruction");
   (3004, "InvalidPubkey"); (3005, "InvalidMessageHash"); (3006, "SignatureReused");
   (3007, "InvalidSignatureAge"); (3008, "InvalidSessionDuration"); (3009, "SessionExpired");
   (3010, "AuthorityDoesNotSupportSession"); (3011, "InvalidAuthenticationKind"); (3012, "InvalidMessage");
   (3013, "SelfReentrancyNotAllowed"); (3014, "DeferredAuthorizationExpired"); (3015, "DeferredHashMismatch");
   (3016, "InvalidExpiryWindow"); (3017, "UnauthorizedReclaim"); (3018, "DeferredAuthorizationNotExpired");
   (3019, "InvalidSessionAccount"); (3020, "ActionBufferInvalid"); (3021, "ActionProgramNotWhitelisted");
   (3022, "ActionProgramBlacklisted"); (3023, "ActionSolMaxPerTxExceeded"); (3024, "ActionSolLimitExceeded");
   (3025, "ActionSolRecurringLimitExceeded"); (3026, "ActionTokenLimitExceeded");
   (3027, "ActionTokenRecurringLimitExceeded"); (3028, "ActionWhitelistBlacklistConflict");
   (3029, "ActionTokenMaxPerTxExceeded"); (3030, "SessionVaultOwnerChanged");
   (3031, "SessionVaultDataLenChanged"); (3032, "SessionTokenAuthorityChanged");
   (3033, "DelegateRequiresPolicy"); (3034, "PolicyBearingAuthorityCannotDelegate");
   (3035, "PolicyRankMismatch"); (3036, "SessionNotExpired"); (3037, "ActionUnlistedSolOutflow");
   (3038, "ActionUnlistedTokenOutflow"); (4001, "ProtocolAlreadyInitialized"); (4002, "InvalidProtocolAdmin");
   (4004, "InvalidIntegratorRecord"); (4005, "InsufficientFeeBalance"); (4006, "IntegratorAlreadyRegistered");
   (4007, "InvalidTreasury"); (4008, "FeeAccountsRequired"); (4009, "ProtocolNotInitialized");
   (4010, "InvalidTreasuryShard"); (4011, "InvalidFeeRecord"); (4013, "AccountVersionMismatch");
   (4014, "FeeExceedsMaximum"); (4015, "UnauthorizedInitializer"); (4016, "NoPendingAdmin");
   (4017, "WrongProgramAddress"); (4018, "RetiredDeployment")].

(** [ERROR_NAMES[code]]. *)
Definition errorFromCode (code : Z) : option string :=
  snd <$> List.find (λ entry, fst entry =? code) ERROR_NAMES.

(** The digits of the two patterns. *)
Definition decimal_digit (c : ascii) : option Z :=
  let n := Z.of_nat (nat_of_ascii c) in
  if (48 <=? n) && (n <=? 57) then Some (n - 48) else None.
Definition hex_digit (c : ascii) : option Z :=
  let n := Z.of_nat (nat_of_ascii c) in
  if (97 <=? n) && (n <=? 102) then Some (n - 87)
  else if (65 <=? n) && (n <=? 70) then Some (n - 55) else decimal_digit c.

(** The longest run of digits, and what follows it. *)
Fixpoint digit_run (digit : ascii → option Z) (s : list ascii) : list Z * list ascii :=
  match s with
  | c :: s' => match digit c with
               | Some d => let '(ds, rest) := digit_run digit s' in (d :: ds, rest)
               | None => ([], s)
               end
  | [] => ([], [])
  end.

(** [parseInt] of a run of digits. *)
Definition parse_int (radix : Z) (ds : list Z) : Z :=
  number_of_bigint (fold_left (λ n d, n * radix + d) ds 0).

Fixpoint strip_prefix (pre s : list ascii) : option (list ascii) :=
  match pre, s with
  | [], s => Some s
  | p :: pre, c :: s => if Ascii.eqb p c then strip_prefix pre s else None
  | _ :: _, [] => None
  end.

(** [msg.match(re)]: the first place the pattern holds at. *)
Fixpoint search {A} (pattern : list ascii → option A) (s : list ascii) : option A :=
  match pattern s with
  | Some a => Some a
  | None => match s with [] => None | _ :: s => search pattern s end
  end.

Definition preflight_literal : list ascii := String.list_ascii_of_string "custom program error: 0x".
Definition custom_literal : list ascii := String.list_ascii_of_string "Custom(".

Definition preflight_pattern (s : list ascii) : option Z :=
  rest ← strip_prefix preflight_literal s;
  match digit_run hex_digit rest with
  | ([], _) => None
  | (ds, _) => Some (parse_int 16 ds)
  end.
Definition custom_pattern (s : list ascii) : option Z :=
  rest ← strip_prefix custom_literal s;
  match digit_run decimal_digit rest with
  | ((_ :: _) as ds, c :: _) => if Ascii.eqb c ")" then Some (parse_int 10 ds) else None
  | _ => None
  end.

(** [msg] is [String(err)]. *)
Definition extractErrorCode (msg : list ascii) : option Z :=
  match search preflight_pattern msg with
  | Some code => Some code
  | None => search custom_pattern msg
  end.

(** ** The names are the program's *)

(** [{:x}] of Rust, as the runtime prints the code. *)
Definition hex_char (d : Z) : ascii := ascii_of_nat (Z.to_nat (if d <? 10 then d + 48 else d + 87)).
Fixpoint hex_from (fuel : nat) (n : Z) (acc : list ascii) : list ascii :=
  match fuel with
  | O => acc
  | S fuel => let acc := hex_char (n mod 16) :: acc in
              if n / 16 =? 0 then acc else hex_from fuel (n / 16) acc
  end.
Definition lower_hex (n : Z) : list ascii := hex_from 8 n [].

Definition preflight_text (e : program_error) : list ascii := preflight_literal ++ lower_hex (custom_code e).

(** The variants error.rs declares.  Three of them are raised nowhere:
    [AuthorityDoesNotSupportSession], [InvalidIntegratorRecord] and
    [InsufficientFeeBalance]. *)
Definition declared_errors : list program_error :=
  (inl <$>
    [InvalidAuthorityPayload; PermissionDenied; InvalidInstruction; InvalidPubkey; InvalidMessageHash;
     SignatureReused; InvalidSignatureAge; InvalidSessionDuration; SessionExpired;
     AuthorityDoesNotSupportSession; InvalidAuthenticationKind; InvalidMessage; SelfReentrancyNotAllowed;
     DeferredAuthorizationExpired; DeferredHashMismatch; InvalidExpiryWindow; UnauthorizedReclaim;
     DeferredAuthorizationNotExpired; InvalidSessionAccount; ActionBufferInvalid; ActionProgramNotWhitelisted;
     ActionProgramBlacklisted; ActionSolMaxPerTxExceeded; ActionSolLimitExceeded;
     ActionSolRecurringLimitExceeded; ActionTokenLimitExceeded; ActionTokenRecurringLimitExceeded;
     ActionWhitelistBlacklistConflict; ActionTokenMaxPerTxExceeded; SessionVaultOwnerChanged;
     SessionVaultDataLenChanged; SessionTokenAuthorityChanged; DelegateRequiresPolicy;
     PolicyBearingAuthorityCannotDelegate; PolicyRankMismatch; SessionNotExpired; ActionUnlistedSolOutflow;
     ActionUnlistedTokenOutflow])
  ++ (inr <$>
    [ProtocolAlreadyInitialized; InvalidProtocolAdmin; InvalidIntegratorRecord; InsufficientFeeBalance;
     IntegratorAlreadyRegistered; InvalidTreasury; FeeAccountsRequired; ProtocolNotInitialized;
     InvalidTreasuryShard; InvalidFeeRecord; AccountVersionMismatch; FeeExceedsMaximum;
     UnauthorizedInitializer; NoPendingAdmin; WrongProgramAddress; RetiredDeployment]).

Lemma names_of_declared : ERROR_NAMES = (λ e, (custom_code e, error_name e)) <$> declared_errors.
Proof. reflexivity. Qed.

Lemma named_only c n : errorFromCode c = Some n → ∃ e, custom_code e = c ∧ error_name e = n.
Proof.
  unfold errorFromCode. destruct (List.find _ _) as [[c' n']|] eqn:E; [|done]. intros [= <-].
  apply List.find_some in E as [Hin Hc]. apply Z.eqb_eq in Hc. cbn in Hc. subst c'.
  rewrite names_of_declared in Hin. apply list_elem_of_In, list_elem_of_fmap in Hin as (e & [= -> ->] & _). by exists e.
Qed.

Lemma strip_prefix_Some pre s rest : strip_prefix pre s = Some rest ↔ s = pre ++ rest.
Proof.
  revert s. induction pre as [|p pre IH]; intros s; cbn.
  { split; [by intros [= ->]|by intros ->]. }
  destruct s as [|c s]; [done|]. destruct (Ascii.eqb_spec p c) as [->|Hne].
  - rewrite IH. split; [by intros ->|by intros [= ->]].
  - split; [done|]. intros [= -> _]. by destruct Hne.
Qed.

Lemma search_skip {A} (pattern : list ascii → option A) pre s a :
  (∀ x y, pre = x ++ y → y ≠ [] → pattern (y ++ s) = None) → pattern s = Some a → search pattern (pre ++ s) = Some a.
Proof.
  intros Hn Ha. induction pre as [|c pre IH].
  - cbn. destruct s; cbn [search]; by rewrite Ha.
  - cbn [app search]. change (c :: pre ++ s) with ((c :: pre) ++ s).
    rewrite (Hn [] (c :: pre)) by done. apply IH. intros x y -> Hy. by apply (Hn (c :: x)).
Qed.

Lemma search_none {A} (pattern : list ascii → option A) s :
  (∀ x y, s = x ++ y → pattern y = None) → search pattern s = None.
Proof.
  intros H. induction s as [|c s IH]; cbn [search]; rewrite (H [] _) by done; [done|].
  apply IH. intros x y ->. by apply (H (c :: x)).
Qed.

Lemma digit_run_stops digit s rest ds :
  Forall2 (λ c d, digit c = Some d) s ds → (∀ c rest', rest = c :: rest' → digit c = None) →
  digit_run digit (s ++ rest) = (ds, rest).
Proof.
  intros H Hr. induction H as [|c d s ds Hc _ IH]; cbn [app digit_run].
  - destruct rest as [|c rest]; [done|]. cbn. by rewrite (Hr c rest).
  - by rewrite Hc, IH.
Qed.

(** No proper suffix of the literal is a prefix of it. *)
Lemma literal_borderless k : (0 < k < 24)%nat → drop k preflight_literal ≠ take (24 - k) preflight_literal.
Proof.
  intros Hk. assert (H : k ∈ seq 1 23) by (apply elem_of_seq; lia). revert H.
  cbn [seq]. rewrite !elem_of_cons, elem_of_nil. intros H.
  repeat (destruct H as [->|H]; [vm_compute; discriminate|]). done.
Qed.

(** A literal that starts in [y] and is not all in it cannot reach one that follows. *)
Lemma literal_apart y rest z : y ≠ [] → (¬ ∃ b, y = preflight_literal ++ b) →
  y ++ preflight_literal ++ rest ≠ preflight_literal ++ z.
Proof.
  intros Hy Hno E. destruct (decide (24 <= length y)%nat) as [Hl|Hl].
  - apply Hno. exists (drop 24 y). apply (f_equal (take 24)) in E.
    rewrite take_app_le, (take_app_length' preflight_literal) in E by done.
    by rewrite <- (take_drop 24 y) at 1; rewrite E.
  - assert (0 < length y)%nat by (destruct y; [done|cbn; lia]).
    apply (literal_borderless (length y)); [lia|].
    apply (f_equal (drop (length y))) in E. rewrite drop_app_length in E.
    rewrite drop_app_le in E by (cbn; lia).
    apply (f_equal (take (24 - length y))) in E. rewrite take_app_le in E by (cbn; lia).
    rewrite take_app_length' in E by (rewrite length_drop; cbn; lia). done.
Qed.

(** ** Reading a printed code back *)
Lemma hex_digit_char d : 0 <= d < 16 → hex_digit (hex_char d) = Some d.
Proof.
  intros H. assert (Hd : d ∈ seqZ 0 16) by (apply elem_of_seqZ; lia). revert Hd.
  change (seqZ 0 16) with [0; 1; 2; 3; 4; 5; 6; 7; 8; 9; 10; 11; 12; 13; 14; 15].
  rewrite !elem_of_cons, elem_of_nil. intros Hd. repeat (destruct Hd as [->|Hd]; [reflexivity|]). done.
Qed.

Abbreviation of_digits := (fold_left (λ n d, n * 16 + d)).

Lemma hex_from_digits fuel n acc dacc : 0 <= n < 16 ^ Z.of_nat fuel → (0 < fuel)%nat →
  Forall2 (λ c d, hex_digit c = Some d) acc dacc →
  ∃ ds, ds ≠ [] ∧ of_digits ds 0 = n ∧ Forall2 (λ c d, hex_digit c = Some d) (hex_from fuel n acc) (ds ++ dacc).
Proof.
  revert n acc dacc. induction fuel as [|fuel IH]; intros n acc dacc Hn Hf Ha; [lia|].
  pose proof (Z.mod_pos_bound n 16 ltac:(lia)). pose proof (Z.div_mod n 16 ltac:(lia)).
  assert (Ha' : Forall2 (λ c d, hex_digit c = Some d) (hex_char (n mod 16) :: acc) (n mod 16 :: dacc))
    by (constructor; [by apply hex_digit_char|done]).
  cbn [hex_from]. destruct (Z.eqb_spec (n / 16) 0) as [E|E].
  - exists [n mod 16]. split_and!; [done|cbn; lia|exact Ha'].
  - rewrite Nat2Z.inj_succ, Z.pow_succ_r in Hn by lia.
    assert (0 <= n / 16) by (apply Z.div_pos; lia).
    destruct (IH (n / 16) _ _ ltac:(split; [done|apply Z.div_lt_upper_bound; lia])
      ltac:(destruct fuel; [cbn in Hn; exfalso; apply E; apply Z.div_small; lia|lia]) Ha') as (ds & Hne & Hds & H2).
    exists (ds ++ [n mod 16]). split_and!; [by destruct ds| |by rewrite <- app_assoc].
    rewrite fold_left_app, Hds. cbn [fold_left]. lia.
Qed.

Lemma lower_hex_parses code post : 0 <= code < 2 ^ 32 →
  (∀ c post', post = c :: post' → hex_digit c = None) →
  preflight_pattern (preflight_literal ++ lower_hex code ++ post) = Some code.
Proof.
  intros Hc Hp. destruct (hex_from_digits 8 code [] []) as (ds & Hne & Hds & H2); [by cbn in *|lia|constructor|].
  unfold preflight_pattern. rewrite (proj2 (strip_prefix_Some _ _ _) eq_refl). cbn [mbind option_bind].
  rewrite app_nil_r in H2. unfold lower_hex. rewrite (digit_run_stops _ _ _ _ H2 Hp).
  destruct ds as [|d ds]; [done|]. unfold parse_int. by rewrite Hds, number_of_small by lia.
Qed.

Lemma preflight_read pre code post : 0 <= code < 2 ^ 32 →
  (¬ ∃ a b, pre = a ++ preflight_literal ++ b) → (∀ c post', post = c :: post' → hex_digit c = None) →
  extractErrorCode (pre ++ preflight_literal ++ lower_hex code ++ post) = Some code.
Proof.
  intros Hc Hno Hp. unfold extractErrorCode. erewrite search_skip; [done| |by apply lower_hex_parses].
  intros x y -> Hy. unfold preflight_pattern.
  destruct (strip_prefix _ _) as [z|] eqn:E; [|done]. apply strip_prefix_Some in E. exfalso.
  revert E. apply literal_apart; [done|]. intros [b ->]. apply Hno. by exists x, b.
Qed.

Lemma unreadable_text msg : "x"%char ∉ msg → "("%char ∉ msg → extractErrorCode msg = None.
Proof.
  intros Hx Hp. unfold extractErrorCode. rewrite !search_none; [done| |].
  - intros a b ->. unfold custom_pattern. destruct (strip_prefix _ _) as [z|] eqn:E; [|done].
    apply strip_prefix_Some in E as ->. exfalso. apply Hp. cbn. rewrite elem_of_app, !elem_of_cons. tauto.
  - intros a b ->. unfold preflight_pattern. destruct (strip_prefix _ _) as [z|] eqn:E; [|done].
    apply strip_prefix_Some in E as ->. exfalso. apply Hx. cbn. rewrite elem_of_app, !elem_of_cons. tauto.
Qed.

(** C37.  The SDK's table of custom error codes is the program's declaration of
    them: [errorFromCode] gives the code of every variant of [AuthError] and
    [ProtocolError] the variant's name, raised somewhere or not, and no other code
    a name; the runtime's built-in errors have no code here and no name.
    [extractErrorCode] reads back the code the runtime prints in hexadecimal,
    whatever 32-bit code it is, where the phrase first stands in the text and no
    further hexadecimal digit follows; it finds none in a text with neither an
    [x] nor a parenthesis, such as a landed error's JSON form. *)
Theorem program_errors_named :
  (∀ e, errorFromCode (custom_code e) = Some (error_name e))
  ∧ (∀ code n, errorFromCode code = Some n → ∃ e, custom_code e = code ∧ error_name e = n)
  ∧ (∀ pre code post, 0 <= code < 2 ^ 32 → (¬ ∃ a b, pre = a ++ preflight_literal ++ b) →
       (∀ c post', post = c :: post' → hex_digit c = None) →
       extractErrorCode (pre ++ preflight_literal ++ lower_hex code ++ post) = Some code)
  ∧ (∀ msg, "x"%char ∉ msg → "("%char ∉ msg → extractErrorCode msg = None).
Proof.
  split_and!; [by intros [[]|[]]|apply named_only|apply preflight_read|apply unreadable_text].
Qed.

(** ** Examples *)
Lemma program_errors_named_witness :
  extractErrorCode (String.list_ascii_of_string
    "Transaction simulation failed: Error processing Instruction 1: custom program error: 0xbbe. Logs:") = Some 3006
  ∧ errorFromCode 3006 = Some "SignatureReused"%string
  ∧ extractErrorCode (String.list_ascii_of_string "InstructionError: [1, { Custom: 3006 }]") = None
  ∧ extractErrorCode (String.list_ascii_of_string "InstructionError(1, Custom(3006))") = Some 3006.
Proof.
  destruct program_errors_named as (Hn & _ & Hr & Hu). split_and!.
  - refine (Hr (String.list_ascii_of_string "Transaction simulation failed: Error processing Instruction 1: ") 3006
      (String.list_ascii_of_string ". Logs:") _ _ _).
    + lia.
    + intros (a & b & E). apply (f_equal (λ l, bool_decide ("x"%char ∈ l))) in E.
      rewrite (bool_decide_eq_true_2 ("x"%char ∈ a ++ preflight_literal ++ b)) in E; [vm_compute in E; discriminate E|].
      rewrite elem_of_app. right. cbn. rewrite !elem_of_cons. tauto.
    + intros c post' [= <- _]. reflexivity.
  - exact (Hn (inl SignatureReused)).
  - apply Hu; intros H; apply (bool_decide_eq_true_2 _) in H; vm_compute in H; discriminate H.
  - reflexivity.
Defined.
