(* ===== verification/LegacyTransfer.v ===== *)
(** * Sending SOL, and the lookup table of the web3.js SDK

    Models [transferSol] of src/sdk/sdk-legacy/src/utils/client.ts and
    [createAndExtendLut] of src/sdk/sdk-legacy/src/utils/transactions.ts.  The
    instructions of web3.js ([SystemProgram], [AddressLookupTableProgram]) and what
    the connection answers are parameters. *)
From S2P Require Import Prelude Bytes Kit Constants JsMap Builders Signing ChallengeReads Client.
From S2P Require Import Samples.
From S2P Require Import LegacyWeb3 LegacyBuilders LegacyCompact LegacyActions LegacyReads LegacyCalls LegacyHelpers LegacyVetting LegacyClient.
Local Open Scope Z_scope.

(** ** transferSol *)

(** [bigint | number]; a number here is an integer. *)
Inductive Lamports := LBigint (n : Z) | LNumber (n : Z).

Section transfer.
Context `{K : Kit} {W : Web3Pda}.
(** [SystemProgram.transfer({ fromPubkey, toPubkey, lamports })]. *)
Variable system_transfer : address → address → Z → result TransactionInstruction.
Variable env : Web3Env.
Variable programId : address.
Variable protocolFees : bool.

Definition lamports_amount (lamports : Lamports) : Z :=
  match lamports with LBigint n => number_of_bigint n | LNumber n => n end.

Definition transferSol (payer walletPda : address) (signer : ExecuteSigner) (recipient : address)
    (lamports : Lamports) : L (list TransactionInstruction) :=
  '(vaultPda, _) ← LegacyVetting.findVault programId walletPda;
  ix ← lift3 (system_transfer vaultPda recipient (lamports_amount lamports));
  LegacyClient.execute env programId protocolFees payer walletPda signer [ix] None.
End transfer.

(** ** createAndExtendLut *)
Section lut.
Context `{K : Kit}.
Variable Table : Type.

(** [AddressLookupTableProgram]: the instruction that creates a table (with the
    table's address) and the one that extends it. *)
Record LutProgram := mkLutProgram {
  createLookupTable : address → address → Z → TransactionInstruction * address;
  extendLookupTable : address → address → address → list address → TransactionInstruction;
}.

(** What the connection answers to the [n]-th call. *)
Record Chain := mkChain {
  ch_getSlot : nat → result Z;
  ch_send : nat → TransactionInstruction → result unit;
  ch_getTable : nat → address → result (option Table);
}.

(** The calls made, and the instructions that were sent and confirmed. *)
Record Progress := mkProgress { pr_calls : nat; pr_sent : list TransactionInstruction }.

Definition T (A : Type) : Type := Progress → Progress * result A.
#[local] Instance T_ret : MRet T := λ A a s, (s, Ok a).
#[local] Instance T_bind : MBind T := λ A B f m s,
  match m s with (s, Ok a) => f a s | (s, Throw e) => (s, Throw e) end.

Variable lib : LutProgram.
Variable chain : Chain.

Definition get_slot : T Z := λ s, (mkProgress (S (pr_calls s)) (pr_sent s), ch_getSlot chain (pr_calls s)).
Definition send (ix : TransactionInstruction) : T unit := λ s,
  match ch_send chain (pr_calls s) ix with
  | Ok _ => (mkProgress (S (pr_calls s)) (pr_sent s ++ [ix]), Ok ())
  | Throw e => (mkProgress (S (pr_calls s)) (pr_sent s), Throw e)
  end.
Definition get_table (a : address) : T (option Table) := λ s,
  (mkProgress (S (pr_calls s)) (pr_sent s), ch_getTable chain (pr_calls s) a).
Definition raise {A} (e : error) : T A := λ s, (s, Throw e).

(** [for (let i = 0; i < addresses.length; i += 30)]. *)
Fixpoint extend_all (fuel : nat) (authority lutAddress : address) (addresses : list address) : T unit :=
  match fuel, addresses with
  | S fuel, _ :: _ =>
    _ ← send (extendLookupTable lib authority authority lutAddress (take 30 addresses));
    extend_all fuel authority lutAddress (drop 30 addresses)
  | _, _ => mret ()
  end.

(** [while ((await getSlot) < target)], as many turns as [fuel]. *)
Fixpoint wait_slot (fuel : nat) (target : Z) : T unit :=
  match fuel with
  | O => raise (EExternal "pending")
  | S fuel =>
    slot ← get_slot;
    if slot <? target then wait_slot fuel target else mret ()
  end.

Definition createAndExtendLut (fuel : nat) (authority : address) (addresses : list address) : T Table :=
  recentSlot ← get_slot;
  let '(createIx, lutAddress) := createLookupTable lib authority authority recentSlot in
  _ ← send createIx;
  _ ← extend_all (length addresses) authority lutAddress addresses;
  slot ← get_slot;
  _ ← wait_slot fuel (slot + 1);
  loaded ← get_table lutAddress;
  match loaded with
  | Some table => mret table
  | None => raise (EExternal "Lookup table not found after extend")
  end.
End lut.

(** ** The amount that is sent *)
Section amount.
Context `{K : Kit} {W : Web3Pda}.
Variable system_transfer : address → address → Z → result TransactionInstruction.
Variable env : Web3Env.
Variable programId : address.
Variable protocolFees : bool.
Variables (payer walletPda recipient : address) (signer : ExecuteSigner).

(** A bigint is sent exactly up to [2 ^ 53] lamports; one more lamport than that is
    sent as [2 ^ 53]. *)
Lemma transfer_sol_rounds :
  let run lamports := transferSol system_transfer env programId protocolFees payer walletPda signer recipient lamports in
  (∀ n, 0 <= n <= 2 ^ 53 → run (LBigint n) = run (LNumber n))
  ∧ run (LBigint (2 ^ 53 + 1)) = run (LNumber (2 ^ 53)).
Proof.
  cbv zeta. split; [|reflexivity]. intros n Hn. unfold transferSol. cbn [lamports_amount].
  by rewrite number_of_small.
Qed.
End amount.

(** ** The table holds the addresses *)
Section table.
Context `{K : Kit}.
Variable Table : Type.
Variable lib : LutProgram.
Variable chain : Chain Table.
Abbreviation create := (createAndExtendLut Table lib chain).
Abbreviation extension authority lut := (extendLookupTable lib authority authority lut).

(** The chunks the loop sends. *)
Fixpoint chunks_of (fuel : nat) (addresses : list address) : list (list address) :=
  match fuel, addresses with
  | S fuel, _ :: _ => take 30 addresses :: chunks_of fuel (drop 30 addresses)
  | _, _ => []
  end.

Lemma chunks_concat fuel l : (length l <= fuel)%nat → concat (chunks_of fuel l) = l.
Proof.
  revert l. induction fuel as [|fuel IH]; intros l Hl; [by destruct l; [|cbn in Hl; lia]|].
  destruct l as [|a l]; [done|]. cbn [chunks_of concat]. rewrite IH; [by rewrite take_drop|].
  rewrite length_drop, length_cons in *. lia.
Qed.

Lemma chunks_small fuel l : Forall (λ c, 0 < length c <= 30)%nat (chunks_of fuel l).
Proof.
  revert l. induction fuel as [|fuel IH]; intros l; [constructor|]. destruct l as [|a l]; [constructor|].
  constructor; [|apply IH]. rewrite length_take, length_cons. lia.
Qed.

Lemma extend_all_sends fuel authority lut l s s' :
  extend_all Table lib chain fuel authority lut l s = (s', Ok ()) →
  pr_sent s' = pr_sent s ++ (extension authority lut <$> chunks_of fuel l).
Proof.
  revert l s. induction fuel as [|fuel IH]; intros l s; [intros [= <-]; by rewrite app_nil_r|].
  destruct l as [|a l]; [intros [= <-]; by rewrite app_nil_r|]. cbn [extend_all chunks_of].
  unfold mbind, T_bind, send. destruct (ch_send _ _ _ _); [|done]. intros H%IH. rewrite H. cbn [pr_sent].
  by rewrite fmap_cons, <- app_assoc.
Qed.

Lemma wait_slot_sends fuel target s s' : wait_slot Table chain fuel target s = (s', Ok ()) → pr_sent s' = pr_sent s.
Proof.
  revert s. induction fuel as [|fuel IH]; intros s; [done|]. cbn [wait_slot]. unfold mbind, T_bind, get_slot.
  destruct (ch_getSlot _ _ _) as [z|]; [|done]. destruct (z <? target); [intros H%IH; by rewrite H|by intros [= <-]].
Qed.

Lemma lut_safe fuel authority addresses s table :
  create fuel authority addresses (mkProgress 0 []) = (s, Ok table) →
  ∃ recentSlot createIx lut chunks n,
    ch_getSlot Table chain 0 = Ok recentSlot
    ∧ createLookupTable lib authority authority recentSlot = (createIx, lut)
    ∧ pr_sent s = createIx :: (extension authority lut <$> chunks)
    ∧ concat chunks = addresses ∧ Forall (λ c, 0 < length c <= 30)%nat chunks
    ∧ ch_getTable Table chain n lut = Ok (Some table).
Proof.
  unfold createAndExtendLut, mbind, T_bind at 1, get_slot at 1. cbn [pr_calls pr_sent].
  destruct (ch_getSlot Table chain 0) as [recentSlot|]; [|done].
  destruct (createLookupTable lib authority authority recentSlot) as [createIx lut] eqn:Ec.
  unfold T_bind at 1, send. cbn [pr_calls pr_sent app]. destruct (ch_send _ _ _ _); [|done].
  unfold T_bind at 1. destruct (extend_all _ _ _ _ _ _ _ _) as [s1 [[]|]] eqn:E1; [|done].
  unfold T_bind at 1, get_slot at 1. destruct (ch_getSlot Table chain (pr_calls s1)) as [slot|]; [|done].
  unfold T_bind at 1. destruct (wait_slot _ _ _ _ _) as [s2 [[]|]] eqn:E2; [|done].
  unfold T_bind, get_table. destruct (ch_getTable _ _ _ _) as [[t|]|] eqn:Et; [|done|done].
  intros [= <- <-]. apply extend_all_sends in E1. apply wait_slot_sends in E2. cbn [pr_sent pr_calls app] in *.
  exists recentSlot, createIx, lut, (chunks_of (length addresses) addresses), (pr_calls s2).
  split_and!; [done|done|by rewrite E2, E1|by apply chunks_concat|apply chunks_small|done].
Qed.

(** ** It returns *)
Section live.
Variable slot : nat → Z.
Variable lag : nat.
Hypothesis slots : ∀ n, ch_getSlot Table chain n = Ok (slot n).
Hypothesis advances : ∀ n, ∃ m, (n < m <= n + lag)%nat ∧ slot n < slot m.
Hypothesis sends : ∀ n ix, ch_send Table chain n ix = Ok ().

Lemma extend_all_returns fuel authority lut l s : ∃ s', extend_all Table lib chain fuel authority lut l s = (s', Ok ()).
Proof.
  revert l s. induction fuel as [|fuel IH]; intros l s; [by eexists|]. destruct l as [|a l]; [by eexists|].
  cbn [extend_all]. unfold mbind, T_bind, send. rewrite sends. apply IH.
Qed.

Lemma wait_slot_returns fuel target m s : (pr_calls s <= m < pr_calls s + fuel)%nat → target <= slot m →
  ∃ s', wait_slot Table chain fuel target s = (s', Ok ()).
Proof.
  revert s. induction fuel as [|fuel IH]; intros s Hm Ht; [lia|]. cbn [wait_slot].
  unfold mbind, T_bind, get_slot. rewrite slots. destruct (Z.ltb_spec (slot (pr_calls s)) target); [|by eexists].
  apply IH; [|done]. cbn [pr_calls]. assert (m ≠ pr_calls s) by (intros ->; lia). lia.
Qed.

Lemma lut_returns fuel authority addresses table : (lag <= fuel)%nat →
  (∀ n lut, ch_getTable Table chain n lut = Ok (Some table)) →
  ∃ s, create fuel authority addresses (mkProgress 0 []) = (s, Ok table).
Proof.
  intros Hf Ht. unfold createAndExtendLut, mbind, T_bind at 1, get_slot at 1. rewrite slots.
  destruct (createLookupTable _ _ _ _) as [createIx lut].
  unfold T_bind at 1, send. rewrite sends. unfold T_bind at 1.
  destruct (extend_all_returns (length addresses) authority lut addresses
    (mkProgress 2 [createIx])) as [s1 E1]. cbn [pr_calls pr_sent app]. rewrite E1.
  unfold T_bind at 1, get_slot at 1. rewrite slots. unfold T_bind at 1.
  destruct (advances (pr_calls s1)) as (m & Hm & Hs).
  destruct (wait_slot_returns fuel (slot (pr_calls s1) + 1) m (mkProgress (S (pr_calls s1)) (pr_sent s1))) as [s2 E2].
  { cbn [pr_calls]. lia. }
  { lia. }
  rewrite E2. unfold T_bind, get_table. rewrite Ht. by eexists.
Qed.
End live.

(** [createAndExtendLut] puts the given addresses in the table: when it returns,
    it sent the instruction that creates the table and then, in order, extensions
    of 1 to 30 addresses each that are together exactly the given addresses, and the
    table it returns is the one the node reports at the created address.  It
    returns once the sends are confirmed, the node reports the table and its slot
    moves on within [lag] reads. *)
Theorem lookup_table_extended (authority : address) (addresses : list address) (fuel : nat) :
  (∀ s table, create fuel authority addresses (mkProgress 0 []) = (s, Ok table) →
     ∃ recentSlot createIx lut chunks n,
       ch_getSlot Table chain 0 = Ok recentSlot
       ∧ createLookupTable lib authority authority recentSlot = (createIx, lut)
       ∧ pr_sent s = createIx :: (extension authority lut <$> chunks)
       ∧ concat chunks = addresses ∧ Forall (λ c, 0 < length c <= 30)%nat chunks
       ∧ ch_getTable Table chain n lut = Ok (Some table))
  ∧ ∀ slot lag table, (∀ n, ch_getSlot Table chain n = Ok (slot n)) →
      (∀ n, ∃ m, (n < m <= n + lag)%nat ∧ slot n < slot m) → (lag <= fuel)%nat →
      (∀ n ix, ch_send Table chain n ix = Ok ()) →
      (∀ n lut, ch_getTable Table chain n lut = Ok (Some table)) →
      ∃ s, create fuel authority addresses (mkProgress 0 []) = (s, Ok table).
Proof.
  split; [intros s table; apply lut_safe|]. intros slot lag table Hs Ha Hf Hn Ht.
  by apply (lut_returns slot lag).
Qed.
End table.

(** ** Examples *)
Import ConcreteKit Sample.

Definition sample_lib : @LutProgram kit := mkLutProgram (K := kit)
  (λ authority payer slot, (mkTi (at_byte 90) [mkKey authority true false] [u8 0; u8 slot], at_byte 91))
  (λ payer authority lut l, mkTi (at_byte 90) [mkKey lut false true] (u8 2 :: concat (address_encode <$> l))).
Definition sample_chain : @Chain kit nat := mkChain (K := kit) nat
  (λ n, Ok (Z.of_nat n)) (λ _ _, Ok ()) (λ _ _, Ok (Some 7%nat)).
Definition sample_addresses : list addr := (λ i, at_byte (Z.of_nat i)) <$> seq 1 31.

Lemma sample_sends : length (pr_sent (createAndExtendLut (K := kit) nat sample_lib sample_chain 1 wallet
  sample_addresses (mkProgress 0 [])).1) = 3%nat.
Proof. vm_compute. reflexivity. Qed.

Lemma lookup_table_extended_witness :
  ∃ s, createAndExtendLut (K := kit) nat sample_lib sample_chain 1 wallet sample_addresses (mkProgress 0 []) = (s, Ok 7%nat)
    ∧ ∃ createIx lut chunks, pr_sent s = createIx :: (extendLookupTable sample_lib wallet wallet lut <$> chunks)
      ∧ concat chunks = sample_addresses ∧ length (pr_sent s) = 3%nat.
Proof.
  destruct (lookup_table_extended (K := kit) nat sample_lib sample_chain wallet sample_addresses 1) as [Hs Hl].
  destruct (Hl Z.of_nat 1%nat 7%nat) as [s E]; [done| |done|done|done|].
  { intros n. exists (S n). lia. }
  exists s. split; [exact E|]. destruct (Hs _ _ E) as (slot & createIx & lut & chunks & n & _ & _ & Hp & Hc & _).
  exists createIx, lut, chunks. split_and!; [exact Hp|exact Hc|].
  pose proof sample_sends as Hn. rewrite E in Hn. exact Hn.
Defined.
