(* ===== verification/LegacyStatus.v ===== *)
(** * The wallet's authorities and its recoverability, from the program's accounts

    [findAuthoritiesByWallet] and [getRecoveryStatus] of the web3.js client (in
    [LegacyVetting]) read accounts at fixed offsets; here they read the structs the
    program stores ([Accounts]): an authority is its header, its key material (32
    bytes for an Ed25519 key; a credential hash, a P-256 key and a relying-party
    hash for a passkey) and its policy. *)
From S2P Require Import Prelude Bytes Kit Constants Accounts Samples.
From S2P Require Import LegacyReads LegacyCalls LegacyVetting.
Local Open Scope Z_scope.

Section status.
Context `{KL : KitLaws}.

(** An authority as the program stores it. *)
Record Stored := mkStored {
  st_pda : address;
  st_type : Z;
  st_role : Z;
  st_bump : Z;
  st_version : Z;
  st_counter : Z;
  st_wallet : address;
  st_key : bytes;
  st_policy : bytes;
}.

Definition st_image (s : Stored) : bytes :=
  AuthorityAccountHeader DISC_AUTHORITY (st_type s) (st_role s) (st_bump s) (st_version s) (zeros 3) (st_counter s)
    (Z.of_nat (length (st_policy s))) (zeros 2) (st_wallet s) ++ st_key s ++ st_policy s.

Definition st_ok (s : Stored) : Prop :=
  Forall (λ v, 0 <= v < 256) [st_type s; st_role s; st_bump s; st_version s]
  ∧ 0 <= st_counter s < 2 ^ 32 ∧ Z.of_nat (length (st_policy s)) < 2 ^ 16
  ∧ length (st_key s) = if st_type s =? AUTH_TYPE_SECP256R1 then 97%nat else 32%nat.

(** The summary the client should give. *)
Definition st_summary (s : Stored) : AuthoritySummary :=
  mkSummary (st_pda s) (Some (st_role s)) (Some (st_type s)) (st_counter s) (Z.of_nat (length (st_policy s)))
    (negb (bool_decide (st_policy s = []))) (if decide (st_policy s = []) then None else Some (st_policy s)).

Lemma getUint_field w v data off a c :
  data = a ++ le_split w v ++ c → off = length a → 0 <= v < 2 ^ (Z.of_nat w * 8) → getUint w off data = Ok v.
Proof.
  intros -> -> Hv. rewrite getUint_mid by (rewrite ?length_le_split; done). by rewrite le_combine_small.
Qed.

Lemma image_fields s : st_ok s →
  let d := st_image s in
  getUint 2 12 d = Ok (Z.of_nat (length (st_policy s))) ∧ readU32 d 8 = Ok (st_counter s)
  ∧ byte_at d 1 = Some (st_type s) ∧ byte_at d 2 = Some (st_role s).
Proof.
  intros (Hb & Hc & Hp & _). cbv zeta. rewrite !Forall_cons in Hb. destruct Hb as (? & ? & ? & ? & _).
  unfold st_image, AuthorityAccountHeader. rewrite <- !app_assoc.
  set (h := [u8 DISC_AUTHORITY; u8 (st_type s); u8 (st_role s); u8 (st_bump s); u8 (st_version s)]).
  split_and!.
  - apply (getUint_field 2 _ _ 12 (h ++ zeros 3 ++ le_split 4 (st_counter s))
      (zeros 2 ++ address_encode (st_wallet s) ++ st_key s ++ st_policy s)); [by rewrite <- ?app_assoc|done|lia].
  - apply (getUint_field 4 _ _ 8 (h ++ zeros 3) (le_split 2 (Z.of_nat (length (st_policy s))) ++ zeros 2
      ++ address_encode (st_wallet s) ++ st_key s ++ st_policy s)); [by rewrite <- ?app_assoc|done|lia].
  - unfold byte_at. cbn [app lookup list_lookup h fmap option_fmap option_map]. by rewrite val_u8, Z.mod_small.
  - unfold byte_at. cbn [app lookup list_lookup h fmap option_fmap option_map]. by rewrite val_u8, Z.mod_small.
Qed.

Lemma image_length s : st_ok s → length (st_image s) = (48 + length (st_key s) + length (st_policy s))%nat.
Proof.
  intros _. unfold st_image, AuthorityAccountHeader. autorewrite with lazor_len. cbn. lia.
Qed.

Lemma image_policy s : st_ok s →
  slice (48 + length (st_key s)) (48 + length (st_key s) + length (st_policy s)) (st_image s) = st_policy s.
Proof.
  intros Hs. pose proof (image_length s Hs) as Hl. unfold st_image in *. rewrite app_assoc in *.
  rewrite length_app in Hl. revert Hl. generalize (AuthorityAccountHeader DISC_AUTHORITY (st_type s) (st_role s)
    (st_bump s) (st_version s) (zeros 3) (st_counter s) (Z.of_nat (length (st_policy s))) (zeros 2) (st_wallet s)
    ++ st_key s) as h. intros h Hl. rewrite <- (app_nil_r (h ++ st_policy s)), <- app_assoc. apply slice_mid; lia.
Qed.

Lemma summary_reads s owner lamports : st_ok s →
  summary_of (st_pda s, mkInfo owner lamports (st_image s)) = Ok (st_summary s).
Proof.
  intros Hs. destruct (image_fields s Hs) as (Hp & Hc & Ht & Hr). pose proof (image_length s Hs) as Hl.
  pose proof (image_policy s Hs) as Hpol. destruct Hs as (_ & _ & _ & Hk).
  unfold summary_of. cbn [fst snd ai_data]. rewrite Hp, bind_ok, Hc, bind_ok, Hr, Ht.
  unfold byte_is. rewrite Ht. rewrite Nat2Z.id.
  replace (if st_type s =? AUTH_TYPE_SECP256R1 then 145%nat else 80%nat) with (48 + length (st_key s))%nat
    by (rewrite Hk; by destruct (st_type s =? AUTH_TYPE_SECP256R1)).
  rewrite Hpol, Hl, Nat.leb_refl, andb_true_r. unfold st_summary.
  destruct (st_policy s) as [|b l]; [done|].
  rewrite decide_False, bool_decide_eq_false_2 by done. cbn [length].
  by destruct (Z.ltb_spec 0 (Z.of_nat (S (length l)))); [|lia].
Qed.

Lemma summaries_read (stored : list Stored) (rows : list (address * AccountInfo)) :
  Forall st_ok stored → Forall2 (λ s r, r.1 = st_pda s ∧ ai_data r.2 = st_image s) stored rows →
  mapR summary_of rows = Ok (st_summary <$> stored).
Proof.
  intros Hs H2. induction H2 as [|s [a [owner lamports data]] stored rows [Ha Hd] _ IH]; [done|].
  apply Forall_cons in Hs as [Hok Hs]. cbn in Ha, Hd. subst. cbn [mapR].
  by rewrite summary_reads, bind_ok, IH, bind_ok.
Qed.

Lemma recovery_reads disc bump version p owners rest : length p = 1%nat → 0 <= owners < 2 ^ 32 →
  readU32 (WalletAccount disc bump version p owners ++ rest) 4 = Ok owners.
Proof.
  intros Hp Ho. unfold WalletAccount. rewrite <- !app_assoc.
  apply (getUint_field 4 _ _ 4 ([u8 disc; u8 bump; u8 version] ++ p) rest); [by rewrite <- ?app_assoc| |lia].
  rewrite length_app, Hp. done.
Qed.

(** C38.  What the program stored is what the client shows.  When the node answers
    with the accounts of a wallet's authorities, [findAuthoritiesByWallet] lists
    each with its role, type, signature counter and policy, the policy bytes
    exactly when it has one.  [getRecoveryStatus] reports the number of owners in
    the wallet's account, recoverable with two or more, and throws when there is
    no such account or it is shorter than the wallet struct. *)
Theorem web3_status_reads_program (env : Web3Env) (programId walletPda : address) (c : web3_client) :
  (∀ slot stored rows,
     l_getProgramAccounts env (l_asked c) programId
       [(0%nat, [u8 DISC_AUTHORITY]); (16%nat, address_encode walletPda)] None = Ok (slot, rows) →
     Forall st_ok stored → Forall2 (λ s r, r.1 = st_pda s ∧ ai_data r.2 = st_image s) stored rows →
     (findAuthoritiesByWallet env programId walletPda c).2 = Ok (st_summary <$> stored))
  ∧ (∀ info, l_getAccountInfo env (l_asked c) walletPda = Ok info →
     match info with
     | Some i => ∀ disc bump version p owners rest, length p = 1%nat → 0 <= owners < 2 ^ 32 →
         ai_data i = WalletAccount disc bump version p owners ++ rest →
         (getRecoveryStatus env walletPda c).2 = Ok (mkRecovery owners (1 <? owners))
     | None => (getRecoveryStatus env walletPda c).2 = Throw EWalletNotFound
     end)
  ∧ (∀ i, l_getAccountInfo env (l_asked c) walletPda = Ok (Some i) → (length (ai_data i) < 8)%nat →
     (getRecoveryStatus env walletPda c).2 = Throw EWalletNotFound).
Proof.
  unfold findAuthoritiesByWallet, getRecoveryStatus, getProgramAccounts3, getAccountInfo3, ask3, lift3, mbind, L_bind.
  cbn [l_asked]. split_and!.
  - intros slot stored rows -> Hs H2. cbn [fst snd]. by rewrite (summaries_read stored).
  - intros info ->. destruct info as [i|]; [|done]. intros disc bump version p owners rest Hp Ho Hd.
    rewrite Hd, recovery_reads by done. destruct (Nat.ltb_spec (length (WalletAccount disc bump version p owners ++ rest)) 8) as [Hl|_]; [|done].
    unfold WalletAccount in Hl. autorewrite with lazor_len in Hl. cbn in Hl. lia.
  - intros i -> Hl. by apply Nat.ltb_lt in Hl as ->.
Qed.
End status.

(** ** Examples *)
Import ConcreteKit Sample.

Module Web3Status.
(** A passkey owner and an Ed25519 delegate with a policy. *)
Definition owner : @Stored kit := mkStored (K := kit) (at_byte 50) 1 0 254 1 5 wallet (zeros 97) [].
Definition delegate : @Stored kit := mkStored (K := kit) (at_byte 51) 0 2 253 1 0 wallet (zeros 32) [u8 7; u8 8].

Definition node : @Web3Env kit := mkWeb3Env (K := kit)
  (λ _ _, Ok (Some (mkInfo (K := kit) (at_byte 9) 1 (WalletAccount DISC_WALLET 254 1 [u8 0] 2))))
  (λ _, Ok 1) (λ _ l _, Ok (1, (λ _, None) <$> l))
  (λ _ _ _ _, Ok (1, [(at_byte 50, mkInfo (K := kit) (at_byte 9) 1 (st_image owner));
                       (at_byte 51, mkInfo (K := kit) (at_byte 9) 1 (st_image delegate))]))
  (λ _ _ _ _, Ok (1, [])) (λ _ n, zeros n) (λ _, 0) (λ _, []) (λ _, false) (λ n, n) None "".

Lemma stored_ok : Forall st_ok [owner; delegate].
Proof.
  repeat constructor; cbn; try lia.
Qed.
End Web3Status.

Lemma web3_status_reads_program_witness :
  (findAuthoritiesByWallet Web3Status.node (at_byte 9) wallet (mkWeb3Client None [] 0)).2
  = Ok [mkSummary (K := kit) (at_byte 50) (Some 0) (Some 1) 5 0 false None;
        mkSummary (K := kit) (at_byte 51) (Some 2) (Some 0) 0 2 true (Some [u8 7; u8 8])]
  ∧ (getRecoveryStatus Web3Status.node wallet (mkWeb3Client None [] 0)).2 = Ok (mkRecovery 2 true).
Proof.
  destruct (web3_status_reads_program (KL := kit_laws) Web3Status.node (at_byte 9) wallet (mkWeb3Client None [] 0))
    as (Ha & Hr & _). split.
  - apply (Ha 1 [Web3Status.owner; Web3Status.delegate] _ eq_refl Web3Status.stored_ok). by repeat constructor.
  - by apply (Hr _ eq_refl DISC_WALLET 254 1 [u8 0] 2 []).
Defined.
