(* ===== verification/RelayerTx.v ===== *)
(** * The relayer's allowlist and its byte-level v1 signing

    Models src/deploy/relayer/src/allowlist.mjs (what the fee payer sponsors)
    and src/deploy/relayer/src/txv1.mjs (the SIMD-0385 wire layout, and signing
    it in place), and the shape of a transaction as web3.js decodes it.  The
    transaction codec of web3.js, base58 and ed25519 are not part of the
    repository: they are the fields of the class [Web3]. *)
From S2P Require Import Prelude Bytes.
Local Open Scope Z_scope.

(** ** Exceptions *)

(** The [TransactionError] an RPC node reports: a bare name, an instruction
    error with the program's custom code if it has one, or any other object. *)
Inductive tx_error :=
  | TxName (name : string)
  | TxInstructionError (index : Z) (custom : option Z)
  | TxOtherError.

(** What the [data] of a [PolicyError] records and the relayer reads back. *)
Record policy_data := mkData {
  d_rule : string;
  d_index : option nat;
  d_reason : option string;
  d_err : option tx_error;
  d_slot : option Z;
}.

(** An [Error] that web3.js or [fetch] throws. *)
Record js_error := mkJsError {
  je_code : option Z;
  je_message : string;
  je_transactionMessage : option string;
  je_isSendTransactionError : bool;
}.

Inductive exn :=
  | PolicyError (code : Z) (data : policy_data)
  | RpcError (e : js_error)
  | ETxV1Prefix
  | ETxV1Short (got signers : Z)
  | ETxV1NoSlot (index signers : Z)
  | ETxV1NoSigners
  | ETxV1FeePayer
  | EKeypairMismatch
  | ETypeError.

Abbreviation attempt := (outcome exn).

#[export] Instance tx_error_eq_dec : EqDecision tx_error.
Proof. solve_decision. Defined.
#[export] Instance policy_data_eq_dec : EqDecision policy_data.
Proof. solve_decision. Defined.
#[export] Instance js_error_eq_dec : EqDecision js_error.
Proof. solve_decision. Defined.
#[export] Instance exn_eq_dec : EqDecision exn.
Proof. solve_decision. Defined.

(** ** Transactions as web3.js decodes them *)
Record CompiledInstruction := mkCompiled {
  programIdIndex : nat;
  accountKeyIndexes : list nat;
  ci_data : bytes;
}.

Record MessageHeader := mkHeader {
  numRequiredSignatures : Z;
  numReadonlySignedAccounts : Z;
  numReadonlyUnsignedAccounts : Z;
}.

(** The compute budget of a v1 message; a field it does not set is [None]. *)
Record TransactionConfig := mkTxConfig {
  computeUnitLimit : option Z;
  loadedAccountsDataSizeLimit : option Z;
  heapSize : option Z;
  priorityFee : option Z;
}.

Inductive tx_version := Legacy | V0 | V1.

#[export] Instance tx_version_eq_dec : EqDecision tx_version.
Proof. solve_decision. Defined.

(** A [VersionedTransaction] and its message; keys are their 32 bytes. *)
Record VersionedTransaction := mkTx {
  version : tx_version;
  header : MessageHeader;
  staticAccountKeys : list bytes;
  compiledInstructions : list CompiledInstruction;
  recentBlockhash : bytes;
  transactionConfig : TransactionConfig;
  signatures : list bytes;
}.

Record Keypair := mkKeypair { publicKey : bytes; secretKey : bytes }.

Class Web3 := {
  (** [PublicKey.toBase58], [bs58.encode]. *)
  toBase58 : bytes → string;
  (** [VersionedTransaction.deserialize]: throws on malformed bytes. *)
  deserialize : bytes → option VersionedTransaction;
  (** [tx.serialize()] and [tx.sign([keypair])], legacy and v0. *)
  serialize : VersionedTransaction → option bytes;
  sign_with : Keypair → VersionedTransaction → option VersionedTransaction;
  (** [Buffer.from(text, 'base64')], and [toString('base64')]. *)
  base64_decode : string → bytes;
  base64_encode : bytes → string;
  (** [crypto.createPublicKey] of a 32-byte seed, and [crypto.sign] with it. *)
  ed25519_public : bytes → bytes;
  ed25519_sign : bytes → bytes → bytes;
}.


(** ** allowlist.mjs *)
Definition LAZORKIT_V2_DEVNET : string := "57bTNWqtYTJbWuLWASKo6GqUTAK6oFDUR5c6hEc6V8nv".
Definition SYSTEM_PROGRAM : string := "11111111111111111111111111111111".
Definition TOKEN_PROGRAM : string := "TokenkegQfeZyiNwAJbNbGKPFXCWuBvf9Ss623VQ5DA".
Definition TOKEN_2022_PROGRAM : string := "TokenzQdBNbLqP5VEhdkAS6EPFLC1PHnBqCXEpPxuEb".
Definition ATA_PROGRAM : string := "ATokenGPvbdGVxr1b2hvZbsiqW5xWH25efTNsLJA8knL".
Definition COMPUTE_BUDGET_PROGRAM : string := "ComputeBudget111111111111111111111111111111".
Definition ALT_PROGRAM : string := "AddressLookupTab1e1111111111111111111111111".
Definition SECP256R1_PROGRAM : string := "Secp256r1SigVerify1111111111111111111111111".

Definition ALLOWED_PROGRAMS : list (string * string) :=
  [(LAZORKIT_V2_DEVNET, "LazorKit v2"); (SECP256R1_PROGRAM, "Secp256r1");
   (SYSTEM_PROGRAM, "System"); (TOKEN_PROGRAM, "Token"); (TOKEN_2022_PROGRAM, "Token-2022");
   (ATA_PROGRAM, "ATA"); (COMPUTE_BUDGET_PROGRAM, "ComputeBudget"); (ALT_PROGRAM, "ALT")]%string.

Definition REQUIRE_ONE_OF : list string := [LAZORKIT_V2_DEVNET].

Definition KNOWN_OTHER : list (string * string) :=
  [("4h3XoNReAgEcHVxcZ8sw2aufi9MTr7BbvYYjzjWDyDxS", "LazorKit v1 (not allowed)");
   ("MemoSq4gqABAXKb96qnH8TysNcWxMyWCqXgDLGmfcHr", "Memo (not allowed)");
   ("Memo1UhkJRfHyvLMcVucJwxXeuD728EqVDDwQDxFMNo", "Memo v1 (not allowed)");
   ("Ed25519SigVerify111111111111111111111111111", "Ed25519 precompile (not allowed)");
   ("KeccakSecp256k11111111111111111111111111111", "Secp256k1 precompile (not allowed)");
   ("BPFLoaderUpgradeab1e11111111111111111111111", "BPF Upgradeable Loader (not allowed)")]%string.

(** [map.get(key)] on a [Map] built from a literal. *)
Definition map_get (m : list (string * string)) (key : string) : option string :=
  snd <$> List.find (λ e, String.eqb (fst e) key) m.

Definition allowed (programId : string) : bool :=
  match map_get ALLOWED_PROGRAMS programId with Some _ => true | None => false end.

Definition programLabel (id : string) : string :=
  match map_get ALLOWED_PROGRAMS id with
  | Some name => name
  | None => default id (map_get KNOWN_OTHER id)
  end.

Definition DEVNET_GENESIS : string := "EtWTRABZaYq6iMfeYKouRu166VU2xqa1wcaWoxPkrZBG".
Definition MAINNET_GENESIS : string := "5eykt4UsFv8P8NJdTREpY1vzqKqZKvdpKuc147dw2N9d".

(** ** txv1.mjs *)
Definition TX_V1_PREFIX : Z := 0x81.
Definition TX_V1_MAX_BYTES : Z := 4096.
Definition TX_V1_MAX_ADDRESSES : Z := 64.
Definition MAX_COMPUTE_UNIT_LIMIT : Z := 1400000.
Definition MAX_LOADED_ACCOUNTS_DATA_SIZE_LIMIT : Z := 64 * 1024 * 1024.
Definition SIGNATURE_BYTES : Z := 64.
Definition ADDRESS_BYTES : Z := 32.
Definition ADDRESSES_AT : Z := 42.
Definition CONFIG_MASK_AT : nat := 4.
Definition ADDRESS_COUNT_AT : nat := 41.
Definition PRIORITY_FEE_BITS : Z := 3.

Definition blen (b : bytes) : Z := Z.of_nat (length b).

Definition isTxV1 (raw : bytes) : bool := byte_is raw 0 TX_V1_PREFIX.

(** The number of signers and the message length. *)
Definition txV1Layout (raw : bytes) : attempt (Z * Z) :=
  if negb (isTxV1 raw) then Throw ETxV1Prefix
  else
    let signers := default 0 (byte_at raw 1) in
    let messageLength := blen raw - SIGNATURE_BYTES * signers in
    if messageLength <? ADDRESSES_AT + ADDRESS_BYTES then Throw (ETxV1Short (blen raw) signers)
    else Ok (signers, messageLength).

(** [None] is [null]; the reads are within the buffer on the path that makes
    them. *)
Definition txV1PriorityFee (raw : bytes) : option Z :=
  if negb (isTxV1 raw) || (blen raw <? ADDRESSES_AT) then None
  else if negb (Z.land (le_combine (slice CONFIG_MASK_AT (CONFIG_MASK_AT + 4) raw))
                  PRIORITY_FEE_BITS =? PRIORITY_FEE_BITS) then None
  else
    let at_ := ADDRESSES_AT + ADDRESS_BYTES * val (raw !!! ADDRESS_COUNT_AT) in
    if blen raw <? at_ + 8 then None
    else Some (le_combine (slice (Z.to_nat at_) (Z.to_nat at_ + 8) raw)).

Definition txV1Signature (raw : bytes) (index : Z) : attempt bytes :=
  '(signers, messageLength) ← txV1Layout raw;
  if (index <? 0) || (signers <=? index) then Throw (ETxV1NoSlot index signers)
  else
    let at_ := Z.to_nat (messageLength + SIGNATURE_BYTES * index) in
    Ok (slice at_ (at_ + 64) raw).

(** Base58 is injective on 32-byte keys; an ed25519 signature is 64 bytes (that
    it depends on nothing but the seed and the message, RFC 8032, is in its
    type); and a decoded v1 message agrees with the wire layout: the signer
    count is byte 1, address 0 follows the fixed 42 bytes, and the signatures
    come after the message. *)
Class Web3Laws (W : Web3) : Prop := {
  toBase58_inj : ∀ a b, length a = 32%nat → length b = 32%nat → toBase58 a = toBase58 b → a = b;
  ed25519_sign_length : ∀ seed m, length (ed25519_sign seed m) = 64%nat;
  v1_layout : ∀ raw tx k, deserialize raw = Some tx → version tx = V1 →
    head (staticAccountKeys tx) = Some k →
    isTxV1 raw = true ∧ byte_at raw 1 = Some (numRequiredSignatures (header tx))
    ∧ k = slice 42 74 raw ∧ 74 + 64 * numRequiredSignatures (header tx) <= blen raw;
}.

Section signing.
Context `{W : Web3}.

(** The key is rebuilt from the seed and checked against the public key; the
    [WeakMap] only saves doing so again. *)
Definition ed25519Sign (keypair : Keypair) (message : bytes) : attempt bytes :=
  let seed := slice 0 32 (secretKey keypair) in
  if negb (bytesEqual (ed25519_public seed) (publicKey keypair)) then Throw EKeypairMismatch
  else Ok (ed25519_sign seed message).

Definition signTxV1AsFeePayer (raw : bytes) (keypair : Keypair) : attempt bytes :=
  '(signers, messageLength) ← txV1Layout raw;
  if signers <? 1 then Throw ETxV1NoSigners
  else if negb (bytesEqual (slice 42 74 raw) (publicKey keypair)) then Throw ETxV1FeePayer
  else
    signature ← ed25519Sign keypair (slice 0 (Z.to_nat messageLength) raw);
    Ok (set_at (Z.to_nat messageLength) signature raw).

(** ** What signing in place does *)

Lemma txV1Layout_inv raw n m :
  txV1Layout raw = Ok (n, m) →
  isTxV1 raw = true ∧ n = default 0 (byte_at raw 1) ∧ m = blen raw - 64 * n ∧ 74 <= m ∧ 0 <= n < 256.
Proof.
  unfold txV1Layout, SIGNATURE_BYTES, ADDRESSES_AT, ADDRESS_BYTES.
  destruct (isTxV1 raw); [|done]. cbn [negb].
  destruct (Z.ltb_spec (blen raw - 64 * default 0 (byte_at raw 1)) (42 + 32)); [done|].
  intros [= <- <-]. split_and!; try done; try lia.
  all: unfold byte_at; destruct (raw !! 1%nat); simpl; [apply val_range | lia].
Qed.

(** Bytes with the same length and the same first 74 bytes have one layout. *)
Lemma txV1Layout_ext a b :
  length a = length b → take 74 a = take 74 b → txV1Layout a = txV1Layout b.
Proof.
  intros Hl Ht.
  assert (Hb : ∀ i, (i < 74)%nat → a !! i = b !! i).
  { intros i Hi. rewrite <- (lookup_take_lt a 74), <- (lookup_take_lt b 74) by done. by rewrite Ht. }
  unfold txV1Layout, isTxV1, byte_is, byte_at, blen.
  by rewrite !Hb, Hl by lia.
Qed.

Lemma length_signed m (sg raw : bytes) :
  (m + length sg <= length raw)%nat → length (set_at m sg raw) = length raw.
Proof. apply length_set_at. Qed.

Lemma take_set_at k m (sg raw : bytes) : (k <= m)%nat → (m <= length raw)%nat →
  take k (set_at m sg raw) = take k raw.
Proof.
  intros Hk Hm. unfold set_at. rewrite take_app_le by (rewrite length_take; lia).
  rewrite take_take. f_equal. lia.
Qed.

Lemma slice_set_at_after s e m (sg raw : bytes) :
  (m + length sg <= s)%nat → (m + length sg <= length raw)%nat →
  slice s e (set_at m sg raw) = slice s e raw.
Proof.
  intros Hs Hr. unfold set_at. rewrite app_assoc, slice_app_r; rewrite length_app, length_take;
    [|lia]. unfold slice. rewrite drop_drop. f_equal; [lia|]. f_equal. lia.
Qed.

Lemma slice_set_at_here m (sg raw : bytes) : (m + length sg <= length raw)%nat →
  slice m (m + length sg) (set_at m sg raw) = sg.
Proof.
  intros Hr. unfold set_at. apply slice_mid; rewrite length_take; lia.
Qed.

Lemma slice_prefix_set_at s e m (sg raw : bytes) : (e <= m)%nat → (m <= length raw)%nat →
  slice s e (set_at m sg raw) = slice s e raw.
Proof.
  intros He Hm. unfold set_at. by rewrite slice_app_l, <- (slice_app_l s e (take m raw) (drop m raw)),
    take_drop by (rewrite length_take; lia).
Qed.

Lemma signTxV1AsFeePayer_inv raw kp signed :
  signTxV1AsFeePayer raw kp = Ok signed →
  ∃ n m, txV1Layout raw = Ok (n, m) ∧ 1 <= n ∧ slice 42 74 raw = publicKey kp
    ∧ ed25519_public (slice 0 32 (secretKey kp)) = publicKey kp
    ∧ signed = set_at (Z.to_nat m)
                 (ed25519_sign (slice 0 32 (secretKey kp)) (slice 0 (Z.to_nat m) raw)) raw.
Proof.
  unfold signTxV1AsFeePayer. intros ([n m] & HL & H)%bind_inv. exists n, m.
  destruct (Z.ltb_spec n 1); [done|].
  destruct (bytesEqual _ _) eqn:E in H; [|done]. cbn [negb] in H.
  apply bind_inv in H as (sg & Hs & [= <-]). unfold ed25519Sign in Hs.
  destruct (bytesEqual (ed25519_public _) _) eqn:E2 in Hs; [|done]. injection Hs as <-.
  rewrite !bytesEqual_spec in *. by split_and!.
Qed.

Context {WL : Web3Laws W}.

(** Signing fills the fee payer's slot and nothing else. *)
Lemma signTxV1_effect raw kp signed :
  signTxV1AsFeePayer raw kp = Ok signed →
  ∃ n m, txV1Layout raw = Ok (n, m) ∧ txV1Layout signed = Ok (n, m)
    ∧ length signed = length raw
    ∧ slice 0 (Z.to_nat m) signed = slice 0 (Z.to_nat m) raw
    ∧ txV1Signature signed 0
      = Ok (ed25519_sign (slice 0 32 (secretKey kp)) (slice 0 (Z.to_nat m) raw))
    ∧ (∀ i, 1 <= i < n → txV1Signature signed i = txV1Signature raw i)
    ∧ signTxV1AsFeePayer signed kp = Ok signed.
Proof.
  intros (n & m & HL & Hn & Hp & Hk & ->)%signTxV1AsFeePayer_inv.
  destruct (txV1Layout_inv _ _ _ HL) as (_ & _ & Hm & Hm74 & Hn8).
  set (msg := slice 0 (Z.to_nat m) raw). set (seed := slice 0 32 (secretKey kp)).
  pose proof (ed25519_sign_length seed msg) as Hsl. unfold blen in Hm.
  assert (Hfit : (Z.to_nat m + length (ed25519_sign seed msg) <= length raw)%nat) by lia.
  assert (HL' : txV1Layout (set_at (Z.to_nat m) (ed25519_sign seed msg) raw) = Ok (n, m)).
  { rewrite <- HL. apply txV1Layout_ext; [by apply length_signed|]. apply take_set_at; lia. }
  assert (Hmsg : slice 0 (Z.to_nat m) (set_at (Z.to_nat m) (ed25519_sign seed msg) raw) = msg)
    by (apply slice_prefix_set_at; lia).
  exists n, m. split_and!; try done.
  - by apply length_signed.
  - unfold txV1Signature. rewrite HL', bind_ok. cbn [Z.ltb Z.compare orb].
    destruct (Z.leb_spec n 0); [lia|]. rewrite Z.mul_0_r, Z.add_0_r, <- Hsl.
    by rewrite slice_set_at_here.
  - intros i Hi. unfold txV1Signature. rewrite HL', HL, !bind_ok.
    destruct (Z.ltb_spec i 0), (Z.leb_spec n i); try lia. cbn [orb]. f_equal.
    apply slice_set_at_after; unfold SIGNATURE_BYTES; lia.
  - unfold signTxV1AsFeePayer. rewrite HL', bind_ok. destruct (Z.ltb_spec n 1); [lia|].
    rewrite slice_prefix_set_at by lia. rewrite Hp, bytesEqual_refl. cbn [negb].
    rewrite Hmsg. unfold ed25519Sign. fold seed in Hk |- *. rewrite Hk, bytesEqual_refl. cbn [negb].
    rewrite bind_ok. f_equal. unfold set_at at 1. rewrite take_set_at by lia.
    unfold set_at. do 2 f_equal. rewrite app_assoc, drop_app_ge;
      rewrite length_app, length_take; [|lia]. rewrite drop_drop. f_equal. lia.
Qed.
End signing.
