(* ===== verification/RelayerPolicy.v ===== *)
(** * The relayer's transaction policy: the static checks

    Models the first stage of src/deploy/relayer/src/policy.mjs: what the fee
    payer agrees to sign, decided on the decoded message alone, and the reading
    of program errors and of the slot a passkey signed. *)
From S2P Require Import Prelude Bytes Json RelayerTx.
Local Open Scope Z_scope.

(** ** Error codes *)
Definition INVALID_PARAMS : Z := -32602.
Definition REJECTED : Z := -32003.
Definition SIMULATION_FAILED : Z := -32004.
Definition SEND_FAILED : Z := -32005.
Definition RATE_LIMITED : Z := -32029.
Definition TX_V1_DISABLED : Z := -32051.

Definition RPC_TIMEOUT_MS : Z := 10000.
Definition MIN_CONTEXT_SLOT_NOT_REACHED : Z := -32016.
Definition SIGNATURE_REUSED : Z := 3006.
Definition INVALID_SIGNATURE_AGE : Z := 3007.

(** [new PolicyError(ERR.REJECTED, ..., { rule, index })]. *)
Definition reject {A} (rule : string) (index : option nat) : attempt A :=
  Throw (PolicyError REJECTED (mkData rule index None None None)).

(** ** Program errors *)

(** [\w]. *)
Definition is_word (c : Byte.byte) : bool :=
  let v := val c in
  ((48 <=? v) && (v <=? 57)) || ((65 <=? v) && (v <=? 90)) || (v =? 95)
  || ((97 <=? v) && (v <=? 122)).

Fixpoint word_run (b : bytes) : bytes * bytes :=
  match b with
  | c :: r => if is_word c then let '(w, rest) := word_run r in (c :: w, rest) else ([], b)
  | [] => ([], [])
  end.

(** [/^Program (\w{32,44}) failed: custom program error: /.exec(line)]: the
    blank after the group ends the run of word characters, so the group is the
    whole run. *)
Definition failed_program (line : string) : option bytes :=
  rest ← strip_prefix (utf8 "Program ") (utf8 line);
  let '(w, rest) := word_run rest in
  if (32 <=? length w)%nat && (length w <=? 44)%nat
  then _ ← strip_prefix (utf8 " failed: custom program error: ") rest; Some w
  else None.

(** [.map(f).find(Boolean)]. *)
Fixpoint find_map {A B} (f : A → option B) (l : list A) : option B :=
  match l with
  | [] => None
  | x :: l => match f x with Some y => Some y | None => find_map f l end
  end.

Definition lazorkitError (err : option tx_error) (programs : list string)
    (logs : option (list string)) : option (Z * Z) :=
  match err with
  | Some (TxInstructionError index (Some code)) =>
    if negb (bool_decide (0 <= index ∧ programs !! Z.to_nat index = Some LAZORKIT_V2_DEVNET))
    then None
    else match find_map failed_program (default [] logs) with
         | Some p => if bytesEqual p (utf8 LAZORKIT_V2_DEVNET) then Some (index, code) else None
         | None => Some (index, code)
         end
  | _ => None
  end.

(** Which sentence [explainTxError] appends to a message. *)
Inductive explanation := ExBlockhash | ExSignatureReused | ExSignatureAge | ExNothing.

Definition explainTxError (err : tx_error) (programs : list string) (logs : option (list string)) :
    explanation :=
  match err with
  | TxName "BlockhashNotFound" => ExBlockhash
  | _ =>
    match snd <$> lazorkitError (Some err) programs logs with
    | Some code => if code =? SIGNATURE_REUSED then ExSignatureReused
                   else if code =? INVALID_SIGNATURE_AGE then ExSignatureAge else ExNothing
    | None => ExNothing
    end
  end.

(** ** Static checks *)
Definition SYSTEM_FEE_PAYER_ALLOWED : list Z := [0; 2; 3].

Section policy.
Context `{W : Web3}.

(** [keys[i]?.toBase58()]. *)
Definition key_at (keys : list bytes) (i : nat) : option string := toBase58 <$> keys !! i.

(** [data.length >= 4 ? data.readUInt32LE(0) : -1]. *)
Definition system_kind (data : bytes) : Z :=
  if (4 <=? length data)%nat then le_combine (slice 0 4 data) else -1.

(** The body of the [ixs.forEach] callback: the program id it pushes. *)
Definition inspectInstruction (keys : list bytes) (i : nat) (ix : CompiledInstruction) :
    attempt string :=
  match key_at keys (programIdIndex ix) with
  | None => reject "program_not_allowed" (Some i)
  | Some programId =>
    if negb (allowed programId) then reject "program_not_allowed" (Some i)
    else
      let touchesPayer := bool_decide (0%nat ∈ accountKeyIndexes ix) in
      if String.eqb programId SYSTEM_PROGRAM then
        let kind := system_kind (ci_data ix) in
        if kind =? 4 then reject "durable_nonce" (Some i)
        else if touchesPayer && negb (existsb (Z.eqb kind) SYSTEM_FEE_PAYER_ALLOWED)
        then reject "fee_payer_policy" (Some i)
        else Ok programId
      else if touchesPayer && (String.eqb programId TOKEN_PROGRAM
                               || String.eqb programId TOKEN_2022_PROGRAM
                               || String.eqb programId ALT_PROGRAM)
      then reject "fee_payer_policy" (Some i)
      else Ok programId
  end.

(** [ixs.forEach((ix, i) => ...)], stopping at the first exception. *)
Fixpoint forEachR {A B} (f : nat → A → attempt B) (i : nat) (l : list A) : attempt (list B) :=
  match l with
  | [] => Ok []
  | x :: l => y ← f i x; ys ← forEachR f (S i) l; Ok (y :: ys)
  end.

(** ** Transaction v1 *)

(** [null] and [undefined] are no fee. *)
Definition checkTxV1PriorityFee (fee : option Z) (maxPriorityFeeLamports : Z) : attempt unit :=
  match fee with
  | None => Ok ()
  | Some fee => if fee <=? maxPriorityFeeLamports then Ok () else reject "tx_v1_priority_fee" None
  end.

(** The local [limit]. *)
Definition limit (value : option Z) (max : Z) (rule : string) : attempt unit :=
  match value with
  | None => reject rule None
  | Some v => if (v =? 0) || (max <? v) then reject rule None else Ok ()
  end.

(** The local [program]. *)
Definition program_of (keys : list bytes) (ix : CompiledInstruction) : option string :=
  key_at keys (programIdIndex ix).

Definition is_program (p : option string) (id : string) : bool := bool_decide (p = Some id).

(** The two loops over the instructions. *)
Fixpoint noComputeBudget (keys : list bytes) (i : nat) (ixs : list CompiledInstruction) :
    attempt unit :=
  match ixs with
  | [] => Ok ()
  | ix :: ixs =>
    if is_program (program_of keys ix) COMPUTE_BUDGET_PROGRAM
    then reject "tx_v1_compute_budget_instruction" (Some i)
    else noComputeBudget keys (S i) ixs
  end.

Fixpoint precompileOrder (keys : list bytes) (i : nat) (ixs : list CompiledInstruction) :
    attempt unit :=
  match ixs with
  | [] => Ok ()
  | ix :: ixs =>
    if is_program (program_of keys ix) SECP256R1_PROGRAM
       && negb (is_program (head ixs ≫= program_of keys) LAZORKIT_V2_DEVNET)
    then reject "tx_v1_precompile_order" (Some i)
    else precompileOrder keys (S i) ixs
  end.

Record txV1Summary := mkV1Summary {
  s_computeUnitLimit : option Z;
  s_loadedAccountsDataSizeLimit : option Z;
  s_priorityFee : Z;
}.

Definition inspectTxV1 (tx : VersionedTransaction) (raw : option bytes)
    (maxPriorityFeeLamports : Z) : attempt txV1Summary :=
  let keys := staticAccountKeys tx in
  let config := transactionConfig tx in
  let ixs := compiledInstructions tx in
  _ ← (match raw with
       | None => reject "tx_v1_size" None
       | Some raw => if TX_V1_MAX_BYTES <? blen raw then reject "tx_v1_size" None else Ok ()
       end);
  _ ← (if TX_V1_MAX_ADDRESSES <? Z.of_nat (length keys) then reject "tx_v1_size" None else Ok ());
  _ ← (if (numRequiredSignatures (header tx) <? 1)
          || (numRequiredSignatures (header tx) <=? numReadonlySignedAccounts (header tx))
       then reject "fee_payer" None else Ok ());
  _ ← limit (computeUnitLimit config) MAX_COMPUTE_UNIT_LIMIT "tx_v1_compute_unit_limit";
  _ ← limit (loadedAccountsDataSizeLimit config) MAX_LOADED_ACCOUNTS_DATA_SIZE_LIMIT
        "tx_v1_loaded_accounts_data_size_limit";
  _ ← (match heapSize config with Some _ => reject "tx_v1_heap_size" None | None => Ok () end);
  let fee := default 0 (priorityFee config) in
  _ ← checkTxV1PriorityFee (Some fee) maxPriorityFeeLamports;
  _ ← noComputeBudget keys 0 ixs;
  _ ← precompileOrder keys 0 ixs;
  Ok (mkV1Summary (computeUnitLimit config) (loadedAccountsDataSizeLimit config) fee).

(** The options of [inspectTransaction]. *)
Record inspect_opts := mkInspect {
  o_relayer : string;
  o_signerKey : option string;
  o_maxSignatures : Z;
  o_requireLazorkit : bool;
  o_raw : option bytes;
  o_maxPriorityFeeLamports : Z;
}.

Record tx_summary := mkSummary {
  sm_feePayer : option string;
  sm_numSigs : Z;
  sm_programs : list string;
  sm_version : tx_version;
  sm_txV1 : option txV1Summary;
}.

Definition inspectTransaction (tx : VersionedTransaction) (o : inspect_opts) : attempt tx_summary :=
  let keys := staticAccountKeys tx in
  let feePayer := key_at keys 0 in
  _ ← (if negb (bool_decide (feePayer = Some (o_relayer o))) then reject "fee_payer" None else Ok ());
  _ ← (match o_signerKey o with
       | Some k => if negb (String.eqb k (o_relayer o)) then reject "signer_key" None else Ok ()
       | None => Ok ()
       end);
  let numSigs := numRequiredSignatures (header tx) in
  _ ← (if o_maxSignatures o <? numSigs then reject "max_signatures" None else Ok ());
  let ixs := compiledInstructions tx in
  _ ← (match ixs with [] => reject "empty" None | _ => Ok () end);
  programs ← forEachR (inspectInstruction keys) 0 ixs;
  _ ← (if o_requireLazorkit o
          && negb (existsb (λ p, existsb (String.eqb p) REQUIRE_ONE_OF) programs)
       then reject "require_one_of_programs" None else Ok ());
  match version tx with
  | V1 => s ← inspectTxV1 tx (o_raw o) (o_maxPriorityFeeLamports o);
          Ok (mkSummary feePayer numSigs programs (version tx) (Some s))
  | _ => Ok (mkSummary feePayer numSigs programs (version tx) None)
  end.

(** ** The slot a passkey signed *)
Definition INSTRUCTIONS_SYSVAR : string := "Sysvar1nstructions1111111111111111111111111".

(** [d.readUInt16LE(at)], [d.readBigUInt64LE(at)], within the buffer. *)
Definition read16 (d : bytes) (at_ : nat) : Z := le_combine (slice at_ (at_ + 2) d).
Definition read64 (d : bytes) (at_ : nat) : Z := le_combine (slice at_ (at_ + 8) d).

(** The body of the loop over [m]: the authenticator data is the [m] bytes
    before the clientDataJSON's length at [cdj - 2]. *)
Definition signedSlotAt (keys : list string) (ix : CompiledInstruction) (cdj m : nat) : option Z :=
  let d := ci_data ix in
  let o := (cdj - 2 - m - 16)%nat in
  if negb (read16 d (o + 14) =? Z.of_nat m) then None
  else
    match accountKeyIndexes ix !! Z.to_nat (val (d !!! (o + 12)%nat)) with
    | None => None
    | Some account =>
      if bool_decide (account < length keys)%nat
         && negb (bool_decide (keys !! account = Some INSTRUCTIONS_SYSVAR))
      then None
      else Some (number_of_bigint (read64 d o))
    end.

(** The loop over [n]: the clientDataJSON is the last [n] bytes. *)
Definition signedSlotFrom (keys : list string) (ix : CompiledInstruction) (n : nat) : option Z :=
  let d := ci_data ix in
  let cdj := (length d - n)%nat in
  if negb (byte_is d cdj 0x7b && (read16 d (cdj - 2) =? Z.of_nat n)) then None
  else find_map (signedSlotAt keys ix cdj) (seq 37 (Nat.min 1024 (cdj - 18) - 36)).

Definition signedSlotOf (keys : list string) (ix : CompiledInstruction) : option Z :=
  let d := ci_data ix in
  let end_ := length d in
  if (end_ <? 16 + 37 + 2 + 2)%nat || negb (byte_is d (end_ - 1) 0x7d) then None
  else find_map (signedSlotFrom keys ix) (seq 2 (Nat.min (end_ - 16 - 37 - 2) (Z.to_nat 0xffff) - 1)).

(** [newest = Math.max(newest ?? 0, slot)]. *)
Definition newer (newest : option Z) (slot : option Z) : option Z :=
  match slot with Some s => Some (Z.max (default 0 newest) s) | None => newest end.

(** The [forEach]: [prev] is the instruction before [ix]. *)
Fixpoint signedSlots (keys : list string) (prev : CompiledInstruction)
    (ixs : list CompiledInstruction) (newest : option Z) : option Z :=
  match ixs with
  | [] => newest
  | ix :: ixs =>
    let here :=
      if bool_decide (keys !! programIdIndex ix = Some LAZORKIT_V2_DEVNET)
         && bool_decide (keys !! programIdIndex prev = Some SECP256R1_PROGRAM)
      then signedSlotOf keys ix else None in
    signedSlots keys ix ixs (newer newest here)
  end.

Definition passkeySignedSlot (tx : VersionedTransaction) : option Z :=
  let keys := toBase58 <$> staticAccountKeys tx in
  match compiledInstructions tx with
  | [] => None
  | ix :: ixs => signedSlots keys ix ixs None
  end.
End policy.
