(* ===== verification/RelayerProps.v ===== *)
(** * What the static policy accepts

    The rules of the relayer's policy, stated without its control flow, and the
    theorem that [inspectTransaction] accepts exactly the transactions that
    satisfy them; and the theorem that the relayer finds the slot a passkey
    signed in the instruction the SDK builds. *)
From S2P Require Import Prelude Bytes Kit Constants Builders Signing Json.
From S2P Require Import RelayerTx RelayerPolicy.
Local Open Scope Z_scope.

Section rules.
Context `{W : Web3}.

(** What one instruction that calls program [p] may do. *)
Record InstructionAllowed (p : string) (ix : CompiledInstruction) : Prop := {
  ia_program : allowed p = true;
  ia_no_nonce : p = SYSTEM_PROGRAM → system_kind (ci_data ix) ≠ 4;
  ia_system_payer : p = SYSTEM_PROGRAM → 0%nat ∈ accountKeyIndexes ix →
    system_kind (ci_data ix) ∈ SYSTEM_FEE_PAYER_ALLOWED;
  ia_token_payer : p ∈ [TOKEN_PROGRAM; TOKEN_2022_PROGRAM; ALT_PROGRAM] →
    0%nat ∉ accountKeyIndexes ix;
}.

(** The rules of a v1 transaction. *)
Record V1Sponsorable (tx : VersionedTransaction) (raw : option bytes) (maxFee : Z) : Prop := {
  v1_size : ∃ r, raw = Some r ∧ blen r <= 4096;
  v1_addresses : (length (staticAccountKeys tx) <= 64)%nat;
  v1_payer : 1 <= numRequiredSignatures (header tx)
             ∧ numReadonlySignedAccounts (header tx) < numRequiredSignatures (header tx);
  v1_compute : ∃ u, computeUnitLimit (transactionConfig tx) = Some u ∧ u ≠ 0 ∧ u <= 1400000;
  v1_loaded : ∃ l, loadedAccountsDataSizeLimit (transactionConfig tx) = Some l ∧ l ≠ 0
              ∧ l <= 67108864;
  v1_heap : heapSize (transactionConfig tx) = None;
  v1_fee : default 0 (priorityFee (transactionConfig tx)) <= maxFee;
  v1_no_budget : ∀ ix, ix ∈ compiledInstructions tx →
    program_of (staticAccountKeys tx) ix ≠ Some COMPUTE_BUDGET_PROGRAM;
  v1_adjacent : ∀ i ix, compiledInstructions tx !! i = Some ix →
    program_of (staticAccountKeys tx) ix = Some SECP256R1_PROGRAM →
    ∃ next, compiledInstructions tx !! S i = Some next
      ∧ program_of (staticAccountKeys tx) next = Some LAZORKIT_V2_DEVNET;
}.

(** What the fee payer agrees to sign. *)
Record Sponsorable (tx : VersionedTransaction) (o : inspect_opts) : Prop := {
  sp_payer : key_at (staticAccountKeys tx) 0 = Some (o_relayer o);
  sp_signer : ∀ k, o_signerKey o = Some k → k = o_relayer o;
  sp_signatures : numRequiredSignatures (header tx) <= o_maxSignatures o;
  sp_nonempty : compiledInstructions tx ≠ [];
  sp_instructions : ∀ ix, ix ∈ compiledInstructions tx →
    ∃ p, program_of (staticAccountKeys tx) ix = Some p ∧ InstructionAllowed p ix;
  sp_lazorkit : o_requireLazorkit o = true →
    ∃ ix, ix ∈ compiledInstructions tx
      ∧ program_of (staticAccountKeys tx) ix = Some LAZORKIT_V2_DEVNET;
  sp_v1 : version tx = V1 → V1Sponsorable tx (o_raw o) (o_maxPriorityFeeLamports o);
}.

(** ** Lemmas *)

(** The system program is no token or lookup-table program. *)
Lemma system_not_token : SYSTEM_PROGRAM ∉ [TOKEN_PROGRAM; TOKEN_2022_PROGRAM; ALT_PROGRAM].
Proof. apply (bool_decide_unpack _). vm_compute. exact I. Qed.

Lemma inspectInstruction_ok keys i ix p :
  inspectInstruction keys i ix = Ok p ↔ program_of keys ix = Some p ∧ InstructionAllowed p ix.
Proof.
  unfold inspectInstruction, program_of. cbv zeta.
  destruct (key_at keys (programIdIndex ix)) as [q|]; [|by split; [|intros [[=] _]]].
  assert (Hq : ∀ r : attempt string, (r = Ok q ↔ InstructionAllowed q ix) →
     (∀ x, r = Ok x → x = q) → (r = Ok p ↔ Some q = Some p ∧ InstructionAllowed p ix)).
  { intros r Hr Hx. split; [intros E; pose proof (Hx _ E); subst; split; [done | by apply Hr]|].
    intros [[= <-] H]. by apply Hr. }
  apply Hq; clear Hq.
  2:{ intros x. repeat case_match; try done; by intros [= <-]. }
  destruct (allowed q) eqn:Ha; cbn [negb]; [|split; [done|]; intros [H _ _ _]; congruence].
  destruct (String.eqb_spec q SYSTEM_PROGRAM) as [->|Hs].
  - destruct (Z.eqb_spec (system_kind (ci_data ix)) 4) as [H4|H4].
    { split; [done|]. intros [_ H _ _]. by destruct H. }
    destruct (bool_decide_reflect (0%nat ∈ accountKeyIndexes ix)) as [H0|H0]; cbn [andb].
    + destruct (existsb _ _) eqn:Ee; cbn [negb]; split; intros H; try done.
      * apply existsb_Exists in Ee as (x & Hx & <-%Z.eqb_eq).
        split; try done. intros []%system_not_token.
      * destruct H as [_ _ H _]. rewrite existsb_false in Ee.
        specialize (Ee _ (H eq_refl H0)). by rewrite Z.eqb_refl in Ee.
    + split; [|done]. intros _. split; try done.
  - destruct (bool_decide_reflect (0%nat ∈ accountKeyIndexes ix)) as [H0|H0]; cbn [andb];
      [|split; [|done]; intros _; by split].
    destruct (_ || _) eqn:Et; split; intros H; try done.
    + destruct H as [_ _ _ H]. exfalso. apply H; [|done].
      rewrite !orb_true_iff, !String.eqb_eq in Et. set_solver.
    + split; try done. intros Hin. rewrite !orb_false_iff, !String.eqb_neq in Et. set_solver.
Qed.

Lemma inspectInstruction_error keys i ix e :
  inspectInstruction keys i ix = Throw e → ∃ d, e = PolicyError REJECTED d.
Proof. unfold inspectInstruction, reject. repeat case_match; intros [= <-]; eauto. Qed.

(** The loop returns the program of every instruction when each passes. *)
Lemma inspect_loop keys i ixs ps :
  forEachR (inspectInstruction keys) i ixs = Ok ps ↔
  Forall2 (λ ix p, program_of keys ix = Some p ∧ InstructionAllowed p ix) ixs ps.
Proof.
  revert i ps. induction ixs as [|ix ixs IH]; intros i ps; simpl; split.
  - intros [= <-]. constructor.
  - intros H. inversion H. done.
  - intros (p & Hp & (ps' & Hps & [= <-])%bind_inv)%bind_inv.
    constructor; [by eapply inspectInstruction_ok | by eapply IH].
  - intros H. inversion H as [|? p ? ps' Hp Hps]; subst.
    eapply inspectInstruction_ok in Hp. rewrite Hp, bind_ok. eapply IH in Hps. by rewrite Hps.
Qed.

Lemma inspect_loop_error keys i ixs e :
  forEachR (inspectInstruction keys) i ixs = Throw e → ∃ d, e = PolicyError REJECTED d.
Proof.
  revert i. induction ixs as [|ix ixs IH]; intros i; simpl; [done|].
  destruct (inspectInstruction keys i ix) eqn:E; [rewrite bind_ok|].
  - destruct (forEachR _ _ ixs) eqn:E2; [done|]. intros [= <-]. by eapply IH.
  - intros [= <-]. by eapply inspectInstruction_error.
Qed.

Lemma noComputeBudget_ok keys i ixs :
  noComputeBudget keys i ixs = Ok () ↔
  ∀ ix, ix ∈ ixs → program_of keys ix ≠ Some COMPUTE_BUDGET_PROGRAM.
Proof.
  revert i. induction ixs as [|ix ixs IH]; intros i; simpl.
  - split; [intros _ ix []%elem_of_nil | done].
  - unfold is_program. case_bool_decide as E.
    + split; [done|]. intros H. exfalso. by apply (H ix (list_elem_of_here _ _)).
    + rewrite IH. setoid_rewrite elem_of_cons. naive_solver.
Qed.

Lemma precompileOrder_ok keys i ixs :
  precompileOrder keys i ixs = Ok () ↔
  ∀ k ix, ixs !! k = Some ix → program_of keys ix = Some SECP256R1_PROGRAM →
    ∃ next, ixs !! S k = Some next ∧ program_of keys next = Some LAZORKIT_V2_DEVNET.
Proof.
  revert i. induction ixs as [|ix ixs IH]; intros i; simpl; [done|].
  unfold is_program at 1. case_bool_decide as E; cbn [andb].
  - unfold is_program. case_bool_decide as E2; cbn [negb].
    + rewrite IH. split; [|intros H k; apply (H (S k))].
      intros H [|k] x Hx Hp; [|by apply (H k x)].
      destruct ixs as [|y ixs]; [done|]. exists y. by split.
    + split; [done|]. intros H. exfalso. destruct (H 0%nat ix eq_refl E) as (y & Hy & Hp).
      destruct ixs as [|y' ixs]; [done|]. simpl in Hy. injection Hy as ->. by apply E2.
  - rewrite IH. split; [|intros H k; apply (H (S k))].
    intros H [|k] x Hx Hp; [simpl in Hx; congruence | by apply (H k x)].
Qed.

Lemma limit_ok v max rule : limit v max rule = Ok () ↔ ∃ u, v = Some u ∧ u ≠ 0 ∧ u <= max.
Proof.
  unfold limit. destruct v as [v|]; [|split; [done | intros (u & ? & _); done]].
  destruct (Z.eqb_spec v 0), (Z.ltb_spec max v); simpl; split; try done.
  1-3: intros (u & [= <-] & ? & ?); lia.
  by eauto.
Qed.

(** A guard [if (c) throw ...;]. *)
Lemma guard_ok {A} (c : bool) rule i (k : unit → attempt A) b :
  ((if c then reject rule i else Ok ()) ≫= k) = Ok b ↔ c = false ∧ k () = Ok b.
Proof. destruct c; simpl; split; naive_solver. Qed.

Lemma reject_step_ok {A} (m : attempt unit) (k : unit → attempt A) b :
  (m ≫= k) = Ok b ↔ m = Ok () ∧ k () = Ok b.
Proof. destruct m as [[]|]; simpl; split; naive_solver. Qed.

Lemma inspectTxV1_ok tx raw maxFee :
  is_ok (inspectTxV1 tx raw maxFee) = true ↔ V1Sponsorable tx raw maxFee.
Proof.
  transitivity (∃ s, inspectTxV1 tx raw maxFee = Ok s).
  { destruct (inspectTxV1 tx raw maxFee); simpl; split; naive_solver. }
  unfold inspectTxV1. cbv zeta.
  unfold checkTxV1PriorityFee, TX_V1_MAX_BYTES, TX_V1_MAX_ADDRESSES,
    MAX_COMPUTE_UNIT_LIMIT, MAX_LOADED_ACCOUNTS_DATA_SIZE_LIMIT.
  split.
  - intros (s & H). rewrite !reject_step_ok, !limit_ok, noComputeBudget_ok, precompileOrder_ok in H.
    destruct H as (Hsz & Ha & Hp & Hc & Hl & Hh & Hf & Hb & Ho & _).
    destruct raw as [r|]; [|done]. destruct (Z.ltb_spec 4096 (blen r)); [done|].
    destruct (Z.ltb_spec 64 (Z.of_nat (length (staticAccountKeys tx)))); [done|].
    destruct (Z.ltb_spec (numRequiredSignatures (header tx)) 1),
      (Z.leb_spec (numRequiredSignatures (header tx)) (numReadonlySignedAccounts (header tx)));
      try done.
    destruct (heapSize _) eqn:Eh; [done|]. destruct (Z.leb_spec (default 0 (priorityFee (transactionConfig tx))) maxFee);
      [|done].
    split; eauto; lia.
  - intros [(r & -> & Hr) Ha [Hp1 Hp2] Hc Hl Hh Hf Hb Ho]. eexists.
    rewrite !reject_step_ok, !limit_ok, noComputeBudget_ok, precompileOrder_ok.
    destruct (Z.ltb_spec 4096 (blen r)); [lia|].
    destruct (Z.ltb_spec 64 (Z.of_nat (length (staticAccountKeys tx)))); [lia|].
    destruct (Z.ltb_spec (numRequiredSignatures (header tx)) 1),
      (Z.leb_spec (numRequiredSignatures (header tx)) (numReadonlySignedAccounts (header tx)));
      try lia.
    rewrite Hh. destruct (Z.leb_spec (default 0 (priorityFee (transactionConfig tx))) maxFee); [|lia].
    by split_and!.
Qed.

(** Every refusal of the v1 rules is a policy rejection. *)
Lemma reject_bind {A B} (m : attempt A) (k : A → attempt B) e :
  (∀ x, m = Throw x → ∃ d, x = PolicyError REJECTED d) →
  (∀ a x, k a = Throw x → ∃ d, x = PolicyError REJECTED d) →
  (m ≫= k) = Throw e → ∃ d, e = PolicyError REJECTED d.
Proof. destruct m; simpl; [eauto|]. intros H _ [= <-]. by apply H. Qed.

Lemma noComputeBudget_error keys i ixs e :
  noComputeBudget keys i ixs = Throw e → ∃ d, e = PolicyError REJECTED d.
Proof.
  revert i. induction ixs as [|ix ixs IH]; intros i; simpl; [done|].
  case_match; [intros [= <-]; eauto | apply IH].
Qed.

Lemma precompileOrder_error keys i ixs e :
  precompileOrder keys i ixs = Throw e → ∃ d, e = PolicyError REJECTED d.
Proof.
  revert i. induction ixs as [|ix ixs IH]; intros i; simpl; [done|].
  case_match; [intros [= <-]; eauto | apply IH].
Qed.

(** Open a chain of guards, each of which throws a rejection. *)
Ltac rejections :=
  repeat match goal with
  | |- (_ ≫= _) = Throw _ → _ => apply reject_bind; [|intros ?]
  | |- ∀ _, _ => intros ?
  end;
  try solve [ eapply noComputeBudget_error; eassumption
            | eapply precompileOrder_error; eassumption
            | eapply inspect_loop_error; eassumption
            | unfold limit, checkTxV1PriorityFee, reject in *; repeat case_match; naive_solver ].

Lemma inspectTxV1_error tx raw maxFee e :
  inspectTxV1 tx raw maxFee = Throw e → ∃ d, e = PolicyError REJECTED d.
Proof. unfold inspectTxV1. cbv zeta. rejections. Qed.

Lemma inspectTransaction_error tx o e :
  inspectTransaction tx o = Throw e → ∃ d, e = PolicyError REJECTED d.
Proof.
  unfold inspectTransaction. cbv zeta. rejections.
  destruct (version tx); try done.
  destruct (inspectTxV1 _ _ _) eqn:E; [done|]. eapply inspectTxV1_error. rewrite E. naive_solver.
Qed.

Lemma inspect_programs keys ixs ps :
  Forall2 (λ ix p, program_of keys ix = Some p ∧ InstructionAllowed p ix) ixs ps →
  (∀ ix, ix ∈ ixs → ∃ p, program_of keys ix = Some p ∧ InstructionAllowed p ix)
  ∧ (existsb (λ p, existsb (String.eqb p) REQUIRE_ONE_OF) ps = true ↔
     ∃ ix, ix ∈ ixs ∧ program_of keys ix = Some LAZORKIT_V2_DEVNET).
Proof.
  induction 1 as [|ix p ixs ps [Hp Ha] HF [IH1 IH2]].
  - split; [intros ? []%elem_of_nil|]. simpl. split; [done|]. by intros (? & []%elem_of_nil & _).
  - split; [intros x [->|Hx]%elem_of_cons; eauto|].
    cbn [existsb REQUIRE_ONE_OF] in *. rewrite orb_true_iff, IH2, orb_false_r, String.eqb_eq.
    split; [intros [->|(x & Hx & Hl)]; [|]; eexists; (split; [|eassumption]); set_solver|].
    intros (x & [->|Hx]%elem_of_cons & Hl); [left; congruence | right; eauto].
Qed.

Lemma inspect_loop_total keys i ixs :
  (∀ ix, ix ∈ ixs → ∃ p, program_of keys ix = Some p ∧ InstructionAllowed p ix) →
  ∃ ps, forEachR (inspectInstruction keys) i ixs = Ok ps.
Proof.
  intros H. assert (Hs : ∃ ps, Forall2 (λ ix p, program_of keys ix = Some p ∧ InstructionAllowed p ix) ixs ps).
  { induction ixs as [|ix ixs IH]; [by exists []|].
    destruct IH as [ps Hps]; [intros; apply H; set_solver|].
    destruct (H ix (list_elem_of_here _ _)) as [p Hp]. exists (p :: ps). by constructor. }
  destruct Hs as [ps Hps]. exists ps. by apply inspect_loop.
Qed.

(** Reading an accepted transaction's summary. *)
Lemma inspectTransaction_inv tx o s :
  inspectTransaction tx o = Ok s →
  Sponsorable tx o
  ∧ Forall2 (λ ix p, program_of (staticAccountKeys tx) ix = Some p ∧ allowed p = true)
      (compiledInstructions tx) (sm_programs s).
Proof.
  unfold inspectTransaction. cbv zeta. rewrite !reject_step_ok. intros (Hpay & Hsg & Hn & He & H).
  apply bind_inv in H as (ps & Hps%inspect_loop & H). rewrite reject_step_ok in H. destruct H as [Hreq H].
  destruct (inspect_programs _ _ _ Hps) as [Hall Hlz].
  split.
  - split; try done.
    + case_bool_decide; done.
    + intros k Hk. rewrite Hk in Hsg. destruct (String.eqb_spec k (o_relayer o)); done.
    + destruct (Z.ltb_spec (o_maxSignatures o) (numRequiredSignatures (header tx))); [done | lia].
    + by destruct (compiledInstructions tx).
    + intros Hr. apply Hlz. rewrite Hr in Hreq. cbn [andb] in Hreq.
      destruct (existsb _ _); done.
    + intros Hv. rewrite Hv in H. apply bind_inv in H as (t & Ht & _).
      apply inspectTxV1_ok. by rewrite Ht.
  - assert (sm_programs s = ps) as ->.
    { destruct (version tx); [by injection H as <- | by injection H as <- |].
      apply bind_inv in H as (t & _ & [= <-]). done. }
    eapply Forall2_impl; [exact Hps|]. intros ix p [? []]. done.
Qed.

Lemma inspectTransaction_total tx o : Sponsorable tx o → is_ok (inspectTransaction tx o) = true.
Proof.
  intros [Hp Hs Hn He Hi Hl Hv]. unfold inspectTransaction. cbv zeta.
  rewrite bool_decide_true by done. cbn [negb]. rewrite bind_ok.
  replace (match o_signerKey o with
           | Some k => if negb (String.eqb k (o_relayer o)) then reject "signer_key" None else Ok ()
           | None => Ok () end) with (@Ok exn unit ()).
  2:{ destruct (o_signerKey o) as [k|]; [|done]. rewrite (Hs k eq_refl), String.eqb_refl. done. }
  rewrite bind_ok. destruct (Z.ltb_spec (o_maxSignatures o) (numRequiredSignatures (header tx)));
    [lia|]. rewrite bind_ok.
  replace (match compiledInstructions tx with [] => reject "empty" None | _ => Ok () end)
    with (@Ok exn unit ()) by (by destruct (compiledInstructions tx)).
  rewrite bind_ok. destruct (inspect_loop_total _ 0 _ Hi) as [ps Hps]. rewrite Hps, bind_ok.
  apply inspect_loop, inspect_programs in Hps as [_ Hlz].
  replace (o_requireLazorkit o && _) with false.
  2:{ destruct (o_requireLazorkit o); [|done]. symmetry. apply andb_false_iff. right.
      rewrite (proj2 Hlz) by (by apply Hl). done. }
  rewrite bind_ok. destruct (version tx); try done.
  assert (Hok := proj2 (inspectTxV1_ok tx (o_raw o) (o_maxPriorityFeeLamports o)) (Hv eq_refl)).
  destruct (inspectTxV1 _ _ _); done.
Qed.

(** C9.  The static stage of the policy accepts exactly the sponsorable
    transactions: the relayer is the fee payer (and the signer asked for), the
    signature count is within the limit, there is an instruction, every
    instruction calls an allowlisted program, none advances a durable nonce or
    uses the fee payer other than to fund a transfer or an account, LazorKit is
    called when that is required, and a v1 transaction keeps the v1 rules.
    Everything else is refused with the rejection code, never another error. *)
Theorem inspect_accepts_exactly_sponsorable tx o :
  (Sponsorable tx o ∧ ∃ s, inspectTransaction tx o = Ok s)
  ∨ (¬ Sponsorable tx o ∧ ∃ d, inspectTransaction tx o = Throw (PolicyError REJECTED d)).
Proof.
  destruct (inspectTransaction tx o) as [s|e] eqn:E.
  - left. apply inspectTransaction_inv in E as [H _]. eauto.
  - right. split.
    + intros H%inspectTransaction_total. by rewrite E in H.
    + destruct (inspectTransaction_error _ _ _ E) as [d ->]. eauto.
Qed.
End rules.

(** ** Finding the slot a passkey signed *)
Lemma find_map_first {B} (f : nat → option B) a k n y :
  (a <= n < a + k)%nat → (∀ x, (a <= x < n)%nat → f x = None) → f n = Some y →
  find_map f (seq a k) = Some y.
Proof.
  revert a. induction k as [|k IH]; intros a Hn Hbefore Hy; [lia|]. simpl.
  destruct (decide (a = n)) as [->|Hne]; [by rewrite Hy|].
  rewrite Hbefore by lia. apply IH; [lia | | done]. intros x Hx. apply Hbefore. lia.
Qed.

Lemma byte_is_lookup a i b : a !! i = Some b → byte_is a i (val b) = true.
Proof. intros H. unfold byte_is, byte_at. rewrite H. simpl. apply Z.eqb_refl. Qed.

Lemma lookup_total_some (a : bytes) i b : a !! i = Some b → a !!! i = b.
Proof. intros H. by apply list_lookup_total_correct. Qed.

Lemma le_combine_pair c b : le_combine [c; b] = val c + 256 * val b.
Proof.
  pose proof (val_range c). pose proof (val_range b).
  rewrite <- (le_combine_small 2 (val c + 256 * val b)) by lia. f_equal.
  unfold le_split. f_equal; [|f_equal]; apply val_inj; fold (u8 (val c + 256 * val b)).
  - rewrite val_u8, Z.mul_comm, Z_mod_plus_full. by rewrite Z.mod_small.
  - change (byte.of_Z ?z) with (u8 z). rewrite Z.shiftr_div_pow2 by lia. change (2 ^ 8) with 256.
    rewrite Z.mul_comm, Z.div_add, Z.div_small by lia. by rewrite val_u8_small.
Qed.

(** A little-endian u16 is at least 256 times its second byte. *)
Lemma read16_high d k b : d !! S k = Some b → 256 * val b <= read16 d k.
Proof.
  intros Hb. unfold read16.
  destruct (lookup_lt_is_Some_2 d k) as [c Hc]; [apply lookup_lt_Some in Hb; lia|].
  replace (slice k (k + 2) d) with [c; b].
  - rewrite le_combine_pair. pose proof (val_range c). lia.
  - unfold slice. replace (k + 2 - k)%nat with 2%nat by lia.
    rewrite (drop_S d c k Hc), (drop_S d b (S k) Hb). done.
Qed.

(** The text a browser sends as clientDataJSON: an object without control
    characters, of at most 8192 bytes. *)
Record ClientDataText (cdj : bytes) : Prop := {
  cd_open : head cdj = Some (u8 0x7b);
  cd_close : last cdj = Some (u8 0x7d);
  cd_printable : Forall (λ b, 32 <= val b) cdj;
  cd_length : (length cdj <= Z.to_nat 8192)%nat;
}.

(** Authenticator data of at most 1024 bytes, none of whose tails of 37 bytes or more is
    preceded by its own length, which the reader would take for it.  Data without
    extensions has 37 bytes, and no such tail. *)
Record AuthenticatorBytes (ad : bytes) : Prop := {
  ab_length : (37 <= length ad <= 1024)%nat;
  ab_start : ∀ m, (37 <= m < length ad)%nat →
    read16 (le_split 2 (Z.of_nat (length ad)) ++ ad) (length ad - m) ≠ Z.of_nat m;
}.

Section slot.
Variables (keys : list string) (ix : CompiledInstruction) (pre ad cdj : bytes).
Variables (slot counter i : Z) (account : nat).
Hypothesis Hdata : ci_data ix = pre ++ auth_payload_bytes slot counter i ad cdj.
Hypothesis Had : AuthenticatorBytes ad.
Hypothesis Hcdj : ClientDataText cdj.
Hypothesis Hi : 0 <= i < 256.
Hypothesis Haccount : accountKeyIndexes ix !! Z.to_nat i = Some account.
Hypothesis Hsysvar : (length keys <= account)%nat ∨ keys !! account = Some INSTRUCTIONS_SYSVAR.

Lemma cdj_length : (2 <= length cdj <= Z.to_nat 8192)%nat.
Proof.
  destruct Hcdj as [Ho Hc _ Hl]. split; [|done].
  destruct cdj as [|x [|y r]]; simpl in *; [done | | lia].
  injection Ho as ->. vm_compute in Hc. discriminate Hc.
Qed.

(** The instruction data, split at the parts the reader looks for. *)
Lemma data_parts :
  ci_data ix = ((pre ++ buildAuthPayloadPrefix slot counter i ++ le_split 2 (Z.of_nat (length ad)) ++ ad)
                ++ le_split 2 (Z.of_nat (length cdj))) ++ cdj.
Proof.
  rewrite Hdata. unfold auth_payload_bytes. rewrite <- !app_assoc. done.
Qed.

Lemma data_length : length (ci_data ix) = (length pre + 18 + length ad + length cdj)%nat.
Proof. rewrite data_parts, !length_app, !length_le_split, length_prefix. lia. Qed.

Lemma data_cdj k : ci_data ix !! (length pre + 18 + length ad + k)%nat = cdj !! k.
Proof.
  rewrite data_parts. rewrite lookup_app_r by (rewrite !length_app, !length_le_split, length_prefix; lia).
  rewrite !length_app, !length_le_split, length_prefix. f_equal. lia.
Qed.

(** No shorter tail passes for the clientDataJSON. *)
Lemma no_shorter n : (2 <= n < length cdj)%nat → signedSlotFrom keys ix n = None.
Proof.
  intros Hn. pose proof cdj_length as Hl. destruct Had as [Had1 Hstart]. unfold signedSlotFrom. rewrite data_length.
  set (at_ := (length pre + 18 + length ad + length cdj - n)%nat).
  destruct (lookup_lt_is_Some_2 cdj (length cdj - n - 1)) as [b Hb]; [lia|].
  assert (Hhigh : 256 * val b <= read16 (ci_data ix) (at_ - 2)).
  { apply read16_high. rewrite <- Hb, <- data_cdj. f_equal. lia. }
  assert (32 <= val b) by (eapply (Forall_lookup_1 _ _ _ _ (cd_printable _ Hcdj)); exact Hb).
  destruct (Z.eqb_spec (read16 (ci_data ix) (at_ - 2)) (Z.of_nat n)); [lia|].
  by rewrite andb_false_r.
Qed.

Lemma read_slice w k a b c : w = length b → k = length a →
  le_combine (slice k (k + w) (a ++ b ++ c)) = le_combine b.
Proof. intros -> ->. by rewrite slice_mid. Qed.

(** Where a shorter authenticator data would have its length. *)
Lemma false_start m : (37 <= m < length ad)%nat →
  read16 (ci_data ix) (length pre + 18 + length ad - 2 - m - 16 + 14)
  = read16 (le_split 2 (Z.of_nat (length ad)) ++ ad) (length ad - m).
Proof.
  intros Hm. set (b := le_split 2 (Z.of_nat (length ad)) ++ ad). unfold read16. f_equal.
  assert (Hb : length b = (2 + length ad)%nat) by (subst b; by rewrite length_app, length_le_split).
  assert (Hd : ci_data ix = (pre ++ buildAuthPayloadPrefix slot counter i) ++ b ++ le_split 2 (Z.of_nat (length cdj)) ++ cdj).
  { rewrite data_parts. subst b. by rewrite <- !app_assoc. }
  rewrite Hd, slice_app_r by (rewrite length_app, length_prefix; lia). rewrite slice_app_l by (rewrite length_app, length_prefix; lia).
  rewrite length_app, length_prefix. f_equal; lia.
Qed.

(** At the true length, the first candidate for the authenticator data is it. *)
Lemma at_length :
  0 <= slot < 2 ^ 64 → signedSlotFrom keys ix (length cdj) = Some (number_of_bigint slot).
Proof.
  intros Hslot. pose proof cdj_length as Hl. destruct Had as [Had1 Hstart]. unfold signedSlotFrom. rewrite data_length.
  replace (length pre + 18 + length ad + length cdj - length cdj)%nat with (length pre + 18 + length ad)%nat by lia.
  assert (Hopen : byte_is (ci_data ix) (length pre + 18 + length ad) 0x7b = true).
  { change 0x7b with (val (u8 0x7b)). apply byte_is_lookup.
    rewrite <- (Nat.add_0_r (length pre + 18 + length ad)), data_cdj. rewrite <- head_lookup. apply (cd_open _ Hcdj). }
  assert (Hlen : read16 (ci_data ix) (length pre + 18 + length ad - 2) = Z.of_nat (length cdj)).
  { unfold read16. rewrite data_parts, <- app_assoc, read_slice.
    - apply le_combine_small. lia.
    - by rewrite length_le_split.
    - rewrite !length_app, length_le_split, length_prefix. lia. }
  rewrite Hopen, Hlen, Z.eqb_refl. cbn [andb negb].
  apply (find_map_first _ _ _ (length ad)); [lia | |].
  { intros m Hm. unfold signedSlotAt. rewrite false_start by lia.
    rewrite (proj2 (Z.eqb_neq _ _) (Hstart m ltac:(lia))). done. }
  unfold signedSlotAt.
  replace (length pre + 18 + length ad - 2 - length ad - 16)%nat with (length pre) by lia.
  assert (H14 : read16 (ci_data ix) (length pre + 14) = Z.of_nat (length ad)).
  { unfold read16. rewrite data_parts, <- !app_assoc. rewrite (app_assoc pre), read_slice.
    - apply le_combine_small. lia.
    - by rewrite length_le_split.
    - by rewrite length_app, length_prefix. }
  assert (H12 : ci_data ix !!! (length pre + 12)%nat = u8 i).
  { apply lookup_total_some. rewrite data_parts, <- !app_assoc, lookup_app_r by lia.
    replace (length pre + 12 - length pre)%nat with 12%nat by lia.
    by rewrite prefix_eq, <- !app_assoc, !lookup_app_r by (rewrite ?length_le_split; lia). }
  assert (H0 : read64 (ci_data ix) (length pre) = slot).
  { unfold read64. rewrite data_parts, prefix_eq, <- !app_assoc, (read_slice 8) by (by rewrite ?length_le_split).
    apply le_combine_small. lia. }
  rewrite H14, H12, H0, val_u8_small, Haccount by done. rewrite Z.eqb_refl. cbn [negb].
  destruct Hsysvar as [Hs|Hs].
  - rewrite bool_decide_false by lia. done.
  - by rewrite (bool_decide_true (keys !! account = _)), andb_false_r.
Qed.

Lemma signedSlotOf_payload :
  0 <= slot < 2 ^ 64 → signedSlotOf keys ix = Some (number_of_bigint slot).
Proof.
  intros Hslot. pose proof cdj_length as Hl. destruct Had as [Had1 Hstart]. unfold signedSlotOf. rewrite data_length.
  destruct (Nat.ltb_spec (length pre + 18 + length ad + length cdj) (16 + 37 + 2 + 2)); [lia|].
  assert (Hclose : byte_is (ci_data ix) (length pre + 18 + length ad + length cdj - 1) 0x7d = true).
  { change 0x7d with (val (u8 0x7d)). apply byte_is_lookup.
    replace (length pre + 18 + length ad + length cdj - 1)%nat with (length pre + 18 + length ad + (length cdj - 1))%nat by lia.
    rewrite data_cdj. rewrite <- (cd_close _ Hcdj), last_lookup. f_equal. lia. }
  rewrite Hclose. cbn [orb negb].
  apply (find_map_first _ _ _ (length cdj)); [lia | | by apply at_length].
  intros n Hn. apply no_shorter. lia.
Qed.
End slot.

