(* ===== verification/RelayerSim.v ===== *)
(** * The relayer's transaction policy: the simulation

    Models the second stage of src/deploy/relayer/src/policy.mjs: the relayer
    simulates the transaction on its RPC node, asking again while the answer
    only shows that the node is behind, and then checks what the transaction
    does.  The node, the network and the timers are the fields of [Env]: what
    the call made at a given time answers and how long it takes.  The relayer
    serves requests concurrently; at every [await] the other requests may have
    moved the state the requests share. *)
From S2P Require Import Prelude Bytes RelayerTx RelayerPolicy.
Local Open Scope Z_scope.

(** ** What an RPC node answers *)

(** A [fetch]: rejected (no answer, or [AbortSignal.timeout]), or a status and
    the JSON body ([None]: [res.json()] rejects). *)
Inductive http (A : Type) :=
  | HttpFailed
  | Http (status : Z) (body : option A).
Arguments HttpFailed {A}.
Arguments Http {A} status body.

(** A JSON-RPC body: [error?.code] and [result]. *)
Record rpc_body (V : Type) := mkBody { b_error : option Z; b_result : option V }.
Arguments mkBody {V} b_error b_result.
Arguments b_error {V} r.
Arguments b_result {V} r.

(** One group of inner instructions; [programId] may be missing. *)
Record inner_group := mkGroup {
  g_index : nat;
  g_instructions : option (list (option string));
}.

(** The value of [simulateTransaction]; [v_lamports] is
    [accounts?.[0]?.lamports] when it is a number. *)
Record sim_value := mkSim {
  v_err : option tx_error;
  v_logs : option (list string);
  v_innerInstructions : option (list inner_group);
  v_lamports : option Z;
  v_unitsConsumed : option Z;
  v_contextSlot : option Z;
}.

(** A signature's status: its slot, its error, and whether it is [confirmed] or
    [finalized]. *)
Record sig_status := mkStatus { st_slot : Z; st_err : option tx_error; st_settled : bool }.

(** ** The environment

    Every call gets the time it is made at and its number; [e_took] is how long
    it takes, [e_others] what the other requests did to the shared state (the
    times of the signatures of the last hour, and the slot floor) while this
    one waited. *)
Record Env := mkEnv {
  e_simulate : Z → nat → string → option Z → http (rpc_body sim_value);
  e_getSlot : Z → nat → http (rpc_body Z);
  e_getBalance : Z → nat → option Z → outcome js_error Z;
  e_getSignatureStatus : Z → nat → string → bool → outcome js_error (option sig_status);
  e_isBlockhashValid : Z → nat → bytes → option Z → outcome js_error bool;
  e_sendRawTransaction : Z → nat → bytes → option Z → outcome js_error string;
  e_getLatestBlockhash : Z → nat → outcome js_error string;
  e_took : nat → Z;
  e_others : nat → list Z * Z → list Z * Z;
}.

(** What a request did, oldest first. *)
Inductive event :=
  | EvSimulate (txBase64 : string) (minContextSlot : option Z)
  | EvSigned (raw : bytes)
  | EvSend (raw : bytes) (minContextSlot : option Z).

Record srv := mkSrv {
  clock : Z;
  calls : nat;
  signedAt : list Z;
  slotFloor : Z;
  events : list event;
}.

(** ** The monad of a request *)
Definition R (E A : Type) : Type := srv → srv * outcome E A.

#[export] Instance R_ret {E} : MRet (R E) := λ A a s, (s, Ok a).
#[export] Instance R_bind {E} : MBind (R E) := λ A B f m s,
  match m s with
  | (s', Ok a) => f a s'
  | (s', Throw e) => (s', Throw e)
  end.

Definition raise {E A} (e : E) : R E A := λ s, (s, Throw e).
Definition of_attempt {E A} (r : outcome E A) : R E A := λ s, (s, r).
(** [try { m } catch (e) { h(e) }] *)
Definition try_catch {E F A} (m : R E A) (h : E → R F A) : R F A := λ s,
  match m s with
  | (s', Ok a) => (s', Ok a)
  | (s', Throw e) => h e s'
  end.
Definition gets {E A} (f : srv → A) : R E A := λ s, (s, Ok (f s)).
Definition emit {E} (ev : event) : R E unit := λ s,
  (mkSrv (clock s) (calls s) (signedAt s) (slotFloor s) (events s ++ [ev]), Ok ()).

(** [Date.now()] *)
Definition Date_now {E} : R E Z := gets clock.

(** [slot || null]. *)
Definition or_null (slot : Z) : option Z := if slot =? 0 then None else Some slot.

Section sim.
Variable env : Env.

(** Waiting [ms], after which the other requests have run. *)
Definition pass (ms : Z) (s : srv) : srv :=
  let '(sg, fl) := e_others env (calls s) (signedAt s, slotFloor s) in
  mkSrv (clock s + ms) (S (calls s)) sg fl (events s).

Definition sleep {E} (ms : Z) : R E unit := λ s, (pass ms s, Ok ()).

(** How long call [n] takes. *)
Definition took (n : nat) : Z := Z.max 0 (e_took env n).

(** An awaited call of web3.js. *)
Definition await {E A} (call : Z → nat → outcome E A) : R E A := λ s,
  (pass (took (calls s)) s, call (clock s) (calls s)).

(** [await fetch(...)] with [AbortSignal.timeout(RPC_TIMEOUT_MS)]. *)
Definition await_fetch {E A} (call : Z → nat → http A) : R E (http A) := λ s,
  if RPC_TIMEOUT_MS <? took (calls s) then (pass RPC_TIMEOUT_MS s, Ok HttpFailed)
  else (pass (took (calls s)) s, Ok (call (clock s) (calls s))).

Definition fetch_error : exn := RpcError (mkJsError None "fetch failed" None false).

(** The loop of [rpcCall]; [more] is how many more 429s are backed off. *)
Fixpoint rpcCall_from {A} (more : nat) (backoff : Z) (call : Z → nat → http A) : R exn A :=
  r ← await_fetch call;
  match r with
  | HttpFailed => raise fetch_error
  | Http status body =>
    match more with
    | S more => if status =? 429 then _ ← sleep backoff; rpcCall_from more (2 * backoff) call
                else match body with Some b => mret b | None => raise fetch_error end
    | O => match body with Some b => mret b | None => raise fetch_error end
    end
  end.
Definition rpcCall {A} (call : Z → nat → http A) : R exn A := rpcCall_from 3 500 call.

(** [new PolicyError(ERR.SIMULATION_FAILED, ..., { rule: 'simulation', ... })]. *)
Definition simulation_error (reason : option string) (err : option tx_error) (slot : option Z) : exn :=
  PolicyError SIMULATION_FAILED (mkData "simulation" None reason err slot).

Definition simulateOnce (txBase64 : string) (minContextSlot : option Z) :
    R exn (rpc_body sim_value) :=
  _ ← emit (EvSimulate txBase64 minContextSlot);
  try_catch (rpcCall (λ t n, e_simulate env t n txBase64 minContextSlot))
    (λ _, raise (simulation_error None None None)).

(** ** Lag *)
Inductive lag := LagSlot | LagBlockhash | LagCounter.

#[export] Instance lag_eq_dec : EqDecision lag.
Proof. solve_decision. Defined.

Definition lagKind (body : rpc_body sim_value) (programs : list string) : option lag :=
  if bool_decide (b_error body = Some MIN_CONTEXT_SLOT_NOT_REACHED) then Some LagSlot
  else
    let err := b_result body ≫= v_err in
    if bool_decide (err = Some (TxName "BlockhashNotFound")) then Some LagBlockhash
    else
      match snd <$> lazorkitError err programs (b_result body ≫= v_logs) with
      | Some code => if (code =? SIGNATURE_REUSED) || (code =? INVALID_SIGNATURE_AGE)
                     then Some LagCounter else None
      | None => None
      end.

Definition SIGNED_SLOT_AHEAD_MAX : Z := 150.

(** The arguments of [checkSimulation]. *)
Record sim_args := mkSimArgs {
  a_txBase64 : string;
  a_maxLamports : Z;
  a_preBalance : Z;
  a_programs : list string;
  a_slotFloor : Z;
  a_signedSlot : option Z;
}.

Record sim_report := mkReport {
  r_innerPrograms : list string;
  r_payerDelta : Z;
  r_unitsConsumed : option Z;
  r_logs : list string;
  r_contextSlot : option Z;
}.

(** [(await rpcCall(rpcUrl, 'getSlot', ...).catch(() => null))?.result ?? 0]. *)
Definition confirmedSlot : R exn Z :=
  b ← try_catch (b ← rpcCall (e_getSlot env); mret (Some b)) (λ _, mret None);
  mret (default 0 (b ≫= b_result)).

(** The slot the next simulation is pinned to. *)
Definition nextMinSlot (a : sim_args) (l : lag) (minContextSlot : option Z) (head : Z) : option Z :=
  let signed :=
    match l, a_signedSlot a with
    | LagCounter, Some s =>
      if negb (s =? 0) && negb (head =? 0) && (s <=? head + SIGNED_SLOT_AHEAD_MAX) then s else 0
    | _, _ => 0
    end in
  or_null (Z.max (Z.max (Z.max (default 0 minContextSlot) (a_slotFloor a)) head) signed).

(** The lag retries: the slot asked for last, the last answer, and the last
    answer that carried a result. *)
Fixpoint lagRetries (a : sim_args) (more counterRetries : nat) (minContextSlot : option Z)
    (body : rpc_body sim_value) (lastResult : option (rpc_body sim_value)) :
    R exn (option Z * rpc_body sim_value * option (rpc_body sim_value)) :=
  match more with
  | O => mret (minContextSlot, body, lastResult)
  | S more =>
    match lagKind body (a_programs a) with
    | None => mret (minContextSlot, body, lastResult)
    | Some l =>
      if bool_decide (l = LagCounter) && (2 <=? counterRetries)%nat
      then mret (minContextSlot, body, lastResult)
      else
        _ ← sleep 500;
        minContextSlot ← (if bool_decide (l = LagSlot) then mret minContextSlot
                          else head ← confirmedSlot; mret (nextMinSlot a l minContextSlot head));
        body ← simulateOnce (a_txBase64 a) minContextSlot;
        lagRetries a more (if bool_decide (l = LagCounter) then S counterRetries else counterRetries)
          minContextSlot body (match b_result body with Some _ => Some body | None => lastResult end)
    end
  end.

(** ** The verdict *)

(** [ALLOWED_PROGRAMS.has(ix.programId)] over one group. *)
Fixpoint innerGroup (index : nat) (ixs : list (option string)) (seen : list string) :
    attempt (list string) :=
  match ixs with
  | [] => Ok seen
  | None :: _ => reject "program_not_allowed" (Some index)
  | Some p :: ixs =>
    if negb (allowed p) then reject "program_not_allowed" (Some index)
    else innerGroup index ixs (if bool_decide (p ∈ seen) then seen else seen ++ [p])
  end.

Fixpoint innerGroups (groups : list inner_group) (seen : list string) : attempt (list string) :=
  match groups with
  | [] => Ok seen
  | g :: groups =>
    seen ← innerGroup (g_index g) (default [] (g_instructions g)) seen; innerGroups groups seen
  end.

(** The checks on the final answer. *)
Definition judge (a : sim_args) (v : sim_value) : attempt sim_report :=
  match v_err v with
  | Some err =>
    let stale := bool_decide (snd <$> lazorkitError (Some err) (a_programs a) (Some (default [] (v_logs v)))
                              = Some SIGNATURE_REUSED) in
    Throw (simulation_error (if stale then Some "stale_counter"%string else None) (Some err) None)
  | None =>
    inner ← innerGroups (default [] (v_innerInstructions v)) [];
    match v_lamports v with
    | None => Throw (simulation_error None None None)
    | Some post =>
      let payerDelta := post - a_preBalance a in
      if a_maxLamports a <? - payerDelta then reject "max_allowed_lamports" None
      else Ok (mkReport inner payerDelta (v_unitsConsumed v) (default [] (v_logs v))
                 (v_contextSlot v))
    end
  end.

Definition conclude (a : sim_args) (minContextSlot : option Z) (body : rpc_body sim_value)
    (lastResult : option (rpc_body sim_value)) : attempt sim_report :=
  if bool_decide (b_error body = Some MIN_CONTEXT_SLOT_NOT_REACHED)
  then Throw (simulation_error (Some "rpc_behind"%string) None minContextSlot)
  else
    let body := match b_error body, lastResult with
                | Some _, Some last => last
                | _, _ => body
                end in
    match b_error body, b_result body with
    | Some _, _ => Throw (simulation_error None None None)
    | None, None => Throw ETypeError
    | None, Some v => judge a v
    end.

Definition checkSimulation (a : sim_args) : R exn sim_report :=
  let minContextSlot := or_null (a_slotFloor a) in
  body ← simulateOnce (a_txBase64 a) minContextSlot;
  '(minContextSlot, body, lastResult) ←
    lagRetries a 5 0 minContextSlot body
      (match b_result body with Some _ => Some body | None => None end);
  of_attempt (conclude a minContextSlot body lastResult).
End sim.
