(* ===== verification/RelayerServer.v ===== *)
(** * The relayer's requests

    Models src/deploy/relayer/src/server.mjs: the rate limit, the path every
    signature takes (decode, inspect, simulate, sign), sending and confirming,
    the JSON-RPC methods and the HTTP front.  A request runs in the monad [R]
    of [RelayerSim]; background work ([watch], a send after [respond_after:
    signed]) belongs to the other requests. *)
From S2P Require Import Prelude Bytes Json RelayerTx RelayerPolicy RelayerSim.
Local Open Scope Z_scope.

(** ** Configuration *)
Record relayer_cfg := mkCfg {
  maxLamports : Z;
  maxTxPerHour : Z;
  requireLazorkit : bool;
  confirmTimeoutMs : Z;
  apiKey : option string;
  corsOrigins : option (list string);
  anyCluster : bool;
  maxSignatures : Z;
  txV1 : bool;
  maxPriorityFeeLamports : Z;
}.

(** ** Text *)
Definition lower (c : Byte.byte) : Byte.byte :=
  if (65 <=? val c) && (val c <=? 90) then u8 (val c + 32) else c.

(** [/needle/i.test(text)] for a literal lower-case needle. *)
Fixpoint contains (needle text : bytes) : bool :=
  match strip_prefix needle text with
  | Some _ => true
  | None => match text with [] => false | _ :: text => contains needle text end
  end.
Definition contains_ci (needle text : string) : bool :=
  contains (utf8 needle) (lower <$> utf8 text).

(** [text.split(c)[0]]. *)
Fixpoint before (c : Z) (b : bytes) : bytes :=
  match b with
  | x :: r => if val x =? c then [] else x :: before c r
  | [] => []
  end.

(** ** Sending errors *)
Definition isMinContextSlotError (e : js_error) : bool :=
  bool_decide (je_code e = Some MIN_CONTEXT_SLOT_NOT_REACHED)
  || contains_ci "minimum context slot" (je_message e).

Definition sendErrorText (e : js_error) : string :=
  String.string_of_list_byte
    (before 10 (utf8 (match je_transactionMessage e with Some t => t | None => je_message e end))).

Definition LAG_SEND_ERROR (text : string) : bool :=
  contains_ci "minimum context slot" text || contains_ci "blockhash not found" text
  || contains_ci "node is behind" text || contains_ci "node is unhealthy" text.

Definition ALREADY_PROCESSED (text : string) : bool := contains_ci "already been processed" text.

(** [/^4\d\d\b/.test(message)]. *)
Definition is_http_4xx (message : string) : bool :=
  match utf8 message with
  | a :: b :: c :: r =>
    (val a =? 52) && is_digit b && is_digit c
    && match r with d :: _ => negb (is_word d) | [] => true end
  | _ => false
  end.

(** ** Requests *)
Record signed_tx := mkSigned { sg_tx : VersionedTransaction; sg_raw : bytes; sg_signature : string }.

Record landed_tx := mkLanded { l_signed : signed_tx; l_slot : Z; l_confirmed : bool }.

(** An exception of [vetAndSign] and its [landed] property. *)
Record vet_exn := mkVet { ve_exn : exn; ve_landed : option landed_tx }.

(** How a wait for confirmation ends. *)
Inductive landing :=
  | Confirmed (slot : Z)
  | Failed (err : tx_error) (slot : Z)
  | Expired
  | TimedOut.

(** One round of the polling loop. *)
Inductive poll_result := PollReturn (l : landing) | PollBreak | PollContinue (expiredSeen : nat).

Definition raise_floor {E} (slot : Z) : R E unit := λ s,
  (mkSrv (clock s) (calls s) (signedAt s) (Z.max (slotFloor s) slot) (events s), Ok ()).

Definition no_data (code : Z) : exn := PolicyError code (mkData "" None None None None).
Definition rule_only (code : Z) (rule : string) : exn :=
  PolicyError code (mkData rule None None None None).

(** [while (signedAt.length && now - signedAt[0] > 3_600_000) signedAt.shift();] *)
Fixpoint shiftOld (now : Z) (l : list Z) : list Z :=
  match l with
  | t :: r => if 3600000 <? now - t then shiftOld now r else l
  | [] => []
  end.

(** One call of [takeRateSlot] at time [now]: the new list, and whether it
    returned. *)
Definition rateSlot (max : Z) (now : Z) (l : list Z) : list Z * bool :=
  let l := shiftOld now l in
  if max <=? Z.of_nat (length l) then (l, false) else (l ++ [now], true).

Definition RESPOND_AFTER : list string := ["confirmed"; "sent"; "signed"]%string.
Definition PROTECTED : list string := ["signTransaction"; "signAndSendTransaction"]%string.

Section server.
Context `{W : Web3}.
Variables (env : Env) (cfg : relayer_cfg) (payer : Keypair).

Definition relayer : string := toBase58 (publicKey payer).

Definition takeRateSlot : R exn unit := λ s,
  let '(l, ok) := rateSlot (maxTxPerHour cfg) (clock s) (signedAt s) in
  (mkSrv (clock s) (calls s) l (slotFloor s) (events s),
   if ok then Ok () else Throw (rule_only RATE_LIMITED "usage_limit")).

(** A member of a JSON object; [None] on anything else. *)
Definition member (v : json) (name : string) : option json :=
  match v with
  | JObj ms => snd <$> List.find (λ m, bytesEqual (fst m) (utf8 name)) (reverse ms)
  | _ => None
  end.

(** [params.signer_key ?? null]; a value that is no string equals no address. *)
Definition signerKeyOf (v : option json) : option string :=
  match v with
  | None | Some JNull => None
  | Some (JStr s) => Some (String.string_of_list_byte s)
  | Some _ => Some ""%string
  end.

Definition decodeParams (params : json) :
    attempt (VersionedTransaction * bytes * option string) :=
  match member params "transaction" with
  | Some (JStr text) =>
    let raw := base64_decode (String.string_of_list_byte text) in
    if isTxV1 raw && negb (txV1 cfg) then Throw (rule_only TX_V1_DISABLED "tx_v1_disabled")
    else match deserialize raw with
         | Some tx => Ok (tx, raw, signerKeyOf (member params "signer_key"))
         | None =>
           _ ← (if isTxV1 raw then checkTxV1PriorityFee (txV1PriorityFee raw) (maxPriorityFeeLamports cfg)
                else Ok ());
           Throw (no_data INVALID_PARAMS)
         end
  | _ => Throw (no_data INVALID_PARAMS)
  end.

Definition signAsFeePayer (tx : VersionedTransaction) (raw : bytes) : attempt signed_tx :=
  match version tx with
  | V1 =>
    signed ← signTxV1AsFeePayer raw payer;
    sg ← txV1Signature signed 0;
    Ok (mkSigned tx signed (toBase58 sg))
  | _ =>
    tx ← of_option ETypeError (sign_with payer tx);
    raw ← of_option ETypeError (serialize tx);
    sg ← of_option ETypeError (signatures tx !! 0%nat);
    Ok (mkSigned tx raw (toBase58 sg))
  end.

Definition lookUp (signature : string) : R js_error (option sig_status) :=
  await env (λ t n, e_getSignatureStatus env t n signature true).

(** The copy [explainIfAlreadySent] signs. *)
Definition signedCopy (tx : VersionedTransaction) (raw : bytes) : attempt signed_tx :=
  match version tx with
  | V1 => signAsFeePayer tx raw
  | _ => b ← of_option ETypeError (serialize tx);
         copy ← of_option ETypeError (deserialize b);
         signAsFeePayer copy raw
  end.

(** The exception [vetAndSign] then throws. *)
Definition explainIfAlreadySent (tx : VersionedTransaction) (raw : bytes) (e : exn) : R Empty_set vet_exn :=
  match signedCopy tx raw with
  | Throw _ => mret (mkVet e None)
  | Ok copy =>
    st ← try_catch (st ← lookUp (sg_signature copy); mret (Some st)) (λ _, mret None);
    match st with
    | None | Some None => mret (mkVet e None)
    | Some (Some st) =>
      match st_err st with
      | None => mret (mkVet e (Some (mkLanded copy (st_slot st) (st_settled st))))
      | Some err =>
        mret (mkVet (PolicyError SEND_FAILED
                       (mkData "transaction_failed" None None (Some err) (Some (st_slot st)))) None)
      end
    end
  end.

(** [for (let attempt = 0; ; attempt++)] with at most [more] retries. *)
Fixpoint atSlotFloor {A} (more : nat) (read : option Z → R js_error A) : R js_error A :=
  floor ← gets slotFloor;
  try_catch (read (or_null floor)) (λ e,
    match more with
    | O => raise e
    | S more => if isMinContextSlotError e then _ ← sleep env 500; atSlotFloor more read
                else raise e
    end).

Definition plain {A} (m : R exn A) : R vet_exn A := try_catch m (λ e, raise (mkVet e None)).

Definition readBalance : R exn Z :=
  try_catch (atSlotFloor 5 (λ min, await env (λ t n, e_getBalance env t n min))) (λ e,
    if isMinContextSlotError e then
      floor ← gets slotFloor;
      raise (simulation_error (Some "rpc_behind"%string) None (Some floor))
    else raise (RpcError e)).

(** [ctx.programs]. *)
Definition programsOf (tx : VersionedTransaction) : list string :=
  (λ ix, default "(lookup)"%string (key_at (staticAccountKeys tx) (programIdIndex ix)))
    <$> compiledInstructions tx.

(** The signed transaction and the slot its simulation ran at. *)
Definition vetAndSign (params : json) : R vet_exn (signed_tx * option Z) :=
  '(tx, raw, signerKey) ← plain (of_attempt (decodeParams params));
  _ ← plain (of_attempt (inspectTransaction tx
        (mkInspect relayer signerKey (maxSignatures cfg) (requireLazorkit cfg) (Some raw)
           (maxPriorityFeeLamports cfg))));
  wire ← plain (of_attempt (match version tx with
                            | V1 => Ok raw
                            | _ => of_option ETypeError (serialize tx)
                            end));
  preBalance ← plain readBalance;
  floor ← gets slotFloor;
  sim ← try_catch
    (checkSimulation env (mkSimArgs (base64_encode wire) (maxLamports cfg) preBalance (programsOf tx)
                            floor (passkeySignedSlot tx)))
    (λ e, match e with
          | PolicyError _ d =>
            if String.eqb (d_rule d) "simulation" && bool_decide (is_Some (d_err d)) then
              λ s, match explainIfAlreadySent tx raw e s with
                   | (s', Ok v) => (s', Throw v)
                   | (s', Throw f) => match f with end
                   end
            else raise (mkVet e None)
          | _ => raise (mkVet e None)
          end);
  _ ← plain takeRateSlot;
  signed ← plain (of_attempt (signAsFeePayer tx raw));
  _ ← emit (EvSigned (sg_raw signed));
  mret (signed, r_contextSlot sim).

(** The signed transaction, [ctx.contextSlot] and [ctx.resent]. *)
Definition vetAndSignOrLanded (params : json) : R exn (signed_tx * option Z * option (Z * bool)) :=
  try_catch ('(s, slot) ← vetAndSign params; mret (s, slot, None))
    (λ v, match ve_landed v with
          | None => raise (ve_exn v)
          | Some l => mret (l_signed l, None, Some (l_slot l, l_confirmed l))
          end).

(** ** Sending and confirming *)

(** [ALREADY_PROCESSED.test(text) || (await lookUp(signature).catch(() => null))]. *)
Definition alreadySent (text signature : string) : R exn bool :=
  if ALREADY_PROCESSED text then mret true
  else try_catch (st ← lookUp signature; mret (bool_decide (is_Some st))) (λ _, mret false).

Fixpoint sendWithLagRetry (more : nat) (raw : bytes) (minContextSlot : option Z) (signature : string) :
    R exn string :=
  let min := minContextSlot ≫= or_null in
  _ ← emit (EvSend raw min);
  try_catch (await env (λ t n, e_sendRawTransaction env t n raw min)) (λ e,
    let text := sendErrorText e in
    let answered := je_isSendTransactionError e || is_http_4xx (je_message e) in
    let last_attempt : R exn string :=
      known ← alreadySent text signature;
      if (known : bool) then mret signature else raise (rule_only SEND_FAILED "send") in
    match more with
    | S more => if LAG_SEND_ERROR text || negb answered
                then _ ← sleep env 500; sendWithLagRetry more raw minContextSlot signature
                else last_attempt
    | O => last_attempt
    end).

(** [within(call, ms, TIMED_OUT)]: [None] when the timer fires first. *)
Definition within {E A} (ms : Z) (call : Z → nat → outcome E A) : R Empty_set (option (outcome E A)) :=
  λ s, let ms := Z.max 0 ms in
       if ms <? took env (calls s) then (pass env ms s, Ok None)
       else (pass env (took env (calls s)) s, Ok (Some (call (clock s) (calls s)))).

(** The last look, once the blockhash was twice reported expired. *)
Definition lastLook (deadline : Z) (signature : string) (expiredSeen : nat) :
    R Empty_set poll_result :=
  if (expiredSeen <? 2)%nat then mret (PollContinue expiredSeen)
  else
    now ← Date_now;
    r ← within (deadline - now) (λ t n, e_getSignatureStatus env t n signature true);
    match r with
    | None => mret PollBreak
    | Some (Throw _) => mret (PollContinue expiredSeen)
    | Some (Ok None) => mret (PollReturn Expired)
    | Some (Ok (Some _)) => mret (PollContinue 0)
    end.

(** The body of the loop after its sleep; an RPC error keeps polling. *)
Definition pollOnce (deadline : Z) (signature : string) (blockhash : bytes)
    (minContextSlot : option Z) (polls expiredSeen : nat) : R Empty_set poll_result :=
  now ← Date_now;
  r ← within (deadline - now) (λ t n, e_getSignatureStatus env t n signature false);
  match r with
  | None => mret PollBreak
  | Some (Throw _) => mret (PollContinue expiredSeen)
  | Some (Ok (Some st)) =>
    if st_settled st
    then mret (PollReturn (match st_err st with
                           | Some err => Failed err (st_slot st)
                           | None => Confirmed (st_slot st)
                           end))
    else mret (PollContinue 0)
  | Some (Ok None) =>
    if negb (polls mod 4 =? 0)%nat then mret (PollContinue expiredSeen)
    else
      now ← Date_now;
      v ← within (deadline - now) (λ t n, e_isBlockhashValid env t n blockhash minContextSlot);
      match v with
      | None => mret PollBreak
      | Some (Throw _) => mret (PollContinue expiredSeen)
      | Some (Ok valid) =>
        lastLook deadline signature (if (valid : bool) then 0%nat else S expiredSeen)
      end
  end.

(** [None] when the fuel is used up, which [waitConfirmed]'s never is
    ([waitConfirmed_total]). *)
Fixpoint waitLoop (fuel : nat) (deadline : Z) (signature : string) (blockhash : bytes)
    (minContextSlot : option Z) (polls expiredSeen : nat) : R Empty_set (option landing) :=
  match fuel with
  | O => mret None
  | S fuel =>
    now ← Date_now;
    if deadline - now <=? 0 then mret (Some TimedOut)
    else
      _ ← sleep env (Z.min (if (polls <? 10)%nat then 500 else 1000) (Z.max 0 (deadline - now)));
      r ← pollOnce deadline signature blockhash minContextSlot (S polls) expiredSeen;
      match r with
      | PollReturn l => mret (Some l)
      | PollBreak => mret (Some TimedOut)
      | PollContinue expiredSeen =>
        waitLoop fuel deadline signature blockhash minContextSlot (S polls) expiredSeen
      end
  end.

Definition waitFuel : nat := Z.to_nat (confirmTimeoutMs cfg / 500 + 2).

Definition waitConfirmed (signature : string) (blockhash : bytes) (minContextSlot : option Z) :
    R Empty_set (option landing) :=
  now ← Date_now;
  waitLoop waitFuel (now + confirmTimeoutMs cfg) signature blockhash minContextSlot 0 0.

(** The background watch of a sent transaction. *)
Fixpoint watchLoop (fuel : nat) (started : Z) (signature : string) : R Empty_set unit :=
  match fuel with
  | O => mret ()
  | S fuel =>
    now ← Date_now;
    if 90000 <=? now - started then mret ()
    else
      _ ← sleep env 1500;
      st ← try_catch (st ← await env (λ t n, e_getSignatureStatus env t n signature false);
                      mret (Some st)) (λ _, mret None);
      match st with
      | Some (Some st) =>
        match st_err st with
        | Some _ => mret ()
        | None => if st_settled st then raise_floor (st_slot st)
                  else watchLoop fuel started signature
        end
      | _ => watchLoop fuel started signature
      end
  end.
Definition watch (signature : string) : R Empty_set unit :=
  started ← Date_now; watchLoop 61 started signature.

(** ** Methods *)
Inductive method_result :=
  | PayerSigner (signer_address payment_address : string)
  | Blockhash (blockhash : string)
  | SignedTransaction (signature : option string) (signed_transaction : string) (signer_pubkey : string).

Definition getPayerSigner : R exn method_result := mret (PayerSigner relayer relayer).

Definition getBlockhash : R exn method_result :=
  try_catch (b ← await env (e_getLatestBlockhash env); mret (Blockhash b)) (λ e, raise (RpcError e)).

Definition signTransaction (params : json) : R exn method_result :=
  '(signed, _, _) ← vetAndSignOrLanded params;
  mret (SignedTransaction None (base64_encode (sg_raw signed)) relayer).

(** [params.respond_after ?? 'confirmed'], if it is one of the three. *)
Definition respondAfterOf (params : json) : option string :=
  match member params "respond_after" with
  | None | Some JNull => Some "confirmed"%string
  | Some (JStr s) =>
    let s := String.string_of_list_byte s in
    if existsb (String.eqb s) RESPOND_AFTER then Some s else None
  | Some _ => None
  end.

(** A computation that cannot throw. *)
Definition never {A} (m : R Empty_set A) : R exn A := λ s,
  match m s with
  | (s', Ok a) => (s', Ok a)
  | (s', Throw f) => match f with end
  end.

(** What follows [waitConfirmed]; with the fuel used up it would be a timeout. *)
Definition answerLanding (result : method_result) (landed : option landing) : R exn method_result :=
  match landed with
  | Some (Confirmed slot) => _ ← raise_floor slot; mret result
  | Some (Failed err slot) =>
    raise (PolicyError SEND_FAILED (mkData "transaction_failed" None None (Some err) (Some slot)))
  | Some Expired => raise (rule_only SEND_FAILED "blockhash_expired")
  | Some TimedOut | None => mret result
  end.

(** Waiting for the transaction, the default. *)
Definition confirmAndAnswer (signed : signed_tx) (contextSlot : option Z) (result : method_result) :
    R exn method_result :=
  floor ← gets slotFloor;
  landed ← never (waitConfirmed (sg_signature signed) (recentBlockhash (sg_tx signed))
                    (or_null (default floor contextSlot)));
  answerLanding result landed.

Definition signAndSendTransaction (params : json) : R exn method_result :=
  match respondAfterOf params with
  | None => raise (no_data INVALID_PARAMS)
  | Some respondAfter =>
    '(signed, contextSlot, resent) ← vetAndSignOrLanded params;
    let signature := sg_signature signed in
    let result := SignedTransaction (Some signature) (base64_encode (sg_raw signed)) relayer in
    match resent with
    | None =>
      if String.eqb respondAfter "signed" then
        _ ← emit (EvSend (sg_raw signed) (contextSlot ≫= or_null)); mret result
      else
        _ ← sendWithLagRetry 4 (sg_raw signed) contextSlot signature;
        if negb (String.eqb respondAfter "confirmed") then mret result
        else confirmAndAnswer signed contextSlot result
    | Some (_, confirmed) =>
      if negb (String.eqb respondAfter "confirmed") || confirmed then mret result
      else confirmAndAnswer signed contextSlot result
    end
  end.
End server.
