(* ===== verification/RelayerHttp.v ===== *)
(** * The relayer's HTTP front

    Models the HTTP part and the startup checks of
    src/deploy/relayer/src/server.mjs: which requests reach a method at all,
    which pages a browser lets call it, and on which cluster it starts. *)
From S2P Require Import Prelude Bytes Json RelayerTx RelayerPolicy RelayerSim RelayerServer.
Local Open Scope Z_scope.

(** Header text is held as its Latin-1 bytes, as Node gives it.  Each chunk of the body
    comes with the milliseconds the relayer waits for it; [q_end] is how long it then waits
    for the end of the body, and whether the connection broke instead. *)
Record http_request := mkRequest {
  q_method : string;
  q_url : string;
  q_host : option string;
  q_origin : option string;
  q_contentType : option string;
  q_apiKey : option string;
  q_privateNetwork : option string;
  q_chunks : list (Z * bytes);
  q_end : Z * bool;
}.

(** The body, and how long the client takes to deliver it. *)
Definition q_body (req : http_request) : bytes := concat (snd <$> q_chunks req).
Fixpoint arrival (chunks : list (Z * bytes)) (fin : Z) : Z :=
  match chunks with [] => Z.max 0 fin | (ms, _) :: chunks => Z.max 0 ms + arrival chunks fin end.

Definition MAX_BODY : Z := 64 * 1024.

Definition to_lower (s : string) : string := String.string_of_list_byte (lower <$> utf8 s).

(** The enclosing brackets removed, if there are both, in lower case. *)
Definition unbracket (h : bytes) : string :=
  let inner := match h with
               | x :: r =>
                 if (val x =? 91) && bool_decide (r ≠ []) && bool_decide (last r = Some (u8 93))
                 then take (length r - 1) r else h
               | [] => h
               end in
  String.string_of_list_byte (lower <$> inner).

(** [host.startsWith('[') ? host.slice(0, host.indexOf(']') + 1) : host.split(':')[0]];
    without a bracket to close, the slice is empty. *)
Definition host_name (host : bytes) : bytes :=
  if byte_is host 0 91 then
    match list_find (λ b, val b = 93) host with
    | Some (i, _) => take (S i) host
    | None => []
    end
  else before 58 host.

Definition hostAllowed (allowedHosts : list string) (req : http_request) : bool :=
  match q_host req with
  | None => false
  | Some h => if String.eqb h "" then false
              else existsb (String.eqb (unbracket (host_name (utf8 h)))) allowedHosts
  end.

(** [' '.trim()] over Latin-1. *)
Definition is_trimmed (c : Byte.byte) : bool :=
  let v := val c in ((9 <=? v) && (v <=? 13)) || (v =? 32) || (v =? 160).
Fixpoint trim_start (b : bytes) : bytes :=
  match b with c :: r => if is_trimmed c then trim_start r else b | [] => [] end.
Definition trim (b : bytes) : bytes := reverse (trim_start (reverse (trim_start b))).

Definition isJson (req : http_request) : bool :=
  let t := default ""%string (q_contentType req) in
  String.eqb (String.string_of_list_byte (lower <$> trim (before 59 (utf8 t)))) "application/json".

Inductive body_read := Body (text : bytes) | TooLarge | Broken.

Inductive reply :=
  | NoContent
  | Health (balance_lamports : option Z)
  | Status (status : Z)
  | RpcFailure (status code : Z)
  | RpcResult (result : method_result).

Section http.
Context `{W : Web3}.
Variables (env : Env) (cfg : relayer_cfg) (payer : Keypair).
(** [new URL(origin)]: its protocol and hostname, or a [TypeError]; and the
    addresses of this machine's interfaces. *)
Variable parse_url : string → option (string * string).
Variable machineAddresses : list string.
Variable allowedHosts : list string.

(** *** CORS *)
Definition machineHostnames : list string :=
  ["localhost"; "127.0.0.1"; "::1"]%string
  ++ ((λ a, to_lower (String.string_of_list_byte (before 37 (utf8 a)))) <$> machineAddresses).

Definition corsAny : bool := bool_decide ((corsOrigins cfg ≫= head) = Some "*"%string).

Definition originAllowed (origin : option string) : bool :=
  match origin with
  | None => false
  | Some o =>
    if String.eqb o "" || String.eqb o "null" then false
    else match corsOrigins cfg with
         | Some l => corsAny || existsb (String.eqb o) l
         | None =>
           match parse_url o with
           | None => false
           | Some (protocol, hostname) =>
             (String.eqb protocol "http:" || String.eqb protocol "https:")
             && existsb (String.eqb (unbracket (utf8 hostname))) machineHostnames
           end
         end
  end.

(** [Access-Control-Allow-Origin], and whether the private-network header is
    sent. *)
Definition corsHeaders (req : http_request) : option string * bool :=
  let allow := if corsAny then Some "*"%string
               else if originAllowed (q_origin req) then q_origin req else None in
  (allow, bool_decide (q_privateNetwork req = Some "true"%string) && bool_decide (is_Some allow)).

(** *** Dispatch *)
Definition method_named (method : string) (params : json) : option (R exn method_result) :=
  if String.eqb method "getPayerSigner" then Some (getPayerSigner payer)
  else if String.eqb method "getBlockhash" then Some (getBlockhash env)
  else if String.eqb method "signTransaction" then Some (signTransaction env cfg payer params)
  else if String.eqb method "signAndSendTransaction"
  then Some (signAndSendTransaction env cfg payer params)
  else None.

(** The API key is asked for when one is set and not empty. *)
Definition unauthorized (req : http_request) (method : string) : bool :=
  match apiKey cfg with
  | Some k => negb (String.eqb k "") && existsb (String.eqb method) PROTECTED
              && negb (bool_decide (q_apiKey req = Some k))
  | None => false
  end.

Definition call_method (fn : R exn method_result) : R Empty_set reply := λ s,
  match fn s with
  | (s', Ok r) => (s', Ok (RpcResult r))
  | (s', Throw (PolicyError code _)) => (s', Ok (RpcFailure 200 code))
  | (s', Throw _) => (s', Ok (RpcFailure 200 (-32000)))
  end.

Definition handleRpc (req : http_request) (text : bytes) : R Empty_set reply :=
  match json_parse text with
  | None => mret (RpcFailure 200 (-32700))
  | Some rpc =>
    match member rpc "method" with
    | Some (JStr m) =>
      let method := String.string_of_list_byte m in
      match method_named method (default JNull (member rpc "params")) with
      | None => mret (RpcFailure 200 (-32601))
      | Some fn => if unauthorized req method then mret (RpcFailure 401 (-32001)) else call_method fn
      end
    | _ => mret (RpcFailure 200 (-32600))
    end
  end.

(** Reading the body, bounded. *)
Fixpoint readBody (chunks : list (Z * bytes)) (fin : Z * bool) (size : Z) (acc : bytes) : R Empty_set body_read :=
  match chunks with
  | [] => _ ← sleep env (Z.max 0 fin.1); mret (if fin.2 then Broken else Body acc)
  | (ms, c) :: chunks =>
    _ ← sleep env (Z.max 0 ms);
    let size := size + blen c in
    if MAX_BODY <? size then mret TooLarge else readBody chunks fin size (acc ++ c)
  end.

(** What [status] asks the node for; the rest of the answer is the configuration. *)
Definition status : R Empty_set reply :=
  balance ← try_catch (b ← await env (λ t n, e_getBalance env t n None); mret (Some b)) (λ _, mret None);
  mret (Health balance).

(** A body that breaks off rejects [handle], which [listen] answers with a 500. *)
Definition handle (req : http_request) : R Empty_set reply :=
  if negb (hostAllowed allowedHosts req) then mret (RpcFailure 421 (-32600))
  else if String.eqb (q_method req) "OPTIONS" then mret NoContent
  else if String.eqb (q_method req) "GET" then
    if String.eqb (q_url req) "/" || String.eqb (q_url req) "/health"
       || String.prefix "/?" (q_url req)
    then status else mret (Status 404)
  else if negb (String.eqb (q_method req) "POST") then mret (Status 405)
  else if negb (isJson req) then mret (RpcFailure 415 (-32600))
  else read ← readBody (q_chunks req) (q_end req) 0 [];
       match read with
       | TooLarge => mret (RpcFailure 413 (-32600))
       | Broken => mret (RpcFailure 500 (-32000))
       | Body text => handleRpc req text
       end.

(** *** Startup *)
Record program_account := mkProgram { pa_owner : string; pa_data : bytes }.

(** The checks of [preflight] that end the process: the cluster, and the
    program's upgrade authority. [programAt] reads an account. *)
Definition preflight (genesis : option string) (programAt : bytes → option program_account)
    (program : bytes) : bool :=
  match genesis with
  | None => false
  | Some g =>
    if String.eqb g MAINNET_GENESIS then false
    else if negb (String.eqb g DEVNET_GENESIS) && negb (anyCluster cfg) then false
    else
      match programAt program with
      | None => true
      | Some p =>
        if negb (String.eqb (pa_owner p) "BPFLoaderUpgradeab1e11111111111111111111111") then true
        else match programAt (slice 4 36 (pa_data p)) with
             | None => true
             | Some pd => negb (byte_is (pa_data pd) 12 1
                                && String.eqb (toBase58 (slice 13 45 (pa_data pd))) (relayer payer))
             end
      end
  end.
End http.
