(* ===== verification/RelayerSafety.v ===== *)
(** * What the relayer signs, and how long it takes

    Theorems on [RelayerSim] and [RelayerServer]: the verdict of a simulation,
    the rate limit over any sequence of requests, what a signature that leaves
    the relayer has passed, how a wait for confirmation ends, and that every
    request is answered in bounded time. *)
From S2P Require Import Prelude Bytes Json RelayerTx RelayerPolicy RelayerSim RelayerServer.
From S2P Require Import RelayerHttp RelayerProps.
From Stdlib Require Import Sorting.Sorted.
Local Open Scope Z_scope.

(** ** The monad *)
Lemma R_bind_inv {E A B} (m : R E A) (f : A → R E B) s s' b :
  (m ≫= f) s = (s', Ok b) → ∃ s1 a, m s = (s1, Ok a) ∧ f a s1 = (s', Ok b).
Proof.
  unfold mbind, R_bind. destruct (m s) as [s1 [a|e]]; [eauto | intros [=]].
Qed.

Lemma try_catch_inv {E F A} (m : R E A) (h : E → R F A) s s' a :
  try_catch m h s = (s', Ok a) →
  m s = (s', Ok a) ∨ ∃ s1 e, m s = (s1, Throw e) ∧ h e s1 = (s', Ok a).
Proof.
  unfold try_catch. destruct (m s) as [s1 [b|e]]; [intros [= <- <-]; by left | right; eauto].
Qed.

Lemma of_attempt_inv {E A} (r : outcome E A) s s' a :
  of_attempt r s = (s', Ok a) → s' = s ∧ r = Ok a.
Proof. by intros [= <- ->]. Qed.

Lemma plain_inv {A} (m : R exn A) s s' a : plain m s = (s', Ok a) → m s = (s', Ok a).
Proof. intros [H|(s1 & e & _ & [=])]%try_catch_inv. done. Qed.

Lemma default_or_null x : default 0 (or_null x) = x.
Proof. unfold or_null. by destruct (Z.eqb_spec x 0). Qed.

(** Split a successful sequence at its first step. *)
Ltac r_step H :=
  let s1 := fresh "s" in let a := fresh "a" in let E := fresh "E" in
  apply R_bind_inv in H as (s1 & a & E & H).

(** ** The verdict of a simulation *)
Section simulation.
Variable env : Env.

(** [body] is what the node answered to a simulation of [tx] at [min]. *)
Definition simulated (tx : string) (min : option Z) (body : rpc_body sim_value) : Prop :=
  ∃ t n status, e_simulate env t n tx min = Http status (Some body).

Lemma await_fetch_ok {E A} (call : Z → nat → http A) s s' status body :
  await_fetch (E := E) env call s = (s', Ok (Http status body)) →
  ∃ t n, call t n = Http status body.
Proof.
  unfold await_fetch. destruct (_ <? _); [done|]. intros [= _ H]. eauto.
Qed.

Lemma rpcCall_ok {A} more backoff (call : Z → nat → http A) s s' body :
  rpcCall_from env more backoff call s = (s', Ok body) →
  ∃ t n status, call t n = Http status (Some body).
Proof.
  revert backoff s. induction more as [|more IH]; intros backoff s; cbn [rpcCall_from]; intros H;
    r_step H; destruct a as [|status [b|]]; try done.
  - injection H as _ ->. apply await_fetch_ok in E as (t & n & E). eauto.
  - destruct (status =? 429); [r_step H; by eapply IH|].
    injection H as _ ->. apply await_fetch_ok in E as (t & n & E). eauto.
  - destruct (status =? 429); [r_step H; by eapply IH | done].
Qed.

Lemma simulateOnce_ok tx min s s' body :
  simulateOnce env tx min s = (s', Ok body) → simulated tx min body.
Proof.
  unfold simulateOnce. intros H. r_step H. apply try_catch_inv in H as [H|(? & ? & _ & [=])].
  by apply rpcCall_ok in H.
Qed.

(** An answer to a simulation at or past the slot floor. *)
Definition above_floor (a : sim_args) (body : rpc_body sim_value) : Prop :=
  ∃ min, a_slotFloor a <= default 0 min ∧ simulated (a_txBase64 a) min body.

Lemma nextMinSlot_floor a l min head : a_slotFloor a <= default 0 (nextMinSlot a l min head).
Proof. unfold nextMinSlot. rewrite default_or_null. lia. Qed.

Lemma lagRetries_ok a more k min body last s s' min' body' last' :
  a_slotFloor a <= default 0 min → above_floor a body → (∀ b, last = Some b → above_floor a b) →
  lagRetries env a more k min body last s = (s', Ok (min', body', last')) →
  above_floor a body' ∧ (∀ b, last' = Some b → above_floor a b).
Proof.
  revert k min body last s. induction more as [|more IH]; intros k min body last s Hm Hb Hl; cbn [lagRetries].
  { by intros [= _ _ <- <-]. }
  destruct (lagKind body (a_programs a)) as [l|]; [|by intros [= _ _ <- <-]].
  destruct (_ && _); [by intros [= _ _ <- <-]|]. intros H.
  r_step H. r_step H. r_step H. apply simulateOnce_ok in E1.
  assert (Hm' : a_slotFloor a <= default 0 a1).
  { destruct (bool_decide (l = LagSlot)); [by injection E0 as _ ->|].
    r_step E0. injection E0 as _ <-. apply nextMinSlot_floor. }
  eapply IH; [exact Hm' | | | exact H].
  - by exists a1.
  - intros b. destruct (b_result a2); [intros [= <-]; by exists a1 | apply Hl].
Qed.

(** Every inner call of the groups is to an allowlisted program. *)
Definition inner_allowed (groups : list inner_group) : Prop :=
  ∀ g p, g ∈ groups → p ∈ default [] (g_instructions g) → ∃ q, p = Some q ∧ allowed q = true.

Lemma innerGroup_ok i ixs seen out :
  innerGroup i ixs seen = Ok out → ∀ p, p ∈ ixs → ∃ q, p = Some q ∧ allowed q = true.
Proof.
  revert seen. induction ixs as [|[q|] ixs IH]; intros seen; cbn [innerGroup].
  - intros _ p []%elem_of_nil.
  - destruct (allowed q) eqn:Eq; [|done]. cbn [negb]. intros H p [->|Hp]%elem_of_cons; eauto.
  - done.
Qed.

Lemma innerGroups_ok groups seen out : innerGroups groups seen = Ok out → inner_allowed groups.
Proof.
  revert seen. induction groups as [|g groups IH]; intros seen; cbn [innerGroups].
  - intros _ g p []%elem_of_nil.
  - intros (seen' & Hg & H)%bind_inv g' p [->|Hg']%elem_of_cons Hp.
    + by eapply innerGroup_ok.
    + by eapply IH.
Qed.

(** What a simulation that passes shows. *)
Record SafeSimulation (a : sim_args) (r : sim_report) (v : sim_value) : Prop := {
  ss_clean : v_err v = None;
  ss_inner : inner_allowed (default [] (v_innerInstructions v));
  ss_post : v_lamports v = Some (a_preBalance a + r_payerDelta r);
  ss_loss : - r_payerDelta r <= a_maxLamports a;
}.

Lemma judge_ok a v r : judge a v = Ok r → SafeSimulation a r v.
Proof.
  unfold judge. destruct (v_err v) eqn:Ee; [done|].
  intros (inner & Hi%innerGroups_ok & H)%bind_inv.
  destruct (v_lamports v) as [post|] eqn:Ep; [|done].
  destruct (Z.ltb_spec (a_maxLamports a) (- (post - a_preBalance a))); [done|].
  injection H as <-. split; try done. cbn [r_payerDelta]. rewrite Ep. f_equal. lia.
Qed.

Lemma checkSimulation_ok a s s' r :
  checkSimulation env a s = (s', Ok r) →
  ∃ body v, above_floor a body ∧ b_result body = Some v ∧ SafeSimulation a r v.
Proof.
  unfold checkSimulation. intros H. r_step H. apply simulateOnce_ok in E.
  assert (Hf : above_floor a a0).
  { exists (or_null (a_slotFloor a)). split; [|done]. rewrite default_or_null. lia. }
  r_step H. destruct a1 as [[min body] last]. apply of_attempt_inv in H as [-> H].
  eapply lagRetries_ok in E0 as [Hb Hl]; [|by rewrite default_or_null | done |].
  2:{ intros b Hb. destruct (b_result a0); naive_solver. }
  unfold conclude in H. case_bool_decide; [done|].
  set (fin := match b_error body, last with Some _, Some l => l | _, _ => body end) in H.
  assert (Hfin : above_floor a fin).
  { subst fin. destruct (b_error body), last as [l|]; try done. by apply Hl. }
  destruct (b_error fin); [done|]. destruct (b_result fin) as [v|] eqn:Ev; [|done].
  exists fin, v. split; [done|]. split; [done|]. by apply judge_ok.
Qed.
End simulation.

(** ** What a signature that leaves the relayer has passed *)
Lemma R_bind_throw {E A B} (m : R E A) (f : A → R E B) s s' e :
  (m ≫= f) s = (s', Throw e) →
  m s = (s', Throw e) ∨ ∃ s1 a, m s = (s1, Ok a) ∧ f a s1 = (s', Throw e).
Proof.
  unfold mbind, R_bind. destruct (m s) as [s1 [a|x]]; [eauto | intros [= <- <-]; by left].
Qed.

Lemma plain_throw {A} (m : R exn A) s s' v : plain m s = (s', Throw v) → ve_landed v = None.
Proof.
  unfold plain, try_catch. destruct (m s) as [s1 [a|e]]; [done|]. by intros [= _ <-].
Qed.

Section vetting.
Context `{W : Web3}.
Variables (env : Env) (cfg : relayer_cfg) (payer : Keypair).

(** The options a request is inspected with. *)
Definition request_opts (raw : bytes) (signerKey : option string) : inspect_opts :=
  mkInspect (relayer payer) signerKey (maxSignatures cfg) (requireLazorkit cfg) (Some raw)
    (maxPriorityFeeLamports cfg).

(** The bytes simulated: those received for v1, else the message re-serialized. *)
Definition wire_of (tx : VersionedTransaction) (raw : bytes) : attempt bytes :=
  match version tx with V1 => Ok raw | _ => of_option ETypeError (serialize tx) end.

(** A simulation of [wire] passed: the node was asked for the fee payer's balance and for
    the simulation at slot [floor] or past it, the simulation ended without an error and
    called only allowlisted programs, and what the fee payer had and has left differ by at
    most the cap. *)
Definition SimulatedSafely (floor : Z) (wire : bytes) : Prop :=
  ∃ t n min pre min' body v post,
    e_getBalance env t n min = Ok pre ∧ floor <= default 0 min
    ∧ simulated env (base64_encode wire) min' body ∧ floor <= default 0 min'
    ∧ b_result body = Some v ∧ v_err v = None ∧ inner_allowed (default [] (v_innerInstructions v))
    ∧ v_lamports v = Some post ∧ pre - post <= maxLamports cfg.

(** The cluster reported the transaction with this signature as landed without
    an error. *)
Definition OnChain (signature : string) : Prop :=
  ∃ t n st, e_getSignatureStatus env t n signature true = Ok (Some st) ∧ st_err st = None.

(** Why the relayer, its floor at [floor], gave out a signed transaction. *)
Inductive Vetted (floor : Z) (params : json) (signed : signed_tx) : option (Z * bool) → Prop :=
  | VettedFresh tx raw signerKey wire :
      decodeParams cfg params = Ok (tx, raw, signerKey) →
      Sponsorable tx (request_opts raw signerKey) →
      wire_of tx raw = Ok wire → SimulatedSafely floor wire →
      signAsFeePayer payer tx raw = Ok signed →
      Vetted floor params signed None
  | VettedLanded tx raw signerKey slot settled :
      decodeParams cfg params = Ok (tx, raw, signerKey) →
      Sponsorable tx (request_opts raw signerKey) →
      signedCopy payer tx raw = Ok signed →
      OnChain (sg_signature signed) →
      Vetted floor params signed (Some (slot, settled)).

(** What the other requests do to the floor in the meantime. *)
Hypothesis others_rise : ∀ n l k, k <= snd (e_others env n (l, k)).

Lemma pass_rises ms s : slotFloor s <= slotFloor (pass env ms s).
Proof. unfold pass. specialize (others_rise (calls s) (signedAt s) (slotFloor s)). by destruct (e_others _ _ _). Qed.

(** The balance is read at the floor or past it, and the floor does not fall. *)
Lemma readBalance_ok s s' pre : readBalance env s = (s', Ok pre) →
  slotFloor s <= slotFloor s' ∧ ∃ t n min, e_getBalance env t n min = Ok pre ∧ slotFloor s <= default 0 min.
Proof.
  unfold readBalance. intros [H|(s1 & e & _ & H)]%try_catch_inv.
  2:{ destruct (isMinContextSlotError e); [|done]. by r_step H. }
  revert s H. generalize 5%nat. intros more. induction more as [|more IH]; intros s H; cbn [atSlotFloor] in H.
  all: r_step H; injection E as <- <-; apply try_catch_inv in H as [H|(s1 & e & H & H1)].
  1,3: unfold await in H; injection H as <- H; split; [apply pass_rises|];
       eexists _, _, _; split; [exact H|rewrite default_or_null; lia].
  - done.
  - destruct (isMinContextSlotError e); [|done]. r_step H1. apply IH in H1 as (H1 & t & n & min & Hb & Hm).
    unfold await in H. injection H as <- _. unfold sleep in E. injection E as <-.
    set (s2 := pass env _ s) in *. pose proof (pass_rises 500 s2) as Hu. pose proof (pass_rises (took env (calls s)) s) as Hu'. fold s2 in Hu'.
    split; [lia|]. exists t, n, min. split; [done|lia].
Qed.

Lemma vetAndSign_ok params s s' signed slot :
  vetAndSign env cfg payer params s = (s', Ok (signed, slot)) → Vetted (slotFloor s) params signed None.
Proof.
  unfold vetAndSign. intros H. r_step H. destruct a as [[tx raw] key].
  apply plain_inv, of_attempt_inv in E as [-> Hd].
  r_step H. apply plain_inv, of_attempt_inv in E as [-> Hi].
  apply inspectTransaction_inv in Hi as [Hsp _].
  r_step H. apply plain_inv, of_attempt_inv in E as [-> Hw].
  r_step H. apply plain_inv, readBalance_ok in E as (Hup & t & n & min & Hbal & Hmin).
  r_step H. injection E as -> <-. r_step H. apply try_catch_inv in E as [E1|(s5 & e & _ & E1)].
  2:{ destruct e; try done. destruct (_ && _); [|done].
      destruct (explainIfAlreadySent _ _ _ _ _ _) as [? [?|[]]]. done. }
  apply checkSimulation_ok in E1 as (body & v & (min' & Hmin' & Hsim) & Hv & Hsafe).
  r_step H. r_step H. apply plain_inv, of_attempt_inv in E0 as [-> Hs].
  r_step H. injection H as _ <- _.
  eapply VettedFresh; [exact Hd | exact Hsp | exact Hw | | exact Hs].
  destruct Hsafe as [Hc Hi Hp Hl]. cbn [a_preBalance a_maxLamports a_slotFloor a_txBase64] in *.
  eexists t, n, min, _, min', body, v, _. split_and!; try done; lia.
Qed.

Lemma explain_landed tx raw e s s' v l :
  explainIfAlreadySent env payer tx raw e s = (s', Ok v) → ve_landed v = Some l →
  ve_landed (mkVet e None) = None →
  signedCopy payer tx raw = Ok (l_signed l) ∧ OnChain (sg_signature (l_signed l)).
Proof.
  intros H Hl _. unfold explainIfAlreadySent in H.
  destruct (signedCopy payer tx raw) as [copy|] eqn:Ec; [|injection H as _ <-; done].
  r_step H. destruct a as [[st|]|]; try (injection H as _ <-; done).
  destruct (st_err st) eqn:Es; injection H as _ <-; [done|]. cbn [ve_landed] in Hl. injection Hl as <-.
  split; [done|]. apply try_catch_inv in E as [E|(? & ? & _ & [=])].
  r_step E. injection E as _ ->. unfold lookUp, await in E0. injection E0 as _ E0.
  eexists _, _, st. split; [exact E0 | done].
Qed.

Lemma vetAndSign_landed params s s' v l :
  vetAndSign env cfg payer params s = (s', Throw v) → ve_landed v = Some l →
  Vetted (slotFloor s) params (l_signed l) (Some (l_slot l, l_confirmed l)).
Proof.
  unfold vetAndSign. intros H Hl.
  apply R_bind_throw in H as [H|(s1 & [[tx raw] key] & E & H)]; [apply plain_throw in H; congruence|].
  apply plain_inv, of_attempt_inv in E as [-> Hd].
  apply R_bind_throw in H as [H|(s2 & ? & E & H)]; [apply plain_throw in H; congruence|].
  apply plain_inv, of_attempt_inv in E as [-> Hi]. apply inspectTransaction_inv in Hi as [Hsp _].
  apply R_bind_throw in H as [H|(s3 & ? & _ & H)]; [apply plain_throw in H; congruence|].
  apply R_bind_throw in H as [H|(s4 & ? & _ & H)]; [apply plain_throw in H; congruence|].
  apply R_bind_throw in H as [H|(s5 & ? & _ & H)]; [done|].
  apply R_bind_throw in H as [H|(s6 & ? & _ & H)].
  - unfold try_catch in H. destruct (checkSimulation _ _ _) as [s6 [?|e]]; [done|].
    assert (Hno : ∀ y, raise (A := sim_report) (mkVet y None) s6 = (s', Throw v) → False).
    { intros y Hx. injection Hx as _ <-. done. }
    destruct e; try (by destruct (Hno _ H)). destruct (_ && _); [|by destruct (Hno _ H)].
    destruct (explainIfAlreadySent _ _ _ _ _ _) as [s7 [v'|[]]] eqn:Ee. injection H as _ ->.
    destruct (explain_landed _ _ _ _ _ _ _ Ee Hl eq_refl) as [Hc Ho].
    by eapply VettedLanded.
  - apply R_bind_throw in H as [H|(s7 & ? & _ & H)]; [apply plain_throw in H; congruence|].
    apply R_bind_throw in H as [H|(s8 & ? & _ & H)]; [apply plain_throw in H; congruence|].
    apply R_bind_throw in H as [H|(s9 & ? & _ & H)]; done.
Qed.

Lemma vetAndSignOrLanded_ok params s s' signed slot resent :
  vetAndSignOrLanded env cfg payer params s = (s', Ok (signed, slot, resent)) →
  Vetted (slotFloor s) params signed resent.
Proof.
  intros [H|(s1 & v & H & H2)]%try_catch_inv.
  - r_step H. destruct a as [sg sl]. injection H as _ <- _ <-. by eapply vetAndSign_ok.
  - destruct (ve_landed v) as [l|] eqn:El; [|done]. injection H2 as _ <- _ <-.
    apply R_bind_throw in H as [H|(s2 & [sg sl] & _ & H)]; [|done]. by eapply vetAndSign_landed.
Qed.

Lemma answerLanding_ok result landed s s' r :
  answerLanding result landed s = (s', Ok r) → r = result.
Proof.
  unfold answerLanding. destruct landed as [[slot| | |]|]; try done; [|by intros [= _ <-]..].
  intros H. r_step H. by injection H as _ <-.
Qed.

Lemma confirmAndAnswer_ok signed slot result s s' r :
  confirmAndAnswer env cfg signed slot result s = (s', Ok r) → r = result.
Proof. intros H. unfold confirmAndAnswer in H. r_step H. r_step H. by eapply answerLanding_ok. Qed.

(** The signed transaction an answer carries. *)
Definition carries (r : method_result) (signed : signed_tx) : Prop :=
  ∃ sig, r = SignedTransaction sig (base64_encode (sg_raw signed)) (relayer payer)
    ∧ (sig = None ∨ sig = Some (sg_signature signed)).

Lemma signAndSend_ok params s s' r :
  signAndSendTransaction env cfg payer params s = (s', Ok r) →
  ∃ signed resent, carries r signed ∧ Vetted (slotFloor s) params signed resent.
Proof.
  unfold signAndSendTransaction. destruct (respondAfterOf params) as [ra|]; [|done]. intros H.
  r_step H. destruct a as [[signed slot] resent]. apply vetAndSignOrLanded_ok in E.
  exists signed, resent. split; [|done].
  assert (Hr : r = SignedTransaction (Some (sg_signature signed)) (base64_encode (sg_raw signed)) (relayer payer)).
  { destruct resent as [[sl settled]|].
    - destruct (_ || _); [by injection H as _ <- | by eapply confirmAndAnswer_ok].
    - destruct (String.eqb ra "signed"); [r_step H; by injection H as _ <-|]. r_step H.
      destruct (negb _); [by injection H as _ <- | by eapply confirmAndAnswer_ok]. }
  eexists. split; [exact Hr | by right].
Qed.

Lemma signTransaction_ok params s s' r :
  signTransaction env cfg payer params s = (s', Ok r) →
  ∃ signed resent, carries r signed ∧ Vetted (slotFloor s) params signed resent.
Proof.
  unfold signTransaction. intros H. r_step H. destruct a as [[signed slot] resent].
  apply vetAndSignOrLanded_ok in E. injection H as _ <-. exists signed, resent.
  split; [|done]. eexists. split; [done | by left].
Qed.
End vetting.

(** ** Signing a vetted v1 transaction *)
Section in_place.
Context `{W : Web3} {WL : Web3Laws W}.
Variables (cfg : relayer_cfg) (payer : Keypair).
Hypothesis payer_key : length (publicKey payer) = 32%nat.
Hypothesis payer_pair : ed25519_public (slice 0 32 (secretKey payer)) = publicKey payer.

(** A v1 transaction that passes the static policy is signed, and in place:
    the relayer's signature over the message goes into the fee payer's slot,
    every other byte (the message and the other signers' signatures) stays as
    received, and signing the result again changes nothing, so that a resend
    of the same bytes gives the same transaction id. *)
Theorem sponsored_v1_signed_in_place tx raw key :
  deserialize raw = Some tx → version tx = V1 → Sponsorable tx (request_opts cfg payer raw key) →
  ∃ signed m, signAsFeePayer payer tx raw = Ok signed
    ∧ m = Z.to_nat (blen raw - 64 * numRequiredSignatures (header tx))
    ∧ length (sg_raw signed) = length raw
    ∧ slice 0 m (sg_raw signed) = slice 0 m raw
    ∧ sg_signature signed = toBase58 (ed25519_sign (slice 0 32 (secretKey payer)) (slice 0 m raw))
    ∧ txV1Signature (sg_raw signed) 0
      = Ok (ed25519_sign (slice 0 32 (secretKey payer)) (slice 0 m raw))
    ∧ (∀ i, 1 <= i < numRequiredSignatures (header tx) →
         txV1Signature (sg_raw signed) i = txV1Signature raw i)
    ∧ signTxV1AsFeePayer (sg_raw signed) payer = Ok (sg_raw signed).
Proof.
  intros Hdec Hver Hsp. pose proof (sp_payer _ _ Hsp) as Hkey. cbn [o_relayer request_opts] in Hkey.
  destruct (v1_payer _ _ _ (sp_v1 _ _ Hsp Hver)) as [Hn _].
  unfold key_at, relayer in Hkey. apply fmap_Some in Hkey as (k & Hk & Hkey).
  rewrite <- head_lookup in Hk.
  destruct (v1_layout _ _ _ Hdec Hver Hk) as (Hv1 & Hb1 & -> & Hlen).
  assert (Hfee : slice 42 74 raw = publicKey payer).
  { apply toBase58_inj; [|exact payer_key|by symmetry]. rewrite length_slice. unfold blen in Hlen. lia. }
  set (n := numRequiredSignatures (header tx)) in *.
  assert (HL : txV1Layout raw = Ok (n, blen raw - 64 * n)).
  { unfold txV1Layout, SIGNATURE_BYTES, ADDRESSES_AT, ADDRESS_BYTES. rewrite Hv1, Hb1. cbn [negb from_option]. unfold id.
    destruct (Z.ltb_spec (blen raw - 64 * n) (42 + 32)); [lia | done]. }
  destruct (signTxV1AsFeePayer raw payer) as [signed|e] eqn:Es.
  2:{ exfalso. unfold signTxV1AsFeePayer in Es. rewrite HL, bind_ok, Hfee, bytesEqual_refl in Es.
      destruct (Z.ltb_spec n 1); [lia|]. cbn [negb] in Es. unfold ed25519Sign in Es.
      rewrite payer_pair, bytesEqual_refl in Es. done. }
  destruct (signTxV1_effect raw payer signed Es) as (n' & m' & HL1 & HL2 & Hl & Hm & H0 & Hi & Hagain).
  rewrite HL in HL1. injection HL1 as <- <-.
  exists (mkSigned tx signed (toBase58 (ed25519_sign (slice 0 32 (secretKey payer))
    (slice 0 (Z.to_nat (blen raw - 64 * n)) raw)))), (Z.to_nat (blen raw - 64 * n)).
  split_and!; try done. unfold signAsFeePayer. rewrite Hver, Es, bind_ok, H0. done.
Qed.
End in_place.

(** ** The HTTP front *)
Section front.
Context `{W : Web3}.
Variables (env : Env) (cfg : relayer_cfg) (payer : Keypair) (allowedHosts : list string).
Hypothesis others_rise : ∀ n l k, k <= snd (e_others env n (l, k)).

Lemma readBody_ok chunks fin size acc s s' text :
  readBody env chunks fin size acc s = (s', Ok (Body text)) →
  slotFloor s <= slotFloor s'
  ∧ text = acc ++ concat (snd <$> chunks) ∧ (chunks = [] ∨ size + blen (concat (snd <$> chunks)) <= MAX_BODY).
Proof.
  revert size acc s. induction chunks as [|[ms c] chunks IH]; intros size acc s H; cbn [readBody] in H;
    r_step H; unfold sleep in E; injection E as <-.
  - destruct fin.2; [done|]. injection H as <- <-. split; [apply (pass_rises env others_rise)|].
    split; [by rewrite app_nil_r | by left].
  - destruct (Z.ltb_spec MAX_BODY (size + blen c)); [done|].
    apply IH in H as (Hf & -> & Hs). pose proof (pass_rises env others_rise (Z.max 0 ms) s).
    rewrite fmap_cons. cbn [concat snd]. split; [lia|]. split; [by rewrite app_assoc|]. right.
    unfold blen in *. rewrite length_app. destruct Hs as [->|Hs]; [simpl|]; lia.
Qed.

Lemma vetted_mono floor floor' params signed resent : floor <= floor' →
  Vetted env cfg payer floor' params signed resent → Vetted env cfg payer floor params signed resent.
Proof.
  intros Hf [tx raw key wire Hd Hsp Hw (t & n & min & pre & min' & body & v & post & H) Hs|tx raw key slot settled Hd Hsp Hc Ho].
  - eapply VettedFresh; [exact Hd|exact Hsp|exact Hw| |exact Hs].
    exists t, n, min, pre, min', body, v, post. destruct H as (? & ? & ? & ? & ?). split_and!; try tauto; lia.
  - by eapply VettedLanded.
Qed.

(** What a request that was answered with a signed transaction had. *)
Record RequestAccepted (req : http_request) (params : json) : Prop := {
  ar_host : hostAllowed allowedHosts req = true;
  ar_post : q_method req = "POST"%string;
  ar_json : isJson req = true;
  ar_size : blen (q_body req) <= 65536;
  ar_key : ∀ k, apiKey cfg = Some k → k ≠ ""%string → q_apiKey req = Some k;
  ar_params : ∃ rpc, json_parse (q_body req) = Some rpc
              ∧ params = default JNull (member rpc "params");
}.

Definition is_signed (r : method_result) : bool :=
  match r with SignedTransaction _ _ _ => true | _ => false end.

Lemma method_signed method params fn s s' r :
  method_named env cfg payer method params = Some fn → fn s = (s', Ok r) → is_signed r = true →
  existsb (String.eqb method) PROTECTED = true
  ∧ ∃ signed resent, carries payer r signed ∧ Vetted env cfg payer (slotFloor s) params signed resent.
Proof.
  unfold method_named, PROTECTED. cbn [existsb].
  destruct (String.eqb method "getPayerSigner"); [intros [= <-] [= _ <-]; done|].
  destruct (String.eqb method "getBlockhash").
  { intros [= <-] [H|(? & ? & _ & [=])]%try_catch_inv; [|done..]. r_step H. by injection H as _ <-. }
  destruct (String.eqb method "signTransaction").
  { intros [= <-] H _. split; [done | by eapply signTransaction_ok]. }
  destruct (String.eqb method "signAndSendTransaction"); [|done].
  intros [= <-] H _. split; [done | by eapply signAndSend_ok].
Qed.

Lemma handle_signed req s s' r :
  handle env cfg payer allowedHosts req s = (s', Ok (RpcResult r)) → is_signed r = true →
  ∃ params signed resent, RequestAccepted req params ∧ carries payer r signed
    ∧ Vetted env cfg payer (slotFloor s) params signed resent.
Proof.
  unfold handle. intros H Hr.
  destruct (hostAllowed allowedHosts req) eqn:Eh; [|done]. cbn [negb] in H.
  destruct (String.eqb (q_method req) "OPTIONS"); [done|].
  destruct (String.eqb (q_method req) "GET"); [destruct (_ || _); [|done]; unfold status in H; by r_step H|].
  destruct (String.eqb_spec (q_method req) "POST") as [Hp|]; [|done]. cbn [negb] in H.
  destruct (isJson req) eqn:Ej; [|done]. cbn [negb] in H.
  r_step H. rename s0 into s0'. destruct a as [text| |]; [|done..].
  apply readBody_ok in E as (Hup & -> & Hsize). cbn [app] in H. unfold handleRpc in H. fold (q_body req) in *.
  destruct (json_parse (q_body req)) as [rpc|] eqn:Ep; [|done].
  destruct (member rpc "method") as [[| | |m| |]|] eqn:Em; try done.
  destruct (method_named _ _ _ _ _) as [fn|] eqn:En; [|done].
  destruct (unauthorized cfg req (String.string_of_list_byte m)) eqn:Eu; [done|].
  unfold call_method in H. destruct (fn s0') as [s1 [r1|e]] eqn:Ef; [|by destruct e].
  injection H as _ ->. destruct (method_signed _ _ _ _ _ _ En Ef Hr) as [Hprot (signed & resent & Hc & Hv)].
  exists (default JNull (member rpc "params")), signed, resent. split; [|split; [done|by eapply vetted_mono]].
  split; try done.
  - destruct Hsize as [Hnil|?]; [unfold q_body; rewrite Hnil; vm_compute; discriminate|done].
  - intros k Hk Hne. unfold unauthorized in Eu. rewrite Hk, Hprot in Eu.
    destruct (String.eqb_spec k ""); [done|]. cbn [negb andb] in Eu.
    by case_bool_decide.
  - by exists rpc.
Qed.

(** C7.  A signed transaction leaves the relayer only in answer to a POST with
    a JSON body of at most 64 KiB, addressed to a host name the relayer listens
    on and carrying the API key when one is set; and only if the transaction is
    sponsorable and either a simulation of the very bytes signed passed, or the cluster
    already reports that transaction as landed.  A simulation that passed was asked for,
    as was the fee payer's balance before it, at the slot floor the relayer had when the
    request came in or past it; it ended without an error, called only allowlisted
    programs, and left the fee payer with no less than that balance minus the cap.
    Requests served in the meantime may only raise the floor, which is all any request
    does to it. *)
Theorem signature_given_out_is_vetted req s s' r :
  handle env cfg payer allowedHosts req s = (s', Ok (RpcResult r)) → is_signed r = true →
  ∃ params signed resent, RequestAccepted req params ∧ carries payer r signed
    ∧ Vetted env cfg payer (slotFloor s) params signed resent.
Proof. apply handle_signed. Qed.
End front.

(** ** The rate limit *)
Section rate.
Variable max : Z.
Hypothesis max_nonneg : 0 <= max.

(** The times at which a sequence of calls, made at [times], was let through. *)
Fixpoint admitted (times : list Z) (l : list Z) : list Z :=
  match times with
  | [] => []
  | now :: times =>
    let '(l, ok) := rateSlot max now l in
    (if ok then [now] else []) ++ admitted times l
  end.

Definition in_hour (t x : Z) : bool := (t <=? x) && (x <=? t + 3600000).
Definition count_hour (t : Z) (l : list Z) : Z := Z.of_nat (length (List.filter (in_hour t) l)).

Lemma shiftOld_suffix now l : ∃ d, l = d ++ shiftOld now l ∧ Forall (λ y, y < now - 3600000) d.
Proof.
  induction l as [|t l (d & Hd & Hf)]; cbn [shiftOld]; [by exists []|].
  destruct (Z.ltb_spec 3600000 (now - t)); [|by exists []].
  exists (t :: d). split; [by rewrite Hd at 1|]. constructor; [lia | done].
Qed.

Lemma count_app t l k : count_hour t (l ++ k) = count_hour t l + count_hour t k.
Proof. unfold count_hour. rewrite List.filter_app, length_app. lia. Qed.

Lemma count_le t l : 0 <= count_hour t l <= Z.of_nat (length l).
Proof. unfold count_hour. pose proof (List.filter_length_le (in_hour t) l). lia. Qed.

Lemma count_old t now l : Forall (λ y, y < now) l → now <= t → count_hour t l = 0.
Proof.
  intros Hl Ht. unfold count_hour. induction Hl as [|x l Hx _ IH]; [done|]. cbn [List.filter].
  unfold in_hour at 1. destruct (Z.leb_spec t x); [lia | exact IH].
Qed.

(** [kept] holds the recent end of [all], and [all] never had more than [max]
    in an hour. *)
Record RateInv (all kept : list Z) (now : Z) : Prop := {
  ri_suffix : ∃ d, all = d ++ kept ∧ Forall (λ y, y < now - 3600000) d;
  ri_bound : ∀ t, count_hour t all <= max;
}.

Lemma rateSlot_inv all kept now now' l ok :
  RateInv all kept now → now <= now' → rateSlot max now' kept = (l, ok) →
  RateInv (if ok then all ++ [now'] else all) l now'.
Proof.
  intros [(d & Hd & Hf) Hb] Hn H. unfold rateSlot in H.
  destruct (shiftOld_suffix now' kept) as (d' & Hk & Hf').
  assert (Hold : all = (d ++ d') ++ shiftOld now' kept ∧ Forall (λ y, y < now' - 3600000) (d ++ d')).
  { split; [by rewrite Hd, Hk at 1; rewrite <- app_assoc|]. apply Forall_app. split; [|done].
    eapply Forall_impl; [exact Hf|]. simpl. lia. }
  destruct Hold as [Hall Hfold].
  destruct (Z.leb_spec max (Z.of_nat (length (shiftOld now' kept)))) as [Hm|Hm];
    injection H as <- <-.
  - split; [by exists (d ++ d') | done].
  - split.
    + exists (d ++ d'). split; [by rewrite Hall at 1; rewrite <- app_assoc | done].
    + intros t. rewrite count_app. destruct (in_hour t now') eqn:Ei.
      * assert (Hone : count_hour t [now'] = 1) by (unfold count_hour; simpl; by rewrite Ei).
        unfold in_hour in Ei. apply andb_true_iff in Ei as [H1%Z.leb_le H2%Z.leb_le].
        rewrite Hone, Hall, count_app, (count_old t (now' - 3600000)) by (done || lia).
        pose proof (count_le t (shiftOld now' kept)). lia.
      * assert (Hzero : count_hour t [now'] = 0) by (unfold count_hour; simpl; by rewrite Ei).
        rewrite Hzero. specialize (Hb t). lia.
Qed.

Lemma admitted_inv all kept now times :
  RateInv all kept now → Sorted Z.le (now :: times) → ∀ t, count_hour t (all ++ admitted times kept) <= max.
Proof.
  revert all kept now. induction times as [|now' times IH]; intros all kept now HI Hs t; cbn [admitted].
  - rewrite app_nil_r. by apply HI.
  - destruct (rateSlot max now' kept) as [l ok] eqn:E.
    apply Sorted_inv in Hs as [Hs Hn]. apply HdRel_inv in Hn.
    pose proof (rateSlot_inv _ _ _ _ _ _ HI Hn E) as HI'.
    specialize (IH _ _ _ HI' Hs t). destruct ok; cbn [app]; [by rewrite <- app_assoc in IH | exact IH].
Qed.

(** C35.  Whatever the requests and however they interleave, at most
    [maxTxPerHour] of them pass the rate limit within any hour: [takeRateSlot]
    runs without an [await], so the requests' calls happen in some order, and
    the clock does not run backwards. *)
Theorem rate_limit_per_hour times t :
  Sorted Z.le times → count_hour t (admitted times []) <= max.
Proof.
  intros Hs. pose proof max_nonneg. destruct times as [|now times]; [unfold count_hour; simpl; lia|].
  apply (admitted_inv [] [] now (now :: times)).
  - split; [by exists [] | intros t'; unfold count_hour; simpl; lia].
  - constructor; [done|]. constructor. lia.
Qed.
End rate.
