(* ===== verification/RelayerAnswers.v ===== *)
(** * Every request is answered

    Theorems on the time a request takes and on how its waits end: the lag
    retries, the send and the wait for confirmation are bounded whatever the
    RPC node answers, a node that catches up in time is enough, and the slot
    floor the requests share only rises. *)
From S2P Require Import Prelude Bytes Json RelayerTx RelayerPolicy RelayerSim RelayerServer.
From S2P Require Import RelayerHttp RelayerProps RelayerSafety.
Local Open Scope Z_scope.

(** ** Time *)

(** [m] takes at most [T] milliseconds, and time does not run backwards. *)
Definition takes {E A} (T : Z) (m : R E A) : Prop :=
  ∀ s, clock s <= clock (fst (m s)) <= clock s + T.

Lemma takes_le {E A} T T' (m : R E A) : takes T m → T <= T' → takes T' m.
Proof. intros H Hle s. specialize (H s). lia. Qed.

Lemma takes_nonneg {E A} T (m : R E A) : takes T m → 0 <= T.
Proof. intros H. specialize (H (mkSrv 0 0 [] 0 [])). lia. Qed.

Lemma takes_bind {E A B} T1 T2 (m : R E A) (f : A → R E B) :
  takes T1 m → 0 <= T2 → (∀ a, takes T2 (f a)) → takes (T1 + T2) (m ≫= f).
Proof.
  intros Hm H0 Hf s. unfold mbind, R_bind. specialize (Hm s). destruct (m s) as [s1 [a|e]]; simpl in *.
  - specialize (Hf a s1). lia.
  - lia.
Qed.

Lemma takes_try {E F A} T1 T2 (m : R E A) (h : E → R F A) :
  takes T1 m → 0 <= T2 → (∀ e, takes T2 (h e)) → takes (T1 + T2) (try_catch m h).
Proof.
  intros Hm H0 Hf s. unfold try_catch. specialize (Hm s). destruct (m s) as [s1 [a|e]]; simpl in *.
  - lia.
  - specialize (Hf e s1). lia.
Qed.

Lemma takes_ret {E A} (a : A) : takes (E := E) 0 (mret a).
Proof. intros s. simpl. lia. Qed.
Lemma takes_raise {E A} (e : E) : takes (A := A) 0 (raise e).
Proof. intros s. simpl. lia. Qed.
Lemma takes_attempt {E A} (r : outcome E A) : takes 0 (of_attempt r).
Proof. intros s. simpl. lia. Qed.
Lemma takes_gets {E A} (f : srv → A) : takes (E := E) 0 (gets f).
Proof. intros s. simpl. lia. Qed.
Lemma takes_emit {E} ev : takes (E := E) 0 (emit ev).
Proof. intros s. simpl. lia. Qed.
Lemma takes_floor {E} k : takes (E := E) 0 (raise_floor k).
Proof. intros s. simpl. lia. Qed.
Lemma takes_rate cfg : takes 0 (takeRateSlot cfg).
Proof. intros s. unfold takeRateSlot. destruct (rateSlot _ _ _). simpl. lia. Qed.

Create HintDb takes.
#[export] Hint Resolve takes_ret takes_raise takes_attempt takes_gets takes_emit takes_floor
  takes_rate : takes.

(** Bound a computation by the sum over its steps, the remaining inequality
    being arithmetic. *)
Ltac takes_step :=
  match goal with
  | |- takes _ (_ ≫= _) => eapply takes_bind; [| |intros ?]
  | |- takes _ (try_catch _ _) => eapply takes_try; [| |intros ?]
  | |- takes _ (match ?x with _ => _ end) => destruct x
  end.

Section time.
Variable env : Env.

Lemma pass_clock ms s : clock (pass env ms s) = clock s + ms.
Proof. unfold pass. by destruct (e_others _ _ _). Qed.

Lemma takes_sleep {E} ms : 0 <= ms → takes (E := E) ms (sleep env ms).
Proof. intros H s. unfold sleep. cbn [fst]. rewrite pass_clock. lia. Qed.

Lemma took_nonneg n : 0 <= took env n.
Proof. unfold took. lia. Qed.

Lemma takes_fetch {E A} (call : Z → nat → http A) :
  takes (E := E) RPC_TIMEOUT_MS (await_fetch env call).
Proof.
  intros s. unfold await_fetch. pose proof (took_nonneg (calls s)).
  destruct (Z.ltb_spec RPC_TIMEOUT_MS (took env (calls s))); cbn [fst]; rewrite pass_clock;
    unfold RPC_TIMEOUT_MS in *; lia.
Qed.

(** Four requests of at most ten seconds and the three back-offs between. *)
Lemma takes_rpcCall_from {A} more backoff (call : Z → nat → http A) : 0 <= backoff →
  takes (10000 * (Z.of_nat more + 1) + backoff * (2 ^ Z.of_nat more - 1))
    (rpcCall_from env more backoff call).
Proof.
  revert backoff. induction more as [|more IH]; intros backoff Hb; cbn [rpcCall_from].
  - eapply takes_le; [eapply takes_bind; [apply takes_fetch | reflexivity|] | unfold RPC_TIMEOUT_MS; lia].
    intros [|status [b|]]; auto with takes.
  - assert (Hp : 2 ^ Z.of_nat (S more) = 2 * 2 ^ Z.of_nat more)
      by (rewrite Nat2Z.inj_succ, Z.pow_succ_r by lia; done).
    assert (0 < 2 ^ Z.of_nat more) by (apply Z.pow_pos_nonneg; lia).
    set (rest := backoff + (10000 * (Z.of_nat more + 1) + 2 * backoff * (2 ^ Z.of_nat more - 1))).
    assert (0 <= rest) by (subst rest; nia).
    eapply takes_le; [eapply (takes_bind _ rest); [apply takes_fetch | done |]|].
    2:{ subst rest. unfold RPC_TIMEOUT_MS. rewrite Hp. nia. }
    intros [|status body]; [eapply takes_le; [apply takes_raise | done]|].
    destruct (status =? 429).
    + apply takes_bind; [by apply takes_sleep | nia | intros _; apply IH; lia].
    + destruct body; eapply takes_le; eauto with takes.
Qed.

Lemma takes_rpcCall {A} (call : Z → nat → http A) : takes 43500 (rpcCall env call).
Proof. apply (takes_rpcCall_from 3 500). lia. Qed.

Lemma takes_simulateOnce tx min : takes 43500 (simulateOnce env tx min).
Proof.
  unfold simulateOnce. eapply takes_le; [apply (takes_bind 0 43500); [apply takes_emit | lia |]|lia].
  intros _. apply (takes_try 43500 0); [apply takes_rpcCall | lia | auto with takes].
Qed.

Lemma takes_confirmedSlot : takes 43500 (confirmedSlot env).
Proof.
  unfold confirmedSlot. apply (takes_bind 43500 0); [|lia|auto with takes].
  apply (takes_try 43500 0); [|lia|auto with takes].
  apply (takes_bind 43500 0); [apply takes_rpcCall | lia | auto with takes].
Qed.

Lemma takes_lagRetries a more k min body last :
  takes (87500 * Z.of_nat more) (lagRetries env a more k min body last).
Proof.
  revert k min body last. induction more as [|more IH]; intros k min body last; cbn [lagRetries].
  { apply takes_ret. }
  assert (0 <= 87500 * Z.of_nat (S more)) by lia.
  destruct (lagKind _ _) as [l|]; [|eapply takes_le; eauto with takes].
  destruct (_ && _); [eapply takes_le; eauto with takes|].
  eapply takes_le; [apply (takes_bind 500 (43500 + (43500 + 87500 * Z.of_nat more)))|lia].
  { apply takes_sleep. lia. } { lia. }
  intros _. apply takes_bind; [|lia|intros min'].
  - destruct (bool_decide (l = LagSlot)); [eapply takes_le; [apply takes_ret | lia]|].
    apply (takes_bind 43500 0); [apply takes_confirmedSlot | lia | auto with takes].
  - apply takes_bind; [apply takes_simulateOnce | lia | intros body'; apply IH].
Qed.

(** At most six simulations: eight minutes and one second. *)
Lemma takes_checkSimulation a : takes 481000 (checkSimulation env a).
Proof.
  unfold checkSimulation. apply (takes_bind 43500 437500); [apply takes_simulateOnce | lia|intros body].
  apply (takes_bind 437500 0); [apply takes_lagRetries | lia | intros [[? ?] ?]; auto with takes].
Qed.

(** *** Waiting for confirmation *)

(** [m] keeps to a deadline it starts before. *)
Definition until {E A} (deadline : Z) (m : R E A) : Prop :=
  ∀ s, clock s <= deadline → clock s <= clock (fst (m s)) <= deadline.

Lemma until_bind {E A B} d (m : R E A) (f : A → R E B) :
  until d m → (∀ a, until d (f a)) → until d (m ≫= f).
Proof.
  intros Hm Hf s Hs. unfold mbind, R_bind. specialize (Hm s Hs).
  destruct (m s) as [s1 [a|e]]; simpl in *; [|lia]. specialize (Hf a s1). lia.
Qed.

Lemma until_ret {E A} d (a : A) : until (E := E) d (mret a).
Proof. intros s Hs. simpl. lia. Qed.

(** [const left = () => deadline - Date.now()] read at the time of the call. *)
Lemma until_within {E A B} d (call : Z → nat → outcome E A) (k : option (outcome E A) → R Empty_set B) :
  (∀ r, until d (k r)) →
  until d (now ← Date_now; r ← within env (d - now) call; k r).
Proof.
  intros Hk s Hs. unfold mbind, R_bind, Date_now, gets.
  pose proof (took_nonneg (calls s)). unfold within.
  destruct (Z.ltb_spec (Z.max 0 (d - clock s)) (took env (calls s)));
    match goal with |- context [k ?r ?s1] =>
      assert (clock s <= clock s1 <= d) by (rewrite pass_clock; lia);
      specialize (Hk r s1)
    end; lia.
Qed.

Lemma until_pollOnce d sg bh min polls seen : until d (pollOnce env d sg bh min polls seen).
Proof.
  unfold pollOnce. apply until_within. intros [[[st|]|e]|]; try apply until_ret.
  - destruct (st_settled st); apply until_ret.
  - destruct (negb _); [apply until_ret|]. apply until_within. intros [[valid|e]|]; try apply until_ret.
    unfold lastLook. destruct (_ <? 2)%nat; [apply until_ret|].
    apply until_within. intros [[[st|]|e]|]; apply until_ret.
Qed.

(** The sleep of a round, and what it leaves. *)
Lemma sleep_round d polls s : clock s < d →
  let ms := Z.min (if (polls <? 10)%nat then 500 else 1000) (Z.max 0 (d - clock s)) in
  clock s < clock (pass env ms s) <= d
  ∧ (clock (pass env ms s) = d ∨ clock s + 500 <= clock (pass env ms s)).
Proof.
  intros Hs ms. rewrite pass_clock. subst ms. destruct (polls <? 10)%nat; lia.
Qed.

Lemma until_waitLoop fuel d sg bh min polls seen : until d (waitLoop env fuel d sg bh min polls seen).
Proof.
  revert polls seen. induction fuel as [|fuel IH]; intros polls seen; cbn [waitLoop]; [apply until_ret|].
  intros s Hs. unfold mbind, R_bind, mret, R_ret, Date_now, gets, sleep.
  destruct (Z.leb_spec (d - clock s) 0); [simpl; lia|].
  destruct (sleep_round d polls s) as [Hc _]; [lia|].
  match goal with |- context [pollOnce env d sg bh min (S polls) seen ?s1] =>
    pose proof (until_pollOnce d sg bh min (S polls) seen s1) as Hp;
    destruct (pollOnce env d sg bh min (S polls) seen s1) as [s2 [r|[]]] end.
  cbn [fst] in Hp. destruct r as [l| |seen']; cbn [fst]; try (simpl; lia).
  specialize (IH (S polls) seen' s2). lia.
Qed.

(** Enough fuel: a round for every 500 ms that are left, and one more. *)
Lemma waitLoop_total fuel d sg bh min polls seen s :
  clock s <= d → d - clock s <= 500 * (Z.of_nat fuel - 1) → (1 <= fuel)%nat →
  ∃ s' l, waitLoop env fuel d sg bh min polls seen s = (s', Ok (Some l)).
Proof.
  revert polls seen s. induction fuel as [|fuel IH]; intros polls seen s Hs Hf H1; [lia|].
  cbn [waitLoop]. unfold mbind, R_bind, mret, R_ret, Date_now, gets, sleep.
  destruct (Z.leb_spec (d - clock s) 0); [by eexists _, _|].
  destruct (sleep_round d polls s) as [Hc Hc']; [lia|].
  match goal with |- context [pollOnce env d sg bh min (S polls) seen ?s1] =>
    pose proof (until_pollOnce d sg bh min (S polls) seen s1) as Hp;
    destruct (pollOnce env d sg bh min (S polls) seen s1) as [s2 [r|[]]] end.
  cbn [fst] in Hp. destruct r as [l| |seen']; [by eexists _, _..|]. apply IH; lia.
Qed.

Variable cfg : relayer_cfg.
Hypothesis timeout_nonneg : 0 <= confirmTimeoutMs cfg.

Lemma waitConfirmed_total sg bh min s :
  ∃ s' l, waitConfirmed env cfg sg bh min s = (s', Ok (Some l)).
Proof.
  unfold waitConfirmed, mbind, R_bind, Date_now, gets. apply waitLoop_total; unfold waitFuel.
  - lia.
  - pose proof (Z.div_mod (confirmTimeoutMs cfg) 500). pose proof (Z.mod_pos_bound (confirmTimeoutMs cfg) 500).
    assert (0 <= confirmTimeoutMs cfg / 500) by (apply Z.div_pos; lia). lia.
  - assert (0 <= confirmTimeoutMs cfg / 500) by (apply Z.div_pos; lia). lia.
Qed.

Lemma takes_waitConfirmed sg bh min : takes (confirmTimeoutMs cfg) (waitConfirmed env cfg sg bh min).
Proof.
  intros s. unfold waitConfirmed, mbind, R_bind, Date_now, gets. apply until_waitLoop. lia.
Qed.
End time.

(** ** How a wait ends *)
Section endings.
Variables (env : Env) (cfg : relayer_cfg) (sg : string) (bh : bytes) (min : option Z).
Hypothesis timeout_nonneg : 0 <= confirmTimeoutMs cfg.

(** Call [n] answered that the blockhash can no longer be used. *)
Definition expired_at (n : nat) : Prop := ∃ t, e_isBlockhashValid env t n bh min = Ok false.

(** What [expiredSeen] stands for when the next call is number [c]. *)
Definition seen_inv (seen c : nat) : Prop :=
  (1 <= seen → ∃ n, n < c ∧ expired_at n)%nat
  ∧ (2 <= seen → ∃ n m, n < m ∧ m < c ∧ expired_at n ∧ expired_at m)%nat.

(** What justifies the end of a wait: what the cluster said, or the deadline. *)
Definition justified (deadline : Z) (s' : srv) (l : landing) : Prop :=
  match l with
  | Confirmed k => ∃ t n st, e_getSignatureStatus env t n sg false = Ok (Some st)
      ∧ st_settled st = true ∧ st_err st = None ∧ st_slot st = k
  | Failed err k => ∃ t n st, e_getSignatureStatus env t n sg false = Ok (Some st)
      ∧ st_settled st = true ∧ st_err st = Some err ∧ st_slot st = k
  | Expired => ∃ n1 n2 t n3, (n1 < n2 < n3)%nat ∧ expired_at n1 ∧ expired_at n2
      ∧ e_getSignatureStatus env t n3 sg true = Ok None
  | TimedOut => deadline <= clock s'
  end.

Lemma pass_calls ms s : calls (pass env ms s) = S (calls s).
Proof. unfold pass. by destruct (e_others _ _ _). Qed.

Lemma seen_mono seen c c' : seen_inv seen c → (c <= c')%nat → seen_inv seen c'.
Proof.
  intros [H1 H2] Hc. split; intros Hs.
  - destruct (H1 Hs) as (n & ? & ?). exists n. split; [lia | done].
  - destruct (H2 Hs) as (n & m & ? & ? & ? & ?). exists n, m. split_and!; try done; lia.
Qed.

Lemma seen_zero c : seen_inv 0 c.
Proof. split; lia. Qed.

(** A bounded call: the deadline passed, or its answer. *)
Lemma within_cases {E A B} d (call : Z → nat → outcome E A) (k : option (outcome E A) → R Empty_set B) s out :
  (now ← Date_now; r ← within env (d - now) call; k r) s = out → clock s <= d →
  (∃ s1, k None s1 = out ∧ d <= clock s1)
  ∨ (∃ s1, k (Some (call (clock s) (calls s))) s1 = out ∧ calls s1 = S (calls s)
       ∧ clock s <= clock s1 <= d).
Proof.
  intros H Hs. unfold mbind, R_bind, Date_now, gets, within in H. pose proof (took_nonneg env (calls s)).
  destruct (Z.ltb_spec (Z.max 0 (d - clock s)) (took env (calls s))).
  - left. eexists. split; [exact H|]. rewrite pass_clock. lia.
  - right. eexists. split; [exact H|]. rewrite pass_clock, pass_calls. lia.
Qed.

(** What a round leaves behind. *)
Definition round_ok (d : Z) (s' : srv) (r : poll_result) : Prop :=
  match r with
  | PollReturn l => justified d s' l
  | PollBreak => d <= clock s'
  | PollContinue seen => seen_inv seen (calls s') ∧ clock s' <= d
  end.

Lemma lastLook_ok d seen s s' r : clock s <= d → seen_inv seen (calls s) →
  lastLook env d sg seen s = (s', Ok r) → round_ok d s' r.
Proof.
  intros Hs Hi. unfold lastLook. destruct (Nat.ltb_spec seen 2); [by intros [= <- <-]|].
  intros H1. eapply within_cases in H1 as [(s1 & H1 & Hd)|(s1 & H1 & Hn & Hc)]; [| |done].
  { injection H1 as <- <-. exact Hd. }
  destruct (e_getSignatureStatus _ _ _ _ _) as [[st|]|e] eqn:Ee; injection H1 as <- <-; cbn [round_ok].
  - split; [apply seen_zero | lia].
  - destruct Hi as [_ Hi]. destruct (Hi ltac:(lia)) as (n & m & ? & ? & ? & ?).
    exists n, m, (clock s), (calls s). by split_and!.
  - split; [|lia]. eapply seen_mono; [exact Hi | lia].
Qed.

Lemma pollOnce_ok d polls seen s s' r : clock s <= d → seen_inv seen (calls s) →
  pollOnce env d sg bh min polls seen s = (s', Ok r) → round_ok d s' r.
Proof.
  intros Hs Hi H. unfold pollOnce in H.
  eapply within_cases in H as [(s1 & H & Hd)|(s1 & H & Hn & Hc)]; [| |done].
  { injection H as <- <-. exact Hd. }
  destruct (e_getSignatureStatus _ _ _ _ _) as [[st|]|e] eqn:Ee.
  - destruct (st_settled st) eqn:Es; injection H as <- <-; cbn [round_ok].
    + destruct (st_err st) eqn:Err; eexists _, _, st; split_and!; eauto.
    + split; [apply seen_zero | lia].
  - destruct (negb _).
    { injection H as <- <-. cbn [round_ok]. split; [|lia]. eapply seen_mono; [exact Hi | lia]. }
    eapply within_cases in H as [(s2 & H & Hd)|(s2 & H & Hn2 & Hc2)]; [| |lia].
    { injection H as <- <-. exact Hd. }
    destruct (e_isBlockhashValid _ _ _ _ _) as [valid|e] eqn:Ev.
    + eapply lastLook_ok; [| |exact H]; [lia|]. destruct valid; [apply seen_zero|].
      assert (Hx : expired_at (calls s1)) by (eexists; exact Ev). rewrite Hn2. split.
      * intros _. exists (calls s1). split; [lia | done].
      * intros Hseen. destruct Hi as [Hi _]. destruct (Hi ltac:(lia)) as (n & ? & ?).
        exists n, (calls s1). split_and!; try done; lia.
    + injection H as <- <-. cbn [round_ok]. split; [|lia]. eapply seen_mono; [exact Hi | lia].
  - injection H as <- <-. cbn [round_ok]. split; [|lia]. eapply seen_mono; [exact Hi | lia].
Qed.

Lemma waitLoop_ok fuel d polls seen s s' l : clock s <= d → seen_inv seen (calls s) →
  waitLoop env fuel d sg bh min polls seen s = (s', Ok (Some l)) → justified d s' l.
Proof.
  revert polls seen s. induction fuel as [|fuel IH]; intros polls seen s Hs Hi H; [done|].
  cbn [waitLoop] in H. unfold mbind, R_bind, mret, R_ret, Date_now, gets, sleep in H.
  destruct (Z.leb_spec (d - clock s) 0); [injection H as <- <-; cbn [justified]; lia|].
  destruct (sleep_round env d polls s) as [Hc _]; [lia|].
  destruct (pollOnce env d sg bh min (S polls) seen _) as [s2 [r|[]]] eqn:Ep.
  eapply pollOnce_ok in Ep; [|lia|eapply seen_mono; [exact Hi | rewrite pass_calls; lia]].
  destruct r as [l'| |seen']; cbn [round_ok] in Ep.
  - by injection H as <- <-.
  - injection H as <- <-. exact Ep.
  - destruct Ep. by eapply IH.
Qed.

(** C33.  A wait for confirmation always ends, by its deadline, and as the
    cluster says: "confirmed" and "failed" only on a settled status of this
    signature, "expired" only after two separate answers that the blockhash is
    no longer valid and a last look in the history that finds nothing, and
    "timed out" only once the whole timeout has passed. *)
Theorem confirmation_wait_ends s :
  ∃ s' l, waitConfirmed env cfg sg bh min s = (s', Ok (Some l))
    ∧ clock s' <= clock s + confirmTimeoutMs cfg
    ∧ justified (clock s + confirmTimeoutMs cfg) s' l.
Proof.
  destruct (waitConfirmed_total env cfg timeout_nonneg sg bh min s) as (s' & l & H).
  exists s', l. split; [done|]. split.
  - pose proof (takes_waitConfirmed env cfg timeout_nonneg sg bh min s) as Ht. rewrite H in Ht. simpl in Ht. lia.
  - unfold waitConfirmed, mbind, R_bind, Date_now, gets in H.
    eapply waitLoop_ok; [| |exact H]; [lia | apply seen_zero].
Qed.
End endings.

(** ** The time of a whole request *)
Section request.
Context `{W : Web3}.
Variables (env : Env) (cfg : relayer_cfg) (payer : Keypair) (D : Z).
Hypothesis timeout_nonneg : 0 <= confirmTimeoutMs cfg.
(** Every call of web3.js gives up after [D] milliseconds. *)
Hypothesis calls_bounded : ∀ n, took env n <= D.

Lemma D_nonneg : 0 <= D.
Proof. pose proof (took_nonneg env 0). specialize (calls_bounded 0). lia. Qed.

Lemma takes_await {E A} (call : Z → nat → outcome E A) : takes D (await env call).
Proof.
  intros s. unfold await. cbn [fst]. rewrite pass_clock.
  pose proof (took_nonneg env (calls s)). specialize (calls_bounded (calls s)). lia.
Qed.

Lemma takes_atSlotFloor {A} more (read : option Z → R js_error A) :
  (∀ min, takes D (read min)) →
  takes (D * (Z.of_nat more + 1) + 500 * Z.of_nat more) (atSlotFloor env more read).
Proof.
  intros Hr. pose proof D_nonneg as HD. induction more as [|more IH]; cbn [atSlotFloor].
  - eapply takes_le; [apply (takes_bind 0 D); [apply takes_gets | lia | intros floor]|lia].
    eapply takes_le; [apply (takes_try D 0); [apply Hr | lia | auto with takes]|lia].
  - set (rest := D * (Z.of_nat more + 1) + 500 * Z.of_nat more) in *. assert (0 <= rest) by (subst rest; nia).
    eapply takes_le; [apply (takes_bind 0 (D + (500 + rest))); [apply takes_gets | lia | intros floor]|].
    2:{ subst rest. lia. }
    apply takes_try; [apply Hr | lia | intros e].
    destruct (isMinContextSlotError e); [|eapply takes_le; [apply takes_raise | lia]].
    apply takes_bind; [apply takes_sleep; lia | lia | intros _; exact IH].
Qed.

Lemma takes_readBalance : takes (6 * D + 2500) (readBalance env).
Proof.
  unfold readBalance. eapply takes_le; [apply (takes_try (D * 6 + 2500) 0)|lia].
  - eapply takes_le; [apply takes_atSlotFloor; intros; apply takes_await | lia].
  - lia.
  - intros e. destruct (isMinContextSlotError e); [|apply takes_raise].
    apply (takes_bind 0 0); auto with takes. lia.
Qed.

Lemma takes_plain {A} T (m : R exn A) : takes T m → takes T (plain m).
Proof.
  intros H. unfold plain. eapply takes_le; [apply (takes_try T 0); [done | lia | auto with takes]|lia].
Qed.

Lemma takes_explain tx raw e : takes D (explainIfAlreadySent env payer tx raw e).
Proof.
  pose proof D_nonneg as HD. unfold explainIfAlreadySent.
  destruct (signedCopy payer tx raw); [|eapply takes_le; [apply takes_ret | done]].
  eapply takes_le; [apply (takes_bind D 0); [|lia|]|lia].
  - eapply takes_le; [apply (takes_try D 0); [|lia|auto with takes]|lia].
    eapply takes_le; [apply (takes_bind D 0); [apply takes_await | lia | auto with takes]|lia].
  - intros [[st|]|]; auto with takes. destruct (st_err st); auto with takes.
Qed.

Lemma takes_vetAndSign params : takes (7 * D + 483500) (vetAndSign env cfg payer params).
Proof.
  pose proof D_nonneg as HD. unfold vetAndSign.
  eapply takes_le; [apply (takes_bind 0 (7 * D + 483500)); [apply takes_plain; auto with takes | lia |]|lia].
  intros [[tx raw] key].
  eapply takes_le; [apply (takes_bind 0 (7 * D + 483500)); [apply takes_plain; auto with takes | lia | intros _]|lia].
  eapply takes_le; [apply (takes_bind 0 (7 * D + 483500)); [apply takes_plain; auto with takes | lia | intros wire]|lia].
  eapply takes_le; [apply (takes_bind (6 * D + 2500) (D + 481000));
    [apply takes_plain, takes_readBalance | lia | intros pre]|lia].
  eapply takes_le; [apply (takes_bind 0 (D + 481000)); [apply takes_gets | lia | intros floor]|lia].
  eapply takes_le; [apply (takes_bind (481000 + D) 0); [|lia|intros sim]|lia].
  - apply takes_try; [apply takes_checkSimulation | lia | intros e].
    destruct e; try (eapply takes_le; [apply takes_raise | lia]).
    destruct (_ && _); [|eapply takes_le; [apply takes_raise | lia]].
    intros s. pose proof (takes_explain tx raw (PolicyError code data) s) as Hx.
    destruct (explainIfAlreadySent _ _ _ _ _ s) as [s' [v|[]]]. exact Hx.
  - apply (takes_bind 0 0); [apply takes_plain, takes_rate | lia | intros _].
    apply (takes_bind 0 0); [apply takes_plain; auto with takes | lia | intros signed].
    apply (takes_bind 0 0); [apply takes_emit | lia | auto with takes].
Qed.

Lemma takes_vetAndSignOrLanded params :
  takes (7 * D + 483500) (vetAndSignOrLanded env cfg payer params).
Proof.
  unfold vetAndSignOrLanded. eapply takes_le; [apply (takes_try (7 * D + 483500) 0)|lia].
  - eapply takes_le; [apply (takes_bind (7 * D + 483500) 0); [apply takes_vetAndSign | lia|]|lia].
    intros [? ?]. auto with takes.
  - lia.
  - intros v. destruct (ve_landed v); auto with takes.
Qed.

Lemma takes_send more raw min sig :
  takes (D * (Z.of_nat more + 2) + 500 * Z.of_nat more) (sendWithLagRetry env more raw min sig).
Proof.
  pose proof D_nonneg as HD.
  assert (Hgive : ∀ text, takes D (known ← alreadySent env text sig;
            if (known : bool) then mret sig else raise (rule_only SEND_FAILED "send"))).
  { intros text. eapply takes_le; [apply (takes_bind D 0); [|lia|intros []; auto with takes]|lia].
    unfold alreadySent. destruct (ALREADY_PROCESSED text); [eapply takes_le; [apply takes_ret | lia]|].
    eapply takes_le; [apply (takes_try D 0); [|lia|auto with takes]|lia].
    eapply takes_le; [apply (takes_bind D 0); [apply takes_await | lia | auto with takes]|lia]. }
  induction more as [|more IH]; cbn [sendWithLagRetry]; cbv zeta.
  - eapply takes_le; [apply (takes_bind 0 (D + D)); [apply takes_emit | lia | intros _]|lia].
    apply takes_try; [apply takes_await | lia | intros e; apply Hgive].
  - set (rest := D * (Z.of_nat more + 2) + 500 * Z.of_nat more) in *. assert (D <= rest) by (subst rest; nia).
    eapply takes_le; [apply (takes_bind 0 (D + (500 + rest))); [apply takes_emit | lia | intros _]|subst rest; lia].
    apply takes_try; [apply takes_await | lia | intros e].
    destruct (_ || _); [|eapply takes_le; [apply Hgive | lia]].
    apply takes_bind; [apply takes_sleep; lia | lia | intros _; exact IH].
Qed.

Lemma takes_confirmAndAnswer signed slot result :
  takes (confirmTimeoutMs cfg) (confirmAndAnswer env cfg signed slot result).
Proof.
  unfold confirmAndAnswer.
  eapply takes_le; [apply (takes_bind 0 (confirmTimeoutMs cfg)); [apply takes_gets | lia | intros floor]|lia].
  eapply takes_le; [apply (takes_bind (confirmTimeoutMs cfg) 0); [|lia|]|lia].
  - intros s. unfold never.
    pose proof (takes_waitConfirmed env cfg timeout_nonneg (sg_signature signed)
      (recentBlockhash (sg_tx signed)) (or_null (default floor slot)) s) as Hw.
    destruct (waitConfirmed _ _ _ _ _ s) as [s' [l|[]]]. exact Hw.
  - intros [[| | |]|]; cbn [answerLanding]; auto with takes.
    apply (takes_bind 0 0); auto with takes. lia.
Qed.

Lemma takes_signAndSend params :
  takes (13 * D + 485500 + confirmTimeoutMs cfg) (signAndSendTransaction env cfg payer params).
Proof.
  pose proof D_nonneg as HD. unfold signAndSendTransaction.
  assert (0 <= 13 * D + 485500 + confirmTimeoutMs cfg) by lia.
  destruct (respondAfterOf params) as [ra|]; [|eapply takes_le; [apply takes_raise | done]].
  eapply takes_le; [apply (takes_bind (7 * D + 483500) (6 * D + 2000 + confirmTimeoutMs cfg));
    [apply takes_vetAndSignOrLanded | lia |]|lia].
  intros [[signed slot] [[sl settled]|]].
  - destruct (_ || _); [eapply takes_le; [apply takes_ret | lia]|].
    eapply takes_le; [apply takes_confirmAndAnswer | lia].
  - destruct (String.eqb ra "signed").
    { eapply takes_le; [apply (takes_bind 0 0); [apply takes_emit | lia | auto with takes]|lia]. }
    eapply takes_le; [apply (takes_bind (D * 6 + 2000) (confirmTimeoutMs cfg));
      [eapply takes_le; [apply takes_send | lia] | lia | intros _]|lia].
    destruct (negb _); [eapply takes_le; [apply takes_ret | lia] | apply takes_confirmAndAnswer].
Qed.

Lemma takes_method method params fn :
  method_named env cfg payer method params = Some fn →
  takes (13 * D + 485500 + confirmTimeoutMs cfg) fn.
Proof.
  pose proof D_nonneg as HD. unfold method_named. intros H.
  destruct (String.eqb method "getPayerSigner").
  { injection H as <-. eapply takes_le; [apply takes_ret | lia]. }
  destruct (String.eqb method "getBlockhash").
  { injection H as <-. eapply takes_le; [apply (takes_try D 0); [|lia|auto with takes]|lia].
    eapply takes_le; [apply (takes_bind D 0); [apply takes_await | lia | auto with takes]|lia]. }
  destruct (String.eqb method "signTransaction").
  { injection H as <-. unfold signTransaction.
    eapply takes_le; [apply (takes_bind (7 * D + 483500) 0); [apply takes_vetAndSignOrLanded | lia|]|lia].
    intros [[? ?] ?]. auto with takes. }
  destruct (String.eqb method "signAndSendTransaction"); [|done].
  injection H as <-. apply takes_signAndSend.
Qed.

Lemma takes_readBody chunks fin size acc : takes (arrival chunks fin.1) (readBody env chunks fin size acc).
Proof.
  assert (Hpos : ∀ cs : list (Z * bytes), 0 <= arrival cs fin.1) by (induction cs as [|[ms c] cs IH]; cbn [arrival]; lia).
  revert size acc. induction chunks as [|[ms c] chunks IH]; intros size acc; cbn [readBody arrival].
  - eapply takes_le; [apply (takes_bind (Z.max 0 fin.1) 0); [apply takes_sleep; lia|lia|auto with takes]|lia].
  - specialize (Hpos chunks). apply takes_bind; [apply takes_sleep; lia|lia|intros _].
    destruct (_ <? _); [eapply takes_le; [apply takes_ret|lia]|apply IH].
Qed.

Lemma takes_status : takes D (status env).
Proof.
  pose proof D_nonneg as HD. unfold status. eapply takes_le; [apply (takes_bind D 0); [|lia|auto with takes]|lia].
  eapply takes_le; [apply (takes_try D 0); [|lia|auto with takes]|lia].
  eapply takes_le; [apply (takes_bind D 0); [apply takes_await|lia|auto with takes]|lia].
Qed.

(** Every request is answered, and in bounded time, whatever the RPC node
    does: with each web3.js call giving up within [D] milliseconds, the reply
    is there within [13 D + 485.5 s] plus the confirmation timeout, once the client has
    delivered its body. *)
Theorem request_answered_in_time allowedHosts req s :
  ∃ s' reply, handle env cfg payer allowedHosts req s = (s', Ok reply)
    ∧ clock s' <= clock s + arrival (q_chunks req) (q_end req).1 + (13 * D + 485500 + confirmTimeoutMs cfg).
Proof.
  pose proof D_nonneg as HD. set (body := arrival (q_chunks req) (q_end req).1).
  assert (Hbody : 0 <= body).
  { subst body. induction (q_chunks req) as [|[ms c] cs IH]; cbn [arrival]; lia. }
  assert (Ht : takes (body + (13 * D + 485500 + confirmTimeoutMs cfg))
                 (handle env cfg payer allowedHosts req)).
  { assert (Hret : ∀ T (r : reply), 0 <= T → takes (E := Empty_set) T (mret r))
      by (intros T r HT; eapply takes_le; [apply takes_ret | lia]).
    pose proof timeout_nonneg as Hto. unfold handle, handleRpc.
    repeat match goal with |- takes _ (if ?c then _ else _) => destruct c; [try (apply Hret; lia) | try (apply Hret; lia)] end.
    { eapply takes_le; [apply takes_status|lia]. }
    apply takes_bind; [apply takes_readBody|lia|intros [text| |]; [|apply Hret; lia..]].
    assert (Hret' : ∀ r : reply, takes (E := Empty_set) (13 * D + 485500 + confirmTimeoutMs cfg) (mret r)) by (intros r; apply Hret; lia).
    clear Hret. rename Hret' into Hret. destruct (json_parse _) as [rpc|]; [|apply Hret].
    destruct (member rpc "method") as [[| | |m| |]|]; try apply Hret.
    destruct (method_named _ _ _ _ _) as [fn|] eqn:En; [|apply Hret].
    destruct (unauthorized _ _ _); [apply Hret|]. apply takes_method in En.
    intros s0. specialize (En s0). unfold call_method.
    destruct (fn s0) as [s1 [r|[]]]; exact En. }
  specialize (Ht s). destruct (handle _ _ _ _ _ s) as [s' [r|[]]]. exists s', r.
  split; [done | simpl in Ht; lia].
Qed.
End request.

(** ** A node that catches up *)
Section catching_up.
Variables (env : Env) (a : sim_args) (v : sim_value) (r : sim_report) (T Tc : Z).
(** The transaction is good: a node that has caught up shows so. *)
Hypothesis good : judge a v = Ok r.
(** From time [T] on the node has caught up; before, its answers may say that
    it is behind the slot asked for, or that it does not know the blockhash, and before
    [Tc], that the passkey's counter is stale. *)
Definition good_body : rpc_body sim_value := mkBody None (Some v).
Definition catching (t : Z) (b : rpc_body sim_value) : Prop :=
  b = good_body
  ∨ (t < T ∧ (lagKind b (a_programs a) = Some LagSlot ∨ lagKind b (a_programs a) = Some LagBlockhash))
  ∨ (t < Tc ∧ lagKind b (a_programs a) = Some LagCounter).
Hypothesis node : ∀ t n min, ∃ b, e_simulate env t n (a_txBase64 a) min = Http 200 (Some b) ∧ catching t b.
Hypothesis prompt : ∀ n, took env n <= RPC_TIMEOUT_MS.

Lemma good_no_lag : lagKind good_body (a_programs a) = None.
Proof.
  unfold good_body, lagKind. cbn. unfold judge in good. destruct (v_err v); [done|].
  rewrite bool_decide_false by done. done.
Qed.

Lemma simulateOnce_live min s :
  ∃ s' b, simulateOnce env (a_txBase64 a) min s = (s', Ok b) ∧ catching (clock s) b ∧ clock s <= clock s'.
Proof.
  unfold simulateOnce, rpcCall. cbn [rpcCall_from].
  unfold mbind, R_bind, emit, try_catch, await_fetch. cbn [calls clock].
  destruct (Z.ltb_spec RPC_TIMEOUT_MS (took env (calls s))) as [Hlt|_];
    [specialize (prompt (calls s)); lia|].
  destruct (node (clock s) (calls s) min) as (b & Hb & Hc). rewrite Hb.
  eexists _, b. split; [done|]. split; [done|]. rewrite pass_clock. cbn [clock].
  pose proof (took_nonneg env (calls s)). lia.
Qed.

Lemma confirmedSlot_live s : ∃ s' h, confirmedSlot env s = (s', Ok h) ∧ clock s <= clock s'.
Proof.
  pose proof (takes_confirmedSlot env s) as Ht. destruct (confirmedSlot env s) as [s1 [h|e]] eqn:E.
  { exists s1, h. split; [done|]. simpl in Ht. lia. }
  exfalso. unfold confirmedSlot in E. apply R_bind_throw in E as [E|(? & ? & _ & [=])].
  unfold try_catch in E. destruct (mbind (M := R exn) _ _ s) as [? []]; done.
Qed.

Lemma lagRetries_live more k min body last t s :
  catching t body → t <= clock s → T <= t + 500 * Z.of_nat more → Tc <= t + 500 * Z.of_nat more →
  (k <= 2)%nat → Tc <= t + 500 * (2 - Z.of_nat k) →
  ∃ s' min' last', lagRetries env a more k min body last s = (s', Ok (min', good_body, last')).
Proof.
  revert k min body last t s. induction more as [|more IH]; intros k min body last t s Hc Ht HT HTc Hk HTk.
  { destruct Hc as [->|[[? _]|[? _]]]; [|lia..]. by eexists _, _, _. }
  cbn [lagRetries]. destruct Hc as [->|Hlag]; [rewrite good_no_lag; by eexists _, _, _|].
  assert (Hl : ∃ l, lagKind body (a_programs a) = Some l ∧ (l = LagCounter → (k < 2)%nat)).
  { destruct Hlag as [[_ [->| ->]]|[? ->]]; eexists; (split; [done|]); done || lia. }
  destruct Hl as (l & -> & Hl). set (k' := if bool_decide (l = LagCounter) then S k else k).
  assert (Hk' : (k' <= S k)%nat ∧ (k' <= 2)%nat) by (subst k'; case_bool_decide; [specialize (Hl H)|]; lia).
  replace (bool_decide (l = LagCounter) && (2 <=? k)%nat) with false
    by (case_bool_decide as H; [specialize (Hl H); cbn [andb]; symmetry; apply Nat.leb_gt; lia|done]).
  unfold mbind at 1, R_bind at 1. unfold sleep. set (s1 := pass env 500 s).
  assert (Hs1 : clock s1 = clock s + 500) by apply pass_clock.
  assert (Hmin : ∃ s2 min', (if bool_decide (l = LagSlot) then mret min
      else head ← confirmedSlot env; mret (nextMinSlot a l min head)) s1 = (s2, Ok min')
      ∧ clock s1 <= clock s2).
  { destruct (bool_decide (l = LagSlot)); [by eexists _, _; split|].
    destruct (confirmedSlot_live s1) as (s2 & h & Hh & Hle).
    unfold mbind, R_bind. rewrite Hh. by eexists _, _; split. }
  destruct Hmin as (s2 & min' & Hm & Hle). unfold mbind at 1, R_bind at 1. rewrite Hm.
  destruct (simulateOnce_live min' s2) as (s3 & b & Hb & Hcb & Hle3).
  unfold mbind, R_bind. rewrite Hb. apply (IH _ _ _ _ (clock s2)); [done | done | lia..].
Qed.

(** C31.  Lag does not fail a good transaction.  If the node answers each call within the
    RPC timeout of 10 seconds, until it has caught up only reports that it is behind (the
    slot asked for, an unknown blockhash, or a stale passkey counter, error 3006 or 3007),
    stops reporting a stale counter within 1 second and has caught up within 2.5 seconds,
    the simulation stage passes with the report of the node that has caught up. *)
Theorem catching_up_is_enough s :
  T <= clock s + 2500 → Tc <= clock s + 1000 → ∃ s', checkSimulation env a s = (s', Ok r).
Proof.
  intros HT HTc. unfold checkSimulation.
  destruct (simulateOnce_live (or_null (a_slotFloor a)) s) as (s1 & b & Hb & Hc & Hle).
  unfold mbind at 1, R_bind at 1. rewrite Hb.
  edestruct (lagRetries_live 5 0 (or_null (a_slotFloor a)) b
    (match b_result b with Some _ => Some b | None => None end) (clock s) s1)
    as (s2 & min' & last' & H2); [done | done | lia..|].
  unfold mbind, R_bind. rewrite H2. exists s2. unfold of_attempt, conclude. cbn [b_error b_result good_body].
  rewrite bool_decide_false by done. by rewrite good.
Qed.
End catching_up.

(** ** The slot floor *)

(** [m] relates the state before to the state after, however it ends. *)
Definition moves (Rel : srv → srv → Prop) {E A} (m : R E A) : Prop := ∀ s, Rel s (fst (m s)).

Section moving.
Context (Rel : srv → srv → Prop) `{!PreOrder Rel}.

Lemma moves_bind {E A B} (m : R E A) (f : A → R E B) :
  moves Rel m → (∀ a, moves Rel (f a)) → moves Rel (m ≫= f).
Proof.
  intros Hm Hf s. unfold mbind, R_bind. specialize (Hm s). destruct (m s) as [s1 [x|e]]; simpl in *.
  - etransitivity; [exact Hm | apply Hf].
  - exact Hm.
Qed.

Lemma moves_try {E F A} (m : R E A) (h : E → R F A) :
  moves Rel m → (∀ e, moves Rel (h e)) → moves Rel (try_catch m h).
Proof.
  intros Hm Hf s. unfold try_catch. specialize (Hm s). destruct (m s) as [s1 [x|e]]; simpl in *.
  - exact Hm.
  - etransitivity; [exact Hm | apply Hf].
Qed.

Lemma moves_ret {E A} (x : A) : moves Rel (E := E) (mret x).
Proof. intros s. simpl. reflexivity. Qed.
Lemma moves_raise {E A} (e : E) : moves Rel (A := A) (raise e).
Proof. intros s. simpl. reflexivity. Qed.
Lemma moves_attempt {E A} (r : outcome E A) : moves Rel (of_attempt r).
Proof. intros s. simpl. reflexivity. Qed.
Lemma moves_gets {E A} (f : srv → A) : moves Rel (E := E) (gets f).
Proof. intros s. simpl. reflexivity. Qed.
End moving.

(** A relation every primitive step respects is respected by every request. *)
Section requests_move.
Context `{W : Web3}.
Variables (env : Env) (cfg : relayer_cfg) (payer : Keypair).
Context (Rel : srv → srv → Prop) `{!PreOrder Rel}.
Hypothesis rel_pass : ∀ ms s, Rel s (pass env ms s).
Hypothesis rel_emit : ∀ ev, moves Rel (E := exn) (emit ev) ∧ moves Rel (E := vet_exn) (emit ev).
Hypothesis rel_floor : ∀ k, moves Rel (E := exn) (raise_floor k).
Hypothesis rel_rate : moves Rel (takeRateSlot cfg).

Lemma moves_sleep {E} ms : moves Rel (E := E) (sleep env ms).
Proof. intros s. apply rel_pass. Qed.
Lemma moves_await {E A} (call : Z → nat → outcome E A) : moves Rel (await env call).
Proof. intros s. apply rel_pass. Qed.
Lemma moves_fetch {E A} (call : Z → nat → http A) : moves Rel (E := E) (await_fetch env call).
Proof. intros s. unfold await_fetch. destruct (_ <? _); apply rel_pass. Qed.
Lemma moves_within {E A} ms (call : Z → nat → outcome E A) : moves Rel (within env ms call).
Proof. intros s. unfold within. destruct (_ <? _); apply rel_pass. Qed.

Create HintDb moves.
#[local] Hint Resolve moves_ret moves_raise moves_attempt moves_gets moves_sleep moves_await
  moves_fetch moves_within rel_floor rel_rate : moves.

(** Decompose a computation into its steps. *)
Local Ltac moves :=
  repeat first
    [ solve [auto with moves]
    | apply (proj1 (rel_emit _)) | apply (proj2 (rel_emit _))
    | match goal with
      | |- moves _ (try_catch _ _) => apply moves_try; [assumption| |intros ?]
      | |- moves _ (_ ≫= _) => apply moves_bind; [assumption| |intros ?]
      | |- moves _ (match ?x with _ => _ end) => destruct x
      | |- moves _ (let (_, _) := ?x in _) => destruct x
      end ].

Lemma moves_rpcCall {A} more b (call : Z → nat → http A) : moves Rel (rpcCall_from env more b call).
Proof. revert b. induction more as [|more IH]; intros b; cbn [rpcCall_from]; moves. Qed.
#[local] Hint Resolve moves_rpcCall : moves.

Lemma moves_simulateOnce tx min : moves Rel (simulateOnce env tx min).
Proof. unfold simulateOnce, rpcCall. moves. Qed.
#[local] Hint Resolve moves_simulateOnce : moves.

Lemma moves_lagRetries a more k min body last : moves Rel (lagRetries env a more k min body last).
Proof.
  revert k min body last. induction more as [|more IH]; intros k min body last; cbn [lagRetries];
    unfold confirmedSlot, rpcCall; moves.
Qed.
#[local] Hint Resolve moves_lagRetries : moves.

Lemma moves_checkSimulation a : moves Rel (checkSimulation env a).
Proof. unfold checkSimulation. moves. Qed.
#[local] Hint Resolve moves_checkSimulation : moves.

Lemma moves_atSlotFloor {A} more (read : option Z → R js_error A) :
  (∀ min, moves Rel (read min)) → moves Rel (atSlotFloor env more read).
Proof. intros Hr. induction more as [|more IH]; cbn [atSlotFloor]; moves. Qed.
#[local] Hint Resolve moves_atSlotFloor : moves.

Lemma moves_plain {A} (m : R exn A) : moves Rel m → moves Rel (plain m).
Proof. intros H. unfold plain. moves. Qed.
#[local] Hint Resolve moves_plain : moves.

Lemma moves_readBalance : moves Rel (readBalance env).
Proof. unfold readBalance. moves. Qed.
#[local] Hint Resolve moves_readBalance : moves.

Lemma moves_explain tx raw e : moves Rel (explainIfAlreadySent env payer tx raw e).
Proof. unfold explainIfAlreadySent, lookUp. moves. Qed.

Lemma moves_vetAndSign params : moves Rel (vetAndSign env cfg payer params).
Proof.
  unfold vetAndSign. moves.
  intros s. match goal with |- context [explainIfAlreadySent env payer ?t ?r ?e s] =>
    pose proof (moves_explain t r e s) as H; destruct (explainIfAlreadySent env payer t r e s) as [s' [x|[]]]
  end. exact H.
Qed.
#[local] Hint Resolve moves_vetAndSign : moves.

Lemma moves_vetAndSignOrLanded params : moves Rel (vetAndSignOrLanded env cfg payer params).
Proof. unfold vetAndSignOrLanded. moves. Qed.
#[local] Hint Resolve moves_vetAndSignOrLanded : moves.

Lemma moves_send more raw min sig : moves Rel (sendWithLagRetry env more raw min sig).
Proof.
  induction more as [|more IH]; cbn [sendWithLagRetry]; unfold alreadySent, lookUp; moves.
Qed.
#[local] Hint Resolve moves_send : moves.

Lemma moves_pollOnce d sg bh min polls seen : moves Rel (pollOnce env d sg bh min polls seen).
Proof. unfold pollOnce, lastLook, Date_now. moves. Qed.
#[local] Hint Resolve moves_pollOnce : moves.

Lemma moves_waitLoop fuel d sg bh min polls seen :
  moves Rel (waitLoop env fuel d sg bh min polls seen).
Proof.
  revert polls seen. induction fuel as [|fuel IH]; intros polls seen; cbn [waitLoop];
    unfold Date_now; moves.
Qed.
#[local] Hint Resolve moves_waitLoop : moves.

Lemma moves_confirmAndAnswer signed slot result : moves Rel (confirmAndAnswer env cfg signed slot result).
Proof.
  unfold confirmAndAnswer, answerLanding. moves.
  intros s. unfold never.
  assert (Hw : ∀ sg bh min, moves Rel (waitConfirmed env cfg sg bh min))
    by (intros; unfold waitConfirmed, Date_now; moves).
  match goal with |- context [waitConfirmed env cfg ?g ?b ?m s] =>
    specialize (Hw g b m s); destruct (waitConfirmed env cfg g b m s) as [s' [x|[]]] end. exact Hw.
Qed.
#[local] Hint Resolve moves_confirmAndAnswer : moves.

Lemma moves_method method params fn : method_named env cfg payer method params = Some fn → moves Rel fn.
Proof.
  unfold method_named, getPayerSigner, getBlockhash, signTransaction, signAndSendTransaction.
  intros H. repeat case_match; simplify_eq; moves.
Qed.

Lemma moves_call fn : moves Rel fn → moves Rel (call_method fn).
Proof. intros H s. specialize (H s). unfold call_method. by destruct (fn s) as [s1 [r|[]]]. Qed.

Lemma moves_readBody chunks fin size acc : moves Rel (readBody env chunks fin size acc).
Proof. revert size acc. induction chunks as [|[ms c] chunks IH]; intros size acc; cbn [readBody]; moves. Qed.
#[local] Hint Resolve moves_readBody : moves.

Lemma moves_handleRpc req text : moves Rel (handleRpc env cfg payer req text).
Proof. unfold handleRpc. repeat case_match; auto with moves. by eapply moves_call, moves_method. Qed.
#[local] Hint Resolve moves_handleRpc : moves.

Lemma moves_handle allowedHosts req : moves Rel (handle env cfg payer allowedHosts req).
Proof. unfold handle, status. moves. Qed.
End requests_move.

(** The slot floor does not fall. *)
Definition floor_up (s s' : srv) : Prop := slotFloor s <= slotFloor s'.
#[export] Instance floor_up_preorder : PreOrder floor_up.
Proof. split; unfold floor_up; [intros s | intros s s' s'']; lia. Qed.

Section floor.
Context `{W : Web3}.
Variables (env : Env) (cfg : relayer_cfg) (payer : Keypair) (allowedHosts : list string).
(** What the other requests do to the floor in the meantime. *)
Hypothesis others_rise : ∀ n l k, k <= snd (e_others env n (l, k)).

Lemma floor_pass ms s : floor_up s (pass env ms s).
Proof.
  unfold floor_up, pass. specialize (others_rise (calls s) (signedAt s) (slotFloor s)).
  by destruct (e_others _ _ _).
Qed.

Lemma floor_emit ev : moves floor_up (E := exn) (emit ev) ∧ moves floor_up (E := vet_exn) (emit ev).
Proof. split; intros s; unfold floor_up; simpl; lia. Qed.

Lemma floor_rises k : moves floor_up (E := exn) (raise_floor k).
Proof. intros s. unfold floor_up. simpl. lia. Qed.

Lemma floor_rate : moves floor_up (takeRateSlot cfg).
Proof. intros s. unfold takeRateSlot, floor_up. destruct (rateSlot _ _ _). simpl. lia. Qed.

Lemma floor_handle req : moves floor_up (handle env cfg payer allowedHosts req).
Proof. apply moves_handle; eauto using floor_pass, floor_emit, floor_rises, floor_rate with typeclass_instances. Qed.

(** The states later requests start from. *)
Inductive later (s : srv) : srv → Prop :=
  | later_refl : later s s
  | later_request s' req : later s s' → later s (fst (handle env cfg payer allowedHosts req s')).

Lemma later_floor s s' : later s s' → slotFloor s <= slotFloor s'.
Proof. induction 1 as [|s' req _ IH]; [done|]. pose proof (floor_handle req s'). unfold floor_up in *. lia. Qed.

Lemma vetAndSign_floor params s s' signed slot :
  vetAndSign env cfg payer params s = (s', Ok (signed, slot)) →
  ∃ tx raw key wire min body, decodeParams cfg params = Ok (tx, raw, key)
    ∧ wire_of tx raw = Ok wire ∧ simulated env (base64_encode wire) min body
    ∧ slotFloor s <= default 0 min.
Proof.
  unfold vetAndSign. intros H. r_step H. destruct a as [[tx raw] key].
  apply plain_inv, of_attempt_inv in E as [-> Hd].
  r_step H. apply plain_inv, of_attempt_inv in E as [-> _].
  r_step H. apply plain_inv, of_attempt_inv in E as [-> Hw].
  r_step H. apply plain_inv in E.
  pose proof (moves_readBalance env floor_up floor_pass s) as Hb. rewrite E in Hb.
  r_step H. injection E0 as -> <-. r_step H. apply try_catch_inv in E0 as [E0|(s5 & e & _ & E0)].
  2:{ destruct e; try done. destruct (_ && _); [|done].
      destruct (explainIfAlreadySent _ _ _ _ _ _) as [? [?|[]]]. done. }
  apply checkSimulation_ok in E0 as (body & v & (min & Hmin & Hsim) & _).
  exists tx, raw, key, a0, min, body. split_and!; [done | exact Hw | exact Hsim |].
  unfold floor_up in Hb. cbn in Hb, Hmin. lia.
Qed.

(** C34.  The relayer reads its own writes: once it has answered after waiting for one of
    its transactions to confirm, and it did in slot [k], every transaction it signs later,
    after any further requests, was simulated with slot [k] or a later one as the oldest
    bank allowed.  A resend of bytes that had already confirmed is answered without a
    wait, and does not raise the floor. *)
Theorem own_confirmations_are_seen sent context result r k s0 s s1 s2 s3 params signed slot :
  waitConfirmed env cfg (sg_signature sent) (recentBlockhash (sg_tx sent)) (or_null (default (slotFloor s0) context)) s0
    = (s, Ok (Some (Confirmed k))) →
  confirmAndAnswer env cfg sent context result s0 = (s1, Ok r) → later s1 s2 →
  vetAndSign env cfg payer params s2 = (s3, Ok (signed, slot)) →
  ∃ tx raw key wire min body, decodeParams cfg params = Ok (tx, raw, key)
    ∧ wire_of tx raw = Ok wire ∧ simulated env (base64_encode wire) min body ∧ k <= default 0 min.
Proof.
  intros Hw H Hl%later_floor Hv.
  unfold confirmAndAnswer, mbind, R_bind, gets, never in H. rewrite Hw in H. injection H as <- _.
  change (Z.max (slotFloor s) k <= slotFloor s2) in Hl.
  apply vetAndSign_floor in Hv as (tx & raw & key & wire & min & body & Hd & Hwire & Hs & Hf).
  exists tx, raw, key, wire, min, body. split_and!; try done. lia.
Qed.
End floor.
