(* ===== verification/RelayerSamples.v ===== *)
(** * A concrete run of the relayer

    An instance of [Web3] that reads and signs the v1 wire layout, a node that
    answers, and the examples that apply the theorems on the relayer. *)
From S2P Require Import Prelude Bytes Kit Json JsonText RelayerTx RelayerPolicy RelayerSim.
From S2P Require Import RelayerServer RelayerHttp RelayerProps RelayerSafety RelayerAnswers.
From Stdlib Require Import Sorting.Sorted.
Import ConcreteKit.
Local Open Scope Z_scope.

(** ** The v1 wire layout *)

(** [n] keys of 32 bytes from [at_]. *)
Fixpoint read_keys (n at_ : nat) (raw : bytes) : list bytes :=
  match n with
  | O => []
  | S n => slice at_ (at_ + 32) raw :: read_keys n (at_ + 32) raw
  end.

(** A config value: present when its mask bit is set; the rest of the bytes. *)
Definition config_value (mask bit : Z) (w at_ : nat) (raw : bytes) : option Z * nat :=
  if Z.testbit mask bit then (Some (le_combine (slice at_ (at_ + w) raw)), (at_ + w)%nat)
  else (None, at_).

(** Per instruction: the program index, the account count and the data length. *)
Fixpoint ix_headers (n at_ : nat) (raw : bytes) : list (nat * nat * nat) :=
  match n with
  | O => []
  | S n => (Z.to_nat (val (raw !!! at_)), Z.to_nat (val (raw !!! (at_ + 1)%nat)),
            Z.to_nat (le_combine (slice (at_ + 2) (at_ + 4) raw))) :: ix_headers n (at_ + 4) raw
  end.

Fixpoint ix_bodies (hs : list (nat * nat * nat)) (at_ : nat) (raw : bytes) :
    list CompiledInstruction * nat :=
  match hs with
  | [] => ([], at_)
  | (p, na, nd) :: hs =>
    let '(ixs, end_) := ix_bodies hs (at_ + na + nd) raw in
    (mkCompiled p ((λ b, Z.to_nat (val b)) <$> slice at_ (at_ + na) raw)
       (slice (at_ + na) (at_ + na + nd) raw) :: ixs, end_)
  end.

Definition decode_v1 (raw : bytes) : option VersionedTransaction :=
  if negb (isTxV1 raw) || (length raw <? 74)%nat then None
  else
    let signers := val (raw !!! 1%nat) in
    let mask := le_combine (slice 4 8 raw) in
    let nix := Z.to_nat (val (raw !!! 40%nat)) in
    let nkeys := Z.to_nat (val (raw !!! 41%nat)) in
    let keys := read_keys nkeys 42 raw in
    let '(fee, at_) := config_value mask 0 8 (42 + 32 * nkeys) raw in
    let '(cu, at_) := config_value mask 2 4 at_ raw in
    let '(lad, at_) := config_value mask 3 4 at_ raw in
    let '(heap, at_) := config_value mask 4 4 at_ raw in
    let hs := ix_headers nix at_ raw in
    let '(ixs, at_) := ix_bodies hs (at_ + 4 * nix) raw in
    if (Z.of_nat (42 + 32 * nkeys) + 64 * signers <=? blen raw)
       && (Z.of_nat at_ + 64 * signers =? blen raw) then
      Some (mkTx V1 (mkHeader signers (val (raw !!! 2%nat)) (val (raw !!! 3%nat))) keys ixs
              (slice 8 40 raw) (mkTxConfig cu lad heap fee) [])
    else None.

(** A signature of 64 bytes that depends on the seed and the message. *)
Definition toy_sign (seed m : bytes) : bytes := pad32 seed ++ toy_hash m.

#[export] Instance web3 : Web3 := {|
  toBase58 := b58_encode;
  deserialize := decode_v1;
  serialize := λ _, None;
  sign_with := λ _ _, None;
  base64_decode := λ s, unhex (utf8 s);
  base64_encode := hex_text;
  ed25519_public := λ seed, seed;
  ed25519_sign := toy_sign;
|}.

Lemma length_pad32 b : length (pad32 b) = 32%nat.
Proof. unfold pad32. rewrite length_take, length_app, length_zeros. lia. Qed.

#[export] Instance web3_laws : Web3Laws web3.
Proof.
  split.
  - intros a b Ha Hb H. apply (f_equal b58_parse) in H. cbn [toBase58 web3] in H.
    rewrite !b58_parse_encode in H by done. congruence.
  - intros seed m. cbn [ed25519_sign web3]. unfold toy_sign, toy_hash. by rewrite length_app, !length_pad32.
  - intros raw tx k H _ Hk. cbn [deserialize web3] in H. unfold decode_v1 in H.
    destruct (isTxV1 raw) eqn:E1; [|done]. cbn [negb orb] in H.
    destruct (Nat.ltb_spec (length raw) 74); [done|].
    repeat match type of H with
    | (let '(_, _) := ?x in _) = _ => destruct x
    end.
    destruct (_ && _) eqn:Eb; [|done]. injection H as <-. cbn [staticAccountKeys header numRequiredSignatures] in *.
    apply andb_true_iff in Eb as [Eb%Z.leb_le _].
    destruct (Z.to_nat (val (raw !!! 41%nat))) as [|nk] eqn:Ek; [done|]. cbn [read_keys head] in Hk.
    injection Hk as <-. split; [done|]. split; [|split; [done | lia]].
    unfold byte_at. rewrite (list_lookup_lookup_total_lt raw 1) by lia. done.
Qed.

Module RelayerSample.

(** The relayer's key, and what it listens to. *)
Definition payer : Keypair := mkKeypair (replicate 32 (u8 7)) (replicate 32 (u8 7) ++ replicate 32 (u8 1)).
Definition hosts : list string := ["localhost"; "127.0.0.1"]%string.
Definition cfg : relayer_cfg := mkCfg 50000000 300 true 30000 (Some "key"%string) None false 4 true 0.

Definition key_of (s : string) : bytes := default [] (b58_parse s).

(** One instruction: a precompile and the LazorKit instruction it authorizes. *)
Definition keys : list bytes :=
  [publicKey payer; replicate 32 (u8 9); key_of SECP256R1_PROGRAM; key_of LAZORKIT_V2_DEVNET].
Definition body : bytes := [u8 4; u8 0; u8 1].
Definition message : bytes :=
  [u8 0x81; u8 1; u8 0; u8 2] ++ le_split 4 12 ++ replicate 32 (u8 3) ++ [u8 2; u8 4]
  ++ concat keys ++ le_split 4 200000 ++ le_split 4 65536
  ++ [u8 2; u8 0] ++ le_split 2 1 ++ [u8 3; u8 2] ++ le_split 2 3
  ++ [u8 5] ++ [u8 0; u8 1] ++ body.
Definition raw : bytes := message ++ zeros 64.

Definition tx : VersionedTransaction :=
  mkTx V1 (mkHeader 1 0 2) keys [mkCompiled 2 [] [u8 5]; mkCompiled 3 [0; 1]%nat body]
    (replicate 32 (u8 3)) (mkTxConfig (Some 200000) (Some 65536) None None) [].

Lemma raw_decodes : deserialize raw = Some tx.
Proof. vm_compute. reflexivity. Qed.

Definition opts : inspect_opts :=
  mkInspect (b58_encode (publicKey payer)) None 4 true (Some raw) 0.

Lemma sponsorable : Sponsorable tx opts.
Proof.
  destruct (inspectTransaction tx opts) as [s|e] eqn:E.
  - by apply inspectTransaction_inv in E as [H _].
  - exfalso. assert (Hok : is_ok (inspectTransaction tx opts) = true) by (vm_compute; reflexivity).
    by rewrite E in Hok.
Qed.

(** What a good simulation reports: the fee payer spends 10,000 lamports. *)
Definition value : sim_value :=
  mkSim None (Some []) (Some [mkGroup 1 (Some [Some SYSTEM_PROGRAM])]) (Some 999990000) (Some 4200) (Some 77).
Definition settled : sig_status := mkStatus 80 None true.

(** A node that is behind until [T], and confirms what it is sent. *)
Definition node (T : Z) : Env := mkEnv
  (λ t _ _ _, Http 200 (Some (if t <? T then mkBody (Some MIN_CONTEXT_SLOT_NOT_REACHED) None
                              else mkBody None (Some value))))
  (λ _ _, Http 200 (Some (mkBody None (Some 70)))) (λ _ _ _, Ok 1000000000)
  (λ _ _ _ _, Ok (Some settled)) (λ _ _ _ _, Ok true) (λ _ _ _ _, Ok "sig"%string) (λ _ _, Ok "bh"%string)
  (λ _, 40) (λ _ x, x).

Definition start : srv := mkSrv 0 0 [] 0 [].

(** The JSON-RPC request for it. *)
Definition request_text (method : string) : bytes :=
  stringify (JObj [(utf8 "method", JStr (utf8 method));
                   (utf8 "params", JObj [(utf8 "transaction", JStr (utf8 (hex_text raw)))])]).
Definition request : http_request :=
  mkRequest "POST" "/" (Some "localhost:8787"%string) None (Some "application/json; charset=utf-8"%string)
    (Some "key"%string) None [(30, request_text "signAndSendTransaction")] (0, false).

Definition answered (r : srv * outcome Empty_set reply) : bool :=
  match r with (_, Ok (RpcResult m)) => is_signed m | _ => false end.

Lemma answered_inv r : answered r = true → ∃ s m, r = (s, Ok (RpcResult m)) ∧ is_signed m = true.
Proof. destruct r as [s [[| | | |m]|]]; try done. intros H. by exists s, m. Qed.
End RelayerSample.

Import RelayerSample.

(** ** Examples *)
Lemma sponsored_v1_signed_in_place_witness :
  ∃ signed m, signAsFeePayer payer tx raw = Ok signed
    ∧ m = Z.to_nat (blen raw - 64) ∧ slice 0 m (sg_raw signed) = slice 0 m raw
    ∧ signTxV1AsFeePayer (sg_raw signed) payer = Ok (sg_raw signed).
Proof.
  destruct (@sponsored_v1_signed_in_place web3 web3_laws cfg payer eq_refl eq_refl tx raw None
    raw_decodes eq_refl sponsorable) as (signed & m & H1 & H2 & _ & H4 & _ & _ & _ & H8).
  exists signed, m. split; [exact H1|]. split; [exact H2|]. split; [exact H4 | exact H8].
Defined.

(** A request that is signed, sent and confirmed on a node that has caught up. *)
Lemma signature_given_out_is_vetted_witness :
  ∃ s' r, handle (node 0) cfg payer hosts request (mkSrv 0 0 [] 60 []) = (s', Ok (RpcResult r))
    ∧ ∃ params signed resent, RequestAccepted cfg hosts request params ∧ carries payer r signed
        ∧ Vetted (node 0) cfg payer 60 params signed resent.
Proof.
  destruct (answered_inv (handle (node 0) cfg payer hosts request (mkSrv 0 0 [] 60 []))) as (s' & r & E & Hr);
    [vm_compute; reflexivity|].
  exists s', r. split; [exact E|].
  exact (@signature_given_out_is_vetted web3 (node 0) cfg payer hosts (λ n l k, Z.le_refl k) request (mkSrv 0 0 [] 60 []) s' r E Hr).
Defined.

(** Three requests with a limit of two: the third waits for the hour. *)
Lemma rate_limit_per_hour_witness :
  admitted 2 [0; 10; 3600005; 3600011] [] = [0; 10; 3600005; 3600011]
  ∧ count_hour 5 (admitted 2 [0; 10; 20; 3600005] []) <= 2.
Proof.
  split; [vm_compute; reflexivity|].
  apply (@rate_limit_per_hour 2 ltac:(lia) [0; 10; 20; 3600005] 5).
  repeat first [apply Sorted_nil | apply Sorted_cons | apply HdRel_nil | apply HdRel_cons; lia].
Defined.

Lemma confirmation_wait_ends_witness :
  ∃ s' l, waitConfirmed (node 0) cfg "sig" [] None start = (s', Ok (Some l))
    ∧ clock s' <= 30000 ∧ justified (node 0) "sig" [] None 30000 s' l.
Proof.
  exact (@confirmation_wait_ends (node 0) cfg "sig" [] None ltac:(cbn; lia) start).
Defined.

Lemma request_answered_in_time_witness :
  ∃ s' reply, handle (node 0) cfg payer hosts request start = (s', Ok reply) ∧ clock s' <= 516050.
Proof.
  destruct (@request_answered_in_time web3 (node 0) cfg payer 40 ltac:(cbn; lia)
    (λ n, Z.le_refl 40) hosts request start) as (s' & reply & H & Hc).
  exists s', reply. split; [exact H | change (arrival (q_chunks request) (q_end request).1) with 30 in Hc; cbn [start clock confirmTimeoutMs cfg] in Hc; lia].
Defined.

(** The node lags for a second. *)
Lemma catching_up_is_enough_witness :
  ∃ s', checkSimulation (node 1000) (mkSimArgs "tx" 50000000 1000000000 [] 5 None) start
        = (s', Ok (mkReport [SYSTEM_PROGRAM] (-10000) (Some 4200) [] (Some 77))).
Proof.
  apply (@catching_up_is_enough (node 1000) (mkSimArgs "tx" 50000000 1000000000 [] 5 None) value
    (mkReport [SYSTEM_PROGRAM] (-10000) (Some 4200) [] (Some 77)) 1000 0).
  - vm_compute. reflexivity.
  - intros t n min. cbn [e_simulate node]. destruct (Z.ltb_spec t 1000) as [Ht|Ht].
    + eexists. split; [reflexivity|]. right. left. split; [exact Ht|]. left. vm_compute. reflexivity.
    + eexists. split; [reflexivity|]. left. reflexivity.
  - intros n. vm_compute. discriminate.
  - cbn. lia.
  - cbn. lia.
Defined.

Definition sign_params : json := JObj [(utf8 "transaction", JStr (utf8 (hex_text raw)))].

(** What was sent first; the sample node confirms it in slot 80. *)
Definition sent : signed_tx := mkSigned tx raw "sig".

(** A confirmation in slot 80, another request, and a later signature. *)
Lemma own_confirmations_are_seen_witness :
  ∃ s1 s2 s3 signed slot,
    confirmAndAnswer (node 0) cfg sent None (PayerSigner "a" "a") start = (s1, Ok (PayerSigner "a" "a"))
    ∧ later (node 0) cfg payer hosts s1 s2
    ∧ vetAndSign (node 0) cfg payer sign_params s2 = (s3, Ok (signed, slot))
    ∧ ∃ tx raw key wire min body, decodeParams cfg sign_params = Ok (tx, raw, key)
        ∧ wire_of tx raw = Ok wire ∧ simulated (node 0) (base64_encode wire) min body
        ∧ 80 <= default 0 min.
Proof.
  set (s1 := fst (confirmAndAnswer (node 0) cfg sent None (PayerSigner "a" "a") start)).
  set (s0 := fst (waitConfirmed (node 0) cfg (sg_signature sent) (recentBlockhash (sg_tx sent)) None start)).
  assert (Hw : waitConfirmed (node 0) cfg (sg_signature sent) (recentBlockhash (sg_tx sent)) None start = (s0, Ok (Some (Confirmed 80))))
    by (vm_compute; reflexivity).
  assert (Hc : confirmAndAnswer (node 0) cfg sent None (PayerSigner "a" "a") start = (s1, Ok (PayerSigner "a" "a")))
    by (vm_compute; reflexivity). set (s2 := fst (handle (node 0) cfg payer hosts request s1)).
  assert (Hl : later (node 0) cfg payer hosts s1 s2) by (apply later_request, later_refl).
  destruct (vetAndSign (node 0) cfg payer sign_params s2) as [s3 [[signed slot]|e]] eqn:E.
  - exists s1, s2, s3, signed, slot. split; [exact Hc|]. split; [exact Hl|]. split; [exact E|].
    exact (@own_confirmations_are_seen web3 (node 0) cfg payer hosts (fun n l k => Z.le_refl k)
      sent None (PayerSigner "a" "a") (PayerSigner "a" "a") 80 start s0 s1 s2 s3 sign_params signed slot Hw Hc Hl E).
  - exfalso. assert (Hok : is_ok (snd (vetAndSign (node 0) cfg payer sign_params s2)) = true)
      by (vm_compute; reflexivity).
    rewrite E in Hok. discriminate Hok.
Defined.
