(* ===== verification/RelayerStart.v ===== *)
(** * Starting the relayer

    Models the rest of src/deploy/relayer/src/server.mjs: the command line, the
    configuration it and the environment give, the keypair file, the status page, the
    choice of addresses and the order in which the process starts or gives up.  Node's
    [util.parseArgs], [path] and [Number] are written out; the file system, the network
    interfaces and the cluster are parameters. *)
From S2P Require Import Prelude Bytes Json Ownership RelayerTx RelayerPolicy RelayerSim RelayerServer RelayerHttp.
From S2P Require Import RelayerAnswers RelayerSamples.
Local Open Scope string_scope.
Local Open Scope list_scope.
Local Open Scope Z_scope.

(** ** Text *)
Definition text_of (b : bytes) : string := String.string_of_list_byte b.

(** [text.split(c)] for one byte. *)
Fixpoint split_byte (c : Z) (b : bytes) : list bytes :=
  match b with
  | [] => [[]]
  | x :: b =>
    if val x =? c then [] :: split_byte c b
    else match split_byte c b with
         | part :: parts => (x :: part) :: parts
         | [] => [[x]]
         end
  end.

(** White space and line terminators of the language, in UTF-8. *)
Definition WHITE : list bytes :=
  ((λ c, [u8 c]) <$> [9; 10; 11; 12; 13; 32])
  ++ [[u8 0xc2; u8 0xa0]; [u8 0xe1; u8 0x9a; u8 0x80]; [u8 0xe2; u8 0x80; u8 0xa8]; [u8 0xe2; u8 0x80; u8 0xa9];
      [u8 0xe2; u8 0x80; u8 0xaf]; [u8 0xe2; u8 0x81; u8 0x9f]; [u8 0xe3; u8 0x80; u8 0x80]; [u8 0xef; u8 0xbb; u8 0xbf]]
  ++ ((λ i, [u8 0xe2; u8 0x80; u8 (0x80 + Z.of_nat i)]) <$> seq 0 11).

(** Every turn removes a byte, so the length is fuel enough. *)
Fixpoint strip_any (fuel : nat) (ws : list bytes) (b : bytes) : bytes :=
  match fuel with
  | O => b
  | S fuel => match list_find (λ w, is_Some (strip_prefix w b)) ws with
              | Some (_, w) => strip_any fuel ws (drop (length w) b)
              | None => b
              end
  end.
(** [text.trim()]. *)
Definition js_trim (b : bytes) : bytes :=
  let b := strip_any (length b) WHITE b in
  reverse (strip_any (length b) (reverse <$> WHITE) (reverse b)).

(** ** Number(text) *)
Definition digit_value (c : Byte.byte) : option Z :=
  let v := val c in
  if (48 <=? v) && (v <=? 57) then Some (v - 48)
  else if (97 <=? v) && (v <=? 122) then Some (v - 87)
  else if (65 <=? v) && (v <=? 90) then Some (v - 55)
  else None.

(** The digits at the start of a text, as a number, how many, and the rest. *)
Fixpoint digits (base : Z) (b : bytes) (acc : Z) (n : nat) : Z * nat * bytes :=
  match b with
  | c :: r =>
    match digit_value c with
    | Some d => if d <? base then digits base r (acc * base + d) (S n) else (acc, n, b)
    | None => (acc, n, b)
    end
  | [] => (acc, n, [])
  end.

(** Digits to the end of the text, at least one. *)
Definition whole (base : Z) (b : bytes) : option Z :=
  match digits base b 0 0 with (v, S _, []) => Some v | _ => None end.

(** An exponent part to the end of the text; none is an exponent of zero. *)
Definition exponent (b : bytes) : option Z :=
  match b with
  | [] => Some 0
  | e :: r =>
    if (val e =? 101) || (val e =? 69) then
      match r with
      | s :: r' => if val s =? 43 then whole 10 r' else if val s =? 45 then Z.opp <$> whole 10 r' else whole 10 r
      | [] => None
      end
    else None
  end.

(** A decimal literal without its sign: [n * 10^e] as [n] and [e]. *)
Definition decimal_literal (b : bytes) : option (Z * Z) :=
  let '(i, ni, r) := digits 10 b 0 0 in
  let '(n, nf, r) := match r with
                     | c :: r' => if val c =? 46 then digits 10 r' i 0 else (i, 0%nat, r)
                     | [] => (i, 0%nat, [])
                     end in
  if (ni + nf =? 0)%nat then None
  else e ← exponent r; Some (n, e - Z.of_nat nf).

(** The nearest multiple of [2^u] to [n / d] and its [u], ties to even: the value of a
    positive rational as a double, short of overflow. *)
Definition round_even (n d : Z) : Z :=
  let q := n / d in
  match 2 * (n mod d) ?= d with
  | Lt => q
  | Gt => q + 1
  | Eq => if Z.even q then q else q + 1
  end.
Definition to_double (n d : Z) : Z * Z :=
  let k := Z.log2 n - Z.log2 d in
  let e := if d * 2 ^ Z.max k 0 <=? n * 2 ^ Z.max (- k) 0 then k else k - 1 in
  let u := Z.max (e - 52) (-1074) in
  (round_even (n * 2 ^ Z.max (- u) 0) (d * 2 ^ Z.max u 0), u).

Definition MAX_SAFE_INTEGER : Z := 2 ^ 53 - 1.

(** The double [n / d], if it is a safe integer. *)
Definition safe_of (n d : Z) : option Z :=
  if n =? 0 then Some 0
  else
    let '(m, u) := to_double n d in
    let v := if 0 <=? u then Some (m * 2 ^ u) else if m mod 2 ^ (- u) =? 0 then Some (m / 2 ^ (- u)) else None in
    v ← v; if v <=? MAX_SAFE_INTEGER then Some v else None.

(** [Number(text)], where it is a safe integer: [None] for [NaN], an infinity and every
    other number. *)
Definition safe_integer (text : string) : option Z :=
  let b := js_trim (utf8 text) in
  let unsigned b := '(n, e) ← decimal_literal b; safe_of (n * 10 ^ Z.max e 0) (10 ^ Z.max (- e) 0) in
  match b with
  | [] => Some 0
  | c :: r =>
    let radix := match r with
                 | x :: r' =>
                   if val c =? 48 then
                     if (val x =? 120) || (val x =? 88) then Some (16, r')
                     else if (val x =? 111) || (val x =? 79) then Some (8, r')
                     else if (val x =? 98) || (val x =? 66) then Some (2, r')
                     else None
                   else None
                 | [] => None
                 end in
    match radix with
    | Some (base, digits) => n ← whole base digits; safe_of n 1
    | None =>
      if val c =? 45 then Z.opp <$> unsigned r
      else if val c =? 43 then unsigned r
      else unsigned b
    end
  end.

(** ** util.parseArgs *)
Inductive arg_type := ABoolean | AString.
#[export] Instance arg_type_eq_dec : EqDecision arg_type.
Proof. solve_decision. Defined.

(** The [options] given: a name, its type, its short form. *)
Definition OPTIONS : list (string * (arg_type * option string)) :=
  [("port", (AString, None)); ("lan", (ABoolean, None)); ("lan-ip", (AString, None)); ("rpc", (AString, None));
   ("keypair", (AString, None)); ("max-lamports", (AString, None)); ("max-tx-per-hour", (AString, None));
   ("allow-plain", (ABoolean, None)); ("require-lazorkit", (ABoolean, None)); ("confirm-timeout", (AString, None));
   ("api-key", (AString, None)); ("cors-origin", (AString, None)); ("any-cluster", (ABoolean, None));
   ("tx-v1", (ABoolean, None)); ("max-priority-fee-lamports", (AString, None)); ("help", (ABoolean, Some "h"))].

Definition type_of (name : string) : option arg_type :=
  (λ o, fst (snd o)) <$> List.find (λ o, String.eqb (fst o) name) OPTIONS.

(** [findLongOptionForShort]: the short option itself when none has it. *)
Definition long_of (short : string) : string :=
  match List.find (λ o, match snd (snd o) with Some s => String.eqb s short | None => false end) OPTIONS with
  | Some o => fst o
  | None => short
  end.

(** A value or, for a boolean option, its presence. *)
Definition values : Type := list (string * option string).

Definition takes_value (name : string) : bool := bool_decide (type_of name = Some AString).

(** The usage checks of the strict mode, on an option and the value it came with. *)
Definition usage_ok (name : string) (value : option string) : bool :=
  match type_of name with
  | None => false
  | Some AString => bool_decide (is_Some value)
  | Some ABoolean => bool_decide (value = None)
  end.

(** A value that is not inline and looks like an option is refused. *)
Definition option_like (b : bytes) : bool := (1 <? length b)%nat && byte_is b 0 45.

(** The arguments left to right: [None] when [parseArgs] throws.  A group of short
    options goes back onto the arguments one by one, so the fuel counts bytes. *)
Fixpoint parse_argv (fuel : nat) (argv : list bytes) : option values :=
  match fuel, argv with
  | _, [] => Some []
  | O, _ => None
  | S fuel, arg :: rest =>
    let option_with name inline rest :=
      if usage_ok name inline then cons (name, inline) <$> parse_argv fuel rest else None in
    let option_next name :=
      if takes_value name then
        match rest with
        | v :: rest => if option_like v then None else option_with name (Some (text_of v)) rest
        | [] => None
        end
      else option_with name None rest in
    match arg with
    | a :: b :: more =>
      if negb (val a =? 45) then None
      else if negb (val b =? 45) then
        match more with
        | [] => option_next (long_of (text_of [b]))
        | _ => if takes_value (long_of (text_of [b])) then option_with (long_of (text_of [b])) (Some (text_of more)) rest
               else parse_argv fuel (((λ c, [a; c]) <$> b :: more) ++ rest)
        end
      else match more with
           | [] => match rest with [] => Some [] | _ => None end
           | c :: r =>
             match list_find (λ x, val x = 61) r with
             | None => option_next (text_of more)
             | Some (i, _) => option_with (text_of (c :: take i r)) (Some (text_of (drop (S i) r))) rest
             end
           end
    | _ => None
    end
  end.

(** One step for an argument, and for a group one more for each of its options
    ([parse_argv_fuel]). *)
Definition arg_cost (a : bytes) : nat := if (length a <=? 2)%nat then 1 else length a.
Definition argv_fuel (argv : list bytes) : nat := list_sum (arg_cost <$> argv).
Definition parseArgs (argv : list string) : option values :=
  let argv := utf8 <$> argv in parse_argv (argv_fuel argv) argv.

(** The last use of an option counts; a boolean option is false when it is not used. *)
Definition flag (args : values) (name : string) : bool := existsb (λ a, String.eqb (fst a) name) args.
Definition arg (args : values) (name : string) : option string :=
  List.find (λ a, String.eqb (fst a) name) (reverse args) ≫= snd.

(** ** Options and configuration *)

(** How a process that does not start ends. *)
Inductive exit := Exit (code : Z).

Definition fail {A} : outcome exit A := Throw (Exit 1).

Definition int (v : option string) (def : Z) : outcome exit Z :=
  match v with
  | None => Ok def
  | Some v =>
    if String.eqb v "" then Ok def
    else match safe_integer v with
         | None => fail
         | Some n => if n <? 0 then fail else Ok n
         end
  end.

(** [a ?? b]. *)
Definition coalesce {A} (a b : option A) : option A := match a with Some _ => a | None => b end.
Infix "??" := coalesce (at level 60, right associativity) : js_scope.

(** The [cfg] of the whole process; [cf_server] is what the request path reads. *)
Record Config := mkConfig {
  cf_port : Z;
  cf_lan : bool;
  cf_lanIp : option string;
  cf_rpcUrl : string;
  cf_keypairPath : string;
  cf_server : relayer_cfg;
}.

(** *** node:path *)
Definition is_absolute (p : bytes) : bool := byte_is p 0 47.

(** [normalizeString]: the segments kept, last first. *)
Fixpoint normal_segments (above : bool) (kept : list bytes) (segs : list bytes) : list bytes :=
  match segs with
  | [] => kept
  | s :: segs =>
    if bytesEqual s [] || bytesEqual s (lit ".") then normal_segments above kept segs
    else if bytesEqual s (lit "..") then
      match kept with
      | k :: ks => if bytesEqual k (lit "..") then normal_segments above (s :: kept) segs else normal_segments above ks segs
      | [] => normal_segments above (if above then [s] else []) segs
      end
    else normal_segments above (s :: kept) segs
  end.

Definition slashed (segs : list bytes) : bytes :=
  match segs with [] => [] | s :: segs => s ++ concat ((λ s, u8 47 :: s) <$> segs) end.

(** [path.join(...parts)] for parts of which the last ends in no slash. *)
Definition path_join (parts : list string) : string :=
  let joined := slashed (List.filter (λ p, negb (bytesEqual p [])) (utf8 <$> parts)) in
  let root := if is_absolute joined then [u8 47] else [] in
  match (root ++ slashed (reverse (normal_segments (negb (is_absolute joined)) [] (split_byte 47 joined))))%list with
  | [] => "."
  | p => text_of p
  end.

(** [path.resolve(p)] in the directory [cwd]. *)
Definition path_resolve (cwd p : string) : string :=
  let full := if is_absolute (utf8 p) then utf8 p else (utf8 cwd ++ u8 47 :: utf8 p)%list in
  text_of (u8 47 :: slashed (reverse (normal_segments false [] (split_byte 47 full)))).

(** ** The machine *)
Record iface := mkIface { if_family : string; if_internal : bool; if_address : string }.

(** What the process asks of the machine: its environment and directories, its files
    (whether a path exists, its real path, its mode, the keypair
    [Keypair.fromSecretKey] reads from its text), its interfaces, the order of
    [localeCompare], and which of its addresses can be listened on. *)
Record Machine := mkMachine {
  mc_env : string → option string;
  mc_cwd : string;
  mc_root : string;
  mc_homedir : string;
  mc_exists : string → bool;
  mc_realpath : string → string;
  mc_mode : string → Z;
  mc_keypair : string → option Keypair;
  mc_interfaces : list (string * list iface);
  mc_localeCompare : string → string → Z;
  mc_can_listen : string → Z → bool;
}.

(** What the cluster answers at startup. *)
Record Cluster := mkCluster {
  cl_genesis : option string;
  cl_program_at : bytes → option program_account;
  cl_reads_answered : bool;
  cl_balance : option Z;
}.

Section start.
Context `{W : Web3}.
Variables (machine : Machine) (cluster : string → Cluster).
(** [new PublicKey(LAZORKIT_V2_DEVNET)]. *)
Variable program : bytes.

Definition env_is (name v : string) : bool := bool_decide (mc_env machine name = Some v).

(** [args['cors-origin'].split(',').map((s) => s.trim()).filter(Boolean)]. *)
Definition cors_list (v : option string) : option (list string) :=
  match v with
  | None => None
  | Some v => if String.eqb v "" then None
              else Some (List.filter (λ s, negb (String.eqb s "")) ((λ s, text_of (js_trim s)) <$> split_byte 44 (utf8 v)))
  end.

Definition configure (args : values) : outcome exit Config :=
  let env := mc_env machine in
  (port ← int (arg args "port" ?? env "RELAYER_PORT") 8787;
   let rpcUrl := default "https://api.devnet.solana.com" (arg args "rpc" ?? env "RELAYER_RPC_URL") in
   let keypairPath := path_resolve (mc_cwd machine)
     (default (path_join [mc_root machine; "relayer-keypair.json"]) (arg args "keypair" ?? env "RELAYER_KEYPAIR")) in
   maxLamports ← int (arg args "max-lamports" ?? env "RELAYER_MAX_LAMPORTS") 50000000;
   maxTxPerHour ← int (arg args "max-tx-per-hour") 300;
   let requireLazorkit := negb (flag args "allow-plain" || env_is "RELAYER_ALLOW_PLAIN" "1") in
   confirmTimeout ← int (arg args "confirm-timeout" ?? env "RELAYER_CONFIRM_TIMEOUT") 30;
   let confirmTimeoutMs := 1000 * confirmTimeout in
   let apiKey := arg args "api-key" ?? env "RELAYER_API_KEY" in
   let corsOrigins := cors_list (arg args "cors-origin") in
   maxPriorityFeeLamports ←
     int (arg args "max-priority-fee-lamports" ?? env "RELAYER_MAX_PRIORITY_FEE_LAMPORTS") 0;
   let cfg := mkConfig port (flag args "lan") (arg args "lan-ip") rpcUrl keypairPath
     (mkCfg maxLamports maxTxPerHour requireLazorkit confirmTimeoutMs apiKey corsOrigins (flag args "any-cluster") 4
        (flag args "tx-v1" || env_is "RELAYER_TX_V1" "1") maxPriorityFeeLamports) in
   throw! Exit 1 when (port <? 1) || (65535 <? port);
   throw! Exit 1 when (confirmTimeoutMs <? 1000) || (300000 <? confirmTimeoutMs);
   throw! Exit 1 when flag args "allow-plain" && flag args "require-lazorkit";
   throw! Exit 1 when match corsOrigins with
                      | Some l => existsb (String.eqb "*") l && (1 <? length l)%nat
                      | None => false
                      end;
   Ok cfg)%js.

(** ** The keypair *)

(** [0o777] is 511, [0o077] is 63. *)
Definition loadKeypair (p : string) : outcome exit Keypair :=
  let forbidden := path_join [mc_homedir machine; ".config"; "solana"; "id.json"] in
  let real := if mc_exists machine p then mc_realpath machine p else p in
  (throw! Exit 1 when String.eqb forbidden real || existsb (bytesEqual (lit "keys")) (split_byte 47 (utf8 real));
   throw! Exit 1 when negb (mc_exists machine p);
   throw! Exit 1 when negb (Z.land (Z.land (mc_mode machine p) 511) 63 =? 0);
   match mc_keypair machine p with Some k => Ok k | None => fail end)%js.

(** ** The addresses *)

(** [/^10\./], [/^192\.168\./], [/^172\.(1[6-9]|2\d|3[01])\./]. *)
Definition is_private (ip : string) : bool :=
  let b := utf8 ip in
  bool_decide (is_Some (strip_prefix (lit "10.") b)) || bool_decide (is_Some (strip_prefix (lit "192.168.") b))
  || match strip_prefix (lit "172.") b with
     | Some (x :: y :: d :: _) =>
       (val d =? 46)
       && (((val x =? 49) && (54 <=? val y) && (val y <=? 57))
           || ((val x =? 50) && (48 <=? val y) && (val y <=? 57))
           || ((val x =? 51) && ((val y =? 48) || (val y =? 49))))
     | _ => false
     end.

Definition by_name (a b : string * list iface) : Z :=
  let rank n := if String.prefix "en" n then 0 else 1 in
  let d := rank (fst a) - rank (fst b) in
  if negb (d =? 0) then d else mc_localeCompare machine (fst a) (fst b).

Definition lanAddress (cfg : Config) : option string :=
  coalesce (match cf_lanIp cfg with
            | Some ip => if String.eqb ip "" then None else Some ip
            | None => None
            end)
    (if_address <$> List.find (λ a, String.eqb (if_family a) "IPv4" && negb (if_internal a) && is_private (if_address a))
            (concat (snd <$> js_sort by_name (mc_interfaces machine)))).

(** ** The process *)
Record Running := mkRunning {
  rn_cfg : Config;
  rn_payer : Keypair;
  rn_servers : list string;
  rn_allowedHosts : list string;
  rn_plainWarning : bool;
}.

(** One listener: it can fail, and then adds nothing. *)
Definition listen (port : Z) (host : string) : bool := mc_can_listen machine host port.

Definition startup (argv : list string) : outcome exit Running :=
  match parseArgs argv with
  | None => Throw (Exit 2)
  | Some args =>
    (throw! Exit 0 when flag args "help";
     cfg ← configure args;
     payer ← loadKeypair (cf_keypairPath cfg);
     let cl := cluster (cf_rpcUrl cfg) in
     throw! Exit 1 when negb (preflight (cf_server cfg) payer (cl_genesis cl) (cl_program_at cl) program);
     throw! Exit 1 when negb (cl_reads_answered cl && bool_decide (is_Some (cl_balance cl)));
     throw! Exit 1 when negb (listen (cf_port cfg) "127.0.0.1");
     let v6 := if listen (cf_port cfg) "::1" then ["::1"] else [] in
     lan ← (if cf_lan cfg then
              match lanAddress cfg with
              | None => fail
              | Some ip => if listen (cf_port cfg) ip then Ok [ip] else fail
              end
            else Ok []);
     let exposed := cf_lan cfg || corsAny (cf_server cfg) in
     Ok (mkRunning cfg payer ("127.0.0.1" :: v6 ++ lan)
           ("localhost" :: "127.0.0.1" :: v6 ++ ((λ ip, unbracket (utf8 ip)) <$> lan))
           (negb (requireLazorkit (cf_server cfg)) && exposed)))%js
  end.

(** ** The status page *)
Record status_page := mkStatus {
  st_relayer : string;
  st_balance_lamports : option Z;
  st_rpc : string;
  st_methods : list string;
  st_allowed_programs : list (string * string);
  st_require_lazorkit : bool;
  st_cors : list string + string;
  st_max_allowed_lamports : Z;
  st_max_signatures : Z;
  st_max_tx_per_hour : Z;
  st_confirm_timeout_ms : Z;
  st_api_key_required : bool;
  st_tx_v1 : bool;
  st_max_priority_fee_lamports : Z;
}.

Definition METHODS : list string := ["getPayerSigner"; "getBlockhash"; "signTransaction"; "signAndSendTransaction"].

(** A rejected balance read is reported as [null]. *)
Definition status (r : Running) (getBalance : option Z) : status_page :=
  let cfg := cf_server (rn_cfg r) in
  mkStatus (relayer (rn_payer r)) getBalance (cf_rpcUrl (rn_cfg r)) METHODS ALLOWED_PROGRAMS (requireLazorkit cfg)
    (if corsAny cfg then inr "*" else match corsOrigins cfg with Some l => inl l | None => inr "this-machine" end)
    (maxLamports cfg) (maxSignatures cfg) (maxTxPerHour cfg) (confirmTimeoutMs cfg)
    (match apiKey cfg with Some k => negb (String.eqb k "") | None => false end)
    (txV1 cfg) (maxPriorityFeeLamports cfg).
End start.

(** ** The command line is read to its end *)
Lemma argv_fuel_cons a l : argv_fuel (a :: l) = (arg_cost a + argv_fuel l)%nat.
Proof. reflexivity. Qed.

Lemma argv_fuel_pairs a (l : bytes) r : argv_fuel (((λ c, [a; c]) <$> l) ++ r) = (length l + argv_fuel r)%nat.
Proof. unfold argv_fuel. rewrite fmap_app, list_sum_app. f_equal. induction l as [|x l IH]; [done|]. cbn in *. by f_equal. Qed.

Lemma arg_cost_pos a : (1 <= arg_cost a)%nat.
Proof. unfold arg_cost. destruct (Nat.leb_spec (length a) 2); lia. Qed.

(** More fuel reads no more. *)
Lemma parse_argv_fuel f g argv : (argv_fuel argv <= f)%nat → (argv_fuel argv <= g)%nat → parse_argv f argv = parse_argv g argv.
Proof.
  revert g argv. induction f as [|f IH]; intros g argv Hf Hg.
  { destruct argv as [|a l]; [by destruct g|]. rewrite argv_fuel_cons in Hf. pose proof (arg_cost_pos a). lia. }
  destruct argv as [|a l]; [by destruct g|]. rewrite argv_fuel_cons in Hf, Hg. pose proof (arg_cost_pos a) as Ha.
  destruct g as [|g]; [lia|]. cbn [parse_argv].
  assert (Hl : parse_argv f l = parse_argv g l) by (apply IH; lia).
  assert (Hn : ∀ v l', l = v :: l' → parse_argv f l' = parse_argv g l').
  { intros v l' ->. rewrite argv_fuel_cons in Hf, Hg. apply IH; lia. }
  assert (Hgroup : ∀ x y more, a = x :: y :: more → more ≠ [] →
    parse_argv f (((λ c, [x; c]) <$> y :: more) ++ l) = parse_argv g (((λ c, [x; c]) <$> y :: more) ++ l)).
  { intros x y more -> Hm. unfold arg_cost in Hf, Hg. destruct more as [|z more]; [done|]. cbn [length Nat.leb] in Hf, Hg.
    apply IH; rewrite argv_fuel_pairs; cbn [length]; lia. }
  assert (Hnext : ∀ n,
    (if takes_value n then match l with
      | v :: l' => if option_like v then None
                   else if usage_ok n (Some (text_of v)) then cons (n, Some (text_of v)) <$> parse_argv f l' else None
      | [] => None end
     else if usage_ok n None then cons (n, None) <$> parse_argv f l else None)
    = (if takes_value n then match l with
      | v :: l' => if option_like v then None
                   else if usage_ok n (Some (text_of v)) then cons (n, Some (text_of v)) <$> parse_argv g l' else None
      | [] => None end
     else if usage_ok n None then cons (n, None) <$> parse_argv g l else None)).
  { intros n. rewrite Hl. destruct l as [|v l']; [done|]. by rewrite (Hn v l'). }
  destruct a as [|x [|y more]]; [done..|]. destruct (negb (val x =? 45)); [done|].
  destruct (negb (val y =? 45)).
  - destruct more as [|z more]; [apply Hnext|]. rewrite Hl, (Hgroup x y (z :: more)) by done. done.
  - destruct more as [|z more]; [done|]. destruct (list_find _ _) as [[i ?]|]; [by rewrite Hl|apply Hnext].
Qed.

(** ** What it means to have started *)
Section started.
Context `{W : Web3}.
Variables (machine : Machine) (cluster : string → Cluster) (program : bytes).

Lemma int_nonneg v def n : 0 <= def → int v def = Ok n → 0 <= n.
Proof.
  intros Hd. unfold int. destruct v as [v|]; [|by intros [= <-]]. destruct (String.eqb v ""); [by intros [= <-]|].
  destruct (safe_integer v) as [m|]; [|done]. destruct (Z.ltb_spec m 0); [done|]. intros [= <-]. lia.
Qed.

(** A configuration the request path can rely on. *)
Record ConfigOk (cfg : Config) : Prop := {
  co_port : 1 <= cf_port cfg <= 65535;
  co_caps : 0 <= maxLamports (cf_server cfg) ∧ 0 <= maxTxPerHour (cf_server cfg) ∧ 0 <= maxPriorityFeeLamports (cf_server cfg);
  co_timeout : 1000 <= confirmTimeoutMs (cf_server cfg) <= 300000;
  co_signatures : maxSignatures (cf_server cfg) = 4;
  co_cors : ∀ l, corsOrigins (cf_server cfg) = Some l → "*" ∈ l → l = ["*"];
}.

(** What weakens the policy was asked for. *)
Definition asked_for (args : values) (cfg : Config) : Prop :=
  (requireLazorkit (cf_server cfg) = false → flag args "allow-plain" = true ∨ mc_env machine "RELAYER_ALLOW_PLAIN" = Some "1")
  ∧ (txV1 (cf_server cfg) = true → flag args "tx-v1" = true ∨ mc_env machine "RELAYER_TX_V1" = Some "1")
  ∧ (anyCluster (cf_server cfg) = true → flag args "any-cluster" = true)
  ∧ (cf_lan cfg = true → flag args "lan" = true).

(** One of the origins --cors-origin lists. *)
Definition named_origin (args : values) (o : string) : Prop :=
  ∃ v piece, arg args "cors-origin" = Some v ∧ piece ∈ split_byte 44 (utf8 v) ∧ o = text_of (js_trim piece).

(** A page served from this machine. *)
Definition machineAddresses : list string := if_address <$> concat (snd <$> mc_interfaces machine).
Definition local_page (parse_url : string → option (string * string)) (o : string) : Prop :=
  ∃ protocol host, parse_url o = Some (protocol, host) ∧ protocol ∈ ["http:"; "https:"]
    ∧ unbracket (utf8 host) ∈ machineHostnames machineAddresses.

(** The pages a browser is told may read an answer: those --cors-origin names and, only
    when it names none, those of this machine. *)
Definition pages_asked_for (args : values) (cfg : Config) : Prop :=
  ∀ parse_url req o, fst (corsHeaders (cf_server cfg) parse_url machineAddresses req) = Some o →
    (named_origin args o ∧ (o = "*" ∨ q_origin req = Some o))
    ∨ (default "" (arg args "cors-origin") = "" ∧ q_origin req = Some o ∧ local_page parse_url o).

Lemma cors_list_named args l o : cors_list (arg args "cors-origin") = Some l → o ∈ l → named_origin args o.
Proof.
  unfold cors_list, named_origin. destruct (arg args "cors-origin") as [v|]; [|done]. destruct (String.eqb v ""); [done|].
  intros [= <-] Ho. apply list_elem_of_In, filter_In in Ho as [Ho _]. apply list_elem_of_In, list_elem_of_fmap in Ho as (piece & -> & Hp). by exists v, piece.
Qed.

Lemma pages_configured args cfg : corsOrigins (cf_server cfg) = cors_list (arg args "cors-origin") → pages_asked_for args cfg.
Proof.
  intros Hc parse_url req o. unfold corsHeaders, originAllowed. destruct (corsAny (cf_server cfg)) eqn:Ea.
  { intros [= <-]. left. split; [|by left]. unfold corsAny in Ea. apply bool_decide_eq_true in Ea.
    destruct (corsOrigins (cf_server cfg)) as [[|x l]|] eqn:E; [done| |done]. injection Ea as ->.
    eapply cors_list_named; [by rewrite <- Hc|apply list_elem_of_here]. }
  destruct (q_origin req) as [o'|]; [|done]. destruct (_ || _); [done|].
  destruct (corsOrigins (cf_server cfg)) as [l|] eqn:E.
  - cbn [orb]. destruct (existsb _ l) eqn:El; [|done]. intros [= <-]. left. split; [|by right].
    apply existsb_Exists in El as (x & Hx & ->%String.eqb_eq). eapply cors_list_named; [by rewrite <- Hc|done].
  - destruct (parse_url o') as [[protocol host]|] eqn:Ep; [|done]. destruct (_ && _) eqn:Eh; [|done]. intros [= <-]. right.
    apply andb_prop in Eh as [Hp Hh]. apply existsb_Exists in Hh as (h & Hh & Heq%String.eqb_eq). split_and!; [|done|].
    + unfold cors_list in Hc. destruct (arg args "cors-origin") as [v|]; [|done]. by destruct (String.eqb_spec v "").
    + exists protocol, host. split_and!; [done| |by rewrite Heq].
      apply orb_prop in Hp as [->%String.eqb_eq| ->%String.eqb_eq]; [apply list_elem_of_here|apply list_elem_of_further, list_elem_of_here].
Qed.

Lemma configured args cfg : configure machine args = Ok cfg → ConfigOk cfg ∧ asked_for args cfg ∧ pages_asked_for args cfg.
Proof.
  unfold configure. intros H. apply bind_inv in H as (port & _ & H). apply bind_inv in H as (lam & Hlam & H).
  apply bind_inv in H as (tx & Htx & H). apply bind_inv in H as (timeout & _ & H). apply bind_inv in H as (fee & Hfee & H).
  apply bind_inv in H as ([] & Hport%throw_if_ok & H). apply bind_inv in H as ([] & Ht%throw_if_ok & H).
  apply bind_inv in H as ([] & _ & H). apply bind_inv in H as ([] & Hcors%throw_if_ok & [= <-]).
  apply int_nonneg in Hlam, Htx, Hfee; [|lia..]. apply orb_false_iff in Hport as [Hp1 Hp2], Ht as [Ht1 Ht2].
  apply Z.ltb_ge in Hp1, Hp2, Ht1, Ht2. split.
  - constructor; cbn [cf_port cf_server maxLamports maxTxPerHour maxPriorityFeeLamports confirmTimeoutMs maxSignatures corsOrigins]; [lia..|done|].
    intros l El Hin. rewrite El in Hcors. apply andb_false_iff in Hcors as [Hc|Hc].
    + exfalso. apply not_true_iff_false in Hc. apply Hc, existsb_Exists. exists "*". split; [done|by apply String.eqb_eq].
    + apply Nat.ltb_ge in Hc. destruct l as [|x [|y l]]; [by apply elem_of_nil in Hin|by apply list_elem_of_singleton in Hin as ->|cbn in Hc; lia].
  - split; [|by apply pages_configured]. unfold asked_for, env_is. cbn [cf_lan cf_server requireLazorkit txV1 anyCluster corsOrigins].
    rewrite !negb_false_iff, !orb_true_iff, !bool_decide_eq_true. by split_and!.
Qed.

(** The key is the relayer's own, in a file only its user can read. *)
Definition own_key (path : string) (k : Keypair) : Prop :=
  mc_keypair machine path = Some k ∧ mc_exists machine path = true
  ∧ Z.land (mc_mode machine path) 63 = 0
  ∧ mc_realpath machine path ≠ path_join [mc_homedir machine; ".config"; "solana"; "id.json"]
  ∧ lit "keys" ∉ split_byte 47 (utf8 (mc_realpath machine path)).

Lemma keypair_loaded path k : loadKeypair machine path = Ok k → own_key path k.
Proof.
  unfold loadKeypair. intros H. apply bind_inv in H as ([] & Hr%throw_if_ok & H). apply bind_inv in H as ([] & He%throw_if_ok & H).
  apply bind_inv in H as ([] & Hm%throw_if_ok & H). apply negb_false_iff in He, Hm. rewrite He in Hr.
  apply orb_false_iff in Hr as [Hd%String.eqb_neq Hk]. apply Z.eqb_eq in Hm. rewrite <- Z.land_assoc in Hm.
  destruct (mc_keypair machine path) as [k'|] eqn:E; [|done]. injection H as ->. split_and!; [done|done|done|congruence|].
  intros Hin. apply not_true_iff_false in Hk. apply Hk, existsb_Exists. exists (lit "keys"). split; [done|].
  apply bytesEqual_refl.
Qed.

(** The cluster is never mainnet, and the key is not the program's upgrade authority. *)
Definition safe_cluster (cfg : Config) (k : Keypair) : Prop :=
  ∃ g, cl_genesis (cluster (cf_rpcUrl cfg)) = Some g ∧ g ≠ MAINNET_GENESIS
  ∧ (g = DEVNET_GENESIS ∨ anyCluster (cf_server cfg) = true)
  ∧ ∀ p pd, cl_program_at (cluster (cf_rpcUrl cfg)) program = Some p →
      pa_owner p = "BPFLoaderUpgradeab1e11111111111111111111111" →
      cl_program_at (cluster (cf_rpcUrl cfg)) (slice 4 36 (pa_data p)) = Some pd →
      byte_is (pa_data pd) 12 1 = true → toBase58 (slice 13 45 (pa_data pd)) ≠ toBase58 (publicKey k).

Lemma preflight_passed cfg k :
  (let cl := cluster (cf_rpcUrl cfg) in preflight (cf_server cfg) k (cl_genesis cl) (cl_program_at cl) program = true) →
  safe_cluster cfg k.
Proof.
  cbv zeta. unfold preflight, safe_cluster. destruct (cl_genesis _) as [g|]; [|done].
  destruct (String.eqb_spec g MAINNET_GENESIS) as [|Hg]; [done|]. destruct (_ && _) eqn:Ec; [done|]. intros Hpre. exists g. split_and!; [done|done| |].
  - apply andb_false_iff in Ec as [E%negb_false_iff%String.eqb_eq|E%negb_false_iff]; auto.
  - intros p pd Hp Ho Hpd Hb Heq. rewrite Hp, Ho, String.eqb_refl in Hpre. cbn [negb] in Hpre.
    rewrite Hpd, Hb in Hpre. unfold relayer in Hpre. by rewrite Heq, String.eqb_refl in Hpre.
Qed.

(** A private IPv4 address of one of the machine's interfaces. *)
Definition private_interface (ip : string) : Prop :=
  ∃ name l a, (name, l) ∈ mc_interfaces machine ∧ a ∈ l ∧ if_address a = ip
    ∧ if_family a = "IPv4" ∧ if_internal a = false ∧ is_private ip = true.

Lemma lan_address cfg ip : lanAddress machine cfg = Some ip → cf_lanIp cfg = Some ip ∨ private_interface ip.
Proof.
  unfold lanAddress. intros H.
  assert (Hc : cf_lanIp cfg = Some ip ∨ ∃ l, if_address <$> List.find l (concat (snd <$> js_sort (by_name machine) (mc_interfaces machine)))
    = Some ip ∧ ∀ a, l a = String.eqb (if_family a) "IPv4" && negb (if_internal a) && is_private (if_address a)).
  { destruct (cf_lanIp cfg) as [y|]; [|by right; eexists]. destruct (String.eqb y ""); [by right; eexists|by left]. }
  destruct Hc as [|(l & (a & Ha & ->)%fmap_Some & Hl)]; [by left|]. right. apply find_some in Ha as [Hin Ha]. rewrite Hl in Ha. clear Hl l H.
  apply andb_true_iff in Ha as [[Hf%String.eqb_eq Hi%negb_true_iff]%andb_true_iff Hp].
  apply in_concat in Hin as (l & Hl & Hal). apply list_elem_of_In, list_elem_of_fmap in Hl as ([name l'] & -> & Hl).
  rewrite js_sort_perm in Hl. exists name, l', a. split_and!; [done|by apply list_elem_of_In|done..].
Qed.

(** Where it can be reached: the loopback addresses and, when asked for, the given or a
    private LAN address. *)
Definition reachable_at (cfg : Config) (h : string) : Prop :=
  h = "127.0.0.1" ∨ h = "::1" ∨ cf_lan cfg = true ∧ (cf_lanIp cfg = Some h ∨ private_interface h).

(** C8.  A relayer that has started is contained, whatever the command line, the
    environment, the files and the cluster are.  Its limits are numbers in range, and a
    wildcard origin stands alone; plain transactions, version 1, another cluster and the
    LAN were asked for; a page is allowed to read its answers only if --cors-origin names
    its origin, or the wildcard, or names none and the page is served from this machine;
    its key is its own, in a file no other user can
    read, and cannot upgrade the program; the cluster is not mainnet; it listens on the
    loopback addresses and, with --lan, one private or given address; and a request under
    any other host name is refused. *)
Theorem started_relayer_is_contained (argv : list string) (r : Running) :
  startup machine cluster program argv = Ok r →
  (∃ args, parseArgs argv = Some args ∧ asked_for args (rn_cfg r) ∧ pages_asked_for args (rn_cfg r))
  ∧ ConfigOk (rn_cfg r)
  ∧ own_key (cf_keypairPath (rn_cfg r)) (rn_payer r)
  ∧ safe_cluster (rn_cfg r) (rn_payer r)
  ∧ Forall (reachable_at (rn_cfg r)) (rn_servers r)
  ∧ (∀ req, hostAllowed (rn_allowedHosts r) req = true → ∃ host, q_host req = Some host
       ∧ (unbracket (host_name (utf8 host)) = "localhost"
          ∨ ∃ h, h ∈ rn_servers r ∧ unbracket (host_name (utf8 host)) = unbracket (utf8 h))).
Proof.
  unfold startup. destruct (parseArgs argv) as [args|]; [|done]. intros H.
  apply bind_inv in H as ([] & _ & H). apply bind_inv in H as (cfg & Hcfg & H). apply bind_inv in H as (k & Hk & H).
  apply bind_inv in H as ([] & Hpre%throw_if_ok & H). apply bind_inv in H as ([] & _ & H).
  apply bind_inv in H as ([] & _ & H). apply bind_inv in H as (lan & Hlan & [= <-]).
  apply configured in Hcfg as [Hok Hasked]. apply keypair_loaded in Hk. apply negb_false_iff, preflight_passed in Hpre.
  cbn [rn_cfg rn_payer rn_servers rn_allowedHosts]. set (v6 := if listen machine _ _ then _ else _).
  assert (Hv6 : Forall (λ h, h = "::1") v6) by (subst v6; destruct (listen _ _ _); by repeat constructor).
  split_and!; [by exists args|done|done|done| |].
  - constructor; [by left|]. apply Forall_app. split; [eapply Forall_impl; [exact Hv6|]; intros ? ->; by right; left|].
    destruct (cf_lan cfg) eqn:El; [|injection Hlan as <-; constructor].
    destruct (lanAddress machine cfg) as [ip|] eqn:Ei; [|done]. destruct (listen _ _ _); [|done]. injection Hlan as <-.
    constructor; [|constructor]. right. right. split; [done|by apply lan_address].
  - intros req. unfold hostAllowed. destruct (q_host req) as [host|]; [|done]. destruct (String.eqb host ""); [done|].
    intros (h & Hin & Heq%String.eqb_eq)%existsb_Exists. exists host. split; [done|]. rewrite Heq. clear Heq.
    apply elem_of_cons in Hin as [->|Hin]; [by left|]. right. apply elem_of_cons in Hin as [->|Hin].
    { exists "127.0.0.1". split; [apply list_elem_of_here|reflexivity]. }
    apply elem_of_app in Hin as [Hin|(ip & -> & Hin)%list_elem_of_fmap].
    + exists h. split; [apply list_elem_of_further, elem_of_app; by left|].
      rewrite Forall_forall in Hv6. by rewrite (Hv6 h Hin).
    + exists ip. split; [apply list_elem_of_further, elem_of_app; by right|done].
Qed.

(** C32.  A started relayer answers every request in bounded time, whatever the node does
    and however it was configured: with every web3.js call giving up within [D]
    milliseconds, within [13 D + 785.5 s] and the time the client takes to deliver the body,
    which the relayer does not bound itself. *)
Theorem started_relayer_answers (argv : list string) (r : Running) (env : Env) (D : Z) (req : http_request) (s : srv) :
  startup machine cluster program argv = Ok r → (∀ n, took env n <= D) →
  ∃ s' reply, handle env (cf_server (rn_cfg r)) (rn_payer r) (rn_allowedHosts r) req s = (s', Ok reply)
    ∧ clock s' <= clock s + arrival (q_chunks req) (q_end req).1 + (13 * D + 785500).
Proof.
  unfold startup. destruct (parseArgs argv) as [args|]; [|done]. intros H HD.
  apply bind_inv in H as ([] & _ & H). apply bind_inv in H as (cfg & Hcfg & H). apply bind_inv in H as (k & _ & H).
  apply bind_inv in H as ([] & _ & H). apply bind_inv in H as ([] & _ & H).
  apply bind_inv in H as ([] & _ & H). apply bind_inv in H as (lan & _ & [= <-]). cbn [rn_cfg rn_payer rn_allowedHosts].
  destruct (co_timeout _ (proj1 (configured _ _ Hcfg))) as [Ht1 Ht2].
  match goal with |- ∃ _ _, handle _ _ _ ?hosts _ _ = _ ∧ _ =>
    destruct (request_answered_in_time env (cf_server cfg) k D ltac:(lia) HD hosts req s) as (s' & reply & E & Hc) end.
  exists s', reply. split; [exact E|lia].
Qed.
End started.

(** ** Examples *)
Example numbers :
  safe_integer <$> ["8787"; " 30 "; "1e3"; "0x10"; ""; "1.5"; "9007199254740991"; "9007199254740993"; "-0"; "5e-400"; "12a"; "Infinity"]
  = [Some 8787; Some 30; Some 1000; Some 16; Some 0; None; Some 9007199254740991; None; Some 0; Some 0; None; None].
Proof. vm_compute. reflexivity. Qed.

Example command_lines :
  parseArgs <$> [["--port"; "1"; "--lan"]; ["--port=1"; "--port=2"]; ["--lan=1"]; ["--port"]; ["--port"; "-1"]; ["-hx"]; ["-hh"]; ["x"]; ["--"]]
  = [Some [("port", Some "1"); ("lan", None)]; Some [("port", Some "1"); ("port", Some "2")]; None; None; None; None;
     Some [("help", None); ("help", None)]; None; Some []].
Proof. vm_compute. reflexivity. Qed.

Example paths :
  path_resolve "/home/u/relayer" "../k/./a.json" = "/home/u/k/a.json" ∧ path_join ["/root"; ".config"; "id.json"] = "/root/.config/id.json"
  ∧ path_join ["a"; "../.."; "b"] = "../b".
Proof. vm_compute. done. Qed.

Module StartSample.
Import RelayerSample.

Definition machine : Machine :=
  mkMachine (λ n, if String.eqb n "RELAYER_CONFIRM_TIMEOUT" then Some "300" else None) "/home/u/relayer" "/home/u/relayer" "/home/u"
    (λ p, String.eqb p "/home/u/relayer/relayer-keypair.json") (λ p, p) (λ _, 33152) (λ _, Some payer)
    [("utun0", [mkIface "IPv6" false "fe80::1"]); ("lo0", [mkIface "IPv4" true "127.0.0.1"]);
     ("en0", [mkIface "IPv6" false "fe80::2"; mkIface "IPv4" false "192.168.1.20"])]
    (λ a b, if String.ltb a b then -1 else if String.eqb a b then 0 else 1) (λ _ _, true).
Definition cluster : string → Cluster := λ _, mkCluster (Some DEVNET_GENESIS) (λ _, None) true (Some 1000000000).
Definition argv : list string := ["--lan"; "--max-lamports"; "1e6"].
Definition started : outcome exit Running := startup machine cluster (key_of LAZORKIT_V2_DEVNET) argv.

(** A request under the LAN address, and one under a name that was rebound to it. *)
Definition from (host : string) : http_request := mkRequest "GET" "/health" (Some host) None None None None [] (0, false).
End StartSample.
Import StartSample.

Lemma started_relayer_is_contained_witness :
  ∃ r, started = Ok r ∧ rn_servers r = ["127.0.0.1"; "::1"; "192.168.1.20"]
    ∧ hostAllowed (rn_allowedHosts r) (from "192.168.1.20:8787") = true
    ∧ hostAllowed (rn_allowedHosts r) (from "evil.example:8787") = false
    ∧ ConfigOk (rn_cfg r).
Proof.
  assert (H : ∃ r, started = Ok r ∧ rn_servers r = ["127.0.0.1"; "::1"; "192.168.1.20"]
    ∧ hostAllowed (rn_allowedHosts r) (from "192.168.1.20:8787") = true
    ∧ hostAllowed (rn_allowedHosts r) (from "evil.example:8787") = false)
    by (eexists; split; [vm_compute; reflexivity|]; vm_compute; done).
  destruct H as (r & H & H1 & H2 & H3). exists r. split; [exact H|]. split; [exact H1|]. split; [exact H2|]. split; [exact H3|].
  exact (proj1 (proj2 (@started_relayer_is_contained web3 machine cluster (RelayerSample.key_of LAZORKIT_V2_DEVNET) argv r H))).
Defined.

Lemma started_relayer_answers_witness :
  ∃ r s' reply, started = Ok r
    ∧ handle (RelayerSample.node 0) (cf_server (rn_cfg r)) (rn_payer r) (rn_allowedHosts r) RelayerSample.request RelayerSample.start
      = (s', Ok reply)
    ∧ clock s' <= 786050.
Proof.
  assert (H : ∃ r, started = Ok r) by (eexists; vm_compute; reflexivity). destruct H as [r H]. exists r.
  destruct (@started_relayer_answers web3 machine cluster (RelayerSample.key_of LAZORKIT_V2_DEVNET) argv r (RelayerSample.node 0) 40
    RelayerSample.request RelayerSample.start H (λ n, Z.le_refl 40)) as (s' & reply & E & Hc).
  exists s', reply. split; [exact H|]. split; [exact E|]. change (arrival (q_chunks RelayerSample.request) (q_end RelayerSample.request).1) with 30 in Hc.
  cbn [RelayerSample.start clock] in Hc. lia.
Defined.
