(* ===== verification/RelayerEndToEnd.v ===== *)
(** * The relayer reads what the SDK writes

    The relayer pins its lag retries to the slot the passkey signed, which it
    finds in the tail of the LazorKit instruction.  Here the instruction is the
    one the SDK's [finalizeExecute] returns, compiled into a transaction. *)
From S2P Require Import Prelude Bytes Kit Constants JsMap Pdas Actions Packing Compact Builders.
From S2P Require Import Signing Accounts ChallengeReads Ownership ClientHelpers Client.
From S2P Require Import ClientOps Samples ClientProps ProgramChallenges EndToEnd.
From S2P Require Import RelayerTx RelayerPolicy RelayerProps RelayerSamples.
Local Open Scope Z_scope.

Section slots.
Context `{K : Kit} `{W : Web3}.

(** One instruction of the SDK and its compiled form: its accounts are static
    keys, or come from a lookup table. *)
Definition compiles_to (keys : list bytes) (ix : Instruction) (ci : CompiledInstruction) : Prop :=
  key_at keys (programIdIndex ci) = Some (address_string (programAddress ix))
  ∧ ci_data ci = data ix
  ∧ Forall2 (λ m j, (length keys <= j)%nat ∨ key_at keys j = Some (address_string (m_address m)))
      (accounts ix) (accountKeyIndexes ci).

Definition compiles (out : list Instruction) (tx : VersionedTransaction) : Prop :=
  Forall2 (compiles_to (staticAccountKeys tx)) out (compiledInstructions tx).

Lemma key_at_fmap keys i : (toBase58 <$> keys) !! i = key_at keys i.
Proof. unfold key_at. apply list_lookup_fmap. Qed.

Lemma signedSlots_app keys prev l1 l2 newest :
  signedSlots keys prev (l1 ++ l2) newest
  = signedSlots keys (default prev (last l1)) l2 (signedSlots keys prev l1 newest).
Proof.
  revert prev newest. induction l1 as [|x l1 IH]; intros prev newest; [done|]. cbn [app signedSlots].
  rewrite IH. f_equal. rewrite last_cons. by destruct (last l1).
Qed.

(** Instructions none of which follows the precompile leave nothing. *)
Lemma signedSlots_none keys prev l newest :
  Forall (λ ci, keys !! programIdIndex ci ≠ Some SECP256R1_PROGRAM) (prev :: l) →
  signedSlots keys prev l newest = newest.
Proof.
  revert prev. induction l as [|x l IH]; intros prev HF; [done|]. inversion HF as [|? ? Hp HF']; subst.
  cbn [signedSlots]. rewrite (bool_decide_false (keys !! programIdIndex prev = _)), andb_false_r by done.
  cbn [newer]. by apply IH.
Qed.

(** A precompile followed by its instruction, among instructions of other programs
    than the precompile. *)
Lemma passkeySignedSlot_among tx l pci ci l' s :
  compiledInstructions tx = l ++ [pci; ci] ++ l' →
  (∀ x, x ∈ l ++ l' → key_at (staticAccountKeys tx) (programIdIndex x) ≠ Some SECP256R1_PROGRAM) →
  key_at (staticAccountKeys tx) (programIdIndex pci) = Some SECP256R1_PROGRAM →
  key_at (staticAccountKeys tx) (programIdIndex ci) = Some LAZORKIT_V2_DEVNET →
  0 <= s → signedSlotOf (toBase58 <$> staticAccountKeys tx) ci = Some s →
  passkeySignedSlot tx = Some s.
Proof.
  intros Hc Hl Hp Hk Hs0 Hs. unfold passkeySignedSlot. rewrite Hc.
  set (keys := toBase58 <$> staticAccountKeys tx) in *.
  assert (Hl' : ∀ x, x ∈ l ++ l' → keys !! programIdIndex x ≠ Some SECP256R1_PROGRAM)
    by (intros x Hx; subst keys; rewrite key_at_fmap; by apply Hl).
  assert (Hp' : keys !! programIdIndex pci = Some SECP256R1_PROGRAM) by (subst keys; by rewrite key_at_fmap).
  assert (Hk' : keys !! programIdIndex ci = Some LAZORKIT_V2_DEVNET) by (subst keys; by rewrite key_at_fmap).
  assert (Hlast : signedSlots keys pci (ci :: l') None = Some s).
  { cbn [signedSlots]. rewrite !bool_decide_true by done. cbn [andb]. rewrite Hs. cbn [newer].
    rewrite signedSlots_none; [cbn; f_equal; lia|]. constructor; [by rewrite Hk'|].
    apply Forall_forall. intros y Hy. apply Hl', elem_of_app. by right. }
  destruct l as [|x l]; [exact Hlast|]. cbn [app].
  change (l ++ pci :: ci :: l') with (l ++ [pci] ++ ci :: l').
  rewrite app_assoc, signedSlots_app, last_snoc. cbn [default]. rewrite signedSlots_app, (signedSlots_none keys x l).
  - cbn [signedSlots]. rewrite (bool_decide_false (keys !! programIdIndex pci = _)) by (rewrite Hp'; done). exact Hlast.
  - apply Forall_forall. intros y Hy. apply Hl', elem_of_app. by left.
Qed.
End slots.

Section execute.
Context `{K : Kit} `{W : Web3}.
Variable programId : address.
(** The SDK is pointed at the program the relayer sponsors, and its address
    literals are well formed. *)
Hypothesis Hprogram : address_string programId = LAZORKIT_V2_DEVNET.
Hypothesis Hsecp : address_string SECP256R1_PROGRAM_ADDRESS = SECP256R1_PROGRAM.
Hypothesis Hsysvar : address_string SYSVAR_INSTRUCTIONS_ADDRESS = INSTRUCTIONS_SYSVAR.

(** C30.  The relayer finds the slot the passkey signed: in any transaction that carries
    the instructions the SDK finalizes for an Execute, among others none of which is of
    the precompile, [passkeySignedSlot] is the slot the SDK put into the challenge.  The
    clientDataJSON is an object of at most 8192 bytes without control characters; the
    authenticator data has 37 to 1024 bytes, no tail of which of 37 bytes or more is
    preceded by its own length (data without extensions has 37); the slot is below
    2^53. *)
Theorem relayer_reads_signed_slot (env : Env) (fees : bool) (payer wallet : address)
    (params : Secp256r1Params) (ixs : list Instruction) (feePayer : option address)
    (c c' : client) (prepared : PreparedExecute) (r : WebAuthnResponse) (out : list Instruction)
    (before after : list Instruction) (tx : VersionedTransaction) :
  prepareExecute env programId fees payer wallet params ixs feePayer c = (c', Ok prepared) →
  finalizeExecute prepared r = Ok out →
  compiles (before ++ out ++ after) tx →
  (∀ ix, ix ∈ before ++ after → address_string (programAddress ix) ≠ SECP256R1_PROGRAM) →
  AuthenticatorBytes (r_authenticatorData r) → ClientDataText (r_clientDataJson r) →
  0 <= p_slot (pe_signing prepared) < 2 ^ 53 →
  passkeySignedSlot tx = Some (p_slot (pe_signing prepared)).
Proof.
  intros (vault & b & rs & l & fee & c1 & _ & _ & Hfee & _ & ->)%prepareExecute_ok Hfin Hcomp Hothers Had Hcdj Hslot.
  apply resolution_shape in Hfee. unfold finalizeExecute in Hfin.
  apply bind_inv in Hfin as ([ap pix] & Hf & [= <-]).
  cbn [pe_signing pe_payer pe_walletPda pe_authorityPda pe_vaultPda pe_packed pe_remainingAccounts
       pe_protocolFee pe_registerIx pe_programId] in *.
  set (ix := createExecuteIx _ _ _ _ _ _ _ _ _ _) in *.
  assert (Hpix : programAddress pix = SECP256R1_PROGRAM_ADDRESS).
  { unfold finalizeSecp256r1 in Hf. apply bind_inv in Hf as (? & _ & Hf).
    apply bind_inv in Hf as (? & Hp & [= _ <-]). unfold buildSecp256r1PrecompileIx in Hp.
    do 3 (apply bind_inv in Hp as ([] & _ & Hp)). by injection Hp as <-. }
  unfold compiles in Hcomp. apply Forall2_app_inv_l in Hcomp as (cb & ctail & Hcb & Hcomp & Htx).
  rewrite <- app_assoc in Hcomp. apply Forall2_app_inv_l in Hcomp as (cl & ctail' & Hcl & Htail & ->).
  inversion Htail as [|? pci ? ctail2 Hpci Htail']; subst.
  inversion Htail' as [|? ci ? ca Hci Hca']; subst. clear Htail Htail'.
  destruct Hpci as (Hpk & _ & _), Hci as (Hck & Hcd & Hca). rewrite Hpix, Hsecp in Hpk.
  change (programAddress ix) with programId in Hck. rewrite Hprogram in Hck.
  assert (Hkey : ∀ ixs' cs x, Forall2 (compiles_to (staticAccountKeys tx)) ixs' cs → x ∈ cs →
    ∃ y, y ∈ ixs' ∧ key_at (staticAccountKeys tx) (programIdIndex x) = Some (address_string (programAddress y))).
  { intros ixs' cs x HF Hx. apply list_elem_of_lookup_1 in Hx as (i & Hx).
    destruct (Forall2_lookup_r _ _ _ _ _ HF Hx) as (y & Hy & Hk & _). exists y. split; [by apply list_elem_of_lookup_2 in Hy|done]. }
  eapply (passkeySignedSlot_among tx (cb ++ cl) pci ci ca); [rewrite Htx, <- app_assoc; done | | exact Hpk | exact Hck | lia |].
  - intros x Hx. rewrite !elem_of_app in Hx. destruct Hx as [[Hx|Hx]|Hx].
    + destruct (Hkey _ _ _ Hcb Hx) as (y & Hy & ->). intros [= E]. apply (Hothers y); [apply elem_of_app; by left|done].
    + destruct (Hkey _ _ _ Hcl Hx) as (reg & Hreg & ->). destruct fees.
      * destruct Hfee as (f & _ & Hall). rewrite (Hall _ Hreg). cbn [createRegisterPayerIx programAddress]. by rewrite Hprogram.
      * rewrite Hfee in Hreg. by apply not_elem_of_nil in Hreg.
    + destruct (Hkey _ _ _ Hca' Hx) as (y & Hy & ->). intros [= E]. apply (Hothers y); [apply elem_of_app; by right|done].
  - apply finalize_payload in Hf. set (slot := rs_slot rs) in *.
    rewrite <- (number_of_small slot) by (cbn in Hslot; lia).
    assert (Hacc : accounts ix !! 4%nat = Some (mkMeta SYSVAR_INSTRUCTIONS_ADDRESS READONLY)) by done.
    destruct (Forall2_lookup_l _ _ _ _ _ Hca Hacc) as (j & Hj & Hjk). cbn [m_address] in Hjk.
    rewrite Hsysvar in Hjk.
    eapply (signedSlotOf_payload _ _ ([u8 DISC_EXECUTE] ++ packCompactInstructions (la_compactInstructions l))
      (r_authenticatorData r) (r_clientDataJson r) slot (rs_counter rs) 4 j).
    + rewrite Hcd. cbn [data ix createExecuteIx]. rewrite concatBytes_concat, Hf. cbn [concat app optPart].
      by rewrite app_nil_r.
    + exact Had.
    + exact Hcdj.
    + lia.
    + exact Hj.
    + destruct Hjk as [Hjk|Hjk]; [left; by rewrite length_fmap | right; by rewrite key_at_fmap].
    + cbn in Hslot. lia.
Qed.
End execute.

(** ** A message that carries given instructions *)
Section compile.
Context `{K : Kit} `{W : Web3}.
Hypothesis base58_address : ∀ a, toBase58 (address_encode a) = address_string a.

Definition addresses_of (out : list Instruction) : list address :=
  concat ((λ ix, programAddress ix :: (m_address <$> accounts ix)) <$> out).

Definition index_in (l : list address) (a : address) : nat :=
  match list_find (λ b, b = a) l with Some (i, _) => i | None => length l end.

Definition compile_ix (l : list address) (ix : Instruction) : CompiledInstruction :=
  mkCompiled (index_in l (programAddress ix)) (index_in l <$> (m_address <$> accounts ix)) (data ix).

Definition compile_message (out : list Instruction) : VersionedTransaction :=
  let l := addresses_of out in
  mkTx V0 (mkHeader 1 0 0) (address_encode <$> l) (compile_ix l <$> out) [] (mkTxConfig None None None None) [].

Lemma index_in_ok l a : a ∈ l → key_at (address_encode <$> l) (index_in l a) = Some (address_string a).
Proof.
  intros Ha. unfold index_in, key_at.
  destruct (list_find_elem_of (λ b, b = a) l a Ha eq_refl) as [[i b] Hf]. rewrite Hf.
  apply list_find_Some in Hf as (Hi & -> & _). rewrite list_lookup_fmap, Hi. simpl. by rewrite base58_address.
Qed.

Lemma compile_message_compiles out : compiles out (compile_message out).
Proof.
  unfold compiles, compile_message. cbn [compiledInstructions staticAccountKeys].
  apply Forall2_fmap_r, Forall_Forall2_diag, Forall_forall. intros ix Hix.
  assert (Hin : ∀ a, a ∈ programAddress ix :: (m_address <$> accounts ix) → a ∈ addresses_of out).
  { intros a Ha. unfold addresses_of. apply list_elem_of_In, in_concat. eexists. split.
    - apply list_elem_of_In, list_elem_of_fmap. by exists ix.
    - by apply list_elem_of_In. }
  split; [apply index_in_ok, Hin; by left|]. split; [done|]. cbn [compile_ix accountKeyIndexes].
  rewrite <- list_fmap_compose. apply Forall2_fmap_r, Forall_Forall2_diag, Forall_forall. intros m Hm. right.
  apply index_in_ok, Hin. right. apply list_elem_of_fmap. by exists m.
Qed.
End compile.

(** ** Example *)
Import ConcreteKit Sample.

Definition lazorkit : @address kit := address_lit LAZORKIT_V2_DEVNET.

(** The sample's Execute against the sponsored program, in a message. *)
Lemma relayer_reads_signed_slot_witness :
  ∃ c' prepared out,
    prepareExecute node lazorkit false payer wallet params [inner] None new_client = (c', Ok prepared)
    ∧ finalizeExecute prepared response = Ok out
    ∧ passkeySignedSlot (compile_message ([inner] ++ out ++ [])) = Some 1000.
Proof.
  destruct (returns_inv
    (prepareExecute node lazorkit false payer wallet params [inner] None new_client)
    (λ p, sample_fresh (pe_signing p) && is_ok (finalizeExecute p response)))
    as (c' & p & E & [Hfr Hfin]%andb_prop); [vm_compute; reflexivity|].
  destruct (finalizeExecute p response) as [out|] eqn:F; [|discriminate Hfin].
  exists c', p, out. split; [exact E|]. split; [exact F|].
  assert (Hslot : p_slot (pe_signing p) = 1000) by (by apply andb_prop in Hfr as [_ ?%Z.eqb_eq]).
  rewrite <- Hslot.
  refine (@relayer_reads_signed_slot kit web3 lazorkit _ _ _ node false payer wallet params
    [inner] None new_client c' p response out [inner] [] (compile_message ([inner] ++ out ++ [])) E F _ _ _ _ _).
  - vm_compute. reflexivity.
  - vm_compute. reflexivity.
  - vm_compute. reflexivity.
  - apply compile_message_compiles. intros a. reflexivity.
  - intros ix Hix. apply list_elem_of_singleton in Hix as ->. apply String.eqb_neq. vm_compute. reflexivity.
  - split; [split; apply Nat.leb_le; reflexivity|]. intros m Hm. change (length (r_authenticatorData response)) with 37%nat in Hm. lia.
  - split; [reflexivity | reflexivity | | vm_compute; lia]. repeat constructor; vm_compute; discriminate.
  - rewrite Hslot. lia.
Defined.
