(* ===== verification/SemVer.v ===== *)
(** * Version order of the release script

    Models [SEMVER_RE], [parseVersion], [isPrerelease], [majorOf] and
    [compareVersions] of src/scripts/sdk-release.mjs.  The pattern admits digits,
    letters, dots and hyphens only and its numbers have no leading zero, so
    matching it is splitting: at the first hyphen, then at the dots.  A number of
    more than 308 digits, which JavaScript reads as Infinity, is taken as it is. *)
From S2P Require Import Prelude Bytes Kit Ownership.
From Stdlib Require Import Ascii.
Local Open Scope Z_scope.

(** ** Texts *)
Abbreviation text := (list ascii).

(** [s.split(c)]. *)
Fixpoint split_on (c : ascii) (s : text) : list text :=
  match s with
  | [] => [[]]
  | x :: s =>
    if Ascii.eqb x c then [] :: split_on c s
    else match split_on c s with
         | part :: parts => (x :: part) :: parts
         | [] => [[x]]
         end
  end.

(** What stands before and after the first [c]. *)
Fixpoint cut (c : ascii) (s : text) : option (text * text) :=
  match s with
  | [] => None
  | x :: s => if Ascii.eqb x c then Some ([], s) else (λ p, (x :: p.1, p.2)) <$> cut c s
  end.

Definition code (c : ascii) : Z := Z.of_nat (nat_of_ascii c).
Definition is_digit (c : ascii) : bool := (48 <=? code c) && (code c <=? 57).
Definition is_ident_char (c : ascii) : bool :=
  is_digit c || ((65 <=? code c) && (code c <=? 90)) || ((97 <=? code c) && (code c <=? 122)) || (code c =? 45).

(** [/^\d+$/]. *)
Definition all_digits (s : text) : bool := match s with [] => false | _ => forallb is_digit s end.

(** [0|[1-9]\d*]. *)
Definition is_number (s : text) : bool :=
  all_digits s && match s with x :: _ :: _ => negb (Ascii.eqb x "0") | _ => true end.

(** [0|[1-9]\d*|\d*[A-Za-z-][0-9A-Za-z-]*]. *)
Definition is_identifier (s : text) : bool :=
  match s with [] => false | _ => forallb is_ident_char s end && (negb (all_digits s) || is_number s).

(** The integer a run of digits writes, and [Number] of it. *)
Definition digits_value (s : text) : Z := fold_left (λ n c, n * 10 + (code c - 48)) s 0.
Definition number_of (s : text) : Z := number_of_bigint (digits_value s).

(** ** Versions *)
Record Version := mkVersion { v_nums : Z * Z * Z; v_pre : list text }.

(** The groups of the match: the three numbers, and the identifiers of the
    pre-release part, none when there is no such part. *)
Definition version_parts (s : text) : option (text * text * text * list text) :=
  let '(core, pre) := match cut "-" s with Some (core, pre) => (core, Some pre) | None => (s, None) end in
  match split_on "." core with
  | [a; b; c] =>
    if is_number a && is_number b && is_number c then
      match pre with
      | None => Some (a, b, c, [])
      | Some pre =>
        let ids := split_on "." pre in
        if forallb is_identifier ids then Some (a, b, c, ids) else None
      end
    else None
  | _ => None
  end.

Definition parse_text (s : text) : option Version :=
  '(a, b, c, pre) ← version_parts s; Some (mkVersion (number_of a, number_of b, number_of c) pre).

Definition parseVersion (v : string) : result Version :=
  of_option (EExternal "not a SemVer version") (parse_text (String.list_ascii_of_string v)).

Definition isPrerelease (v : string) : result bool :=
  p ← parseVersion v; Ok (0 <? length (v_pre p))%nat.

Definition majorOf (v : string) : result Z := p ← parseVersion v; Ok (v_nums p).1.1.

Definition text_string (s : text) : string := String.string_of_list_ascii s.

(** Two identifiers that are not the same. *)
Definition compare_ident (x y : text) : Z :=
  let xNum := all_digits x in
  let yNum := all_digits y in
  if xNum && yNum then (if number_of x <? number_of y then -1 else 1)
  else if negb (Bool.eqb xNum yNum) then (if xNum then -1 else 1)
  else if compare_strings (text_string x) (text_string y) <? 0 then -1 else 1.

(** The loop over the identifiers. *)
Fixpoint compare_pre (x y : list text) : Z :=
  match x, y with
  | [], [] => 0
  | [], _ :: _ => -1
  | _ :: _, [] => 1
  | a :: x, b :: y => if bool_decide (a = b) then compare_pre x y else compare_ident a b
  end.

Definition compare_num (a b : Z) : Z := if a =? b then 0 else if a <? b then -1 else 1.

Definition compare_parsed (pa pb : Version) : Z :=
  let '(a1, a2, a3) := v_nums pa in
  let '(b1, b2, b3) := v_nums pb in
  if negb (a1 =? b1) then (if a1 <? b1 then -1 else 1)
  else if negb (a2 =? b2) then (if a2 <? b2 then -1 else 1)
  else if negb (a3 =? b3) then (if a3 <? b3 then -1 else 1)
  else if (length (v_pre pa) =? 0)%nat || (length (v_pre pb) =? 0)%nat then
    if (length (v_pre pa) =? length (v_pre pb))%nat then 0
    else if (length (v_pre pa) =? 0)%nat then 1 else -1
  else compare_pre (v_pre pa) (v_pre pb).

Definition compareVersions (a b : string) : result Z :=
  pa ← parseVersion a;
  pb ← parseVersion b;
  Ok (compare_parsed pa pb).

(** ** Orders *)

(** A comparison that orders the values satisfying [P]. *)
Record OrderOn {A} (P : A → Prop) (cmp : A → A → Z) : Prop := {
  oo_flip : ∀ x y, P x → P y → cmp x y = - cmp y x;
  oo_eq : ∀ x y, P x → P y → cmp x y = 0 → x = y;
  oo_trans : ∀ x y z, P x → P y → P z → cmp x y <= 0 → cmp y z <= 0 → cmp x z <= 0;
}.

Lemma oo_refl {A} (P : A → Prop) cmp x : OrderOn P cmp → P x → cmp x x = 0.
Proof. intros H Hx. pose proof (oo_flip _ _ H x x Hx Hx). lia. Qed.

Lemma oo_lt_trans {A} (P : A → Prop) cmp x y z : OrderOn P cmp → P x → P y → P z →
  cmp x y < 0 → cmp y z <= 0 → cmp x z < 0.
Proof.
  intros H Hx Hy Hz Hxy Hyz. pose proof (oo_trans _ _ H x y z Hx Hy Hz ltac:(lia) Hyz) as Hle.
  destruct (decide (cmp x z = 0)) as [E|]; [|lia]. apply (oo_eq _ _ H) in E as ->; [|done..].
  pose proof (oo_flip _ _ H y z Hy Hz). lia.
Qed.

(** The first difference decides. *)
Definition lex (c d : Z) : Z := if c =? 0 then d else c.

Section lex.
Context {A} {P : A → Prop} {f : A → A → Z} (Hf : OrderOn P f).

Lemma lex_flip x y c d : P x → P y → c = - d → lex (f x y) c = - lex (f y x) d.
Proof.
  intros Hx Hy ->. unfold lex. rewrite (oo_flip _ _ Hf x y Hx Hy).
  destruct (Z.eqb_spec (f y x) 0), (Z.eqb_spec (- f y x) 0); lia.
Qed.

Lemma lex_zero x y c : P x → P y → lex (f x y) c = 0 → x = y ∧ c = 0.
Proof.
  intros Hx Hy. unfold lex. destruct (Z.eqb_spec (f x y) 0) as [E|]; [|lia].
  intros ->. split; [by apply (oo_eq _ _ Hf)|done].
Qed.

Lemma lex_trans x y z c d e : P x → P y → P z → (c <= 0 → d <= 0 → e <= 0) →
  lex (f x y) c <= 0 → lex (f y z) d <= 0 → lex (f x z) e <= 0.
Proof.
  intros Hx Hy Hz Ht. unfold lex. destruct (Z.eqb_spec (f x y) 0) as [E|Hn].
  { apply (oo_eq _ _ Hf) in E as ->; [|done..]. destruct (Z.eqb_spec (f y z) 0); [|done]. done. }
  intros Hxy. destruct (Z.eqb_spec (f y z) 0) as [E|Hm].
  { apply (oo_eq _ _ Hf) in E as ->; [|done..]. intros _. destruct (Z.eqb_spec (f x z) 0); lia. }
  intros Hyz. pose proof (oo_lt_trans P f x y z Hf Hx Hy Hz ltac:(lia) Hyz).
  destruct (Z.eqb_spec (f x z) 0); lia.
Qed.
End lex.

Lemma lex_order {A B} (P : A → Prop) (Q : B → Prop) f g : OrderOn P f → OrderOn Q g →
  OrderOn (λ p, P p.1 ∧ Q p.2) (λ p q, lex (f p.1 q.1) (g p.2 q.2)).
Proof.
  intros Hf Hg. split.
  - intros x y [Hx Ha] [Hy Hb]. apply (lex_flip Hf); [done..|]. by apply (oo_flip _ _ Hg).
  - intros [x a] [y b] [Hx Ha] [Hy Hb] [E1 E2]%(lex_zero Hf); [|done..]. cbn in *. subst. f_equal.
    by apply (oo_eq _ _ Hg).
  - intros x y z [Hx Ha] [Hy Hb] [Hz Hc]. apply (lex_trans Hf); [done..|]. by apply (oo_trans _ _ Hg).
Qed.

Lemma num_order : OrderOn (λ _, True) compare_num.
Proof.
  unfold compare_num. split.
  - intros x y _ _. destruct (Z.eqb_spec x y), (Z.eqb_spec y x), (Z.ltb_spec x y), (Z.ltb_spec y x); lia.
  - intros x y _ _. destruct (Z.eqb_spec x y), (Z.ltb_spec x y); lia.
  - intros x y z _ _ _. destruct (Z.eqb_spec x y), (Z.ltb_spec x y), (Z.eqb_spec y z), (Z.ltb_spec y z),
      (Z.eqb_spec x z), (Z.ltb_spec x z); lia.
Qed.

(** ** Numbers without leading zeros *)
Lemma digit_bounds c : is_digit c = true → 0 <= code c - 48 <= 9.
Proof. unfold is_digit. lia. Qed.

Lemma code_inj a b : code a = code b → a = b.
Proof.
  unfold code. intros H. rewrite <- (ascii_nat_embedding a), <- (ascii_nat_embedding b). f_equal. lia.
Qed.

Lemma digits_snoc s c : digits_value (s ++ [c]) = digits_value s * 10 + (code c - 48).
Proof. unfold digits_value. by rewrite fold_left_app. Qed.

Lemma digits_bound s : forallb is_digit s = true → 0 <= digits_value s < 10 ^ Z.of_nat (length s).
Proof.
  induction s as [|c s IH] using rev_ind; [done|]. rewrite forallb_app, andb_true_iff. intros [Hs Hc].
  rewrite digits_snoc, length_app. cbn in Hc. rewrite andb_true_r in Hc. apply digit_bounds in Hc.
  specialize (IH Hs). cbn [length]. rewrite Nat.add_1_r, Nat2Z.inj_succ, Z.pow_succ_r by lia. lia.
Qed.

Lemma digits_same_length s t : forallb is_digit s = true → forallb is_digit t = true →
  length s = length t → digits_value s = digits_value t → s = t.
Proof.
  revert t. induction s as [|c s IH] using rev_ind; intros t Hs Ht Hl Hv.
  { by destruct t. }
  destruct t as [|d t _] using rev_ind; [rewrite length_app in Hl; cbn in Hl; lia|].
  rewrite !length_app in Hl. rewrite !digits_snoc in Hv. rewrite forallb_app, andb_true_iff in Hs, Ht.
  destruct Hs as [Hs Hc], Ht as [Ht Hd]. cbn in Hc, Hd. rewrite andb_true_r in Hc, Hd.
  apply digit_bounds in Hc, Hd. cbn in Hl. assert (digits_value s = digits_value t) by lia.
  f_equal; [apply IH; [done|done|lia|done]|]. f_equal. apply code_inj. lia.
Qed.

(** A number of two digits or more is at least [10 ^ (n - 1)]. *)
Lemma number_large s : is_number s = true → (1 < length s)%nat → 10 ^ Z.of_nat (length s - 1) <= digits_value s.
Proof.
  unfold is_number, all_digits. destruct s as [|c s]; [cbn; lia|]. intros H Hl.
  apply andb_true_iff in H as [Hd Hz]. cbn in Hl. destruct s as [|d s]; [cbn in Hl; lia|].
  apply negb_true_iff, Ascii.eqb_neq in Hz.
  assert (Hc : 1 <= code c - 48).
  { cbn [forallb] in Hd. apply andb_true_iff in Hd as [Hc _]. apply digit_bounds in Hc.
    assert (code c ≠ 48) by (intros E; apply Hz, code_inj; exact E). lia. }
  cbn [forallb] in Hd. apply andb_true_iff in Hd as [_ Hd]. change (is_digit d && forallb is_digit s) with (forallb is_digit (d :: s)) in Hd.
  revert Hd. generalize (d :: s) as l. clear -Hc. intros l.
  induction l as [|x l IH] using rev_ind; intros Hd; [cbn; lia|].
  rewrite forallb_app, andb_true_iff in Hd. destruct Hd as [Hl Hx]. specialize (IH Hl).
  cbn in Hx. rewrite andb_true_r in Hx. apply digit_bounds in Hx.
  change (c :: l ++ [x]) with ((c :: l) ++ [x]). rewrite digits_snoc, length_app. cbn [length] in IH |- *.
  replace (Z.of_nat (S (length l) + 1 - 1)) with (Z.succ (Z.of_nat (S (length l) - 1))) by lia.
  rewrite Z.pow_succ_r by lia. lia.
Qed.

Lemma number_inj s t : is_number s = true → is_number t = true → digits_value s = digits_value t → s = t.
Proof.
  intros Hs Ht E.
  assert (D : ∀ u, is_number u = true → forallb is_digit u = true ∧ (0 < length u)%nat).
  { intros u Hu. unfold is_number, all_digits in Hu. destruct u; [done|]. apply andb_true_iff in Hu as [Hu _].
    split; [done|cbn; lia]. }
  destruct (D s Hs) as [Ds Ls], (D t Ht) as [Dt Lt]. apply digits_same_length; [done|done| |done].
  assert (W : ∀ u v, is_number u = true → is_number v = true → forallb is_digit u = true → forallb is_digit v = true →
    (0 < length u)%nat → digits_value u = digits_value v → ¬ (length u < length v)%nat).
  { intros u v Hu Hv Du Dv Lu Ev Hlt. pose proof (number_large v Hv ltac:(lia)). pose proof (digits_bound u Du).
    pose proof (Z.pow_le_mono_r 10 (Z.of_nat (length u)) (Z.of_nat (length v - 1)) ltac:(lia) ltac:(lia)). lia. }
  pose proof (W s t Hs Ht Ds Dt Ls E). pose proof (W t s Ht Hs Dt Ds Lt (eq_sym E)). lia.
Qed.

(** ** The order of identifiers *)

(** An identifier of the pattern whose number, if it is one, is a safe integer. *)
Definition safe_number (s : text) : Prop := is_number s = true ∧ digits_value s < 2 ^ 53.
Definition safe_ident (s : text) : Prop :=
  is_identifier s = true ∧ (all_digits s = true → digits_value s < 2 ^ 53).

Lemma safe_number_of s : safe_number s → number_of s = digits_value s.
Proof.
  intros [Hn Hs]. unfold is_number, all_digits in Hn. apply andb_true_iff in Hn as [Hd _].
  apply number_of_small. destruct s; [done|]. pose proof (digits_bound _ Hd). lia.
Qed.

Lemma ident_number s : safe_ident s → all_digits s = true → safe_number s.
Proof.
  intros [Hi Hs] Hd. split; [|by apply Hs]. unfold is_identifier in Hi. apply andb_true_iff in Hi as [_ Hi].
  by rewrite Hd in Hi.
Qed.

Definition ident_cmp (x y : text) : Z := if bool_decide (x = y) then 0 else compare_ident x y.

(** By kind, then within the kind. *)
Lemma ident_cmp_cases x y : safe_ident x → safe_ident y →
  ident_cmp x y =
    if all_digits x then (if all_digits y then compare_num (digits_value x) (digits_value y) else -1)
    else if all_digits y then 1 else Z.sgn (compare_strings (text_string x) (text_string y)).
Proof.
  intros Hx Hy. unfold ident_cmp, compare_ident, compare_num. case_bool_decide as E.
  { subst y. destruct (all_digits x); [by rewrite Z.eqb_refl|].
    pose proof (compare_strings_flip (text_string x) (text_string x)). destruct (compare_strings _ _) eqn:Ec; lia. }
  destruct (all_digits x) eqn:Dx, (all_digits y) eqn:Dy; cbn [andb Bool.eqb negb]; [|done|done|].
  - pose proof (ident_number x Hx Dx) as Nx. pose proof (ident_number y Hy Dy) as Ny.
    rewrite !safe_number_of by done. destruct (Z.eqb_spec (digits_value x) (digits_value y)) as [Ev|]; [|done].
    destruct E. by apply number_inj; [apply Nx|apply Ny|].
  - destruct (Z.ltb_spec (compare_strings (text_string x) (text_string y)) 0); [lia|].
    destruct (decide (compare_strings (text_string x) (text_string y) = 0)) as [Ez|]; [|lia].
    apply compare_strings_eq in Ez. destruct E. unfold text_string in Ez.
    apply (f_equal String.list_ascii_of_string) in Ez. by rewrite !String.list_ascii_of_string_of_list_ascii in Ez.
Qed.

Lemma strings_order : OrderOn (λ _, True) (λ x y, Z.sgn (compare_strings x y)).
Proof.
  split.
  - intros x y _ _. rewrite (compare_strings_flip x y). lia.
  - intros x y _ _ E. apply compare_strings_eq. lia.
  - intros x y z _ _ _ H1 H2. pose proof (compare_strings_trans x y z ltac:(lia) ltac:(lia)). lia.
Qed.

Lemma ident_order : OrderOn safe_ident ident_cmp.
Proof.
  split.
  - intros x y Hx Hy. rewrite !ident_cmp_cases by done.
    destruct (all_digits x), (all_digits y); try done; [apply (oo_flip _ _ num_order); done|].
    by apply (oo_flip _ _ strings_order).
  - intros x y Hx Hy. unfold ident_cmp. case_bool_decide as E; [done|]. unfold compare_ident.
    repeat case_match; lia.
  - intros x y z Hx Hy Hz. rewrite !ident_cmp_cases by done.
    destruct (all_digits x), (all_digits y), (all_digits z); try lia.
    + by apply (oo_trans _ _ num_order).
    + intros H1 H2. by apply (oo_trans _ _ strings_order _ (text_string y)).
Qed.

Lemma compare_pre_cons a x b y : safe_ident a → safe_ident b →
  compare_pre (a :: x) (b :: y) = lex (ident_cmp a b) (compare_pre x y).
Proof.
  intros Ha Hb. cbn [compare_pre]. unfold lex. destruct (Z.eqb_spec (ident_cmp a b) 0) as [E|E].
  - apply (oo_eq _ _ ident_order) in E as ->; [|done..]. by rewrite bool_decide_eq_true_2.
  - unfold ident_cmp in *. by case_bool_decide.
Qed.

Lemma pre_order : OrderOn (Forall safe_ident) compare_pre.
Proof.
  split.
  - intros x. induction x as [|a x IH]; intros [|b y] Hx Hy; try done.
    apply Forall_cons in Hx as [Ha Hx], Hy as [Hb Hy]. rewrite !compare_pre_cons by done.
    apply (lex_flip ident_order); auto.
  - intros x. induction x as [|a x IH]; intros [|b y] Hx Hy; try done.
    apply Forall_cons in Hx as [Ha Hx], Hy as [Hb Hy]. rewrite compare_pre_cons by done.
    intros [-> E]%(lex_zero ident_order); [|done..]. by rewrite (IH y).
  - intros x. induction x as [|a x IH]; intros [|b y] [|c z] Hx Hy Hz; try (cbn [compare_pre]; lia).
    apply Forall_cons in Hx as [Ha Hx], Hy as [Hb Hy], Hz as [Hc Hz]. rewrite !compare_pre_cons by done.
    apply (lex_trans ident_order); [done..|]. by apply IH.
Qed.

(** ** The order of versions *)

(** A version without a pre-release part comes after those with one. *)
Definition tail_cmp (x y : list text) : Z :=
  if (length x =? 0)%nat || (length y =? 0)%nat then
    if (length x =? length y)%nat then 0 else if (length x =? 0)%nat then 1 else -1
  else compare_pre x y.

Lemma tail_order : OrderOn (Forall safe_ident) tail_cmp.
Proof.
  unfold tail_cmp. split.
  - intros [|a x] [|b y] Hx Hy; try done. by apply (oo_flip _ _ pre_order).
  - intros [|a x] [|b y] Hx Hy; try done. by apply (oo_eq _ _ pre_order).
  - intros [|a x] [|b y] [|c z] Hx Hy Hz; try (cbn; lia). by apply (oo_trans _ _ pre_order).
Qed.

Definition version_key (v : Version) : Z * (Z * (Z * list text)) :=
  (v.(v_nums).1.1, (v.(v_nums).1.2, (v.(v_nums).2, v_pre v))).

Definition safe_version (v : Version) : Prop := Forall safe_ident (v_pre v).

Lemma parsed_lex x y : compare_parsed x y =
  (λ p q, lex (compare_num p.1 q.1) (lex (compare_num p.2.1 q.2.1)
     (lex (compare_num p.2.2.1 q.2.2.1) (tail_cmp p.2.2.2 q.2.2.2)))) (version_key x) (version_key y).
Proof.
  destruct x as [[[a1 a2] a3] a], y as [[[b1 b2] b3] b]. unfold compare_parsed, version_key, lex, compare_num.
  cbn [v_nums v_pre fst snd].
  destruct (Z.eqb_spec a1 b1), (Z.eqb_spec a2 b2), (Z.eqb_spec a3 b3); cbn [negb]; try done;
    repeat case_match; try lia; done.
Qed.

Lemma parsed_order : OrderOn safe_version compare_parsed.
Proof.
  pose proof (lex_order _ _ _ _ num_order (lex_order _ _ _ _ num_order (lex_order _ _ _ _ num_order tail_order))) as H.
  split.
  - intros x y Hx Hy. rewrite !parsed_lex. by apply (oo_flip _ _ H (version_key x) (version_key y)).
  - intros [[[a1 a2] a3] a] [[[b1 b2] b3] b] Hx Hy. rewrite parsed_lex. intros E.
    apply (oo_eq _ _ H (version_key _) (version_key _)) in E; [|done..]. unfold version_key in E. cbn in E. congruence.
  - intros x y z Hx Hy Hz. rewrite !parsed_lex. by apply (oo_trans _ _ H (version_key x) (version_key y) (version_key z)).
Qed.

(** ** Version texts *)

(** Its numbers are safe integers. *)
Definition safe_part (x : text) : bool := negb (all_digits x) || (digits_value x <? 2 ^ 53).
Definition safe_text (v : string) : bool :=
  match version_parts (String.list_ascii_of_string v) with
  | Some (a, b, c, pre) => forallb safe_part (a :: b :: c :: pre)
  | None => false
  end.

Fixpoint join (c : ascii) (parts : list text) : text :=
  match parts with
  | [] => []
  | [p] => p
  | p :: parts => p ++ c :: join c parts
  end.

Lemma split_nonempty c s : split_on c s ≠ [].
Proof. induction s as [|x s IH]; [done|]. cbn. destruct (Ascii.eqb x c); [done|]. by destruct (split_on c s). Qed.

Lemma join_split c s : join c (split_on c s) = s.
Proof.
  induction s as [|x s IH]; [done|]. cbn [split_on]. pose proof (split_nonempty c s) as Hn.
  destruct (Ascii.eqb_spec x c) as [->|].
  - destruct (split_on c s) as [|p ps]; [done|]. cbn [join app] in *. by rewrite IH.
  - destruct (split_on c s) as [|p [|q qs]]; [done| |]; cbn [join app] in *; by rewrite IH.
Qed.

Lemma cut_spec c s x y : cut c s = Some (x, y) → s = x ++ c :: y.
Proof.
  revert x. induction s as [|a s IH]; intros x; [done|]. cbn. destruct (Ascii.eqb_spec a c) as [->|].
  - by intros [= <- <-].
  - destruct (cut c s) as [[x' y']|]; [|done]. intros [= <- <-]. cbn. by rewrite (IH x').
Qed.

(** The text the groups come from. *)
Definition print_parts (p : text * text * text * list text) : text :=
  let '(a, b, c, pre) := p in
  a ++ "."%char :: b ++ "."%char :: c ++ match pre with [] => [] | _ => "-"%char :: join "." pre end.

Lemma parts_print s p : version_parts s = Some p → print_parts p = s.
Proof.
  unfold version_parts. destruct (cut "-" s) as [[core pre]|] eqn:Hc.
  - apply cut_spec in Hc as ->. pose proof (join_split "." core) as Hj.
    destruct (split_on "." core) as [|a [|b [|c [|]]]]; try done. destruct (_ && _); [|done].
    destruct (forallb _ _); [|done]. intros [= <-]. cbn [print_parts]. pose proof (split_nonempty "." pre).
    pose proof (join_split "." pre) as Hp. destruct (split_on "." pre) as [|x xs]; [done|]. rewrite Hp, <- Hj.
    cbn [join]. by rewrite <- !app_assoc, <- !app_comm_cons, <- !app_assoc.
  - pose proof (join_split "." s) as Hj. destruct (split_on "." s) as [|a [|b [|c [|]]]]; try done.
    destruct (_ && _); [|done]. intros [= <-]. cbn [print_parts]. rewrite <- Hj. cbn [join]. by rewrite app_nil_r.
Qed.

Lemma parts_ok s a b c pre : version_parts s = Some (a, b, c, pre) →
  is_number a = true ∧ is_number b = true ∧ is_number c = true ∧ forallb is_identifier pre = true.
Proof.
  unfold version_parts. destruct (match cut "-" s with Some _ => _ | None => _ end) as [core pre'].
  destruct (split_on "." core) as [|x [|y [|z [|]]]]; try done.
  destruct (is_number x && is_number y && is_number z) eqn:E; [|done].
  rewrite !andb_true_iff in E. destruct pre' as [p|]; [|intros [= <- <- <- <-]; tauto].
  destruct (forallb is_identifier (split_on "." p)) eqn:Ei; [|done]. intros [= <- <- <- <-]. tauto.
Qed.

Lemma safe_parsed v : safe_text v = true → ∃ p, parseVersion v = Ok p ∧ safe_version p.
Proof.
  unfold safe_text, parseVersion, parse_text. destruct (version_parts _) as [[[[a b] c] pre]|] eqn:E; [|done].
  intros Hs. eexists. split; [reflexivity|]. apply Forall_forall. intros x Hx.
  destruct (parts_ok _ _ _ _ _ E) as (_ & _ & _ & Hi). rewrite forallb_forall in Hi, Hs.
  apply list_elem_of_In in Hx. split; [by apply Hi|]. intros Hd.
  pose proof (Hs x ltac:(cbn; tauto)) as Hp. unfold safe_part in Hp. rewrite Hd in Hp. cbn in Hp. lia.
Qed.

Lemma parse_inj v w p : safe_text v = true → safe_text w = true →
  parseVersion v = Ok p → parseVersion w = Ok p → v = w.
Proof.
  unfold safe_text, parseVersion, parse_text. intros Hv Hw.
  destruct (version_parts (String.list_ascii_of_string v)) as [[[[a b] c] pre]|] eqn:E; [|done].
  destruct (version_parts (String.list_ascii_of_string w)) as [[[[a' b'] c'] pre']|] eqn:E'; [|done].
  cbn [mbind option_bind of_option]. intros [= <-] [= Ha Hb Hc ->].
  destruct (parts_ok _ _ _ _ _ E) as (Na & Nb & Nc & _), (parts_ok _ _ _ _ _ E') as (Na' & Nb' & Nc' & _).
  assert (N : ∀ x, is_number x = true → safe_part x = true → safe_number x).
  { intros x Hx Hs. split; [done|]. unfold safe_part in Hs. unfold is_number in Hx.
    apply andb_true_iff in Hx as [Hx _]. rewrite Hx in Hs. cbn in Hs. lia. }
  cbn [forallb] in Hv, Hw. rewrite !andb_true_iff in Hv, Hw.
  destruct Hv as (Sa & Sb & Sc & _), Hw as (Sa' & Sb' & Sc' & _).
  rewrite !safe_number_of in Ha, Hb, Hc by auto.
  apply number_inj in Ha, Hb, Hc; [|done..]. subst. apply parts_print in E, E'. rewrite E in E'.
  apply (f_equal String.string_of_list_ascii) in E'. by rewrite !String.string_of_list_ascii_of_string in E'.
Qed.

(** The order on version texts. *)
Definition version_le (a b : string) : Prop := ∃ z, compareVersions a b = Ok z ∧ z <= 0.

Lemma compare_safe a b : safe_text a = true → safe_text b = true →
  ∃ z, compareVersions a b = Ok z ∧ compareVersions b a = Ok (- z) ∧ (z = 0 ↔ a = b).
Proof.
  intros Ha Hb. destruct (safe_parsed a Ha) as (p & Ep & Hp), (safe_parsed b Hb) as (q & Eq & Hq).
  unfold compareVersions. rewrite Ep, Eq, !bind_ok. exists (compare_parsed p q). split; [done|].
  rewrite (oo_flip _ _ parsed_order q p) by done. split; [done|]. split.
  - intros E. apply (oo_eq _ _ parsed_order) in E as <-; [|done..]. by apply (parse_inj a b p).
  - intros ->. rewrite Ep in Eq. injection Eq as <-. by apply (oo_refl safe_version _ _ parsed_order).
Qed.

Lemma version_le_trans a b c : safe_text a = true → safe_text b = true → safe_text c = true →
  version_le a b → version_le b c → version_le a c.
Proof.
  intros Ha Hb Hc. destruct (safe_parsed a Ha) as (p & Ep & Hp), (safe_parsed b Hb) as (q & Eq & Hq),
    (safe_parsed c Hc) as (r & Er & Hr). unfold version_le, compareVersions. rewrite Ep, Eq, Er, !bind_ok.
  intros (x & [= <-] & Hx) (y & [= <-] & Hy). eexists. split; [reflexivity|].
  by apply (oo_trans _ _ parsed_order p q r).
Qed.

Lemma version_le_refl a : safe_text a = true → version_le a a.
Proof.
  intros Ha. destruct (compare_safe a a Ha Ha) as (z & Hz & _ & H). exists z. split; [done|].
  assert (z = 0) by (by apply H). lia.
Qed.

(** [compareVersions] orders the versions: of two SemVer versions whose numbers
    are safe integers it says that the same one is lower in either order of the
    arguments, that they are equal only when they are the same text, and it is
    transitive.  It throws on a text that is not a SemVer version. *)
Theorem versions_totally_ordered (a b c : string) :
  (safe_text a = true → safe_text b = true → safe_text c = true →
     (∃ z, compareVersions a b = Ok z ∧ compareVersions b a = Ok (- z) ∧ (z = 0 ↔ a = b))
     ∧ (version_le a b → version_le b c → version_le a c))
  ∧ (version_parts (String.list_ascii_of_string a) = None → is_ok (compareVersions a b) = false).
Proof.
  split.
  - intros Ha Hb Hc. split; [by apply compare_safe|by apply version_le_trans].
  - intros E. unfold compareVersions, parseVersion, parse_text. by rewrite E.
Qed.

(** The precedence example of the SemVer 2.0.0 specification. *)
Definition semver_chain : list string :=
  ["1.0.0-alpha"; "1.0.0-alpha.1"; "1.0.0-alpha.beta"; "1.0.0-beta"; "1.0.0-beta.2"; "1.0.0-beta.11"; "1.0.0-rc.1";
   "1.0.0"; "1.0.1-0"; "1.9.0"; "1.10.0"; "2.0.0"]%string.

Lemma versions_totally_ordered_witness :
  (λ p, compareVersions p.1 p.2) <$> zip semver_chain (drop 1 semver_chain) = replicate 11 (Ok (-1))
  ∧ version_le "1.0.0-alpha" "1.0.0".
Proof.
  split; [vm_compute; reflexivity|].
  refine (proj2 (proj1 (versions_totally_ordered "1.0.0-alpha" "1.0.0-beta.11" "1.0.0") _ _ _) _ _);
    try reflexivity; exists (-1); split; [vm_compute; reflexivity|lia|vm_compute; reflexivity|lia].
Defined.
