(* ===== verification/Release.v ===== *)
(** * Releasing the SDKs

    Models src/scripts/sdk-release.mjs, the script a release tag runs: the
    decisions about npm's dist-tags, [plan], [verifyTag] and [publish].  The
    registry is a state [W] that only [npm publish] and [npm dist-tag add] change;
    what the commands answer, the files and git are parameters.  The texts of log
    lines are left out and a message of an error is its first words. *)
From S2P Require Import Prelude Bytes Kit JsMap Ownership SemVer.
Local Open Scope string_scope.
Local Open Scope Z_scope.

(** ** Packages *)
Record Package := mkPackage { pk_name : string; pk_dir : string; pk_test : bool; pk_distTags : list string }.

Definition PACKAGES : list (string * Package) :=
  [("sdk-legacy", mkPackage "@lazorkit/sdk-legacy" "sdk/sdk-legacy" false ["next"]);
   ("sdk-kit", mkPackage "@lazorkit/sdk" "sdk/sdk-kit" true ["next"; "latest"])].

Definition NEVER_MOVE : list (string * list string) := [("@lazorkit/sdk-legacy", ["latest"])].

Definition PUBLISH_TAG : string := "next".

Definition fail {A} (message : string) : result A := Throw (EExternal message).

Definition packageOf (key : string) : result Package :=
  of_option (EExternal "unknown package") (map_get key PACKAGES).

(** [NEVER_MOVE.get(name)?.has(tag)]. *)
Definition never_moved (name tag : string) : bool :=
  match map_get name NEVER_MOVE with Some tags => bool_decide (tag ∈ tags) | None => false end.

(** A string that is not empty, of a property that may be missing. *)
Definition truthy (v : option string) : option string :=
  match v with Some s => if bool_decide (s = "") then None else Some s | None => None end.

(** ** Which dist-tag moves *)
Inductive Why := WAlready | WAhead | WNewMajor | WStable | WMoves.
Record Decision := mkDecision { d_move : bool; d_why : Why }.

Definition distTagDecision (name version tag : string) (current : option string) : result Decision :=
  if never_moved name tag then fail "refusing to move a dist-tag"
  else if bool_decide (current = Some version) then Ok (mkDecision false WAlready)
  else match truthy current with
  | None => Ok (mkDecision true WMoves)
  | Some current =>
    order ← compareVersions current version;
    if 0 <? order then Ok (mkDecision false WAhead)
    else if bool_decide (tag = "latest") then
      newer ← majorOf version;
      older ← majorOf current;
      if older <? newer then Ok (mkDecision false WNewMajor)
      else
        pre ← isPrerelease version;
        stable ← (if (pre : bool) then negb <$> isPrerelease current else Ok false);
        if (stable : bool) then Ok (mkDecision false WStable) else Ok (mkDecision true WMoves)
    else Ok (mkDecision true WMoves)
  end.

Definition assertPublishKeepsOrder (name version : string) (distTags : list (string * string)) : result unit :=
  match truthy (map_get PUBLISH_TAG distTags) with
  | None => Ok ()
  | Some current =>
    order ← compareVersions current version;
    throw_if (0 <? order) (EExternal "lower than next")
  end.

(** ** The outside *)

(** [npm view ... --json]: data, the error E404, or another failure. *)
Inductive view (A : Type) := ViewOk (data : A) | View404 | ViewFailed.
Arguments ViewOk {A} data.
Arguments View404 {A}.
Arguments ViewFailed {A}.

(** What [npm publish] ended with: its exit code, and whether its output says that
    the version was published before. *)
Record PublishExit := mkExit { x_code : Z; x_previously : bool }.

Record Npm (W : Type) := mkNpm {
  npm_view_version : W → string → string → view string;
  npm_view_integrity : W → string → string → view string;
  npm_view_tags : W → string → view (list (string * string));
  npm_publish : W → string → string → string → bool → W * PublishExit;
  npm_dist_tag_add : W → string → string → string → W * Z;
  npm_wait : W → W;
}.
Arguments npm_view_version {W} _ _ _ _.
Arguments npm_view_integrity {W} _ _ _ _.
Arguments npm_view_tags {W} _ _ _.
Arguments npm_publish {W} _ _ _ _ _ _.
Arguments npm_dist_tag_add {W} _ _ _ _ _.
Arguments npm_wait {W} _ _.

(** [manifest.json] of the packed tarball, as [pack] writes it. *)
Record Entry := mkEntry { e_package : string; e_name : string; e_version : string; e_integrity : string }.

(** The files a [publish] reads: the entry, the name and version in package.json
    and in the tarball, the tarball's hash, and [npm --version]. *)
Record Files := mkFiles {
  fl_entry : result Entry;
  fl_package_json : result (string * string);
  fl_tarball : result (string * string);
  fl_sha512 : result string;
  fl_npm_major : Z;
  fl_npm_minor : Z;
}.

Definition expectSame (actual : string * string) (name version : string) : result unit :=
  throw_if (negb (bool_decide (actual.1 = name)) || negb (bool_decide (actual.2 = version)))
    (EExternal "unexpected package").

Definition readEntry (files : Files) : result (Entry * Package) :=
  entry ← fl_entry files;
  pkg ← packageOf (e_package entry);
  _ ← throw_if (negb (bool_decide (e_name entry = pk_name pkg))) (EExternal "manifest is for another package");
  _ ← parseVersion (e_version entry);
  Ok (entry, pkg).

(** ** The repository *)
Definition RELEASE_BRANCHES : list string := ["develop"; "main"].

Record Manifest := mkManifest { mf_name : string; mf_private : bool; mf_version : string }.

(** What git and the files at the tagged commit say.  Of a branch of origin: [None]
    when it was not fetched, else the exit status of [git merge-base
    --is-ancestor]. *)
Record Repo := mkRepo {
  rp_head : string;
  rp_branch : string → option Z;
  rp_diff_develop : Z;
  rp_package_json : string → result Manifest;
  rp_package_lock : string → result (option string * option string);
}.

(** The variables GitHub sets: [GITHUB_SHA], [GITHUB_REF_NAME]. *)
Record Env := mkEnv { en_sha : option string; en_ref_name : option string }.

(** One branch of the loop: whether the commit is on it. *)
Definition on_branch (repo : Repo) (branch : string) : result (list string) :=
  match rp_branch repo branch with
  | None => Ok []
  | Some status =>
    if status =? 0 then Ok [branch]
    else if negb (status =? 1) then fail "git merge-base failed" else Ok []
  end.

Definition checkReleaseBranch (repo : Repo) (env : Env) : result (string * list string) :=
  let head := rp_head repo in
  _ ← throw_if (match truthy (en_sha env) with Some sha => negb (bool_decide (sha = head)) | None => false end)
        (EExternal "checked out another commit");
  on ← mapR (on_branch repo) RELEASE_BRANCHES;
  _ ← throw_if (length (concat on) =? 0)%nat (EExternal "not on a release branch");
  Ok (head, concat on).

Definition releaseFilesMatchDevelop (repo : Repo) : result bool :=
  if rp_diff_develop repo =? 0 then Ok true
  else if rp_diff_develop repo =? 1 then Ok false else fail "git diff failed".

(** [TAG_RE]: the package key and the rest. *)
Definition after_prefix (p s : string) : option string :=
  if String.prefix p s then Some (String.substring (String.length p) (String.length s - String.length p) s) else None.
Definition split_tag (tag : string) : option (string * string) :=
  match after_prefix "sdk-legacy-v" tag with
  | Some v => (λ v, ("sdk-legacy", v)) <$> truthy (Some v)
  | None => match after_prefix "sdk-kit-v" tag with
            | Some v => (λ v, ("sdk-kit", v)) <$> truthy (Some v)
            | None => None
            end
  end.

(** [releaseTagOf]. *)
Definition releaseTagOf (entry : Entry) : string := (e_package entry ++ "-v" ++ e_version entry)%string.

(** ** The tag on GitHub *)

(** [gh api .../git/ref/tags/<tag>], which fails without [GH_REPO]; of an annotated tag also what it points at. *)
Inductive RemoteRef :=
  | RefMissing
  | RefFailed
  | RefCommit (sha : string)
  | RefAnnotated (target : result (bool * string * string))
  | RefOther.

(** The commit, and the annotation of an annotated tag. *)
Definition remoteTag (ref : RemoteRef) : result (option (string * option string)) :=
  match ref with
  | RefMissing => Ok None
  | RefFailed => fail "gh failed"
  | RefCommit sha => Ok (Some (sha, None))
  | RefOther => fail "tag points at another object"
  | RefAnnotated target =>
    '(is_commit, sha, message) ← target;
    _ ← throw_if (negb is_commit) (EExternal "tag points at another object");
    Ok (Some (sha, Some message))
  end.

Definition verifyTag (files : Files) (env : Env) (lookup : string → RemoteRef) : result unit :=
  '(entry, _) ← readEntry files;
  let tag := releaseTagOf entry in
  _ ← throw_if (match truthy (en_ref_name env) with Some r => negb (bool_decide (r = tag)) | None => false end)
        (EExternal "the tarball is for another tag");
  sha ← of_option (EExternal "GITHUB_SHA is not set") (truthy (en_sha env));
  remote ← remoteTag (lookup tag);
  match remote with
  | None => fail "tag no longer exists"
  | Some (commit, _) => throw_if (negb (bool_decide (commit = sha))) (EExternal "tag points at another commit")
  end.

(** ** npm *)
Section release.
Context {W : Type}.
Variable npm : Npm W.

(** A step of the script: the registry survives a throw. *)
Definition N (A : Type) : Type := W → W * result A.
#[local] Instance N_ret : MRet N := λ A a w, (w, Ok a).
#[local] Instance N_bind : MBind N := λ A B f m w,
  match m w with (w, Ok a) => f a w | (w, Throw e) => (w, Throw e) end.
Definition liftN {A} (r : result A) : N A := λ w, (w, r).

Definition isPublished (name version : string) : N bool := λ w,
  (w, match npm_view_version npm w name version with
      | ViewOk v => Ok (bool_decide (v = version))
      | View404 => Ok false
      | ViewFailed => fail "npm view failed"
      end).

Definition publishedIntegrity (name version : string) : N string := λ w,
  (w, match npm_view_integrity npm w name version with ViewOk v => Ok v | _ => fail "npm view failed" end).

Definition distTagsOf (name : string) : N (list (string * string)) := λ w,
  (w, match npm_view_tags npm w name with
      | ViewOk tags => Ok tags
      | View404 => Ok []
      | ViewFailed => fail "npm view failed"
      end).

Definition VISIBILITY_ATTEMPTS : nat := 20.

Fixpoint wait_visible (attempts : nat) (name version : string) : N bool :=
  match attempts with
  | O => mret false
  | S attempts =>
    seen ← isPublished name version;
    if (seen : bool) then mret true
    else match attempts with
         | O => mret false
         | _ => _ ← (λ w, (npm_wait npm w, Ok ())); wait_visible attempts name version
         end
  end.
Definition waitUntilPublished (name version : string) : N bool := wait_visible VISIBILITY_ATTEMPTS name version.

Definition assertNpmSupportsOidc (major minor : Z) : result unit :=
  throw_if (negb (if major =? 11 then 21 <=? minor else if major =? 12 then 2 <=? minor else 12 <? major))
    (EExternal "npm cannot use trusted publishing").

(** The last loop: each of the package's dist-tags, as they are now. *)
Fixpoint point_tags (entry : Entry) (dryRun : bool) (distTags : list (string * string)) (tags : list string) : N unit :=
  match tags with
  | [] => mret ()
  | tag :: tags =>
    d ← liftN (distTagDecision (e_name entry) (e_version entry) tag (map_get tag distTags));
    _ ← (if d_move d && negb dryRun
         then λ w, let '(w', code) := npm_dist_tag_add npm w (e_name entry) (e_version entry) tag in
                   (w', throw_if (negb (code =? 0)) (EExternal "npm dist-tag failed"))
         else mret ());
    point_tags entry dryRun distTags tags
  end.

(** What follows a publish: the wait, the integrity, the dist-tags. *)
Definition settle_tags (entry : Entry) (pkg : Package) (dryRun publishedHere : bool) : N unit :=
  visible ← (if publishedHere then waitUntilPublished (e_name entry) (e_version entry) else mret true);
  _ ← liftN (throw_if (negb visible) (EExternal "not visible on npm"));
  onNpm ← publishedIntegrity (e_name entry) (e_version entry);
  _ ← liftN (throw_if (negb (bool_decide (onNpm = e_integrity entry)) && publishedHere) (EExternal "integrity"));
  distTags ← distTagsOf (e_name entry);
  point_tags entry dryRun distTags (pk_distTags pkg).

Definition publish (files : Files) (dryRun : bool) : N unit :=
  _ ← liftN (if dryRun then Ok () else assertNpmSupportsOidc (fl_npm_major files) (fl_npm_minor files));
  '(entry, pkg) ← liftN (readEntry files);
  json ← liftN (fl_package_json files);
  _ ← liftN (expectSame json (e_name entry) (e_version entry));
  tarball ← liftN (fl_tarball files);
  _ ← liftN (expectSame tarball (e_name entry) (e_version entry));
  hash ← liftN (fl_sha512 files);
  _ ← liftN (throw_if (negb (bool_decide (hash = e_integrity entry))) (EExternal "tarball does not match manifest.json"));
  published ← isPublished (e_name entry) (e_version entry);
  if (published : bool) then settle_tags entry pkg dryRun false
  else
    before ← distTagsOf (e_name entry);
    _ ← liftN (assertPublishKeepsOrder (e_name entry) (e_version entry) before);
    exit ← (λ w, let '(w', x) := npm_publish npm w (e_name entry) (e_version entry) (e_integrity entry) dryRun in
                 (w', Ok x));
    _ ← liftN (throw_if (negb (x_code exit =? 0) && negb (x_previously exit)) (EExternal "npm publish failed"));
    if dryRun then
      _ ← liftN (mapR (λ t, distTagDecision (e_name entry) (e_version entry) t (map_get t before))
                   (List.filter (λ t, negb (bool_decide (t = PUBLISH_TAG))) (pk_distTags pkg)));
      mret ()
    else settle_tags entry pkg false (x_code exit =? 0).

(** ** The plan of a release tag *)
Record Plan := mkPlan {
  pn_package : string;
  pn_pkg : Package;
  pn_version : string;
  pn_published : bool;
  pn_head : string;
  pn_on : list string;
  pn_same_as_develop : bool;
  (** each dist-tag with its decision; [None] is the one [npm publish] moves *)
  pn_steps : list (string * option Decision);
}.

Definition plan_step (pkg : Package) (version : string) (published : bool) (distTags : list (string * string))
    (t : string) : result (string * option Decision) :=
  if bool_decide (t = PUBLISH_TAG) && negb published then Ok (t, None)
  else d ← distTagDecision (pk_name pkg) version t (map_get t distTags); Ok (t, Some d).

Definition plan (tag : string) (repo : Repo) (env : Env) : N Plan :=
  '(key, version) ← liftN (of_option (EExternal "not a release tag") (split_tag tag));
  _ ← liftN (parseVersion version);
  pkg ← liftN (packageOf key);
  manifest ← liftN (rp_package_json repo (pk_dir pkg));
  _ ← liftN (throw_if (negb (bool_decide (mf_name manifest = pk_name pkg))) (EExternal "package.json is another's"));
  _ ← liftN (throw_if (mf_private manifest) (EExternal "package.json is private"));
  _ ← liftN (throw_if (negb (bool_decide (mf_version manifest = version))) (EExternal "package.json is at another version"));
  lock ← liftN (rp_package_lock repo (pk_dir pkg));
  _ ← liftN (throw_if (negb (bool_decide (lock.1 = Some version)) || negb (bool_decide (lock.2 = Some version)))
               (EExternal "package-lock.json is at another version"));
  '(head, on) ← liftN (checkReleaseBranch repo env);
  sameAsDevelop ← liftN (releaseFilesMatchDevelop repo);
  published ← isPublished (pk_name pkg) version;
  distTags ← distTagsOf (pk_name pkg);
  _ ← liftN (if (published : bool) then Ok () else assertPublishKeepsOrder (pk_name pkg) version distTags);
  steps ← liftN (mapR (plan_step pkg version published distTags) (pk_distTags pkg));
  mret (mkPlan key pkg version published head on sameAsDevelop steps).
End release.
