(* ===== verification/ReleaseProps.v ===== *)
(** * What a release may do to npm

    [publish] moves no dist-tag back to a lower version, keeps [latest] within its
    major and does not move it from a stable version to a pre-release, and leaves
    sdk-legacy's [latest]; a run that returns has [next] at its version or ahead of it.
    [plan] and [verifyTag] accept what they should.  [Registry] says what npm documents
    of its dist-tags.  What [npm view] shows of them is free, and may be stale: moves are
    forward from what was shown ([justified]), and forward altogether when the views are
    current ([Fresh]). *)
From S2P Require Import Prelude Bytes Kit JsMap Ownership SemVer Release.
Local Open Scope string_scope.
Local Open Scope Z_scope.

(** ** Moving forward *)

(** The tags the script may point, of the packages it releases. *)
Definition movable (name tag : string) : Prop :=
  ∃ key pkg, map_get key PACKAGES = Some pkg ∧ pk_name pkg = name ∧ tag ∈ pk_distTags pkg.

Definition same_line (old new : string) : Prop :=
  (∃ m m', majorOf old = Ok m ∧ majorOf new = Ok m' ∧ m' <= m)
  ∧ (isPrerelease new = Ok true → isPrerelease old = Ok true).

(** A dist-tag of a package moved to [new], and one before and after. *)
Definition moved (name tag : string) (old new : option string) : Prop :=
  movable name tag ∧ ∃ v, new = Some v ∧ safe_text v = true
    ∧ ∀ o, old = Some o → version_le o v ∧ (tag = "latest" → same_line o v).

Definition advanced (name tag : string) (old new : option string) : Prop :=
  new = old ∨ moved name tag old new.

Definition safe_tag (v : option string) : Prop := ∀ s, v = Some s → safe_text s = true.

Lemma same_line_trans a b c : same_line a b → same_line b c → same_line a c.
Proof.
  intros [(m & m' & Ha & Hb & Hm) H1] [(n & n' & Hb' & Hc & Hn) H2]. split; [|auto].
  exists m, n'. rewrite Hb in Hb'. injection Hb' as <-. split_and!; [done|done|lia].
Qed.

Lemma advanced_safe name tag old new : safe_tag old → advanced name tag old new → safe_tag new.
Proof. intros Ho [->|(_ & v & -> & Hv & _)]; [done|]. by intros s [= <-]. Qed.

Lemma advanced_trans name tag a b c : safe_tag a → safe_tag b → advanced name tag a b → advanced name tag b c →
  advanced name tag a c.
Proof.
  intros Ha Hb [->|(Hm & v & -> & Hv & H1)]; [done|]. intros [->|(_ & w & -> & Hw & H2)].
  { right. split; [done|]. exists v. auto. }
  right. split; [done|]. exists w. split_and!; [done|done|]. intros o Ho. destruct (H1 o Ho) as [L1 S1].
  destruct (H2 v eq_refl) as [L2 S2]. split; [|intros Ht; eapply same_line_trans; auto].
  apply (version_le_trans o v w); auto.
Qed.

(** sdk-legacy's [latest] is not among the tags. *)
Lemma legacy_latest_fixed : ¬ movable "@lazorkit/sdk-legacy" "latest".
Proof.
  intros (key & pkg & Hk & Hn & Ht). apply map_get_elem in Hk. unfold PACKAGES in Hk.
  rewrite !elem_of_cons, elem_of_nil in Hk. destruct Hk as [[= -> ->]|[[= -> ->]|[]]]; cbn in *; [|done].
  rewrite !elem_of_cons, elem_of_nil in Ht. destruct Ht as [[=]|[]].
Qed.

(** ** The decision *)
Lemma truthy_safe v : safe_tag v → truthy v = v.
Proof.
  intros H. destruct v as [s|]; [|done]. cbn. case_bool_decide as E; [|done]. subst s. by specialize (H _ eq_refl).
Qed.

Lemma decision_moves name version tag old : movable name tag → safe_text version = true → safe_tag old →
  (∃ why, distTagDecision name version tag old = Ok (mkDecision true why)) →
  moved name tag old (Some version).
Proof.
  intros Hm Hv Ho [why H]. split; [done|]. exists version. split_and!; [done|done|]. intros o ->.
  unfold distTagDecision in H. destruct (never_moved name tag); [done|]. case_bool_decide; [done|].
  rewrite truthy_safe in H by done. apply bind_inv in H as (z & Hz & H).
  destruct (Z.ltb_spec 0 z); [done|]. split; [by exists z|]. intros ->.
  rewrite bool_decide_eq_true_2 in H by done. apply bind_inv in H as (n & Hn & H).
  apply bind_inv in H as (m & Hmj & H). destruct (Z.ltb_spec m n) as [|Hle]; [done|].
  apply bind_inv in H as (p & Hp & H). split; [by exists m, n|].
  intros Hp'. rewrite Hp in Hp'. injection Hp' as ->. apply bind_inv in H as (st & Hst & H).
  destruct (isPrerelease o) as [[]|] eqn:Eo; [done| |done]. cbn in Hst. injection Hst as <-. done.
Qed.

Lemma next_moves name version old :
  movable name PUBLISH_TAG → safe_text version = true → safe_tag (map_get PUBLISH_TAG old) →
  assertPublishKeepsOrder name version old = Ok () → moved name PUBLISH_TAG (map_get PUBLISH_TAG old) (Some version).
Proof.
  intros Hm Hv Ho H. split; [done|]. exists version. split_and!; [done|done|]. intros o Eo.
  unfold assertPublishKeepsOrder in H. rewrite truthy_safe, Eo in H by done.
  apply bind_inv in H as (z & Hz & H%throw_if_ok). split; [exists z; split; [done|lia]|done].
Qed.

(** Of the tag every package has, a refusal means it is there already. *)
Lemma next_reached name version old d : safe_text version = true → safe_tag old →
  distTagDecision name version PUBLISH_TAG old = Ok d → d_move d = false →
  ∃ v, old = Some v ∧ version_le version v.
Proof.
  intros Hv Ho H Hd. unfold distTagDecision in H. destruct (never_moved _ _); [done|].
  case_bool_decide as E; [exists version; split; [done|by apply version_le_refl]|].
  rewrite truthy_safe in H by done. destruct old as [o|]; [|injection H as <-; done].
  apply bind_inv in H as (z & Hz & H). destruct (Z.ltb_spec 0 z).
  - exists o. split; [done|]. destruct (compare_safe o version (Ho _ eq_refl) Hv) as (z' & Hz' & Hf & _).
    rewrite Hz in Hz'. injection Hz' as <-. exists (- z). split; [done|lia].
  - change (bool_decide (PUBLISH_TAG = "latest")) with false in H. injection H as <-. done.
Qed.

(** ** The registry *)
Class Registry {W} (npm : Npm W) := {
  tags_of : W → string → list (string * string);
  (** a publish that exits with 0 points [--tag next] at the version, a dry run nothing *)
  publish_tags : ∀ w name version integrity dry w' x, npm_publish npm w name version integrity dry = (w', x) →
    ∀ n t, map_get t (tags_of w' n)
           = if negb dry && (x_code x =? 0) && bool_decide (n = name) && bool_decide (t = PUBLISH_TAG)
             then Some version else map_get t (tags_of w n);
  add_tags : ∀ w name version tag w' code, npm_dist_tag_add npm w name version tag = (w', code) →
    ∀ n t, map_get t (tags_of w' n)
           = if (code =? 0) && bool_decide (n = name) && bool_decide (t = tag)
             then Some version else map_get t (tags_of w n);
  (** nobody else releases while the script waits *)
  wait_tags : ∀ w n, tags_of (npm_wait npm w) n = tags_of w n;
}.

Section runs.
Context {W : Type} (npm : Npm W) `{R : !Registry npm}.
#[local] Existing Instances N_ret N_bind.

Definition tag_at (w : W) (name tag : string) : option string := map_get tag (tags_of w name).
Definition Safe (w : W) : Prop := ∀ n t, safe_tag (tag_at w n t).

(** The dist-tags a view shows.  npm takes only SemVer versions; nothing says the tags
    shown are those of this moment, which [Fresh] adds. *)
Definition shown (w : W) (name : string) : option (list (string * string)) :=
  match npm_view_tags npm w name with ViewOk tags => Some tags | View404 => Some [] | ViewFailed => None end.
Definition ShowsVersions : Prop := ∀ w name tags, shown w name = Some tags → ∀ t, safe_tag (map_get t tags).
Definition Fresh : Prop :=
  ∀ w name tags, Safe w → shown w name = Some tags → ∀ t, map_get t tags = tag_at w name t.

(** The states the registry goes through while the script works on it. *)
Inductive later (w : W) : W → Prop :=
  | later_now : later w w
  | later_wait w1 : later w w1 → later w (npm_wait npm w1)
  | later_publish w1 name version integrity dry :
      later w w1 → later w (npm_publish npm w1 name version integrity dry).1
  | later_add w1 name version tag : later w w1 → later w (npm_dist_tag_add npm w1 name version tag).1.

Lemma later_trans a b c : later a b → later b c → later a c.
Proof. intros Hab. induction 1; [done|constructor; auto..]. Qed.

(** A tag that stayed, or moved forward from the tags shown at a moment in between. *)
Definition justified (w w' : W) (n t : string) : Prop :=
  tag_at w' n t = tag_at w n t
  ∨ ∃ w1 tags, later w w1 ∧ later w1 w' ∧ shown w1 n = Some tags ∧ moved n t (map_get t tags) (tag_at w' n t).

Lemma justified_trans a b c n t : later a b → later b c → justified a b n t → justified b c n t → justified a c n t.
Proof.
  intros Hab Hbc H1 [H2|(w1 & tags & L1 & L2 & Hs & Hm)].
  - destruct H1 as [H1|(w1 & tags & L1 & L2 & Hs & Hm)]; [left; congruence|].
    right. exists w1, tags. rewrite H2. split_and!; try done. by eapply later_trans.
  - right. exists w1, tags. split_and!; try done. by eapply later_trans.
Qed.
Definition Advanced (w w' : W) : Prop := ∀ n t, advanced n t (tag_at w n t) (tag_at w' n t).

Lemma Advanced_refl w : Advanced w w.
Proof. intros n t. by left. Qed.

Lemma Advanced_safe w w' : Safe w → Advanced w w' → Safe w'.
Proof. intros Hs Ha n t. by eapply advanced_safe. Qed.

Lemma Advanced_trans a b c : Safe a → Advanced a b → Advanced b c → Advanced a c.
Proof. intros Hs H1 H2 n t. eapply advanced_trans; [done| |done|done]. by eapply Advanced_safe. Qed.

(** Moving one tag. *)
Lemma one_tag_advances w w' (c : bool) name tag version :
  (∀ n t, tag_at w' n t = if c && bool_decide (n = name) && bool_decide (t = tag) then Some version else tag_at w n t) →
  (c = true → advanced name tag (tag_at w name tag) (Some version)) → Advanced w w'.
Proof.
  intros Hw Hc n t. rewrite Hw. destruct c; [|by left]. cbn [andb].
  case_bool_decide as En; [|by left]. case_bool_decide as Et; [|by left]. subst. cbn [andb]. by apply Hc.
Qed.

(** A step that moves no tag back, from any registry. *)
Definition forward {A} (m : N (W := W) A) : Prop := ∀ w, Safe w → Advanced w (m w).1.

Lemma forward_bind {A B} (m : N (W := W) A) (f : A → N (W := W) B) :
  forward m → (∀ a, forward (f a)) → forward (m ≫= f).
Proof.
  intros Hm Hf w Hs. specialize (Hm w Hs). unfold mbind, N_bind. destruct (m w) as [w1 [a|e]]; [|done].
  cbn [fst] in *. eapply Advanced_trans; [done|done|]. apply Hf. by eapply Advanced_safe.
Qed.

(** A step that only reads. *)
Lemma forward_read {A} (m : N (W := W) A) : (∀ w, (m w).1 = w) → forward m.
Proof. intros H w _. rewrite H. apply Advanced_refl. Qed.

Lemma forward_wait_visible attempts name version : forward (wait_visible npm attempts name version).
Proof.
  induction attempts as [|n IH]; [by apply forward_read|]. cbn [wait_visible].
  apply forward_bind; [by apply forward_read|]. intros [|]; [by apply forward_read|].
  destruct n as [|n]; [by apply forward_read|]. apply forward_bind; [|done].
  intros w _ m t. left. unfold tag_at. cbn. by rewrite wait_tags.
Qed.

(** The loop that points the tags, on what the registry said when it began. *)
Lemma point_tags_forward entry dry distTags tags w :
  Safe w → safe_text (e_version entry) = true → NoDup tags →
  (∀ t, t ∈ tags → movable (e_name entry) t ∧ map_get t distTags = tag_at w (e_name entry) t) →
  Advanced w (point_tags npm entry dry distTags tags w).1.
Proof.
  intros Hs Hv. revert w Hs. induction tags as [|tag tags IH]; intros w Hs Hn Ht; [apply Advanced_refl|].
  apply NoDup_cons in Hn as [Hni Hn]. cbn [point_tags]. unfold mbind at 1, N_bind at 1, liftN.
  destruct (Ht tag ltac:(left)) as [Hm Hg]. rewrite Hg.
  destruct (distTagDecision _ _ _ _) as [[move why]|] eqn:Ed; [|apply Advanced_refl]. cbn [d_move].
  unfold mbind, N_bind. destruct (move && negb dry) eqn:Emv.
  - destruct (npm_dist_tag_add npm w _ _ _) as [w' code] eqn:Ea. pose proof (add_tags _ _ _ _ _ _ Ea) as Htags.
    assert (Hadv : Advanced w w').
    { eapply (one_tag_advances w w' (code =? 0)); [exact Htags|]. intros _. right. apply decision_moves; [done|done|by apply Hs|].
      apply andb_true_iff in Emv as [-> _]. by exists why. }
    destruct (throw_if _ _) as [[]|]; [|done]. eapply Advanced_trans; [done|done|].
    apply IH; [by eapply Advanced_safe|done|]. intros t Hin. destruct (Ht t ltac:(by right)) as [Hm' Hg'].
    split; [done|]. rewrite Hg'. unfold tag_at. rewrite Htags.
    rewrite (bool_decide_eq_false_2 (t = tag)) by (intros ->; done). by rewrite andb_false_r.
  - apply IH; [done|done|]. intros t Hin. apply Ht. by right.
Qed.

Lemma distTagsOf_shown name w : ∃ r, distTagsOf npm name w = (w, r) ∧ ∀ tags, r = Ok tags → shown w name = Some tags.
Proof.
  unfold distTagsOf, shown. destruct (npm_view_tags npm w name); eexists; (split; [reflexivity|]); by intros ? [= <-].
Qed.

Lemma package_tags key pkg : map_get key PACKAGES = Some pkg →
  NoDup (pk_distTags pkg) ∧ PUBLISH_TAG ∈ pk_distTags pkg ∧ ∀ t, t ∈ pk_distTags pkg → movable (pk_name pkg) t.
Proof.
  intros Hk. pose proof (map_get_elem _ _ _ Hk) as Hin. unfold PACKAGES in Hin.
  rewrite !elem_of_cons, elem_of_nil in Hin. split_and!; [| |intros t Ht; by exists key, pkg].
  all: destruct Hin as [[= _ ->]|[[= _ ->]|[]]]; cbn; try set_solver.
  all: repeat constructor; set_solver.
Qed.

Lemma readEntry_ok files entry pkg : readEntry files = Ok (entry, pkg) →
  fl_entry files = Ok entry ∧ map_get (e_package entry) PACKAGES = Some pkg ∧ e_name entry = pk_name pkg.
Proof.
  unfold readEntry. intros (e & He & (p & Hp%of_option_ok & (u & Hn%throw_if_inv & (v & _ & [= -> ->])%bind_inv)%bind_inv)%bind_inv)%bind_inv.
  apply negb_false_iff, bool_decide_eq_true in Hn. done.
Qed.

(** The version a run is for has safe numbers. *)
Definition run_safe (files : Files) : Prop := ∀ e, fl_entry files = Ok e → safe_text (e_version e) = true.

(** ** Whatever is shown *)
Definition justifies_at {A} (w : W) (m : N (W := W) A) : Prop := later w (m w).1 ∧ ∀ n t, justified w (m w).1 n t.
Definition justifies {A} (m : N (W := W) A) : Prop := ∀ w, justifies_at w m.

Lemma justifies_after {A B} (m : N (W := W) A) (f : A → N (W := W) B) w r :
  m w = (w, r) → (∀ a, r = Ok a → justifies_at w (f a)) → justifies_at w (m ≫= f).
Proof.
  intros Hm Hf. unfold justifies_at, mbind, N_bind. rewrite Hm. destruct r as [a|e]; [by apply Hf|].
  split; [apply later_now|by left].
Qed.

Lemma justifies_then {A B} (m : N (W := W) A) (f : A → N (W := W) B) w w1 a :
  m w = (w1, Ok a) → later w w1 → (∀ n t, justified w w1 n t) → justifies_at w1 (f a) → justifies_at w (m ≫= f).
Proof.
  intros Hm L1 H1 [L2 H2]. unfold justifies_at, mbind, N_bind. rewrite Hm. split; [by eapply later_trans|].
  intros n t. by eapply justified_trans.
Qed.

Lemma justifies_bind {A B} (m : N (W := W) A) (f : A → N (W := W) B) :
  justifies m → (∀ a, justifies (f a)) → justifies (m ≫= f).
Proof.
  intros Hm Hf w. specialize (Hm w). unfold justifies_at, mbind, N_bind in *. destruct (m w) as [w1 [a|e]]; [|done].
  cbn [fst] in *. destruct Hm as [L1 H1], (Hf a w1) as [L2 H2]. split; [by eapply later_trans|].
  intros n t. by eapply justified_trans.
Qed.

Lemma justifies_read {A} (m : N (W := W) A) : (∀ w, (m w).1 = w) → justifies m.
Proof. intros H w. unfold justifies_at. rewrite H. split; [apply later_now|by left]. Qed.

Lemma justifies_wait attempts name version : justifies (wait_visible npm attempts name version).
Proof.
  induction attempts as [|n IH]; [by apply justifies_read|]. cbn [wait_visible].
  apply justifies_bind; [by apply justifies_read|]. intros [|]; [by apply justifies_read|].
  destruct n as [|n]; [by apply justifies_read|]. apply justifies_bind; [|done].
  intros w. split; cbn; [apply later_wait, later_now|]. intros m t. left. unfold tag_at. by rewrite wait_tags.
Qed.

(** Pointing one tag, after the view that allowed it. *)
Lemma one_tag_justified w0 tags w w' (c : bool) name tag version :
  shown w0 name = Some tags → later w0 w' →
  (∀ n t, tag_at w' n t = if c && bool_decide (n = name) && bool_decide (t = tag) then Some version else tag_at w n t) →
  (c = true → moved name tag (map_get tag tags) (Some version)) →
  ∀ n t, tag_at w' n t = tag_at w n t ∨ (n = name ∧ moved n t (map_get t tags) (tag_at w' n t)).
Proof.
  intros Hs Hl Hw Hc n t. rewrite Hw. destruct c; [|by left]. cbn [andb].
  case_bool_decide as En; [|by left]. case_bool_decide as Et; [|by left]. subst. right. auto.
Qed.

Lemma point_tags_justified entry dry w0 distTags tags w :
  ShowsVersions → safe_text (e_version entry) = true → shown w0 (e_name entry) = Some distTags → later w0 w →
  (∀ t, t ∈ tags → movable (e_name entry) t) →
  later w0 (point_tags npm entry dry distTags tags w).1
  ∧ ∀ n t, tag_at (point_tags npm entry dry distTags tags w).1 n t = tag_at w n t
      ∨ (n = e_name entry ∧ moved n t (map_get t distTags) (tag_at (point_tags npm entry dry distTags tags w).1 n t)).
Proof.
  intros Hv Hsafe Hsh. revert w. induction tags as [|tag tags IH]; intros w Hl Hm; [split; [done|by left]|].
  cbn [point_tags]. unfold mbind at 1 3 5, N_bind at 1 3 5, liftN.
  destruct (distTagDecision _ _ _ _) as [[move why]|] eqn:Ed; [|split; [done|by left]]. cbn [d_move].
  unfold mbind, N_bind. destruct (move && negb dry) eqn:Emv.
  2: { apply IH; [done|]. intros t Ht. apply Hm. by right. }
  pose proof (later_add w0 w (e_name entry) (e_version entry) tag Hl) as Hl'.
  destruct (npm_dist_tag_add npm w _ _ _) as [w' code] eqn:Ea. cbn [fst] in Hl'.
  assert (H1 : ∀ n t, tag_at w' n t = tag_at w n t ∨ (n = e_name entry ∧ moved n t (map_get t distTags) (tag_at w' n t))).
  { eapply one_tag_justified; [exact Hsh|exact Hl'|exact (add_tags _ _ _ _ _ _ Ea)|]. intros _.
    apply decision_moves; [apply Hm; left|done|by eapply Hv|]. apply andb_true_iff in Emv as [-> _]. by exists why. }
  destruct (throw_if _ _) as [[]|]; [|done].
  destruct (IH w' Hl' ltac:(intros t Ht; apply Hm; by right)) as [Hl2 H2]. split; [done|].
  intros n t. destruct (H2 n t) as [->|H]; [apply H1|by right].
Qed.

Lemma settle_justified entry key pkg dry here : ShowsVersions → safe_text (e_version entry) = true →
  map_get key PACKAGES = Some pkg → e_name entry = pk_name pkg → justifies (settle_tags npm entry pkg dry here).
Proof.
  intros Hsv Hv Hk He. destruct (package_tags key pkg Hk) as (_ & _ & Hmov). unfold settle_tags.
  apply justifies_bind; [destruct here; [apply justifies_wait|by apply justifies_read]|]. intros visible.
  apply justifies_bind; [by apply justifies_read|]. intros [].
  apply justifies_bind; [by apply justifies_read|]. intros onNpm.
  apply justifies_bind; [by apply justifies_read|]. intros [].
  intros w. destruct (distTagsOf_shown (e_name entry) w) as (r & Er & Hr).
  apply (justifies_after _ _ _ _ Er). intros tags ->.
  destruct (point_tags_justified entry dry w tags (pk_distTags pkg) w Hsv Hv (Hr _ eq_refl) (later_now w)) as [Hl H].
  { intros t Ht. rewrite He. by apply Hmov. }
  split; [done|]. intros n t. destruct (H n t) as [Hn|[-> Hn]]; [by left|]. right.
  exists w, tags. split_and!; [apply later_now|done|by apply Hr|done].
Qed.

Lemma publish_justified files dry : ShowsVersions → run_safe files → justifies (publish npm files dry).
Proof.
  intros Hsv Hrun. unfold publish. apply justifies_bind; [by apply justifies_read|]. intros [].
  intros w. apply (justifies_after _ _ _ (readEntry files)); [done|]. intros [entry pkg] Er.
  destruct (readEntry_ok _ _ _ Er) as (Hf & Hk & He). specialize (Hrun _ Hf).
  destruct (package_tags _ pkg Hk) as (_ & Hin & Hmov). revert w.
  apply justifies_bind; [by apply justifies_read|]. intros json. apply justifies_bind; [by apply justifies_read|]. intros [].
  apply justifies_bind; [by apply justifies_read|]. intros tarball. apply justifies_bind; [by apply justifies_read|]. intros [].
  apply justifies_bind; [by apply justifies_read|]. intros hash. apply justifies_bind; [by apply justifies_read|]. intros [].
  apply justifies_bind; [by apply justifies_read|]. intros [|]; [by eapply settle_justified|].
  intros w. destruct (distTagsOf_shown (e_name entry) w) as (r & Ed & Hr).
  apply (justifies_after _ _ _ _ Ed). intros before ->. specialize (Hr _ eq_refl).
  apply (justifies_after _ _ _ (assertPublishKeepsOrder (e_name entry) (e_version entry) before)); [done|]. intros [] Ho.
  pose proof (later_publish w w (e_name entry) (e_version entry) (e_integrity entry) dry (later_now w)) as L1.
  destruct (npm_publish npm w _ _ _ dry) as [w1 x] eqn:Ex. cbn [fst] in L1.
  assert (H1 : ∀ n t, justified w w1 n t).
  { intros n t. destruct (one_tag_justified w before w w1 (negb dry && (x_code x =? 0)) (e_name entry) PUBLISH_TAG (e_version entry)
      Hr L1 (publish_tags _ _ _ _ _ _ _ Ex)) with n t as [H|[-> H]]; [|by left|].
    - intros _. apply next_moves; [rewrite He; by apply Hmov|done|by eapply Hsv|done].
    - right. exists w, before. split_and!; [apply later_now|done|done|done]. }
  apply (justifies_then _ _ _ w1 x); [by rewrite Ex|done|done|]. revert w1 L1 Ex H1. intros w1 _ _ _. revert w1.
  apply justifies_bind; [by apply justifies_read|]. intros [].
  destruct dry; [|by eapply settle_justified].
  apply justifies_bind; [by apply justifies_read|]. intros _. by apply justifies_read.
Qed.

(** ** When the views are current *)
Section current.
Hypothesis fresh : Fresh.

Lemma distTagsOf_reads name w : Safe w → ∃ r, distTagsOf npm name w = (w, r) ∧
  ∀ tags, r = Ok tags → ∀ t, map_get t tags = tag_at w name t.
Proof.
  intros Hs. destruct (distTagsOf_shown name w) as (r & E & Hr). exists r. split; [exact E|].
  intros tags Ht. apply fresh; [exact Hs|]. by apply Hr.
Qed.

Lemma settle_forward entry key pkg dry here : safe_text (e_version entry) = true →
  map_get key PACKAGES = Some pkg → e_name entry = pk_name pkg → forward (settle_tags npm entry pkg dry here).
Proof.
  intros Hv Hk He. destruct (package_tags key pkg Hk) as (Hnd & _ & Hmov). unfold settle_tags.
  apply forward_bind; [destruct here; [apply forward_wait_visible|by apply forward_read]|]. intros visible.
  apply forward_bind; [by apply forward_read|]. intros [].
  apply forward_bind; [by apply forward_read|]. intros onNpm.
  apply forward_bind; [by apply forward_read|]. intros [].
  intros w Hs. unfold mbind, N_bind. destruct (distTagsOf_reads (e_name entry) w Hs) as (r & -> & Hr).
  destruct r as [tags|]; [|apply Advanced_refl]. apply point_tags_forward; [done|done|done|].
  intros t Ht. rewrite He. split; [by apply Hmov|]. rewrite (Hr _ eq_refl). by rewrite He.
Qed.

(** From the first read on, for a package of the list. *)
Lemma publish_new_forward entry key pkg dry w before : safe_text (e_version entry) = true →
  map_get key PACKAGES = Some pkg → e_name entry = pk_name pkg → Safe w →
  (∀ t, map_get t before = tag_at w (e_name entry) t) →
  assertPublishKeepsOrder (e_name entry) (e_version entry) before = Ok () →
  ∀ w' x, npm_publish npm w (e_name entry) (e_version entry) (e_integrity entry) dry = (w', x) → Advanced w w'.
Proof.
  intros Hv Hk He Hs Hb Hok w' x Hp. pose proof (publish_tags _ _ _ _ _ _ _ Hp) as Ht.
  destruct (package_tags key pkg Hk) as (_ & Hin & Hmov).
  eapply (one_tag_advances w w' (negb dry && (x_code x =? 0))); [exact Ht|]. intros _.
  rewrite <- Hb. right. apply next_moves; [rewrite He; by apply Hmov|done| |done]. rewrite Hb. apply Hs.
Qed.

Lemma publish_forward files dry : run_safe files → forward (publish npm files dry).
Proof.
  intros Hrun. unfold publish. apply forward_bind; [by apply forward_read|]. intros [].
  intros w Hs. unfold mbind at 1, N_bind at 1, liftN at 1.
  destruct (readEntry files) as [[entry pkg]|] eqn:Er; [|apply Advanced_refl].
  destruct (readEntry_ok _ _ _ Er) as (Hf & Hk & He). specialize (Hrun _ Hf).
  revert w Hs.
  apply forward_bind; [by apply forward_read|]. intros json. apply forward_bind; [by apply forward_read|]. intros [].
  apply forward_bind; [by apply forward_read|]. intros tarball. apply forward_bind; [by apply forward_read|]. intros [].
  apply forward_bind; [by apply forward_read|]. intros hash. apply forward_bind; [by apply forward_read|]. intros [].
  apply forward_bind; [by apply forward_read|]. intros [|]; [by eapply settle_forward|].
  intros w Hs. unfold mbind at 1, N_bind at 1. destruct (distTagsOf_reads (e_name entry) w Hs) as (r & -> & Hr).
  destruct r as [before|]; [|apply Advanced_refl]. specialize (Hr _ eq_refl).
  unfold mbind at 1, N_bind at 1, liftN at 1. destruct (assertPublishKeepsOrder _ _ _) as [[]|] eqn:Ho; [|apply Advanced_refl].
  unfold mbind at 1, N_bind at 1. destruct (npm_publish npm w _ _ _ dry) as [w1 x] eqn:Ex.
  pose proof (publish_new_forward entry _ pkg dry w before Hrun Hk He Hs Hr Ho w1 x Ex) as H1.
  assert (Hs1 : Safe w1) by (by eapply Advanced_safe). eapply Advanced_trans; [done|done|].
  clear Ex H1. revert w1 Hs1.
  apply forward_bind; [by apply forward_read|]. intros [].
  destruct dry; [|by eapply settle_forward].
  apply forward_bind; [by apply forward_read|]. intros _. by apply forward_read.
Qed.

(** ** The version is reached *)
Lemma point_tags_other entry distTags tags w w' r t : t ∉ tags →
  point_tags npm entry false distTags tags w = (w', r) → tag_at w' (e_name entry) t = tag_at w (e_name entry) t.
Proof.
  revert w. induction tags as [|tag tags IH]; intros w Ht; cbn [point_tags]; [by intros [= <- _]|].
  apply not_elem_of_cons in Ht as [Hne Ht]. unfold mbind, N_bind, liftN.
  destruct (distTagDecision _ _ _ _) as [d|]; [|by intros [= <- _]].
  destruct (d_move d && negb false); [|by apply IH].
  destruct (npm_dist_tag_add npm w _ _ _) as [w1 code] eqn:Ea. pose proof (add_tags _ _ _ _ _ _ Ea) as Htags.
  assert (E : tag_at w1 (e_name entry) t = tag_at w (e_name entry) t).
  { unfold tag_at. rewrite Htags, (bool_decide_eq_false_2 (t = tag)) by done. by rewrite andb_false_r. }
  rewrite <- E. destruct (throw_if _ _) as [[]|]; [by apply IH|by intros [= <- _]].
Qed.

Lemma point_tags_next entry distTags tags w w' : Safe w → safe_text (e_version entry) = true → NoDup tags →
  PUBLISH_TAG ∈ tags → (∀ t, map_get t distTags = tag_at w (e_name entry) t) →
  point_tags npm entry false distTags tags w = (w', Ok ()) →
  ∃ v, tag_at w' (e_name entry) PUBLISH_TAG = Some v ∧ version_le (e_version entry) v.
Proof.
  intros Hs Hv Hn Hin Hg.
  assert (Hold : safe_tag (map_get PUBLISH_TAG distTags)) by (rewrite Hg; apply Hs).
  assert (Hkeep : tag_at w (e_name entry) PUBLISH_TAG = map_get PUBLISH_TAG distTags) by done.
  clear Hs Hg. revert w Hkeep Hn Hin. induction tags as [|tag tags IH]; intros w Hkeep Hn Hin; [by apply not_elem_of_nil in Hin|].
  apply NoDup_cons in Hn as [Hni Hn]. cbn [point_tags]. unfold mbind, N_bind, liftN.
  destruct (distTagDecision _ _ _ _) as [d|] eqn:Ed; [|done]. rewrite andb_true_r.
  destruct (decide (tag = PUBLISH_TAG)) as [->|Hne].
  - destruct (d_move d) eqn:Em.
    + destruct (npm_dist_tag_add npm w _ _ _) as [w1 code] eqn:Ea. pose proof (add_tags _ _ _ _ _ _ Ea) as Htags.
      destruct (throw_if _ _) as [[]|] eqn:Et; [|done]. apply throw_if_ok, negb_false_iff in Et.
      intros H. apply (point_tags_other _ _ _ _ _ _ PUBLISH_TAG Hni) in H. rewrite H. unfold tag_at. rewrite Htags, Et.
      rewrite !bool_decide_eq_true_2 by done. eexists. split; [reflexivity|by apply version_le_refl].
    + intros H. apply (point_tags_other _ _ _ _ _ _ PUBLISH_TAG Hni) in H. rewrite H, Hkeep. by eapply next_reached.
  - apply elem_of_cons in Hin as [Heq|Hin]; [by symmetry in Heq|]. destruct (d_move d); [|by apply IH].
    destruct (npm_dist_tag_add npm w _ _ _) as [w1 code] eqn:Ea. pose proof (add_tags _ _ _ _ _ _ Ea) as Htags.
    destruct (throw_if _ _) as [[]|]; [|done]. apply IH; [|done|done]. rewrite <- Hkeep. unfold tag_at.
    by rewrite Htags, (bool_decide_eq_false_2 (PUBLISH_TAG = tag)), andb_false_r by done.
Qed.

(** Of a bind that returns, both parts do. *)
Lemma bind_returns {A B} (m : N (W := W) A) (f : A → N (W := W) B) w w' b :
  (m ≫= f) w = (w', Ok b) → ∃ w1 a, m w = (w1, Ok a) ∧ f a w1 = (w', Ok b).
Proof. unfold mbind, N_bind. destruct (m w) as [w1 [a|e]]; [by exists w1, a|done]. Qed.

Lemma settle_reaches entry key pkg here w w' : Safe w → safe_text (e_version entry) = true →
  map_get key PACKAGES = Some pkg → settle_tags npm entry pkg false here w = (w', Ok ()) →
  ∃ v, tag_at w' (e_name entry) PUBLISH_TAG = Some v ∧ version_le (e_version entry) v.
Proof.
  intros Hs Hv Hk. destruct (package_tags key pkg Hk) as (Hnd & Hin & _). unfold settle_tags.
  intros (w1 & visible & H1 & H)%bind_returns.
  assert (Hs1 : Safe w1).
  { eapply Advanced_safe; [exact Hs|]. replace w1 with ((if here then waitUntilPublished npm (e_name entry) (e_version entry)
      else mret true) w).1 by (by rewrite H1). destruct here; [by apply forward_wait_visible|apply Advanced_refl]. }
  apply bind_returns in H as (w2 & [] & [= -> _] & H). apply bind_returns in H as (w3 & onNpm & [= -> _] & H).
  apply bind_returns in H as (w4 & [] & [= -> _] & H). apply bind_returns in H as (w5 & tags & H5 & H).
  destruct (distTagsOf_reads (e_name entry) w4 Hs1) as (r & E & Hr). rewrite E in H5. injection H5 as -> ->.
  by eapply point_tags_next; [| | | |by apply Hr|].
Qed.

Lemma publish_reaches files w w' : Safe w → run_safe files → publish npm files false w = (w', Ok ()) →
  ∃ e v, fl_entry files = Ok e ∧ tag_at w' (e_name e) PUBLISH_TAG = Some v ∧ version_le (e_version e) v.
Proof.
  intros Hs Hrun. unfold publish. intros (w1 & [] & [= -> _] & H)%bind_returns.
  apply bind_returns in H as (w2 & [entry pkg] & [= -> Er] & H).
  destruct (readEntry_ok _ _ _ Er) as (Hf & Hk & He). specialize (Hrun _ Hf).
  apply bind_returns in H as (w3 & json & [= -> _] & H). apply bind_returns in H as (w4 & [] & [= -> _] & H).
  apply bind_returns in H as (w5 & tarball & [= -> _] & H). apply bind_returns in H as (w6 & [] & [= -> _] & H).
  apply bind_returns in H as (w7 & hash & [= -> _] & H). apply bind_returns in H as (w8 & [] & [= -> _] & H).
  apply bind_returns in H as (w9 & published & [= -> _] & H). exists entry.
  destruct published; [destruct (settle_reaches entry _ pkg _ _ _ Hs Hrun Hk H) as (v & ? & ?); by exists v|].
  apply bind_returns in H as (w10 & before & Hb & H). destruct (distTagsOf_reads (e_name entry) w9 Hs) as (r & E & Hr).
  rewrite E in Hb. injection Hb as -> ->. apply bind_returns in H as (w11 & [] & [= -> Ho] & H).
  apply bind_returns in H as (w12 & x & Hx & H).
  destruct (npm_publish npm w11 _ _ _ false) as [wp x'] eqn:Ex. injection Hx as -> ->.
  apply bind_returns in H as (w13 & [] & [= -> _] & H).
  pose proof (publish_new_forward entry _ pkg false _ before Hrun Hk He Hs (Hr _ eq_refl) Ho _ _ Ex) as Ha.
  destruct (settle_reaches entry _ pkg _ _ _ (Advanced_safe _ _ Hs Ha) Hrun Hk H) as (v & ? & ?). by exists v.
Qed.
End current.
End runs.

(** ** The plan *)
Section plan.
Context {W : Type} (npm : Npm W).
#[local] Existing Instances N_ret N_bind.

Lemma after_prefix_app p s v : after_prefix p s = Some v → s = (p ++ v)%string.
Proof.
  unfold after_prefix. destruct (String.prefix p s) eqn:E; [|done]. intros [= <-]. revert s E.
  induction p as [|c p IH]; intros s E; cbn [String.length String.append].
  - rewrite Nat.sub_0_r. clear E. change (s = String.substring 0 (String.length s) s).
    induction s as [|c s IHs]; [done|]. cbn [String.length String.substring]. by rewrite <- IHs.
  - destruct s as [|d s]; [done|]. cbn in E. destruct (Ascii.ascii_dec c d) as [->|]; [|done].
    cbn [String.length String.substring Nat.sub]. change (String d s = String d (p ++ String.substring (String.length p)
      (String.length s - String.length p) s)%string). f_equal. by apply IH.
Qed.

Lemma split_tag_app tag key version : split_tag tag = Some (key, version) → tag = (key ++ "-v" ++ version)%string.
Proof.
  unfold split_tag. destruct (after_prefix "sdk-legacy-v" tag) as [v|] eqn:E1.
  - cbn. case_bool_decide; [done|]. intros [= <- <-]. by apply after_prefix_app in E1.
  - destruct (after_prefix "sdk-kit-v" tag) as [v|] eqn:E2; [|done]. cbn. case_bool_decide; [done|].
    intros [= <- <-]. by apply after_prefix_app in E2.
Qed.

Lemma on_branches repo l on : mapR (on_branch repo) l = Ok on →
  Forall (λ b, b ∈ l ∧ rp_branch repo b = Some 0) (concat on).
Proof.
  revert on. induction l as [|b l IH]; intros on; cbn [mapR]; [by intros [= <-]|].
  intros (x & Hx & (xs & Hxs & [= <-])%bind_inv)%bind_inv. cbn [concat]. apply Forall_app. split.
  - unfold on_branch in Hx. destruct (rp_branch repo b) as [z|] eqn:Eb; [|injection Hx as <-; constructor].
    destruct (Z.eqb_spec z 0) as [->|]; [injection Hx as <-|].
    + constructor; [|constructor]. split; [left|done].
    + destruct (negb _); [done|injection Hx as <-; constructor].
  - eapply Forall_impl; [by apply IH|]. intros y [Hy Hz]. split; [by right|done].
Qed.

Lemma plan_reads tag repo env w w' p : plan npm tag repo env w = (w', Ok p) →
  w' = w ∧ tag = (pn_package p ++ "-v" ++ pn_version p)%string
  ∧ map_get (pn_package p) PACKAGES = Some (pn_pkg p)
  ∧ is_ok (parseVersion (pn_version p)) = true
  ∧ rp_package_json repo (pk_dir (pn_pkg p)) = Ok (mkManifest (pk_name (pn_pkg p)) false (pn_version p))
  ∧ rp_package_lock repo (pk_dir (pn_pkg p)) = Ok (Some (pn_version p), Some (pn_version p))
  ∧ pn_head p = rp_head repo ∧ pn_on p ≠ []
  ∧ Forall (λ b, b ∈ RELEASE_BRANCHES ∧ rp_branch repo b = Some 0) (pn_on p).
Proof.
  unfold plan. intros (w1 & [key version] & [= -> Ht] & H)%(bind_returns (W := W)).
  apply of_option_ok in Ht. apply (bind_returns (W := W)) in H as (w2 & v & [= -> Hv] & H).
  apply (bind_returns (W := W)) in H as (w3 & pkg & [= -> Hk] & H). apply of_option_ok in Hk.
  apply (bind_returns (W := W)) in H as (w4 & [mn mp mv] & [= -> Hm] & H). cbn [mf_name mf_private mf_version] in H.
  apply (bind_returns (W := W)) in H as (w5 & [] & [= -> Hn] & H). apply throw_if_ok, negb_false_iff, bool_decide_eq_true in Hn.
  apply (bind_returns (W := W)) in H as (w6 & [] & [= -> Hp] & H). apply throw_if_ok in Hp.
  apply (bind_returns (W := W)) in H as (w7 & [] & [= -> Hmv] & H). apply throw_if_ok, negb_false_iff, bool_decide_eq_true in Hmv.
  apply (bind_returns (W := W)) in H as (w8 & [l1 l2] & [= -> Hl] & H). cbn [fst snd] in H.
  apply (bind_returns (W := W)) in H as (w9 & [] & [= -> Hlv] & H). apply throw_if_ok, orb_false_iff in Hlv as [H1 H2].
  apply negb_false_iff, bool_decide_eq_true in H1, H2.
  apply (bind_returns (W := W)) in H as (w10 & [head on] & [= -> Hb] & H).
  apply (bind_returns (W := W)) in H as (w11 & same & [= -> _] & H).
  apply (bind_returns (W := W)) in H as (w12 & published & [= -> _] & H).
  apply (bind_returns (W := W)) in H as (w13 & tags & [= -> _] & H).
  apply (bind_returns (W := W)) in H as (w14 & [] & [= -> _] & H).
  apply (bind_returns (W := W)) in H as (w15 & steps & [= -> _] & H). injection H as -> <-. cbn.
  unfold checkReleaseBranch in Hb. apply bind_inv in Hb as ([] & _ & (on' & Ho & ([] & Hne%throw_if_ok & [= <- <-])%bind_inv)%bind_inv).
  apply split_tag_app in Ht. subst. split_and!; try done; [by rewrite Hv| |by apply on_branches].
  intros E. by rewrite E in Hne.
Qed.
End plan.

(** What [verifyTag] lets through was built from the commit its tag is at. *)
Theorem verified_tag_is_built (files : Files) (env : Env) (lookup : string → RemoteRef) :
  verifyTag files env lookup = Ok () →
  ∃ e sha message, fl_entry files = Ok e ∧ remoteTag (lookup (releaseTagOf e)) = Ok (Some (sha, message))
    ∧ en_sha env = Some sha ∧ (∀ r, truthy (en_ref_name env) = Some r → r = releaseTagOf e).
Proof.
  unfold verifyTag. intros ([e pkg] & He & H)%bind_inv. destruct (readEntry_ok _ _ _ He) as (Hf & _).
  apply bind_inv in H as ([] & Hr%throw_if_ok & H). apply bind_inv in H as (sha & Hs%of_option_ok & H).
  apply bind_inv in H as (remote & Hm & H). destruct remote as [[commit message]|]; [|done].
  apply throw_if_ok, negb_false_iff, bool_decide_eq_true in H. subst commit.
  exists e, sha, message. split_and!; [done|done| |].
  - destruct (en_sha env) as [s|]; [|done]. cbn in Hs. case_bool_decide; [done|]. by injection Hs as ->.
  - intros r E. rewrite E in Hr. by apply negb_false_iff, bool_decide_eq_true in Hr.
Qed.
