(* ===== verification/ReleaseCommands.v ===== *)
(** * The commands of the release script

    Models the rest of src/scripts/sdk-release.mjs: [pack], [githubRelease],
    [checkDistTagPermission], [oidcCheck] and [main], which dispatches on the command
    line to these and to the commands of [Release].  Over any sequence of invocations
    of the script no dist-tag goes back, and only two of its commands, without
    [--dry-run], change the registry at all.  The text of a GitHub release is left
    out; what goes into it is [Notes]. *)
From S2P Require Import Prelude Bytes Kit JsMap Ownership SemVer Release ReleaseProps.
From Stdlib Require Import Ascii.
Local Open Scope string_scope.
Local Open Scope Z_scope.

Definition SCRATCH_TAG : string := "oidc-check".

(** ** Packing *)

(** What [pack] finds: the output directory, package.json by directory, the exit
    codes of [npm run prepublishOnly] and [npm pack], and of a tarball whether it is
    there, the package.json in it, its file list and its hash. *)
Record Built := mkBuilt {
  bd_out_empty : bool;
  bd_package_json : string → result (string * string);
  bd_prepublish : Z;
  bd_pack : Z;
  bd_exists : string → bool;
  bd_tarball : string → result (string * string);
  bd_listing : string → list string;
  bd_sha512 : string → result string;
}.

(** [exec]: a command that must end with 0. *)
Definition exec (code : Z) : result unit := throw_if (negb (code =? 0)) (EExternal "command failed").

Definition strip_at (name : text) : text := match name with "@"%char :: rest => rest | _ => name end.
Definition slash_to_dash (name : text) : text :=
  match cut "/" name with Some (a, b) => a ++ "-"%char :: b | None => name end.
Definition tarballName (name version : string) : string :=
  (String.string_of_list_ascii (slash_to_dash (strip_at (String.list_ascii_of_string name))) ++ "-" ++ version ++ ".tgz")%string.

Definition REQUIRED : list string :=
  ["package/dist/index.js"; "package/dist/index.d.ts"; "package/LICENSE"; "package/README.md"].

Definition require_file (listing : list string) (file : string) : result unit :=
  throw_if (negb (bool_decide (file ∈ listing))) (EExternal "a file is missing").

(** The entry and the tarball it writes to manifest.json. *)
Definition pack (key outDir : option string) (built : Built) : result (Entry * string) :=
  key ← of_option (EExternal "usage") (truthy key);
  _ ← of_option (EExternal "usage") (truthy outDir);
  pkg ← packageOf key;
  _ ← throw_if (negb (bd_out_empty built)) (EExternal "not empty");
  '(name, version) ← bd_package_json built (pk_dir pkg);
  _ ← expectSame (name, version) (pk_name pkg) version;
  _ ← exec (bd_prepublish built);
  _ ← exec (bd_pack built);
  let tarball := tarballName name version in
  _ ← throw_if (negb (bd_exists built tarball)) (EExternal "npm pack did not produce the tarball");
  inside ← bd_tarball built tarball;
  _ ← expectSame inside name version;
  _ ← mapR (require_file (bd_listing built tarball)) REQUIRED;
  integrity ← bd_sha512 built tarball;
  Ok (mkEntry key name version integrity, tarball).

(** ** The outside of the other commands *)

(** What a dry run of [npm publish] ended with: its exit code, whether its output has
    the token exchange, and whether it refused to publish over the version. *)
Record DryExit := mkDryExit { dx_code : Z; dx_token : bool; dx_over : bool }.

(** [gh release view]: there, not found, or another failure. *)
Inductive GhRelease := ReleaseThere | ReleaseNotFound | ReleaseFailed.

Record Tools (W : Type) := mkTools {
  t_dist_tag_rm : W → string → string → W * Z;
  t_pack_next : W → string → Z * option (string * string);
  t_publish_dry : W → string → string → W * DryExit;
  t_view_provenance : W → string → string → view bool;
  t_release_view : W → string → GhRelease;
  t_release_create : W → string → bool → W * Z;
}.
Arguments t_dist_tag_rm {W} _ _ _ _.
Arguments t_pack_next {W} _ _ _.
Arguments t_publish_dry {W} _ _ _ _.
Arguments t_view_provenance {W} _ _ _ _.
Arguments t_release_view {W} _ _ _.
Arguments t_release_create {W} _ _ _ _.

(** What the notes of a GitHub release are written from. *)
Record Notes := mkNotes { nt_message : option string; nt_tags : list string; nt_provenance : bool }.

(** One invocation: the files below a directory, the checkout, the environment, the
    tags on GitHub, what [pack] finds, [ACTIONS_ID_TOKEN_REQUEST_URL]. *)
Record Outside := mkOutside {
  o_files : string → Files;
  o_repo : Repo;
  o_env : Env;
  o_lookup : string → RemoteRef;
  o_built : Built;
  o_token_url : option string;
}.

Inductive Done :=
  | DPlan (p : Plan)
  | DPacked (entry : Entry) (tarball : string)
  | DVerified
  | DPublished
  | DReleaseThere
  | DRelease (tag : string) (prerelease : bool) (notes : Notes)
  | DChecked (failed : list string).

Section commands.
Context {W : Type}.
Variable npm : Npm W.
Variable tools : Tools W.
#[local] Existing Instances N_ret N_bind.
#[local] Abbreviation N := (Release.N (W := W)).

(** [try { m } catch (err) { h }]. *)
Definition tryN {A} (m : N A) (h : error → N A) : N A := λ w,
  match m w with (w', Throw e) => h e w' | r => r end.

Definition hasProvenance (name version : string) : N bool := λ w,
  (w, match t_view_provenance tools w name version with ViewOk p => Ok p | _ => fail "npm view failed" end).

(** ** GitHub releases *)
Definition release_view (tag : string) : N GhRelease := λ w, (w, Ok (t_release_view tools w tag)).
Definition release_create (tag : string) (prerelease : bool) : N unit := λ w,
  let '(w', code) := t_release_create tools w tag prerelease in (w', exec code).

Definition githubRelease (files : Files) (dryRun : bool) (lookup : string → RemoteRef) : N Done :=
  '(entry, _) ← liftN (readEntry files);
  let tag := releaseTagOf entry in
  there ← release_view tag;
  match there with
  | ReleaseThere => mret DReleaseThere
  | ReleaseFailed => liftN (fail "gh release view failed")
  | ReleaseNotFound =>
    remote ← liftN (remoteTag (lookup tag));
    match remote with
    | None => liftN (fail "tag does not exist on GitHub")
    | Some (_, message) =>
      distTags ← distTagsOf npm (e_name entry);
      let tagsAtVersion := (List.filter (λ p, bool_decide (p.2 = e_version entry)) distTags).*1 in
      provenance ← hasProvenance (e_name entry) (e_version entry);
      prerelease ← liftN (isPrerelease (e_version entry));
      let done := DRelease tag prerelease (mkNotes message tagsAtVersion provenance) in
      if dryRun then mret done
      else
        _ ← release_create tag prerelease;
        mret done
    end
  end.

(** ** Trusted publishing *)
Definition dist_tag_rm (name tag : string) : N unit := λ w,
  let '(w', code) := t_dist_tag_rm tools w name tag in (w', exec code).
Definition dist_tag_add (name version tag : string) : N unit := λ w,
  let '(w', code) := npm_dist_tag_add npm w name version tag in (w', exec code).

Definition checkDistTagPermission (name version : string) : N unit :=
  distTags ← distTagsOf npm name;
  _ ← (match truthy (map_get SCRATCH_TAG distTags) with
       | Some _ => dist_tag_rm name SCRATCH_TAG
       | None => mret ()
       end);
  _ ← dist_tag_add name version SCRATCH_TAG;
  tryN (dist_tag_rm name SCRATCH_TAG) (λ _, liftN (fail "remove the scratch tag by hand")).

Definition pack_next (name : string) : N (string * string) := λ w,
  (w, match t_pack_next tools w name with
      | (0, Some (filename, version)) =>
        if bool_decide (filename = "") then fail "npm pack failed" else Ok (filename, version)
      | _ => fail "npm pack failed"
      end).

Definition publish_dry (name filename : string) : N DryExit := λ w,
  let '(w', x) := t_publish_dry tools w name filename in (w', Ok x).

(** One package: whether it is pushed on [failed]. *)
Definition check_package (distTag : bool) (name : string) : N bool :=
  '(filename, version) ← pack_next name;
  exit ← publish_dry name filename;
  if negb (dx_token exit) then mret true
  else
    expected ← liftN (if dx_over exit then Ok true
                      else if dx_code exit =? 0 then isPrerelease version else Ok false);
    if negb (expected : bool) then mret true
    else if negb distTag then mret false
    else tryN (_ ← checkDistTagPermission name version; mret false) (λ _, mret true).

Fixpoint check_packages (distTag : bool) (names : list string) : N (list string) :=
  match names with
  | [] => mret []
  | name :: names =>
    failed ← check_package distTag name;
    rest ← check_packages distTag names;
    mret (if (failed : bool) then name :: rest else rest)
  end.

(** The names it ends with; the exit code is 1 when there is one. *)
Definition oidcCheck (major minor : Z) (url : option string) (distTag : bool) : N (list string) :=
  _ ← liftN (assertNpmSupportsOidc major minor);
  _ ← liftN (of_option (EExternal "no GitHub OIDC token available") (truthy url));
  check_packages distTag ((λ p, pk_name p.2) <$> PACKAGES).

(** ** The command line *)
Definition is_flag (a : string) : bool := String.prefix "--" a.

Definition known_flags (command : string) : list string :=
  if bool_decide (command = "publish") then ["--dry-run"]
  else if bool_decide (command = "github-release") then ["--dry-run"]
  else if bool_decide (command = "oidc-check") then ["--dist-tag"]
  else [].

(** The files below [<dir>], which has to be given. *)
Definition entry_files (out : Outside) (dir : option string) : Files :=
  match truthy dir with
  | Some dir => o_files out dir
  | None => let f := o_files out "" in
            mkFiles (fail "missing <dir>") (fl_package_json f) (fl_tarball f) (fl_sha512 f) (fl_npm_major f) (fl_npm_minor f)
  end.

Definition main (argv : list string) (out : Outside) : N Done :=
  match argv with
  | [] => liftN (fail "usage")
  | command :: rest =>
    let flags := List.filter is_flag rest in
    let args := List.filter (λ a, negb (is_flag a)) rest in
    _ ← liftN (throw_if (negb (forallb (λ f, bool_decide (f ∈ known_flags command)) flags)) (EExternal "unknown option"));
    let dryRun := bool_decide ("--dry-run" ∈ flags) in
    let files := entry_files out (args !! 0%nat) in
    if bool_decide (command = "plan") then
      p ← plan npm (default "" (args !! 0%nat)) (o_repo out) (o_env out); mret (DPlan p)
    else if bool_decide (command = "pack") then
      '(entry, tarball) ← liftN (pack (args !! 0%nat) (args !! 1%nat) (o_built out)); mret (DPacked entry tarball)
    else if bool_decide (command = "verify-tag") then
      _ ← liftN (verifyTag files (o_env out) (o_lookup out)); mret DVerified
    else if bool_decide (command = "publish") then
      _ ← publish npm files dryRun; mret DPublished
    else if bool_decide (command = "github-release") then githubRelease files dryRun (o_lookup out)
    else if bool_decide (command = "oidc-check") then
      failed ← oidcCheck (fl_npm_major files) (fl_npm_minor files) (o_token_url out) (bool_decide ("--dist-tag" ∈ flags));
      mret (DChecked failed)
    else liftN (fail "usage")
  end.
End commands.
