(* ===== verification/ReleaseScript.v ===== *)
(** * What the release script may do to npm

    The theorems about whole invocations of src/scripts/sdk-release.mjs, through
    [main]: [script_never_moves_back], and that what [pack] writes passes the checks
    of [publish].  [ToolsLaws] says what npm documents of the commands [Registry] does
    not cover. *)
From S2P Require Import Prelude Bytes Kit JsMap Ownership SemVer Release ReleaseProps ReleaseCommands.
Local Open Scope string_scope.
Local Open Scope Z_scope.

Class ToolsLaws {W} (npm : Npm W) `{R : !Registry npm} (tools : Tools W) := {
  rm_tags : ∀ w name tag w' code, t_dist_tag_rm tools w name tag = (w', code) →
    ∀ n t, map_get t (tags_of w' n)
           = if (code =? 0) && bool_decide (n = name) && bool_decide (t = tag) then None else map_get t (tags_of w n);
  (** [npm pack name@next] packs a version npm took *)
  pack_next_version : ∀ w name f v, t_pack_next tools w name = (0, Some (f, v)) → safe_text v = true;
  dry_tags : ∀ w name f w' x, t_publish_dry tools w name f = (w', x) → ∀ n, tags_of w' n = tags_of w n;
  create_tags : ∀ w tag pre w' code, t_release_create tools w tag pre = (w', code) → ∀ n, tags_of w' n = tags_of w n;
}.

(** The command lines that may change a dist-tag. *)
Definition touches (argv : list string) : bool :=
  match argv with
  | command :: rest =>
    (bool_decide (command = "publish") && negb (bool_decide ("--dry-run" ∈ rest)))
    || (bool_decide (command = "oidc-check") && bool_decide ("--dist-tag" ∈ rest))
  | [] => false
  end.

Section script.
Context {W : Type} (npm : Npm W) `{R : !Registry npm} (tools : Tools W) `{L : !ToolsLaws npm tools}.
#[local] Existing Instances N_ret N_bind.
#[local] Abbreviation N := (Release.N (W := W)).
#[local] Abbreviation tag_at := (tag_at npm).

(** ** Steps that leave tags alone *)
Definition keeps (P : string → string → Prop) {A} (m : N A) : Prop :=
  ∀ w n t, P n t → tag_at (m w).1 n t = tag_at w n t.

Lemma keeps_bind P {A B} (m : N A) (f : A → N B) : keeps P m → (∀ a, keeps P (f a)) → keeps P (m ≫= f).
Proof.
  intros Hm Hf w n t Ht. specialize (Hm w n t Ht). unfold mbind, N_bind. destruct (m w) as [w1 [a|e]]; [|done].
  cbn [fst] in Hm. rewrite <- Hm. by apply Hf.
Qed.

Lemma keeps_try P {A} (m : N A) (h : error → N A) : keeps P m → (∀ e, keeps P (h e)) → keeps P (tryN m h).
Proof.
  intros Hm Hh w n t Ht. specialize (Hm w n t Ht). unfold tryN. destruct (m w) as [w1 [a|e]]; [done|].
  cbn [fst] in Hm. rewrite <- Hm. by apply Hh.
Qed.

Lemma keeps_read P {A} (m : N A) : (∀ w, (m w).1 = w) → keeps P m.
Proof. intros H w n t _. by rewrite H. Qed.

(** A command on one tag leaves the others. *)
Lemma keeps_one P name tag {A} (m : N A) : ¬ P name tag →
  (∀ w, ∃ (c : bool) v, ∀ n t, tag_at (m w).1 n t
     = if c && bool_decide (n = name) && bool_decide (t = tag) then v else tag_at w n t) → keeps P m.
Proof.
  intros Hp Hm w n t Ht. destruct (Hm w) as (c & v & ->). destruct (decide (n = name)) as [->|Hn].
  - rewrite (bool_decide_eq_false_2 (t = tag)) by (by intros ->). by rewrite andb_false_r.
  - by rewrite (bool_decide_eq_false_2 (n = name)), andb_false_r.
Qed.

Lemma keeps_rm P name tag : ¬ P name tag → keeps P (dist_tag_rm tools name tag).
Proof.
  intros Hp. apply (keeps_one _ name tag); [done|]. intros w. unfold dist_tag_rm.
  destruct (t_dist_tag_rm tools w name tag) as [w' code] eqn:E. exists (code =? 0), None. intros n t. by apply (rm_tags _ _ _ _ _ E).
Qed.

Lemma keeps_add P name version tag : ¬ P name tag → keeps P (dist_tag_add npm name version tag).
Proof.
  intros Hp. apply (keeps_one _ name tag); [done|]. intros w. unfold dist_tag_add.
  destruct (npm_dist_tag_add npm w name version tag) as [w' code] eqn:E. exists (code =? 0), (Some version). intros n t.
  by apply (add_tags _ _ _ _ _ _ E).
Qed.

Lemma keeps_dry P name f : keeps P (publish_dry tools name f).
Proof.
  intros w n t _. unfold publish_dry. destruct (t_publish_dry tools w name f) as [w' x] eqn:E. cbn.
  unfold ReleaseProps.tag_at. by rewrite (dry_tags _ _ _ _ _ E).
Qed.

Lemma keeps_create P tag pre : keeps P (release_create tools tag pre).
Proof.
  intros w n t _. unfold release_create. destruct (t_release_create tools w tag pre) as [w' x] eqn:E. cbn.
  unfold ReleaseProps.tag_at. by rewrite (create_tags _ _ _ _ _ E).
Qed.

Ltac keep :=
  repeat first
    [ progress intros
    | apply keeps_bind
    | apply keeps_try
    | apply keeps_dry
    | apply keeps_create
    | by apply keeps_rm
    | by apply keeps_add
    | by apply keeps_read
    | match goal with |- keeps _ (match ?x with _ => _ end) => destruct x end ].

(** ** The commands one by one *)
Lemma plan_keeps P tag repo env : keeps P (plan npm tag repo env).
Proof. unfold plan. keep. Qed.

Lemma githubRelease_keeps P files dry lookup : keeps P (githubRelease npm tools files dry lookup).
Proof. unfold githubRelease. cbv zeta. keep. Qed.

Lemma check_package_keeps P distTag name : (distTag = true → ¬ P name SCRATCH_TAG) →
  keeps P (check_package npm tools distTag name).
Proof. intros Hp. unfold check_package. destruct distTag; cbn [negb]; [specialize (Hp eq_refl)|]; keep. Qed.

Lemma check_packages_keeps P distTag names : (distTag = true → ∀ name, name ∈ names → ¬ P name SCRATCH_TAG) →
  keeps P (check_packages npm tools distTag names).
Proof.
  intros Hp. induction names as [|name names IH]; [by apply keeps_read|]. cbn [check_packages].
  apply keeps_bind; [apply check_package_keeps; intros Hd; apply Hp; [done|left]|]. intros failed.
  apply keeps_bind; [|keep]. apply IH. intros Hd n Hn. apply Hp; [done|by right].
Qed.

Lemma oidcCheck_keeps P major minor url distTag : (distTag = true → ∀ name, ¬ P name SCRATCH_TAG) →
  keeps P (oidcCheck npm tools major minor url distTag).
Proof.
  intros Hp. unfold oidcCheck. do 2 (apply keeps_bind; [by apply keeps_read|]; intros _).
  apply check_packages_keeps. auto.
Qed.

Lemma wait_keeps P attempts name version : keeps P (wait_visible npm attempts name version).
Proof.
  induction attempts as [|n IH]; [by apply keeps_read|]. cbn [wait_visible]. apply keeps_bind; [by apply keeps_read|].
  intros [|]; [by apply keeps_read|]. destruct n as [|n]; [by apply keeps_read|]. apply keeps_bind; [|done].
  intros w m t _. unfold ReleaseProps.tag_at. cbn. by rewrite wait_tags.
Qed.

Lemma point_tags_dry_keeps P entry distTags tags : keeps P (point_tags npm entry true distTags tags).
Proof.
  induction tags as [|tag tags IH]; [by apply keeps_read|]. cbn [point_tags negb]. apply keeps_bind; [by apply keeps_read|].
  intros d. rewrite andb_false_r. apply keeps_bind; [by apply keeps_read|]. done.
Qed.

Lemma publish_dry_run_keeps P files : keeps P (publish npm files true).
Proof.
  assert (Hs : ∀ entry pkg here, keeps P (settle_tags npm entry pkg true here)).
  { intros entry pkg here. unfold settle_tags.
    apply keeps_bind; [destruct here; [apply wait_keeps|by apply keeps_read]|]. intros visible.
    do 4 (apply keeps_bind; [by apply keeps_read|]; intros ?). apply point_tags_dry_keeps. }
  unfold publish. apply keeps_bind; [by apply keeps_read|]. intros []. apply keeps_bind; [by apply keeps_read|]. intros [entry pkg].
  do 7 (apply keeps_bind; [by apply keeps_read|]; intros ?). case_match; [apply Hs|].
  do 2 (apply keeps_bind; [by apply keeps_read|]; intros ?). apply keeps_bind; [|intros x; keep].
  intros w n t _.
  destruct (npm_publish npm w _ _ _ true) as [w' x] eqn:E. unfold ReleaseProps.tag_at. cbn. by rewrite (publish_tags _ _ _ _ _ _ _ E).
Qed.

(** ** The scratch tag is at a SemVer version too *)
Definition guards {A} (m : N A) : Prop := ∀ w, Safe npm w → Safe npm (m w).1.

Lemma guards_keeps {A} (m : N A) : keeps (λ _ _, True) m → guards m.
Proof. intros H w Hs n t. rewrite H by done. apply Hs. Qed.

Lemma guards_bind {A B} (m : N A) (f : A → N B) : guards m → (∀ a, guards (f a)) → guards (m ≫= f).
Proof.
  intros Hm Hf w Hs. specialize (Hm w Hs). unfold mbind, N_bind. destruct (m w) as [w1 [a|e]]; [by apply Hf|done].
Qed.

Lemma guards_try {A} (m : N A) (h : error → N A) : guards m → (∀ e, guards (h e)) → guards (tryN m h).
Proof. intros Hm Hh w Hs. specialize (Hm w Hs). unfold tryN. destruct (m w) as [w1 [a|e]]; [done|by apply Hh]. Qed.

Lemma guards_rm name tag : guards (dist_tag_rm tools name tag).
Proof.
  intros w Hs n t. unfold dist_tag_rm. destruct (t_dist_tag_rm tools w name tag) as [w' code] eqn:E. cbn.
  unfold ReleaseProps.tag_at. rewrite (rm_tags _ _ _ _ _ E). case_match; [done|apply Hs].
Qed.

Lemma guards_add name version tag : safe_text version = true → guards (dist_tag_add npm name version tag).
Proof.
  intros Hv w Hs n t. unfold dist_tag_add. destruct (npm_dist_tag_add npm w name version tag) as [w' code] eqn:E. cbn.
  unfold ReleaseProps.tag_at. rewrite (add_tags _ _ _ _ _ _ E). case_match; [by intros s [= <-]|apply Hs].
Qed.

Lemma guards_permission name version : safe_text version = true → guards (checkDistTagPermission npm tools name version).
Proof.
  intros Hv. unfold checkDistTagPermission. apply guards_bind; [by apply guards_keeps, keeps_read|]. intros tags.
  apply guards_bind; [case_match; [apply guards_rm|by apply guards_keeps, keeps_read]|]. intros [].
  apply guards_bind; [by apply guards_add|]. intros []. apply guards_try; [apply guards_rm|].
  intros e. by apply guards_keeps, keeps_read.
Qed.

Lemma pack_next_reads name w : ∃ r, pack_next tools name w = (w, r) ∧
  ∀ f v, r = Ok (f, v) → safe_text v = true.
Proof.
  eexists. split; [reflexivity|]. intros f v H. destruct (t_pack_next tools w name) as [code o] eqn:E.
  destruct code; [|done..]. destruct o as [[f' v']|]; [|done]. case_bool_decide; [done|]. injection H as -> ->.
  by apply (pack_next_version w name f).
Qed.

Lemma guards_check_package distTag name : guards (check_package npm tools distTag name).
Proof.
  intros w Hs. unfold check_package. unfold mbind at 1, N_bind at 1.
  destruct (pack_next_reads name w) as (r & -> & Hr). destruct r as [[f v]|]; [|done].
  specialize (Hr f v eq_refl). revert w Hs. apply guards_bind; [apply guards_keeps, keeps_dry|]. intros x.
  assert (Hret : ∀ A (a : A), guards (mret a)) by (intros; by apply guards_keeps, keeps_read).
  case_match; [apply Hret|]. apply guards_bind; [by apply guards_keeps, keeps_read|]. intros e.
  case_match; [apply Hret|]. case_match; [apply Hret|]. apply guards_try; [|intros _; apply Hret].
  apply guards_bind; [by apply guards_permission|intros []; apply Hret].
Qed.

Lemma guards_oidc major minor url distTag : guards (oidcCheck npm tools major minor url distTag).
Proof.
  unfold oidcCheck. apply guards_bind; [by apply guards_keeps, keeps_read|]. intros _.
  apply guards_bind; [by apply guards_keeps, keeps_read|]. intros _.
  induction ((λ p, pk_name p.2) <$> PACKAGES) as [|name names IH]; [by apply guards_keeps, keeps_read|]. cbn [check_packages].
  apply guards_bind; [apply guards_check_package|]. intros failed. apply guards_bind; [done|]. intros rest.
  by apply guards_keeps, keeps_read.
Qed.

(** ** A clean check leaves no scratch tag *)
Lemma permission_cleans name version w w' : checkDistTagPermission npm tools name version w = (w', Ok ()) →
  tag_at w' name SCRATCH_TAG = None.
Proof.
  unfold checkDistTagPermission. intros (w1 & tags & _ & (w2 & [] & _ & (w3 & [] & _ & H)%bind_returns)%bind_returns)%bind_returns.
  unfold tryN, dist_tag_rm in H. destruct (t_dist_tag_rm tools w3 name SCRATCH_TAG) as [w4 code] eqn:E.
  destruct (exec code) as [[]|] eqn:Ex; [|done]. injection H as ->. apply throw_if_ok, negb_false_iff in Ex.
  unfold ReleaseProps.tag_at. by rewrite (rm_tags _ _ _ _ _ E), Ex, !bool_decide_eq_true_2.
Qed.

Lemma try_returns {A} (m : N A) (h : error → N A) w w' a : tryN m h w = (w', Ok a) →
  m w = (w', Ok a) ∨ ∃ w1 e, m w = (w1, Throw e) ∧ h e w1 = (w', Ok a).
Proof. unfold tryN. destruct (m w) as [w1 [b|e]]; [by left|]. intros H. right. by exists w1, e. Qed.

Lemma check_package_cleans name w w' : check_package npm tools true name w = (w', Ok false) →
  tag_at w' name SCRATCH_TAG = None.
Proof.
  unfold check_package. intros (w1 & [f v] & _ & (w2 & x & _ & H)%bind_returns)%bind_returns.
  destruct (negb (dx_token x)); [done|]. apply bind_returns in H as (w3 & e & _ & H). destruct (negb e); [done|].
  cbn [negb] in H. apply try_returns in H as [H|(w4 & err & _ & H)]; [|done].
  apply bind_returns in H as (w5 & [] & E & [= <-]). by apply permission_cleans in E.
Qed.

Lemma check_packages_clean names w w' : NoDup names → check_packages npm tools true names w = (w', Ok []) →
  ∀ name, name ∈ names → tag_at w' name SCRATCH_TAG = None.
Proof.
  revert w. induction names as [|name names IH]; intros w Hn H n Hin; [by apply not_elem_of_nil in Hin|].
  apply NoDup_cons in Hn as [Hni Hn]. cbn [check_packages] in H.
  apply bind_returns in H as (w1 & failed & H1 & (w2 & rest & H2 & H)%bind_returns).
  destruct failed; [done|]. injection H as -> ->. apply elem_of_cons in Hin as [->|Hin]; [|by apply (IH w1)].
  pose proof (check_packages_keeps (λ n _, n ∉ names) true names) as K. specialize (K ltac:(auto) w1 name SCRATCH_TAG Hni).
  rewrite H2 in K. cbn [fst] in K. rewrite K. by eapply check_package_cleans.
Qed.

Lemma oidc_cleans major minor url w w' : oidcCheck npm tools major minor url true w = (w', Ok []) →
  ∀ key pkg, map_get key PACKAGES = Some pkg → tag_at w' (pk_name pkg) SCRATCH_TAG = None.
Proof.
  unfold oidcCheck. intros (w1 & [] & _ & (w2 & u & _ & H)%bind_returns)%bind_returns key pkg Hk.
  eapply check_packages_clean; [|exact H|].
  - vm_compute. repeat constructor; set_solver.
  - apply list_elem_of_fmap. exists (key, pkg). split; [done|by apply map_get_elem].
Qed.

(** ** An invocation *)
Definition outside_safe (out : Outside) : Prop := ∀ dir, run_safe (o_files out dir).

Lemma entry_files_safe out dir : outside_safe out → run_safe (entry_files out dir).
Proof. intros H. unfold entry_files. destruct (truthy dir); [apply H|done]. Qed.

Lemma flag_in f rest : is_flag f = true → f ∈ List.filter is_flag rest ↔ f ∈ rest.
Proof.
  intros Hf. rewrite !list_elem_of_In, filter_In. tauto.
Qed.

(** The next case of [main]'s switch. *)
Ltac command E :=
  match goal with |- context [if bool_decide (?c = ?s) then _ else _] =>
    destruct (decide (c = s)) as [E|E]; [rewrite (bool_decide_eq_true_2 _ E)|rewrite (bool_decide_eq_false_2 _ E)]
  end.

(** A command line that does not touch npm changes nothing. *)
Lemma quiet_keeps P argv out : touches argv = false → keeps P (main npm tools argv out).
Proof.
  intros Ht. destruct argv as [|c rest]; [by apply keeps_read|]. unfold main. cbv zeta.
  apply keeps_bind; [by apply keeps_read|]. intros [].
  command E1; [apply keeps_bind; [apply plan_keeps|intros p; by apply keeps_read]|].
  command E2; [keep|]. command E3; [keep|].
  unfold touches in Ht. apply orb_false_iff in Ht as [Hd Hs].
  command E4.
  { rewrite (bool_decide_eq_true_2 _ E4) in Hd. cbn [andb] in Hd. apply negb_false_iff, bool_decide_eq_true in Hd.
    rewrite bool_decide_eq_true_2 by (by apply flag_in). apply keeps_bind; [apply publish_dry_run_keeps|intros []; by apply keeps_read]. }
  command E5; [apply githubRelease_keeps|].
  command E6; [|by apply keeps_read]. rewrite (bool_decide_eq_true_2 _ E6) in Hs. cbn [andb] in Hs. apply bool_decide_eq_false in Hs.
  apply keeps_bind; [|intros f; by apply keeps_read]. apply oidcCheck_keeps. rewrite bool_decide_eq_true, flag_in by done. done.
Qed.

Definition Forward (w w' : W) : Prop := ∀ n t, t ≠ SCRATCH_TAG → advanced n t (tag_at w n t) (tag_at w' n t).

Lemma quiet_forward {A} (m : N A) w : keeps (λ _ _, True) m → Safe npm w → Safe npm (m w).1 ∧ Forward w (m w).1.
Proof. intros H Hs. split; [by apply guards_keeps|]. intros n t _. left. by apply H. Qed.

Lemma oidc_main_keeps rest out : keeps (λ _ t, t ≠ SCRATCH_TAG) (main npm tools ("oidc-check" :: rest) out).
Proof.
  unfold main. cbv zeta. apply keeps_bind; [by apply keeps_read|]. intros [].
  apply keeps_bind; [apply oidcCheck_keeps; intros _ n; tauto|]. intros f. by apply keeps_read.
Qed.

Lemma main_forward argv out w : Fresh npm → outside_safe out → Safe npm w →
  Safe npm (main npm tools argv out w).1 ∧ Forward w (main npm tools argv out w).1.
Proof.
  intros Hfresh Ho Hs. destruct (touches argv) eqn:Ht; [|apply quiet_forward; [by apply quiet_keeps|done]].
  destruct argv as [|c rest]; [done|]. unfold touches in Ht. apply orb_true_iff in Ht as [Ht|Ht];
    apply andb_true_iff in Ht as [Hc Hf]; apply bool_decide_eq_true in Hc as ->.
  - assert (H : forward npm (main npm tools ("publish" :: rest) out)).
    { unfold main. cbv zeta. apply forward_bind; [by apply forward_read|]. intros [].
      apply forward_bind; [by apply publish_forward, entry_files_safe|]. intros []. by apply forward_read. }
    specialize (H w Hs). split; [by eapply Advanced_safe|]. intros n t _. apply H.
  - split; [|intros n t Hne; left].
    + revert w Hs. unfold main. cbv zeta. apply guards_bind; [by apply guards_keeps, keeps_read|]. intros [].
      apply guards_bind; [apply guards_oidc|]. intros f. by apply guards_keeps, keeps_read.
    + by apply oidc_main_keeps.
Qed.

(** ** Any sequence of invocations *)
Definition script (w : W) (runs : list (list string * Outside)) : W :=
  fold_left (λ w r, (main npm tools r.1 r.2 w).1) runs w.

(** Whatever the views show. *)
Lemma main_justified argv out w n t : ShowsVersions npm → outside_safe out → t ≠ SCRATCH_TAG →
  justified npm w (main npm tools argv out w).1 n t.
Proof.
  intros Hsv Ho Hne. destruct (touches argv) eqn:Ht; [|left; by apply (quiet_keeps (λ _ _, True))].
  destruct argv as [|c rest]; [done|]. unfold touches in Ht. apply orb_true_iff in Ht as [Ht|Ht];
    apply andb_true_iff in Ht as [Hc Hf]; apply bool_decide_eq_true in Hc as ->; [|left; by apply oidc_main_keeps].
  assert (H : justifies npm (main npm tools ("publish" :: rest) out)); [|apply H].
  unfold main. cbv zeta. apply justifies_bind; [by apply justifies_read|]. intros [].
  apply justifies_bind; [by apply publish_justified, entry_files_safe|]. intros []. by apply justifies_read.
Qed.

Lemma script_fixed runs w n t : ShowsVersions npm → Forall outside_safe runs.*2 → t ≠ SCRATCH_TAG → ¬ movable n t →
  tag_at (script w runs) n t = tag_at w n t.
Proof.
  intros Hsv Hr Hne Hm. revert w Hr. induction runs as [|[argv out] runs IH]; intros w Hr; [done|].
  rewrite fmap_cons, Forall_cons in Hr. destruct Hr as [Ho Hr].
  change (script w ((argv, out) :: runs)) with (script (main npm tools argv out w).1 runs). rewrite IH by done.
  by destruct (main_justified argv out w n t Hsv Ho Hne) as [H|(w1 & tags & _ & _ & _ & Hmv & _)].
Qed.

Lemma script_forward runs w : Fresh npm → Safe npm w → Forall outside_safe runs.*2 → Safe npm (script w runs) ∧ Forward w (script w runs).
Proof.
  intros Hfresh. revert w. induction runs as [|[argv out] runs IH]; intros w Hs Hr; [split; [done|by left]|].
  rewrite fmap_cons, Forall_cons in Hr. destruct Hr as [Ho Hr]. destruct (main_forward argv out w Hfresh Ho Hs) as [Hs1 H1].
  destruct (IH (main npm tools argv out w).1 Hs1 Hr) as [Hs2 H2]. split; [exact Hs2|]. intros n t Hne.
  eapply advanced_trans; [apply Hs|apply Hs1|by apply H1|by apply H2].
Qed.

Lemma githubRelease_done files dry lookup w w' d : githubRelease npm tools files dry lookup w = (w', Ok d) →
  d ≠ DPublished ∧ ∀ failed, d ≠ DChecked failed.
Proof.
  unfold githubRelease. intros (w1 & [e p] & _ & (w2 & there & _ & H)%bind_returns)%bind_returns.
  destruct there; [by injection H as _ <-| |done]. apply bind_returns in H as (w3 & remote & _ & H).
  destruct remote as [[sha message]|]; [|done]. apply bind_returns in H as (w4 & tags & _ & H).
  apply bind_returns in H as (w5 & pr & _ & H). apply bind_returns in H as (w6 & pre & _ & H).
  destruct dry; [by injection H as _ <-|]. by apply bind_returns in H as (w7 & [] & _ & [= _ <-]).
Qed.

Lemma main_publishes argv out w w' : Fresh npm → outside_safe out → Safe npm w → "--dry-run" ∉ argv →
  main npm tools argv out w = (w', Ok DPublished) →
  ∃ dir e v, fl_entry (o_files out dir) = Ok e ∧ tag_at w' (e_name e) PUBLISH_TAG = Some v ∧ version_le (e_version e) v.
Proof.
  intros Hfresh Ho Hs Hd. destruct argv as [|c rest]; [done|]. unfold main. cbv zeta.
  intros (w1 & [] & [= -> _] & H)%bind_returns. revert H.
  command E1; [by intros (? & ? & _ & [=])%bind_returns|].
  command E2; [by intros (? & [] & _ & [=])%bind_returns|].
  command E3; [by intros (? & [] & _ & [=])%bind_returns|].
  command E4.
  - rewrite bool_decide_eq_false_2 by (rewrite flag_in by done; set_solver).
    intros (w2 & [] & H & [= <-])%bind_returns.
    destruct (publish_reaches npm Hfresh _ _ _ Hs (entry_files_safe _ _ Ho) H) as (e & v & He & Hv).
    unfold entry_files in He. destruct (truthy _) as [dir|]; [|done]. by exists dir, e, v.
  - command E5.
    + intros [H _]%githubRelease_done. by destruct H.
    + command E6; [by intros (? & ? & _ & [=])%bind_returns|done].
Qed.

Lemma main_checked argv out w w' : "--dist-tag" ∈ argv → main npm tools argv out w = (w', Ok (DChecked [])) →
  ∀ key pkg, map_get key PACKAGES = Some pkg → tag_at w' (pk_name pkg) SCRATCH_TAG = None.
Proof.
  intros Hd. destruct argv as [|c rest]; [done|]. unfold main. cbv zeta.
  intros (w1 & [] & [= -> _] & H)%bind_returns. revert H.
  command E1; [by intros (? & ? & _ & [=])%bind_returns|].
  command E2; [by intros (? & [] & _ & [=])%bind_returns|].
  command E3; [by intros (? & [] & _ & [=])%bind_returns|].
  command E4; [by intros (? & [] & _ & [=])%bind_returns|].
  command E5; [intros [_ H]%githubRelease_done; by destruct (H [])|]. command E6; [|done].
  rewrite (bool_decide_eq_true_2 ("--dist-tag" ∈ _)).
  - intros (w2 & failed & H & [= -> ->])%bind_returns. by eapply oidc_cleans.
  - apply flag_in; [done|]. apply elem_of_cons in Hd as [Hc|Hd]; [|done]. by rewrite E6 in Hc.
Qed.

(** C36.  The release script never takes a user back on what npm shows it.  The
    registry is one that only these invocations change, and its views show SemVer
    versions, current or not.  Over any sequence of invocations of any of the commands,
    with any arguments, failed or not, sdk-legacy's [latest] does not move.  Of any one
    invocation after that: every dist-tag but the scratch tag of [oidc-check] stays, or
    moves to a version no lower than the one a view made during the invocation showed
    it at, [latest] neither to a new major nor from a stable version to a pre-release of
    the version shown; one that is neither a [publish] without [--dry-run] nor an
    [oidc-check --dist-tag] changes no dist-tag; and an [oidc-check --dist-tag] that
    finds nothing wrong leaves no scratch tag.  When the views are current ([Fresh]),
    which npm does not promise, no dist-tag but the scratch tag ends lower than it
    began, nor [latest] on a new major or moved from a stable version to a pre-release,
    over the whole sequence, and a [publish] that returns leaves [next] at its version
    or ahead of it. *)
Theorem script_never_moves_back (runs : list (list string * Outside)) (w : W) :
  ShowsVersions npm → Safe npm w → Forall outside_safe runs.*2 →
  tag_at (script w runs) "@lazorkit/sdk-legacy" "latest" = tag_at w "@lazorkit/sdk-legacy" "latest"
  ∧ (∀ argv out w' r, outside_safe out → main npm tools argv out (script w runs) = (w', r) →
      (∀ name tag, tag ≠ SCRATCH_TAG →
         tag_at w' name tag = tag_at (script w runs) name tag
         ∨ ∃ w1 tags, later npm (script w runs) w1 ∧ later npm w1 w' ∧ shown npm w1 name = Some tags
             ∧ moved name tag (map_get tag tags) (tag_at w' name tag))
      ∧ (touches argv = false → ∀ name tag, tag_at w' name tag = tag_at (script w runs) name tag)
      ∧ (r = Ok (DChecked []) → "--dist-tag" ∈ argv →
           ∀ key pkg, map_get key PACKAGES = Some pkg → tag_at w' (pk_name pkg) SCRATCH_TAG = None))
  ∧ (Fresh npm →
      (∀ name tag, tag ≠ SCRATCH_TAG → advanced name tag (tag_at w name tag) (tag_at (script w runs) name tag))
      ∧ ∀ argv out w', outside_safe out → main npm tools argv out (script w runs) = (w', Ok DPublished) →
          "--dry-run" ∉ argv →
          ∃ dir e v, fl_entry (o_files out dir) = Ok e ∧ tag_at w' (e_name e) PUBLISH_TAG = Some v ∧ version_le (e_version e) v).
Proof.
  intros Hsv Hs Hr. split_and!.
  - apply script_fixed; [done|done|done|apply legacy_latest_fixed].
  - intros argv out w' r Ho H. split_and!.
    + intros name tag Hne. pose proof (main_justified argv out (script w runs) name tag Hsv Ho Hne) as J. by rewrite H in J.
    + intros Hq name tag. pose proof (quiet_keeps (λ _ _, True) argv out Hq (script w runs) name tag I) as K. by rewrite H in K.
    + intros -> Hd. by apply (main_checked argv out (script w runs)).
  - intros Hfresh. destruct (script_forward runs w Hfresh Hs Hr) as [Hs1 Hf]. split; [exact Hf|].
    intros argv out w' Ho H Hd. by apply (main_publishes argv out (script w runs)).
Qed.
End script.

(** ** From pack to publish *)

(** What [pack] writes passes the checks [publish] makes of it before it asks npm, as
    long as the version is SemVer, which [plan] has checked. *)
Theorem packed_is_publishable (key outDir : option string) (built : Built) (e : Entry) (tarball : string) :
  pack key outDir built = Ok (e, tarball) → is_ok (parseVersion (e_version e)) = true →
  ∃ pkg json inside, map_get (e_package e) PACKAGES = Some pkg
    ∧ bd_package_json built (pk_dir pkg) = Ok json ∧ bd_tarball built tarball = Ok inside
    ∧ bd_sha512 built tarball = Ok (e_integrity e)
    ∧ expectSame json (e_name e) (e_version e) = Ok () ∧ expectSame inside (e_name e) (e_version e) = Ok ()
    ∧ (∀ files, fl_entry files = Ok e → readEntry files = Ok (e, pkg))
    ∧ ∀ file, file ∈ REQUIRED → file ∈ bd_listing built tarball.
Proof.
  unfold pack. intros (k & _ & (d & _ & (pkg & Hk%of_option_ok & ([] & _ & H)%bind_inv)%bind_inv)%bind_inv)%bind_inv Hv.
  apply bind_inv in H as ([name version] & Hj & ([] & Hn & ([] & _ & ([] & _ & ([] & _ & H)%bind_inv)%bind_inv)%bind_inv)%bind_inv).
  apply bind_inv in H as (inside & Hi & ([] & Hsame & (l & Hl & (integrity & Hh & [= <- <-])%bind_inv)%bind_inv)%bind_inv).
  cbn [e_package e_name e_version e_integrity] in *. exists pkg, (name, version), inside.
  assert (Hname : name = pk_name pkg).
  { apply throw_if_ok, orb_false_iff in Hn as [Hn _]. by apply negb_false_iff, bool_decide_eq_true in Hn. }
  split_and!; try done.
  - unfold expectSame. cbn [fst snd]. by rewrite !bool_decide_eq_true_2.
  - intros files He. unfold readEntry, packageOf. rewrite He. cbn [e_package e_name e_version]. rewrite bind_ok.
    cbn [e_package]. rewrite Hk. cbn [of_option]. rewrite bind_ok. cbn [e_name]. rewrite bool_decide_eq_true_2 by done.
    cbn. by destruct (parseVersion version).
  - intros file Hf. clear - Hl Hf. revert l Hl. induction REQUIRED as [|f fs IH]; intros l Hl; [by apply not_elem_of_nil in Hf|].
    cbn [mapR] in Hl. apply bind_inv in Hl as (u & Hu & (us & Hus & _)%bind_inv). apply elem_of_cons in Hf as [->|Hf]; [|by eapply IH].
    unfold require_file in Hu. destruct u. by apply throw_if_ok, negb_false_iff, bool_decide_eq_true in Hu.
Qed.

(** ** Examples *)
Module ReleaseSample.
(** A registry: the published versions with their hash, and the dist-tags. *)
Record reg := mkReg { rg_published : list (string * string * string); rg_tags : list (string * list (string * string)) }.

Definition reg_tags (r : reg) (name : string) : list (string * string) := default [] (map_get name (rg_tags r)).
Definition set_tag (r : reg) (name tag version : string) : list (string * list (string * string)) :=
  map_set name (map_set tag version (reg_tags r name)) (rg_tags r).
Definition hash_of (r : reg) (name version : string) : option string :=
  snd <$> List.find (λ p, bool_decide (p.1 = (name, version))) (rg_published r).

Definition npm : Npm reg := mkNpm reg
  (λ r name version, match hash_of r name version with Some _ => ViewOk version | None => View404 end)
  (λ r name version, match hash_of r name version with Some h => ViewOk h | None => View404 end)
  (λ r name, ViewOk (List.filter (λ p, safe_text p.2) (reg_tags r name)))
  (λ r name version integrity dry,
     match hash_of r name version with
     | Some _ => (r, mkExit 1 true)
     | None => if (dry : bool) then (r, mkExit 0 false)
               else (mkReg ((name, version, integrity) :: rg_published r) (set_tag r name PUBLISH_TAG version), mkExit 0 false)
     end)
  (λ r name version tag, (mkReg (rg_published r) (set_tag r name tag version), 0))
  (λ r, r).

Lemma set_tag_get r ps name tag version n t :
  map_get t (reg_tags (mkReg ps (set_tag r name tag version)) n)
  = if bool_decide (n = name) && bool_decide (t = tag) then Some version else map_get t (reg_tags r n).
Proof.
  unfold reg_tags at 1, set_tag. cbn [rg_tags]. rewrite map_get_set. destruct (decide (n = name)) as [->|Hn].
  - rewrite bool_decide_eq_true_2 by done. cbn [andb]. simpl (default _ _). rewrite map_get_set. by destruct (decide (t = tag)) as [->|Ht];
      [rewrite bool_decide_eq_true_2 by done|rewrite bool_decide_eq_false_2 by done].
  - by rewrite bool_decide_eq_false_2.
Qed.

Definition tools : Tools reg := mkTools reg
  (λ r name tag, (mkReg (rg_published r) (map_set name (List.filter (λ p, negb (bool_decide (p.1 = tag))) (reg_tags r name)) (rg_tags r)), 0))
  (λ r name, match map_get PUBLISH_TAG (reg_tags r name) with
              | Some v => if safe_text v then (0, Some ("sdk.tgz", v)) else (1, None) | None => (1, None) end)
  (λ r name f, (r, mkDryExit 1 true true))
  (λ r name version, ViewOk true)
  (λ r tag, ReleaseNotFound)
  (λ r tag pre, (r, 0)).

#[global] Instance registry : Registry npm.
Proof.
  refine {| tags_of := reg_tags : reg → _ |}.
  - intros w name version integrity dry w' x. cbn [npm npm_publish].
    destruct (hash_of w name version); [intros [= <- <-] n t; cbn; by rewrite andb_false_r|].
    destruct dry; intros [= <- <-] n t; [done|]. cbn [negb andb x_code Z.eqb]. apply set_tag_get.
  - intros w name version tag w' code [= <- <-] n t. apply set_tag_get.
  - done.
Defined.

Definition start : reg := mkReg [("@lazorkit/sdk", "0.9.0", "h0")]
  [("@lazorkit/sdk", [("latest", "0.9.0"); ("next", "0.9.0")]);
   ("@lazorkit/sdk-legacy", [("latest", "0.3.4"); ("next", "1.0.0-rc.1")])].

Definition release (key name version : string) : Files :=
  mkFiles (Ok (mkEntry key name version "h")) (Ok (name, version)) (Ok (name, version)) (Ok "h") 11 21.

Lemma filter_get t tag (l : list (string * string)) :
  map_get t (List.filter (λ p, negb (bool_decide (p.1 = tag))) l) = if bool_decide (t = tag) then None else map_get t l.
Proof.
  induction l as [|[k v] l IH]; [by case_bool_decide|]. cbn [List.filter fst].
  destruct (decide (k = tag)) as [->|Hk]; [rewrite (bool_decide_eq_true_2 (tag = tag)) by done|rewrite (bool_decide_eq_false_2 (k = tag)) by done];
    cbn [negb map_get]; rewrite IH; repeat case_bool_decide; repeat case_match; naive_solver.
Qed.

#[global] Instance tools_laws : ToolsLaws npm tools.
Proof.
  split.
  - intros w name tag w' code [= <- <-] n t. cbn [Z.eqb andb]. unfold tags_of. cbn [registry]. unfold reg_tags at 1. cbn [rg_tags].
    rewrite map_get_set. destruct (decide (n = name)) as [->|Hn]; [|by rewrite (bool_decide_eq_false_2 (n = name))].
    rewrite bool_decide_eq_true_2 by done. cbn [andb]. simpl (default _ _). apply filter_get.
  - intros w name f v. cbn. destruct (map_get PUBLISH_TAG (reg_tags w name)) as [u|]; [|done].
    destruct (safe_text u) eqn:E; [|done]. by intros [= _ <-].
  - by intros w name f w' x [= <- _] n.
  - by intros w tag pre w' code [= <- _] n.
Qed.

Definition no_repo : Repo := mkRepo "" (λ _, None) 0 (λ _, fail "") (λ _, fail "").
Definition no_build : Built := mkBuilt true (λ _, fail "") 0 0 (λ _, false) (λ _, fail "") (λ _, []) (λ _, fail "").
Definition outside (key name version : string) : Outside :=
  mkOutside (λ _, release key name version) no_repo (mkEnv None None) (λ _, RefMissing) no_build (Some "url").

(** A patch, a new major, a version lower than it that is refused, a dry run, a check
    of the publishers, and sdk-legacy. *)
Definition runs : list (list string * Outside) :=
  [(["publish"; "dir"], outside "sdk-kit" "@lazorkit/sdk" "0.9.1");
   (["publish"; "dir"], outside "sdk-kit" "@lazorkit/sdk" "1.0.0");
   (["publish"; "dir"], outside "sdk-kit" "@lazorkit/sdk" "0.9.2");
   (["publish"; "dir"; "--dry-run"], outside "sdk-kit" "@lazorkit/sdk" "1.1.0");
   (["oidc-check"; "--dist-tag"], outside "sdk-kit" "@lazorkit/sdk" "1.0.0");
   (["publish"; "dir"], outside "sdk-legacy" "@lazorkit/sdk-legacy" "1.0.0")].

Lemma start_safe : Safe npm start.
Proof.
  intros n t s H. apply map_get_elem in H. unfold tags_of in H. cbn [registry] in H. unfold reg_tags in H.
  destruct (map_get n (rg_tags start)) as [l|] eqn:E; [|by apply not_elem_of_nil in H].
  apply map_get_elem in E. cbn [rg_tags start] in E. rewrite !elem_of_cons, elem_of_nil in E.
  destruct E as [[= _ ->]|[[= _ ->]|[]]]; simpl (default _ _) in H; rewrite !elem_of_cons, elem_of_nil in H;
    destruct H as [[= _ ->]|[[= _ ->]|[]]]; vm_compute; reflexivity.
Qed.

Lemma filter_shows t (l : list (string * string)) : safe_tag (map_get t (List.filter (λ p, safe_text p.2) l)).
Proof.
  induction l as [|[k v] l IH]; [done|]. cbn [List.filter snd]. destruct (safe_text v) eqn:E; [|done].
  cbn [map_get]. case_match; [by intros s [= <-]|done].
Qed.

Lemma filter_safe_get t (l : list (string * string)) : safe_tag (map_get t l) →
  map_get t (List.filter (λ p, safe_text p.2) l) = map_get t l.
Proof.
  induction l as [|[k v] l IH]; [done|]. cbn [List.filter snd map_get]. intros H.
  destruct (safe_text v) eqn:E; cbn [map_get]; case_match; auto. by rewrite (H _ eq_refl) in E.
Qed.

Lemma shows_versions : ShowsVersions npm.
Proof. intros w name tags [= <-] t. apply filter_shows. Qed.

Lemma fresh : Fresh npm.
Proof. intros w name tags Hs [= <-] t. apply filter_safe_get, (Hs name t). Qed.

(** Views of the dist-tags that lag behind: they show what [start] shows. *)
Definition lagging (start : reg) : Npm reg := mkNpm reg (npm_view_version npm) (npm_view_integrity npm)
  (λ _ name, npm_view_tags npm start name) (npm_publish npm) (npm_dist_tag_add npm) (npm_wait npm).

Lemma runs_safe : Forall outside_safe runs.*2.
Proof. repeat constructor; intros dir e [= <-]; vm_compute; reflexivity. Qed.
End ReleaseSample.

Lemma script_never_moves_back_witness :
  let w := script ReleaseSample.npm ReleaseSample.tools ReleaseSample.start ReleaseSample.runs in
  tag_at ReleaseSample.npm w "@lazorkit/sdk" "next" = Some "1.0.0"
  ∧ tag_at ReleaseSample.npm w "@lazorkit/sdk" "latest" = Some "0.9.1"
  ∧ tag_at ReleaseSample.npm w "@lazorkit/sdk" "oidc-check" = None
  ∧ tag_at ReleaseSample.npm w "@lazorkit/sdk-legacy" "next" = Some "1.0.0"
  ∧ tag_at ReleaseSample.npm w "@lazorkit/sdk-legacy" "latest" = Some "0.3.4"
  ∧ advanced "@lazorkit/sdk" "next" (tag_at ReleaseSample.npm ReleaseSample.start "@lazorkit/sdk" "next")
      (tag_at ReleaseSample.npm w "@lazorkit/sdk" "next").
Proof.
  cbv zeta. destruct (script_never_moves_back ReleaseSample.npm ReleaseSample.tools ReleaseSample.runs ReleaseSample.start
    ReleaseSample.shows_versions ReleaseSample.start_safe ReleaseSample.runs_safe) as (H & _ & Hf).
  split_and!; [vm_compute; reflexivity..| |].
  - rewrite H. reflexivity.
  - exact (proj1 (Hf ReleaseSample.fresh) "@lazorkit/sdk" "next" ltac:(discriminate)).
Defined.

(** With views that lag, a lower version published after a higher one takes [next] back:
    both runs are shown the tags of before the first. *)
Example stale_views_take_next_back :
  let npm := ReleaseSample.lagging ReleaseSample.start in
  let runs := [(["publish"; "dir"], ReleaseSample.outside "sdk-kit" "@lazorkit/sdk" "0.9.5");
               (["publish"; "dir"], ReleaseSample.outside "sdk-kit" "@lazorkit/sdk" "0.9.1")] in
  map_get "next" (ReleaseSample.reg_tags (script npm ReleaseSample.tools ReleaseSample.start (take 1 runs)) "@lazorkit/sdk")
    = Some "0.9.5"
  ∧ map_get "next" (ReleaseSample.reg_tags (script npm ReleaseSample.tools ReleaseSample.start runs) "@lazorkit/sdk")
    = Some "0.9.1".
Proof. split; vm_compute; reflexivity. Qed.
