(* ===== verification/Survey.v ===== *)
(** * The v1 surveys

    Models the three read-only scripts run before the upgrade,
    src/scripts/survey-v1.ts, src/scripts/survey-v1-rent.ts and
    src/scripts/survey-v1-wallets.ts: what they read, retry and add up.  The node's
    answers are a parameter, numbered by call, so that it may refuse some.  Sums of
    lamports are sums of doubles.  The printed tables are left out.  The theorems follow:
    on a node that answers from one state of the chain the three scripts return, account
    for every account, lamport and token once, and agree with each other.  Grouping by a
    key is treated once, for every map the scripts build. *)
From S2P Require Import Prelude Bytes Kit JsMap Ownership LegacyWeb3.
Local Open Scope string_scope.
Local Open Scope list_scope.
Local Open Scope Z_scope.

(** [a + b] on numbers that are integers. *)
Definition num_add (a b : Z) : Z := number_of_bigint (a + b).

Section survey.
Context `{K : Kit} {W : Web3Pda}.

(** ** The node *)
Record OwnedAccount := mkOwned { oa_pubkey : address; oa_data : bytes; oa_lamports : Z }.

(** A parsed token account; its amount is the number its decimal text denotes. *)
Record HeldToken := mkHeld {
  ht_mint : string;
  ht_amount : Z;
  ht_uiAmountString : option string;
  ht_decimals : Z;
  ht_lamports : Z;
}.

(** The [n]-th call's answer.  [sn_signatures] gives the block time of the newest
    signature, if there is one and it has a time. *)
Record SurveyNode := mkSurveyNode {
  sn_executable : nat → address → outcome string bool;
  sn_programAccounts : nat → address → outcome string (list OwnedAccount);
  sn_multipleAccounts : nat → list address → outcome string (list (option Z));
  sn_tokenAccounts : nat → address → string → outcome string (list HeldToken);
  sn_signatures : nat → address → outcome string (option Z);
}.

(** The calls made and the time slept, in milliseconds. *)
Record SurveyState := mkSurveyState { pg_calls : nat; pg_slept : Z }.
Definition Q (A : Type) : Type := SurveyState → SurveyState * outcome string A.
#[export] Instance Q_ret : MRet Q := λ A a s, (s, Ok a).
#[export] Instance Q_bind : MBind Q := λ A B f m s,
  match m s with (s, Ok a) => f a s | (s, Throw e) => (s, Throw e) end.

Definition query {A} (f : nat → outcome string A) : Q A := λ s,
  (mkSurveyState (S (pg_calls s)) (pg_slept s), f (pg_calls s)).
Definition pause (ms : Z) : Q unit := λ s, (mkSurveyState (pg_calls s) (pg_slept s + ms), Ok ()).
Definition give_back {A} (r : outcome string A) : Q A := λ s, (s, r).

(** [for (const x of xs) acc = body(acc, x)]. *)
Fixpoint for_of {A B} (body : B → A → Q B) (xs : list A) (acc : B) : Q B :=
  match xs with
  | [] => mret acc
  | x :: xs => acc ← body acc x; for_of body xs acc
  end.

(** [for (let i = 0; i < l.length; i += n) ... l.slice(i, i + n)]; every turn takes an
    element when [n] is not zero. *)
Fixpoint batches {A} (fuel n : nat) (l : list A) : list (list A) :=
  match fuel, l with
  | S fuel, _ :: _ => take n l :: batches fuel n (drop n l)
  | _, _ => []
  end.
Definition by_hundred {A} (l : list A) : list (list A) := batches (length l) 100 l.

(** ** Clusters and arguments *)
Record SurveyCluster := mkSurveyCluster { sc_programId : string; sc_rpc : string }.
Definition CLUSTERS : list (string * SurveyCluster) :=
  [("mainnet", mkSurveyCluster "LazorjRFNavitUaBu5m3WaNPjU1maipvSW2rZfAFAKi" "https://api.mainnet-beta.solana.com");
   ("devnet", mkSurveyCluster "4h3XoNReAgEcHVxcZ8sw2aufi9MTr7BbvYYjzjWDyDxS" "https://api.devnet.solana.com")].

(** [argv[argv.indexOf(name) + 1]] when [argv] includes [name]. *)
Fixpoint after_flag (name : string) (argv : list string) : option (option string) :=
  match argv with
  | [] => None
  | a :: rest => if String.eqb a name then Some (head rest) else after_flag name rest
  end.
Definition has_flag (name : string) (argv : list string) : bool := existsb (String.eqb name) argv.

(** v1 discriminators. *)
Definition DISC_NAMES (disc : Z) : option string :=
  map_get disc [(1, "Wallet"); (2, "Authority"); (3, "Session"); (4, "DeferredExec"); (5, "ProtocolConfig");
                (6, "FeeRecord"); (7, "TreasuryShard")].

(** [account.data[0]]: [undefined] of an empty account. *)
Definition discriminator_of (a : OwnedAccount) : option Z := val <$> head (oa_data a).
Definition type_name (a : OwnedAccount) : option string := discriminator_of a ≫= DISC_NAMES.

Definition vault_of (programId wallet : address) : outcome string address :=
  match findProgramAddressSync [utf8 "vault"; address_encode wallet] programId with
  | Some (v, _) => Ok v
  | None => Throw "Unable to find a viable program address nonce"
  end.

Definition TOKEN_PROGRAMS : list string :=
  ["TokenkegQfeZyiNwAJbNbGKPFXCWuBvf9Ss623VQ5DA"; "TokenzQdBNbLqP5VEhdkAS6EPFLC1PHnBqCXEpPxuEb"].

Variable node : SurveyNode.

(** ** survey-v1-rent.ts *)

(** [withRetry]: five tries, and a pause after every one that fails. *)
Fixpoint withRetry_loop {A} (tries i : nat) (f : nat → outcome string A) : Q A := λ s,
  match tries with
  | O => (s, Throw "failed after 5 tries")
  | S tries =>
    match query f s with
    | (s, Ok a) => (s, Ok a)
    | (s, Throw _) => (pause (400 * 2 ^ Z.of_nat i) ≫= λ _, withRetry_loop tries (S i) f) s
    end
  end.
Definition withRetry {A} (f : nat → outcome string A) : Q A := withRetry_loop 5 0 f.

(** Whether the instruction that closes a type survives the upgrade; the wording of
    [how] is left out. *)
Definition survivesUpgrade (type : string) : bool := String.eqb type "Wallet" || String.eqb type "Authority".

Record TypeRow := mkTypeRow { tr_type : string; tr_count : Z; tr_bytes : Z; tr_lamports : Z; tr_survivesUpgrade : bool }.
Record TokenRow := mkTokenRow { kr_mint : string; kr_accounts : Z; kr_amount : Z; kr_lamports : Z }.

Record Tally := mkTally {
  tl_byType : list (string * TypeRow);
  tl_wallets : list address;
  tl_unknown : Z;
  tl_unknownLamports : Z;
}.

Definition tally_account (t : Tally) (a : OwnedAccount) : Tally :=
  match type_name a with
  | None => mkTally (tl_byType t) (tl_wallets t) (tl_unknown t + 1) (num_add (tl_unknownLamports t) (oa_lamports a))
  | Some name =>
    let row := default (mkTypeRow name 0 0 0 (survivesUpgrade name)) (map_get name (tl_byType t)) in
    let row := mkTypeRow (tr_type row) (tr_count row + 1) (tr_bytes row + Z.of_nat (length (oa_data a)))
                 (num_add (tr_lamports row) (oa_lamports a)) (tr_survivesUpgrade row) in
    mkTally (map_set name row (tl_byType t))
      (if String.eqb name "Wallet" then tl_wallets t ++ [oa_pubkey a] else tl_wallets t)
      (tl_unknown t) (tl_unknownLamports t)
  end.

(** The SOL in the vaults: the sum, and how many hold any. *)
Definition add_balance (acc : Z * Z) (info : option Z) : Z * Z :=
  let lamports := default 0 info in
  if 0 <? lamports then (num_add (fst acc) lamports, snd acc + 1) else acc.

Record TokenTally := mkTokenTally {
  kt_tokens : list (string * TokenRow);
  kt_vaultsWithTokens : Z;
  kt_lamports : Z;
  kt_accounts : Z;
}.

Definition tally_token (t : TokenTally) (h : HeldToken) : TokenTally :=
  let row := default (mkTokenRow (ht_mint h) 0 0 0) (map_get (ht_mint h) (kt_tokens t)) in
  let row := mkTokenRow (kr_mint row) (kr_accounts row + 1) (kr_amount row + ht_amount h) (num_add (kr_lamports row) (ht_lamports h)) in
  mkTokenTally (map_set (ht_mint h) row (kt_tokens t)) (kt_vaultsWithTokens t)
    (num_add (kt_lamports t) (ht_lamports h)) (kt_accounts t + 1).

Definition tally_vault (t : TokenTally) (vault : address) : Q TokenTally :=
  '(t, found) ← for_of (λ acc program,
      res ← withRetry (λ n, sn_tokenAccounts node n vault program);
      _ ← pause 120;
      mret (fold_left tally_token res (fst acc), snd acc || (0 <? length res)%nat)) TOKEN_PROGRAMS (t, false);
  mret (if (found : bool) then mkTokenTally (kt_tokens t) (kt_vaultsWithTokens t + 1) (kt_lamports t) (kt_accounts t) else t).

Record RentReport := mkRent {
  rr_accounts : Z;
  rr_unknown : Z;
  rr_unknownLamports : Z;
  rr_rows : list TypeRow;
  rr_wallets : Z;
  rr_fundedVaults : Z;
  rr_vaultLamports : Z;
  rr_vaultsWithTokens : Z;
  rr_tokenAccounts : Z;
  rr_tokenAccountLamports : Z;
  rr_tokens : list TokenRow;
  rr_reclaimable : Z;
  rr_strandedIfNotClosedFirst : Z;
}.

(** [rows.reduce((n, r) => n + r.lamports, 0)]. *)
Definition sum_numbers (l : list Z) : Z := fold_left num_add l 0.

Definition rent_report (all : list OwnedAccount) (tally : Tally) (vaults : Z * Z) (tokens : TokenTally) : RentReport :=
  let rows := js_sort (λ a b, tr_lamports b - tr_lamports a) (tl_byType tally).*2 in
  mkRent (Z.of_nat (length all)) (tl_unknown tally) (tl_unknownLamports tally) rows (Z.of_nat (length (tl_wallets tally)))
    (snd vaults) (fst vaults) (kt_vaultsWithTokens tokens) (kt_accounts tokens) (kt_lamports tokens)
    (js_sort (λ a b, kr_accounts b - kr_accounts a) (kt_tokens tokens).*2)
    (sum_numbers (tr_lamports <$> List.filter tr_survivesUpgrade rows))
    (sum_numbers (tr_lamports <$> List.filter (λ r, negb (tr_survivesUpgrade r)) rows)).

Definition survey (programId : address) : Q RentReport :=
  accounts ← withRetry (λ n, sn_programAccounts node n programId);
  let tally := fold_left tally_account accounts (mkTally [] [] 0 0) in
  vaults ← give_back (mapM (vault_of programId) (tl_wallets tally));
  balances ← for_of (λ acc batch,
      infos ← withRetry (λ n, sn_multipleAccounts node n batch);
      mret (fold_left add_balance infos acc)) (by_hundred vaults) (0, 0);
  tokens ← for_of tally_vault vaults (mkTokenTally [] 0 0 0);
  mret (rent_report accounts tally balances tokens).

(** Whether the ledger asks for accounts to be closed before the upgrade. *)
Definition upgrade_order (r : RentReport) : bool := 0 <? rr_strandedIfNotClosedFirst r.

(** ** survey-v1-wallets.ts *)

(** [retry]: six tries, and a pause that doubles between them. *)
Fixpoint retry_loop {A} (more : nat) (wait : Z) (f : nat → outcome string A) : Q A := λ s,
  match query f s with
  | (s, Ok a) => (s, Ok a)
  | (s, Throw e) =>
    match more with
    | O => (s, Throw e)
    | S more => (pause wait ≫= λ _, retry_loop more (wait * 2) f) s
    end
  end.
Definition retry {A} (f : nat → outcome string A) : Q A := retry_loop 5 400 f.

Inductive KeyKind := KEd25519 | KPasskey | KUnknown (type : Z).
Definition AUTH_TYPE (type : Z) : KeyKind := if type =? 0 then KEd25519 else if type =? 1 then KPasskey else KUnknown type.
Inductive RankName := ROwner | RAdmin | RSpender | RUnknown (role : Z).
Definition RANK (role : Z) : RankName :=
  if role =? 0 then ROwner else if role =? 1 then RAdmin else if role =? 2 then RSpender else RUnknown role.

Record AuthorityRow := mkAuthorityRow { ar_pda : address; ar_type : KeyKind; ar_rank : RankName; ar_counter : Z; ar_key : bytes }.
Record TokenHeld := mkTokenHeld { th_mint : string; th_amount : Z + string; th_decimals : Z; th_program : string }.

(** [lastActivity] is the day, counted from 1970. *)
Record WalletRow := mkWalletRow {
  wr_wallet : address;
  wr_vault : address;
  wr_lamports : Z;
  wr_tokens : list TokenHeld;
  wr_authorities : list AuthorityRow;
  wr_sessions : Z;
  wr_lastActivity : option Z;
}.

Definition byte_or (b : bytes) (i : nat) : Z := val (b !!! i).

(** The accounts by kind: wallets, authorities, and sessions of each wallet, keyed by
    the bytes of its address. *)
Definition sort_account (acc : list address * list OwnedAccount * list (bytes * Z)) (a : OwnedAccount) :
    list address * list OwnedAccount * list (bytes * Z) :=
  let '(wallets, authorities, sessions) := acc in
  let d := oa_data a in
  if bool_decide (discriminator_of a = Some 1) then (wallets ++ [oa_pubkey a], authorities, sessions)
  else if bool_decide (discriminator_of a = Some 2) then (wallets, authorities ++ [a], sessions)
  else if bool_decide (discriminator_of a = Some 3) && (40 <=? length d)%nat then
    let w := slice 8 40 d in (wallets, authorities, map_set w (default 0 (map_get w sessions) + 1) sessions)
  else acc.

(** The key of an Ed25519 authority is read as a [PublicKey], which fills it up to 32
    bytes; that of a passkey authority is the first eight bytes of its credential hash. *)
Definition authority_row (a : OwnedAccount) : AuthorityRow :=
  let d := oa_data a in
  mkAuthorityRow (oa_pubkey a) (AUTH_TYPE (byte_or d 1)) (RANK (byte_or d 2)) (le_combine (slice 8 12 d))
    (let key := slice 48 80 d in if byte_or d 1 =? 0 then zeros (32 - length key) ++ key else take 8 key).

Definition group_authority (m : list (bytes * list AuthorityRow)) (a : OwnedAccount) : list (bytes * list AuthorityRow) :=
  let d := oa_data a in
  if (length d <? 48)%nat then m
  else let w := slice 16 48 d in map_set w (default [] (map_get w m) ++ [authority_row a]) m.

Definition held_of (program : string) (h : HeldToken) : option TokenHeld :=
  if ht_amount h =? 0 then None
  else Some (mkTokenHeld (ht_mint h) (match ht_uiAmountString h with Some t => inr t | None => inl (ht_amount h) end)
               (ht_decimals h) program).

Definition TOKEN_NAMES : list (string * string) := zip TOKEN_PROGRAMS ["spl-token"; "token-2022"].

Definition day_of (blockTime : option Z) : outcome string (option Z) :=
  match blockTime with
  | None => Ok None
  | Some bt => if bt =? 0 then Ok None
               else if 8640000000000 <? Z.abs bt then Throw "Invalid time value" else Ok (Some (bt / 86400))
  end.

Definition balances_of (m : list (address * Z)) (batch : list address) (infos : list (option Z)) : list (address * Z) :=
  fold_left (λ m vi, map_set (fst vi) (default 0 (snd vi)) m) (zip batch infos) m.

Definition survey_wallets (programId : address) : Q (list WalletRow) :=
  all ← retry (λ n, sn_programAccounts node n programId);
  let '(wallets, authorities, sessionsByWallet) := fold_left sort_account all ([], [], []) in
  let authByWallet := fold_left group_authority authorities [] in
  vaults ← give_back (mapM (vault_of programId) wallets);
  lamports ← for_of (λ m batch,
      infos ← retry (λ n, sn_multipleAccounts node n batch);
      _ ← pause 150;
      mret (balances_of m batch infos)) (by_hundred vaults) [];
  tokens ← for_of (λ m v,
      held ← for_of (λ held p,
          res ← retry (λ n, sn_tokenAccounts node n v (fst p));
          _ ← pause 80;
          mret (held ++ omap (held_of (snd p)) res)) TOKEN_NAMES [];
      mret (if (0 <? length held)%nat then map_set v held m else m)) vaults [];
  lastActivity ← for_of (λ m w,
      bt ← retry (λ n, sn_signatures node n w);
      day ← give_back (day_of bt);
      _ ← pause 80;
      mret (map_set w day m)) wallets [];
  let rows := (λ wv, let '(w, v) := wv in
      mkWalletRow w v (default 0 (map_get v lamports)) (default [] (map_get v tokens))
        (default [] (map_get (address_encode w) authByWallet)) (default 0 (map_get (address_encode w) sessionsByWallet))
        (default None (map_get w lastActivity))) <$> zip wallets vaults in
  mret (js_sort (λ a b, wr_lamports b - wr_lamports a) rows).

(** The totals printed: wallets with SOL, with tokens, the SOL. *)
Definition funded_rows (rows : list WalletRow) : list WalletRow := List.filter (λ r, 0 <? wr_lamports r) rows.
Definition token_rows (rows : list WalletRow) : list WalletRow := List.filter (λ r, (0 <? length (wr_tokens r))%nat) rows.
Definition total_sol (rows : list WalletRow) : Z := sum_numbers (wr_lamports <$> funded_rows rows).

(** ** survey-v1.ts *)
Record VaultRow := mkVaultRow { vr_wallet : address; vr_vault : address; vr_lamports : Z }.

Record V1Config := mkV1Config {
  vc_address : address;
  vc_admin : bytes;
  vc_treasury : bytes;
  vc_enabled : Z;
  vc_numShards : Z;
  vc_creationFee : Z;
  vc_executionFee : Z;
}.

Record ClusterReport := mkClusterReport {
  cr_programDeployed : bool;
  cr_accountsByType : list (string * Z);
  cr_unknownDiscriminators : list (Z * Z);
  cr_wallets : Z;
  cr_fundedVaults : list VaultRow;
  cr_totalVaultLamports : Z;
  cr_protocolConfig : option V1Config;
}.

Record Census := mkCensus {
  cs_byType : list (string * Z);
  cs_unknown : list (Z * Z);
  cs_wallets : list address;
  cs_config : option V1Config;
}.

Definition v1_config_of (a : OwnedAccount) : V1Config :=
  let d := oa_data a in
  mkV1Config (oa_pubkey a) (slice 8 40 d) (slice 40 72 d) (byte_or d 3) (byte_or d 4)
    (le_combine (slice 72 80 d)) (le_combine (slice 80 88 d)).

(** An account without data has no discriminator to print, and the script throws. *)
Definition census_account (c : Census) (a : OwnedAccount) : outcome string Census :=
  match discriminator_of a with
  | None => Throw "Cannot read properties of undefined (reading 'toString')"
  | Some disc =>
    match DISC_NAMES disc with
    | None => Ok (mkCensus (cs_byType c) (map_set disc (default 0 (map_get disc (cs_unknown c)) + 1) (cs_unknown c))
                    (cs_wallets c) (cs_config c))
    | Some name =>
      Ok (mkCensus (map_set name (default 0 (map_get name (cs_byType c)) + 1) (cs_byType c)) (cs_unknown c)
            (if disc =? 1 then cs_wallets c ++ [oa_pubkey a] else cs_wallets c)
            (if (disc =? 5) && (88 <=? length (oa_data a))%nat then Some (v1_config_of a) else cs_config c))
    end
  end.

Fixpoint census (accounts : list OwnedAccount) (c : Census) : outcome string Census :=
  match accounts with
  | [] => Ok c
  | a :: accounts => c ← census_account c a; census accounts c
  end.

Definition fund_vault (acc : list VaultRow * Z) (wvi : address * address * option Z) : list VaultRow * Z :=
  let '(w, v, info) := wvi in
  let lamports := default 0 info in
  if 0 <? lamports then (fst acc ++ [mkVaultRow w v lamports], num_add (snd acc) lamports) else acc.

Definition surveyCluster (programId : address) : Q ClusterReport :=
  programDeployed ← query (λ n, sn_executable node n programId);
  accounts ← query (λ n, sn_programAccounts node n programId);
  c ← give_back (census accounts (mkCensus [] [] [] None));
  '(funded, total) ← for_of (λ acc batch,
      vaults ← give_back (mapM (vault_of programId) batch);
      infos ← query (λ n, sn_multipleAccounts node n vaults);
      mret (fold_left fund_vault (zip (zip batch vaults) infos) acc)) (by_hundred (cs_wallets c)) ([], 0);
  mret (mkClusterReport programDeployed (cs_byType c) (cs_unknown c) (Z.of_nat (length (cs_wallets c)))
          (js_sort (λ a b, vr_lamports b - vr_lamports a) funded) total (cs_config c)).

(** The upgrade gate that is printed: clear when no vault holds lamports. *)
Definition gate_clear (r : ClusterReport) : bool := negb (0 <? cr_totalVaultLamports r).
End survey.

(** The command lines: which clusters are surveyed. *)
Definition survey_targets (argv : list string) : outcome string (list string) :=
  match default None (after_flag "--cluster" argv) with
  | None => Ok ["mainnet"; "devnet"]
  | Some c => if String.eqb c "" then Ok ["mainnet"; "devnet"]
              else match map_get c CLUSTERS with Some _ => Ok [c] | None => Throw "unknown cluster" end
  end.
Definition survey_cluster (argv : list string) : outcome string SurveyCluster :=
  match after_flag "--cluster" argv with
  | None => of_option "unknown cluster" (map_get "mainnet" CLUSTERS)
  | Some None => Throw "unknown cluster"
  | Some (Some c) => of_option "unknown cluster" (map_get c CLUSTERS)
  end.
Definition survey_rpc (argv : list string) (cluster : SurveyCluster) : string :=
  default (sc_rpc cluster) (default None (after_flag "--rpc" argv)).

(** ** Sums *)
Definition zsum (l : list Z) : Z := foldr Z.add 0 l.

Lemma zsum_cons x l : zsum (x :: l) = x + zsum l.
Proof. reflexivity. Qed.

Lemma zsum_app l k : zsum (l ++ k) = zsum l + zsum k.
Proof. induction l as [|x l IH]; [done|]. change ((x :: l) ++ k) with (x :: (l ++ k)). rewrite !zsum_cons, IH. lia. Qed.

Lemma zsum_nonneg l : Forall (Z.le 0) l → 0 <= zsum l.
Proof. induction 1 as [|x l Hx Hl IH]; [done|]. rewrite zsum_cons. lia. Qed.

#[export] Instance zsum_perm : Proper (Permutation ==> eq) zsum.
Proof. intros l k H. induction H; rewrite ?zsum_cons; lia. Qed.

Lemma zsum_filter {A} (f : A → bool) (g : A → Z) l :
  zsum (g <$> List.filter f l) = zsum ((λ a, if f a then g a else 0) <$> l).
Proof.
  induction l as [|a l IH]; [done|]. cbn [List.filter]. rewrite fmap_cons, zsum_cons, <- IH.
  destruct (f a); [by rewrite fmap_cons, zsum_cons|lia].
Qed.

Lemma zsum_plus {A} (f g : A → Z) l : zsum (f <$> l) + zsum (g <$> l) = zsum ((λ a, f a + g a) <$> l).
Proof. induction l as [|a l IH]; [done|]. rewrite !fmap_cons, !zsum_cons, <- IH. lia. Qed.

(** Sums of doubles below [2^53] are exact. *)
Lemma num_sum_exact l a : Forall (Z.le 0) l → 0 <= a → a + zsum l <= 2 ^ 53 → fold_left num_add l a = a + zsum l.
Proof.
  intros Hl. revert a. induction Hl as [|x l Hx Hl IH]; intros a Ha Hb; cbn [fold_left]; [unfold zsum; cbn; lia|].
  rewrite zsum_cons in *. pose proof (zsum_nonneg _ Hl). unfold num_add at 2. rewrite number_of_small by lia. rewrite IH; lia.
Qed.

(** ** Grouping

    The scripts group by looking a row up, changing it and setting it again. *)
Section group.
Context {A K V : Type} `{EqDecision K}.
Variables (key : A → option K) (fresh : K → V) (bump : V → A → V).

Definition group_step (m : list (K * V)) (a : A) : list (K * V) :=
  match key a with
  | None => m
  | Some k => map_set k (bump (default (fresh k) (map_get k m)) a) m
  end.
Definition group (l : list A) : list (K * V) := fold_left group_step l [].
Definition members (k : K) (l : list A) : list A := filter (λ a, key a = Some k) l.
Definition group_value (l : list A) (k : K) : V := fold_left bump (members k l) (fresh k).

Lemma members_snoc k l a : members k (l ++ [a]) = members k l ++ (if decide (key a = Some k) then [a] else []).
Proof. unfold members. by rewrite filter_app. Qed.

Lemma group_get l k : map_get k (group l) = match members k l with [] => None | _ => Some (group_value l k) end.
Proof.
  induction l as [|a l IH] using rev_ind; [done|]. unfold group, group_value in *. rewrite fold_left_app, members_snoc.
  cbn [fold_left]. unfold group_step at 1. destruct (key a) as [k'|] eqn:E.
  - rewrite map_get_set. destruct (decide (k = k')) as [->|Hne].
    + rewrite IH, decide_True by done. rewrite fold_left_app. by destruct (members k' l).
    + rewrite IH, decide_False by congruence. by rewrite app_nil_r.
  - rewrite IH, decide_False by done. by rewrite app_nil_r.
Qed.

Lemma group_snoc l a : group (l ++ [a]) = match key a with
  | None => group l
  | Some k => map_set k (bump (default (fresh k) (map_get k (group l))) a) (group l)
  end.
Proof. unfold group at 1. by rewrite fold_left_app. Qed.

Lemma group_NoDup l : NoDup (group l).*1.
Proof.
  induction l as [|a l IH] using rev_ind; [constructor|]. unfold group in *. rewrite fold_left_app. cbn [fold_left].
  unfold group_step at 1. destruct (key a); [by apply map_set_NoDup|done].
Qed.

Lemma group_keys l k : k ∈ (group l).*1 ↔ ∃ a, a ∈ l ∧ key a = Some k.
Proof.
  rewrite <- map_has_true. unfold map_has. rewrite group_get. unfold members. split.
  - destruct (filter _ l) as [|a r] eqn:E; [done|]. intros _. exists a.
    assert (H : a ∈ filter (λ a, key a = Some k) l) by (rewrite E; apply list_elem_of_here). by apply list_elem_of_filter in H as [? ?].
  - intros (a & Ha & Hk). assert (H : a ∈ filter (λ a, key a = Some k) l) by (by apply list_elem_of_filter).
    by destruct (filter _ l); [apply elem_of_nil in H|].
Qed.

Lemma group_values l : (group l).*2 = group_value l <$> (group l).*1.
Proof.
  rewrite <- list_fmap_compose. apply list_fmap_ext. intros i [k v] H%list_elem_of_lookup_2. cbn.
  apply (map_get_NoDup _ _ _ (group_NoDup l)) in H. rewrite group_get in H. destruct (members k l); congruence.
Qed.

(** Every element with a key counts in one group. *)
Lemma sum_by_key (g : A → Z) (keys : list K) l : NoDup keys → (∀ a k, a ∈ l → key a = Some k → k ∈ keys) →
  zsum ((λ k, zsum (g <$> members k l)) <$> keys) = zsum ((λ a, if key a is Some _ then g a else 0) <$> l).
Proof.
  intros Hk. induction l as [|a l IH]; intros Hc.
  - clear. induction keys as [|k ks IH]; [done|]. by rewrite fmap_cons, zsum_cons, IH.
  - rewrite fmap_cons, zsum_cons, <- IH by (intros; eapply Hc; [by apply list_elem_of_further|done]).
    assert (Hgo : ∀ ks, NoDup ks → zsum ((λ k, zsum (g <$> members k (a :: l))) <$> ks)
      = (match key a with Some k => if decide (k ∈ ks) then g a else 0 | None => 0 end)
        + zsum ((λ k, zsum (g <$> members k l)) <$> ks)).
    { induction 1 as [|k ks Hn Hnd IHk]; [by destruct (key a)|].
      rewrite !fmap_cons, !zsum_cons, IHk. unfold members at 1. rewrite filter_cons. fold (members k l).
      destruct (decide (key a = Some k)) as [E|E].
      - rewrite fmap_cons, zsum_cons, E, (decide_False (P := k ∈ ks)), decide_True; [lia|apply list_elem_of_here|done].
      - destruct (key a) as [k'|]; [|lia]. destruct (decide (k' ∈ ks)) as [H|H].
        + rewrite decide_True; [lia|by apply list_elem_of_further].
        + rewrite decide_False; [lia|]. intros [->|]%elem_of_cons; congruence. }
    rewrite Hgo by done. destruct (key a) as [k|] eqn:E; [|done].
    rewrite decide_True; [done|]. eapply Hc; [apply list_elem_of_here|done].
Qed.
End group.

(** ** A chain that does not move *)
Section runs.
Context `{K : Kit} {W : Web3Pda}.

(** What there is to read. *)
Record Estate := mkEstate {
  es_accounts : address → list OwnedAccount;
  es_balance : address → option Z;
  es_tokens : address → string → list HeldToken;
  es_lastTime : address → option Z;
}.

(** What the node answers, when it answers, is what there is. *)
Record Truthful (node : SurveyNode) (es : Estate) : Prop := {
  tf_accounts : ∀ n p l, sn_programAccounts node n p = Ok l → l = es_accounts es p;
  tf_balances : ∀ n ks l, sn_multipleAccounts node n ks = Ok l → l = es_balance es <$> ks;
  tf_tokens : ∀ n v p l, sn_tokenAccounts node n v p = Ok l → l = es_tokens es v p;
  tf_signatures : ∀ n w t, sn_signatures node n w = Ok t → t = es_lastTime es w;
}.

(** Of any five calls in a row it answers one. *)
Definition answers_at (node : SurveyNode) (n : nat) : Prop :=
  (∀ p, is_ok (sn_programAccounts node n p) = true) ∧ (∀ ks, is_ok (sn_multipleAccounts node n ks) = true)
  ∧ (∀ v p, is_ok (sn_tokenAccounts node n v p) = true) ∧ (∀ w, is_ok (sn_signatures node n w) = true).
Definition answers_within_5 (node : SurveyNode) : Prop := ∀ n, ∃ i, (i < 5)%nat ∧ answers_at node (n + i).

(** [m] returns [a] from every state. *)
Definition returns {A} (m : Q A) (a : A) : Prop := ∀ s, ∃ s', m s = (s', Ok a).

Lemma returns_ret {A} (a : A) : returns (mret a) a.
Proof. intros s. by eexists. Qed.

Lemma returns_bind {A B} (m : Q A) (f : A → Q B) a b : returns m a → returns (f a) b → returns (m ≫= f) b.
Proof. intros Hm Hf s. destruct (Hm s) as [s1 E]. destruct (Hf s1) as [s2 E2]. exists s2. unfold mbind, Q_bind. by rewrite E. Qed.

Lemma returns_pause {B} ms (f : unit → Q B) b : returns (f ()) b → returns (pause ms ≫= f) b.
Proof. intros H. eapply returns_bind; [by intros s; eexists|done]. Qed.

Lemma returns_given {A} (r : outcome string A) a : r = Ok a → returns (give_back r) a.
Proof. intros -> s. by eexists. Qed.

Lemma returns_for_of {A B} (body : B → A → Q B) (g : B → A → B) l b :
  (∀ b a, returns (body b a) (g b a)) → returns (for_of body l b) (fold_left g l b).
Proof.
  intros H. revert b. induction l as [|a l IH]; intros b; [apply returns_ret|]. cbn [for_of fold_left].
  by eapply returns_bind.
Qed.

(** The retries outlast the refusals. *)
Lemma withRetry_loop_returns {A} (f : nat → outcome string A) a tries i s :
  (∀ n b, f n = Ok b → b = a) → (∃ k, (k < tries)%nat ∧ is_ok (f (pg_calls s + k)%nat) = true) →
  ∃ s', withRetry_loop tries i f s = (s', Ok a).
Proof.
  intros Hf. revert i s. induction tries as [|tries IH]; intros i s (k & Hk & Ha); [lia|]. cbn [withRetry_loop]. unfold query.
  destruct (f (pg_calls s)) as [b|] eqn:E; [apply Hf in E as ->; by eexists|]. unfold mbind, Q_bind, pause.
  apply IH. cbn [pg_calls]. destruct k as [|k]; [by rewrite Nat.add_0_r, E in Ha|].
  exists k. split; [lia|]. by rewrite Nat.add_succ_comm.
Qed.

Lemma retry_loop_returns {A} (f : nat → outcome string A) a more wait s :
  (∀ n b, f n = Ok b → b = a) → (∃ k, (k <= more)%nat ∧ is_ok (f (pg_calls s + k)%nat) = true) →
  ∃ s', retry_loop more wait f s = (s', Ok a).
Proof.
  intros Hf. revert wait s. induction more as [|more IH]; intros wait s (k & Hk & Ha); cbn [retry_loop]; unfold query;
    (destruct (f (pg_calls s)) as [b|] eqn:E; [apply Hf in E as ->; by eexists|]).
  { replace k with 0%nat in Ha by lia. by rewrite Nat.add_0_r, E in Ha. }
  unfold mbind, Q_bind, pause. apply IH. cbn [pg_calls]. destruct k as [|k]; [by rewrite Nat.add_0_r, E in Ha|].
  exists k. split; [lia|]. by rewrite Nat.add_succ_comm.
Qed.

Section node.
Variables (node : SurveyNode) (es : Estate).
Hypothesis truthful : Truthful node es.
Hypothesis answers : answers_within_5 node.

Lemma both_retry {A} (f : nat → outcome string A) a :
  (∀ n b, f n = Ok b → b = a) → (∀ n, answers_at node n → is_ok (f n) = true) → returns (withRetry f) a ∧ returns (retry f) a.
Proof.
  intros Hf Ha. split; intros s; destruct (answers (pg_calls s)) as (k & Hk & H%Ha).
  - apply withRetry_loop_returns; [done|]. by exists k.
  - apply retry_loop_returns; [done|]. exists k. split; [lia|done].
Qed.

Lemma reads_accounts p : returns (withRetry (λ n, sn_programAccounts node n p)) (es_accounts es p)
  ∧ returns (retry (λ n, sn_programAccounts node n p)) (es_accounts es p).
Proof. apply both_retry; [intros n b; by apply (tf_accounts _ _ truthful)|]. by intros n (H & _). Qed.
Lemma reads_balances ks : returns (withRetry (λ n, sn_multipleAccounts node n ks)) (es_balance es <$> ks)
  ∧ returns (retry (λ n, sn_multipleAccounts node n ks)) (es_balance es <$> ks).
Proof. apply both_retry; [intros n b; by apply (tf_balances _ _ truthful)|]. by intros n (_ & H & _). Qed.
Lemma reads_tokens v p : returns (withRetry (λ n, sn_tokenAccounts node n v p)) (es_tokens es v p)
  ∧ returns (retry (λ n, sn_tokenAccounts node n v p)) (es_tokens es v p).
Proof. apply both_retry; [intros n b; by apply (tf_tokens _ _ truthful)|]. by intros n (_ & _ & H & _). Qed.
Lemma reads_signatures w : returns (retry (λ n, sn_signatures node n w)) (es_lastTime es w).
Proof. apply (both_retry (λ n, sn_signatures node n w)); [intros n b; by apply (tf_signatures _ _ truthful)|]. by intros n (_ & _ & _ & H). Qed.
End node.

(** ** Batches *)
Lemma batches_concat {A} fuel n (l : list A) : (length l <= fuel)%nat → (0 < n)%nat → concat (batches fuel n l) = l.
Proof.
  intros Hl Hn. revert l Hl. induction fuel as [|fuel IH]; intros l Hl; [by destruct l; cbn in *; [|lia]|].
  destruct l as [|a l]; [done|]. cbn [batches concat]. rewrite IH; [by rewrite take_drop|]. rewrite length_drop. cbn in *. lia.
Qed.

Lemma by_hundred_concat {A} (l : list A) : concat (by_hundred l) = l.
Proof. unfold by_hundred. apply batches_concat; lia. Qed.

Lemma fold_batches {A B C} (g : B → C → B) (f : A → C) ls b :
  fold_left (λ acc batch, fold_left g (f <$> batch) acc) ls b = fold_left g (f <$> concat ls) b.
Proof. revert b. induction ls as [|l ls IH]; intros b; [done|]. cbn [fold_left concat]. by rewrite IH, fmap_app, fold_left_app. Qed.
End runs.

(** ** The rent ledger *)
Section ledger.
Context `{K : Kit} {W : Web3Pda}.

Definition wallets_in (all : list OwnedAccount) : list address :=
  oa_pubkey <$> filter (λ a, type_name a = Some "Wallet") all.
Definition unknowns_in (all : list OwnedAccount) : list OwnedAccount := filter (λ a, type_name a = None) all.

Definition fresh_row (name : string) : TypeRow := mkTypeRow name 0 0 0 (survivesUpgrade name).
Definition bump_row (row : TypeRow) (a : OwnedAccount) : TypeRow :=
  mkTypeRow (tr_type row) (tr_count row + 1) (tr_bytes row + Z.of_nat (length (oa_data a)))
    (num_add (tr_lamports row) (oa_lamports a)) (tr_survivesUpgrade row).

Lemma tally_fold l : fold_left tally_account l (mkTally [] [] 0 0)
  = mkTally (group type_name fresh_row bump_row l) (wallets_in l) (Z.of_nat (length (unknowns_in l)))
      (fold_left num_add (oa_lamports <$> unknowns_in l) 0).
Proof.
  induction l as [|a l IH] using rev_ind; [done|]. rewrite fold_left_app, IH. cbn [fold_left]. unfold tally_account.
  unfold wallets_in, unknowns_in. rewrite group_snoc, !filter_app, !fmap_app, !fold_left_app, !filter_cons, !filter_nil. cbn [fold_left].
  destruct (type_name a) as [name|] eqn:E.
  - rewrite (decide_False (P := Some name = None)) by done. rewrite !app_nil_r. cbn [tl_byType tl_wallets tl_unknown tl_unknownLamports].
    destruct (String.eqb_spec name "Wallet") as [->|Hn].
    + rewrite decide_True by done. done.
    + rewrite decide_False by congruence. by rewrite app_nil_r.
  - rewrite decide_False, decide_True, app_nil_r, length_app by done. cbn. f_equal. lia.
Qed.

(** The row of a type over all accounts. *)
Definition type_row (all : list OwnedAccount) (name : string) : TypeRow :=
  let ms := members type_name name all in
  mkTypeRow name (Z.of_nat (length ms)) (zsum ((λ a, Z.of_nat (length (oa_data a))) <$> ms)) (zsum (oa_lamports <$> ms))
    (survivesUpgrade name).

Definition sound_lamports (all : list OwnedAccount) : Prop :=
  Forall (λ a, 0 <= oa_lamports a) all ∧ zsum (oa_lamports <$> all) <= 2 ^ 53.

Lemma zsum_sublist {A} (g : A → Z) (P : A → Prop) `{∀ a, Decision (P a)} l : Forall (λ a, 0 <= g a) l →
  Forall (Z.le 0) (g <$> filter P l) ∧ zsum (g <$> filter P l) <= zsum (g <$> l).
Proof.
  induction 1 as [|a l Ha Hl [IH1 IH2]]; [split; [constructor|done]|]. rewrite filter_cons, fmap_cons, zsum_cons.
  destruct (decide (P a)); [rewrite fmap_cons, zsum_cons; split; [by constructor|lia]|split; [done|lia]].
Qed.

Lemma row_value all name : sound_lamports all → group_value type_name fresh_row bump_row all name = type_row all name.
Proof.
  intros [Hn Hb]. unfold group_value, type_row.
  assert (Hfold : ∀ ms, fold_left bump_row ms (fresh_row name)
    = mkTypeRow name (Z.of_nat (length ms)) (zsum ((λ a, Z.of_nat (length (oa_data a))) <$> ms))
        (fold_left num_add (oa_lamports <$> ms) 0) (survivesUpgrade name)).
  { induction ms as [|a ms IH] using rev_ind; [done|]. rewrite fold_left_app, IH, !fmap_app, fold_left_app, zsum_app, length_app.
    unfold bump_row. cbn. f_equal; lia. }
  destruct (zsum_sublist oa_lamports (λ a, type_name a = Some name) all Hn) as [H1 H2].
  rewrite Hfold, num_sum_exact; [done|exact H1|lia|]. unfold members. lia.
Qed.

Lemma unknown_lamports all : sound_lamports all →
  fold_left num_add (oa_lamports <$> unknowns_in all) 0 = zsum (oa_lamports <$> unknowns_in all).
Proof.
  intros [Hn Hb]. destruct (zsum_sublist oa_lamports (λ a, type_name a = None) all Hn) as [H1 H2].
  rewrite num_sum_exact; [lia|exact H1|lia|]. unfold unknowns_in. lia.
Qed.

Definition types_in (all : list OwnedAccount) : list string := (group type_name fresh_row bump_row all).*1.

Lemma types_sum (g : OwnedAccount → Z) all :
  zsum ((λ k, zsum (g <$> members type_name k all)) <$> types_in all) = zsum ((λ a, if type_name a is Some _ then g a else 0) <$> all).
Proof. apply sum_by_key; [apply group_NoDup|]. intros a k Ha Hk. apply group_keys. by exists a. Qed.

Lemma unknown_sum (g : OwnedAccount → Z) all :
  zsum (g <$> unknowns_in all) = zsum ((λ a, if type_name a is Some _ then 0 else g a) <$> all).
Proof.
  unfold unknowns_in. induction all as [|a l IH]; [done|]. rewrite filter_cons, fmap_cons, zsum_cons, <- IH.
  destruct (type_name a); [by rewrite decide_False|]. by rewrite decide_True, fmap_cons, zsum_cons.
Qed.

Lemma known_or_not (g : OwnedAccount → Z) all :
  zsum ((λ a, if type_name a is Some _ then g a else 0) <$> all) + zsum (g <$> unknowns_in all) = zsum (g <$> all).
Proof.
  rewrite unknown_sum, zsum_plus. f_equal. apply list_fmap_ext. intros i a _. destruct (type_name a); lia.
Qed.

Lemma length_zsum {A} (l : list A) : Z.of_nat (length l) = zsum ((λ _, 1) <$> l).
Proof. induction l as [|a l IH]; [done|]. rewrite fmap_cons, zsum_cons, <- IH. cbn. lia. Qed.

(** What the rent survey owes its reader, on the accounts of the program. *)
Record AccountLedger (all : list OwnedAccount) (r : RentReport) : Prop := {
  al_accounts : rr_accounts r = Z.of_nat (length all);
  al_rows : ∀ row, row ∈ rr_rows r ↔ ∃ a name, a ∈ all ∧ type_name a = Some name ∧ row = type_row all name;
  al_types : NoDup (tr_type <$> rr_rows r);
  al_every_account : zsum (tr_count <$> rr_rows r) + rr_unknown r = Z.of_nat (length all);
  al_every_lamport : zsum (tr_lamports <$> rr_rows r) + rr_unknownLamports r = zsum (oa_lamports <$> all);
  al_reclaimable : rr_reclaimable r
    = zsum ((λ a, match type_name a with Some t => if survivesUpgrade t then oa_lamports a else 0 | None => 0 end) <$> all);
  al_ledger : rr_reclaimable r + rr_strandedIfNotClosedFirst r + rr_unknownLamports r = zsum (oa_lamports <$> all);
}.

Lemma rows_measure all (f : TypeRow → Z) (g : OwnedAccount → Z) rows :
  rows ≡ₚ type_row all <$> types_in all → (∀ name, f (type_row all name) = zsum (g <$> members type_name name all)) →
  zsum (f <$> rows) = zsum ((λ a, if type_name a is Some _ then g a else 0) <$> all).
Proof.
  intros Hp Hf. rewrite Hp, <- list_fmap_compose, <- types_sum. f_equal. apply list_fmap_ext. intros i k _. apply Hf.
Qed.

(** A measure that only counts the types of one kind. *)
Lemma rows_of_kind all (kind : string → bool) (p : TypeRow → bool) rows :
  rows ≡ₚ type_row all <$> types_in all → (∀ r, r ∈ rows → p r = kind (tr_type r)) →
  zsum (tr_lamports <$> List.filter p rows)
  = zsum ((λ a, match type_name a with Some t => if kind t then oa_lamports a else 0 | None => 0 end) <$> all).
Proof.
  intros Hp Hk. rewrite zsum_filter.
  transitivity (zsum ((λ r, if kind (tr_type r) then tr_lamports r else 0) <$> rows)).
  { f_equal. apply list_fmap_ext. intros i r Hr%list_elem_of_lookup_2. by rewrite Hk. }
  rewrite (rows_measure all _ (λ a, match type_name a with Some t => if kind t then oa_lamports a else 0 | None => 0 end)); [|done|].
  - f_equal. apply list_fmap_ext. intros i a _. by destruct (type_name a).
  - intros name. cbn [tr_type tr_lamports type_row]. unfold members. clear Hp Hk. induction all as [|a l IH]; [by destruct (kind name)|].
    rewrite filter_cons. destruct (decide (type_name a = Some name)) as [E|E]; [|exact IH].
    rewrite !fmap_cons, !zsum_cons, E, <- IH. destruct (kind name); [done|lia].
Qed.

Lemma zsum_known_le (f g : OwnedAccount → Z) all : Forall (λ a, 0 <= f a <= g a) all →
  Forall (Z.le 0) (f <$> all) ∧ zsum (f <$> all) <= zsum (g <$> all).
Proof.
  induction 1 as [|a l Ha Hl [IH1 IH2]]; [split; [constructor|done]|]. rewrite !fmap_cons, !zsum_cons.
  split; [constructor; [lia|done]|lia].
Qed.

Lemma rent_rows_ledger all vaults tokens : sound_lamports all →
  AccountLedger all (rent_report all (fold_left tally_account all (mkTally [] [] 0 0)) vaults tokens).
Proof.
  intros Hs. rewrite tally_fold. unfold rent_report. cbn [tl_byType tl_wallets tl_unknown tl_unknownLamports].
  set (rows := js_sort _ _).
  assert (Hrows : rows ≡ₚ type_row all <$> types_in all).
  { unfold rows. rewrite js_sort_perm, group_values. unfold types_in.
    erewrite list_fmap_ext; [reflexivity|]. intros i k _. by apply row_value. }
  assert (Hkind : ∀ r, r ∈ rows → tr_survivesUpgrade r = survivesUpgrade (tr_type r)).
  { intros r. rewrite Hrows. intros (k & -> & _)%list_elem_of_fmap. done. }
  assert (Hnn : ∀ P : TypeRow → bool, Forall (Z.le 0) (tr_lamports <$> List.filter P rows)).
  { intros P. apply Forall_fmap, Forall_forall. intros r [Hr%list_elem_of_In _]%list_elem_of_In%filter_In. cbn. revert Hr. rewrite Hrows.
    intros (k & -> & _)%list_elem_of_fmap. cbn. apply zsum_nonneg, (zsum_sublist oa_lamports). apply Hs. }
  assert (Hsum : ∀ kind : string → bool, sum_numbers (tr_lamports <$> List.filter (λ r, kind (tr_type r)) rows)
    = zsum ((λ a, match type_name a with Some t => if kind t then oa_lamports a else 0 | None => 0 end) <$> all)).
  { intros kind. unfold sum_numbers. pose proof (rows_of_kind all kind (λ r, kind (tr_type r)) rows Hrows ltac:(done)) as E.
    rewrite num_sum_exact; [by rewrite E|apply Hnn|lia|]. rewrite E. destruct Hs as [Hp Hb].
    destruct (zsum_known_le (λ a, match type_name a with Some t => if kind t then oa_lamports a else 0 | None => 0 end) oa_lamports all)
      as [_ Hle]; [|lia]. eapply Forall_impl; [exact Hp|]. intros a Ha. cbv beta in *. destruct (type_name a) as [t|]; [destruct (kind t)|]; lia. }
  assert (Hext : ∀ f g : TypeRow → bool, (∀ r, r ∈ rows → f r = g r) → List.filter f rows = List.filter g rows).
  { intros f g H. apply filter_ext_in. intros r Hr%list_elem_of_In. by apply H. }
  rewrite (Hext tr_survivesUpgrade (λ r, survivesUpgrade (tr_type r))) by done.
  rewrite (Hext (λ r, negb (tr_survivesUpgrade r)) (λ r, negb (survivesUpgrade (tr_type r)))) by (intros r Hr; by rewrite Hkind).
  rewrite unknown_lamports by done.
  constructor; cbn [rr_accounts rr_rows rr_unknown rr_unknownLamports rr_reclaimable rr_strandedIfNotClosedFirst].
  - done.
  - intros row. rewrite Hrows, list_elem_of_fmap. unfold types_in. setoid_rewrite group_keys. naive_solver.
  - rewrite Hrows, <- list_fmap_compose. erewrite list_fmap_ext; [rewrite list_fmap_id; apply group_NoDup|]. by intros.
  - rewrite !length_zsum, <- (known_or_not (λ _, 1) all). f_equal.
    apply (rows_measure all tr_count (λ _, 1)); [done|]. intros name. cbn. by rewrite length_zsum.
  - rewrite <- (known_or_not oa_lamports all). f_equal. by apply (rows_measure all tr_lamports oa_lamports).
  - apply (Hsum survivesUpgrade).
  - rewrite (Hsum survivesUpgrade), (Hsum (λ t, negb (survivesUpgrade t))), zsum_plus, <- (known_or_not oa_lamports all).
    do 2 f_equal. apply list_fmap_ext. intros i a _. destruct (type_name a) as [t|]; [destruct (survivesUpgrade t); cbn; lia|done].
Qed.
End ledger.

(** ** Balances and tokens *)
Section vaults.
Context `{K : Kit} {W : Web3Pda}.
Variable es : Estate.

Definition balance_at (v : address) : Z := default 0 (es_balance es v).
Definition vault_sum (vaults : list address) : Z := zsum (balance_at <$> vaults).
Definition funded (vaults : list address) : list address := List.filter (λ v, 0 <? balance_at v) vaults.

Lemma balances_fold vaults : Forall (λ v, 0 <= balance_at v) vaults → vault_sum vaults <= 2 ^ 53 →
  fold_left add_balance (es_balance es <$> vaults) (0, 0) = (vault_sum vaults, Z.of_nat (length (funded vaults))).
Proof.
  intros Hn Hb.
  assert (H : ∀ a c, 0 <= a → a + vault_sum vaults <= 2 ^ 53 →
    fold_left add_balance (es_balance es <$> vaults) (a, c) = (a + vault_sum vaults, c + Z.of_nat (length (funded vaults)))).
  { clear Hb. induction Hn as [|v l Hv Hl IH]; intros a c Ha Hb; [cbn; f_equal; unfold vault_sum; cbn; lia|].
    unfold vault_sum, funded in *. rewrite !fmap_cons, zsum_cons in *. cbn [fold_left List.filter]. unfold add_balance at 2.
    fold (balance_at v). assert (0 <= zsum (balance_at <$> l)) by (apply zsum_nonneg, Forall_fmap; exact Hl). cbn [fst snd].
    destruct (Z.ltb_spec 0 (balance_at v)).
    - unfold num_add. rewrite number_of_small by lia. rewrite IH by lia. cbn [length]. f_equal; lia.
    - replace (balance_at v) with 0 in * by lia. rewrite IH by lia. f_equal; lia. }
  rewrite H by lia. f_equal; lia.
Qed.

Definition tokens_at (v : address) : list HeldToken := TOKEN_PROGRAMS ≫= es_tokens es v.
Definition tokens_in (vaults : list address) : list HeldToken := vaults ≫= tokens_at.
Definition holding (vaults : list address) : list address := List.filter (λ v, (0 <? length (tokens_at v))%nat) vaults.

Definition vault_step (t : TokenTally) (v : address) : TokenTally :=
  let t := fold_left tally_token (tokens_at v) t in
  if (0 <? length (tokens_at v))%nat
  then mkTokenTally (kt_tokens t) (kt_vaultsWithTokens t + 1) (kt_lamports t) (kt_accounts t) else t.

Definition fresh_mint (mint : string) : TokenRow := mkTokenRow mint 0 0 0.
Definition bump_mint (row : TokenRow) (h : HeldToken) : TokenRow :=
  mkTokenRow (kr_mint row) (kr_accounts row + 1) (kr_amount row + ht_amount h) (num_add (kr_lamports row) (ht_lamports h)).
Definition mint_of (h : HeldToken) : option string := Some (ht_mint h).

Lemma tally_tokens l prev n : fold_left tally_token l
    (mkTokenTally (group mint_of fresh_mint bump_mint prev) n (fold_left num_add (ht_lamports <$> prev) 0) (Z.of_nat (length prev)))
  = mkTokenTally (group mint_of fresh_mint bump_mint (prev ++ l)) n (fold_left num_add (ht_lamports <$> prev ++ l) 0)
      (Z.of_nat (length (prev ++ l))).
Proof.
  revert prev. induction l as [|h l IH]; intros prev; [by rewrite app_nil_r|]. cbn [fold_left].
  replace (prev ++ h :: l) with ((prev ++ [h]) ++ l) by (by rewrite <- app_assoc). rewrite <- IH. f_equal.
  rewrite group_snoc, fmap_app, fold_left_app, length_app. unfold tally_token. cbn. f_equal. lia.
Qed.

Lemma tally_vaults vaults : fold_left vault_step vaults (mkTokenTally [] 0 0 0)
  = mkTokenTally (group mint_of fresh_mint bump_mint (tokens_in vaults)) (Z.of_nat (length (holding vaults)))
      (fold_left num_add (ht_lamports <$> tokens_in vaults) 0) (Z.of_nat (length (tokens_in vaults))).
Proof.
  induction vaults as [|v l IH] using rev_ind; [done|]. rewrite fold_left_app, IH. cbn [fold_left]. unfold vault_step, holding.
  rewrite tally_tokens. unfold tokens_in. rewrite bind_app, List.filter_app, length_app. cbn [mbind list_bind List.filter]. rewrite app_nil_r.
  destruct (0 <? length (tokens_at v))%nat; cbn [kt_tokens kt_vaultsWithTokens kt_lamports kt_accounts length]; f_equal; rewrite ?length_app; cbn [length]; lia.
Qed.

(** The row of a mint over all token accounts. *)
Definition mint_row (held : list HeldToken) (mint : string) : TokenRow :=
  let ms := members mint_of mint held in
  mkTokenRow mint (Z.of_nat (length ms)) (zsum (ht_amount <$> ms)) (zsum (ht_lamports <$> ms)).

Definition sound_tokens (held : list HeldToken) : Prop :=
  Forall (λ h, 0 <= ht_lamports h) held ∧ zsum (ht_lamports <$> held) <= 2 ^ 53.

Lemma mint_value held mint : sound_tokens held → group_value mint_of fresh_mint bump_mint held mint = mint_row held mint.
Proof.
  intros [Hn Hb]. unfold group_value, mint_row.
  assert (Hfold : ∀ ms, fold_left bump_mint ms (fresh_mint mint)
    = mkTokenRow mint (Z.of_nat (length ms)) (zsum (ht_amount <$> ms)) (fold_left num_add (ht_lamports <$> ms) 0)).
  { induction ms as [|a ms IH] using rev_ind; [done|]. rewrite fold_left_app, IH, !fmap_app, fold_left_app, zsum_app, length_app.
    unfold bump_mint. cbn. f_equal; lia. }
  destruct (zsum_sublist ht_lamports (λ a, mint_of a = Some mint) held Hn) as [H1 H2].
  rewrite Hfold, num_sum_exact; [done|exact H1|lia|]. unfold members. lia.
Qed.

(** What the rent survey owes its reader, on the vaults. *)
Record VaultLedger (vaults : list address) (r : RentReport) : Prop := {
  vl_wallets : rr_wallets r = Z.of_nat (length vaults);
  vl_lamports : rr_vaultLamports r = vault_sum vaults;
  vl_funded : rr_fundedVaults r = Z.of_nat (length (funded vaults));
  vl_holding : rr_vaultsWithTokens r = Z.of_nat (length (holding vaults));
  vl_accounts : rr_tokenAccounts r = Z.of_nat (length (tokens_in vaults));
  vl_token_rent : rr_tokenAccountLamports r = zsum (ht_lamports <$> tokens_in vaults);
  vl_rows : ∀ row, row ∈ rr_tokens r ↔ ∃ h, h ∈ tokens_in vaults ∧ row = mint_row (tokens_in vaults) (ht_mint h);
  vl_every_token : zsum (kr_amount <$> rr_tokens r) = zsum (ht_amount <$> tokens_in vaults);
}.

Lemma rent_vault_ledger all tally vaults : sound_tokens (tokens_in vaults) →
  Forall (λ v, 0 <= balance_at v) vaults → vault_sum vaults <= 2 ^ 53 → length (tl_wallets tally) = length vaults →
  VaultLedger vaults (rent_report all tally (fold_left add_balance (es_balance es <$> vaults) (0, 0))
                        (fold_left vault_step vaults (mkTokenTally [] 0 0 0))).
Proof.
  intros Ht Hn Hb Hl. rewrite balances_fold, tally_vaults by done. unfold rent_report. set (held := tokens_in vaults) in *.
  set (rows := js_sort _ (kt_tokens _).*2).
  assert (Hrows : rows ≡ₚ mint_row held <$> (group mint_of fresh_mint bump_mint held).*1).
  { unfold rows. rewrite js_sort_perm. cbn [kt_tokens]. rewrite group_values.
    erewrite list_fmap_ext; [reflexivity|]. intros i k _. by apply mint_value. }
  constructor; cbn [rr_wallets rr_vaultLamports rr_fundedVaults rr_vaultsWithTokens rr_tokenAccounts rr_tokenAccountLamports rr_tokens
    fst snd kt_vaultsWithTokens kt_lamports kt_accounts]; fold held.
  - by rewrite Hl.
  - done.
  - done.
  - done.
  - done.
  - destruct Ht as [Hp Hs]. rewrite num_sum_exact; [lia|by apply Forall_fmap|lia|lia].
  - intros row. rewrite Hrows, list_elem_of_fmap. setoid_rewrite group_keys. unfold mint_of. naive_solver.
  - rewrite Hrows, <- list_fmap_compose.
    etrans; [apply (sum_by_key mint_of ht_amount (group mint_of fresh_mint bump_mint held).*1 held)|done]; [apply group_NoDup|].
    intros a k Ha Hk. apply group_keys. by exists a.
Qed.
End vaults.

(** ** The wallets, one by one *)
Section wallets.
Context `{K : Kit} {W : Web3Pda}.

Definition session_key (a : OwnedAccount) : option bytes :=
  if bool_decide (discriminator_of a = Some 3) && (40 <=? length (oa_data a))%nat then Some (slice 8 40 (oa_data a)) else None.
Definition authority_key (a : OwnedAccount) : option bytes :=
  if bool_decide (discriminator_of a = Some 2) && (48 <=? length (oa_data a))%nat then Some (slice 16 48 (oa_data a)) else None.

(** Accounts that name a wallet. *)
Definition sessions_of (all : list OwnedAccount) (w : address) : list OwnedAccount := members session_key (address_encode w) all.
Definition authorities_of (all : list OwnedAccount) (w : address) : list OwnedAccount := members authority_key (address_encode w) all.

Lemma wallet_type a : type_name a = Some "Wallet" ↔ discriminator_of a = Some 1.
Proof.
  unfold type_name. destruct (discriminator_of a) as [d|]; [|done]. cbn [mbind option_bind]. unfold DISC_NAMES. split; [|by intros [= ->]].
  repeat (cbn [map_get]; destruct (decide _) as [->|]; [done|]). done.
Qed.

Lemma sort_fold all : fold_left sort_account all ([], [], [])
  = (wallets_in all, filter (λ a, discriminator_of a = Some 2) all, group session_key (λ _, 0) (λ n _, n + 1) all).
Proof.
  induction all as [|a l IH] using rev_ind; [done|]. rewrite fold_left_app, IH. cbn [fold_left]. unfold sort_account, wallets_in.
  rewrite group_snoc, !filter_app, fmap_app, !filter_cons, !filter_nil. unfold session_key.
  destruct (decide (type_name a = Some "Wallet")) as [Ew|Ew].
  - apply wallet_type in Ew. rewrite Ew. cbn [bool_decide]. rewrite (bool_decide_eq_true_2 (Some 1 = Some 1)) by done.
    rewrite (bool_decide_eq_false_2 (Some 1 = Some 3)), decide_False by done. cbn [andb]. by rewrite app_nil_r.
  - rewrite bool_decide_eq_false_2 by (by rewrite <- wallet_type). rewrite fmap_nil, app_nil_r.
    destruct (decide (discriminator_of a = Some 2)) as [E2|E2].
    + rewrite bool_decide_eq_true_2 by done. rewrite E2, (bool_decide_eq_false_2 (Some 2 = Some 3)) by done. done.
    + rewrite bool_decide_eq_false_2 by done. rewrite app_nil_r. by destruct (_ && _).
Qed.

Lemma authorities_fold all : fold_left group_authority (filter (λ a, discriminator_of a = Some 2) all) []
  = group authority_key (λ _, []) (λ l a, l ++ [authority_row a]) all.
Proof.
  induction all as [|a l IH] using rev_ind; [done|]. rewrite group_snoc, filter_app, fold_left_app, IH, filter_cons, filter_nil.
  unfold authority_key. destruct (decide (discriminator_of a = Some 2)) as [E|E].
  - rewrite bool_decide_eq_true_2 by done. cbn [fold_left andb]. unfold group_authority.
    destruct (Nat.ltb_spec (length (oa_data a)) 48), (Nat.leb_spec 48 (length (oa_data a))); try lia; done.
  - by rewrite bool_decide_eq_false_2.
Qed.

Lemma get_count {A B} (key : A → option B) `{EqDecision B} k l :
  default 0 (map_get k (group key (λ _, 0) (λ n _, n + 1) l)) = Z.of_nat (length (members key k l)).
Proof.
  rewrite group_get. unfold group_value.
  assert (H : ∀ ms : list A, fold_left (λ n _, n + 1) ms 0 = Z.of_nat (length ms)).
  { induction ms as [|a ms IH] using rev_ind; [done|]. rewrite fold_left_app, IH, length_app. cbn. lia. }
  rewrite H. by destruct (members key k l).
Qed.

Lemma get_list {A B C} (key : A → option B) `{EqDecision B} (f : A → C) k l :
  default [] (map_get k (group key (λ _, []) (λ xs a, xs ++ [f a]) l)) = f <$> members key k l.
Proof.
  rewrite group_get. unfold group_value.
  assert (H : ∀ ms : list A, fold_left (λ xs a, xs ++ [f a]) ms [] = f <$> ms).
  { induction ms as [|a ms IH] using rev_ind; [done|]. by rewrite fold_left_app, IH, fmap_app. }
  rewrite H. by destruct (members key k l).
Qed.

(** Setting each key of a list to a value that depends on it alone. *)
Lemma set_each {A V} `{EqDecision A} (f : A → option V) l k :
  map_get k (fold_left (λ m a, match f a with Some v => map_set a v m | None => m end) l []) = if decide (k ∈ l) then f k else None.
Proof.
  induction l as [|a l IH] using rev_ind; [done|]. rewrite fold_left_app. cbn [fold_left].
  destruct (decide (k = a)) as [->|Hne].
  - rewrite decide_True by (apply elem_of_app; right; apply list_elem_of_here).
    destruct (f a) as [v|] eqn:E; [by rewrite map_get_set_eq|]. rewrite IH. destruct (decide (a ∈ l)); congruence.
  - transitivity (map_get k (fold_left (λ m a, match f a with Some v => map_set a v m | None => m end) l [])).
    { destruct (f a); [by apply map_get_set_ne|done]. }
    rewrite IH. apply decide_ext. rewrite elem_of_app, list_elem_of_singleton. naive_solver.
Qed.

Section rows.
Variables (node : SurveyNode) (es : Estate) (programId : address) (vault : address → address).
Hypothesis truthful : Truthful node es.
Hypothesis answers : answers_within_5 node.
Hypothesis derived : ∀ w, vault_of programId w = Ok (vault w).
Hypothesis dated : ∀ w, is_ok (day_of (es_lastTime es w)) = true.

Definition all_accounts : list OwnedAccount := es_accounts es programId.
Definition all_vaults : list address := vault <$> wallets_in all_accounts.

Lemma vaults_derived ws : mapM (vault_of programId) ws = Ok (vault <$> ws).
Proof. induction ws as [|w ws IH]; [done|]. cbn [mapM]. rewrite derived. cbn [mbind outcome_bind]. by rewrite IH. Qed.

Lemma survey_returns : returns (survey node programId)
  (rent_report all_accounts (fold_left tally_account all_accounts (mkTally [] [] 0 0))
     (fold_left add_balance (es_balance es <$> all_vaults) (0, 0))
     (fold_left (vault_step es) all_vaults (mkTokenTally [] 0 0 0))).
Proof.
  unfold survey. eapply returns_bind; [apply (reads_accounts _ _ truthful answers)|]. fold all_accounts. rewrite !tally_fold.
  cbn [tl_wallets]. eapply returns_bind; [apply returns_given, vaults_derived|]. fold all_vaults.
  eapply returns_bind.
  { apply (returns_for_of _ (λ acc batch, fold_left add_balance (es_balance es <$> batch) acc)). intros b batch.
    eapply returns_bind; [apply (reads_balances _ _ truthful answers)|]. apply returns_ret. }
  rewrite fold_batches, by_hundred_concat. eapply returns_bind.
  { apply (returns_for_of _ (vault_step es)). intros t v. unfold tally_vault, vault_step, tokens_at, TOKEN_PROGRAMS.
    cbn [for_of mbind list_bind]. rewrite app_nil_r.
    eapply (returns_bind _ _ (_, _)).
    - eapply returns_bind; [|eapply returns_bind; [|apply returns_ret]];
        (eapply returns_bind; [apply (reads_tokens _ _ truthful answers)|]; apply returns_pause, returns_ret).
    - cbn [fst snd orb]. rewrite fold_left_app, length_app.
      set (n := length (es_tokens es v "TokenkegQfeZyiNwAJbNbGKPFXCWuBvf9Ss623VQ5DA")).
      set (k := length (es_tokens es v "TokenzQdBNbLqP5VEhdkAS6EPFLC1PHnBqCXEpPxuEb")).
      replace ((0 <? n)%nat || (0 <? k)%nat) with (0 <? n + k)%nat; [apply returns_ret|].
      destruct (Nat.ltb_spec 0 n), (Nat.ltb_spec 0 k), (Nat.ltb_spec 0 (n + k)); cbn; lia. }
  apply returns_ret.
Qed.

(** ** survey-v1-wallets.ts *)
Definition held_at (v : address) : list TokenHeld := TOKEN_NAMES ≫= λ p, omap (held_of (snd p)) (es_tokens es v (fst p)).
Definition day_at (w : address) : option Z := match day_of (es_lastTime es w) with Ok d => d | Throw _ => None end.

(** The row of a wallet. *)
Definition row_at (w : address) : WalletRow :=
  mkWalletRow w (vault w) (balance_at es (vault w)) (held_at (vault w))
    (authority_row <$> authorities_of all_accounts w) (Z.of_nat (length (sessions_of all_accounts w))) (day_at w).

Lemma day_read w : day_of (es_lastTime es w) = Ok (day_at w).
Proof. specialize (dated w). unfold day_at. by destruct (day_of (es_lastTime es w)). Qed.

Lemma balances_set m batch : balances_of m batch (es_balance es <$> batch)
  = fold_left (λ m v, match Some (balance_at es v) with Some x => map_set v x m | None => m end) batch m.
Proof. unfold balances_of. revert m. induction batch as [|v l IH]; intros m; [done|]. rewrite fmap_cons. cbn [zip_with fold_left]. apply IH. Qed.

Lemma fold_concat {A B} (g : B → A → B) ls b : fold_left (λ acc batch, fold_left g batch acc) ls b = fold_left g (concat ls) b.
Proof. revert b. induction ls as [|l ls IH]; intros b; [done|]. cbn [fold_left concat]. by rewrite IH, fold_left_app. Qed.

Lemma zip_fmap_r {A B} (f : A → B) l : zip l (f <$> l) = (λ a, (a, f a)) <$> l.
Proof. induction l as [|a l IH]; [done|]. rewrite !fmap_cons. cbn. by rewrite IH. Qed.

Lemma wallets_return : ∃ rows, returns (survey_wallets node programId) rows ∧ rows ≡ₚ row_at <$> wallets_in all_accounts.
Proof.
  eexists. split.
  - unfold survey_wallets. eapply returns_bind; [apply (reads_accounts _ _ truthful answers)|]. fold all_accounts. rewrite sort_fold.
    cbv beta iota. rewrite authorities_fold. eapply returns_bind; [apply returns_given, vaults_derived|]. fold all_vaults.
    eapply returns_bind.
    { apply (returns_for_of _ (λ m batch,
        fold_left (λ m v, match Some (balance_at es v) with Some x => map_set v x m | None => m end) batch m)). intros m batch.
      eapply returns_bind; [apply (reads_balances _ _ truthful answers)|]. rewrite <- balances_set. apply returns_pause, returns_ret. }
    rewrite fold_concat, by_hundred_concat. eapply returns_bind.
    { apply (returns_for_of _ (λ m v, match (if (0 <? length (held_at v))%nat then Some (held_at v) else None) with
                                      | Some x => map_set v x m | None => m end)). intros m v.
      unfold held_at, TOKEN_NAMES, TOKEN_PROGRAMS. cbn [zip zip_with for_of mbind list_bind]. rewrite app_nil_r.
      eapply returns_bind.
      - eapply returns_bind; [|eapply returns_bind; [|apply returns_ret]];
          (eapply returns_bind; [apply (reads_tokens _ _ truthful answers)|]; apply returns_pause, returns_ret).
      - cbn [app fst snd]. destruct (0 <? _)%nat; apply returns_ret. }
    eapply returns_bind.
    { apply (returns_for_of _ (λ m w, match Some (day_at w) with Some x => map_set w x m | None => m end)). intros m w.
      eapply returns_bind; [apply (reads_signatures _ _ truthful answers)|]. eapply returns_bind.
      - apply returns_given, day_read.
      - apply returns_pause, returns_ret. }
    apply returns_ret.
  - rewrite js_sort_perm. unfold all_vaults. rewrite zip_fmap_r, <- list_fmap_compose.
    erewrite list_fmap_ext; [reflexivity|]. intros i w Hw%list_elem_of_lookup_2. cbn [compose]. unfold row_at.
    assert (Hv : vault w ∈ vault <$> wallets_in all_accounts) by (by apply list_elem_of_fmap_2).
    rewrite get_count, get_list. f_equal.
    + rewrite (set_each (λ v, Some (balance_at es v))). by rewrite decide_True.
    + rewrite set_each, decide_True by done. by destruct (held_at (vault w)).
    + rewrite (set_each (λ w, Some (day_at w))). by rewrite decide_True.
Qed.

(** ** survey-v1.ts *)
Lemma census_wallets all c c' : census all c = Ok c' → cs_wallets c' = cs_wallets c ++ wallets_in all.
Proof.
  revert c. induction all as [|a l IH]; intros c; cbn [census]; [intros [= <-]; by rewrite app_nil_r|].
  intros (c1 & H1 & H)%bind_inv. rewrite (IH _ H). unfold census_account in H1. unfold wallets_in at 2. rewrite filter_cons.
  destruct (discriminator_of a) as [d|] eqn:E; [|done].
  destruct (decide (type_name a = Some "Wallet")) as [Ew|Ew].
  - apply wallet_type in Ew. rewrite E in Ew. injection Ew as ->. cbn in H1. injection H1 as <-. cbn. by rewrite <- app_assoc.
  - assert (Hd : (d =? 1) = false). { apply Z.eqb_neq. intros ->. apply Ew, wallet_type. by rewrite E. }
    rewrite Hd in H1. destruct (DISC_NAMES d); injection H1 as <-; done.
Qed.

Definition vault_entry (w : address) : address * address * option Z := (w, vault w, es_balance es (vault w)).

Lemma zip_entries ws : zip (zip ws (vault <$> ws)) (es_balance es <$> (vault <$> ws)) = vault_entry <$> ws.
Proof. induction ws as [|w l IH]; [done|]. rewrite !fmap_cons. cbn. by rewrite IH. Qed.

Lemma fund_fold ws f t : Forall (λ w, 0 <= balance_at es (vault w)) ws → 0 <= t → t + vault_sum es (vault <$> ws) <= 2 ^ 53 →
  fold_left fund_vault (vault_entry <$> ws) (f, t)
  = (f ++ ((λ w, mkVaultRow w (vault w) (balance_at es (vault w))) <$> List.filter (λ w, 0 <? balance_at es (vault w)) ws),
     t + vault_sum es (vault <$> ws)).
Proof.
  intros Hn. revert f t. induction Hn as [|w l Hw Hl IH]; intros f t Ht Hb; [cbn; rewrite app_nil_r; f_equal; unfold vault_sum; cbn; lia|].
  unfold vault_sum in *. rewrite !fmap_cons, zsum_cons in *. cbn [fold_left List.filter]. unfold fund_vault at 2, vault_entry at 2. cbn [fst snd].
  fold (balance_at es (vault w)). assert (0 <= zsum (balance_at es <$> (vault <$> l))).
  { apply zsum_nonneg, Forall_fmap, Forall_fmap. exact Hl. }
  destruct (Z.ltb_spec 0 (balance_at es (vault w))).
  - unfold num_add. rewrite number_of_small by lia. rewrite IH by lia. rewrite fmap_cons, <- app_assoc. f_equal; lia.
  - replace (balance_at es (vault w)) with 0 in * by lia. rewrite IH by lia. f_equal; lia.
Qed.

Lemma for_of_inv {A B} (body : B → A → Q B) (g : B → A → B) l b s s' r :
  (∀ b a s s' b', body b a s = (s', Ok b') → b' = g b a) → for_of body l b s = (s', Ok r) → r = fold_left g l b.
Proof.
  intros Hg. revert b s. induction l as [|a l IH]; intros b s; cbn [for_of fold_left]; [by intros [= _ <-]|].
  unfold mbind, Q_bind. destruct (body b a s) as [s1 [b1|]] eqn:E; [|done]. apply Hg in E as ->. apply IH.
Qed.

Lemma cluster_returned s s' c : surveyCluster node programId s = (s', Ok c) →
  cr_wallets c = Z.of_nat (length (wallets_in all_accounts))
  ∧ (cr_fundedVaults c, cr_totalVaultLamports c)
    = (js_sort (λ a b, vr_lamports b - vr_lamports a) (fst (fold_left fund_vault (vault_entry <$> wallets_in all_accounts) ([], 0))),
       snd (fold_left fund_vault (vault_entry <$> wallets_in all_accounts) ([], 0))).
Proof.
  unfold surveyCluster. unfold mbind at 1, Q_bind at 1, query at 1. destruct (sn_executable _ _ _); [|done].
  unfold mbind at 1, Q_bind at 1, query at 1. destruct (sn_programAccounts _ _ _) as [l|] eqn:El; [|done].
  apply (tf_accounts _ _ truthful) in El as ->. fold all_accounts.
  unfold mbind at 1, Q_bind at 1, give_back at 1. destruct (census all_accounts _) as [cs|] eqn:Ec; [|done].
  apply census_wallets in Ec. cbn [cs_wallets app] in Ec. rewrite Ec.
  unfold mbind at 1, Q_bind at 1. destruct (for_of _ _ _ _) as [s1 [r|]] eqn:Ef; [|done].
  apply (for_of_inv _ (λ acc batch, fold_left fund_vault (vault_entry <$> batch) acc)) in Ef.
  - rewrite fold_batches, by_hundred_concat in Ef. subst r. destruct (fold_left fund_vault _ _) as [f t]. by intros [= _ <-].
  - clear -truthful derived. intros b batch s s' b'. unfold mbind, Q_bind, give_back, query. rewrite vaults_derived.
    destruct (sn_multipleAccounts _ _ _) as [infos|] eqn:E; [|done]. apply (tf_balances _ _ truthful) in E as ->.
    intros [= _ <-]. by rewrite zip_entries.
Qed.

Lemma filter_fmap_length {A B} (f : A → B) (p : B → bool) l : length (List.filter p (f <$> l)) = length (List.filter (λ a, p (f a)) l).
Proof. induction l as [|a l IH]; [done|]. rewrite fmap_cons. cbn [List.filter]. destruct (p (f a)); cbn [length]; by rewrite IH. Qed.

#[local] Instance filter_perm {A} (p : A → bool) : Proper (Permutation ==> Permutation) (List.filter p).
Proof.
  induction 1 as [|x l k H IH|x y l|l k j H1 IH1 H2 IH2]; cbn [List.filter]; [done| | |by etrans].
  - destruct (p x); [by constructor|done].
  - destruct (p x), (p y); try done. apply perm_swap.
Qed.

Lemma zsum_zero {A} (f : A → Z) l : Forall (λ a, 0 <= f a) l → (zsum (f <$> l) <= 0 ↔ ∀ a, a ∈ l → f a = 0).
Proof.
  induction 1 as [|a l Ha Hl IH]; [split; [intros _ a Hin; by apply elem_of_nil in Hin|done]|].
  rewrite fmap_cons, zsum_cons. pose proof (zsum_nonneg (f <$> l) ltac:(by apply Forall_fmap)) as Hn. split.
  - intros H b [->|Hb]%elem_of_cons; [lia|]. apply IH; [lia|done].
  - intros H. rewrite (H a) by apply list_elem_of_here. assert (zsum (f <$> l) <= 0); [|lia]. apply IH. intros b Hb. apply H. by apply list_elem_of_further.
Qed.
End rows.

(** C39.  The surveys add up.  On a node that answers from one state of the chain, refusing
    any four calls in a row, the rent survey and the wallet survey return; every account
    and every lamport of the program is in one row or counted as unknown; the ledger
    splits them into what the upgrade leaves reclaimable and what it strands; every
    wallet has a row with its vault's SOL, its tokens, authorities, sessions and last
    use; every token account is in the row of its mint; and the three scripts agree on
    the wallets, the funded vaults and the SOL in them, so that the upgrade gate is clear
    exactly when no vault holds any.  Sums are exact up to 2^53 lamports. *)
Theorem surveys_add_up (node : SurveyNode) (es : Estate) (programId : address) (vault : address → address) :
  Truthful node es → answers_within_5 node → (∀ w, vault_of programId w = Ok (vault w)) →
  (∀ w, is_ok (day_of (es_lastTime es w)) = true) →
  let all := es_accounts es programId in
  let vaults := vault <$> wallets_in all in
  sound_lamports all → sound_tokens (tokens_in es vaults) → Forall (λ v, 0 <= balance_at es v) vaults → vault_sum es vaults <= 2 ^ 53 →
  ∃ r rows, returns (survey node programId) r ∧ returns (survey_wallets node programId) rows
    ∧ AccountLedger all r ∧ VaultLedger es vaults r ∧ rows ≡ₚ row_at es programId vault <$> wallets_in all
    ∧ Z.of_nat (length rows) = rr_wallets r ∧ Z.of_nat (length (funded_rows rows)) = rr_fundedVaults r
    ∧ total_sol rows = rr_vaultLamports r
    ∧ ∀ s s' c, surveyCluster node programId s = (s', Ok c) →
        cr_wallets c = rr_wallets r ∧ Z.of_nat (length (cr_fundedVaults c)) = rr_fundedVaults r
        ∧ cr_totalVaultLamports c = rr_vaultLamports r ∧ (gate_clear c = true ↔ ∀ v, v ∈ vaults → balance_at es v = 0).
Proof.
  intros Htf Han Hder Hdate all vaults Hl Ht Hn Hb.
  pose proof (survey_returns node es programId vault Htf Han Hder) as Hr.
  destruct (wallets_return node es programId vault Htf Han Hder Hdate) as (rows & Hrows & Hperm).
  unfold all_vaults, all_accounts in Hr, Hperm. fold all vaults in Hr. fold all in Hperm.
  assert (HV : VaultLedger es vaults (rent_report all (fold_left tally_account all (mkTally [] [] 0 0))
    (fold_left add_balance (es_balance es <$> vaults) (0, 0)) (fold_left (vault_step es) vaults (mkTokenTally [] 0 0 0)))).
  { apply rent_vault_ledger; [done..|]. rewrite tally_fold. subst vaults. by rewrite length_fmap. }
  eexists _, rows. split; [exact Hr|]. split; [done|]. split; [by apply rent_rows_ledger|]. split; [exact HV|]. split; [done|].
  rewrite (vl_wallets _ _ _ HV), (vl_funded _ _ _ HV), (vl_lamports _ _ _ HV).
  assert (Hn' : Forall (λ w, 0 <= balance_at es (vault w)) (wallets_in all)) by (unfold vaults in Hn; rewrite Forall_fmap in Hn; exact Hn).
  assert (Hfd : length (List.filter (λ w, 0 <? balance_at es (vault w)) (wallets_in all)) = length (funded es vaults)).
  { unfold funded, vaults. by rewrite filter_fmap_length. }
  split_and!.
  - rewrite Hperm. subst vaults. by rewrite !length_fmap.
  - unfold funded_rows. rewrite Hperm, filter_fmap_length. cbn [wr_lamports row_at]. by rewrite Hfd.
  - unfold total_sol, sum_numbers, funded_rows.
    assert (E : zsum (wr_lamports <$> List.filter (λ r, 0 <? wr_lamports r) rows) = vault_sum es vaults).
    { rewrite zsum_filter, Hperm, <- list_fmap_compose. unfold vault_sum, vaults. rewrite <- list_fmap_compose. f_equal.
      apply list_fmap_ext. intros i w Hw%list_elem_of_lookup_2. cbn. rewrite Forall_forall in Hn'. specialize (Hn' w Hw).
      destruct (Z.ltb_spec 0 (balance_at es (vault w))); lia. }
    rewrite num_sum_exact; [lia| |lia|lia]. apply Forall_fmap, Forall_forall. intros r [_ Hp]%list_elem_of_In%filter_In. cbn. lia.
  - intros s s' c Hc. apply (cluster_returned node es programId vault Htf Hder) in Hc as [Hw Hf]. unfold all_accounts in *. fold all in Hw, Hf.
    rewrite fund_fold in Hf by (done || lia). cbn [fst snd app] in Hf. injection Hf as Hf1 Hf2. subst vaults.
    unfold gate_clear. rewrite Hw, Hf1, Hf2, length_fmap, js_sort_perm, length_fmap, Hfd. split_and!; [done|done|lia|].
    rewrite negb_true_iff, Z.ltb_ge. rewrite Z.add_0_l. unfold vault_sum. by apply zsum_zero.
Qed.
End wallets.

(** ** Examples *)
Module SurveySample.
Import ConcreteKit.

Definition program : addr := at_byte 9.
Definition wallet : addr := at_byte 2.
#[export] Instance survey_pda : Web3Pda (K := kit) :=
  {| findProgramAddressSync := λ seeds _, Some (match seeds with [_; w] => default addr_zero (mk (pad32 (u8 99 :: w))) | _ => addr_zero end, 255) |}.
Definition vault (w : addr) : addr := default addr_zero (mk (pad32 (u8 99 :: proj1_sig w))).

(** A wallet with one passkey and one session, a treasury shard, and an account of
    another layout. *)
Definition accounts : list (@OwnedAccount kit) :=
  [mkOwned wallet (u8 1 :: zeros 7) 946560;
   mkOwned (at_byte 3) ([u8 2; u8 1; u8 0; u8 255] ++ zeros 4 ++ le_split 4 7 ++ zeros 4 ++ proj1_sig wallet ++ zeros 97) 1900080;
   mkOwned (at_byte 4) (u8 3 :: zeros 7 ++ proj1_sig wallet ++ zeros 40) 1447680;
   mkOwned (at_byte 5) (u8 7 :: zeros 7) 5000000;
   mkOwned (at_byte 6) (u8 153 :: zeros 7) 1].
Definition estate : @Estate kit :=
  mkEstate (λ _, accounts) (λ v, if decide (v = vault wallet) then Some 2000000 else None)
    (λ v p, if decide (v = vault wallet) then [mkHeld "mint" 5 None 6 2039280] else [])
    (λ _, Some 1700000000).

(** It answers every fifth call. *)
Definition node : @SurveyNode kit :=
  let ask {A} (n : nat) (a : A) : outcome string A := if (n mod 5 =? 4)%nat then Ok a else Throw "429 Too Many Requests" in
  mkSurveyNode (λ n _, Ok true) (λ n p, ask n (es_accounts estate p)) (λ n ks, ask n (es_balance estate <$> ks))
    (λ n v p, ask n (es_tokens estate v p)) (λ n w, ask n (es_lastTime estate w)).

Lemma node_truthful : Truthful node estate.
Proof. constructor; intros *; cbn; destruct (_ =? 4)%nat; congruence. Qed.

Lemma node_answers : answers_within_5 node.
Proof.
  intros n. exists (4 - n mod 5)%nat. pose proof (Nat.mod_upper_bound n 5 ltac:(lia)). split; [lia|].
  assert (E : ((n + (4 - n mod 5)) mod 5 =? 4)%nat = true).
  { apply Nat.eqb_eq. rewrite (Nat.div_mod_eq n 5) at 1. replace (5 * (n / 5) + n mod 5 + (4 - n mod 5))%nat with (4 + n / 5 * 5)%nat by lia.
    by rewrite Nat.Div0.mod_add. }
  unfold answers_at, node. cbn [sn_programAccounts sn_multipleAccounts sn_tokenAccounts sn_signatures]. by rewrite E.
Qed.

(** The node of an account without data. *)
Definition hollow : @SurveyNode kit :=
  mkSurveyNode (λ _ _, Ok true) (λ _ _, Ok [mkOwned wallet [] 1]) (λ _ ks, Ok ((λ _, None) <$> ks)) (λ _ _ _, Ok []) (λ _ _, Ok None).
End SurveySample.
Import ConcreteKit SurveySample.

Lemma nonneg_check {A} (g : A → Z) l : forallb (λ a, 0 <=? g a) l = true → Forall (λ a, 0 <= g a) l.
Proof. intros H. apply Forall_forall. intros a Ha. rewrite forallb_forall in H. apply list_elem_of_In, H in Ha. lia. Qed.

Lemma surveys_add_up_witness :
  ∃ r rows, returns (survey node program) r ∧ returns (survey_wallets node program) rows
    ∧ rr_reclaimable r = 2846640 ∧ rr_strandedIfNotClosedFirst r = 6447680 ∧ rr_unknownLamports r = 1 ∧ total_sol rows = 2000000.
Proof.
  destruct (@surveys_add_up kit survey_pda node estate program vault node_truthful node_answers (λ _, eq_refl) (λ _, eq_refl))
    as (r & rows & Hr & Hrows & A & V & _ & _ & _ & Hsum & _).
  - split; [apply nonneg_check; vm_compute; reflexivity|apply Z.leb_le; vm_compute; reflexivity].
  - split; [apply nonneg_check; vm_compute; reflexivity|apply Z.leb_le; vm_compute; reflexivity].
  - apply nonneg_check. vm_compute. reflexivity.
  - apply Z.leb_le. vm_compute. reflexivity.
  - exists r, rows. split; [exact Hr|]. split; [exact Hrows|].
    assert (E : rr_reclaimable r = 2846640) by (rewrite (al_reclaimable _ _ A); vm_compute; reflexivity).
    destruct (Hr (mkSurveyState 0 0)) as [s' E']. split; [exact E|].
    assert (Hres : ∀ r' : RentReport, survey node program (mkSurveyState 0 0) = (s', Ok r') →
      rr_strandedIfNotClosedFirst r' = 6447680 ∧ rr_unknownLamports r' = 1).
    { assert (Hc : match (survey node program (mkSurveyState 0 0)).2 with
        | Ok r' => (rr_strandedIfNotClosedFirst r', rr_unknownLamports r') | Throw _ => (0, 0) end = (6447680, 1)) by (vm_compute; reflexivity).
      intros r' E0. rewrite E0 in Hc. cbn [snd] in Hc. split; [exact (f_equal fst Hc)|exact (f_equal snd Hc)]. }
    destruct (Hres r E') as [E1 E2]. split; [exact E1|]. split; [exact E2|].
    rewrite Hsum, (vl_lamports _ _ _ V). vm_compute. reflexivity.
Defined.

(** survey-v1.ts stops at an account without data; the others count it or pass it over. *)
Example empty_account_stops_survey :
  is_ok (surveyCluster hollow program (mkSurveyState 0 0)).2 = false
  ∧ is_ok (survey hollow program (mkSurveyState 0 0)).2 = true ∧ is_ok (survey_wallets hollow program (mkSurveyState 0 0)).2 = true.
Proof. split_and!; vm_compute; reflexivity. Qed.
