(* ===== verification/Keepers.v ===== *)
(** * Collecting expired rent

    Models the two keepers that run against the chain,
    src/scripts/rehearse/close-expired-sessions.cjs and reclaim-deferred.cjs, and the
    instructions they send, whole: processor/session/close_expired.rs and
    processor/execute/reclaim.rs of the program.  The chain is a store of accounts; a
    transaction takes effect as a whole or not at all.  What a keeper picks is accepted,
    closes only what is dead, and returns the whole rent.  Fees and the size of a
    transaction are left out: one that does not reach the chain is not [sent]. *)
From S2P Require Import Prelude Bytes Kit JsMap Packing Signing ProgramChallenges ProgramAuth ProgramHandlers.
From S2P Require Import LegacyWeb3 Survey.
Local Open Scope string_scope.
Local Open Scope list_scope.
Local Open Scope Z_scope.

(** ** The program *)
Record AccountState := mkState { as_owner : bytes; as_data : bytes; as_lamports : Z }.
Definition Store : Type := bytes → AccountState.
Definition put (st : Store) (k : bytes) (a : AccountState) : Store := λ x, if decide (x = k) then a else st x.

(** The end of both instructions: the data is zeroed and the lamports move. *)
Definition drain (st : Store) (from to : bytes) : result Store :=
  let a := st from in
  let b := st to in
  (throw! PArithmeticOverflow when 2 ^ 64 <=? as_lamports b + as_lamports a;
   Ok (put (put st to (mkState (as_owner b) (as_data b) (as_lamports b + as_lamports a)))
         from (mkState (as_owner a) (zeros (length (as_data a))) 0)))%js.

Definition V1_DISC_SESSION : Z := 3.
Definition OFF_EXPIRES_AT : nat := 72.

Definition close_expired (program_id : bytes) (slot : Z) (accounts : list AccountInfo) (st : Store) : result Store :=
  (caller ← of_option PNotEnoughAccountKeys (accounts !! 0%nat);
   session_pda ← of_option PNotEnoughAccountKeys (accounts !! 1%nat);
   refund_dest ← of_option PNotEnoughAccountKeys (accounts !! 2%nat);
   throw! PMissingRequiredSignature when negb (ai_is_signer caller);
   throw! PInvalidAccountData when bytesEqual (ai_key refund_dest) (ai_key session_pda);
   let session := st (ai_key session_pda) in
   throw! PIllegalOwner when negb (bytesEqual (as_owner session) program_id);
   let session_data := as_data session in
   throw! PInvalidAccountData when (length session_data <? SessionAccount_size)%nat;
   let discriminator := val (session_data !!! 0%nat) in
   throw! PInvalidAccountData when negb (discriminator =? V1_DISC_SESSION) && negb (discriminator =? Disc_Session);
   let expires_at := le_combine (slice OFF_EXPIRES_AT (OFF_EXPIRES_AT + 8) session_data) in
   throw! PSessionNotExpired when slot <=? expires_at;
   drain st (ai_key session_pda) (ai_key refund_dest))%js.

Definition V1_DISC_DEFERRED : Z := 4.
Definition V1_OFF_PAYER : nat := 136.
Definition V1_OFF_EXPIRES_AT : nat := 168.

(** The payer and the expiry of a deferred authorization, of either version. *)
Definition read_deferred (data : bytes) : result (bytes * Z) :=
  (if bool_decide (val <$> head data = Some V1_DISC_DEFERRED)
   then throw! PInvalidAccountData when (length data <? DeferredExecAccount_size)%nat;
        Ok (slice V1_OFF_PAYER (V1_OFF_PAYER + 32) data, le_combine (slice V1_OFF_EXPIRES_AT (V1_OFF_EXPIRES_AT + 8) data))
   else _ ← DeferredExecAccount_check data; Ok (slice 136 168 data, le_combine (slice 168 176 data)))%js.

Definition reclaim_deferred (program_id : bytes) (slot : Z) (accounts : list AccountInfo) (st : Store) : result Store :=
  (payer ← of_option PNotEnoughAccountKeys (accounts !! 0%nat);
   deferred_pda ← of_option PNotEnoughAccountKeys (accounts !! 1%nat);
   refund_dest ← of_option PNotEnoughAccountKeys (accounts !! 2%nat);
   throw! PMissingRequiredSignature when negb (ai_is_signer payer);
   let deferred := st (ai_key deferred_pda) in
   throw! PIllegalOwner when negb (bytesEqual (as_owner deferred) program_id);
   '(stored_payer, expires_at) ← read_deferred (as_data deferred);
   throw! PUnauthorizedReclaim when negb (bytesEqual stored_payer (ai_key payer));
   throw! PUnauthorizedReclaim when negb (bytesEqual (ai_key refund_dest) stored_payer);
   throw! PDeferredAuthorizationNotExpired when slot <=? expires_at;
   throw! PInvalidAccountData when bytesEqual (ai_key refund_dest) (ai_key deferred_pda);
   drain st (ai_key deferred_pda) (ai_key refund_dest))%js.

(** ** The entry point *)
Definition is_sunset_instruction (discriminator : Z) : bool :=
  (discriminator =? 8) || (discriminator =? 17) || (discriminator =? 18).

(** A build of the program: the address it is compiled for, whether it is a retired
    deployment, and its other instructions, which no theorem here says anything about. *)
Record Deployment := mkDeployment {
  dp_ID : bytes;
  dp_SUNSET : bool;
  dp_rest : Z → list AccountInfo → bytes → Store → result Store;
}.

Definition process_instruction (D : Deployment) (program_id : bytes) (slot : Z) (accounts : list AccountInfo)
    (instruction_data : bytes) (st : Store) : result Store :=
  (throw! PWrongProgramAddress when negb (bytesEqual program_id (dp_ID D));
   match instruction_data with
   | [] => Throw PInvalidInstructionData
   | discriminator :: data =>
     throw! PRetiredDeployment when dp_SUNSET D && negb (is_sunset_instruction (val discriminator));
     match val discriminator with
     | 8 => reclaim_deferred program_id slot accounts st
     | 18 => close_expired program_id slot accounts st
     | d => dp_rest D d accounts data st
     end
   end)%js.

Section keepers.
Context `{K : Kit}.
Variables (D : Deployment) (PROGRAM_ID : address).

(** A transaction takes effect as a whole or not at all.  An instruction sees the
    privileges it asks for itself. *)
Definition infos_of (ix : TransactionInstruction) : list AccountInfo :=
  (λ k, mkInfo (address_encode (pubkey k)) (k_isSigner k) (k_isWritable k)) <$> ti_keys ix.

Definition run_one (slot : Z) (st : Store) (ix : TransactionInstruction) : result Store :=
  process_instruction D (address_encode (ti_programId ix)) slot (infos_of ix) (ti_data ix) st.

Fixpoint process_transaction (slot : Z) (st : Store) (ixs : list TransactionInstruction) : result Store :=
  match ixs with
  | [] => Ok st
  | ix :: ixs => st ← run_one slot st ix; process_transaction slot st ixs
  end.

(** ** close-expired-sessions.cjs *)
Definition DISC_CLOSE_EXPIRED_SESSION : Z := 18.
Definition DISC_SESSION_V1 : Z := 3.
Definition DISC_SESSION_V2 : Z := 0x23.
Definition SESSION_HEADER : nat := 80.

Definition closeIx (caller session refund : address) : TransactionInstruction :=
  mkTi PROGRAM_ID [mkKey caller true true; mkKey session false true; mkKey refund false true] [u8 DISC_CLOSE_EXPIRED_SESSION].

(** An account to close, and what is read of it. *)
Record Found := mkFound { fd_pubkey : address; fd_lamports : Z; fd_version : Z }.

(** One account of a scan; [expiresAt] goes through [Number]. *)
Definition sift_session (slot disc : Z) (acc : list Found * Z) (a : OwnedAccount) : list Found * Z :=
  let '(found, live) := acc in
  if (length (oa_data a) <? SESSION_HEADER)%nat then acc
  else
    let expiresAt := number_of_bigint (le_combine (slice OFF_EXPIRES_AT (OFF_EXPIRES_AT + 8) (oa_data a))) in
    if slot <=? expiresAt then (found, live + 1)
    else (found ++ [mkFound (oa_pubkey a) (oa_lamports a) (if disc =? DISC_SESSION_V1 then 1 else 2)], live).

Definition expired_sessions (slot : Z) (scan : Z → list OwnedAccount) : list Found * Z :=
  fold_left (λ acc disc, fold_left (sift_session slot disc) (scan disc) acc) [DISC_SESSION_V1; DISC_SESSION_V2] ([], 0).

(** The loop of both keepers: a transaction with an instruction for each account of a
    batch.  Before the [i]-th one lands the others run, and it runs at [slot_at i]; one
    that is not sent, or fails, is reported and passed over, and one that lands is
    credited. *)
Fixpoint send_batches {A} (ix : A → TransactionInstruction) (sent : nat → bool) (credit : Z → list A → Z) (slot_at : nat → Z)
    (others : nat → Store → Store) (i : nat) (bs : list (list A)) (st : Store) (acc : Z) : Store * Z :=
  match bs with
  | [] => (st, acc)
  | batch :: bs =>
    let st := others i st in
    match (if sent i then process_transaction (slot_at i) st (ix <$> batch) else Throw (EExternal "not sent")) with
    | Ok st => send_batches ix sent credit slot_at others (S i) bs st (credit acc batch)
    | Throw _ => send_batches ix sent credit slot_at others (S i) bs st acc
    end
  end.

Definition close_expired_sessions (EXECUTE : bool) (BATCH : nat) (keeper refund : address) (slot : Z)
    (scan : Z → list OwnedAccount) (slot_at : nat → Z) (others : nat → Store → Store) (sent : nat → bool) (st : Store) : Store * Z :=
  let '(found, _) := expired_sessions slot scan in
  if negb EXECUTE then (st, 0)
  else send_batches (λ s, closeIx keeper (fd_pubkey s) refund) sent (λ closed batch, closed + Z.of_nat (length batch))
         slot_at others 0 (batches (length found) BATCH found) st 0.

(** ** reclaim-deferred.cjs *)
Definition DISC_RECLAIM_DEFERRED : Z := 8.
Definition DISC_DEFERRED : Z := 4.
Definition OFF_PAYER : nat := 136.
Definition OFF_EXPIRES : nat := 168.
Definition LEN_DEFERRED : nat := 176.

Definition reclaimIx (payer deferredPda refundDestination : address) : TransactionInstruction :=
  mkTi PROGRAM_ID [mkKey payer true false; mkKey deferredPda false true; mkKey refundDestination false true]
    [u8 DISC_RECLAIM_DEFERRED].

Record Sifted := mkSifted {
  sf_mine : list OwnedAccount;
  sf_others : list (bytes * (Z * Z));
  sf_otherPayer : Z;
  sf_notExpired : Z;
}.

Definition sift_deferred (sponsor : address) (slot : Z) (s : Sifted) (a : OwnedAccount) : Sifted :=
  let d := oa_data a in
  if (length d <? LEN_DEFERRED)%nat || negb (bool_decide (discriminator_of a = Some DISC_DEFERRED)) then s
  else
    let payer := slice OFF_PAYER (OFF_PAYER + 32) d in
    let expiresAt := number_of_bigint (le_combine (slice OFF_EXPIRES (OFF_EXPIRES + 8) d)) in
    if negb (bytesEqual payer (address_encode sponsor)) then
      let '(count, lamports) := default (0, 0) (map_get payer (sf_others s)) in
      mkSifted (sf_mine s) (map_set payer (count + 1, num_add lamports (oa_lamports a)) (sf_others s))
        (sf_otherPayer s + 1) (sf_notExpired s)
    else if slot <=? expiresAt then mkSifted (sf_mine s) (sf_others s) (sf_otherPayer s) (sf_notExpired s + 1)
    else mkSifted (sf_mine s ++ [a]) (sf_others s) (sf_otherPayer s) (sf_notExpired s).

Definition expired_deferred (sponsor : address) (slot : Z) (accounts : list OwnedAccount) : Sifted :=
  fold_left (sift_deferred sponsor slot) accounts (mkSifted [] [] 0 0).

(** The relayer signs and sends what it does not refuse. *)
Definition reclaim_expired (EXECUTE : bool) (BATCH : nat) (sponsor : address) (slot : Z) (accounts : list OwnedAccount)
    (slot_at : nat → Z) (others : nat → Store → Store) (relayed : nat → bool) (st : Store) : Store * Z :=
  let mine := sf_mine (expired_deferred sponsor slot accounts) in
  if negb EXECUTE then (st, 0)
  else send_batches (λ a, reclaimIx sponsor (oa_pubkey a) sponsor) relayed
         (λ reclaimed batch, num_add reclaimed (sum_numbers (oa_lamports <$> batch)))
         slot_at others 0 (batches (length mine) BATCH mine) st 0.
End keepers.

(** ** Draining *)
Section drains.
Variable to : bytes.

(** [st'] is [st] with the accounts [l] closed into [to]. *)
Record Drained (st st' : Store) (l : list bytes) : Prop := {
  dr_gain : st' to = mkState (as_owner (st to)) (as_data (st to)) (as_lamports (st to) + zsum ((λ k, as_lamports (st k)) <$> l));
  dr_closed : ∀ k, k ∈ l → st' k = mkState (as_owner (st k)) (zeros (length (as_data (st k)))) 0;
  dr_rest : ∀ x, x ∉ l → x ≠ to → st' x = st x;
}.

Lemma drained_nil st : Drained st st [].
Proof. constructor; [|by intros k ?%elem_of_nil|done]. cbn. rewrite Z.add_0_r. by destruct (st to). Qed.

Lemma drained_app st st1 st2 l k : Drained st st1 l → Drained st1 st2 k → NoDup (l ++ k) → to ∉ l ++ k → Drained st st2 (l ++ k).
Proof.
  intros D1 D2 (_ & Hdis & _)%NoDup_app Hto. rewrite elem_of_app in Hto.
  assert (Hsame : ∀ x, x ∈ k → st1 x = st x).
  { intros x Hx. apply (dr_rest _ _ _ D1); [|intros ->; tauto]. intros Hl. by apply (Hdis x). }
  constructor.
  - rewrite (dr_gain _ _ _ D2), (dr_gain _ _ _ D1). cbn [as_owner as_data as_lamports]. rewrite fmap_app, zsum_app. f_equal.
    rewrite <- Z.add_assoc. do 2 f_equal. f_equal. apply list_fmap_ext. intros i x Hx%list_elem_of_lookup_2. by rewrite Hsame.
  - intros x [Hx|Hx]%elem_of_app.
    + rewrite (dr_rest _ _ _ D2); [by apply (dr_closed _ _ _ D1)| |intros ->; tauto]. by apply Hdis.
    + rewrite (dr_closed _ _ _ D2) by done. by rewrite Hsame.
  - intros x Hx Hne. rewrite elem_of_app in Hx. rewrite (dr_rest _ _ _ D2) by tauto. apply (dr_rest _ _ _ D1); tauto.
Qed.

Lemma drain_one st k : k ≠ to → as_lamports (st to) + as_lamports (st k) < 2 ^ 64 →
  ∃ st', drain st k to = Ok st' ∧ Drained st st' [k].
Proof.
  intros Hne Hb. unfold drain. rewrite pass_throw by (apply Z.leb_gt; lia). eexists. split; [reflexivity|]. unfold put. constructor.
  - rewrite decide_False, decide_True by congruence. cbn. by rewrite Z.add_0_r.
  - intros x ->%list_elem_of_singleton. by rewrite decide_True.
  - intros x Hx Hnt. rewrite list_elem_of_singleton in Hx. by rewrite !decide_False.
Qed.
End drains.

(** ** Numbers and times *)
Lemma number_of_large z : 2 ^ 53 <= z → 2 ^ 53 <= number_of_bigint z.
Proof.
  intros Hz. unfold number_of_bigint, round_double. destruct (Z.ltb_spec z 0); [lia|]. destruct (Z.ltb_spec z (2 ^ 53)); [lia|].
  set (n := Z.log2 z). assert (Hn : 53 <= n) by (apply Z.log2_le_pow2; lia).
  destruct (Z.log2_spec z ltac:(lia)) as [Hlo _]. fold n in Hlo.
  assert (Hp : 2 ^ n = 2 ^ 52 * 2 ^ (n - 52)) by (rewrite <- Z.pow_add_r by lia; f_equal; lia).
  assert (Hu : 0 < 2 ^ (n - 52)) by (apply Z.pow_pos_nonneg; lia).
  assert (Hq : 2 ^ 52 <= z / 2 ^ (n - 52)) by (apply Z.div_le_lower_bound; lia).
  assert (Hn2 : 2 ^ 53 <= 2 ^ n) by (apply Z.pow_le_mono_r; lia).
  destruct (_ || _); nia.
Qed.

(** Rounding an expiry does not change which side of a slot it is on. *)
Lemma rounded_expiry slot e : 0 <= slot <= 2 ^ 53 → 0 <= e → (slot <=? number_of_bigint e) = (slot <=? e).
Proof.
  intros Hs He. destruct (Z.le_gt_cases e (2 ^ 53)) as [H|H]; [by rewrite number_of_small|].
  pose proof (number_of_large e ltac:(lia)). destruct (Z.leb_spec slot (number_of_bigint e)), (Z.leb_spec slot e); lia || done.
Qed.

Lemma throw_when {A} c (e : error) (r : result A) : c = true → (throw! e when c; r)%js = Throw e.
Proof. by intros ->. Qed.

Section collect.
Context `{KL : KitLaws}.
Variables (D : Deployment) (PROGRAM_ID : address).
Hypothesis at_home : dp_ID D = address_encode PROGRAM_ID.

Definition session_expiry (d : bytes) : Z := le_combine (slice 72 80 d).

Lemma expiry_nonneg d : 0 <= session_expiry d.
Proof. unfold session_expiry. pose proof (le_combine_range (length (slice 72 80 d)) (slice 72 80 d) eq_refl). lia. Qed.

(** A session past its expiry. *)
Definition expired_at (slot : Z) (a : OwnedAccount) : bool :=
  (80 <=? length (oa_data a))%nat && (session_expiry (oa_data a) <? slot).

Definition deferred_expiry (d : bytes) : Z := le_combine (slice 168 176 d).

Lemma deferred_nonneg d : 0 <= deferred_expiry d.
Proof. unfold deferred_expiry. pose proof (le_combine_range (length (slice 168 176 d)) (slice 168 176 d) eq_refl). lia. Qed.

(** A v1 authorization the sponsor paid for, past its expiry. *)
Definition reclaimable (sponsor : address) (slot : Z) (a : OwnedAccount) : bool :=
  (176 <=? length (oa_data a))%nat && bool_decide (discriminator_of a = Some 4)
  && bytesEqual (slice 136 168 (oa_data a)) (address_encode sponsor) && (deferred_expiry (oa_data a) <? slot).

Lemma reclaimable_later sponsor slot now a : reclaimable sponsor slot a = true → slot <= now → reclaimable sponsor now a = true.
Proof. intros [Hr He%Z.ltb_lt]%andb_prop Hn. apply andb_true_intro. split; [done|apply Z.ltb_lt; lia]. Qed.

Lemma reclaimable_disc sponsor slot a : reclaimable sponsor slot a = true → discriminator_of a = Some DISC_DEFERRED.
Proof. unfold reclaimable. rewrite !andb_true_iff, bool_decide_eq_true. tauto. Qed.

(** The scan's filter. *)
Definition is_session (a : OwnedAccount) : Prop :=
  val (oa_data a !!! 0%nat) = DISC_SESSION_V1 ∨ val (oa_data a !!! 0%nat) = DISC_SESSION_V2.

Lemma expired_later slot now a : expired_at slot a = true → slot <= now → expired_at now a = true.
Proof. intros [Hl He%Z.ltb_lt]%andb_prop Hn. apply andb_true_intro. split; [done|apply Z.ltb_lt; lia]. Qed.

Lemma sift_fold slot disc l found live : 0 <= slot <= 2 ^ 53 → ∃ live',
  fold_left (sift_session slot disc) l (found, live)
  = (found ++ ((λ a, mkFound (oa_pubkey a) (oa_lamports a) (if disc =? DISC_SESSION_V1 then 1 else 2)) <$> List.filter (expired_at slot) l), live').
Proof.
  intros Hs. revert found live. induction l as [|a l IH]; intros found live; [exists live; by rewrite app_nil_r|].
  cbn [fold_left List.filter]. unfold sift_session at 2. unfold expired_at at 1, SESSION_HEADER.
  change (slice OFF_EXPIRES_AT (OFF_EXPIRES_AT + 8) (oa_data a)) with (slice 72 80 (oa_data a)). fold (session_expiry (oa_data a)).
  rewrite rounded_expiry by (done || apply expiry_nonneg).
  destruct (Nat.ltb_spec (length (oa_data a)) 80), (Nat.leb_spec 80 (length (oa_data a))); try lia; [apply IH|]. cbn [andb].
  destruct (Z.leb_spec slot (session_expiry (oa_data a))), (Z.ltb_spec (session_expiry (oa_data a)) slot); try lia; [apply IH|].
  destruct (IH (found ++ [mkFound (oa_pubkey a) (oa_lamports a) (if disc =? DISC_SESSION_V1 then 1 else 2)]) live) as [live' E].
  exists live'. rewrite E, fmap_cons, <- app_assoc. done.
Qed.

(** Only the keys of what is found matter to the transactions. *)
Lemma expired_found slot scan : 0 <= slot <= 2 ^ 53 →
  fd_pubkey <$> fst (expired_sessions slot scan)
  = oa_pubkey <$> List.filter (expired_at slot) (scan DISC_SESSION_V1 ++ scan DISC_SESSION_V2).
Proof.
  intros Hs. unfold expired_sessions. cbn [fold_left].
  destruct (sift_fold slot DISC_SESSION_V1 (scan DISC_SESSION_V1) [] 0 Hs) as [l1 ->].
  destruct (sift_fold slot DISC_SESSION_V2 (scan DISC_SESSION_V2)
    ([] ++ ((λ a, mkFound (oa_pubkey a) (oa_lamports a) (if DISC_SESSION_V1 =? DISC_SESSION_V1 then 1 else 2)) <$> List.filter (expired_at slot) (scan DISC_SESSION_V1))) l1 Hs)
    as [l2 ->].
  cbn [fst app]. rewrite List.filter_app, !fmap_app, <- !list_fmap_compose. done.
Qed.

(** The keeper of authorizations takes those, and counts every authorization once. *)
Definition is_deferred (a : OwnedAccount) : bool := (176 <=? length (oa_data a))%nat && bool_decide (discriminator_of a = Some 4).

Definition sifted_count (s : Sifted) : Z := Z.of_nat (length (sf_mine s)) + sf_otherPayer s + sf_notExpired s.

Lemma sift_deferred_step sponsor slot s a : 0 <= slot <= 2 ^ 53 →
  sf_mine (sift_deferred sponsor slot s a) = sf_mine s ++ (if reclaimable sponsor slot a then [a] else [])
  ∧ sifted_count (sift_deferred sponsor slot s a) = sifted_count s + (if is_deferred a then 1 else 0).
Proof.
  intros Hs. unfold sift_deferred, reclaimable, is_deferred, sifted_count, LEN_DEFERRED.
  change (slice OFF_EXPIRES (OFF_EXPIRES + 8) (oa_data a)) with (slice 168 176 (oa_data a)). fold (deferred_expiry (oa_data a)).
  change (slice OFF_PAYER (OFF_PAYER + 32) (oa_data a)) with (slice 136 168 (oa_data a)). change DISC_DEFERRED with 4.
  rewrite rounded_expiry by (done || apply deferred_nonneg).
  destruct (Nat.ltb_spec (length (oa_data a)) 176), (Nat.leb_spec 176 (length (oa_data a))); try lia;
    cbn [andb orb]; [rewrite app_nil_r; split; [done|lia]|].
  destruct (bool_decide _); cbn [negb andb]; [|rewrite app_nil_r; split; [done|lia]].
  destruct (bytesEqual _ _); cbn [negb andb].
  2: { destruct (default _ _). cbn [sf_mine sf_otherPayer sf_notExpired]. rewrite app_nil_r. split; [done|lia]. }
  destruct (Z.leb_spec slot (deferred_expiry (oa_data a))), (Z.ltb_spec (deferred_expiry (oa_data a)) slot); try lia;
    cbn [sf_mine sf_otherPayer sf_notExpired]; rewrite ?app_nil_r, ?length_app; cbn [length]; split; (done || lia).
Qed.

Lemma sift_deferred_fold sponsor slot l s : 0 <= slot <= 2 ^ 53 →
  sf_mine (fold_left (sift_deferred sponsor slot) l s) = sf_mine s ++ List.filter (reclaimable sponsor slot) l
  ∧ sifted_count (fold_left (sift_deferred sponsor slot) l s) = sifted_count s + Z.of_nat (length (List.filter is_deferred l)).
Proof.
  intros Hs. revert s. induction l as [|a l IH]; intros s; [cbn; rewrite app_nil_r; split; [done|lia]|].
  cbn [fold_left List.filter]. destruct (IH (sift_deferred sponsor slot s a)) as [-> ->].
  destruct (sift_deferred_step sponsor slot s a Hs) as [-> ->]. rewrite <- app_assoc.
  destruct (reclaimable sponsor slot a), (is_deferred a); cbn [app length]; split; (done || lia).
Qed.

(** ** Transactions that close *)
Section closing.
Variables (A : Type) (key : A → bytes) (ix : A → TransactionInstruction) (to : bytes) (st0 : Store).

Definition closes_at (slot : Z) (a : A) : Prop :=
  ∀ st, st (key a) = st0 (key a) → run_one D slot st (ix a) = drain st (key a) to.

Lemma transaction_closes slot l st :
  (∀ a, a ∈ l → closes_at slot a ∧ st (key a) = st0 (key a) ∧ 0 <= as_lamports (st (key a))) →
  NoDup (key <$> l) → to ∉ key <$> l →
  as_lamports (st to) + zsum ((λ k, as_lamports (st k)) <$> (key <$> l)) < 2 ^ 64 →
  ∃ st', process_transaction D slot st (ix <$> l) = Ok st' ∧ Drained to st st' (key <$> l).
Proof.
  revert st. induction l as [|a l IH]; intros st Hl Hnd Hto Hb; [exists st; split; [done|apply drained_nil]|].
  rewrite !fmap_cons, zsum_cons in Hb. rewrite fmap_cons in Hnd, Hto. rewrite !fmap_cons. cbn [process_transaction].
  destruct (Hl a) as (Hc & Hst & Hn); [apply list_elem_of_here|]. rewrite (Hc st Hst).
  apply not_elem_of_cons in Hto as [Hne Hto]. apply NoDup_cons in Hnd as [Hni Hnd].
  assert (Hsum : 0 <= zsum ((λ k, as_lamports (st k)) <$> (key <$> l))).
  { apply zsum_nonneg, Forall_fmap, Forall_fmap, Forall_forall. intros b Hb'. apply Hl. by apply list_elem_of_further. }
  destruct (drain_one to st (key a)) as (st1 & -> & D1); [congruence|lia|]. rewrite bind_ok.
  assert (Hsame : ∀ b, b ∈ l → st1 (key b) = st (key b)).
  { intros b Hb'. assert (key b ∈ key <$> l) by (by apply list_elem_of_fmap_2).
    apply (dr_rest _ _ _ _ D1); [rewrite list_elem_of_singleton|]; intros E; rewrite E in *; done. }
  destruct (IH st1) as (st2 & -> & D2); [| done | done | |].
  - intros b Hb'. rewrite (Hsame b Hb'). apply Hl. by apply list_elem_of_further.
  - rewrite (dr_gain _ _ _ _ D1). cbn [as_lamports fmap list_fmap]. rewrite zsum_cons.
    replace (zsum ((λ k, as_lamports (st1 k)) <$> (key <$> l))) with (zsum ((λ k, as_lamports (st k)) <$> (key <$> l))); [unfold zsum at 1; cbn; lia|].
    f_equal. apply list_fmap_ext. intros i k Hk%list_elem_of_lookup_2. apply list_elem_of_fmap in Hk as (b & -> & Hb'). by rewrite Hsame.
  - exists st2. split; [done|]. change (key a :: (key <$> l)) with ([key a] ++ (key <$> l)).
    eapply drained_app; [exact D1|exact D2|by constructor|]. cbn. apply not_elem_of_cons. done.
Qed.

(** Over batches, on a chain where nothing else happens. *)
Lemma batches_close credit slot_at i bs st acc :
  (∀ j a, a ∈ concat bs → closes_at (slot_at j) a) →
  (∀ a, a ∈ concat bs → st (key a) = st0 (key a) ∧ 0 <= as_lamports (st (key a))) →
  NoDup (key <$> concat bs) → to ∉ key <$> concat bs →
  as_lamports (st to) + zsum ((λ k, as_lamports (st k)) <$> (key <$> concat bs)) < 2 ^ 64 →
  ∃ st', send_batches D ix (λ _, true) credit slot_at (λ _ s, s) i bs st acc = (st', fold_left credit bs acc)
    ∧ Drained to st st' (key <$> concat bs).
Proof.
  revert i st acc. induction bs as [|b bs IH]; intros i st acc Hc Hl Hnd Hto Hb.
  { exists st. split; [done|apply drained_nil]. }
  cbn [concat] in *. rewrite fmap_app in Hnd, Hto, Hb. rewrite fmap_app, zsum_app in Hb. cbn [send_batches fold_left].
  assert (Hn1 : 0 <= zsum ((λ k, as_lamports (st k)) <$> (key <$> concat bs))).
  { apply zsum_nonneg, Forall_fmap, Forall_fmap, Forall_forall. intros a Ha. apply Hl, elem_of_app. by right. }
  destruct (NoDup_app (key <$> b) (key <$> concat bs)) as [(Hn & Hdis & Hnd') _]; [done|].
  rewrite elem_of_app in Hto.
  destruct (transaction_closes (slot_at i) b st) as (st1 & -> & D1); [|done|tauto|lia|].
  { intros a Ha. split; [apply Hc, elem_of_app; by left|]. apply Hl, elem_of_app. by left. }
  assert (Hsame : ∀ a, a ∈ concat bs → st1 (key a) = st (key a)).
  { intros a Ha. assert (Hk : key a ∈ key <$> concat bs) by (by apply list_elem_of_fmap_2).
    apply (dr_rest _ _ _ _ D1); [intros Hk'; by apply (Hdis (key a))|intros E; rewrite E in Hk; tauto]. }
  destruct (IH (S i) st1 (credit acc b)) as (st2 & E2 & D2).
  - intros j a Ha. apply Hc, elem_of_app. by right.
  - intros a Ha. rewrite (Hsame a Ha). apply Hl, elem_of_app. by right.
  - done.
  - tauto.
  - rewrite (dr_gain _ _ _ _ D1). cbn [as_lamports].
    replace (zsum ((λ k, as_lamports (st1 k)) <$> (key <$> concat bs))) with (zsum ((λ k, as_lamports (st k)) <$> (key <$> concat bs))); [lia|].
    f_equal. apply list_fmap_ext. intros n k Hk%list_elem_of_lookup_2. apply list_elem_of_fmap in Hk as (a & -> & Ha). by rewrite Hsame.
  - exists st2. rewrite E2, fmap_app. split; [done|].
    eapply drained_app; [exact D1|exact D2|done|]. by rewrite elem_of_app.
Qed.
End closing.

Lemma count_batches {A} (bs : list (list A)) n : fold_left (λ n b, n + Z.of_nat (length b)) bs n = n + Z.of_nat (length (concat bs)).
Proof. revert n. induction bs as [|b bs IH]; intros n; cbn [fold_left concat]; [cbn; lia|]. rewrite IH, length_app. lia. Qed.

(** What a scan says is what is stored; no account is in it twice. *)
Record Scanned (st : Store) (l : list OwnedAccount) : Prop := {
  sn_stored : ∀ a, a ∈ l → st (address_encode (oa_pubkey a)) = mkState (address_encode PROGRAM_ID) (oa_data a) (oa_lamports a);
  sn_lamports : ∀ a, a ∈ l → 0 <= oa_lamports a;
  sn_once : NoDup (oa_pubkey <$> l);
}.

Lemma once_encoded (l : list OwnedAccount) : NoDup (oa_pubkey <$> l) → NoDup ((λ a, address_encode (oa_pubkey a)) <$> l).
Proof.
  intros H. change (λ a, address_encode (oa_pubkey a)) with (address_encode ∘ oa_pubkey). rewrite list_fmap_compose.
  apply NoDup_fmap_2; [|done]. intros a b. apply address_encode_inj.
Qed.

Lemma sum_kept (p : OwnedAccount → bool) st l : Scanned st l →
  zsum ((λ k, as_lamports (st k)) <$> ((λ a, address_encode (oa_pubkey a)) <$> List.filter p l)) = zsum (oa_lamports <$> List.filter p l)
  ∧ zsum (oa_lamports <$> List.filter p l) <= zsum (oa_lamports <$> l).
Proof.
  intros S. split.
  - rewrite <- list_fmap_compose. f_equal. apply list_fmap_ext. intros i a Ha%list_elem_of_lookup_2%list_elem_of_In%filter_In. cbn.
    rewrite (sn_stored _ _ S) by (apply list_elem_of_In; tauto). done.
  - rewrite zsum_filter. pose proof (sn_lamports _ _ S) as Hn. clear S. induction l as [|a l IH]; [done|].
    rewrite !fmap_cons, !zsum_cons. pose proof (Hn a ltac:(apply list_elem_of_here)).
    specialize (IH ltac:(intros b Hb; apply Hn; by apply list_elem_of_further)). destruct (p a); lia.
Qed.

Lemma filter_NoDup {A B} (f : A → B) (p : A → bool) l : NoDup (f <$> l) → NoDup (f <$> List.filter p l).
Proof.
  induction l as [|a l IH]; [done|]. rewrite fmap_cons. intros [Hn Hnd]%NoDup_cons. cbn [List.filter]. destruct (p a); [|by apply IH].
  rewrite fmap_cons. apply NoDup_cons. split; [|by apply IH]. intros (b & E & Hb)%list_elem_of_fmap. apply Hn. rewrite E.
  apply list_elem_of_fmap_2. apply list_elem_of_In, filter_In in Hb as [Hb _]. by apply list_elem_of_In.
Qed.

(** A retired deployment still serves both instructions. *)
Lemma run_close now st keeper session refund :
  run_one D now st (closeIx PROGRAM_ID keeper session refund)
  = close_expired (address_encode PROGRAM_ID) now (infos_of (closeIx PROGRAM_ID keeper session refund)) st.
Proof. unfold run_one, process_instruction. rewrite pass_throw by (rewrite at_home; by rewrite bytesEqual_refl). cbn [closeIx ti_data]. by rewrite andb_false_r. Qed.

Lemma run_reclaim now st payer deferred refund :
  run_one D now st (reclaimIx PROGRAM_ID payer deferred refund)
  = reclaim_deferred (address_encode PROGRAM_ID) now (infos_of (reclaimIx PROGRAM_ID payer deferred refund)) st.
Proof. unfold run_one, process_instruction. rewrite pass_throw by (rewrite at_home; by rewrite bytesEqual_refl). cbn [reclaimIx ti_data]. by rewrite andb_false_r. Qed.

(** CloseExpiredSession takes a session exactly when it is past its expiry. *)
Lemma close_decides st a keeper refund now : is_session a →
  st (address_encode (oa_pubkey a)) = mkState (address_encode PROGRAM_ID) (oa_data a) (oa_lamports a) →
  address_encode refund ≠ address_encode (oa_pubkey a) →
  ∃ e, run_one D now st (closeIx PROGRAM_ID keeper (oa_pubkey a) refund)
    = if expired_at now a then drain st (address_encode (oa_pubkey a)) (address_encode refund) else Throw e.
Proof.
  intros Hd Hst Hne. rewrite run_close. unfold close_expired.
  cbn [infos_of closeIx ti_keys fmap list_fmap lookup list_lookup of_option pubkey k_isSigner k_isWritable].
  rewrite !bind_ok. cbn [ai_key ai_is_signer]. rewrite pass_throw by done. rewrite pass_throw by (by apply bytesEqual_false).
  rewrite Hst. cbn [as_owner as_data]. rewrite pass_throw by (by rewrite bytesEqual_refl). unfold expired_at.
  destruct (Nat.leb_spec 80 (length (oa_data a))) as [Hl|Hl]; cbn [andb].
  2: { eexists. apply throw_when, Nat.ltb_lt. unfold SessionAccount_size. lia. }
  rewrite pass_throw by (apply Nat.ltb_ge; unfold SessionAccount_size; lia).
  rewrite pass_throw by (by destruct Hd as [-> | ->]). cbv zeta.
  change (slice OFF_EXPIRES_AT (OFF_EXPIRES_AT + 8) (oa_data a)) with (slice 72 80 (oa_data a)). fold (session_expiry (oa_data a)).
  destruct (Z.ltb_spec (session_expiry (oa_data a)) now).
  - exists PSessionNotExpired. apply pass_throw, Z.leb_gt. lia.
  - eexists. apply throw_when, Z.leb_le. lia.
Qed.

(** ReclaimDeferred takes a v1 authorization exactly when the caller paid for it and it
    is past its expiry. *)
Lemma reclaim_decides st a sponsor now : discriminator_of a = Some DISC_DEFERRED →
  st (address_encode (oa_pubkey a)) = mkState (address_encode PROGRAM_ID) (oa_data a) (oa_lamports a) →
  address_encode sponsor ≠ address_encode (oa_pubkey a) →
  ∃ e, run_one D now st (reclaimIx PROGRAM_ID sponsor (oa_pubkey a) sponsor)
    = if reclaimable sponsor now a then drain st (address_encode (oa_pubkey a)) (address_encode sponsor) else Throw e.
Proof.
  intros Hd Hst Hne. rewrite run_reclaim. unfold reclaim_deferred.
  cbn [infos_of reclaimIx ti_keys fmap list_fmap lookup list_lookup of_option pubkey k_isSigner k_isWritable].
  rewrite !bind_ok. cbn [ai_key ai_is_signer]. rewrite pass_throw by done.
  rewrite Hst. cbn [as_owner as_data]. rewrite pass_throw by (by rewrite bytesEqual_refl).
  unfold reclaimable, read_deferred. unfold discriminator_of in *. rewrite !bool_decide_true by done. rewrite andb_true_r.
  change (slice V1_OFF_PAYER (V1_OFF_PAYER + 32) (oa_data a)) with (slice 136 168 (oa_data a)).
  change (slice V1_OFF_EXPIRES_AT (V1_OFF_EXPIRES_AT + 8) (oa_data a)) with (slice 168 176 (oa_data a)). fold (deferred_expiry (oa_data a)).
  destruct (Nat.leb_spec 176 (length (oa_data a))) as [Hl|Hl]; cbn [andb].
  2: { exists PInvalidAccountData. by rewrite (proj2 (Nat.ltb_lt _ DeferredExecAccount_size) Hl). }
  rewrite (proj2 (Nat.ltb_ge _ DeferredExecAccount_size) Hl). cbn [throw_if mbind outcome_bind].
  destruct (bytesEqual (slice 136 168 (oa_data a)) (address_encode sponsor)) eqn:Ep; cbn [andb].
  2: { eexists. by apply throw_when. }
  rewrite pass_throw by done. apply bytesEqual_spec in Ep. rewrite Ep. rewrite pass_throw by (by rewrite bytesEqual_refl).
  destruct (Z.ltb_spec (deferred_expiry (oa_data a)) now).
  - exists PUnauthorizedReclaim. rewrite pass_throw by (apply Z.leb_gt; lia). by apply pass_throw, bytesEqual_false.
  - eexists. apply throw_when, Z.leb_le. lia.
Qed.

(** An account that authorises nothing from [slot] on. *)
Definition dead (slot : Z) (data : bytes) : Prop :=
  ∀ accounts authority instruction_data program_id height now ixs,
    accounts !! 2%nat = Some authority → ld_data authority = data → slot <= now →
    is_ok (execute_authorised accounts instruction_data program_id height now ixs) = false.

Lemma dead_by_discriminator slot d : (∀ now, slot <= now →
    val (d !!! 0%nat) ≠ Disc_Authority ∧ (val (d !!! 0%nat) = Disc_Session → session_expiry d < now)) → dead slot d.
Proof.
  intros Hd accounts authority idata pid h now ixs Ha Hdata Hnow. destruct (execute_authorised _ _ _ _ _ _) as [x|] eqn:E; [exfalso|done].
  unfold execute_authorised in E.
  apply bind_inv in E as ([] & _ & E). apply bind_inv in E as (payer & _ & E). apply bind_inv in E as ([] & _ & E).
  apply bind_inv in E as (w & _ & E). apply bind_inv in E as (au & Hau%of_option_ok & E). rewrite Ha in Hau. injection Hau as <-.
  apply bind_inv in E as (v & _ & E). apply bind_inv in E as ([] & _ & E). apply bind_inv in E as ([] & _ & E).
  apply bind_inv in E as ([] & _ & E). apply bind_inv in E as ([] & _ & E). apply bind_inv in E as ([cs n] & _ & E).
  rewrite Hdata in E. destruct (Hd now Hnow) as [Hna Hse]. rewrite (proj2 (Z.eqb_neq _ _) Hna) in E.
  destruct (Z.eqb_spec (val (d !!! 0%nat)) Disc_Session) as [Hs|]; [|done]. specialize (Hse Hs).
  apply bind_inv in E as ([] & _ & E). apply bind_inv in E as ([] & _ & E). apply bind_inv in E as ([] & _ & E).
  apply bind_inv in E as ([] & Hx%throw_if_ok & _). apply Z.ltb_ge in Hx. unfold session_expiry in Hse. lia.
Qed.

Lemma zeros_dead slot n : dead slot (zeros n).
Proof.
  apply dead_by_discriminator. intros now _. assert (E : val (zeros n !!! 0%nat) = 0) by (destruct n; reflexivity). rewrite E. done.
Qed.

Lemma expired_dead slot a : expired_at slot a = true → is_session a → dead slot (oa_data a).
Proof.
  intros [_ He%Z.ltb_lt]%andb_prop Hd. apply dead_by_discriminator. intros now Hnow.
  split; [by destruct Hd as [-> | ->]|lia].
Qed.

(** What a keeper picks with [p] out of a scan. *)
Lemma picked (p : OwnedAccount → bool) st all (to : address) (picks := List.filter p all) : Scanned st all → to ∉ oa_pubkey <$> all →
  (∀ a, a ∈ picks → a ∈ all ∧ p a = true) ∧ (∀ a, a ∈ all → address_encode to ≠ address_encode (oa_pubkey a))
  ∧ NoDup ((λ a, address_encode (oa_pubkey a)) <$> picks) ∧ address_encode to ∉ (λ a, address_encode (oa_pubkey a)) <$> picks.
Proof.
  intros S Hto. assert (Hp : ∀ a, a ∈ picks → a ∈ all ∧ p a = true).
  { intros a [Ha He]%list_elem_of_In%filter_In. by apply list_elem_of_In in Ha. }
  assert (Hne : ∀ a, a ∈ all → address_encode to ≠ address_encode (oa_pubkey a)).
  { intros a Ha E%address_encode_inj. apply Hto. rewrite E. by apply list_elem_of_fmap_2. }
  split_and!; [done|done|apply filter_NoDup, once_encoded, S|]. intros (a & Ea & Ha)%list_elem_of_fmap. apply (Hne a); [by apply Hp|done].
Qed.

Lemma drain_ok_now st all (to : address) a : Scanned st all → a ∈ all →
  as_lamports (st (address_encode to)) + zsum (oa_lamports <$> all) < 2 ^ 64 →
  is_ok (drain st (address_encode (oa_pubkey a)) (address_encode to)) = true.
Proof.
  intros S Ha Hb. unfold drain. rewrite pass_throw; [done|]. apply Z.leb_gt. rewrite (sn_stored _ _ S a Ha). cbn [as_lamports].
  enough (oa_lamports a <= zsum (oa_lamports <$> all)) by lia. pose proof (sn_lamports _ _ S) as Hn. clear S Hb.
  induction all as [|b all IH]; [by apply elem_of_nil in Ha|]. rewrite fmap_cons, zsum_cons.
  assert (Hs : 0 <= zsum (oa_lamports <$> all)).
  { apply zsum_nonneg, Forall_fmap, Forall_forall. intros c Hc. apply Hn. by apply list_elem_of_further. }
  apply elem_of_cons in Ha as [->|Ha]; [lia|]. pose proof (Hn b ltac:(apply list_elem_of_here)).
  specialize (IH Ha ltac:(intros c Hc; apply Hn; by apply list_elem_of_further)). lia.
Qed.

(** C17.  The session keeper collects what is dead and nothing else.  It finds every
    session of either version that is past its expiry (a rounded expiry included), which
    are exactly the ones the program would close at that slot, on a retired deployment
    too.  When no one else interferes, whatever the batches, every transaction it sends
    is accepted: each of those accounts is closed, its whole rent is with the refund
    destination, no other account changes (fees aside), and none of them could authorise
    an Execute from the slot it was judged at on, before or after. *)
Theorem expired_sessions_collected (st : Store) (scan : Z → list OwnedAccount) (BATCH : nat) (keeper refund : address)
    (slot : Z) (slot_at : nat → Z) :
  let all := scan DISC_SESSION_V1 ++ scan DISC_SESSION_V2 in
  Scanned st all → (∀ a, a ∈ all → is_session a) →
  (0 < BATCH)%nat → 0 <= slot <= 2 ^ 53 → (∀ i, slot <= slot_at i) → refund ∉ oa_pubkey <$> all →
  as_lamports (st (address_encode refund)) + zsum (oa_lamports <$> all) < 2 ^ 64 →
  let expired := List.filter (expired_at slot) all in
  (∀ a, a ∈ all → is_ok (run_one D slot st (closeIx PROGRAM_ID keeper (oa_pubkey a) refund)) = expired_at slot a)
  ∧ ∃ st', close_expired_sessions D PROGRAM_ID true BATCH keeper refund slot scan slot_at (λ _ s, s) (λ _, true) st = (st', Z.of_nat (length expired))
    ∧ Drained (address_encode refund) st st' ((λ a, address_encode (oa_pubkey a)) <$> expired)
    ∧ as_lamports (st' (address_encode refund)) = as_lamports (st (address_encode refund)) + zsum (oa_lamports <$> expired)
    ∧ ∀ a, a ∈ expired → dead slot (oa_data a) ∧ dead slot (as_data (st' (address_encode (oa_pubkey a)))).
Proof.
  intros all S Hdisc HB Hs Hnow Href Hb expired.
  destruct (picked (expired_at slot) st all refund S Href) as (Hexp & Hnr & Hnd & Hto). fold expired in Hexp, Hnd, Hto.
  destruct (sum_kept (expired_at slot) st all S) as [Hsum Hle]. fold expired in Hsum, Hle. split.
  { intros a Ha. destruct (close_decides st a keeper refund slot) as [e ->]; [by apply Hdisc|by apply S|by apply Hnr|].
    destruct (expired_at slot a); [by eapply drain_ok_now|done]. }
  assert (Hfound : fd_pubkey <$> fst (expired_sessions slot scan) = oa_pubkey <$> expired) by (by apply expired_found).
  set (found := fst (expired_sessions slot scan)) in *.
  assert (Hkeys : (λ s, address_encode (fd_pubkey s)) <$> found = (λ a, address_encode (oa_pubkey a)) <$> expired).
  { change (λ s, address_encode (fd_pubkey s)) with (address_encode ∘ fd_pubkey). rewrite list_fmap_compose, Hfound.
    by rewrite <- list_fmap_compose. }
  assert (Hof : ∀ s, s ∈ found → ∃ a, a ∈ expired ∧ fd_pubkey s = oa_pubkey a).
  { intros s Hin. apply (list_elem_of_fmap_2 fd_pubkey) in Hin. rewrite Hfound in Hin. apply list_elem_of_fmap in Hin as (a & E & Ha). by exists a. }
  pose proof (batches_concat (length found) BATCH found ltac:(lia) HB) as Hcat.
  destruct (batches_close Found (λ s, address_encode (fd_pubkey s)) (λ s, closeIx PROGRAM_ID keeper (fd_pubkey s) refund)
    (address_encode refund) st (λ closed batch, closed + Z.of_nat (length batch)) slot_at 0 (batches (length found) BATCH found) st 0)
    as (st' & E & Dr); rewrite ?Hcat in *.
  - intros j s (a & Ha & Hk)%Hof st1 E1. rewrite Hk in *. destruct (Hexp a Ha) as (Hall & He).
    destruct (close_decides st1 a keeper refund (slot_at j)) as [e ->]; [by apply Hdisc|rewrite E1; by apply S|by apply Hnr|].
    by rewrite (expired_later slot).
  - intros s (a & Ha & ->)%Hof. destruct (Hexp a Ha). split; [done|]. rewrite (sn_stored _ _ S) by done. by apply S.
  - by rewrite Hkeys.
  - by rewrite Hkeys.
  - rewrite Hkeys, Hsum. lia.
  - rewrite Hkeys in Dr. exists st'. split_and!.
    + unfold close_expired_sessions. fold found in E. destruct (expired_sessions slot scan) as [f live] eqn:Ef. cbn [fst] in found. subst found.
      cbn [negb fst] in *. rewrite E, count_batches, Hcat, Z.add_0_l. do 2 f_equal. apply (f_equal length) in Hfound. by rewrite !length_fmap in Hfound.
    + exact Dr.
    + rewrite (dr_gain _ _ _ _ Dr). cbn [as_lamports]. by rewrite Hsum.
    + intros a Ha. destruct (Hexp a Ha) as (Hall & He). split; [apply expired_dead; [done|by apply Hdisc]|].
      rewrite (dr_closed _ _ _ _ Dr); [apply zeros_dead|]. apply list_elem_of_fmap. by exists a.
Qed.

Lemma credit_batches (bs : list (list OwnedAccount)) n : Forall (λ a, 0 <= oa_lamports a) (concat bs) → 0 <= n →
  n + zsum (oa_lamports <$> concat bs) <= 2 ^ 53 →
  fold_left (λ n b, num_add n (sum_numbers (oa_lamports <$> b))) bs n = n + zsum (oa_lamports <$> concat bs).
Proof.
  revert n. induction bs as [|b bs IH]; intros n Hf Hn Hb; cbn [fold_left concat] in *; [cbn; lia|].
  rewrite fmap_app, zsum_app in *. apply Forall_app in Hf as [Hf1 Hf2].
  assert (0 <= zsum (oa_lamports <$> b)) by (by apply zsum_nonneg, Forall_fmap).
  assert (0 <= zsum (oa_lamports <$> concat bs)) by (by apply zsum_nonneg, Forall_fmap).
  assert (E : num_add n (sum_numbers (oa_lamports <$> b)) = n + zsum (oa_lamports <$> b)).
  { unfold sum_numbers. rewrite num_sum_exact by (by apply Forall_fmap || lia). unfold num_add. by rewrite number_of_small by lia. }
  rewrite E, IH by (done || lia). lia.
Qed.

(** C14.  The keeper of deferred authorizations collects what its sponsor paid for and
    nothing else.  What it picks are exactly the v1 authorizations the program would let
    the sponsor reclaim at that slot, on a retired deployment too, and it counts every
    authorization once, as the sponsor's, as not expired or as another payer's.  When
    the relayer takes its transactions and no one else interferes, whatever the batches,
    each one is accepted: the accounts it picked are closed, their rent is with the
    sponsor, no other account changes (fees aside), and the amount it reports is what
    was returned, to the lamport. *)
Theorem expired_deferred_reclaimed (st : Store) (accounts : list OwnedAccount) (BATCH : nat) (sponsor : address)
    (slot : Z) (slot_at : nat → Z) :
  Scanned st accounts → (0 < BATCH)%nat → 0 <= slot <= 2 ^ 53 → (∀ i, slot <= slot_at i) → sponsor ∉ oa_pubkey <$> accounts →
  as_lamports (st (address_encode sponsor)) + zsum (oa_lamports <$> accounts) < 2 ^ 64 → zsum (oa_lamports <$> accounts) <= 2 ^ 53 →
  let mine := List.filter (reclaimable sponsor slot) accounts in
  let s := expired_deferred sponsor slot accounts in
  (∀ a, a ∈ accounts → discriminator_of a = Some DISC_DEFERRED →
     is_ok (run_one D slot st (reclaimIx PROGRAM_ID sponsor (oa_pubkey a) sponsor)) = reclaimable sponsor slot a)
  ∧ sf_mine s = mine
  ∧ Z.of_nat (length mine) + sf_otherPayer s + sf_notExpired s = Z.of_nat (length (List.filter is_deferred accounts))
  ∧ ∃ st', reclaim_expired D PROGRAM_ID true BATCH sponsor slot accounts slot_at (λ _ s, s) (λ _, true) st = (st', zsum (oa_lamports <$> mine))
    ∧ Drained (address_encode sponsor) st st' ((λ a, address_encode (oa_pubkey a)) <$> mine)
    ∧ as_lamports (st' (address_encode sponsor)) = as_lamports (st (address_encode sponsor)) + zsum (oa_lamports <$> mine).
Proof.
  intros S HB Hs Hnow Href Hb Hsafe mine s.
  destruct (picked (reclaimable sponsor slot) st accounts sponsor S Href) as (Hmine & Hnr & Hnd & Hto). fold mine in Hmine, Hnd, Hto.
  destruct (sum_kept (reclaimable sponsor slot) st accounts S) as [Hsum Hle]. fold mine in Hsum, Hle.
  destruct (sift_deferred_fold sponsor slot accounts (mkSifted [] [] 0 0) Hs) as [Hm Hcount]. fold (expired_deferred sponsor slot accounts) in Hm, Hcount.
  fold s in Hm, Hcount. unfold sifted_count in Hcount. cbn [sf_mine sf_otherPayer sf_notExpired length app] in Hm, Hcount. fold mine in Hm. rewrite Hm in Hcount.
  split_and!; [|done|lia|].
  { intros a Ha Hd. destruct (reclaim_decides st a sponsor slot) as [e ->]; [done|by apply S|by apply Hnr|].
    destruct (reclaimable sponsor slot a); [by eapply drain_ok_now|done]. }
  pose proof (batches_concat (length mine) BATCH mine ltac:(lia) HB) as Hcat.
  destruct (batches_close OwnedAccount (λ a, address_encode (oa_pubkey a)) (λ a, reclaimIx PROGRAM_ID sponsor (oa_pubkey a) sponsor)
    (address_encode sponsor) st (λ r b, num_add r (sum_numbers (oa_lamports <$> b))) slot_at 0 (batches (length mine) BATCH mine) st 0)
    as (st' & E & Dr); rewrite ?Hcat in *; [| |done|done|rewrite Hsum; lia|].
  - intros j a Ha st1 E1. destruct (Hmine a Ha) as (Hall & He).
    destruct (reclaim_decides st1 a sponsor (slot_at j)) as [e ->]; [by eapply reclaimable_disc|rewrite E1; by apply S|by apply Hnr|].
    by rewrite (reclaimable_later sponsor slot).
  - intros a Ha. destruct (Hmine a Ha). split; [done|]. rewrite (sn_stored _ _ S) by done. by apply S.
  - exists st'. split_and!; [|exact Dr|rewrite (dr_gain _ _ _ _ Dr); cbn [as_lamports]; by rewrite Hsum].
    unfold reclaim_expired. fold s. rewrite Hm. cbn [negb]. rewrite E. f_equal. rewrite credit_batches; rewrite ?Hcat; [lia| |lia|lia].
    apply Forall_forall. intros a Ha. apply S. by apply Hmine.
Qed.
End collect.

(** ** Examples *)

(** The chain of a scan, and an account for everyone else. *)
Definition stored_as `{K : Kit} (program : address) (l : list OwnedAccount) (else_ : AccountState) : Store := λ k,
  match List.find (λ a, bytesEqual (address_encode (oa_pubkey a)) k) l with
  | Some a => mkState (address_encode program) (oa_data a) (oa_lamports a)
  | None => else_
  end.

Lemma stored_scanned `{KL : KitLaws} program l other : forallb (λ a, 0 <=? oa_lamports a) l = true → NoDup (oa_pubkey <$> l) →
  Scanned program (stored_as program l other) l.
Proof.
  intros Hn Hnd. constructor; [|intros a Ha; apply nonneg_check in Hn; rewrite Forall_forall in Hn; by apply Hn|done].
  clear Hn. unfold stored_as. induction l as [|b l IH]; intros a Ha; [by apply elem_of_nil in Ha|].
  rewrite fmap_cons in Hnd. apply NoDup_cons in Hnd as [Hb Hnd]. cbn [List.find].
  destruct (bytesEqual (address_encode (oa_pubkey b)) (address_encode (oa_pubkey a))) eqn:E.
  - apply bytesEqual_spec, address_encode_inj in E. apply elem_of_cons in Ha as [->|Ha]; [done|].
    destruct Hb. rewrite E. by apply list_elem_of_fmap_2.
  - apply elem_of_cons in Ha as [->|Ha]; [by rewrite bytesEqual_refl in E|]. by apply IH.
Qed.

Module KeeperSample.
Import ConcreteKit.

Definition program : addr := at_byte 9.
Definition keeper : addr := at_byte 8.
Definition build : Deployment := mkDeployment (address_encode (Kit := kit) program) true (λ _ _ _ _, Throw PInvalidInstructionData).
Definition session (disc expiry : Z) : bytes := u8 disc :: zeros 71 ++ le_split 8 expiry.
(** Two expired sessions, one of each version, one in its last slot, and one whose
    expiry is no exact number. *)
Definition sessions (disc : Z) : list (@OwnedAccount kit) :=
  if disc =? DISC_SESSION_V1 then [mkOwned (at_byte 1) (session 3 99) 1447680; mkOwned (at_byte 2) (session 3 100) 1447680]
  else [mkOwned (at_byte 3) (session 0x23 7) 2000000; mkOwned (at_byte 4) (session 0x23 (2 ^ 64 - 1)) 2000000].
Definition deferred (payer : addr) (expiry : Z) : bytes := u8 4 :: zeros 135 ++ proj1_sig payer ++ le_split 8 expiry.
(** The sponsor's expired authorizations, one that is not, and one of another payer. *)
Definition authorizations : list (@OwnedAccount kit) :=
  [mkOwned (at_byte 1) (deferred keeper 99) 2115840; mkOwned (at_byte 2) (deferred keeper 100) 2115840;
   mkOwned (at_byte 3) (deferred program 5) 2115840; mkOwned (at_byte 4) (deferred keeper 5) 2115840].
Definition key_of (a : addr) : Z := val (proj1_sig a !!! 0%nat).
End KeeperSample.
Import ConcreteKit KeeperSample.

Lemma keys_differ (l : list addr) : bool_decide (NoDup (key_of <$> l)) = true → NoDup l.
Proof. intros H%bool_decide_eq_true. by apply NoDup_fmap_1 in H. Qed.
Lemma key_outside (x : addr) (l : list addr) : bool_decide (key_of x ∈ key_of <$> l) = false → x ∉ l.
Proof. intros H%bool_decide_eq_false Hx. by apply H, list_elem_of_fmap_2. Qed.

Definition session_chain : Store := stored_as (K := kit) program (sessions DISC_SESSION_V1 ++ sessions DISC_SESSION_V2) (mkState [] [] 7).
Definition deferred_chain : Store := stored_as (K := kit) program authorizations (mkState [] [] 7).

Lemma expired_sessions_collected_witness :
  ∃ st', close_expired_sessions (K := kit) build program true 1 keeper keeper 100 sessions (λ _, 101) (λ _ s, s) (λ _, true) session_chain = (st', 2)
    ∧ as_lamports (st' (address_encode (Kit := kit) keeper)) = 3447687.
Proof.
  destruct (@expired_sessions_collected kit kit_laws build program eq_refl session_chain sessions 1 keeper keeper 100 (λ _, 101))
    as (_ & st' & E & _ & Hl & _).
  - apply stored_scanned; [vm_compute; reflexivity|apply keys_differ; vm_compute; reflexivity].
  - apply Forall_forall. repeat (apply Forall_cons; split; [first [left; reflexivity | right; reflexivity]|]). apply Forall_nil. done.
  - lia.
  - lia.
  - lia.
  - apply key_outside. vm_compute. reflexivity.
  - apply Z.ltb_lt. vm_compute. reflexivity.
  - exists st'. split; [rewrite E; f_equal; vm_compute; reflexivity|rewrite Hl; vm_compute; reflexivity].
Defined.

Lemma expired_deferred_reclaimed_witness :
  ∃ st', reclaim_expired (K := kit) build program true 8 keeper 100 authorizations (λ _, 100) (λ _ s, s) (λ _, true) deferred_chain = (st', 4231680)
    ∧ as_lamports (st' (address_encode (Kit := kit) keeper)) = 4231687.
Proof.
  destruct (@expired_deferred_reclaimed kit kit_laws build program eq_refl deferred_chain authorizations 8 keeper 100 (λ _, 100))
    as (_ & _ & _ & st' & E & _ & Hl).
  - apply stored_scanned; [vm_compute; reflexivity|apply keys_differ; vm_compute; reflexivity].
  - lia.
  - lia.
  - lia.
  - apply key_outside. vm_compute. reflexivity.
  - apply Z.ltb_lt. vm_compute. reflexivity.
  - apply Z.leb_le. vm_compute. reflexivity.
  - exists st'. split; [rewrite E; f_equal; vm_compute; reflexivity|rewrite Hl; vm_compute; reflexivity].
Defined.
